(* ===== verification/_CoqProject ===== *)
-Q . S2P
Prelude.v
RustStr.v
F64.v
Json.v
Messages.v
Session.v
SessionStore.v
CronTypes.v
CronService.v
CronFacts.v
CronProps.v
CronRefine.v
CronTick.v
DagCheck.v
InputSpec.v
Workflow.v
WorkflowProps.v
Network.v
Think.v
ToolSchema.v
ToolRegistry.v
ToolProps.v
Provider.v
ProviderProps.v
Retry.v
RetryProps.v
Governance.v
GovernanceProps.v
Runner.v
RunnerProps.v
RunnerOutcome.v
Fallback.v
Bus.v
Router.v
Context.v
ContextProps.v
Memory.v
MemoryProps.v
Sensitive.v
Heartbeat.v
Capability.v
CapabilityProps.v
Pool.v
RuntimeCtx.v
Executor.v
ExecutorProps.v
HookEngine.v
Orchestrator.v
OrchestratorProps.v
OrchestratorAuth.v
Skills.v
PromptBuilder.v
TurnLog.v
AgentLoop.v
LoopProps.v
LoopService.v
Utf8.v
PosixFs.v
Sandbox.v
FsTools.v
FsProps.v
Channels.v
ChannelProps.v
Subagent.v
SubagentProps.v
Shell.v
ShellProps.v
MessageTool.v
CronTool.v
Anthropic.v
AnthropicProps.v
Responses.v
ResponsesProps.v
Registry.v
OpenAICompatClient.v
OpenAICompatProps.v
Factory.v
OpenResponses.v
Conversation.v
ConversationProps.v
