(* ===== verification/Prelude.v ===== *)
(** * A verification of the HiveClaw agent platform

    The repository is a Rust workspace: an agent that talks to chat channels and models
    ([crates/agent], [channels], [providers], [command], [bus]), keeps conversations on
    disk ([crates/session]), runs scheduled jobs and a heartbeat ([crates/cron],
    [heartbeat]), guards its network access ([crates/security]), answers a desktop client
    ([crates/hiveclaw], [crates/hivegui]) and has a web back end with agents, plugins and
    workflows ([crates/hiveweb]).  This library models the parts that
    hold state or decide what is allowed, as executable functions on explicit states, and
    proves what makes them correct.

    ** Conventions

    Strings are their UTF-8 bytes ([RustStr], [Utf8]); JSON values keep the order of their
    members ([Json]).  Integers are [Z] with the wrap-around of their width written out
    where it can happen, or [nat] where the code only counts.  [Result] is [result], a
    loop that is not structural takes fuel and returns a [run], which tells a returned
    value from a panic and from exhausted fuel.  Concurrency is interleaving: a task is a
    state machine whose atomic steps are the critical sections of the source, and theorems
    are about every sequence of steps.  Clock readings, random identifiers, the order of
    hash-map iterations, name resolution, HTTP and the answers of models are arguments; what
    the code relies on of third-party crates is stated as the laws of a class or as named
    hypotheses, each with a concrete instance.

    ** Files

    Foundations
    - [Prelude]: results, runs, machine integers, iterator adaptors, tactics, hints.
    - [RustStr], [Utf8]: the string functions of the standard library; well-formed texts.
    - [F64]: IEEE doubles on the standard library's [spec_float], parsing and rounding.
    - [Json]: [serde_json] values, how derived structs read, the class of codecs.
    - [PosixFs]: paths, directories, files and symbolic links.

    Conversations and schedules
    - [Messages], [Think] ([utils/src/helpers.rs]): legal starts of a message list, splitting of
      long messages, token estimates; thinking blocks in model texts.
    - [Session], [SessionStore] ([session/src/manager.rs]): the history pipeline, trimming and
      archiving; files as lists of atomic steps, loading with repair, saving, faults.
    - [CronTypes] ([cron/src/types.rs]), [CronService] ([cron/src/service.rs]); [CronFacts],
      [CronProps], [CronRefine], [CronTick]: schedules and execution, the refinement of a map of
      jobs, the timer.
    - [Heartbeat] ([heartbeat/src/service.rs], [utils/src/evaluator.rs]).
    - [Bus] ([bus/src/]), [Router] ([command/src/router.rs]): lanes as interleaved steps; the
      tiers of slash commands.
    - [Channels], [ChannelProps] ([channels/src/manager.rs], [base.rs], [registry.rs]): the
      channel manager and its dispatcher.

    Models
    - [Provider], [ProviderProps], [Retry], [RetryProps] ([providers/src/base.rs]): requests,
      responses, sanitising; transient errors, delays, the retry loop.
    - [Fallback] ([providers/src/fallback_provider.rs]): circuit breaker and failover.
    - [Anthropic], [AnthropicProps] ([providers/src/anthropic_provider.rs]).
    - [Responses], [ResponsesProps] ([providers/src/responses/], [azure_openai_provider.rs],
      [openai_codex_provider.rs]).
    - [OpenAICompatClient], [OpenAICompatProps] ([providers/src/openai_compat_provider.rs]).
    - [Registry] ([providers/src/registry.rs]), [Factory] ([providers/src/factory.rs]).

    The agent
    - [ToolSchema], [ToolRegistry], [ToolProps] ([agent/src/tools/schema.rs], [base.rs],
      [registry.rs], [utils/src/runtime.rs]).
    - [Governance], [GovernanceProps], [Runner], [RunnerProps], [RunnerOutcome]
      ([agent/src/runner.rs]): what is done to a history before it is sent; the run of an agent,
      an iteration ending in [Continue], [Break] or [Return].
    - [Context], [ContextProps] ([agent/src/context/]); [Memory], [MemoryProps]
      ([agent/src/memory.rs]); [Skills] ([agent/src/skills.rs]); [PromptBuilder]
      ([agent/src/context/builder.rs]).
    - [TurnLog], [AgentLoop], [LoopProps], [LoopService] ([agent/src/loop_.rs],
      [autocompact.rs]): checkpoints, a turn as a state machine, messages handled at once.
    - [Subagent], [SubagentProps] ([agent/src/subagent.rs]).
    - [Sandbox], [FsTools], [FsProps], [Shell], [ShellProps], [MessageTool], [CronTool]
      ([agent/src/tools/]): path policy, file tools, shell, messages and spawning, cron.

    The web back end
    - [Network] ([security/src/network.rs]): CIDR blocks and the URL checks.
    - [DagCheck], [InputSpec], [Workflow], [WorkflowProps] ([hiveweb/src/services/workflow.rs],
      [runtime/input_source.rs]): graphs of workflows and their tables.
    - [Executor], [ExecutorProps] ([hiveweb/src/runtime/workflow/]).
    - [Sensitive] ([hiveweb/src/services/sensitive_filter.rs]).
    - [Capability], [CapabilityProps] ([runtime/capability.rs], [capabilities/]), [Pool]
      ([runtime/pool.rs], [invoker.rs]): plugins.
    - [RuntimeCtx], [HookEngine] ([runtime/hook.rs]).
    - [Orchestrator], [OrchestratorProps], [OrchestratorAuth] ([runtime/orchestrator.rs]).

    The desktop client and its endpoint
    - [OpenResponses] ([hiveclaw/src/openresponses/], [agent_backend.rs], [http/responses.rs]):
      requests, their validation, answers and streams.
    - [Conversation] ([hivegui/src/model/conversation.rs], [client/], [ui/conversation.rs]): turns,
      attachments, requests and the tasks that wait for answers.
    - [ConversationProps]: the client as a state machine, and client and endpoint together.

    ** How they interact

    A message reaches [Channels], is put on the [Bus] and becomes a turn of [AgentLoop], which
    loads its [Session] through the interface [SessionRepo] (implemented by [SessionStore]),
    builds a prompt with [PromptBuilder] from [Memory] and [Skills] and calls [Runner].
    [Runner] asks the model through [Retry], which prepares requests with [Provider], governs
    its history with [Governance], cleans answers with [Think] and runs tools through
    [ToolRegistry], which checks them with [ToolSchema]; [FsTools], [Shell], [MessageTool] and
    [CronTool] are such tools.  The model clients implement the record [LLMProvider] that
    [Retry] and [Fallback] wrap; [Factory] chooses one from [Registry].  [Orchestrator] runs a
    chat session of the back end with [HookEngine], [Executor] and [RuntimeCtx]; [Executor]
    runs the graphs [Workflow] stored after [DagCheck].  [CronTool] calls [CronService].  The
    requests of [Conversation] are read by [OpenResponses], which hands them to [AgentLoop] and
    streams the answer back.

    ** What the theorems show

    - Messages and sessions: the legal start is the least legal one; splitting terminates,
      respects the limit and loses only white space; histories contain no orphaned tool result
      and respect their budgets; save then load is the identity, and crashes leave the old or the
      new file.
    - Cron: any interleaving of operations by processes sharing the files refines one map of
      jobs; ticks execute exactly the due jobs; the cron tool acts on that map as it says.
    - Bus and channels: delivery in order and once; the dispatcher loses, repeats and overtakes
      nothing, joins only consecutive pieces of a stream and needs at most two turns a message.
    - Providers: after role alternation a list is one the services accept; in standard mode a
      call ends after at most four requests; the breaker is the history of the primary.
    - Clients: what Anthropic is sent takes turns, starts and ends as it must and holds every
      block in order; an answer stored and sent again is the same answer; the three readers of a
      Responses stream agree and keep interleaved calls apart; the OpenAI-compatible client
      keeps calls and results paired; a client is built exactly when its credentials are there.
    - Tools: the validator accepts exactly the conforming values; a tool only runs on validated
      parameters; reading cannot learn what lies outside the allowed directories; an edit
      replaces what it says; every process of the shell satisfies the policy.
    - Runner and loop: a run keeps histories paired, only sends paired ones, at most
      [max_iterations + 1] of them, returns, and its result agrees with its stop reason; a turn
      saves what it added; with concurrent messages a session holds exactly the exchanges of the
      answered ones; sub-agents announce once and their registry is exact.
    - Context and memory: finished contexts are frozen, credentials are never stored, a
      sub-agent cannot change what it was denied; the memory refines a numbered log.
    - Network and plugins: the URL check allows exactly public or whitelisted targets; plugin
      calls are denied by default and stay within their sandboxes.
    - Workflows: the depth-first search decides acyclicity; [put_graph] accepts exactly the valid
      graphs; a stored graph executes, every node once and after its predecessors.
    - Orchestrator: a session acts only under the authority of its agents, calls a model at most
      once per hop with paired conversations, enters no agent twice and announces its end once.
    - Desktop client: in every interleaving at most one turn is pending and late events change
      nothing; a message sent is accepted as written and its answer becomes the next turn.

    Theorems and examples named after a defect exhibit behaviour against a comment, a document or
    the evident purpose (a cancelled tick, escaping paths, requests without a host, streamed
    texts that are not returned, and others).

    ** Fuel and bounds

    Splitting uses the length of the text; the cycle search twice the number of nodes; the
    layers of a workflow the number of nodes plus one; retries four rounds in standard mode, two
    chunks per wait of at most a minute; a turn of the loop eight states ([TURN_FUEL]); symbolic
    links forty ([MAX_LINKS], the limit of the kernel); searching a text its length plus one.  In
    each case a theorem shows the fuel to be enough, or exhausted fuel to be the documented
    limit.  At most three messages are past their start in the service loop.

    ** Not modelled

    The protocol clients of the chat services, the other HTTP servers, the command line and the
    views of the desktop client (input and output); the clients of Bedrock, GitHub Copilot and
    image services and the storage of tokens; the tools for MCP servers, the web, searching,
    notebooks and the agent's own settings, and the long task, whose body is missing in the
    source; the configuration schema beyond what [Factory] reads; the other services of the back end (rows of a database), its model
    client and its WebAssembly engine.  Inside the modelled files: the clean-up of result buckets
    and time strings of the helpers; previews and the directory listing of sessions; the legacy
    history and the prompt templates of memory; the metadata update and time stamps of workflows;
    failed writes of the cron store, which the code only logs; hooks, progress messages and live
    file edits of a run, which only observe; true concurrency inside a batch of read-only tools or a
    layer of a workflow; switching models, titles and background consolidation in the loop; the
    texts of most built-in slash commands; the JSON text of context snapshots. *)

From stdpp Require Export base gmap strings list numbers pretty.
From Stdlib Require Export ZArith Lia.

(** ** Rust's [Result]

    Fallible operations of the source return [Result<T, E>]; the model keeps
    the two constructors and the [?] operator becomes the monadic bind. *)

Inductive result (A E : Type) : Type :=
| Ok (a : A)
| Err (e : E).
Arguments Ok {A E} a.
Arguments Err {A E} e.

Declare Scope hive_scope.
Delimit Scope hive_scope with hive.

Definition result_bind {A B E} (r : result A E) (f : A → result B E) : result B E :=
  match r with
  | Ok a => f a
  | Err e => Err e
  end.

Notation "'let?' x ':=' r 'in' k" := (result_bind r (λ x, k))
  (at level 10, x pattern, r at level 100, k at level 200) : hive_scope.

(** [r.map_err(f)]. *)
Definition map_err {A E F} (f : E → F) (r : result A E) : result A F :=
  match r with Ok a => Ok a | Err e => Err (f e) end.

(** [Result::ok]. *)
Definition result_ok {A E} (r : result A E) : option A :=
  match r with Ok a => Some a | Err _ => None end.

(** ** Runs of loops

    A loop whose recursion is not structural is a [Fixpoint] on fuel; its result
    separates a returned value, a Rust panic (slice out of range or off a
    character boundary) and exhausted fuel. *)

Inductive run (A : Type) : Type :=
| Returns (a : A)
| Panics
| OutOfFuel.
Arguments Returns {A} a.
Arguments Panics {A}.
Arguments OutOfFuel {A}.

Definition run_bind {A B} (r : run A) (f : A → run B) : run B :=
  match r with
  | Returns a => f a
  | Panics => Panics
  | OutOfFuel => OutOfFuel
  end.

Notation "'let!' x ':=' r 'in' k" := (run_bind r (λ x, k))
  (at level 10, x pattern, r at level 100, k at level 200) : hive_scope.

Definition run_of_option {A} (o : option A) : run A :=
  match o with Some a => Returns a | None => Panics end.

(** ** Machine integers

    [i64] and [usize] values are [Z] (or [nat] where the source only compares
    and subtracts below a known bound); the operations that can leave the range
    are written with their wrap-around or saturation. *)

Definition two_pow (w : Z) : Z := 2 ^ w.
Definition i64_min : Z := -9223372036854775808.
Definition i64_max : Z := 9223372036854775807.
Definition u64_max : Z := 18446744073709551615.
Definition u32_max : Z := 4294967295.

(** Two's-complement reduction into the [i64] range (release-mode [+] and [-]). *)
Definition wrap_i64 (z : Z) : Z :=
  (z + 9223372036854775808) mod 18446744073709551616 - 9223372036854775808.

(** Reduction into the [u64]/[usize] range ([fetch_add], [fetch_sub], [as usize]). *)
Definition wrap_u64 (z : Z) : Z := z mod 18446744073709551616.

(** [as u32]. *)
Definition wrap_u32 (z : Z) : Z := z mod 4294967296.

Definition in_i64 (z : Z) : bool := (i64_min <=? z)%Z && (z <=? i64_max)%Z.
Definition in_u64 (z : Z) : bool := (0 <=? z)%Z && (z <=? u64_max)%Z.

Lemma wrap_i64_id z : in_i64 z = true → wrap_i64 z = z.
Proof.
  unfold in_i64, wrap_i64, i64_min, i64_max. intros H.
  apply andb_true_iff in H as [H1 H2]. rewrite Z.mod_small; lia.
Qed.

Lemma wrap_i64_range z : in_i64 (wrap_i64 z) = true.
Proof.
  unfold in_i64, wrap_i64, i64_min, i64_max.
  pose proof (Z.mod_pos_bound (z + 9223372036854775808) 18446744073709551616).
  lia.
Qed.

Lemma wrap_u64_id z : in_u64 z = true → wrap_u64 z = z.
Proof.
  unfold in_u64, wrap_u64, u64_max. intros H.
  apply andb_true_iff in H as [H1 H2]. rewrite Z.mod_small; lia.
Qed.

(** ** Iterator adaptors of the standard library *)

(** [iter().position(f)]. *)
Fixpoint position {A} (f : A → bool) (l : list A) : option nat :=
  match l with
  | [] => None
  | x :: l' => if f x then Some 0 else S <$> position f l'
  end.

(** [iter().rposition(f)]. *)
Fixpoint rposition {A} (f : A → bool) (l : list A) : option nat :=
  match l with
  | [] => None
  | x :: l' =>
      match rposition f l' with
      | Some i => Some (S i)
      | None => if f x then Some 0 else None
      end
  end.

(** [filter_map] and [find]. *)
Fixpoint filter_map {A B} (f : A → option B) (l : list A) : list B :=
  match l with
  | [] => []
  | x :: l' => match f x with Some y => y :: filter_map f l' | None => filter_map f l' end
  end.

Fixpoint find_first {A} (f : A → bool) (l : list A) : option A :=
  match l with
  | [] => None
  | x :: l' => if f x then Some x else find_first f l'
  end.

(** [retain(f)] keeps the elements satisfying [f], in order. *)
Abbreviation retain f l := (List.filter f l).

Section ListFacts.
Context {A : Type}.
Implicit Types (f : A → bool) (l : list A).

Lemma position_Some f l i :
  position f l = Some i →
  ∃ x, l !! i = Some x ∧ f x = true ∧ ∀ j y, j < i → l !! j = Some y → f y = false.
Proof.
  revert i. induction l as [|x l IH]; intros i; simpl; [done|].
  destruct (f x) eqn:Hx.
  - intros [= <-]. exists x. split_and!; [done..|]. intros j y Hj. lia.
  - destruct (position f l) as [k|]; simpl; [|done]. intros [= <-].
    destruct (IH k eq_refl) as (y & Hy & Hfy & Hmin).
    exists y. split_and!; [done..|]. intros [|j] z Hj Hz; simplify_eq/=; [done|].
    eapply Hmin; [|done]. lia.
Qed.

Lemma position_None f l : position f l = None ↔ ∀ x, x ∈ l → f x = false.
Proof.
  induction l as [|x l IH]; simpl.
  - split; [|done]. intros _ y Hy. by apply not_elem_of_nil in Hy.
  - destruct (f x) eqn:Hx.
    + split; [done|]. intros H. specialize (H x). rewrite H in Hx; [done|left].
    + destruct (position f l) as [k|] eqn:Hp; simpl.
      * split; [done|]. intros H. exfalso.
        destruct IH as [_ IH]. discriminate IH. intros y Hy. apply H. by right.
      * split; [|done]. intros _ y Hy. apply elem_of_cons in Hy as [->|Hy]; [done|].
        by apply IH.
Qed.

Lemma position_lt f l i : position f l = Some i → i < length l.
Proof.
  intros (x & Hx & _)%position_Some. by apply lookup_lt_Some in Hx.
Qed.

Lemma rposition_Some f l i :
  rposition f l = Some i →
  ∃ x, l !! i = Some x ∧ f x = true ∧ ∀ j y, i < j → l !! j = Some y → f y = false.
Proof.
  revert i. induction l as [|x l IH]; intros i; simpl; [done|].
  destruct (rposition f l) as [k|] eqn:Hr.
  - intros [= <-]. destruct (IH k eq_refl) as (y & Hy & Hfy & Hmax).
    exists y. split_and!; [done..|]. intros [|j] z Hj Hz; [lia|].
    eapply Hmax; [|done]. lia.
  - destruct (f x) eqn:Hx; [|done]. intros [= <-]. exists x. split_and!; [done..|].
    intros [|j] z Hj Hz; [lia|]. simpl in Hz.
    clear IH Hj. revert j Hz Hr. induction l as [|w l IH]; intros j Hz Hr; [done|].
    simpl in Hr. destruct (rposition f l); [done|]. destruct (f w) eqn:Hw; [done|].
    destruct j as [|j]; simplify_eq/=; [done|]. by eapply IH.
Qed.

Lemma rposition_lt f l i : rposition f l = Some i → i < length l.
Proof.
  intros (x & Hx & _)%rposition_Some. by apply lookup_lt_Some in Hx.
Qed.

Lemma rposition_None f l : rposition f l = None → ∀ x, x ∈ l → f x = false.
Proof.
  induction l as [|x l IH]; simpl; intros H y Hy.
  - by apply not_elem_of_nil in Hy.
  - destruct (rposition f l); [done|]. destruct (f x) eqn:Hx; [done|].
    apply elem_of_cons in Hy as [->|Hy]; [done|]. by apply IH.
Qed.

Lemma find_first_Some f l x : find_first f l = Some x → x ∈ l ∧ f x = true.
Proof.
  induction l as [|y l IH]; simpl; [done|]. destruct (f y) eqn:Hy.
  - intros [= ->]. split; [left|done].
  - intros [??]%IH. split; [by right|done].
Qed.

Lemma find_first_None f l : find_first f l = None ↔ ∀ x, x ∈ l → f x = false.
Proof.
  induction l as [|y l IH]; simpl.
  - split; [|done]. intros _ x Hx. by apply not_elem_of_nil in Hx.
  - destruct (f y) eqn:Hy.
    + split; [done|]. intros H. specialize (H y). rewrite H in Hy; [done|left].
    + rewrite IH. split.
      * intros H x [->|Hx]%elem_of_cons; [done|]. by apply H.
      * intros H x Hx. apply H. by right.
Qed.

Lemma retain_elem_of f l x : x ∈ retain f l ↔ x ∈ l ∧ f x = true.
Proof. rewrite !list_elem_of_In. apply filter_In. Qed.

Lemma retain_sublist f l : retain f l `sublist_of` l.
Proof.
  induction l as [|x l IH]; simpl; [done|]. destruct (f x); by constructor.
Qed.

Lemma retain_Forall (P : A → Prop) f l : Forall P l → Forall P (retain f l).
Proof. rewrite !Forall_forall. intros H x Hx. apply H. by eapply list_elem_of_In, filter_In, list_elem_of_In. Qed.

Lemma retain_length f l : length (retain f l) ≤ length l.
Proof. apply sublist_length, retain_sublist. Qed.

Lemma retain_all f l : (∀ x, x ∈ l → f x = true) → retain f l = l.
Proof.
  induction l as [|x l IH]; simpl; intros H; [done|].
  rewrite H; [|left]. f_equal. apply IH. intros y Hy. apply H. by right.
Qed.

Lemma elem_of_drop_incl n l x : x ∈ drop n l → x ∈ l.
Proof. intros Hx. rewrite <-(take_drop n l). apply elem_of_app. by right. Qed.

Lemma retain_ext f g l : (∀ x, x ∈ l → f x = g x) → retain f l = retain g l.
Proof.
  induction l as [|a l IH]; intros H; [done|]. cbn. rewrite H by left. rewrite IH; [done|]. intros. apply H. by right.
Qed.

Lemma retain_none f l : (∀ x, x ∈ l → f x = false) → retain f l = [].
Proof.
  induction l as [|a l IH]; intros H; [done|]. cbn. rewrite H by left. apply IH. intros. apply H. by right.
Qed.

Lemma retain_app f l k : retain f (l ++ k) = retain f l ++ retain f k.
Proof. apply List.filter_app. Qed.

Lemma retain_perm f l k : l ≡ₚ k → retain f l ≡ₚ retain f k.
Proof.
  induction 1 as [|x l k _ IH|x y l|]; simpl; [done| | |by etrans].
  - destruct (f x); [by rewrite IH|done].
  - destruct (f x), (f y); try done. apply Permutation_swap.
Qed.
End ListFacts.

(** ** Proof automation *)

Create HintDb hive discriminated.

Lemma elem_of_filter_map {A B} (f : A → option B) (l : list A) y :
  y ∈ filter_map f l ↔ ∃ x, x ∈ l ∧ f x = Some y.
Proof.
  induction l as [|x l IH]; simpl.
  - split; [by intros ?%not_elem_of_nil|]. intros (x & Hx & _). by apply not_elem_of_nil in Hx.
  - destruct (f x) as [z|] eqn:Hx; rewrite ?elem_of_cons, IH; split.
    + intros [->|(w & ? & ?)]; [exists x|exists w]; rewrite elem_of_cons; auto.
    + intros (w & [->|?]%elem_of_cons & ?); [left; congruence|right; eauto].
    + intros (w & ? & ?). exists w. rewrite elem_of_cons. auto.
    + intros (w & [->|?]%elem_of_cons & ?); [congruence|eauto].
Qed.

#[export] Hint Resolve position_lt rposition_lt retain_sublist retain_length : hive.

(** Case analysis on every [match] and [if] of the goal, keeping the equations. *)
Ltac split_matches :=
  repeat (case_match; simplify_eq/=).

(** Turn boolean comparisons in the context into propositions. *)
Ltac bool_to_prop :=
  repeat match goal with
  | H : (_ && _) = true |- _ => apply andb_true_iff in H as [? ?]
  | H : (_ || _) = false |- _ => apply orb_false_iff in H as [? ?]
  | H : negb _ = true |- _ => apply negb_true_iff in H
  | H : negb _ = false |- _ => apply negb_false_iff in H
  | H : bool_decide _ = true |- _ => apply bool_decide_eq_true in H
  | H : bool_decide _ = false |- _ => apply bool_decide_eq_false in H
  | H : String.eqb _ _ = true |- _ => apply String.eqb_eq in H
  | H : String.eqb _ _ = false |- _ => apply String.eqb_neq in H
  | H : (_ =? _)%Z = true |- _ => apply Z.eqb_eq in H
  | H : (_ =? _)%Z = false |- _ => apply Z.eqb_neq in H
  | H : (_ <=? _)%Z = true |- _ => apply Z.leb_le in H
  | H : (_ <=? _)%Z = false |- _ => apply Z.leb_gt in H
  | H : (_ <? _)%Z = true |- _ => apply Z.ltb_lt in H
  | H : (_ <? _)%Z = false |- _ => apply Z.ltb_ge in H
  | H : Nat.leb _ _ = true |- _ => apply Nat.leb_le in H
  | H : Nat.leb _ _ = false |- _ => apply Nat.leb_gt in H
  | H : Nat.ltb _ _ = true |- _ => apply Nat.ltb_lt in H
  | H : Nat.ltb _ _ = false |- _ => apply Nat.ltb_ge in H
  | H : Nat.eqb _ _ = true |- _ => apply Nat.eqb_eq in H
  | H : Nat.eqb _ _ = false |- _ => apply Nat.eqb_neq in H
  end.
