(* ===== verification/RustStr.v ===== *)
(** * Rust strings

    A [String]/[&str] is its UTF-8 byte sequence, a [string] of the standard
    library: [len()] is the number of bytes, [chars().count()] the number of
    bytes that are not continuation bytes, and slicing succeeds only on a
    character boundary.  The file holds the operations of [str] the components
    use and the lemmas on them. *)

From Stdlib Require Ascii.
From S2P Require Import Prelude.
Export Stdlib.Strings.Ascii (ascii(..), N_of_ascii).
Export (notations) Stdlib.Strings.Ascii.

Local Open Scope stdpp_scope.

(** ** Bytes and characters *)

Definition byte_of (c : ascii) : Z := Z.of_N (N_of_ascii c).

(** A UTF-8 continuation byte [10xxxxxx]. *)
Definition is_cont (c : ascii) : bool :=
  match c with Ascii _ _ _ _ _ _ b6 b7 => b7 && negb b6 end.

(** [s.chars().count()]. *)
Fixpoint chars_count (s : string) : nat :=
  match s with
  | "" => 0
  | String c s' => if is_cont c then chars_count s' else S (chars_count s')
  end.

(** The bytes of [s.chars().take(n)]. *)
Fixpoint take_chars (n : nat) (s : string) : string :=
  match s with
  | "" => ""
  | String c s' =>
      if is_cont c then String c (take_chars n s')
      else match n with
           | 0 => ""
           | S n' => String c (take_chars n' s')
           end
  end.

(** [s.chars()], each as its bytes. *)
Fixpoint chars_of (s : string) : list string :=
  match s with
  | "" => []
  | String c s' =>
      match s' with
      | String d _ => if is_cont d then match chars_of s' with x :: xs => String c x :: xs | [] => [String c ""] end
                      else String c "" :: chars_of s'
      | "" => [String c ""]
      end
  end.

(** Byte slices [&s[..n]] and [&s[n..]] without the boundary check. *)
Fixpoint stake (n : nat) (s : string) : string :=
  match n, s with
  | S n', String c s' => String c (stake n' s')
  | _, _ => ""
  end.

Fixpoint sdrop (n : nat) (s : string) : string :=
  match n, s with
  | 0, _ => s
  | S n', String _ s' => sdrop n' s'
  | S _, "" => ""
  end.

(** [s.is_char_boundary(n)]. *)
Definition is_char_boundary (s : string) (n : nat) : bool :=
  (n =? 0) || (n =? String.length s) ||
  match sdrop n s with
  | "" => false
  | String c _ => negb (is_cont c)
  end.

(** [s.split_at(n)], [None] when it panics. *)
Definition split_at (s : string) (n : nat) : option (string * string) :=
  if is_char_boundary s n then Some (stake n s, sdrop n s) else None.

(** [&s[..n]], [None] when it panics. *)
Definition slice_to (s : string) (n : nat) : option string :=
  if is_char_boundary s n then Some (stake n s) else None.

(** ** Whitespace

    [char::is_whitespace]: the ASCII range U+0009..U+000D and U+0020, and the
    multi-byte members U+0085, U+00A0, U+1680, U+2000..U+200A, U+2028, U+2029,
    U+202F, U+205F and U+3000 in their UTF-8 encodings. *)

Definition ws1 (a : ascii) : bool :=
  let b := byte_of a in ((9 <=? b) && (b <=? 13) || (b =? 32))%Z.

Definition ws2 (a b : ascii) : bool :=
  ((byte_of a =? 194) && ((byte_of b =? 133) || (byte_of b =? 160)))%Z.

Definition ws3 (a b c : ascii) : bool :=
  let x := byte_of a in let y := byte_of b in let z := byte_of c in
  ((x =? 225) && (y =? 154) && (z =? 128)
   || (x =? 226) && (y =? 128) &&
      ((128 <=? z) && (z <=? 138) || (z =? 168) || (z =? 169) || (z =? 175))
   || (x =? 226) && (y =? 129) && (z =? 159)
   || (x =? 227) && (y =? 128) && (z =? 128))%Z.

Fixpoint trim_start (s : string) : string :=
  match s with
  | "" => ""
  | String a r1 =>
      if ws1 a then trim_start r1 else
      match r1 with
      | "" => s
      | String b r2 =>
          if ws2 a b then trim_start r2 else
          match r2 with
          | "" => s
          | String c r3 => if ws3 a b c then trim_start r3 else s
          end
      end
  end.

(** [trim_start] on the reversed bytes. *)
Fixpoint trim_rev (s : string) : string :=
  match s with
  | "" => ""
  | String a r1 =>
      if ws1 a then trim_rev r1 else
      match r1 with
      | "" => s
      | String b r2 =>
          if ws2 b a then trim_rev r2 else
          match r2 with
          | "" => s
          | String c r3 => if ws3 c b a then trim_rev r3 else s
          end
      end
  end.

Definition trim_end (s : string) : string := String.rev (trim_rev (String.rev s)).
Definition trim (s : string) : string := trim_end (trim_start s).

Definition is_empty (s : string) : bool := match s with "" => true | _ => false end.

(** A string of whitespace characters only. *)
Definition all_ws (s : string) : bool := is_empty (trim_start s).

(** ** Searching and joining *)

Fixpoint find_char (c : ascii) (s : string) : option nat :=
  match s with
  | "" => None
  | String a s' => if Ascii.eqb a c then Some 0 else S <$> find_char c s'
  end.

Fixpoint rfind_char (c : ascii) (s : string) : option nat :=
  match s with
  | "" => None
  | String a s' =>
      match rfind_char c s' with
      | Some i => Some (S i)
      | None => if Ascii.eqb a c then Some 0 else None
      end
  end.

(** [parts.join(sep)]. *)
Fixpoint join (sep : string) (parts : list string) : string :=
  match parts with
  | [] => ""
  | [p] => p
  | p :: ps => p +:+ sep +:+ join sep ps
  end.

(** [s.starts_with(p)] and [s.strip_prefix(p)]. *)
Fixpoint strip_prefix (p s : string) : option string :=
  match p, s with
  | "", _ => Some s
  | String a p', String b s' => if Ascii.eqb a b then strip_prefix p' s' else None
  | String _ _, "" => None
  end.

Definition starts_with (s p : string) : bool :=
  match strip_prefix p s with Some _ => true | None => false end.

(** [s.find(p)], and [s.contains(p)]. *)
Fixpoint find_sub (p s : string) : option nat :=
  if starts_with s p then Some 0
  else match s with "" => None | String _ s' => S <$> find_sub p s' end.

Definition contains_str (s p : string) : bool :=
  match find_sub p s with Some _ => true | None => false end.

(** [s.to_lowercase()] on ASCII letters.  Outside ASCII only U+0130 and U+212A lower to
    text with an ASCII letter; none of the words the program compares with or looks for
    can arise from them. *)
Definition lower_char (c : ascii) : ascii :=
  let b := byte_of c in
  if ((65 <=? b) && (b <=? 90))%Z then Ascii.ascii_of_N (Z.to_N (b + 32)) else c.

Fixpoint to_lowercase (s : string) : string :=
  match s with "" => "" | String c s' => String (lower_char c) (to_lowercase s') end.

(** [s.to_ascii_lowercase()]. *)
Definition to_ascii_lowercase (s : string) : string := to_lowercase s.

(** [s.to_ascii_uppercase()]. *)
Definition ascii_upper (c : ascii) : ascii :=
  let b := byte_of c in
  if ((97 <=? b) && (b <=? 122))%Z then Ascii.ascii_of_N (Z.to_N (b - 32)) else c.

Fixpoint to_ascii_uppercase (s : string) : string :=
  match s with "" => "" | String c s' => String (ascii_upper c) (to_ascii_uppercase s') end.

(** [s.replace(c, d)] on single ASCII characters. *)
Fixpoint replace_char (c d : ascii) (s : string) : string :=
  match s with
  | "" => ""
  | String a s' => String (if Ascii.eqb a c then d else a) (replace_char c d s')
  end.

(** [s.replace(p, r)] for a pattern that is not empty, on the rest of the text after [skip]
    bytes of a match. *)
Fixpoint replace_from (p r : string) (skip : nat) (s : string) : string :=
  match s with
  | "" => ""
  | String c s' =>
      match skip with
      | S k => replace_from p r k s'
      | O => if starts_with s p then r +:+ replace_from p r (String.length p - 1) s'
             else String c (replace_from p r 0 s')
      end
  end.

Definition replace_str (p r s : string) : string := replace_from p r 0 s.

Definition nl : ascii := "010"%char.
Definition cr : ascii := "013"%char.
Definition sp : ascii := " "%char.

(** [s.split('\n')] keeping every piece. *)
Fixpoint split_on (c : ascii) (s : string) : list string :=
  match s with
  | "" => [""]
  | String a s' =>
      if Ascii.eqb a c then "" :: split_on c s'
      else match split_on c s' with
           | [] => [String a ""]
           | p :: ps => String a p :: ps
           end
  end.

(** One trailing carriage return removed. *)
Definition strip_cr (s : string) : string :=
  match String.rev s with
  | String a r => if Ascii.eqb a cr then String.rev r else s
  | "" => s
  end.

(** [s.lines()]: pieces ended by ["\n"] (with an optional ["\r"] before it); a
    final piece is a line only when non-empty, and keeps its ["\r"]. *)
Fixpoint lines_of (pieces : list string) : list string :=
  match pieces with
  | [] => []
  | [p] => if is_empty p then [] else [p]
  | p :: ps => strip_cr p :: lines_of ps
  end.

Definition lines (s : string) : list string := lines_of (split_on nl s).

(** ASCII letters, digits and the underscore; the longest such prefix of a text. *)
Definition is_word_char (c : ascii) : bool :=
  let b := byte_of c in
  ((48 <=? b) && (b <=? 57) || (65 <=? b) && (b <=? 90) || (97 <=? b) && (b <=? 122) || (b =? 95))%Z.

Fixpoint drop_word (s : string) : string :=
  match s with String c s' => if is_word_char c then drop_word s' else s | "" => "" end.

Fixpoint take_word (s : string) : string :=
  match s with String c s' => if is_word_char c then String c (take_word s') else "" | "" => "" end.

(** [s.split_whitespace()]; [cur] holds the current word, reversed. *)
Definition flush_word (cur : string) : list string :=
  if is_empty cur then [] else [String.rev cur].

Fixpoint split_ws_go (cur s : string) : list string :=
  match s with
  | "" => flush_word cur
  | String a r1 =>
      if ws1 a then flush_word cur ++ split_ws_go "" r1 else
      match r1 with
      | "" => flush_word (String a cur)
      | String b r2 =>
          if ws2 a b then flush_word cur ++ split_ws_go "" r2 else
          match r2 with
          | "" => split_ws_go (String a cur) r1
          | String c r3 =>
              if ws3 a b c then flush_word cur ++ split_ws_go "" r3
              else split_ws_go (String a cur) r1
          end
      end
  end.

Definition split_whitespace (s : string) : list string := split_ws_go "" s.

(** ** Lemmas *)

Lemma sapp_nil_l s : "" +:+ s = s.
Proof. done. Qed.

Lemma sapp_nil_r s : s +:+ "" = s.
Proof. unfold String.app. induction s as [|c s IH]; simpl; [done|by rewrite IH]. Qed.

Lemma sapp_cons c s t : String c s +:+ t = String c (s +:+ t).
Proof. done. Qed.

Lemma sapp_assoc s t u : s +:+ t +:+ u = (s +:+ t) +:+ u.
Proof. induction s as [|c s IH]; [done|]. rewrite !sapp_cons. by rewrite IH. Qed.

Lemma slength_app s t : String.length (s +:+ t) = String.length s + String.length t.
Proof. induction s as [|c s IH]; [done|]. rewrite sapp_cons. simpl. by rewrite IH. Qed.

Lemma is_empty_true s : is_empty s = true ↔ s = "".
Proof. by destruct s. Qed.

Lemma is_empty_false s : is_empty s = false ↔ s ≠ "".
Proof. by destruct s. Qed.

Lemma stake_sdrop n s : stake n s +:+ sdrop n s = s.
Proof.
  revert s. induction n as [|n IH]; intros [|c s]; try done.
  simpl. rewrite sapp_cons. by rewrite IH.
Qed.

Lemma sdrop_length n s : String.length (sdrop n s) = String.length s - n.
Proof. revert s. induction n as [|n IH]; intros [|c s]; simpl; auto. Qed.

Lemma stake_length n s : String.length (stake n s) = n `min` String.length s.
Proof. revert s. induction n as [|n IH]; intros [|c s]; simpl; auto. Qed.

Lemma chars_count_app s t : chars_count (s +:+ t) = chars_count s + chars_count t.
Proof.
  induction s as [|c s IH]; [done|]. rewrite sapp_cons. simpl.
  destruct (is_cont c); rewrite IH; lia.
Qed.

Lemma chars_count_length s : chars_count s ≤ String.length s.
Proof. induction s as [|c s IH]; simpl; [done|]. destruct (is_cont c); lia. Qed.

Lemma chars_count_stake n s : chars_count (stake n s) ≤ chars_count s.
Proof. rewrite <-(stake_sdrop n s) at 2. rewrite chars_count_app. lia. Qed.

Lemma take_chars_stake n s : stake (String.length (take_chars n s)) s = take_chars n s.
Proof.
  revert n. induction s as [|c s IH]; intros n; simpl; [done|].
  destruct (is_cont c); simpl; [by rewrite IH|].
  destruct n as [|n]; simpl; [done|]. by rewrite IH.
Qed.

Lemma take_chars_count n s : chars_count (take_chars n s) = n `min` chars_count s.
Proof.
  revert n. induction s as [|c s IH]; intros n; simpl; [lia|].
  destruct (is_cont c) eqn:Hc; simpl; rewrite ?Hc; [by rewrite IH|].
  destruct n as [|n]; simpl; [lia|]. rewrite Hc. rewrite IH. lia.
Qed.

(** The first [n] characters end where a new character, or nothing, begins. *)
Lemma take_chars_next n s :
  match sdrop (String.length (take_chars n s)) s with
  | "" => String.length (take_chars n s) = String.length s
  | String d _ => is_cont d = false
  end.
Proof.
  revert n. induction s as [|c s IH]; intros n; simpl; [done|].
  destruct (is_cont c) eqn:Hc; simpl.
  - specialize (IH n). by destruct (sdrop _ s); [f_equal|].
  - destruct n as [|n]; simpl; [done|].
    specialize (IH n). by destruct (sdrop _ s); [f_equal|].
Qed.

Lemma take_chars_boundary n s : is_char_boundary s (String.length (take_chars n s)) = true.
Proof.
  unfold is_char_boundary. pose proof (take_chars_next n s) as H.
  destruct (sdrop _ s).
  - rewrite H, Nat.eqb_refl. by rewrite orb_true_r.
  - rewrite H. apply orb_true_r.
Qed.

Lemma take_chars_pos n s :
  0 < n → s ≠ "" → 0 < String.length (take_chars n s).
Proof.
  intros Hn Hs. destruct s as [|c s]; [done|]. simpl.
  destruct (is_cont c); simpl; [lia|]. destruct n; simpl; lia.
Qed.

Lemma rfind_char_Some c s i :
  rfind_char c s = Some i → ∃ r, sdrop i s = String c r.
Proof.
  revert i. induction s as [|a s IH]; intros i; simpl; [done|].
  destruct (rfind_char c s) as [k|].
  - intros [= <-]. by apply IH.
  - destruct (Ascii.eqb a c) eqn:Ha; [|done]. intros [= <-].
    apply Ascii.eqb_eq in Ha as ->. by exists s.
Qed.

Lemma sdrop_app_l n s t : n ≤ String.length s → sdrop n (s +:+ t) = sdrop n s +:+ t.
Proof.
  revert s. induction n as [|n IH]; intros [|c s] Hn; simpl in *; try done; [lia|].
  apply IH. lia.
Qed.

Lemma stake_length_app s t : stake (String.length s) (s +:+ t) = s.
Proof.
  induction s as [|c s IH]; [by destruct t|].
  rewrite sapp_cons. simpl. by rewrite IH.
Qed.

(** A position found by [rfind] of an ASCII character inside a prefix is a
    character boundary of the whole string. *)
Lemma rfind_boundary c n s i :
  is_cont c = false → rfind_char c (stake n s) = Some i → is_char_boundary s i = true ∧ i < n.
Proof.
  intros Hc (r & Hr)%rfind_char_Some.
  assert (Hi : i < String.length (stake n s)).
  { destruct (decide (i < String.length (stake n s))) as [|Hge]; [done|].
    assert (String.length (sdrop i (stake n s)) = 0) as H0 by (rewrite sdrop_length; lia).
    rewrite Hr in H0. done. }
  split.
  - unfold is_char_boundary. rewrite !orb_true_iff. right.
    rewrite <-(stake_sdrop n s), sdrop_app_l by lia. rewrite Hr. simpl. by rewrite Hc.
  - rewrite stake_length in Hi. lia.
Qed.

(** *** [trim_start] removes a whitespace prefix *)

Lemma trim_start_ind (P : string → Prop) :
  P "" →
  (∀ a r, ws1 a = true → P r → P (String a r)) →
  (∀ a b r, ws1 a = false → ws2 a b = true → P r → P (String a (String b r))) →
  (∀ a b c r, ws1 a = false → ws2 a b = false → ws3 a b c = true → P r →
     P (String a (String b (String c r)))) →
  (∀ s, s ≠ "" → trim_start s = s → P s) →
  ∀ s, P s.
Proof.
  intros H0 H1 H2 H3 Hs s.
  remember (String.length s) as n eqn:Hn. revert s Hn.
  induction (lt_wf n) as [n _ IH]. intros s ->.
  destruct s as [|a r1]; [done|]. simpl in IH.
  destruct (ws1 a) eqn:E1; [apply H1; [done|]; eapply IH; [|done]; lia|].
  destruct r1 as [|b r2]; [apply Hs; [done|]; simpl; by rewrite E1|].
  destruct (ws2 a b) eqn:E2; [apply H2; [done..|]; eapply IH; [|done]; simpl; lia|].
  destruct r2 as [|c r3]; [apply Hs; [done|]; simpl; by rewrite E1, E2|].
  destruct (ws3 a b c) eqn:E3; [apply H3; [done..|]; eapply IH; [|done]; simpl; lia|].
  apply Hs; [done|]. simpl. by rewrite E1, E2, E3.
Qed.

Lemma trim_start_spec s : ∃ w, s = w +:+ trim_start s ∧ all_ws w = true.
Proof.
  induction s as [| a r E1 IH | a b r E1 E2 IH | a b c r E1 E2 E3 IH | s Hne E ]
    using trim_start_ind.
  - by exists "".
  - destruct IH as (w & Hw & Hws). exists (String a w). unfold all_ws in *. simpl.
    rewrite E1, sapp_cons. split; [by f_equal|done].
  - destruct IH as (w & Hw & Hws). exists (String a (String b w)). unfold all_ws in *. simpl.
    rewrite E1, E2, !sapp_cons. split; [by do 2 f_equal|done].
  - destruct IH as (w & Hw & Hws). exists (String a (String b (String c w))).
    unfold all_ws in *. simpl. rewrite E1, E2, E3, !sapp_cons. split; [by do 3 f_equal|done].
  - exists "". by rewrite E.
Qed.

Lemma trim_start_length s : String.length (trim_start s) ≤ String.length s.
Proof.
  destruct (trim_start_spec s) as (w & Hw & _).
  rewrite Hw at 2. rewrite slength_app. lia.
Qed.

(** *** Lines *)

Fixpoint no_char (c : ascii) (s : string) : bool :=
  match s with
  | "" => true
  | String a s' => negb (Ascii.eqb a c) && no_char c s'
  end.

Lemma split_on_app c s t :
  no_char c s = true → split_on c (s +:+ String c t) = s :: split_on c t.
Proof.
  induction s as [|a s IH]; intros H.
  - rewrite sapp_nil_l. simpl. by rewrite Ascii.eqb_refl.
  - rewrite sapp_cons. simpl in H. bool_to_prop. simpl. rewrite IH by done.
    by match goal with H : Ascii.eqb a c = false |- _ => rewrite H end.
Qed.

Lemma split_on_cons c s : ∃ p ps, split_on c s = p :: ps.
Proof.
  induction s as [|a s (p & ps & IH)]; simpl; [by eexists _, _|].
  destruct (Ascii.eqb a c); [by eexists _, _|]. rewrite IH. by eexists _, _.
Qed.

(** Lines written one by one with their terminators are read back as they were. *)
Lemma lines_concat ls :
  Forall (λ l, no_char nl l = true ∧ strip_cr l = l) ls →
  lines (foldr (λ l acc, l +:+ String nl acc) "" ls) = ls.
Proof.
  unfold lines. induction 1 as [|l ls [Hnl Hcr] _ IH]; cbn [foldr]; [done|].
  rewrite split_on_app by done.
  destruct (split_on_cons nl (foldr (λ l acc, l +:+ String nl acc) "" ls)) as (p & ps & E).
  rewrite E in *. cbn [lines_of] in *. rewrite Hcr. f_equal. exact IH.
Qed.

Lemma replace_skip p r x s : replace_from p r (String.length x) (x +:+ s) = replace_from p r 0 s.
Proof.
  induction x as [|c x IH]; [by destruct s|]. rewrite sapp_cons. cbn [String.length replace_from]. exact IH.
Qed.

Lemma strip_prefix_Some p s r : strip_prefix p s = Some r → s = p +:+ r.
Proof.
  revert s. induction p as [|a p IH]; intros s; simpl; [intros [= ->]; done|].
  destruct s as [|b s]; [done|]. destruct (Ascii.eqb a b) eqn:E; [|done].
  apply Ascii.eqb_eq in E as ->. intros H. rewrite sapp_cons. f_equal. by apply IH.
Qed.

Lemma sdrop_length_app s t : sdrop (String.length s) (s +:+ t) = t.
Proof. induction s as [|c s IH]; [by destruct t|]. by rewrite sapp_cons. Qed.

#[export] Hint Resolve trim_start_length chars_count_length take_chars_boundary : hive.

(** ** The order of strings, by bytes *)

Definition str_le (s t : string) : Prop := String.leb s t = true.

Lemma str_le_compare s t : str_le s t ↔ String.compare s t ≠ Gt.
Proof. unfold str_le, String.leb. by destruct (String.compare s t). Qed.

Lemma str_le_trans s t u : str_le s t → str_le t u → str_le s u.
Proof.
  rewrite !str_le_compare. revert t u.
  induction s as [|a s IH]; intros [|b t] [|c u]; simpl; try done.
  unfold Ascii.compare. destruct (N.compare_spec (N_of_ascii a) (N_of_ascii b)) as [E1|E1|E1],
    (N.compare_spec (N_of_ascii b) (N_of_ascii c)) as [E2|E2|E2]; try done; intros H1 H2;
    destruct (N.compare_spec (N_of_ascii a) (N_of_ascii c)) as [E3|E3|E3]; try lia; try done.
  by apply (IH t u).
Qed.

Lemma str_le_antisym s t : str_le s t → str_le t s → s = t.
Proof. apply String.leb_antisym. Qed.

Lemma str_ltb_false s t : String.ltb s t = false ↔ str_le t s.
Proof.
  rewrite str_le_compare. unfold String.ltb. rewrite (String.compare_antisym t s).
  by destruct (String.compare s t).
Qed.

Lemma str_ltb_true s t : String.ltb s t = true → str_le s t.
Proof. rewrite str_le_compare. unfold String.ltb. by destruct (String.compare s t). Qed.
