(* ===== verification/F64.v ===== *)
(** * Floating point

    The [f64] and [f32] values of Rust, on the Standard Library's model of IEEE 754
    numbers, and the methods the code calls on them: comparison, [min] and [max] (which
    ignore a NaN operand), rounding to an integer, and [str::parse::<f64>]. *)

From Stdlib Require Export SpecFloat.
From S2P Require Import Prelude RustStr.

Abbreviation f64 := spec_float.
Abbreviation f32 := spec_float.

Definition f64_add : f64 → f64 → f64 := SFadd 53 1024.
Definition f64_sub : f64 → f64 → f64 := SFsub 53 1024.
Definition f64_mul : f64 → f64 → f64 := SFmul 53 1024.
Definition f64_div : f64 → f64 → f64 := SFdiv 53 1024.

Definition f64_lt (x y : f64) : bool := SFltb x y.
Definition f64_gt (x y : f64) : bool := SFltb y x.

(** The nearest double of an integer ([as f64]). *)
Definition f64_of_Z (z : Z) : f64 := binary_normalize 53 1024 z 0 false.

Definition f64_is_nan (x : f64) : bool := match x with S754_nan => true | _ => false end.

Definition f64_is_finite (x : f64) : bool :=
  match x with S754_zero _ | S754_finite _ _ _ => true | _ => false end.

(** [f64::min] and [f64::max]: a NaN operand is ignored. *)
Definition f64_min (x y : f64) : f64 :=
  if f64_is_nan x then y else if f64_is_nan y then x else if f64_lt y x then y else x.

Definition f64_max (x y : f64) : f64 :=
  if f64_is_nan x then y else if f64_is_nan y then x else if f64_lt x y then y else x.

(** [round() as i64]: halves away from zero, saturating, zero for a NaN. *)
Definition round_half_away (m : positive) (e : Z) : Z :=
  if (0 <=? e)%Z then Z.shiftl (Zpos m) e
  else Z.shiftr (Zpos m + Z.shiftl 1 (- e - 1)) (- e).

Definition saturate_i64 (z : Z) : Z := Z.max i64_min (Z.min i64_max z).

Definition f64_round_as_i64 (x : f64) : Z :=
  match x with
  | S754_zero _ | S754_nan => 0
  | S754_infinity s => if s then i64_min else i64_max
  | S754_finite s m e => saturate_i64 (cond_Zopp s (round_half_away m e))
  end.

(** ** [str::parse::<f64>]

    An optional sign, then [inf], [infinity] or [nan] in any case, or a decimal with an
    optional exponent; the result is the nearest double. *)

Definition digit_of (c : ascii) : option Z :=
  let b := byte_of c in
  if (48 <=? b)%Z && (b <=? 57)%Z then Some (b - 48)%Z else None.

(** Leading digits: their value on top of [acc], how many, and the rest. *)
Fixpoint take_digits (s : string) (acc : Z) (n : nat) : Z * nat * string :=
  match s with
  | "" => (acc, n, "")
  | String c s' =>
      match digit_of c with
      | Some d => take_digits s' (acc * 10 + d)%Z (S n)
      | None => (acc, n, s)
      end
  end.

Definition take_sign (s : string) : bool * string :=
  match s with
  | String "-" s' => (true, s')
  | String "+" s' => (false, s')
  | _ => (false, s)
  end.

(** [m * 10 ^ e], rounded to nearest. *)
Definition decimal_to_f64 (neg : bool) (m e : Z) : f64 :=
  if (m =? 0)%Z then S754_zero neg
  else if (0 <=? e)%Z then
    match (m * 10 ^ e)%Z with
    | Zpos p => binary_round 53 1024 neg p 0
    | _ => S754_zero neg
    end
  else
    let '(q, e', loc) := SFdiv_core_binary 53 1024 m 0 (10 ^ (- e)) 0 in
    binary_round_aux 53 1024 neg q e' loc.

(** The exponent part: nothing, or a marker, an optional sign and digits to the end. *)
Definition parse_exponent (s : string) : option Z :=
  match s with
  | "" => Some 0%Z
  | String c s' =>
      if Ascii.eqb c "e" || Ascii.eqb c "E" then
        let '(neg, ds) := take_sign s' in
        let '(v, n, rest) := take_digits ds 0 0 in
        if (0 <? n) && is_empty rest then Some (if neg then - v else v)%Z else None
      else None
  end.

Definition parse_f64 (s : string) : option f64 :=
  let '(neg, body) := take_sign s in
  let lower := to_lowercase body in
  if String.eqb lower "inf" || String.eqb lower "infinity" then Some (S754_infinity neg)
  else if String.eqb lower "nan" then Some S754_nan
  else
    let '(ip, ni, rest) := take_digits body 0 0 in
    let '(m, nf, rest) :=
      match rest with
      | String "." rest' => let '(m, n, r) := take_digits rest' ip 0 in (m, n, r)
      | _ => (ip, 0, rest)
      end in
    if (ni + nf =? 0) then None
    else e ← parse_exponent rest; Some (decimal_to_f64 neg m (e - Z.of_nat nf)).

(** ** Equality and encoding *)

#[export] Instance f64_eq_dec : EqDecision f64.
Proof. solve_decision. Defined.

Definition f64_to_sum (x : f64) : bool + bool + unit + (bool * positive * Z) :=
  match x with
  | S754_zero s => inl (inl (inl s))
  | S754_infinity s => inl (inl (inr s))
  | S754_nan => inl (inr tt)
  | S754_finite s m e => inr (s, m, e)
  end.

Definition f64_of_sum (x : bool + bool + unit + (bool * positive * Z)) : f64 :=
  match x with
  | inl (inl (inl s)) => S754_zero s
  | inl (inl (inr s)) => S754_infinity s
  | inl (inr _) => S754_nan
  | inr (s, m, e) => S754_finite s m e
  end.

#[export] Instance f64_countable : Countable f64 :=
  inj_countable' f64_to_sum f64_of_sum (λ x, ltac:(by destruct x)).

(** ** Checks against known doubles *)

Example parse_tenth : parse_f64 "0.1" = Some (S754_finite false 7205759403792794 (-56)).
Proof. vm_compute. reflexivity. Qed.

Example parse_forms :
  parse_f64 "1.5e1" = Some (f64_of_Z 15) ∧ parse_f64 ".5" = parse_f64 "5E-1" ∧
  parse_f64 "." = None ∧ parse_f64 "" = None ∧ parse_f64 " 1" = None ∧
  parse_f64 "-Infinity" = Some (S754_infinity true) ∧
  (f64_round_as_i64 <$> parse_f64 "2.5") = Some 3%Z.
Proof. vm_compute. split_and!; reflexivity. Qed.

(** ** Lemmas *)

Lemma f64_sub_diag s m e : f64_sub (S754_finite s m e) (S754_finite s m e) = S754_zero false.
Proof. unfold f64_sub, SFsub. by rewrite Z.sub_diag. Qed.

Lemma compare_cont_refl c p : Pos.compare_cont c p p = c.
Proof. induction p; simpl; auto. Qed.

Lemma f64_lt_irrefl x : f64_lt x x = false.
Proof.
  unfold f64_lt, SFltb. destruct x as [[]|[]| |[] m e]; simpl; try done;
    by rewrite Z.compare_refl, compare_cont_refl.
Qed.

(** A positive delay that is at most the chunk is slept in one go. *)
Lemma f64_sub_min_whole x y :
  f64_is_finite x = true → f64_lt y x = false → f64_is_nan y = false →
  f64_sub x (f64_min x y) = S754_zero false ∨ x = S754_zero true ∨ x = S754_zero false.
Proof.
  intros Hx Hyx Hy. unfold f64_min. destruct x as [[]|s| |s m e]; try done; auto.
  simpl f64_is_nan. rewrite Hy, Hyx. left. apply f64_sub_diag.
Qed.

(** ** Exact subtraction

    The differences the retry policy computes are exact. *)

Lemma digits2_iter_xO p n : digits2_pos (Pos.iter xO p n) = (digits2_pos p + n)%positive.
Proof.
  induction n using Pos.peano_ind; simpl; [lia|].
  rewrite Pos.iter_succ. simpl. rewrite IHn. lia.
Qed.

Lemma iter_xO_value p n : Zpos (Pos.iter xO p n) = (Zpos p * 2 ^ Zpos n)%Z.
Proof.
  induction n using Pos.peano_ind; simpl; [lia|].
  rewrite Pos.iter_succ. rewrite Pos2Z.inj_succ, Z.pow_succ_r by lia. 
  rewrite Pos2Z.inj_xO, IHn. lia.
Qed.

Lemma digits2_bounds p : (2 ^ (Zpos (digits2_pos p) - 1) <= Zpos p < 2 ^ Zpos (digits2_pos p))%Z.
Proof.
  induction p as [p IH|p IH|]; simpl digits2_pos; [..|done].
  all: rewrite Pos2Z.inj_succ; replace (Z.succ (Zpos (digits2_pos p)) - 1)%Z with (Z.succ (Zpos (digits2_pos p) - 1)) by lia;
    rewrite !Z.pow_succ_r by lia; lia.
Qed.

(** A positive integer of at most 53 digits is represented exactly. *)
Lemma binary_round_exact p e :
  (Zpos (digits2_pos p) <= 53)%Z → (-1000 <= e <= 900)%Z →
  binary_round 53 1024 false p e =
    S754_finite false (match (53 - Zpos (digits2_pos p))%Z with Zpos d => Pos.iter xO p d | _ => p end)
      (e - (53 - Zpos (digits2_pos p))).
Proof.
  intros Hd He. unfold binary_round, shl_align.
  assert (fexp 53 1024 (Zpos (digits2_pos p) + e) = e - (53 - Zpos (digits2_pos p)))%Z as Hf.
  { unfold fexp, emin. lia. }
  rewrite Hf. replace (e - (53 - Zpos (digits2_pos p)) - e)%Z with (- (53 - Zpos (digits2_pos p)))%Z by lia.
  set (mz := match (53 - Zpos (digits2_pos p))%Z with Zpos d => Pos.iter xO p d | _ => p end).
  assert (match (- (53 - Zpos (digits2_pos p)))%Z with
    | Z.neg d => (Pos.iter xO p d, (e - (53 - Z.pos (digits2_pos p)))%Z)
    | _ => (p, e) end = (mz, (e - (53 - Zpos (digits2_pos p)))%Z)) as ->.
  { unfold mz. destruct (53 - Zpos (digits2_pos p))%Z eqn:E; [simpl; f_equal; lia|done|lia]. }
  assert (Zpos (digits2_pos mz) = 53)%Z as Hmz.
  { unfold mz. destruct (53 - Zpos (digits2_pos p))%Z eqn:E; [lia|rewrite digits2_iter_xO; lia|lia]. }
  assert (shr_fexp 53 1024 (Zpos mz) (e - (53 - Zpos (digits2_pos p))) loc_Exact =
    (Build_shr_record (Zpos mz) false false, (e - (53 - Zpos (digits2_pos p)))%Z)) as Hs.
  { unfold shr_fexp. simpl Zdigits2. rewrite Hmz.
    assert (fexp 53 1024 (53 + (e - (53 - Zpos (digits2_pos p)))) - (e - (53 - Zpos (digits2_pos p))) = 0)%Z as ->
      by (unfold fexp, emin; lia). done. }
  unfold binary_round_aux. rewrite Hs. simpl shr_m. simpl loc_of_shr_record. simpl round_nearest_even.
  rewrite Hs. simpl shr_m. cbv iota. 
  destruct (Z.leb_spec (e - (53 - Zpos (digits2_pos p))) (1024 - 53)); [done|lia].
Qed.

(** The real order on positive finite doubles of equal exponent is that of the mantissas. *)
Lemma f64_lt_same_exp m1 m2 e :
  f64_lt (S754_finite false m1 e) (S754_finite false m2 e) = (Zpos m1 <? Zpos m2)%Z.
Proof.
  unfold f64_lt, SFltb, SFcompare. rewrite Z.compare_refl.
  change (Pos.compare_cont Eq m1 m2) with (m1 ?= m2)%positive.
  destruct (Pos.compare_spec m1 m2); lia.
Qed.

Lemma f64_lt_exp m1 e1 m2 e2 :
  (e1 < e2)%Z → f64_lt (S754_finite false m1 e1) (S754_finite false m2 e2) = true ∧
  f64_lt (S754_finite false m2 e2) (S754_finite false m1 e1) = false.
Proof.
  intros H. unfold f64_lt, SFltb, SFcompare.
  rewrite (proj2 (Z.compare_lt_iff _ _) H), (proj2 (Z.compare_gt_iff _ _) H). done.
Qed.

(** Thirty as a double; sixty has the same mantissa and the next exponent. *)
Definition mantissa_30 : positive := 8444249301319680.

Lemma f64_between_30_60 x :
  valid_binary 53 1024 x = true →
  f64_lt (f64_of_Z 30) x = true → f64_lt (f64_of_Z 60) x = false →
  ∃ m, (x = S754_finite false m (-48) ∧ (Zpos mantissa_30 < Zpos m < 2 ^ 53)%Z) ∨
       (x = S754_finite false m (-47) ∧ (2 ^ 52 <= Zpos m <= Zpos mantissa_30)%Z).
Proof.
  change (f64_of_Z 30) with (S754_finite false mantissa_30 (-48)).
  change (f64_of_Z 60) with (S754_finite false mantissa_30 (-47)).
  destruct x as [s|[]| |[] m e]; try done. simpl valid_binary. intros Hv H30 H60.
  unfold bounded, canonical_mantissa, fexp, emin in Hv.
  apply andb_true_iff in Hv as [Hc _]. apply Z.eqb_eq in Hc.
  pose proof (digits2_bounds m) as Hm.
  destruct (Z.lt_trichotomy e (-48)) as [He|[->|He]].
  - destruct (f64_lt_exp m e mantissa_30 (-48) He) as [_ H]. congruence.
  - rewrite f64_lt_same_exp in H30. apply Z.ltb_lt in H30. exists m. left. split; [done|].
    replace (Zpos (digits2_pos m)) with 53%Z in Hm by lia. lia.
  - destruct (Z.lt_trichotomy e (-47)) as [He'|[->|He']]; [lia| |].
    + rewrite f64_lt_same_exp in H60. apply Z.ltb_ge in H60. exists m. right. split; [done|].
      replace (Zpos (digits2_pos m)) with 53%Z in Hm by lia. lia.
    + destruct (f64_lt_exp mantissa_30 (-47) m e He') as [H _]. congruence.
Qed.

(** A rounded difference of at most thirty, from an exact integer of units [2 ^ -48]. *)
Lemma binary_round_le_30 p :
  (Zpos p <= Zpos mantissa_30)%Z →
  ∃ m e, binary_round 53 1024 false p (-48) = S754_finite false m e ∧
         f64_lt (f64_of_Z 30) (S754_finite false m e) = false.
Proof.
  intros Hp. pose proof (digits2_bounds p) as [Hlo _].
  assert (Zpos (digits2_pos p) <= 53)%Z as Hd.
  { destruct (Z.le_gt_cases (Zpos (digits2_pos p)) 53) as [|Hgt]; [done|].
    assert (2 ^ 53 <= 2 ^ (Zpos (digits2_pos p) - 1))%Z by (apply Z.pow_le_mono_r; lia).
    unfold mantissa_30 in Hp. lia. }
  rewrite binary_round_exact by lia. do 2 eexists. split; [done|].
  change (f64_of_Z 30) with (S754_finite false mantissa_30 (-48)).
  destruct (Z.eq_dec (Zpos (digits2_pos p)) 53) as [E|E].
  - rewrite E. change (-48 - (53 - 53))%Z with (-48)%Z. rewrite f64_lt_same_exp.
    change (53 - 53)%Z with 0%Z. apply Z.ltb_ge. lia.
  - apply f64_lt_exp. lia.
Qed.

Lemma f64_sub_30 x :
  valid_binary 53 1024 x = true →
  f64_lt (f64_of_Z 30) x = true → f64_lt (f64_of_Z 60) x = false →
  ∃ m e, f64_sub x (f64_of_Z 30) = S754_finite false m e ∧
         f64_lt (f64_of_Z 30) (S754_finite false m e) = false.
Proof.
  intros Hv H30 H60. destruct (f64_between_30_60 x Hv H30 H60) as (m & [[-> Hm]|[-> Hm]]);
    change (f64_sub (S754_finite false ?m ?e) (f64_of_Z 30)) with
      (f64_sub (S754_finite false m e) (S754_finite false mantissa_30 (-48)));
    unfold f64_sub, SFsub.
  - change (Z.min (-48) (-48)) with (-48)%Z. unfold shl_align. simpl fst. unfold cond_Zopp.
    destruct (Zpos m - Zpos mantissa_30)%Z as [|p|p] eqn:E; [lia| |lia]. simpl binary_normalize.
    apply binary_round_le_30. unfold mantissa_30 in *. lia.
  - change (Z.min (-47) (-48)) with (-48)%Z. unfold shl_align. simpl fst. unfold cond_Zopp.
    destruct (Zpos (xO m) - Zpos mantissa_30)%Z as [|p|p] eqn:E;
      [unfold mantissa_30 in *; lia| |unfold mantissa_30 in *; lia]. simpl binary_normalize.
    apply binary_round_le_30. unfold mantissa_30 in *. lia.
Qed.
