(* ===== verification/Json.v ===== *)
(** * JSON values

    The values of the third-party crate [serde_json] as the code sees them: the
    constructors of [Value], the accessors ([get], [as_str], [as_i64], ...) and
    the [Map] operations.  The build enables the [preserve_order] feature
    (requested by [crates/config/Cargo.toml] and unified over the workspace), so
    an object is an association list in insertion order with distinct keys. *)

From S2P Require Import Prelude RustStr F64.

(** Integers carry their value (the crate keeps [i64]/[u64]), floats are finite doubles. *)
#[warnings="-register-all"] Inductive json : Type :=
| JNull
| JBool (b : bool)
| JInt (z : Z)
| JFloat (x : f64)
| JStr (s : string)
| JArr (l : list json)
| JObj (m : list (string * json)).

(** ** Accessors *)

Fixpoint map_get (k : string) (m : list (string * json)) : option json :=
  match m with
  | [] => None
  | (k', v) :: m' => if String.eqb k k' then Some v else map_get k m'
  end.

(** [Map::insert]: an existing key keeps its position. *)
Fixpoint map_insert (k : string) (v : json) (m : list (string * json)) : list (string * json) :=
  match m with
  | [] => [(k, v)]
  | (k', v') :: m' => if String.eqb k k' then (k, v) :: m' else (k', v') :: map_insert k v m'
  end.

(** [Map::remove], which with [preserve_order] moves the last entry into the gap. *)
Fixpoint map_remove (k : string) (m : list (string * json)) : list (string * json) :=
  match m with
  | [] => []
  | (k', v) :: m' =>
      if String.eqb k k' then match last m' with Some e => e :: removelast m' | None => [] end
      else (k', v) :: map_remove k m'
  end.

Definition map_contains_key (k : string) (m : list (string * json)) : bool :=
  match map_get k m with Some _ => true | None => false end.

(** [Value::get] on a string key. *)
Definition jget (k : string) (v : json) : option json :=
  match v with JObj m => map_get k m | _ => None end.

Definition as_str (v : json) : option string :=
  match v with JStr s => Some s | _ => None end.

Definition as_bool (v : json) : option bool :=
  match v with JBool b => Some b | _ => None end.

Definition as_i64 (v : json) : option Z :=
  match v with JInt z => if in_i64 z then Some z else None | _ => None end.

Definition as_u64 (v : json) : option Z :=
  match v with JInt z => if in_u64 z then Some z else None | _ => None end.

Definition as_array (v : json) : option (list json) :=
  match v with JArr l => Some l | _ => None end.

Definition as_object (v : json) : option (list (string * json)) :=
  match v with JObj m => Some m | _ => None end.

(** How a derived struct with the given field names reads: an object, or the fields
    in order as an array with no element too many. *)
Definition struct_fields (keys : list string) (v : json) : option (list (string * json)) :=
  match v with
  | JObj m => Some m
  | JArr vs => if length vs <=? length keys then Some (zip keys vs) else None
  | _ => None
  end.

Definition is_null (v : json) : bool := match v with JNull => true | _ => false end.

(** [v.get(k).and_then(Value::as_str)], the accessor chain most handlers use. *)
Definition get_str (k : string) (v : json) : option string := jget k v ≫= as_str.
Definition get_array (k : string) (v : json) : option (list json) := jget k v ≫= as_array.

(** [v.get(k).and_then(Value::as_str) == Some(s)]. *)
Definition str_field_is (k s : string) (v : json) : bool :=
  match get_str k v with Some s' => String.eqb s' s | None => false end.

(** ** Induction, equality and encoding *)

Section JsonInd.
Variable P : json → Prop.
Hypothesis Hnull : P JNull.
Hypothesis Hbool : ∀ b, P (JBool b).
Hypothesis Hint : ∀ z, P (JInt z).
Hypothesis Hfloat : ∀ z, P (JFloat z).
Hypothesis Hstr : ∀ s, P (JStr s).
Hypothesis Harr : ∀ l, Forall P l → P (JArr l).
Hypothesis Hobj : ∀ m, Forall (λ kv, P kv.2) m → P (JObj m).

Fixpoint json_nested_ind (v : json) : P v :=
  match v with
  | JNull => Hnull
  | JBool b => Hbool b
  | JInt z => Hint z
  | JFloat z => Hfloat z
  | JStr s => Hstr s
  | JArr l =>
      Harr l ((fix go l : Forall P l :=
        match l with
        | [] => List.Forall_nil P
        | x :: l' => List.Forall_cons P x l' (json_nested_ind x) (go l')
        end) l)
  | JObj m =>
      Hobj m ((fix go m : Forall (λ kv, P kv.2) m :=
        match m with
        | [] => List.Forall_nil _
        | kv :: m' => List.Forall_cons (λ kv, P kv.2) kv m' (json_nested_ind kv.2) (go m')
        end) m)
  end.
End JsonInd.

(** An injective encoding into [gen_tree], from which decidable equality and
    countability follow. *)
Abbreviation json_leaf := (bool + Z + f64 + string)%type.

Fixpoint json_to_tree (v : json) : gen_tree json_leaf :=
  match v with
  | JNull => GenNode 0 []
  | JBool b => GenLeaf (inl (inl (inl b)))
  | JInt z => GenLeaf (inl (inl (inr z)))
  | JFloat z => GenLeaf (inl (inr z))
  | JStr s => GenLeaf (inr s)
  | JArr l => GenNode 1 (json_to_tree <$> l)
  | JObj m => GenNode 2 ((λ kv, GenNode 3 [GenLeaf (inr kv.1); json_to_tree kv.2]) <$> m)
  end.

Fixpoint json_of_tree (t : gen_tree json_leaf) : json :=
  match t with
  | GenLeaf (inl (inl (inl b))) => JBool b
  | GenLeaf (inl (inl (inr z))) => JInt z
  | GenLeaf (inl (inr z)) => JFloat z
  | GenLeaf (inr s) => JStr s
  | GenNode 1 l => JArr (json_of_tree <$> l)
  | GenNode 2 m =>
      JObj ((λ e, match e with
                  | GenNode 3 [GenLeaf (inr k); t'] => (k, json_of_tree t')
                  | _ => ("", JNull)
                  end) <$> m)
  | GenNode _ _ => JNull
  end.

Lemma json_of_to_tree v : json_of_tree (json_to_tree v) = v.
Proof.
  induction v as [| | | | |l IH|m IH] using json_nested_ind; simpl; try done.
  - f_equal. induction IH as [|x l Hx _ IHl]; simpl; [done|]. by f_equal.
  - f_equal. induction IH as [|[k x] m Hx _ IHm]; simpl in *; [done|]. f_equal; [by f_equal|done].
Qed.

#[export] Instance json_eq_dec : EqDecision json.
Proof.
  intros v w. destruct (decide (json_to_tree v = json_to_tree w)) as [H|H].
  - left. by rewrite <-(json_of_to_tree v), H, json_of_to_tree.
  - right. congruence.
Defined.

#[export] Instance json_countable : Countable json :=
  inj_countable' json_to_tree json_of_tree json_of_to_tree.

(** ** Lemmas on maps *)

Lemma map_get_insert k v m : map_get k (map_insert k v m) = Some v.
Proof.
  induction m as [|[k' v'] m IH]; simpl.
  - by rewrite String.eqb_refl.
  - destruct (String.eqb k k') eqn:E; simpl; [by rewrite String.eqb_refl|by rewrite E].
Qed.

Lemma map_get_insert_ne k k' v m : k ≠ k' → map_get k (map_insert k' v m) = map_get k m.
Proof.
  intros Hne. apply String.eqb_neq in Hne. induction m as [|[k'' v''] m IH]; simpl.
  - by rewrite Hne.
  - destruct (String.eqb k' k'') eqn:E; simpl.
    + apply String.eqb_eq in E as ->. by rewrite Hne.
    + destruct (String.eqb k k''); [done|]. apply IH.
Qed.

Lemma map_insert_keys k v m :
  (map_insert k v m).*1 = if map_contains_key k m then m.*1 else m.*1 ++ [k].
Proof.
  unfold map_contains_key. induction m as [|[k' v'] m IH]; csimpl; [done|].
  destruct (String.eqb k k') eqn:E; csimpl; [by apply String.eqb_eq in E as ->|].
  rewrite IH. by destruct (map_get k m).
Qed.

Lemma map_get_None k m : map_get k m = None ↔ k ∉ m.*1.
Proof.
  induction m as [|[k' v'] m IH]; csimpl.
  - split; [intros _; apply not_elem_of_nil|done].
  - rewrite not_elem_of_cons. destruct (String.eqb k k') eqn:E; bool_to_prop.
    + split; [done|]. naive_solver.
    + rewrite IH. naive_solver.
Qed.

(** Distinct keys, the invariant of the crate's [Map], survive insertion. *)
Lemma map_get_snoc k m k' v : map_get k (m ++ [(k', v)]) =
  match map_get k m with Some x => Some x | None => if String.eqb k k' then Some v else None end.
Proof. induction m as [|[a x] m IH]; cbn; [done|]. destruct (String.eqb k a); [done|apply IH]. Qed.

(** Removing a key of a map with distinct keys leaves the others as they were. *)
Lemma map_get_remove_ne k k' m : k ≠ k' → NoDup m.*1 → map_get k (map_remove k' m) = map_get k m.
Proof.
  intros Hne. induction m as [|[a x] m IH]; [done|]. intros [Ha Hm]%NoDup_cons. cbn.
  destruct (String.eqb_spec k' a) as [<-|].
  - destruct (String.eqb_spec k k'); [done|]. destruct (last m) as [[b y]|] eqn:El.
    + apply last_Some in El as (l & ->). rewrite removelast_last, map_get_snoc. cbn. destruct (String.eqb_spec k b) as [->|]; [|by destruct (map_get k l)].
      change (NoDup (l ++ [(b, y)]).*1) in Hm. rewrite fmap_app in Hm. apply NoDup_app in Hm as (_ & Hd & _). destruct (map_get b l) as [z|] eqn:Eg; [|done].
      exfalso. apply (Hd b); [|by left]. destruct (decide (b ∈ l.*1)) as [|Hn]; [done|]. apply map_get_None in Hn. congruence.
    + by apply last_None in El as ->.
  - cbn. destruct (String.eqb k a); [done|by apply IH].
Qed.

Lemma map_insert_NoDup k v m : NoDup m.*1 → NoDup (map_insert k v m).*1.
Proof.
  intros Hm. rewrite map_insert_keys. unfold map_contains_key.
  destruct (map_get k m) eqn:E; [done|]. apply map_get_None in E.
  apply NoDup_app. split_and!; [done| |apply NoDup_singleton].
  intros x Hx ->%list_elem_of_singleton. done.
Qed.

#[export] Hint Resolve map_get_insert map_insert_NoDup : hive.

(** ** The JSON text codec

    The values the crate can hold and print back exactly: integers of [i64] or
    [u64], distinct object keys, no floats (the default float parser may be off by
    one unit in the last place), nested at most as deep as the parser's recursion
    limit of 128 allows. *)

Fixpoint json_valid (v : json) : bool :=
  match v with
  | JNull | JBool _ | JStr _ => true
  | JInt z => in_i64 z || in_u64 z
  | JFloat _ => false
  | JArr l => forallb json_valid l
  | JObj m => bool_decide (NoDup m.*1) && forallb (λ kv, json_valid kv.2) m
  end.

Fixpoint json_depth (v : json) : nat :=
  match v with
  | JNull | JBool _ | JInt _ | JFloat _ | JStr _ => 0
  | JArr l => S (foldr (λ x d, json_depth x `max` d) 0 l)
  | JObj m => S (foldr (λ kv d, json_depth kv.2 `max` d) 0 m)
  end.

Definition json_ok (v : json) : bool := json_valid v && (json_depth v <=? 127).

Lemma json_ok_field m k v : json_ok (JObj m) = true → (k, v) ∈ m → json_valid v = true.
Proof.
  unfold json_ok. intros [H _]%andb_true_iff Hin.
  change (bool_decide (NoDup m.*1) && forallb (λ kv, json_valid kv.2) m = true) in H.
  apply andb_true_iff in H as [_ H]. rewrite forallb_forall in H.
  apply (H (k, v)). by apply list_elem_of_In.
Qed.

(** What [serde_json::from_str] and [serde_json::to_string] document: printing is
    compact (one line, no surrounding space) and parsing inverts it. *)
Class JsonCodec (from_str : string → option json) (to_string : json → string) : Prop := {
  codec_roundtrip : ∀ v, json_ok v = true → from_str (to_string v) = Some v;
  codec_one_line : ∀ v, no_char nl (to_string v) = true ∧ strip_cr (to_string v) = to_string v;
  codec_trimmed : ∀ v, trim (to_string v) = to_string v ∧ to_string v ≠ ""
}.

(** *** A concrete codec

    Any injective one-line text format satisfies the interface; this one prints
    the positive number a value is encoded as in binary digits. *)

Fixpoint bits_print (p : positive) : string :=
  match p with
  | xH => "1"
  | xO p' => String "0" (bits_print p')
  | xI p' => String "1" (bits_print p')
  end.

Fixpoint bits_parse (s : string) : option positive :=
  match s with
  | "" => None
  | String c s' =>
      if Ascii.eqb c "0" then xO <$> bits_parse s'
      else if Ascii.eqb c "1" then
        match s' with "" => Some xH | _ => xI <$> bits_parse s' end
      else None
  end.

Lemma bits_parse_print p : bits_parse (bits_print p) = Some p.
Proof.
  induction p as [p IH|p IH|]; simpl; [|by rewrite IH|done].
  rewrite IH. by destruct p.
Qed.

Definition binary_digit (c : ascii) : bool := Ascii.eqb c "0" || Ascii.eqb c "1".

Fixpoint all_chars (f : ascii → bool) (s : string) : bool :=
  match s with "" => true | String c s' => f c && all_chars f s' end.

Lemma bits_print_digits p : all_chars binary_digit (bits_print p) = true.
Proof. induction p; simpl; auto. Qed.

Lemma binary_digit_cases c : binary_digit c = true → c = "0"%char ∨ c = "1"%char.
Proof.
  unfold binary_digit. intros [H|H]%orb_true_iff; apply Ascii.eqb_eq in H; auto.
Qed.

Lemma digits_no_nl s : all_chars binary_digit s = true → no_char nl s = true.
Proof.
  induction s as [|c s IH]; simpl; intros H; [done|]. bool_to_prop.
  rewrite IH by done. by destruct (binary_digit_cases c) as [-> | ->].
Qed.

Lemma digits_trim_start s : all_chars binary_digit s = true → trim_start s = s.
Proof.
  destruct s as [|c s]; simpl; intros H; [done|]. bool_to_prop.
  destruct (binary_digit_cases c) as [-> | ->]; [done|..]; simpl; repeat case_match; done.
Qed.

Lemma digits_trim_rev s : all_chars binary_digit s = true → trim_rev s = s.
Proof.
  destruct s as [|c s]; simpl; intros H; [done|]. bool_to_prop.
  destruct (binary_digit_cases c) as [-> | ->]; [done|..]; simpl;
    destruct s as [|d s]; try done; simpl in *; bool_to_prop;
    destruct (binary_digit_cases d) as [-> | ->]; try done; simpl;
    destruct s as [|e s]; try done; simpl in *; bool_to_prop;
    by destruct (binary_digit_cases e) as [-> | ->].
Qed.

Lemma rev_app_all f s t :
  all_chars f (String.rev_app s t) = all_chars f s && all_chars f t.
Proof.
  revert t. induction s as [|c s IH]; intros t; simpl; [done|].
  rewrite IH. simpl. by destruct (f c), (all_chars f s).
Qed.

Lemma rev_app_rev_app s t u : String.rev_app (String.rev_app s t) u = String.rev_app t (s +:+ u).
Proof. revert t. induction s as [|c s IH]; intros t; [done|]. rewrite sapp_cons. simpl. by rewrite IH. Qed.

Lemma srev_involutive s : String.rev (String.rev s) = s.
Proof. unfold String.rev. rewrite rev_app_rev_app. simpl. apply sapp_nil_r. Qed.

Lemma digits_trim s : all_chars binary_digit s = true → trim s = s.
Proof.
  intros H. unfold trim, trim_end. rewrite digits_trim_start by done.
  rewrite digits_trim_rev; [apply srev_involutive|].
  unfold String.rev. by rewrite rev_app_all, H.
Qed.

Lemma digits_strip_cr s : all_chars binary_digit s = true → strip_cr s = s.
Proof.
  intros H. unfold strip_cr. destruct (String.rev s) as [|c r] eqn:E; [done|].
  assert (all_chars binary_digit (String.rev s) = true) as Hr
    by (unfold String.rev; by rewrite rev_app_all, H).
  rewrite E in Hr. simpl in Hr. bool_to_prop.
  by destruct (binary_digit_cases c) as [-> | ->].
Qed.

Definition binary_to_string (v : json) : string := bits_print (encode v).
Definition binary_from_str (s : string) : option json := bits_parse s ≫= decode.

#[export] Instance binary_codec : JsonCodec binary_from_str binary_to_string.
Proof.
  split; intros v.
  - intros _. unfold binary_from_str, binary_to_string.
    rewrite bits_parse_print. simpl. apply decode_encode.
  - split; [apply digits_no_nl|apply digits_strip_cr]; apply bits_print_digits.
  - split; [apply digits_trim, bits_print_digits|].
    unfold binary_to_string. by destruct (encode v).
Qed.
