(* ===== verification/Messages.v ===== *)
(** * Message shaping

    The pure helpers of [crates/utils/src/helpers.rs] the agent, the channels
    and the session store share: the legal tool-call boundary of a history
    ([find_legal_message_start]), splitting long texts for size-limited channels
    ([split_message]), truncation, assistant-message construction and the
    character-based token estimates. *)

From S2P Require Import Prelude RustStr Json.

Local Open Scope stdpp_scope.
Local Open Scope hive_scope.

(** ** Small text helpers *)

Definition image_placeholder_text_with (path : option string) (empty : string) : string :=
  match path with
  | Some p => if is_empty p then empty else "[image: " +:+ p +:+ "]"
  | None => empty
  end.

Definition image_placeholder_text (path : option string) : string :=
  image_placeholder_text_with path "[image]".

Definition truncation_suffix : string := String nl "... (truncated)".

Definition truncate_text (text : string) (max_chars : nat) : string :=
  if (max_chars =? 0) || (chars_count text <=? max_chars) then text
  else take_chars max_chars text +:+ truncation_suffix.

(** The bracket expression of [UNSAFE_CHARS]. *)
Definition unsafe_char (c : ascii) : bool :=
  existsb (Ascii.eqb c)
    ["<"; ">"; ":"; "034"; "/"; "\"; "|"; "?"; "*"]%char.

Fixpoint replace_unsafe (s : string) : string :=
  match s with
  | "" => ""
  | String c s' => String (if unsafe_char c then "_"%char else c) (replace_unsafe s')
  end.

Definition safe_filename (name : string) : string := trim (replace_unsafe name).

(** [detect_image_mime]: the magic numbers as byte strings. *)
Definition byte_str (bs : list nat) : string :=
  foldr (λ b s, String (Ascii.ascii_of_nat b) s) "" bs.

Definition png_magic : string := byte_str [137; 80; 78; 71; 13; 10; 26; 10].
Definition jpeg_magic : string := byte_str [255; 216; 255].

Definition detect_image_mime (data : string) : option string :=
  let len := String.length data in
  if (8 <=? len) && String.eqb (stake 8 data) png_magic then Some "image/png"
  else if (3 <=? len) && String.eqb (stake 3 data) jpeg_magic then Some "image/jpeg"
  else if (6 <=? len) && (String.eqb (stake 6 data) "GIF87a" || String.eqb (stake 6 data) "GIF89a")
  then Some "image/gif"
  else if (12 <=? len) && String.eqb (stake 4 data) "RIFF"
          && String.eqb (stake 4 (sdrop 8 data)) "WEBP"
  then Some "image/webp"
  else None.

(** ** The legal tool-call boundary *)

(** The identifier of one entry of [tool_calls]. *)
Definition tool_call_ident (tc : json) : option string :=
  match get_str "id" tc with
  | Some id => Some id
  | None => pretty <$> (jget "id" tc ≫= as_i64)
  end.

Definition declare_calls (declared : gset string) (tcs : list json) : gset string :=
  fold_left (λ d tc, match tool_call_ident tc with Some id => {[id]} ∪ d | None => d end)
    tcs declared.

(** The [tool_call_id] of a tool result; [""] when it is absent or not an id. *)
Definition tool_result_ident (msg : json) : string :=
  default ""
    (jget "tool_call_id" msg ≫= λ v,
       match as_str v with
       | Some s => Some s
       | None => pretty <$> as_i64 v
       end).

(** The re-scan of [messages[start..=i]] after a reset, which only looks at
    string identifiers. *)
Definition rescan (window : list json) : gset string :=
  fold_left (λ d prev,
    match (if str_field_is "role" "assistant" prev then get_array "tool_calls" prev else None) with
    | Some tcs =>
        fold_left (λ d tc, match get_str "id" tc with Some id => {[id]} ∪ d | None => d end) tcs d
    | None => d
    end) window ∅.

Definition legal_step (messages : list json) (i : nat) (msg : json)
    (st : gset string * nat) : gset string * nat :=
  let '(declared, start) := st in
  match get_str "role" msg with
  | Some role =>
      if String.eqb role "assistant" then
        match get_array "tool_calls" msg with
        | Some tcs => (declare_calls declared tcs, start)
        | None => (declared, start)
        end
      else if String.eqb role "tool" then
        let tid := tool_result_ident msg in
        if negb (is_empty tid) && negb (bool_decide (tid ∈ declared)) then
          let start' := i + 1 in
          (rescan (take (i + 1 - start') (drop start' messages)), start')
        else (declared, start)
      else (declared, start)
  | None => (declared, start)
  end.

Fixpoint legal_loop (messages : list json) (i : nat) (rest : list json)
    (st : gset string * nat) : gset string * nat :=
  match rest with
  | [] => st
  | msg :: rest' => legal_loop messages (S i) rest' (legal_step messages i msg st)
  end.

Definition find_legal_message_start (messages : list json) : nat :=
  (legal_loop messages 0 messages (∅, 0)).2.

(** *** Specification: when a history is legal *)

(** The call identifiers an assistant message declares. *)
Definition call_ids (msg : json) : list string :=
  if str_field_is "role" "assistant" msg
  then filter_map tool_call_ident (default [] (get_array "tool_calls" msg))
  else [].

(** The call a tool result answers, if it names one. *)
Definition answered_call (msg : json) : option string :=
  if str_field_is "role" "tool" msg
  then (let tid := tool_result_ident msg in if is_empty tid then None else Some tid)
  else None.

(** Every tool result answers a call declared earlier in the history. *)
Definition legal_history (msgs : list json) : Prop :=
  ∀ i m t, msgs !! i = Some m → answered_call m = Some t →
    ∃ j a, j < i ∧ msgs !! j = Some a ∧ t ∈ call_ids a.

(** ** Splitting long texts *)

Definition nth_char_boundary (s : string) (char_count : nat) : nat :=
  String.length (take_chars char_count s).

(** One iteration of the loop on a text that does not fit: the chunk and the
    rest, [None] when a slice would panic. *)
Definition split_step (remaining : string) (max_len : nat) : option (string * string) :=
  let byte_cut := nth_char_boundary remaining max_len in
  match slice_to remaining byte_cut with
  | None => None
  | Some head =>
      let found := match rfind_char nl head with
                   | Some p => Some p
                   | None => rfind_char sp head
                   end in
      let pos_byte := match found with
                      | Some p => if 0 <? p then p else byte_cut
                      | None => byte_cut
                      end in
      match split_at remaining pos_byte with
      | Some (chunk, rest) => Some (chunk, trim_start rest)
      | None => None
      end
  end.

Fixpoint split_loop (fuel : nat) (remaining : string) (max_len : nat) (chunks : list string)
    : run (list string) :=
  match fuel with
  | 0 => OutOfFuel
  | S fuel' =>
      if is_empty remaining then Returns chunks
      else if chars_count remaining <=? max_len then Returns (chunks ++ [remaining])
      else match split_step remaining max_len with
           | None => Panics
           | Some (chunk, rest) => split_loop fuel' rest max_len (chunks ++ [chunk])
           end
  end.

(** Every iteration consumes at least one byte, so [len + 1] rounds suffice. *)
Definition split_message_fuel (fuel : nat) (content : string) (max_len : nat) : run (list string) :=
  if is_empty content then Returns []
  else if chars_count content <=? max_len then Returns [content]
  else split_loop fuel content max_len [].

Definition split_message (content : string) (max_len : nat) : run (list string) :=
  split_message_fuel (S (String.length content)) content max_len.

(** Specification: the text is the chunks with only whitespace between them. *)
Inductive split_of : string → list string → Prop :=
| split_nil : split_of "" []
| split_last s : s ≠ "" → split_of s [s]
| split_cons c w rest cs :
    c ≠ "" → all_ws w = true → split_of rest cs → split_of (c +:+ w +:+ rest) (c :: cs).

(** ** Content blocks and assistant messages *)

Fixpoint text_block_parts (content : list json) : option (list string) :=
  match content with
  | [] => Some []
  | block :: rest =>
      match as_object block with
      | None => None
      | Some obj =>
          if (match map_get "type" obj ≫= as_str with
              | Some t => String.eqb t "text"
              | None => false
              end)
          then match map_get "text" obj ≫= as_str with
               | Some text => cons text <$> text_block_parts rest
               | None => None
               end
          else None
      end
  end.

Definition stringify_text_blocks (content : list json) : option string :=
  join (String nl "") <$> text_block_parts content.

Definition nonempty_list {A} (o : option (list A)) : option (list A) :=
  match o with Some [] => None | _ => o end.

Definition build_assistant_message (content : option string) (tool_calls : option (list json))
    (reasoning_content : option string) (thinking_blocks : option (list json)) : json :=
  let msg := map_insert "role" (JStr "assistant") [] in
  let msg := map_insert "content" (JStr (default "" content)) msg in
  let msg := match nonempty_list tool_calls with
             | Some tcs => map_insert "tool_calls" (JArr tcs) msg
             | None => msg
             end in
  let msg := if (match reasoning_content with Some _ => true | None => false end)
                || (match thinking_blocks with Some _ => true | None => false end)
             then map_insert "reasoning_content" (JStr (default "" reasoning_content)) msg
             else msg in
  let msg := match nonempty_list thinking_blocks with
             | Some tbs => map_insert "thinking_blocks" (JArr tbs) msg
             | None => msg
             end in
  JObj msg.

(** ** Token estimates *)

(** [text.chars().count().div_ceil(4)]. *)
Definition char_based_token_estimate (text : string) : nat := (chars_count text + 3) / 4.

Section TokenEstimates.
(** [serde_json::to_string], a third-party printer. *)
Variable to_string : json → string.

Definition nonempty_str (o : option string) : list string :=
  match o with Some s => if is_empty s then [] else [s] | None => [] end.

Definition tool_calls_part (msg : json) : list string :=
  match jget "tool_calls" msg with
  | Some v => if is_null v then [] else [to_string v]
  | None => []
  end.

(** The texts one message contributes to [estimate_prompt_tokens]. *)
Definition prompt_parts (msg : json) : list string :=
  (match jget "content" msg with
   | Some (JStr s) => [s]
   | Some (JArr arr) =>
       arr ≫= λ part,
         if str_field_is "type" "text" part then nonempty_str (get_str "text" part) else []
   | _ => []
   end)
  ++ tool_calls_part msg
  ++ nonempty_str (get_str "reasoning_content" msg)
  ++ nonempty_str (get_str "name" msg) ++ nonempty_str (get_str "tool_call_id" msg).

Definition estimate_prompt_tokens (messages : list json) (tools : option (list json)) : nat :=
  let parts := (messages ≫= prompt_parts)
               ++ match tools with Some ts => [to_string (JArr ts)] | None => [] end in
  char_based_token_estimate (join (String nl "") parts) + length messages * 4.

(** The texts one message contributes to [estimate_message_tokens]. *)
Definition message_parts (msg : json) : list string :=
  (match jget "content" msg with
   | Some (JStr s) => [s]
   | Some (JArr arr) =>
       arr ≫= λ part,
         if str_field_is "type" "text" part then nonempty_str (get_str "text" part)
         else [to_string part]
   | Some JNull | None => []
   | Some other => [to_string other]
   end)
  ++ nonempty_str (get_str "name" msg) ++ nonempty_str (get_str "tool_call_id" msg)
  ++ tool_calls_part msg
  ++ nonempty_str (get_str "reasoning_content" msg).

Definition estimate_message_tokens (msg : json) : nat :=
  let payload := join (String nl "") (message_parts msg) in
  if is_empty payload then 4
  else 4 `max` (char_based_token_estimate payload + 4).

(** [TokenCounter::estimate_prompt_tokens] of a concrete provider. *)
Definition token_counter : Type :=
  list json → option (list json) → option string → option (nat * string).

Definition estimate_prompt_tokens_chain (provider : option token_counter) (model : option string)
    (messages : list json) (tools : option (list json)) : nat * string :=
  let heuristic :=
    let estimated := estimate_prompt_tokens messages tools in
    if 0 <? estimated then (estimated, "char_heuristic") else (0, "none") in
  match provider ≫= (λ p, p messages tools model) with
  | Some (tokens, source) =>
      if 0 <? tokens then
        (tokens, if is_empty source then "provider_counter" else source)
      else heuristic
  | None => heuristic
  end.
End TokenEstimates.

(** ** Lemmas on the legal boundary *)

Lemma elem_of_declare_calls t d tcs :
  t ∈ declare_calls d tcs ↔ t ∈ d ∨ t ∈ filter_map tool_call_ident tcs.
Proof.
  unfold declare_calls. revert d. induction tcs as [|tc tcs IH]; intros d; simpl.
  - set_solver.
  - rewrite IH. destruct (tool_call_ident tc) as [id|]; set_solver.
Qed.

Lemma str_field_is_role m role :
  get_str "role" m = Some role → ∀ r, str_field_is "role" r m = String.eqb role r.
Proof. intros H r. unfold str_field_is. by rewrite H. Qed.

(** The invariant of the scan after the first [i] messages: [declared] holds the
    calls declared in the window [start..i), the window is legal, and every
    earlier start leaves some tool result unanswered. *)
Record scan_inv (msgs : list json) (i : nat) (declared : gset string) (start : nat) : Prop := {
  scan_le : start ≤ i;
  scan_declared : ∀ t, t ∈ declared ↔
    ∃ j a, start ≤ j < i ∧ msgs !! j = Some a ∧ t ∈ call_ids a;
  scan_legal : ∀ k m t, start ≤ k < i → msgs !! k = Some m → answered_call m = Some t →
    ∃ j a, start ≤ j < k ∧ msgs !! j = Some a ∧ t ∈ call_ids a;
  scan_least : ∀ s, s < start → ∃ k m t, s ≤ k < i ∧ msgs !! k = Some m ∧
    answered_call m = Some t ∧ ∀ j a, s ≤ j < k → msgs !! j = Some a → t ∉ call_ids a
}.

Lemma scan_inv_init msgs : scan_inv msgs 0 ∅ 0.
Proof.
  split; [lia| |intros; lia|intros; lia].
  intros t. split; [set_solver|]. intros (j & a & Hj & _). lia.
Qed.

(** A message that answers nothing extends the window. *)
Lemma scan_inv_extend msgs i m d start d' :
  msgs !! i = Some m →
  (∀ t, t ∈ d' ↔ t ∈ d ∨ t ∈ call_ids m) →
  (∀ t, answered_call m = Some t → t ∈ d) →
  scan_inv msgs i d start → scan_inv msgs (S i) d' start.
Proof.
  intros Hm Hd' Hans [Hle Hdecl Hlegal Hleast]. split.
  - lia.
  - intros t. rewrite Hd', Hdecl. split.
    + intros [(j & a & ? & ? & ?)|?]; [exists j, a|exists i, m]; split_and!; auto; lia.
    + intros (j & a & Hj & Ha & Ht). destruct (decide (j = i)) as [->|Hne].
      * right. congruence.
      * left. exists j, a. split_and!; auto; lia.
  - intros k m' t Hk Hm' Ht. destruct (decide (k = i)) as [->|Hne].
    + assert (m' = m) as -> by congruence. apply Hdecl. by apply Hans.
    + destruct (Hlegal k m' t) as (j & a & ? & ? & ?); [lia|done..|]. eauto.
  - intros s Hs. destruct (Hleast s Hs) as (k & m' & t & Hk & Hrest).
    exists k, m', t. split; [lia|done].
Qed.

(** An unanswered tool result moves the window past itself. *)
Lemma scan_inv_reset msgs i m t d start :
  msgs !! i = Some m → answered_call m = Some t → t ∉ d →
  scan_inv msgs i d start → scan_inv msgs (S i) ∅ (S i).
Proof.
  intros Hm Ht Hnot [Hle Hdecl Hlegal Hleast]. split.
  - done.
  - intros t'. split; [set_solver|]. intros (j & a & Hj & _). lia.
  - intros k ? ? Hk. lia.
  - intros s Hs. destruct (decide (s < start)) as [Hlt|Hge].
    + destruct (Hleast s Hlt) as (k & m' & t' & Hk & Hrest).
      exists k, m', t'. split; [lia|done].
    + exists i, m, t. split_and!; [lia..|done|done|].
      intros j a Hj Ha Hin. apply Hnot, Hdecl. exists j, a. split_and!; [lia..|done|done].
Qed.

Lemma scan_inv_step msgs i m d start :
  msgs !! i = Some m → scan_inv msgs i d start →
  let '(d', start') := legal_step msgs i m (d, start) in scan_inv msgs (S i) d' start'.
Proof.
  intros Hm Hinv. unfold legal_step.
  assert (Hskip : call_ids m = [] → answered_call m = None → scan_inv msgs (S i) d start).
  { intros Hc Ha. apply (scan_inv_extend msgs i m d); [done| |by rewrite Ha|done].
    intros t. rewrite Hc. set_solver. }
  destruct (get_str "role" m) as [role|] eqn:Hrole.
  2:{ apply Hskip; unfold call_ids, answered_call, str_field_is; by rewrite Hrole. }
  pose proof (str_field_is_role m role Hrole) as Hr.
  destruct (String.eqb role "assistant") eqn:Ea.
  { assert (Ha : answered_call m = None).
    { unfold answered_call. rewrite Hr. apply String.eqb_eq in Ea as ->. done. }
    destruct (get_array "tool_calls" m) as [tcs|] eqn:Htc.
    - apply (scan_inv_extend msgs i m d); [done| |by rewrite Ha|done].
      intros t. rewrite elem_of_declare_calls. unfold call_ids. by rewrite Hr, Ea, Htc.
    - apply Hskip; [|done]. unfold call_ids. by rewrite Hr, Ea, Htc. }
  assert (Hc : call_ids m = []) by (unfold call_ids; by rewrite Hr, Ea).
  destruct (String.eqb role "tool") eqn:Et.
  2:{ apply Hskip; [done|]. unfold answered_call. by rewrite Hr, Et. }
  assert (Hans : answered_call m =
    if is_empty (tool_result_ident m) then None else Some (tool_result_ident m)).
  { unfold answered_call. by rewrite Hr, Et. }
  destruct (is_empty (tool_result_ident m)) eqn:Hemp; simpl.
  { by apply Hskip. }
  case_bool_decide as Hin; simpl.
  - apply (scan_inv_extend msgs i m d); [done| | |done].
    + intros t. rewrite Hc. set_solver.
    + intros t. rewrite Hans. by intros [= <-].
  - replace (i + 1 - (i + 1)) with 0 by lia. simpl.
    replace (i + 1) with (S i) by lia. by eapply scan_inv_reset.
Qed.

Lemma scan_inv_loop msgs rest i d start :
  drop i msgs = rest → i ≤ length msgs → scan_inv msgs i d start →
  let '(d', start') := legal_loop msgs i rest (d, start) in
  scan_inv msgs (length msgs) d' start'.
Proof.
  revert i d start. induction rest as [|m rest IH]; intros i d start Hdrop Hi Hinv; cbn [legal_loop].
  - assert (i = length msgs) as ->; [|done].
    apply (f_equal length) in Hdrop. rewrite length_drop in Hdrop. simpl in Hdrop. lia.
  - assert (Hm : msgs !! i = Some m).
    { rewrite <-(Nat.add_0_r i), <-lookup_drop. by rewrite Hdrop. }
    pose proof (scan_inv_step msgs i m d start Hm Hinv) as Hstep.
    destruct (legal_step msgs i m (d, start)) as [d' start'].
    apply IH; [|apply lookup_lt_Some in Hm; lia|done].
    replace (S i) with (i + 1) by lia. rewrite <-drop_drop, Hdrop. done.
Qed.

Lemma find_legal_inv msgs :
  ∃ d, scan_inv msgs (length msgs) d (find_legal_message_start msgs).
Proof.
  unfold find_legal_message_start.
  pose proof (scan_inv_loop msgs msgs 0 ∅ 0 eq_refl (Nat.le_0_l _) (scan_inv_init msgs)) as H.
  destruct (legal_loop msgs 0 msgs (∅, 0)) as [d s]. by exists d.
Qed.

(** ** Lemmas on splitting *)

(** The cut of one iteration: a non-empty boundary within the first [max_len]
    characters. *)
Lemma split_cut s max_len :
  0 < max_len → s ≠ "" →
  let byte_cut := nth_char_boundary s max_len in
  ∀ p, (match rfind_char nl (stake byte_cut s) with
        | Some p => Some p
        | None => rfind_char sp (stake byte_cut s)
        end) = p →
  let pos := match p with Some p => if 0 <? p then p else byte_cut | None => byte_cut end in
  0 < pos ≤ byte_cut ∧ is_char_boundary s pos = true.
Proof.
  intros Hlen Hs byte_cut p Hp pos.
  assert (Hcut : 0 < byte_cut) by (by apply take_chars_pos).
  assert (Hb : is_char_boundary s byte_cut = true) by apply take_chars_boundary.
  subst pos. destruct p as [q|]; [|split; [lia|done]].
  destruct (0 <? q) eqn:Hq; [|split; [lia|done]].
  apply Nat.ltb_lt in Hq.
  assert (is_char_boundary s q = true ∧ q < byte_cut) as [??]; [|split; [lia|done]].
  destruct (rfind_char nl (stake byte_cut s)) eqn:En; simplify_eq.
  - by apply (rfind_boundary nl).
  - by apply (rfind_boundary sp).
Qed.

Lemma split_step_spec s max_len :
  0 < max_len → s ≠ "" →
  ∃ c w rest, split_step s max_len = Some (c, rest) ∧ s = c +:+ w +:+ rest ∧
    c ≠ "" ∧ all_ws w = true ∧ chars_count c ≤ max_len ∧ String.length rest < String.length s.
Proof.
  intros Hlen Hs. unfold split_step, slice_to.
  replace (is_char_boundary s (nth_char_boundary s max_len)) with true
    by (symmetry; apply take_chars_boundary).
  pose proof (split_cut s max_len Hlen Hs _ eq_refl) as [[Hpos Hle] Hb].
  cbn zeta in *. set (pos := match _ with Some p => _ | None => _ end) in *.
  unfold split_at. rewrite Hb.
  destruct (trim_start_spec (sdrop pos s)) as (w & Hw & Hws).
  exists (stake pos s), w, (trim_start (sdrop pos s)). split_and!; [done| | |done| |].
  - by rewrite <-Hw, stake_sdrop.
  - destruct pos; [lia|]. by destruct s.
  - etrans; [|apply Nat.le_min_l with (m := chars_count s)].
    rewrite <-take_chars_count. rewrite <-(take_chars_stake max_len s).
    fold (nth_char_boundary s max_len).
    replace (stake pos s) with (stake pos (stake (nth_char_boundary s max_len) s)).
    { apply chars_count_stake. }
    clearbody pos. clear -Hle. revert Hle. generalize (nth_char_boundary s max_len).
    revert s. induction pos as [|pos IH]; intros s [|n] Hle; try (by destruct s); [lia|].
    destruct s as [|c s]; [done|]. simpl. rewrite IH; [done|lia].
  - pose proof (trim_start_length (sdrop pos s)). rewrite sdrop_length in *.
    destruct s; [done|]. simpl in *. lia.
Qed.

Lemma split_loop_spec fuel s max_len acc :
  0 < max_len → String.length s < fuel →
  ∃ cs, split_loop fuel s max_len acc = Returns (acc ++ cs) ∧ split_of s cs ∧
    Forall (λ c, c ≠ "" ∧ chars_count c ≤ max_len) cs.
Proof.
  intros Hlen. revert s acc. induction fuel as [|fuel IH]; intros s acc Hf; [lia|].
  simpl. destruct (is_empty s) eqn:He.
  { apply is_empty_true in He as ->. exists []. rewrite app_nil_r.
    split_and!; [done|constructor|constructor]. }
  apply is_empty_false in He.
  destruct (chars_count s <=? max_len) eqn:Hfit.
  { apply Nat.leb_le in Hfit. exists [s]. split_and!; [done|by constructor|].
    by repeat constructor. }
  destruct (split_step_spec s max_len Hlen He) as (c & w & rest & -> & Hs & Hc & Hw & Hcc & Hlt).
  destruct (IH rest (acc ++ [c])) as (cs & -> & Hsplit & Hall); [lia|].
  exists (c :: cs). rewrite <-app_assoc. split_and!; [done| |by constructor].
  rewrite Hs. by constructor.
Qed.

(** *** Legality of the remaining history *)

Lemma find_legal_bound msgs : find_legal_message_start msgs ≤ length msgs.
Proof. by destruct (find_legal_inv msgs) as (d & [Hle _ _ _]). Qed.

Lemma find_legal_drop_legal msgs : legal_history (drop (find_legal_message_start msgs) msgs).
Proof.
  destruct (find_legal_inv msgs) as (d & [Hle _ Hlegal _]).
  intros i m t Hi Ht. rewrite lookup_drop in Hi.
  pose proof (lookup_lt_Some _ _ _ Hi).
  edestruct Hlegal as (j & a & Hj & Ha & Hin); [|done..|]; [lia|].
  exists (j - find_legal_message_start msgs), a. split_and!; [lia| |done].
  rewrite lookup_drop. by replace (_ + (j - _)) with j by lia.
Qed.

Lemma find_legal_drop_least msgs k :
  k < find_legal_message_start msgs → ¬ legal_history (drop k msgs).
Proof.
  intros Hk Hl. destruct (find_legal_inv msgs) as (d & [_ _ _ Hleast]).
  destruct (Hleast k Hk) as (i & m & t & Hi & Hm & Ht & Hno).
  destruct (Hl (i - k) m t) as (j & a & Hj & Ha & Hin); [|done|].
  - rewrite lookup_drop. by replace (k + (i - k)) with i by lia.
  - rewrite lookup_drop in Ha. by apply (Hno (k + j) a); [lia|..].
Qed.

Lemma find_legal_zero msgs : legal_history msgs → find_legal_message_start msgs = 0.
Proof.
  intros Hl. destruct (find_legal_message_start msgs) eqn:E; [done|].
  destruct (find_legal_drop_least msgs 0); [lia|done].
Qed.

(** Legality as a scan with the identifiers declared so far. *)
Fixpoint legal_from (known : list string) (msgs : list json) : Prop :=
  match msgs with
  | [] => True
  | m :: rest =>
      (∀ t, answered_call m = Some t → t ∈ known) ∧ legal_from (call_ids m ++ known) rest
  end.

Lemma legal_from_spec known msgs :
  legal_from known msgs ↔
  ∀ i m t, msgs !! i = Some m → answered_call m = Some t →
    t ∈ known ∨ ∃ j a, j < i ∧ msgs !! j = Some a ∧ t ∈ call_ids a.
Proof.
  revert known. induction msgs as [|x msgs IH]; intros known; simpl.
  { split; [|done]. intros _ i m t Hi. by rewrite lookup_nil in Hi. }
  rewrite IH. split.
  - intros [Hx Hrest] [|i] m t Hi Ht; simpl in Hi; simplify_eq.
    + left. auto.
    + destruct (Hrest i m t Hi Ht) as [[Hin|Hin]%elem_of_app|(j & a & Hj & Ha & Hin)]; auto.
      * right. exists 0, x. split_and!; [lia|done..].
      * right. exists (S j), a. split_and!; [lia|done..].
  - intros H. split.
    + intros t Ht. destruct (H 0 x t) as [?|(j & a & Hj & _)]; [done..|lia].
    + intros i m t Hi Ht. rewrite elem_of_app.
      destruct (H (S i) m t Hi Ht) as [?|([|j] & a & Hj & Ha & Hin)]; auto.
      * simpl in Ha. simplify_eq. auto.
      * right. exists j, a. split_and!; [lia|done..].
Qed.

Lemma legal_history_from msgs : legal_history msgs ↔ legal_from [] msgs.
Proof.
  rewrite legal_from_spec. split.
  - intros H i m t Hi Ht. right. eauto.
  - intros H i m t Hi Ht. destruct (H i m t Hi Ht) as [?%not_elem_of_nil|?]; done.
Qed.

Lemma legal_from_mono known known' msgs :
  (∀ t, t ∈ known → t ∈ known') → legal_from known msgs → legal_from known' msgs.
Proof.
  rewrite !legal_from_spec. intros Hk H i m t Hi Ht. destruct (H i m t Hi Ht); auto.
Qed.

(** Removing messages that declare no calls keeps a history legal. *)
Lemma legal_history_retain f msgs :
  (∀ m, m ∈ msgs → f m = false → call_ids m = []) →
  legal_history msgs → legal_history (retain f msgs).
Proof.
  rewrite !legal_history_from. intros Hf. revert Hf. set (known := @nil string) at 2 3. clearbody known. revert known.
  induction msgs as [|m msgs IH]; intros known Hf; simpl; [done|].
  intros [Hm Hrest]. destruct (f m) eqn:Hfm; simpl.
  - split; [done|]. apply IH; [|done]. intros m' Hm'. apply Hf. by right.
  - apply IH; [intros m' Hm'; apply Hf; by right|].
    rewrite (Hf m) in Hrest; [done|left|done].
Qed.

(** So does rewriting messages without touching what they declare and answer. *)
Lemma legal_history_map g msgs :
  (∀ m, call_ids (g m) = call_ids m) → (∀ m, answered_call (g m) = answered_call m) →
  legal_history msgs → legal_history (g <$> msgs).
Proof.
  intros Hc Ha. rewrite !legal_history_from. generalize (@nil string).
  induction msgs as [|m msgs IH]; intros known; simpl; [done|].
  rewrite Hc, Ha. intros [? ?]. split; [done|]. by apply IH.
Qed.

#[export] Hint Resolve find_legal_bound find_legal_drop_legal : hive.

(** ** Properties *)

(** [find_legal_message_start] returns the least index from which every tool
    result answers a tool call declared earlier in the remaining history (both
    string and integer identifiers), and never runs past the end. *)
Theorem find_legal_message_start_least (msgs : list json) :
  find_legal_message_start msgs ≤ length msgs ∧
  legal_history (drop (find_legal_message_start msgs) msgs) ∧
  (∀ k, k < find_legal_message_start msgs → ¬ legal_history (drop k msgs)).
Proof. split_and!; [auto with hive..|apply find_legal_drop_least]. Qed.

(** for a positive [max_len], [split_message] returns (no panic, no
    divergence), its chunks are non-empty and at most [max_len] characters long,
    and the text is exactly the chunks in order with only whitespace dropped
    between consecutive chunks. *)
Theorem split_message_correct (content : string) (max_len : nat) :
  0 < max_len →
  ∃ chunks, split_message content max_len = Returns chunks ∧ split_of content chunks ∧
    Forall (λ c, c ≠ "" ∧ chars_count c ≤ max_len) chunks.
Proof.
  intros Hlen. unfold split_message, split_message_fuel.
  destruct (is_empty content) eqn:He.
  { apply is_empty_true in He as ->. exists []. by repeat constructor. }
  apply is_empty_false in He. destruct (chars_count content <=? max_len) eqn:Hfit.
  { apply Nat.leb_le in Hfit. exists [content]. split_and!; [done|by constructor|].
    by repeat constructor. }
  apply (split_loop_spec _ content max_len []); [done|lia].
Qed.

Example split_message_correct_witness :
  split_message "hello brave world" 6 = Returns ["hello"; "brave"; "world"] ∧
  ∃ chunks, split_message "hello brave world" 6 = Returns chunks ∧
    split_of "hello brave world" chunks ∧
    Forall (λ c, c ≠ "" ∧ chars_count c ≤ 6) chunks.
Proof. split; [by vm_compute|apply (split_message_correct "hello brave world" 6); lia]. Defined.

(** with [max_len = 0] the loop of [split_message] never makes progress on a
    text that starts with a non-whitespace character: no amount of fuel makes it
    return, the run pushes an empty chunk forever. *)
Theorem split_message_zero_diverges (c : ascii) (r : string) :
  is_cont c = false → trim_start (String c r) = String c r →
  ∀ fuel, split_message_fuel fuel (String c r) 0 = OutOfFuel.
Proof.
  intros Hc Htrim fuel. unfold split_message_fuel.
  replace (chars_count (String c r) <=? 0) with false by (simpl; by rewrite Hc).
  cbn [is_empty]. generalize (@nil string).
  induction fuel as [|fuel IH]; intros acc; [done|].
  cbn [split_loop is_empty].
  replace (chars_count (String c r) <=? 0) with false by (simpl; by rewrite Hc).
  assert (split_step (String c r) 0 = Some ("", String c r)) as ->; [|apply IH].
  unfold split_step, nth_char_boundary, slice_to, split_at.
  cbn [take_chars]. rewrite Hc. cbn [String.length is_char_boundary Nat.eqb orb stake rfind_char sdrop].
  by rewrite Htrim.
Qed.

Example split_message_zero_diverges_witness :
  is_cont "h"%char = false ∧ trim_start "hi" = "hi" ∧
  ∀ fuel, split_message_fuel fuel "hi" 0 = OutOfFuel.
Proof. split_and!; [done|done|by apply (split_message_zero_diverges "h"%char "i")]. Defined.
