(* ===== verification/Session.v ===== *)
(** * Conversation sessions

    [Session] of [crates/session/src/manager.rs]: the message log of one
    [channel:chat_id], its consolidation cursor, the history handed to the
    language model and the trimming operations that bound its growth. *)

From S2P Require Import Prelude RustStr Json Messages.

Local Open Scope stdpp_scope.
Local Open Scope hive_scope.

(** ** Replay sanitising

    The three regular expressions of the file, matched by hand. *)

Definition optional_newline (s : string) : string :=
  match s with
  | String c s' => if Ascii.eqb c nl then s' else s
  | "" => ""
  end.

(** [^\[Message Time: [^\]]+\]\n?] removed at the start of the text. *)
Definition strip_message_time (s : string) : string :=
  match strip_prefix "[Message Time: " s with
  | Some r =>
      match find_char "]"%char r with
      | Some i => if 0 <? i then optional_newline (sdrop (S i) r) else s
      | None => s
      end
  | None => s
  end.

(** [^\[image: (?:/|~)[^\]]+\]\s*$]. *)
Definition is_image_breadcrumb (line : string) : bool :=
  match strip_prefix "[image: " line with
  | Some (String c r) =>
      (Ascii.eqb c "/"%char || Ascii.eqb c "~"%char) &&
      match find_char "]"%char r with
      | Some i => (0 <? i) && all_ws (sdrop (S i) r)
      | None => false
      end
  | _ => false
  end.

(** [^\s*(?:generate_image|message)\([^)]*\)\s*$]. *)
Definition is_tool_call_echo (line : string) : bool :=
  let body := trim_start line in
  let after :=
    match strip_prefix "generate_image(" body with
    | Some r => Some r
    | None => strip_prefix "message(" body
    end in
  match after with
  | Some r =>
      match find_char ")"%char r with
      | Some i => all_ws (sdrop (S i) r)
      | None => false
      end
  | None => false
  end.

Definition sanitize_assistant_replay_text (content : string) : string :=
  trim (join (String nl "")
    (retain (λ line, negb (is_image_breadcrumb line) && negb (is_tool_call_echo line))
       (lines (strip_message_time content)))).

(** ** Token estimate of one message *)

Definition estimate_tokens_for_message (msg : json) : nat :=
  String.length (default "" (get_str "content" msg)) / 4
  + (match get_array "tool_calls" msg with Some a => length a * 20 | None => 0 end)
  + 10.

(** ** The session record *)

(** [DateTime<Local>] values are instants. *)
Record Session := mkSession {
  key : string;
  messages : list json;
  created_at : Z;
  updated_at : Z;
  metadata : gmap string json;
  last_consolidated : nat
}.

Definition Session_new (k : string) (now : Z) : Session := mkSession k [] now now ∅ 0.

Definition set_messages (s : Session) (msgs : list json) (lc : nat) (now : Z) : Session :=
  mkSession (key s) msgs (created_at s) now (metadata s) lc.

Section AddMessage.
(** [DateTime::to_rfc3339] of the third-party crate [chrono]. *)
Variable to_rfc3339 : Z → string.

(** [stamp] and [now] are the two clock readings; [extra] is the map in its
    iteration order. *)
Definition add_message (s : Session) (role content : string) (extra : list (string * json))
    (stamp now : Z) : Session :=
  let msg := map_insert "role" (JStr role) [] in
  let msg := map_insert "content" (JStr content) msg in
  let msg := map_insert "timestamp" (JStr (to_rfc3339 stamp)) msg in
  let msg := fold_left (λ m kv, map_insert kv.1 kv.2 m) extra msg in
  set_messages s (messages s ++ [JObj msg]) (last_consolidated s) now.
End AddMessage.

(** ** History for the language model *)

Definition role_is (r : string) (m : json) : bool := str_field_is "role" r m.

Definition has_key (k : string) (m : json) : bool :=
  match jget k m with Some _ => true | None => false end.

(** The first user message, or the proactive delivery just before it. *)
Definition history_start (sliced : list json) : nat :=
  match position (role_is "user") sliced with
  | Some i =>
      match i with
      | 0 => i
      | S previous =>
          match sliced !! previous with
          | Some prev => if has_key "_channel_delivery" prev then previous else i
          | None => i
          end
      end
  | None => 0
  end.

Definition is_command (m : json) : bool := default false (jget "_command" m ≫= as_bool).

(** The assistant messages [get_history] keeps. *)
Definition keeps_content (m : json) : bool :=
  if role_is "assistant" m then
    let has_content :=
      match get_str "content" m with Some s => negb (is_empty (trim s)) | None => false end in
    let has_tool_calls :=
      match jget "tool_calls" m with Some v => negb (is_null v) | None => false end in
    let has_reasoning :=
      match get_str "reasoning_content" m with Some s => negb (is_empty s) | None => false end in
    let has_thinking :=
      match get_array "thinking_blocks" m with Some [] => false | Some _ => true | None => false end in
    has_content || has_tool_calls || has_reasoning || has_thinking
  else true.

(** The fields copied verbatim into a history entry. *)
Definition copied_keys : list string :=
  ["tool_calls"; "tool_call_id"; "name"; "reasoning_content"; "thinking_blocks"].

Definition copy_key (m : json) (entry : list (string * json)) (k : string)
    : list (string * json) :=
  match jget k m with
  | Some v => map_insert k v entry
  | None => entry
  end.

Definition make_entry (role content m : json) : json :=
  JObj (fold_left (copy_key m) copied_keys
          (map_insert "content" content (map_insert "role" role []))).

(** The image breadcrumbs synthesised from the [media] field. *)
Definition media_breadcrumbs (media : list json) : list string :=
  (λ p, image_placeholder_text (Some p)) <$>
    filter_map (λ v, match as_str v with
                     | Some s => if is_empty s then None else Some s
                     | None => None
                     end) media.

Definition render_content (include_timestamps : bool) (m : json) : json :=
  let role := default "" (get_str "role" m) in
  let content := default (JStr "") (jget "content" m) in
  let content :=
    match content with
    | JStr s => if String.eqb role "assistant"
                then JStr (sanitize_assistant_replay_text s) else content
    | _ => content
    end in
  let content :=
    match nonempty_list (get_array "media" m), content with
    | Some media, JStr text =>
        if String.eqb role "user" then
          let breadcrumbs := join (String nl "") (media_breadcrumbs media) in
          JStr (if is_empty text then breadcrumbs else text +:+ String nl breadcrumbs)
        else content
    | _, _ => content
    end in
  match content, get_str "timestamp" m with
  | JStr s, Some ts =>
      if include_timestamps && String.eqb role "user"
      then JStr ("[Message Time: " +:+ ts +:+ "]" +:+ String nl s)
      else content
  | _, _ => content
  end.

Definition render_entry (include_timestamps : bool) (m : json) : json :=
  make_entry (JStr (default "" (get_str "role" m))) (render_content include_timestamps m) m.

(** Entries rebuilt when no user turn fits the token budget. *)
Definition recovered_entry (m : json) : json :=
  make_entry (default JNull (jget "role" m)) (default (JStr "") (jget "content" m)) m.

(** The newest messages that fit, oldest first; the newest one always does. *)
Fixpoint budget_take (newest_first : list json) (used max_tok : nat) (kept : list json)
    : list json :=
  match newest_first with
  | [] => kept
  | m :: rest =>
      let tokens := estimate_tokens_for_message m in
      if negb (match kept with [] => true | _ => false end) && (max_tok <? used + tokens)
      then kept
      else budget_take rest (used + tokens) max_tok (m :: kept)
  end.

Definition apply_budget (sliced out : list json) (max_tok : nat) : list json :=
  match out with
  | [] => out
  | _ =>
      let kept := budget_take (rev out) 0 max_tok [] in
      let kept :=
        match position (role_is "user") kept with
        | Some idx => drop idx kept
        | None =>
            match rposition (role_is "user") sliced with
            | Some idx => recovered_entry <$> drop idx sliced
            | None => kept
            end
        end in
      drop (find_legal_message_start kept) kept
  end.

(** The unconsolidated tail, capped and cut at the first user turn and at a legal
    tool-call boundary, without command echoes and empty assistant turns. *)
Definition history_slice (s : Session) (max_messages : nat) : list json :=
  let max_messages := if 0 <? max_messages then max_messages else 120 in
  let unconsolidated :=
    drop (last_consolidated s `min` length (messages s)) (messages s) in
  let sliced := if max_messages <? length unconsolidated
                then drop (length unconsolidated - max_messages) unconsolidated
                else unconsolidated in
  let sliced := drop (history_start sliced) sliced in
  let sliced := drop (find_legal_message_start sliced) sliced in
  retain keeps_content (retain (λ m, negb (is_command m)) sliced).

Definition get_history_with_options (s : Session) (max_messages : nat)
    (max_tokens : option nat) (include_timestamps : bool) : list json :=
  let sliced := history_slice s max_messages in
  let out := render_entry include_timestamps <$> sliced in
  match max_tokens with
  | Some max_tok => apply_budget sliced out max_tok
  | None => out
  end.

Definition get_history (s : Session) (max_messages : nat) : list json :=
  get_history_with_options s max_messages None false.

(** ** Trimming *)

Definition clear (s : Session) (now : Z) : Session :=
  mkSession (key s) [] (created_at s) now (delete "_last_summary" (metadata s)) 0.

(** [if legal > 0 { retained[legal..] }]. *)
Definition drop_to_legal (msgs : list json) : list json :=
  drop (find_legal_message_start msgs) msgs.

(** The messages [retain_recent_legal_suffix] keeps of a log longer than
    [max_messages > 0]. *)
Definition retained_messages (msgs : list json) (max_messages : nat) : list json :=
  let retained := drop (length msgs - max_messages) msgs in
  let retained :=
    match position (role_is "user") retained with
    | Some idx => drop idx retained
    | None =>
        match rposition (role_is "user") msgs with
        | Some idx =>
            let end_ := (idx + max_messages) `min` length msgs in
            take (end_ - idx) (drop idx msgs)
        | None => retained
        end
    end in
  let retained := drop_to_legal retained in
  if max_messages <? length retained
  then drop_to_legal (drop (length retained - max_messages) retained)
  else retained.

Definition retain_recent_legal_suffix (s : Session) (max_messages : nat) (now : Z) : Session :=
  if max_messages =? 0 then clear s now
  else if length (messages s) <=? max_messages then s
  else
    let retained := retained_messages (messages s) max_messages in
    let dropped := length (messages s) - length retained in
    set_messages s retained (last_consolidated s - dropped) now.

(** The session after the call, the result, and the chunk passed to
    [on_archive] ([None] when the callback is not invoked). *)
Definition enforce_file_cap (s : Session) (limit : nat) (now : Z)
    : Session * bool * option (list json) :=
  if (limit =? 0) || (length (messages s) <=? limit) then (s, false, None)
  else
    let s' := retain_recent_legal_suffix s limit now in
    let dropped_count := length (messages s) - length (messages s') in
    if dropped_count =? 0 then (s', false, None)
    else
      let already_consolidated := last_consolidated s `min` dropped_count in
      let archive_chunk :=
        take (dropped_count - already_consolidated) (drop already_consolidated (messages s)) in
      (s', true, match archive_chunk with [] => None | _ => Some archive_chunk end).

(** ** Lemmas on history entries *)

Lemma map_get_copy_keys m ks e k :
  map_get k (fold_left (copy_key m) ks e) =
  match (if bool_decide (k ∈ ks) then jget k m else None) with
  | Some v => Some v
  | None => map_get k e
  end.
Proof.
  revert e. induction ks as [|k0 ks IH]; intros e; cbn [fold_left]; [done|].
  rewrite IH. unfold copy_key. destruct (decide (k = k0)) as [->|Hne].
  - rewrite (bool_decide_eq_true_2 (k0 ∈ k0 :: ks)) by left.
    destruct (jget k0 m) as [v|]; [|by case_bool_decide].
    rewrite map_get_insert. by case_bool_decide.
  - replace (bool_decide (k ∈ k0 :: ks)) with (bool_decide (k ∈ ks))
      by (apply bool_decide_ext; rewrite elem_of_cons; naive_solver).
    destruct (jget k0 m); [|done]. by rewrite map_get_insert_ne.
Qed.

Lemma make_entry_role r c m : jget "role" (make_entry r c m) = Some r.
Proof. unfold make_entry, jget at 1. by rewrite map_get_copy_keys. Qed.

Lemma make_entry_copied r c m k :
  k ∈ copied_keys → jget k (make_entry r c m) = jget k m.
Proof.
  intros Hk. unfold make_entry, jget at 1. rewrite map_get_copy_keys.
  rewrite bool_decide_eq_true_2 by done. destruct (jget k m); [done|].
  apply map_get_None. simpl. unfold copied_keys in Hk. set_solver.
Qed.

Lemma render_entry_role ts m :
  get_str "role" (render_entry ts m) = Some (default "" (get_str "role" m)).
Proof. unfold get_str at 1, render_entry. by rewrite make_entry_role. Qed.

Lemma render_entry_role_is ts m r : r ≠ "" → role_is r (render_entry ts m) = role_is r m.
Proof.
  intros Hr. unfold role_is, str_field_is. rewrite render_entry_role.
  destruct (get_str "role" m); [done|]. simpl. by destruct r.
Qed.

Lemma render_entry_copied ts m k :
  k ∈ copied_keys → jget k (render_entry ts m) = jget k m.
Proof. apply make_entry_copied. Qed.

Lemma call_ids_render ts m : call_ids (render_entry ts m) = call_ids m.
Proof.
  unfold call_ids, get_array.
  fold (role_is "assistant" (render_entry ts m)). rewrite render_entry_role_is by done.
  by rewrite render_entry_copied by (by vm_compute; left).
Qed.

Lemma answered_call_render ts m : answered_call (render_entry ts m) = answered_call m.
Proof.
  unfold answered_call, tool_result_ident.
  fold (role_is "tool" (render_entry ts m)). rewrite render_entry_role_is by done.
  by rewrite render_entry_copied by (vm_compute; right; left).
Qed.

Lemma keeps_content_calls m : keeps_content m = false → call_ids m = [].
Proof.
  unfold keeps_content, call_ids, role_is. case_match; [|done]. intros H'. bool_to_prop.
  unfold get_array. destruct (jget "tool_calls" m) as [v|]; [|done]. by destruct v.
Qed.

(** ** Lemmas on slices *)

Lemma history_slice_length s n :
  length (history_slice s n) ≤ (if 0 <? n then n else 120).
Proof.
  unfold history_slice. set (cap := if 0 <? n then n else 120).
  etrans; [apply retain_length|]. etrans; [apply retain_length|].
  rewrite !length_drop. case_match eqn:E; bool_to_prop; rewrite ?length_drop; lia.
Qed.

Lemma history_slice_incl s n m : m ∈ history_slice s n → m ∈ messages s ∧ is_command m = false.
Proof.
  unfold history_slice. intros [[Hm Hc]%retain_elem_of _]%retain_elem_of. bool_to_prop.
  split; [|done].
  apply elem_of_drop_incl, elem_of_drop_incl in Hm.
  case_match; by repeat apply elem_of_drop_incl in Hm.
Qed.

Lemma history_slice_legal s n :
  (∀ m, m ∈ messages s → is_command m = false) → legal_history (history_slice s n).
Proof.
  intros Hcmd. unfold history_slice.
  apply legal_history_retain; [intros m _; apply keeps_content_calls|].
  rewrite (retain_all (λ m, negb (is_command m))); [auto with hive|].
  intros m Hm. rewrite Hcmd; [done|].
  apply elem_of_drop_incl, elem_of_drop_incl in Hm.
  case_match; by repeat apply elem_of_drop_incl in Hm.
Qed.

(** ** Lemmas on the token budget *)

Definition total_tokens (msgs : list json) : nat := sum_list_with estimate_tokens_for_message msgs.

Definition within_budget (max_tok : nat) (msgs : list json) : Prop :=
  total_tokens msgs ≤ max_tok ∨ length msgs ≤ 1.

Lemma within_budget_drop mt n msgs : within_budget mt msgs → within_budget mt (drop n msgs).
Proof.
  intros [H|H]; [left|right].
  - unfold total_tokens in *. rewrite <-(take_drop n msgs), sum_list_with_app in H. lia.
  - rewrite length_drop. lia.
Qed.

Lemma budget_take_spec nf used mt kept :
  used = total_tokens kept → within_budget mt kept →
  (∃ pre, rev nf ++ kept = pre ++ budget_take nf used mt kept) ∧
  within_budget mt (budget_take nf used mt kept).
Proof.
  revert used kept. induction nf as [|m nf IH]; intros used kept Hused Hw; cbn [budget_take].
  { split; [by exists []|done]. }
  case_match eqn:E.
  { split; [|done]. exists (rev (m :: nf)). done. }
  edestruct (IH (used + estimate_tokens_for_message m) (m :: kept)) as [[pre Hpre] Hin].
  - unfold total_tokens in *. simpl. lia.
  - destruct kept as [|k kept]; [right; simpl; lia|]. simpl in E. bool_to_prop.
    left. unfold total_tokens in *. simpl in *. lia.
  - split; [|done]. exists pre. simpl. by rewrite <-app_assoc, <-Hpre.
Qed.

Lemma budget_window out mt :
  let kept := budget_take (rev out) 0 mt [] in
  kept `suffix_of` out ∧ within_budget mt kept.
Proof.
  destruct (budget_take_spec (rev out) 0 mt []) as [[pre Hpre] Hw].
  - done.
  - right. simpl. lia.
  - split; [|done]. exists pre. by rewrite <-Hpre, rev_involutive, app_nil_r.
Qed.

(** ** Lemmas on trimming *)

Lemma drop_suffix (n : nat) (l : list json) : drop n l `suffix_of` l.
Proof. exists (take n l). by rewrite take_drop. Qed.

Lemma drop_to_legal_suffix msgs : drop_to_legal msgs `suffix_of` msgs.
Proof. apply drop_suffix. Qed.

Lemma drop_to_legal_legal msgs : legal_history (drop_to_legal msgs).
Proof. unfold drop_to_legal. auto with hive. Qed.

Definition contiguous (part whole : list json) : Prop := ∃ pre post, whole = pre ++ part ++ post.

Lemma contiguous_suffix part mid whole :
  part `suffix_of` mid → contiguous mid whole → contiguous part whole.
Proof.
  intros [k ->] (pre & post & ->). exists (pre ++ k), post. by rewrite !app_assoc.
Qed.

Lemma suffix_contiguous part whole : part `suffix_of` whole → contiguous part whole.
Proof. intros [k ->]. exists k, []. by rewrite app_nil_r. Qed.

Lemma retained_last_cut r n :
  let r' := if n <? length r then drop_to_legal (drop (length r - n) r) else r in
  r' `suffix_of` r ∧ length r' ≤ n ∧ (legal_history r → legal_history r').
Proof.
  cbn zeta. case_match eqn:E; bool_to_prop.
  - split_and!.
    + etrans; [apply drop_to_legal_suffix|apply drop_suffix].
    + unfold drop_to_legal. rewrite !length_drop. lia.
    + intros _. apply drop_to_legal_legal.
  - split_and!; [done|lia|done].
Qed.

Lemma retained_messages_spec msgs n :
  length (retained_messages msgs n) ≤ n ∧
  legal_history (retained_messages msgs n) ∧
  contiguous (retained_messages msgs n) msgs.
Proof.
  unfold retained_messages.
  match goal with |- context [drop_to_legal ?r0] => set (r := r0) end.
  destruct (retained_last_cut (drop_to_legal r) n) as (Hs & Hl & Hleg).
  split_and!; [done|apply Hleg, drop_to_legal_legal|].
  eapply contiguous_suffix; [exact Hs|]. eapply contiguous_suffix; [apply drop_to_legal_suffix|].
  subst r. case_match.
  { apply suffix_contiguous. etrans; apply drop_suffix. }
  case_match; [|apply suffix_contiguous, drop_suffix].
  set (k := _ - _). exists (take n0 msgs), (drop k (drop n0 msgs)).
  by rewrite !take_drop.
Qed.

(** With a user turn among the last [n] messages the kept part is a suffix. *)
Lemma retained_messages_suffix msgs n :
  position (role_is "user") (drop (length msgs - n) msgs) ≠ None →
  retained_messages msgs n `suffix_of` msgs.
Proof.
  intros Hu. unfold retained_messages.
  destruct (position _ _) as [idx|]; [|done].
  match goal with |- context [drop_to_legal ?r0] => set (r := r0) end.
  destruct (retained_last_cut (drop_to_legal r) n) as (Hs & _ & _).
  etrans; [exact Hs|]. etrans; [apply drop_to_legal_suffix|].
  subst r. etrans; apply drop_suffix.
Qed.

(** Keys of an entry built by [make_entry]. *)
Definition entry_keys : list string := "role" :: "content" :: copied_keys.

Lemma make_entry_keys r c m :
  ∃ o, make_entry r c m = JObj o ∧ NoDup o.*1 ∧ ∀ k, k ∈ o.*1 → k ∈ entry_keys.
Proof.
  unfold make_entry. eexists. split; [done|].
  assert (H : ∀ ks e, NoDup e.*1 → (∀ k, k ∈ e.*1 → k ∈ entry_keys) →
    (∀ k, k ∈ ks → k ∈ entry_keys) →
    NoDup (fold_left (copy_key m) ks e).*1 ∧
    ∀ k, k ∈ (fold_left (copy_key m) ks e).*1 → k ∈ entry_keys).
  { induction ks as [|k0 ks IH]; intros e Hnd Hin Hks; [done|]. cbn [fold_left].
    unfold copy_key at 2 4. destruct (jget k0 m) as [v|].
    - apply IH; [by apply map_insert_NoDup| |set_solver].
      intros k. rewrite map_insert_keys. case_match; [apply Hin|]. set_solver.
    - apply IH; set_solver. }
  apply H.
  - by apply (bool_decide_unpack _).
  - unfold entry_keys. simpl. set_solver.
  - unfold entry_keys. set_solver.
Qed.

Lemma apply_budget_cases sliced out mt e :
  e ∈ apply_budget sliced out mt → e ∈ out ∨ e ∈ recovered_entry <$> sliced.
Proof.
  unfold apply_budget. destruct (out) as [|o0 os] eqn:Eo; [by left|]. rewrite <-Eo.
  intros He%elem_of_drop_incl. destruct (budget_window out mt) as [[pre Hpre] _].
  assert (Hk : ∀ x, x ∈ budget_take (rev out) 0 mt [] → x ∈ out).
  { intros x Hx. rewrite Hpre. apply elem_of_app. by right. }
  case_match; [left; apply elem_of_drop_incl in He; by apply Hk|].
  case_match; [right|left; by apply Hk].
  rewrite fmap_drop in He. by apply elem_of_drop_incl in He.
Qed.

Lemma apply_budget_length sliced out mt :
  length out = length sliced → length (apply_budget sliced out mt) ≤ length sliced.
Proof.
  intros Hlen. unfold apply_budget. destruct (out) as [|o0 os] eqn:Eo; [simpl; lia|].
  rewrite <-Eo in *. rewrite length_drop.
  destruct (budget_window out mt) as [Hs%suffix_length _].
  case_match; [rewrite length_drop; lia|].
  case_match; [rewrite length_fmap, length_drop; lia|lia].
Qed.

(** ** Properties *)

(** the history handed to the model never opens with, or contains, a tool
    result whose call was cut away: it is a legal history whenever a token budget
    is given, and without one for every session without [_command] messages. *)
Theorem get_history_legal (s : Session) (max_messages : nat) (max_tokens : option nat)
    (include_timestamps : bool) :
  max_tokens ≠ None ∨ (∀ m, m ∈ messages s → is_command m = false) →
  legal_history (get_history_with_options s max_messages max_tokens include_timestamps).
Proof.
  intros H. unfold get_history_with_options. destruct max_tokens as [mt|].
  - unfold apply_budget. case_match; [|auto with hive].
    intros i m t Hi. by rewrite lookup_nil in Hi.
  - destruct H as [?|H]; [done|]. apply legal_history_map;
      [apply call_ids_render|apply answered_call_render|by apply history_slice_legal].
Qed.

Definition demo_msg (role content : string) : json :=
  JObj [("role", JStr role); ("content", JStr content)].

Definition demo_tool (id : string) : json :=
  JObj [("role", JStr "tool"); ("content", JStr "ok"); ("tool_call_id", JStr id)].

Definition demo_call (id : string) : json :=
  JObj [("role", JStr "assistant"); ("content", JStr "");
        ("tool_calls", JArr [JObj [("id", JStr id)]])].

Definition demo_session : Session :=
  mkSession "cli:1" [demo_msg "user" "hi"; demo_call "a"; demo_tool "a"; demo_msg "assistant" "done"]
    0 0 ∅ 0.

Example get_history_legal_witness :
  length (get_history demo_session 2) = 1 ∧
  legal_history (get_history_with_options demo_session 2 None false).
Proof.
  split; [by vm_compute|]. apply (get_history_legal demo_session 2 None false). right.
  intros m Hm. cbn in Hm. repeat (apply elem_of_cons in Hm as [->|Hm]; [done|]).
  by apply not_elem_of_nil in Hm.
Defined.

(** a history is never longer than the message cap (120 when none is given),
    and an entry carries no field of the stored message other than role, content
    and the five fields the model protocol knows; no key occurs twice. *)
Theorem get_history_shape (s : Session) (max_messages : nat) (max_tokens : option nat)
    (include_timestamps : bool) :
  length (get_history_with_options s max_messages max_tokens include_timestamps)
    ≤ (if 0 <? max_messages then max_messages else 120) ∧
  Forall (λ e, ∃ o, e = JObj o ∧ NoDup o.*1 ∧ ∀ k, k ∈ o.*1 → k ∈ entry_keys)
    (get_history_with_options s max_messages max_tokens include_timestamps).
Proof.
  pose proof (history_slice_length s max_messages) as Hlen.
  unfold get_history_with_options. split.
  - destruct max_tokens; [|by rewrite length_fmap].
    etrans; [apply apply_budget_length, length_fmap|done].
  - apply Forall_forall. intros e He.
    assert (e ∈ render_entry include_timestamps <$> history_slice s max_messages ∨
            e ∈ recovered_entry <$> history_slice s max_messages) as [Hin|Hin].
    { destruct max_tokens; [by apply apply_budget_cases in He|by left]. }
    all: apply list_elem_of_fmap in Hin as (m & -> & _); apply make_entry_keys.
Qed.

(** with a token budget, when the newest messages that fit contain a user
    turn the result is a suffix of the unbudgeted history whose estimated tokens
    stay within the budget, except that a single newest message is always kept. *)
Theorem get_history_budget (s : Session) (max_messages max_tok : nat) (include_timestamps : bool) :
  let full := get_history_with_options s max_messages None include_timestamps in
  let out := get_history_with_options s max_messages (Some max_tok) include_timestamps in
  position (role_is "user") (budget_take (rev full) 0 max_tok []) ≠ None →
  out `suffix_of` full ∧ (total_tokens out ≤ max_tok ∨ length out ≤ 1).
Proof.
  intros full out. subst out. unfold get_history_with_options in *.
  fold full. unfold apply_budget. destruct (budget_window full max_tok) as [Hs Hw].
  destruct full as [|f fs] eqn:Ef; [done|]. rewrite <-Ef in *.
  intros Hu. case_match; [|done]. split.
  - etrans; [apply drop_suffix|]. etrans; [apply drop_suffix|done].
  - by apply within_budget_drop, within_budget_drop.
Qed.

Example get_history_budget_witness :
  let full := get_history_with_options demo_session 10 None false in
  let out := get_history_with_options demo_session 10 (Some 100) false in
  length out = 4 ∧ out `suffix_of` full ∧ (total_tokens out ≤ 100 ∨ length out ≤ 1).
Proof.
  split; [by vm_compute|]. apply (get_history_budget demo_session 10 100 false).
  by vm_compute.
Defined.

(** when no user turn fits the budget, the history is rebuilt from the last
    user turn of the whole slice and the budget is not enforced on it: here a
    budget of 20 tokens yields 38, and the rebuilt entries skip the replay
    sanitising of the unbudgeted path. *)
Theorem budget_recovery_exceeds :
  ∃ s : Session,
    total_tokens (get_history_with_options s 10 (Some 20) false) = 38 ∧
    (get_history_with_options s 10 (Some 20) false) !! 1
      ≠ (get_history_with_options s 10 None false) !! 1.
Proof.
  exists (mkSession "cli:1"
    [demo_msg "user" "q"; demo_msg "assistant" ("sure" +:+ String nl "message(hi)");
     demo_msg "assistant" "sixteen letters!"] 0 0 ∅ 0).
  vm_compute. split; [done|congruence].
Qed.

(** [retain_recent_legal_suffix] with a positive cap leaves at most that many
    messages, a contiguous part of the log; a trimmed log is a legal history, and
    the consolidation cursor stays within the log. *)
Theorem retain_recent_legal_suffix_spec (s : Session) (max_messages : nat) (now : Z) :
  0 < max_messages →
  let s' := retain_recent_legal_suffix s max_messages now in
  length (messages s') ≤ max_messages ∧
  contiguous (messages s') (messages s) ∧
  (max_messages < length (messages s) → legal_history (messages s')) ∧
  (last_consolidated s ≤ length (messages s) → last_consolidated s' ≤ length (messages s')).
Proof.
  intros Hpos. unfold retain_recent_legal_suffix.
  destruct (max_messages =? 0) eqn:E0; bool_to_prop; [lia|].
  destruct (length (messages s) <=? max_messages) eqn:E1; bool_to_prop.
  - split_and!; [done| |lia|done]. exists [], []. by rewrite app_nil_r.
  - destruct (retained_messages_spec (messages s) max_messages) as (Hl & Hleg & Hc).
    pose proof Hc as (pre & post & Hsplit%(f_equal length)).
    rewrite !length_app in Hsplit.
    split_and!; simpl; auto. intros Hlc. lia.
Qed.

Example retain_recent_legal_suffix_spec_witness :
  let s' := retain_recent_legal_suffix demo_session 3 7 in
  length (messages s') = 3 ∧
  length (messages s') ≤ 3 ∧ contiguous (messages s') (messages demo_session) ∧
  (3 < length (messages demo_session) → legal_history (messages s')) ∧
  (last_consolidated demo_session ≤ length (messages demo_session) →
     last_consolidated s' ≤ length (messages s')).
Proof.
  split; [by vm_compute|]. apply (retain_recent_legal_suffix_spec demo_session 3 7). lia.
Defined.

(** when the last [limit] messages contain a user turn, [enforce_file_cap]
    loses nothing: the old log is the dropped prefix followed by the kept log, and
    the chunk given to [on_archive] is exactly the part of that prefix that was
    not consolidated before. *)
Theorem enforce_file_cap_no_loss (s : Session) (limit : nat) (now : Z) s' trimmed chunk :
  position (role_is "user") (drop (length (messages s) - limit) (messages s)) ≠ None →
  enforce_file_cap s limit now = (s', trimmed, chunk) →
  ∃ dropped, messages s = dropped ++ messages s' ∧
    default [] chunk = drop (last_consolidated s) dropped.
Proof.
  intros Hu. unfold enforce_file_cap.
  destruct ((limit =? 0) || (length (messages s) <=? limit)) eqn:E.
  { intros [= <- <- <-]. exists []. split; [done|by rewrite drop_nil]. }
  bool_to_prop. unfold retain_recent_legal_suffix.
  destruct (limit =? 0) eqn:E0; bool_to_prop; [lia|].
  destruct (length (messages s) <=? limit) eqn:E1; bool_to_prop; [lia|]. simpl.
  destruct (retained_messages_suffix (messages s) limit Hu) as [dropped Hd].
  assert (Hn : length (messages s) - length (retained_messages (messages s) limit)
    = length dropped) by (apply (f_equal length) in Hd; rewrite length_app in Hd; lia).
  rewrite Hn. intros Hcase. exists dropped.
  set (kept := retained_messages (messages s) limit) in *.
  assert (Hchunk : take (length dropped - last_consolidated s `min` length dropped)
    (drop (last_consolidated s `min` length dropped) (messages s))
    = drop (last_consolidated s) dropped).
  { rewrite Hd. rewrite drop_app_le by lia. rewrite take_app_le by (rewrite length_drop; lia).
    rewrite take_ge by (rewrite length_drop; lia).
    destruct (decide (last_consolidated s ≤ length dropped)).
    - by rewrite Nat.min_l by lia.
    - rewrite Nat.min_r by lia. by rewrite !drop_ge by lia. }
  rewrite Hchunk in Hcase.
  destruct (length dropped =? 0) eqn:Ez; simplify_eq; simpl; (split; [done|]).
  - apply Nat.eqb_eq, nil_length_inv in Ez. rewrite Ez. by rewrite drop_nil.
  - by destruct (drop _ dropped).
Qed.

Example enforce_file_cap_no_loss_witness :
  let s := mkSession "cli:1" (demo_msg "user" "a" :: demo_msg "assistant" "b" ::
             demo_msg "user" "c" :: demo_msg "assistant" "d" :: nil) 0 0 ∅ 1 in
  ∃ dropped, messages s = dropped ++ [demo_msg "user" "c"; demo_msg "assistant" "d"] ∧
    default [] (Some [demo_msg "assistant" "b"]) = drop (last_consolidated s) dropped.
Proof.
  apply (enforce_file_cap_no_loss _ 3 7 (mkSession "cli:1"
    [demo_msg "user" "c"; demo_msg "assistant" "d"] 0 7 ∅ 0) true).
  - by vm_compute.
  - by vm_compute.
Defined.

(** when the last [limit] messages contain no user turn, [enforce_file_cap]
    keeps a window anchored at the last user turn, drops the newest messages
    without archiving them and archives messages it also keeps. *)
Theorem enforce_file_cap_loses :
  ∃ (s s' : Session) chunk lost doubled,
    enforce_file_cap s 2 7 = (s', true, Some chunk) ∧
    lost ∈ messages s ∧ (lost ∉ messages s') ∧ (lost ∉ chunk) ∧
    doubled ∈ messages s' ∧ doubled ∈ chunk.
Proof.
  exists (mkSession "cli:1" [demo_msg "user" "q"; demo_msg "assistant" "1";
            (demo_msg "assistant" "2"); (demo_msg "assistant" "3")] 0 0 ∅ 0).
  eexists _, _, (demo_msg "assistant" "3"), (demo_msg "user" "q").
  split; [by vm_compute|].
  split_and!; apply (bool_decide_unpack _); by vm_compute.
Qed.
