(* ===== verification/SessionStore.v ===== *)
(** * The session store

    [SessionManager] of [crates/session/src/manager.rs]: one JSONL file per
    session under the sessions directory, an in-memory cache, migration from the
    legacy directory, strict and repairing readers, and the atomic save through a
    temporary file. *)

From S2P Require Import Prelude RustStr Json Messages Session.

Local Open Scope stdpp_scope.
Local Open Scope hive_scope.

(** ** The file system

    Regular files by path, with their (UTF-8) contents. *)

Abbreviation fsys := (gmap string string).

(** The primitive operations [save] performs, in order. *)
Inductive fsop : Type :=
| Create (p : string)
| Append (p : string) (data : string)
| SyncAll (p : string)
| Rename (p q : string)
| RemoveFile (p : string).

Definition apply_op (op : fsop) (fs : fsys) : fsys :=
  match op with
  | Create p => <[p := ""]> fs
  | Append p data => alter (λ c, c +:+ data) p fs
  | SyncAll _ => fs
  | Rename p q =>
      match fs !! p with
      | Some c => <[q := c]> (delete p fs)
      | None => fs
      end
  | RemoveFile p => delete p fs
  end.

Definition apply_ops (ops : list fsop) (fs : fsys) : fsys :=
  fold_left (λ fs op, apply_op op fs) ops fs.

(** A failing operation: a write may have put some bytes down already. *)
Definition fail_op (op : fsop) (written : nat) (fs : fsys) : fsys :=
  match op with
  | Append p data => alter (λ c, c +:+ stake written data) p fs
  | _ => fs
  end.

(** ** The manager *)

Record SessionManager := mkManager {
  workspace : string;
  sessions_dir : string;
  legacy_sessions_dir : string;
  cache : gmap string Session
}.

Definition with_cache (mgr : SessionManager) (c : gmap string Session) : SessionManager :=
  mkManager (workspace mgr) (sessions_dir mgr) (legacy_sessions_dir mgr) c.

Definition safe_key (k : string) : string := safe_filename (replace_char ":" "_" k).

Definition session_path (mgr : SessionManager) (k : string) : string :=
  sessions_dir mgr +:+ "/" +:+ safe_key k +:+ ".jsonl".

Definition legacy_session_path (mgr : SessionManager) (k : string) : string :=
  legacy_sessions_dir mgr +:+ "/" +:+ safe_key k +:+ ".jsonl".

(** [path.with_extension("jsonl.tmp")]: the last extension is replaced; the file
    name [".jsonl"] of an empty stem has none, so there the suffix is added. *)
Definition tmp_path (mgr : SessionManager) (k : string) : string :=
  session_path mgr k +:+ (if is_empty (safe_key k) then ".jsonl.tmp" else ".tmp").

Section Store.
(** Third-party code: [serde_json::from_str]/[to_string], [chrono]'s RFC 3339
    printer and parser and its two naive formats, and the iteration order of a
    [HashMap]. *)
Variable from_str : string → option json.
Variable to_string : json → string.
Variable to_rfc3339 : Z → string.
Variable parse_from_rfc3339 : string → option Z.
Variable naive_fraction naive_seconds : string → option (option Z).
Variable hash_order : gmap string json → list (string * json).

(** [Some None] of a naive parser is a local time that is ambiguous or skipped,
    for which the code takes the current time. *)
Definition parse_isoformat (now : Z) (s : string) : option Z :=
  match parse_from_rfc3339 s with
  | Some t => Some t
  | None =>
      match naive_fraction s with
      | Some t => Some (default now t)
      | None =>
          match naive_seconds s with
          | Some t => Some (default now t)
          | None => None
          end
      end
  end.

(** *** Reading *)

(** The accumulators of both readers. *)
Record reader := mkReader {
  rd_messages : list json;
  rd_metadata : gmap string json;
  rd_created : option Z;
  rd_updated : option Z;
  rd_consolidated : nat
}.

Definition reader_init : reader := mkReader [] ∅ None None 0.

Definition is_metadata_line (data : json) : bool := str_field_is "_type" "metadata" data.

(** The effect of one parsed line. *)
Definition ingest (now : Z) (st : reader) (data : json) : reader :=
  if is_metadata_line data then
    mkReader (rd_messages st)
      (match jget "metadata" data ≫= as_object with
       | Some m => list_to_map m
       | None => rd_metadata st
       end)
      (get_str "created_at" data ≫= parse_isoformat now)
      (get_str "updated_at" data ≫= parse_isoformat now)
      (Z.to_nat (default 0%Z (jget "last_consolidated" data ≫= as_u64)))
  else
    mkReader (rd_messages st ++ [data]) (rd_metadata st) (rd_created st) (rd_updated st)
      (rd_consolidated st).

Definition reader_session (now : Z) (k : string) (st : reader) : Session :=
  mkSession k (rd_messages st) (default now (rd_created st)) (default now (rd_updated st))
    (rd_metadata st) (rd_consolidated st).

(** [read_strict] stops at the first line that is not JSON. *)
Fixpoint read_lines_strict (now : Z) (ls : list string) (st : reader) : option reader :=
  match ls with
  | [] => Some st
  | l :: ls' =>
      let l := trim l in
      if is_empty l then read_lines_strict now ls' st
      else match from_str l with
           | None => None
           | Some data => read_lines_strict now ls' (ingest now st data)
           end
  end.

Definition read_strict (now : Z) (k : string) (contents : string) : option Session :=
  reader_session now k <$> read_lines_strict now (lines contents) reader_init.

(** [repair] skips such lines and counts them. *)
Fixpoint read_lines_repair (now : Z) (ls : list string) (st : reader) (skipped : nat)
    : reader * nat :=
  match ls with
  | [] => (st, skipped)
  | l :: ls' =>
      let l := trim l in
      if is_empty l then read_lines_repair now ls' st skipped
      else match from_str l with
           | None => read_lines_repair now ls' st (S skipped)
           | Some data => read_lines_repair now ls' (ingest now st data) skipped
           end
  end.

Definition repair (now : Z) (mgr : SessionManager) (fs : fsys) (k : string) : option Session :=
  match fs !! session_path mgr k with
  | None => None
  | Some contents =>
      let '(st, _) := read_lines_repair now (lines contents) reader_init 0 in
      match rd_messages st with
      | [] => if bool_decide (rd_metadata st = ∅) then None else Some (reader_session now k st)
      | _ => Some (reader_session now k st)
      end
  end.

(** The rename of [migrate_legacy] may fail, which is only logged. *)
Definition migrate_legacy (mgr : SessionManager) (fs : fsys) (k target : string)
    (rename_ok : bool) : fsys :=
  match fs !! legacy_session_path mgr k with
  | Some _ => if rename_ok then apply_op (Rename (legacy_session_path mgr k) target) fs else fs
  | None => fs
  end.

Definition load (now : Z) (mgr : SessionManager) (fs : fsys) (k : string) (rename_ok : bool)
    : fsys * option Session :=
  let path := session_path mgr k in
  let fs := match fs !! path with
            | Some _ => fs
            | None => migrate_legacy mgr fs k path rename_ok
            end in
  match fs !! path with
  | None => (fs, None)
  | Some contents =>
      match read_strict now k contents with
      | Some session => (fs, Some session)
      | None => (fs, repair now mgr fs k)
      end
  end.

Definition get_or_create (now : Z) (mgr : SessionManager) (fs : fsys) (k : string)
    (rename_ok : bool) : SessionManager * fsys * Session :=
  match cache mgr !! k with
  | Some s => (mgr, fs, s)
  | None =>
      let '(fs', loaded) := load now mgr fs k rename_ok in
      let session := default (Session_new k now) loaded in
      (with_cache mgr (<[k := session]> (cache mgr)), fs', session)
  end.

(** *** Writing *)

Definition metadata_line (s : Session) : json :=
  JObj [("_type", JStr "metadata");
        ("key", JStr (key s));
        ("created_at", JStr (to_rfc3339 (created_at s)));
        ("updated_at", JStr (to_rfc3339 (updated_at s)));
        ("metadata", JObj (hash_order (metadata s)));
        ("last_consolidated", JInt (Z.of_nat (last_consolidated s)))].

(** The values written, one per line. *)
Definition file_values (s : Session) : list json := metadata_line s :: messages s.

Definition newline : string := String nl "".

Definition save_ops (mgr : SessionManager) (s : Session) (fsync : bool) : list fsop :=
  let tmp := tmp_path mgr (key s) in
  [Create tmp]
  ++ ((λ v, Append tmp (to_string v +:+ newline)) <$> file_values s)
  ++ (if fsync then [SyncAll tmp] else [])
  ++ [Rename tmp (session_path mgr (key s))].

(** [fault = Some (i, n)]: operation [i] fails after writing [n] bytes.  A failed
    rename removes the temporary file; an error leaves the cache alone. *)
Definition save (mgr : SessionManager) (fs : fsys) (s : Session) (fsync : bool)
    (fault : option (nat * nat)) : SessionManager * fsys * bool :=
  let ops := save_ops mgr s fsync in
  match fault ≫= (λ f, (λ op, (f, op)) <$> ops !! f.1) with
  | None =>
      (with_cache mgr (<[key s := s]> (cache mgr)), apply_ops ops fs, true)
  | Some ((i, n), op) =>
      let fs' := fail_op op n (apply_ops (take i ops) fs) in
      match op with
      | Rename tmp _ => (mgr, apply_op (RemoveFile tmp) fs', false)
      | _ => (mgr, fs', false)
      end
  end.

(** [keys] is the cache's key list in iteration order; [faults] the failure, if
    any, of each save. *)
Definition flush_all (mgr : SessionManager) (fs : fsys) (keys : list string)
    (faults : string → option (nat * nat)) : SessionManager * fsys * nat :=
  fold_left (λ acc k,
    let '(mgr, fs, flushed) := acc in
    match cache mgr !! k with
    | Some s =>
        let '(mgr', fs', ok) := save mgr fs s true (faults k) in
        (mgr', fs', if ok then S flushed else flushed)
    | None => acc
    end) keys (mgr, fs, 0).

Definition invalidate (mgr : SessionManager) (k : string) : SessionManager :=
  with_cache mgr (delete k (cache mgr)).

Definition delete_session (mgr : SessionManager) (fs : fsys) (k : string) (remove_ok : bool)
    : SessionManager * fsys * bool :=
  let path := session_path mgr k in
  let mgr' := invalidate mgr k in
  match fs !! path with
  | None => (mgr', fs, false)
  | Some _ => if remove_ok then (mgr', apply_op (RemoveFile path) fs, true) else (mgr', fs, false)
  end.

(** *** Read-only access *)

Definition session_payload (s : Session) : json :=
  JObj [("key", JStr (key s));
        ("created_at", JStr (to_rfc3339 (created_at s)));
        ("updated_at", JStr (to_rfc3339 (updated_at s)));
        ("metadata", JObj (hash_order (metadata s)));
        ("messages", JArr (messages s))].

Record raw_reader := mkRawReader {
  raw_messages : list json;
  raw_metadata : list (string * json);
  raw_created : option string;
  raw_updated : option string;
  raw_key : option string
}.

(** [collect] of the object's entries into a [Map]. *)
Definition collect_map (m : list (string * json)) : list (string * json) :=
  fold_left (λ acc kv, map_insert kv.1 kv.2 acc) m [].

Definition ingest_raw (st : raw_reader) (data : json) : raw_reader :=
  if is_metadata_line data then
    mkRawReader (raw_messages st)
      (match jget "metadata" data ≫= as_object with
       | Some m => collect_map m
       | None => raw_metadata st
       end)
      (get_str "created_at" data) (get_str "updated_at" data) (get_str "key" data)
  else
    mkRawReader (raw_messages st ++ [data]) (raw_metadata st) (raw_created st) (raw_updated st)
      (raw_key st).

Fixpoint read_raw (ls : list string) (st : raw_reader) : option raw_reader :=
  match ls with
  | [] => Some st
  | l :: ls' =>
      let l := trim l in
      if is_empty l then read_raw ls' st
      else match from_str l with
           | None => None
           | Some data => read_raw ls' (ingest_raw st data)
           end
  end.

Definition opt_str (o : option string) : json :=
  match o with Some s => JStr s | None => JNull end.

Definition read_session_file (now : Z) (mgr : SessionManager) (fs : fsys) (k : string)
    : option json :=
  match fs !! session_path mgr k with
  | None => None
  | Some contents =>
      match read_raw (lines contents) (mkRawReader [] [] None None None) with
      | None => session_payload <$> repair now mgr fs k
      | Some st =>
          Some (JObj [("key", JStr (default k (raw_key st)));
                      ("created_at", opt_str (raw_created st));
                      ("updated_at", opt_str (raw_updated st));
                      ("metadata", JObj (raw_metadata st));
                      ("messages", JArr (raw_messages st))])
      end
  end.

(** ** Lemmas on saving *)

Definition file_contents (s : Session) : string :=
  foldr (λ l acc, l +:+ String nl acc) "" (to_string <$> file_values s).

Lemma sapp_ne_self s t : t ≠ "" → s +:+ t ≠ s.
Proof.
  intros Ht H. apply (f_equal String.length) in H. rewrite slength_app in H.
  destruct t; [done|]. simpl in H. lia.
Qed.

Lemma tmp_path_ne mgr k : tmp_path mgr k ≠ session_path mgr k.
Proof. unfold tmp_path. apply sapp_ne_self. by case_match. Qed.

Lemma apply_ops_app ops1 ops2 fs : apply_ops (ops1 ++ ops2) fs = apply_ops ops2 (apply_ops ops1 fs).
Proof. apply fold_left_app. Qed.

(** Appending lines to one file. *)
Lemma apply_appends p vs fs c :
  fs !! p = Some c →
  apply_ops ((λ v, Append p (to_string v +:+ newline)) <$> vs) fs =
  <[p := c +:+ foldr (λ l acc, l +:+ String nl acc) "" (to_string <$> vs)]> fs.
Proof.
  revert fs c. induction vs as [|v vs IH]; intros fs c Hp; simpl.
  - rewrite sapp_nil_r. by rewrite insert_id.
  - change (apply_ops ((λ v, Append p (to_string v +:+ newline)) <$> vs)
      (alter (λ c, c +:+ (to_string v +:+ newline)) p fs) =
      <[p := c +:+ (to_string v +:+ String nl
        (foldr (λ l acc, l +:+ String nl acc) "" (to_string <$> vs)))]> fs).
    rewrite (IH _ (c +:+ (to_string v +:+ newline))).
    + apply map_eq. intros q. destruct (decide (p = q)) as [->|Hne].
      * rewrite !lookup_insert_eq. f_equal. rewrite <-!sapp_assoc. do 2 f_equal.
      * rewrite !lookup_insert_ne by done. by rewrite lookup_alter_ne.
    + rewrite lookup_alter_eq, Hp. done.
Qed.

(** Everything before the final rename happens to the temporary file. *)
Definition save_body (mgr : SessionManager) (s : Session) (fsync : bool) : list fsop :=
  let tmp := tmp_path mgr (key s) in
  [Create tmp]
  ++ ((λ v, Append tmp (to_string v +:+ newline)) <$> file_values s)
  ++ (if fsync then [SyncAll tmp] else []).

Lemma save_ops_body mgr s fsync :
  save_ops mgr s fsync =
  save_body mgr s fsync ++ [Rename (tmp_path mgr (key s)) (session_path mgr (key s))].
Proof. unfold save_ops, save_body. by rewrite <-!app_assoc. Qed.

Definition touches_only (p : string) (op : fsop) : Prop :=
  match op with
  | Create q | Append q _ | SyncAll q => q = p
  | Rename _ _ | RemoveFile _ => False
  end.

Lemma save_body_touches mgr s fsync :
  Forall (touches_only (tmp_path mgr (key s))) (save_body mgr s fsync).
Proof.
  unfold save_body. repeat apply Forall_app_2.
  - by repeat constructor.
  - apply Forall_fmap. by apply Forall_true.
  - destruct fsync; by repeat constructor.
Qed.

Lemma touches_only_other p q ops fs :
  Forall (touches_only p) ops → q ≠ p → apply_ops ops fs !! q = fs !! q.
Proof.
  intros Hall Hq. revert fs. induction Hall as [|op ops Hop _ IH]; intros fs; [done|].
  unfold apply_ops in *. cbn [fold_left]. rewrite IH. destruct op; simpl in *; subst; try done.
  - by rewrite lookup_insert_ne.
  - by rewrite lookup_alter_ne.
Qed.

Lemma fail_op_other p q op n fs : touches_only p op → q ≠ p → fail_op op n fs !! q = fs !! q.
Proof. intros Hop Hq. destruct op; simpl in *; subst; try done. by rewrite lookup_alter_ne. Qed.

Lemma save_body_tmp mgr s fsync fs :
  apply_ops (save_body mgr s fsync) fs !! tmp_path mgr (key s) = Some (file_contents s).
Proof.
  unfold save_body. rewrite !apply_ops_app.
  rewrite (apply_appends _ _ _ "") by (simpl; by rewrite lookup_insert_eq).
  destruct fsync; simpl; by rewrite lookup_insert_eq.
Qed.

(** The effect of a whole save. *)
Lemma save_ops_effect mgr s fsync fs :
  apply_ops (save_ops mgr s fsync) fs =
  <[session_path mgr (key s) := file_contents s]>
    (delete (tmp_path mgr (key s)) (apply_ops (save_body mgr s fsync) fs)).
Proof.
  rewrite save_ops_body, apply_ops_app. cbn [apply_ops fold_left apply_op].
  by rewrite save_body_tmp.
Qed.

Lemma save_ops_other mgr s fsync fs q :
  q ≠ session_path mgr (key s) → q ≠ tmp_path mgr (key s) →
  apply_ops (save_ops mgr s fsync) fs !! q = fs !! q.
Proof.
  intros Hp Ht. rewrite save_ops_effect, lookup_insert_ne, lookup_delete_ne by done.
  apply (touches_only_other (tmp_path mgr (key s))); [apply save_body_touches|done].
Qed.

(** A proper prefix of the operations only touches the temporary file. *)
Lemma save_prefix mgr s fsync n :
  take n (save_ops mgr s fsync) = save_ops mgr s fsync ∨
  Forall (touches_only (tmp_path mgr (key s))) (take n (save_ops mgr s fsync)).
Proof.
  destruct (decide (length (save_ops mgr s fsync) ≤ n)) as [Hle|Hgt].
  - left. by apply take_ge.
  - right. rewrite save_ops_body in *. rewrite length_app in Hgt. cbn [length] in Hgt.
    rewrite take_app_le by lia. apply Forall_take, save_body_touches.
Qed.

(** ** Lemmas on reading *)

Lemma read_lines_strict_values now vs st :
  (∀ v, v ∈ vs → trim (to_string v) = to_string v ∧ to_string v ≠ "" ∧
     from_str (to_string v) = Some v) →
  read_lines_strict now (to_string <$> vs) st = Some (fold_left (ingest now) vs st).
Proof.
  revert st. induction vs as [|v vs IH]; intros st H; [done|].
  cbn [fmap list_fmap read_lines_strict fold_left].
  destruct (H v) as (-> & Hne & ->); [left|]. apply is_empty_false in Hne. rewrite Hne.
  apply IH. intros w Hw. apply H. by right.
Qed.

Lemma ingest_messages now vs st :
  (∀ v, v ∈ vs → is_metadata_line v = false) →
  fold_left (ingest now) vs st =
  mkReader (rd_messages st ++ vs) (rd_metadata st) (rd_created st) (rd_updated st)
    (rd_consolidated st).
Proof.
  revert st. induction vs as [|v vs IH]; intros st H; cbn [fold_left].
  - rewrite app_nil_r. by destruct st.
  - rewrite IH by (intros w Hw; apply H; by right).
    unfold ingest. rewrite H by left. cbn. by rewrite <-app_assoc.
Qed.

(** The repairing reader agrees with the strict one on well-formed files. *)
Lemma read_lines_repair_strict now ls st st' skipped :
  read_lines_strict now ls st = Some st' →
  read_lines_repair now ls st skipped = (st', skipped).
Proof.
  revert st skipped. induction ls as [|l ls IH]; intros st skipped; cbn; [by intros [= ->]|].
  case_match; [apply IH|]. destruct (from_str (trim l)); [apply IH|done].
Qed.
End Store.

(** ** Interfaces of the third-party code *)

(** [DateTime::to_rfc3339] prints the instant with its offset at full precision
    and [DateTime::parse_from_rfc3339] reads it back. *)
Class Rfc3339 (to_rfc3339 : Z → string) (parse_from_rfc3339 : string → option Z) : Prop := {
  rfc3339_roundtrip : ∀ t, parse_from_rfc3339 (to_rfc3339 t) = Some t
}.

(** A [HashMap] iterates over its entries in an unspecified order. *)
Class HashOrder (hash_order : gmap string json → list (string * json)) : Prop := {
  hash_order_perm : ∀ m, hash_order m ≡ₚ map_to_list m
}.

(** Concrete instances: decimal-free binary timestamps and the order of [gmap]. *)
Definition binary_time (t : Z) : string := bits_print (encode t).
Definition binary_parse_time (s : string) : option Z := bits_parse s ≫= decode.

#[export] Instance binary_rfc3339 : Rfc3339 binary_time binary_parse_time.
Proof.
  split. intros t. unfold binary_time, binary_parse_time.
  rewrite bits_parse_print. simpl. apply decode_encode.
Qed.

#[export] Instance gmap_hash_order : HashOrder map_to_list.
Proof. by split. Qed.

(** The session values a file can represent: every line is a printable value, and
    no message poses as the metadata line. *)
Definition storable (to_rfc3339 : Z → string) (hash_order : gmap string json → list (string * json))
    (s : Session) : bool :=
  forallb json_ok (file_values to_rfc3339 hash_order s) &&
  forallb (λ m, negb (is_metadata_line m)) (messages s).

Section StoreFacts.
Context {from_str : string → option json} {to_string : json → string} `{!JsonCodec from_str to_string}.
Context {to_rfc3339 : Z → string} {parse_rfc3339 : string → option Z}
  `{!Rfc3339 to_rfc3339 parse_rfc3339}.
Context {hash_order : gmap string json → list (string * json)} `{!HashOrder hash_order}.
Context (nf ns : string → option (option Z)).

Lemma file_lines s :
  lines (file_contents to_string to_rfc3339 hash_order s) =
  to_string <$> file_values to_rfc3339 hash_order s.
Proof.
  unfold file_contents. apply lines_concat, Forall_fmap, Forall_true.
  intros v. apply codec_one_line.
Qed.

Lemma list_to_map_hash_order m : list_to_map (hash_order m) = m.
Proof.
  rewrite <-(list_to_map_to_list m) at 2. apply list_to_map_proper.
  - rewrite hash_order_perm. apply NoDup_fst_map_to_list.
  - apply hash_order_perm.
Qed.

Lemma in_u64_json n : json_valid (JInt (Z.of_nat n)) = true → in_u64 (Z.of_nat n) = true.
Proof.
  cbn [json_valid]. unfold in_i64, in_u64, i64_min, i64_max, u64_max.
  intros [H|H]%orb_true_iff; [|done].
  bool_to_prop. apply andb_true_iff. split; apply Z.leb_le; lia.
Qed.

Lemma storable_values s :
  storable to_rfc3339 hash_order s = true →
  (∀ v, v ∈ file_values to_rfc3339 hash_order s → json_ok v = true) ∧
  (∀ v, v ∈ messages s → is_metadata_line v = false) ∧
  in_u64 (Z.of_nat (last_consolidated s)) = true.
Proof.
  unfold storable. intros H. bool_to_prop.
  match goal with H : forallb json_ok _ = true |- _ => rename H into Hok end.
  rewrite !forallb_forall in *. split_and!.
  - intros v Hv. apply Hok. by apply list_elem_of_In.
  - intros v Hv. apply negb_true_iff.
    match goal with H : ∀ x, In x (messages s) → _ |- _ => apply H end. by apply list_elem_of_In.
  - specialize (Hok (metadata_line to_rfc3339 hash_order s) (or_introl eq_refl)).
    unfold metadata_line in Hok. apply in_u64_json.
    eapply (json_ok_field _ "last_consolidated"); [exact Hok|].
    do 5 right. left.
Qed.

Lemma ingest_metadata_line now s :
  in_u64 (Z.of_nat (last_consolidated s)) = true →
  ingest parse_rfc3339 nf ns now reader_init (metadata_line to_rfc3339 hash_order s) =
  mkReader [] (metadata s) (Some (created_at s)) (Some (updated_at s)) (last_consolidated s).
Proof.
  intros Hu. unfold ingest, metadata_line. simpl. rewrite list_to_map_hash_order.
  unfold get_str. simpl. unfold parse_isoformat. rewrite !rfc3339_roundtrip. rewrite Hu. simpl.
  by rewrite Nat2Z.id.
Qed.

(** Reading a saved file gives the session back. *)
Lemma read_strict_file now s :
  storable to_rfc3339 hash_order s = true →
  read_strict from_str parse_rfc3339 nf ns now (key s)
    (file_contents to_string to_rfc3339 hash_order s) = Some s.
Proof.
  intros (Hok & Hmeta & Hu)%storable_values. unfold read_strict. rewrite file_lines.
  rewrite read_lines_strict_values.
  - unfold file_values. cbn [fold_left]. rewrite ingest_metadata_line by done.
    rewrite ingest_messages by done. simpl. by destruct s.
  - intros v Hv. destruct (codec_trimmed v). split_and!; [done..|].
    apply codec_roundtrip. by apply Hok.
Qed.
End StoreFacts.

(** ** Properties *)

Section StoreProperties.
Context (from_str : string → option json) (to_string : json → string).
Context (to_rfc3339 : Z → string) (parse_rfc3339 : string → option Z).
Context (hash_order : gmap string json → list (string * json)).
Context (nf ns : string → option (option Z)).

(** C10: a session saved to disk is read back unchanged: [save] followed by
    [load], by [get_or_create] on the same manager, or by [get_or_create] on a
    fresh manager over the same directories all give the saved session, for every
    storable session and whatever the file held before. *)
Theorem save_load_roundtrip (mgr : SessionManager) (fs : fsys) (s : Session)
    (fsync rename_ok : bool) (now : Z) :
  JsonCodec from_str to_string → Rfc3339 to_rfc3339 parse_rfc3339 → HashOrder hash_order →
  storable to_rfc3339 hash_order s = true →
  let '(mgr', fs', ok) := save to_string to_rfc3339 hash_order mgr fs s fsync None in
  let get m := (get_or_create from_str parse_rfc3339 nf ns now m fs' (key s) rename_ok).2 in
  ok = true ∧
  load from_str parse_rfc3339 nf ns now mgr' fs' (key s) rename_ok = (fs', Some s) ∧
  get mgr' = s ∧ get (with_cache mgr ∅) = s.
Proof.
  intros Hc Hr Hh Hs. unfold save. cbn [mbind option_bind].
  set (fs' := apply_ops _ fs).
  assert (Hload : ∀ m, sessions_dir m = sessions_dir mgr →
    load from_str parse_rfc3339 nf ns now m fs' (key s) rename_ok = (fs', Some s)).
  { intros m Hm. unfold load.
    assert (fs' !! session_path m (key s) = Some (file_contents to_string to_rfc3339 hash_order s))
      as Hp.
    { replace (session_path m (key s)) with (session_path mgr (key s))
        by (unfold session_path; by rewrite Hm).
      subst fs'. rewrite save_ops_effect. by rewrite lookup_insert_eq. }
    rewrite !Hp. by rewrite read_strict_file. }
  split_and!; [done|by apply Hload| |]; unfold get_or_create; simpl.
  - by rewrite lookup_insert_eq.
  - rewrite lookup_empty. by rewrite Hload.
Qed.

(** a crash after any number of the operations of [save] leaves the session
    file either as it was or complete with the new contents, and touches no file
    other than it and its temporary file. *)
Theorem save_crash_atomic (mgr : SessionManager) (fs : fsys) (s : Session) (fsync : bool) (n : nat) :
  let path := session_path mgr (key s) in
  let fs' := apply_ops (take n (save_ops to_string to_rfc3339 hash_order mgr s fsync)) fs in
  (fs' !! path = fs !! path ∨
   fs' !! path = Some (file_contents to_string to_rfc3339 hash_order s)) ∧
  (∀ q, q ≠ path → q ≠ tmp_path mgr (key s) → fs' !! q = fs !! q).
Proof.
  cbn zeta. destruct (save_prefix to_string to_rfc3339 hash_order mgr s fsync n) as [-> | Hall].
  - split; [|intros q; apply save_ops_other]. right. rewrite save_ops_effect.
    by rewrite lookup_insert_eq.
  - split; [left|intros q _]; [|by apply touches_only_other].
    apply (touches_only_other (tmp_path mgr (key s))); [done|]. apply not_eq_sym, tmp_path_ne.
Qed.

(** a save that reports an error has left the session file, every other
    session's file and the cache as they were, whichever operation failed and
    however many bytes it had written. *)
Theorem save_error_no_effect (mgr mgr' : SessionManager) (fs fs' : fsys) (s : Session)
    (fsync : bool) (fault : option (nat * nat)) :
  save to_string to_rfc3339 hash_order mgr fs s fsync fault = (mgr', fs', false) →
  mgr' = mgr ∧ (∀ q, q ≠ tmp_path mgr (key s) → fs' !! q = fs !! q).
Proof.
  unfold save. destruct fault as [[i n]|]; simpl; [|done].
  set (ops := save_ops _ _ _ mgr s fsync).
  destruct (ops !! i) as [op|] eqn:Hop; simpl; [|done].
  assert (Hpre : Forall (touches_only (tmp_path mgr (key s))) (take i ops)).
  { destruct (save_prefix to_string to_rfc3339 hash_order mgr s fsync i) as [Heq|]; [|done].
    apply lookup_lt_Some in Hop. apply (f_equal length) in Heq. rewrite length_take in Heq.
    fold ops in Heq. lia. }
  assert (Hcase : touches_only (tmp_path mgr (key s)) op ∨
    op = Rename (tmp_path mgr (key s)) (session_path mgr (key s))).
  { subst ops. rewrite save_ops_body in Hop. apply lookup_app_Some in Hop as [Hop|[_ Hop]].
    - left. eapply Forall_lookup_1; [apply save_body_touches|done].
    - right. by apply list_elem_of_lookup_2, list_elem_of_singleton in Hop. }
  destruct Hcase as [Ht | ->].
  - intros Heq. assert (mgr' = mgr ∧ fs' = fail_op op n (apply_ops (take i ops) fs)) as [-> ->]
      by (destruct op; by simplify_eq/=).
    split; [done|]. intros q Hq. rewrite (fail_op_other (tmp_path mgr (key s))) by done.
    by apply (touches_only_other (tmp_path mgr (key s))).
  - intros [= <- <-]. split; [done|]. intros q Hq. simpl. rewrite lookup_delete_ne by done.
    by apply (touches_only_other (tmp_path mgr (key s))).
Qed.
End StoreProperties.

(** ** Repair *)

Section Repair.
Context (from_str : string → option json) (parse_rfc3339 : string → option Z).
Context (nf ns : string → option (option Z)).

(** A line that carries a value. *)
Definition parse_line (l : string) : option json :=
  let l := trim l in if is_empty l then None else from_str l.

Lemma read_lines_repair_spec now ls st skipped :
  (read_lines_repair from_str parse_rfc3339 nf ns now ls st skipped).1 =
  fold_left (ingest parse_rfc3339 nf ns now) (filter_map parse_line ls) st.
Proof.
  revert st skipped. induction ls as [|l ls IH]; intros st skipped; [done|].
  cbn [read_lines_repair filter_map]. unfold parse_line at 1. cbn zeta.
  destruct (is_empty (trim l)); [apply IH|]. destruct (from_str (trim l)); apply IH.
Qed.

(** The session holding everything readable in a file. *)
Definition recovered_session (now : Z) (k contents : string) : Session :=
  reader_session now k
    (fold_left (ingest parse_rfc3339 nf ns now) (filter_map parse_line (lines contents)) reader_init).

(** a corrupt line never costs the rest of a session: loading an existing
    file yields exactly the values of its parseable lines, in order, and fails
    only when the file is corrupt and holds neither a message nor metadata. *)
Theorem load_recovers (mgr : SessionManager) (fs : fsys) (k contents : string) (now : Z)
    (rename_ok : bool) :
  fs !! session_path mgr k = Some contents →
  let r := recovered_session now k contents in
  load from_str parse_rfc3339 nf ns now mgr fs k rename_ok = (fs, Some r) ∨
  load from_str parse_rfc3339 nf ns now mgr fs k rename_ok = (fs, None) ∧
    messages r = [] ∧ metadata r = ∅.
Proof.
  intros Hp r. unfold load. rewrite !Hp. unfold read_strict.
  destruct (read_lines_strict _ _ _ _ _ _ _) as [st|] eqn:Hs; simpl.
  - left. subst r. unfold recovered_session.
    rewrite <-(read_lines_repair_spec now _ _ 0).
    by rewrite (read_lines_repair_strict _ _ _ _ _ _ _ st 0 Hs).
  - unfold repair. rewrite Hp. subst r. unfold recovered_session.
    rewrite <-(read_lines_repair_spec now _ _ 0).
    destruct (read_lines_repair _ _ _ _ _ _ _ _) as [st n]. simpl.
    destruct (rd_messages st) eqn:Hm; [|by left].
    case_bool_decide; [right|left]; done.
Qed.

(** [delete_session] that reports success removes the session for good: the
    file and the cache entry are gone and the next [get_or_create] starts an empty
    session, provided no file of the legacy directory is left to migrate. *)
Theorem delete_session_gone (mgr mgr' : SessionManager) (fs fs' : fsys) (k : string)
    (remove_ok rename_ok : bool) (now : Z) :
  delete_session mgr fs k remove_ok = (mgr', fs', true) →
  fs !! legacy_session_path mgr k = None →
  get_or_create from_str parse_rfc3339 nf ns now mgr' fs' k rename_ok =
    (with_cache mgr' (<[k := Session_new k now]> (cache mgr')), fs', Session_new k now).
Proof.
  unfold delete_session. destruct (fs !! session_path mgr k) eqn:Hp; [|done].
  destruct remove_ok; [|done]. intros [= <- <-] Hleg.
  unfold get_or_create. simpl. rewrite lookup_delete_eq.
  unfold load, migrate_legacy.
  change (session_path (invalidate mgr k) k) with (session_path mgr k).
  change (legacy_session_path (invalidate mgr k) k) with (legacy_session_path mgr k).
  rewrite lookup_delete_eq.
  assert (delete (session_path mgr k) fs !! legacy_session_path mgr k = None) as ->
    by (rewrite lookup_delete; by case_decide).
  by rewrite lookup_delete_eq.
Qed.
End Repair.

(** ** Witnesses *)

Definition demo_manager : SessionManager := mkManager "ws" "ws/sessions" "old/sessions" ∅.
Definition no_naive (_ : string) : option (option Z) := None.

Example save_load_roundtrip_witness :
  storable binary_time map_to_list demo_session = true ∧
  let '(mgr', fs', ok) :=
    save binary_to_string binary_time map_to_list demo_manager ∅ demo_session true None in
  let get m := (get_or_create binary_from_str binary_parse_time no_naive no_naive 9 m fs'
                  (key demo_session) true).2 in
  ok = true ∧
  load binary_from_str binary_parse_time no_naive no_naive 9 mgr' fs' (key demo_session) true
    = (fs', Some demo_session) ∧
  get mgr' = demo_session ∧ get (with_cache demo_manager ∅) = demo_session.
Proof.
  split; [by vm_compute|].
  apply (save_load_roundtrip binary_from_str binary_to_string binary_time binary_parse_time
    map_to_list no_naive no_naive demo_manager ∅ demo_session true true 9).
  - apply binary_codec.
  - apply binary_rfc3339.
  - apply gmap_hash_order.
  - by vm_compute.
Defined.

Example save_error_no_effect_witness :
  let fs : fsys := {[ "ws/sessions/cli_1.jsonl" := "old" ]} in
  ∃ mgr' fs', save (λ _, "{}") (λ _, "t") map_to_list demo_manager fs demo_session false
      (Some (2, 1)) = (mgr', fs', false) ∧
    fs' !! "ws/sessions/cli_1.jsonl.tmp" = Some ("{}" +:+ newline +:+ "{") ∧
    mgr' = demo_manager ∧ (∀ q, q ≠ tmp_path demo_manager (key demo_session) → fs' !! q = fs !! q).
Proof.
  intros fs. eexists _, _. split; [reflexivity|]. split; [by vm_compute|].
  apply (save_error_no_effect (λ _, "{}") (λ _, "t") map_to_list demo_manager _ fs _
    demo_session false (Some (2, 1))). reflexivity.
Defined.

Definition demo_file : string := "1" +:+ newline +:+ "garbage" +:+ newline +:+ "2".

Definition demo_parse (s : string) : option json :=
  if String.eqb s "1" then Some (demo_msg "user" "a")
  else if String.eqb s "2" then Some (demo_msg "assistant" "b") else None.

Example load_recovers_witness :
  let fs : fsys := {[ "ws/sessions/cli_1.jsonl" := demo_file ]} in
  let r := recovered_session demo_parse (λ _, None) no_naive no_naive 9 "cli:1" demo_file in
  messages r = [demo_msg "user" "a"; demo_msg "assistant" "b"] ∧
  (load demo_parse (λ _, None) no_naive no_naive 9 demo_manager fs "cli:1" true = (fs, Some r) ∨
   load demo_parse (λ _, None) no_naive no_naive 9 demo_manager fs "cli:1" true = (fs, None) ∧
     messages r = [] ∧ metadata r = ∅).
Proof.
  split; [by vm_compute|].
  apply (load_recovers demo_parse (λ _, None) no_naive no_naive demo_manager _ "cli:1" demo_file 9 true).
  by vm_compute.
Defined.

Example delete_session_gone_witness :
  let fs : fsys := {[ "ws/sessions/cli_1.jsonl" := demo_file ]} in
  ∃ mgr' fs', delete_session demo_manager fs "cli:1" true = (mgr', fs', true) ∧
    get_or_create demo_parse (λ _, None) no_naive no_naive 9 mgr' fs' "cli:1" true =
      (with_cache mgr' (<["cli:1" := Session_new "cli:1" 9]> (cache mgr')), fs',
       Session_new "cli:1" 9).
Proof.
  intros fs. eexists _, _. split; [reflexivity|].
  apply (delete_session_gone demo_parse (λ _, None) no_naive no_naive demo_manager _ fs _ "cli:1"
    true true 9); [reflexivity|by vm_compute].
Defined.
