(* ===== verification/CronTypes.v ===== *)
(** * Cron data types and their JSON form

    The types of [crates/cron/src/types.rs] with the (de)serialisation their
    [serde] attributes derive: field names, defaults for missing fields, [null]
    for absent options, snake-case enum variants. *)

From S2P Require Import Prelude RustStr Json.

Local Open Scope stdpp_scope.

Inductive ScheduleKind := At | Every | Cron.
Inductive PayloadKind := SystemEvent | AgentTurn.
Inductive RunStatus := StatusOk | StatusError | StatusSkipped.

#[export] Instance ScheduleKind_eq_dec : EqDecision ScheduleKind.
Proof. solve_decision. Defined.
#[export] Instance PayloadKind_eq_dec : EqDecision PayloadKind.
Proof. solve_decision. Defined.
#[export] Instance RunStatus_eq_dec : EqDecision RunStatus.
Proof. solve_decision. Defined.

Record CronSchedule := mkSchedule {
  sch_kind : ScheduleKind;
  at_ms : option Z;
  every_ms : option Z;
  sch_expr : option string;
  sch_tz : option string
}.

Record CronPayload := mkPayload {
  pl_kind : PayloadKind;
  pl_message : string;
  pl_deliver : bool;
  pl_channel : option string;
  pl_to : option string;
  pl_channel_meta : option json;
  pl_session_key : option string
}.

Record CronRunRecord := mkRunRecord {
  rec_run_at_ms : Z;
  rec_status : RunStatus;
  rec_duration_ms : Z;
  rec_error : option string
}.

Record CronJobState := mkJobState {
  next_run_at_ms : option Z;
  last_run_at_ms : option Z;
  last_status : option RunStatus;
  last_error : option string;
  run_history : list CronRunRecord
}.

Record CronJob := mkJob {
  job_id : string;
  job_name : string;
  enabled : bool;
  schedule : CronSchedule;
  payload : CronPayload;
  job_state : CronJobState;
  created_at_ms : Z;
  updated_at_ms : Z;
  delete_after_run : bool
}.

Record CronStore := mkStore {
  version : Z;
  jobs : list CronJob
}.

Definition default_schedule : CronSchedule := mkSchedule Every None None None None.
Definition default_payload : CronPayload := mkPayload AgentTurn "" false None None None None.
Definition default_state : CronJobState := mkJobState None None None None [].

#[export] Instance CronSchedule_eq_dec : EqDecision CronSchedule.
Proof. solve_decision. Defined.
#[export] Instance CronPayload_eq_dec : EqDecision CronPayload.
Proof. solve_decision. Defined.
#[export] Instance CronRunRecord_eq_dec : EqDecision CronRunRecord.
Proof. solve_decision. Defined.
#[export] Instance CronJobState_eq_dec : EqDecision CronJobState.
Proof. solve_decision. Defined.
#[export] Instance CronJob_eq_dec : EqDecision CronJob.
Proof. solve_decision. Defined.

(** ** Serialisation *)

Definition opt_to_json {A} (f : A → json) (o : option A) : json :=
  match o with Some a => f a | None => JNull end.

Definition kind_to_json (k : ScheduleKind) : json :=
  JStr (match k with At => "at" | Every => "every" | Cron => "cron" end).

Definition payload_kind_to_json (k : PayloadKind) : json :=
  JStr (match k with SystemEvent => "system_event" | AgentTurn => "agent_turn" end).

Definition status_to_json (s : RunStatus) : json :=
  JStr (match s with StatusOk => "ok" | StatusError => "error" | StatusSkipped => "skipped" end).

Definition schedule_to_json (s : CronSchedule) : json :=
  JObj [("kind", kind_to_json (sch_kind s));
        ("atMs", opt_to_json JInt (at_ms s));
        ("everyMs", opt_to_json JInt (every_ms s));
        ("expr", opt_to_json JStr (sch_expr s));
        ("tz", opt_to_json JStr (sch_tz s))].

Definition payload_to_json (p : CronPayload) : json :=
  JObj [("kind", payload_kind_to_json (pl_kind p));
        ("message", JStr (pl_message p));
        ("deliver", JBool (pl_deliver p));
        ("channel", opt_to_json JStr (pl_channel p));
        ("to", opt_to_json JStr (pl_to p));
        ("channelMeta", opt_to_json id (pl_channel_meta p));
        ("sessionKey", opt_to_json JStr (pl_session_key p))].

Definition record_to_json (r : CronRunRecord) : json :=
  JObj [("runAtMs", JInt (rec_run_at_ms r));
        ("status", status_to_json (rec_status r));
        ("durationMs", JInt (rec_duration_ms r));
        ("error", opt_to_json JStr (rec_error r))].

Definition state_to_json (s : CronJobState) : json :=
  JObj [("nextRunAtMs", opt_to_json JInt (next_run_at_ms s));
        ("lastRunAtMs", opt_to_json JInt (last_run_at_ms s));
        ("lastStatus", opt_to_json status_to_json (last_status s));
        ("lastError", opt_to_json JStr (last_error s));
        ("runHistory", JArr (record_to_json <$> run_history s))].

Definition job_to_json (j : CronJob) : json :=
  JObj [("id", JStr (job_id j));
        ("name", JStr (job_name j));
        ("enabled", JBool (enabled j));
        ("schedule", schedule_to_json (schedule j));
        ("payload", payload_to_json (payload j));
        ("state", state_to_json (job_state j));
        ("createdAtMs", JInt (created_at_ms j));
        ("updatedAtMs", JInt (updated_at_ms j));
        ("deleteAfterRun", JBool (delete_after_run j))].

Definition store_to_json (s : CronStore) : json :=
  JObj [("version", JInt (version s)); ("jobs", JArr (job_to_json <$> jobs s))].

(** ** Deserialisation *)

(** A required field, a field with a default, and an optional field. *)
Definition req_field {A} (f : json → option A) (k : string) (m : list (string * json)) : option A :=
  map_get k m ≫= f.

Definition def_field {A} (f : json → option A) (d : A) (k : string) (m : list (string * json))
    : option A :=
  match map_get k m with Some v => f v | None => Some d end.

Definition opt_field {A} (f : json → option A) (k : string) (m : list (string * json))
    : option (option A) :=
  match map_get k m with
  | Some v => if is_null v then Some None else Some <$> f v
  | None => Some None
  end.

(** The variant name of a unit variant: a string, or an object [{name: null}]. *)
Definition variant_name (v : json) : option string :=
  match v with
  | JStr s => Some s
  | JObj [(s, JNull)] => Some s
  | _ => None
  end.

Definition kind_of_json (v : json) : option ScheduleKind :=
  variant_name v ≫= λ s,
    if String.eqb s "at" then Some At
    else if String.eqb s "every" then Some Every
    else if String.eqb s "cron" then Some Cron else None.

Definition payload_kind_of_json (v : json) : option PayloadKind :=
  variant_name v ≫= λ s,
    if String.eqb s "system_event" then Some SystemEvent
    else if String.eqb s "agent_turn" then Some AgentTurn else None.

Definition status_of_json (v : json) : option RunStatus :=
  variant_name v ≫= λ s,
    if String.eqb s "ok" then Some StatusOk
    else if String.eqb s "error" then Some StatusError
    else if String.eqb s "skipped" then Some StatusSkipped else None.

Definition schedule_of_json (v : json) : option CronSchedule :=
  m ← struct_fields ["kind"; "atMs"; "everyMs"; "expr"; "tz"] v;
  kind ← req_field kind_of_json "kind" m;
  at_ ← opt_field as_i64 "atMs" m;
  every ← opt_field as_i64 "everyMs" m;
  expr ← opt_field as_str "expr" m;
  tz ← opt_field as_str "tz" m;
  Some (mkSchedule kind at_ every expr tz).

Definition payload_of_json (v : json) : option CronPayload :=
  m ← struct_fields ["kind"; "message"; "deliver"; "channel"; "to"; "channelMeta"; "sessionKey"] v;
  kind ← def_field payload_kind_of_json AgentTurn "kind" m;
  message ← def_field as_str "" "message" m;
  deliver ← def_field as_bool false "deliver" m;
  channel ← opt_field as_str "channel" m;
  to ← opt_field as_str "to" m;
  channel_meta ← opt_field Some "channelMeta" m;
  session_key ← opt_field as_str "sessionKey" m;
  Some (mkPayload kind message deliver channel to channel_meta session_key).

Definition record_of_json (v : json) : option CronRunRecord :=
  m ← struct_fields ["runAtMs"; "status"; "durationMs"; "error"] v;
  run_at ← req_field as_i64 "runAtMs" m;
  status ← req_field status_of_json "status" m;
  duration ← def_field as_i64 0%Z "durationMs" m;
  error ← opt_field as_str "error" m;
  Some (mkRunRecord run_at status duration error).

(** [Vec<T>]: every element must deserialise. *)
Definition list_of_json {A} (f : json → option A) (v : json) : option (list A) :=
  as_array v ≫= mapM f.

Definition state_of_json (v : json) : option CronJobState :=
  m ← struct_fields ["nextRunAtMs"; "lastRunAtMs"; "lastStatus"; "lastError"; "runHistory"] v;
  next ← opt_field as_i64 "nextRunAtMs" m;
  last ← opt_field as_i64 "lastRunAtMs" m;
  status ← opt_field status_of_json "lastStatus" m;
  error ← opt_field as_str "lastError" m;
  history ← def_field (list_of_json record_of_json) [] "runHistory" m;
  Some (mkJobState next last status error history).

Definition job_of_json (v : json) : option CronJob :=
  m ← struct_fields ["id"; "name"; "enabled"; "schedule"; "payload";
       "state"; "createdAtMs"; "updatedAtMs"; "deleteAfterRun"] v;
  id ← req_field as_str "id" m;
  name ← req_field as_str "name" m;
  en ← def_field as_bool true "enabled" m;
  sch ← def_field schedule_of_json default_schedule "schedule" m;
  pl ← def_field payload_of_json default_payload "payload" m;
  st ← def_field state_of_json default_state "state" m;
  created ← def_field as_i64 0%Z "createdAtMs" m;
  updated ← def_field as_i64 0%Z "updatedAtMs" m;
  del ← def_field as_bool false "deleteAfterRun" m;
  Some (mkJob id name en sch pl st created updated del).

(** ** Round trip *)

(** Every [i64] field is in range (always true of the Rust values), and the only
    free JSON, the channel metadata, is not [Some(Null)], which prints like
    [None]. *)
Definition opt_in_i64 (o : option Z) : bool := match o with Some z => in_i64 z | None => true end.

Definition wf_record (r : CronRunRecord) : bool :=
  in_i64 (rec_run_at_ms r) && in_i64 (rec_duration_ms r).

Definition wf_job (j : CronJob) : bool :=
  opt_in_i64 (at_ms (schedule j)) && opt_in_i64 (every_ms (schedule j)) &&
  (match pl_channel_meta (payload j) with Some v => negb (is_null v) | None => true end) &&
  opt_in_i64 (next_run_at_ms (job_state j)) && opt_in_i64 (last_run_at_ms (job_state j)) &&
  forallb wf_record (run_history (job_state j)) &&
  in_i64 (created_at_ms j) && in_i64 (updated_at_ms j).

Lemma kind_roundtrip k : kind_of_json (kind_to_json k) = Some k.
Proof. by destruct k. Qed.
Lemma payload_kind_roundtrip k : payload_kind_of_json (payload_kind_to_json k) = Some k.
Proof. by destruct k. Qed.
Lemma status_roundtrip s : status_of_json (status_to_json s) = Some s.
Proof. by destruct s. Qed.

Lemma schedule_roundtrip s :
  opt_in_i64 (at_ms s) = true → opt_in_i64 (every_ms s) = true →
  schedule_of_json (schedule_to_json s) = Some s.
Proof.
  destruct s as [k a e x t]. simpl. intros Ha He.
  unfold schedule_of_json, schedule_to_json, req_field, opt_field. simpl.
  rewrite kind_roundtrip. simpl.
  destruct a, e, x, t; simpl in *; rewrite ?Ha; simpl; by rewrite ?He.
Qed.

Lemma payload_roundtrip p :
  (match pl_channel_meta p with Some v => negb (is_null v) | None => true end) = true →
  payload_of_json (payload_to_json p) = Some p.
Proof.
  destruct p as [k m d c t cm sk]. simpl. intros Hcm.
  unfold payload_of_json, payload_to_json, def_field, opt_field. simpl.
  rewrite payload_kind_roundtrip. simpl.
  destruct c, t; simpl; (destruct cm as [v|]; simpl; [destruct v; simpl in *; try done|]);
    by destruct sk.
Qed.

Lemma record_roundtrip r : wf_record r = true → record_of_json (record_to_json r) = Some r.
Proof.
  destruct r as [t st d e]. unfold wf_record. simpl. intros [Ht Hd]%andb_true_iff.
  unfold record_of_json, record_to_json, def_field, opt_field, req_field. simpl.
  rewrite Ht. simpl. rewrite status_roundtrip. simpl. rewrite Hd. simpl. by destruct e.
Qed.

Lemma list_roundtrip {A} (f : json → option A) (g : A → json) (wf : A → bool) l :
  (∀ x, wf x = true → f (g x) = Some x) → forallb wf l = true →
  list_of_json f (JArr (g <$> l)) = Some l.
Proof.
  intros Hf Hall. unfold list_of_json. simpl. apply mapM_Some, Forall2_fmap_l, Forall_Forall2_diag.
  apply Forall_forall. intros x Hx. apply Hf. rewrite forallb_forall in Hall.
  by apply Hall, list_elem_of_In.
Qed.

Lemma state_roundtrip s :
  opt_in_i64 (next_run_at_ms s) = true → opt_in_i64 (last_run_at_ms s) = true →
  forallb wf_record (run_history s) = true →
  state_of_json (state_to_json s) = Some s.
Proof.
  destruct s as [n l st e h]. simpl. intros Hn Hl Hh.
  pose proof (list_roundtrip _ _ _ _ record_roundtrip Hh) as Hlist.
  unfold state_of_json, state_to_json, def_field, opt_field. cbn -[list_of_json].
  destruct n; cbn -[list_of_json] in *; rewrite ?Hn; cbn -[list_of_json];
    (destruct l; cbn -[list_of_json] in *; rewrite ?Hl; cbn -[list_of_json]);
    (destruct st as [st|]; cbn -[list_of_json status_of_json];
       [rewrite status_roundtrip; destruct st|]);
    (destruct e; cbn -[list_of_json]; by rewrite Hlist).
Qed.

Lemma job_roundtrip j : wf_job j = true → job_of_json (job_to_json j) = Some j.
Proof.
  unfold wf_job. intros H. bool_to_prop.
  pose proof (schedule_roundtrip (schedule j)) as Hs.
  pose proof (payload_roundtrip (payload j)) as Hp.
  pose proof (state_roundtrip (job_state j)) as Ht.
  unfold job_of_json, job_to_json, def_field, req_field.
  cbn -[schedule_of_json schedule_to_json payload_of_json payload_to_json state_of_json
    state_to_json as_i64].
  rewrite Hs, Hp, Ht by done. cbn.
  repeat match goal with H : in_i64 _ = true |- _ => rewrite H; cbn end.
  by destruct j.
Qed.
