(* ===== verification/CronService.v ===== *)
(** * The cron service

    [crates/cron/src/service.rs]: schedules and their next run, job execution, the
    persistent store with the action log other processes append to, the public
    operations under the service lock, and the timer task.  Files are the JSON
    values their text denotes; clock readings are arguments of the operations. *)

From S2P Require Import Prelude RustStr Json CronTypes.

Local Open Scope stdpp_scope.
Local Open Scope hive_scope.

Definition MAX_RUN_HISTORY : nat := 20.

(** ** Third-party code

    The expression parser and iterator of the [cron] crate, the time-zone parser of
    [chrono-tz], the instant constructor of [chrono] (instants in nanoseconds) and
    the iteration order of a [HashMap]'s values. *)
Record CronEnv := {
  CronExpr : Type;
  Tz : Type;
  cron_parse : string → option CronExpr;
  tz_parse : string → option Tz;
  cron_after : CronExpr → option Tz → Z → option Z;
  timestamp_opt : Z → Z → option Z;
  hash_values : gmap string CronJob → list CronJob
}.

(** What their documentation promises: an upcoming occurrence is a whole second
    strictly after the given instant, [timestamp_opt] builds the instant asked for,
    and iteration visits every value once. *)
Class CronEnvLaws (E : CronEnv) : Prop := {
  after_strict : ∀ e tz b n, cron_after E e tz b = Some n → (b < n)%Z;
  after_seconds : ∀ e tz b n, cron_after E e tz b = Some n → (n mod 1000000000 = 0)%Z;
  timestamp_value : ∀ s n b, timestamp_opt E s n = Some b → (b = s * 1000000000 + n)%Z;
  hash_values_perm : ∀ m, hash_values E m ≡ₚ (map_to_list m).*2
}.

Section Cron.
Variable E : CronEnv.

(** ** Schedules *)

Inductive CronError :=
| TzOnNonCron
| UnknownTimezone (tz : string)
| BadCronExpr (expr : string).

Definition validate_schedule_for_add (s : CronSchedule) : result unit CronError :=
  if (match sch_tz s with Some _ => true | None => false end)
     && negb (bool_decide (sch_kind s = Cron)) then Err TzOnNonCron
  else if negb (bool_decide (sch_kind s = Cron)) then Ok tt
  else
    match (match sch_tz s with
           | Some tz => match tz_parse E tz with Some _ => None | None => Some tz end
           | None => None
           end) with
    | Some tz => Err (UnknownTimezone tz)
    | None =>
        match (match sch_expr s with
               | Some expr => match cron_parse E expr with Some _ => None | None => Some expr end
               | None => None
               end) with
        | Some expr => Err (BadCronExpr expr)
        | None => Ok tt
        end
    end.

Definition normalize_cron_expr (expr : string) : string :=
  let fields := length (split_whitespace expr) in
  if fields =? 5 then "0 " +:+ expr +:+ " *"
  else if fields =? 6 then expr +:+ " *"
  else expr.

(** [i64] division and remainder truncate; [as u32] wraps. *)
Definition compute_next_run (s : CronSchedule) (now_ms : Z) : option Z :=
  match sch_kind s with
  | At => at_ms s ≫= λ t, if (now_ms <? t)%Z then Some t else None
  | Every =>
      every ← every_ms s;
      if (every <=? 0)%Z then None else Some (wrap_i64 (now_ms + every))
  | Cron =>
      expr ← sch_expr s;
      parsed ← cron_parse E (normalize_cron_expr expr);
      let secs := Z.quot now_ms 1000 in
      let nanos := wrap_u32 (Z.rem now_ms 1000 * 1000000) in
      base ← timestamp_opt E secs nanos;
      next ← cron_after E parsed (sch_tz s ≫= tz_parse E) base;
      Some (next / 1000000)%Z
  end.

(** ** Executing a job *)

Definition handler_t : Type := CronJob → result (option string) string.

Definition set_state (j : CronJob) (st : CronJobState) : CronJob :=
  mkJob (job_id j) (job_name j) (enabled j) (schedule j) (payload j) st
    (created_at_ms j) (updated_at_ms j) (delete_after_run j).

Definition set_next (st : CronJobState) (next : option Z) : CronJobState :=
  mkJobState next (last_run_at_ms st) (last_status st) (last_error st) (run_history st).

(** [drain(..drop_n)] once the history is over its cap. *)
Definition push_history (h : list CronRunRecord) (r : CronRunRecord) : list CronRunRecord :=
  let h := h ++ [r] in
  if MAX_RUN_HISTORY <? length h then drop (length h - MAX_RUN_HISTORY) h else h.

(** The three clock readings are before the handler, after it, and when the next
    run is computed. *)
Definition execute_job (handler : option handler_t) (start_ms end_ms later_ms : Z) (j : CronJob)
    : CronJob :=
  let '(status, error) :=
    match handler with
    | Some h => match h j with
                | Ok _ => (StatusOk, None)
                | Err e => (StatusError, Some e)
                end
    | None => (StatusOk, None)
    end in
  let st := job_state j in
  let history :=
    push_history (run_history st)
      (mkRunRecord start_ms status (wrap_i64 (end_ms - start_ms)) error) in
  let st := mkJobState (next_run_at_ms st) (Some start_ms) (Some status) error history in
  let j := mkJob (job_id j) (job_name j) (enabled j) (schedule j) (payload j) st
             (created_at_ms j) end_ms (delete_after_run j) in
  if bool_decide (sch_kind (schedule j) = At) then
    if delete_after_run j then j
    else mkJob (job_id j) (job_name j) false (schedule j) (payload j) (set_next st None)
           (created_at_ms j) (updated_at_ms j) (delete_after_run j)
  else set_state j (set_next st (compute_next_run (schedule j) later_ms)).

(** ** Service state *)

(** The timer task: sleeping until the next wake-up, or inside [on_timer] with the
    due jobs still to write back (the first one is being executed).  Storing a new
    task aborts the old one wherever it is. *)
Inductive Timer :=
| NoTimer
| Sleeping (delay_ms : Z)
| Ticking (remaining : list CronJob).

Inductive StoreFile :=
| Absent
| Unreadable
| Parsed (v : json).

Record Inner := mkInner {
  store : option CronStore;
  running : bool;
  timer_active : bool;
  max_sleep_ms : Z;
  timer : Timer
}.

(** The store file, the corrupt files set aside, and the lines of the action log
    ([None] for a line that is not JSON). *)
Record Disk := mkDisk {
  store_file : StoreFile;
  preserved : list StoreFile;
  action_log : option (list (option json))
}.

Record Svc := mkSvc { inner : Inner; disk : Disk }.

Definition DEFAULT_MAX_SLEEP_MS : Z := 300000.

(** The files are the disk; their paths and the lock file are left implicit. *)
Definition with_max_sleep (d : Disk) (max_sleep : Z) : Svc :=
  mkSvc (mkInner None false false max_sleep NoTimer) d.

(** [CronService::new]. *)
Definition new_service (d : Disk) : Svc := with_max_sleep d DEFAULT_MAX_SLEEP_MS.

Definition set_store (s : Svc) (st : option CronStore) : Svc :=
  mkSvc (mkInner st (running (inner s)) (timer_active (inner s)) (max_sleep_ms (inner s))
           (timer (inner s))) (disk s).
Definition set_running (s : Svc) (b : bool) : Svc :=
  mkSvc (mkInner (store (inner s)) b (timer_active (inner s)) (max_sleep_ms (inner s))
           (timer (inner s))) (disk s).
Definition set_timer_active (s : Svc) (b : bool) : Svc :=
  mkSvc (mkInner (store (inner s)) (running (inner s)) b (max_sleep_ms (inner s))
           (timer (inner s))) (disk s).
Definition set_timer (s : Svc) (t : Timer) : Svc :=
  mkSvc (mkInner (store (inner s)) (running (inner s)) (timer_active (inner s))
           (max_sleep_ms (inner s)) t) (disk s).
Definition set_disk (s : Svc) (d : Disk) : Svc := mkSvc (inner s) d.

Definition set_jobs (s : Svc) (js : list CronJob) : Svc :=
  match store (inner s) with
  | Some st => set_store s (Some (mkStore (version st) js))
  | None => s
  end.

Definition svc_jobs (s : Svc) : list CronJob :=
  match store (inner s) with Some st => jobs st | None => [] end.

(** ** Persistence *)

Definition load_jobs_from_disk (f : StoreFile) : option (list CronJob * Z) :=
  match f with
  | Absent => Some ([], 1%Z)
  | Unreadable => None
  | Parsed data =>
      let version := wrap_u32 (default 1%Z (jget "version" data ≫= as_u64)) in
      let jobs_val := default (JArr []) (jget "jobs" data) in
      Some (default [] (list_of_json job_of_json jobs_val), version)
  end.

(** Writes are taken to succeed; a failed one is only logged. *)
Definition save_store (s : Svc) : Svc :=
  match store (inner s) with
  | None => s
  | Some st =>
      set_disk s (mkDisk (Parsed (store_to_json st)) (preserved (disk s)) (action_log (disk s)))
  end.

Definition set_log (s : Svc) (l : option (list (option json))) : Svc :=
  set_disk s (mkDisk (store_file (disk s)) (preserved (disk s)) l).

(** The effect of one line of the action log. *)
Definition replay_action (acc : gmap string CronJob * bool) (line : option json)
    : gmap string CronJob * bool :=
  let '(jobs_map, changed) := acc in
  match line with
  | None => acc
  | Some action =>
      let kind := default "" (get_str "action" action) in
      let params := default JNull (jget "params" action) in
      if String.eqb kind "del" then
        match get_str "job_id" params with
        | Some id => (delete id jobs_map, true)
        | None => acc
        end
      else if is_empty kind then acc
      else match job_of_json params with
           | Some job => (<[job_id job := job]> jobs_map, true)
           | None => acc
           end
  end.

(** [collect] into a [HashMap]: a later job with the same id wins. *)
Definition jobs_by_id (js : list CronJob) : gmap string CronJob :=
  fold_left (λ m j, <[job_id j := j]> m) js ∅.

Definition merge_action (s : Svc) : Svc :=
  match action_log (disk s), store (inner s) with
  | Some log, Some st =>
      let '(jobs_map, changed) := fold_left replay_action log (jobs_by_id (jobs st), false) in
      let s := set_store s (Some (mkStore (version st) (hash_values E jobs_map))) in
      if running (inner s) && changed then save_store (set_log s (Some [])) else s
  | _, _ => s
  end.

Definition load_store (s : Svc) : Svc :=
  if timer_active (inner s) && (match store (inner s) with Some _ => true | None => false end)
  then s
  else
    match load_jobs_from_disk (store_file (disk s)) with
    | Some (js, v) => merge_action (set_store s (Some (mkStore v js)))
    | None =>
        set_disk s (mkDisk Absent (store_file (disk s) :: preserved (disk s)) (action_log (disk s)))
    end.

Definition append_action (s : Svc) (kind : string) (params : json) : Svc :=
  let line := JObj [("action", JStr kind); ("params", params)] in
  set_log s (Some (default [] (action_log (disk s)) ++ [Some line])).

(** ** The timer *)

Definition opt_min (a b : option Z) : option Z :=
  match a, b with
  | Some x, Some y => Some (Z.min x y)
  | Some x, None => Some x
  | None, o => o
  end.

Definition next_wake_ms (s : Svc) : option Z :=
  foldr (λ j acc, if enabled j then opt_min (next_run_at_ms (job_state j)) acc else acc)
    None (svc_jobs s).

Definition arm_timer (s : Svc) (now : Z) : Svc :=
  let s := set_timer s NoTimer in
  if running (inner s) then
    let delay_ms :=
      match next_wake_ms s with
      | None => max_sleep_ms (inner s)
      | Some next => Z.min (max_sleep_ms (inner s)) (Z.max (wrap_i64 (next - now)) 0)
      end in
    set_timer s (Sleeping delay_ms)
  else s.

Definition recompute_next_runs (s : Svc) (now : Z) : Svc :=
  set_jobs s
    ((λ j, if enabled j
           then set_state j (set_next (job_state j) (compute_next_run (schedule j) now))
           else j) <$> svc_jobs s).

(** ** Public operations

    Each runs under the service lock; [run_job] and the tick release it while the
    handler runs and are therefore several steps. *)

Definition start (s : Svc) (now : Z) : Svc * bool :=
  let s := load_store (set_running s true) in
  match store (inner s) with
  | None => (set_running s false, false)
  | Some _ => (arm_timer (save_store (recompute_next_runs s now)) now, true)
  end.

Definition stop (s : Svc) : Svc := set_timer (set_running s false) NoTimer.

(** [sort_by_key] is stable: insertion after the entries with smaller or equal keys. *)
Definition list_key (j : CronJob) : Z := default i64_max (next_run_at_ms (job_state j)).

Fixpoint insert_by_key (j : CronJob) (l : list CronJob) : list CronJob :=
  match l with
  | [] => [j]
  | x :: l' => if (list_key j <? list_key x)%Z then j :: l else x :: insert_by_key j l'
  end.

Definition sort_by_key (l : list CronJob) : list CronJob :=
  fold_left (λ acc j, insert_by_key j acc) l [].

Definition list_jobs (s : Svc) (include_disabled : bool) : Svc * list CronJob :=
  let s := load_store s in
  (s, sort_by_key (retain (λ j, include_disabled || enabled j) (svc_jobs s))).

(** The arguments of [add_job] beside the schedule. *)
Record AddArgs := mkAddArgs {
  aa_name : string;
  aa_message : string;
  aa_deliver : bool;
  aa_channel : option string;
  aa_to : option string;
  aa_delete_after_run : bool;
  aa_channel_meta : option json;
  aa_session_key : option string
}.

(** [uuid] is the eight-character identifier drawn. *)
Definition new_job (uuid : string) (sch : CronSchedule) (a : AddArgs) (now : Z) : CronJob :=
  mkJob uuid (aa_name a) true sch
    (mkPayload AgentTurn (aa_message a) (aa_deliver a) (aa_channel a) (aa_to a)
       (aa_channel_meta a) (aa_session_key a))
    (mkJobState (compute_next_run sch now) None None None [])
    now now (aa_delete_after_run a).

Definition add_job (s : Svc) (uuid : string) (sch : CronSchedule) (a : AddArgs) (now : Z)
    : Svc * result CronJob CronError :=
  match validate_schedule_for_add sch with
  | Err e => (s, Err e)
  | Ok _ =>
      let job := new_job uuid sch a now in
      let s :=
        if running (inner s) then
          let s := load_store s in
          let s := set_jobs s (svc_jobs s ++ [job]) in
          arm_timer (save_store s) now
        else append_action s "add" (job_to_json job) in
      (s, Ok job)
  end.

Definition has_id (id : string) (j : CronJob) : bool := String.eqb (job_id j) id.

Definition register_system_job (s : Svc) (j : CronJob) (now : Z) : Svc * CronJob :=
  let s := load_store s in
  let j := mkJob (job_id j) (job_name j) (enabled j) (schedule j) (payload j)
             (mkJobState (compute_next_run (schedule j) now) None None None [])
             now now (delete_after_run j) in
  let s := set_jobs s (retain (λ x, negb (has_id (job_id j) x)) (svc_jobs s) ++ [j]) in
  (arm_timer (save_store s) now, j).

Inductive RemoveOutcome := Removed | RemoveProtected | RemoveNotFound.

Definition is_system (j : CronJob) : bool := bool_decide (pl_kind (payload j) = SystemEvent).

Definition remove_job (s : Svc) (id : string) (now : Z) : Svc * RemoveOutcome :=
  let s := load_store s in
  match find_first (has_id id) (svc_jobs s) with
  | None => (s, RemoveNotFound)
  | Some job =>
      if is_system job then (s, RemoveProtected)
      else
        let kept := retain (λ x, negb (has_id id x)) (svc_jobs s) in
        let s' := set_jobs s kept in
        if negb (length kept <? length (svc_jobs s)) then (s', RemoveNotFound)
        else if running (inner s') then (arm_timer (save_store s') now, Removed)
        else (append_action s' "del" (JObj [("job_id", JStr id)]), Removed)
  end.

(** After a job at [idx] was changed to [j]: persist, or log it for the owner of
    the store. *)
Definition commit_update (s : Svc) (idx : nat) (j : CronJob) (now : Z) : Svc :=
  let s := set_jobs s (<[idx := j]> (svc_jobs s)) in
  if running (inner s) then arm_timer (save_store s) now
  else append_action s "update" (job_to_json j).

Definition set_enabled (j : CronJob) (b : bool) (now : Z) : CronJob :=
  mkJob (job_id j) (job_name j) b (schedule j) (payload j)
    (set_next (job_state j) (if b then compute_next_run (schedule j) now else None))
    (created_at_ms j) now (delete_after_run j).

Definition enable_job (s : Svc) (id : string) (b : bool) (now : Z) : Svc * option CronJob :=
  let s := load_store s in
  match position (has_id id) (svc_jobs s) with
  | None => (s, None)
  | Some idx =>
      match svc_jobs s !! idx with
      | None => (s, None)
      | Some j =>
          let j := set_enabled j b now in
          (commit_update s idx j now, Some j)
      end
  end.

(** [UpdateJobOpts]. *)
Record UpdateJobOpts := mkOpts {
  o_name : option string;
  o_schedule : option CronSchedule;
  o_message : option string;
  o_deliver : option bool;
  o_channel : option (option string);
  o_to : option (option string);
  o_channel_meta : option (option json);
  o_session_key : option (option string);
  o_delete_after_run : option bool
}.

Definition apply_opts (j : CronJob) (o : UpdateJobOpts) (now : Z) : CronJob :=
  let sch := default (schedule j) (o_schedule o) in
  let p := payload j in
  mkJob (job_id j) (default (job_name j) (o_name o)) (enabled j) sch
    (mkPayload (pl_kind p) (default (pl_message p) (o_message o))
       (default (pl_deliver p) (o_deliver o)) (default (pl_channel p) (o_channel o))
       (default (pl_to p) (o_to o)) (pl_channel_meta p) (pl_session_key p))
    (if enabled j then set_next (job_state j) (compute_next_run sch now) else job_state j)
    (created_at_ms j) now (default (delete_after_run j) (o_delete_after_run o)).

Inductive UpdateOutcome := Updated (j : CronJob) | UpdateProtected | UpdateNotFound.

Definition update_job (s : Svc) (id : string) (o : UpdateJobOpts) (now : Z)
    : Svc * UpdateOutcome :=
  let s := load_store s in
  match position (has_id id) (svc_jobs s) with
  | None => (s, UpdateNotFound)
  | Some idx =>
      match svc_jobs s !! idx with
      | None => (s, UpdateNotFound)
      | Some j =>
          if is_system j then (s, UpdateProtected)
          else
            match validate_schedule_for_add <$> o_schedule o with
            | Some (Err _) => (s, UpdateNotFound)
            | _ =>
                let j := apply_opts j o now in
                (commit_update s idx j now, Updated j)
            end
      end
  end.

(** [run_job] up to the release of the lock: the job to execute and whether the
    service was running. *)
Definition run_job_begin (s : Svc) (id : string) (force : bool) : Svc * option (CronJob * bool) :=
  let was_running := running (inner s) in
  let s := load_store (set_running s true) in
  match find_first (has_id id) (svc_jobs s) with
  | None => (set_running s was_running, None)
  | Some j =>
      if negb force && negb (enabled j) then (set_running s was_running, None)
      else (s, Some (j, was_running))
  end.

(** [*existing_job = job] on the first job with the id. *)
Definition replace_job (js : list CronJob) (j : CronJob) : list CronJob :=
  match position (has_id (job_id j)) js with
  | Some idx => <[idx := j]> js
  | None => js
  end.

(** ... and after the handler, with the executed job. *)
Definition run_job_finish (s : Svc) (j : CronJob) (was_running : bool) (now : Z) : Svc :=
  let s := set_running (save_store (set_jobs s (replace_job (svc_jobs s) j))) was_running in
  if was_running then arm_timer s now else s.

(** The whole of [run_job] when nothing else takes the lock while the handler runs. *)
Definition run_job (s : Svc) (id : string) (force : bool) (handler : option handler_t)
    (t1 t2 t3 now : Z) : Svc * bool :=
  match run_job_begin s id force with
  | (s, None) => (s, false)
  | (s, Some (j, was_running)) =>
      (run_job_finish s (execute_job handler t1 t2 t3 j) was_running now, true)
  end.

Definition get_job (s : Svc) (id : string) : Svc * option CronJob :=
  let s := load_store s in (s, find_first (has_id id) (svc_jobs s)).

Definition status (s : Svc) : Svc * (bool * nat * option Z) :=
  let s := load_store s in (s, (running (inner s), length (svc_jobs s), next_wake_ms s)).

(** ** The tick *)

Definition is_due (now : Z) (j : CronJob) : bool :=
  enabled j && match next_run_at_ms (job_state j) with Some t => (t <=? now)%Z | None => false end.

(** The task wakes up; [on_timer] runs only if the service is running. *)
Definition tick_begin (s : Svc) (now : Z) : Svc :=
  if running (inner s) then
    let s := set_timer_active (load_store s) true in
    set_timer s (Ticking (retain (is_due now) (svc_jobs s)))
  else set_timer s NoTimer.

(** Writing back one executed job; one-shot jobs flagged for removal go away. *)
Definition write_back (s : Svc) (j : CronJob) : Svc :=
  let js := replace_job (svc_jobs s) j in
  let js := if bool_decide (sch_kind (schedule j) = At) && delete_after_run j
            then retain (λ x, negb (has_id (job_id j) x)) js else js in
  set_jobs s js.

(** The handler of the first remaining due job returns. *)
Definition tick_job (s : Svc) (handler : option handler_t) (t1 t2 t3 : Z) : Svc :=
  match timer (inner s) with
  | Ticking (j :: rest) => set_timer (write_back s (execute_job handler t1 t2 t3 j)) (Ticking rest)
  | _ => s
  end.

Definition tick_end (s : Svc) (now : Z) : Svc :=
  match timer (inner s) with
  | Ticking [] => arm_timer (set_timer_active (save_store s) false) now
  | _ => s
  end.
End Cron.
