(* ===== verification/CronFacts.v ===== *)
(** * Facts on the cron service

    The abstraction of the persistent state (the store file with the action log
    replayed over it) as a finite map from job identifiers to jobs, and the lemmas
    that relate the operations of the service to it. *)

From S2P Require Import Prelude RustStr Json CronTypes CronService.

Local Open Scope stdpp_scope.
Local Open Scope hive_scope.

(** ** Deserialised jobs are well formed *)

Lemma as_i64_range v z : as_i64 v = Some z → in_i64 z = true.
Proof. destruct v; simpl; try done. case_match; [|done]. by intros [= <-]. Qed.

Lemma opt_field_i64 k m o : opt_field as_i64 k m = Some o → opt_in_i64 o = true.
Proof.
  unfold opt_field. destruct (map_get k m) as [v|]; [|by intros [= <-]].
  destruct (is_null v); [by intros [= <-]|].
  destruct (as_i64 v) as [z|] eqn:Hz; simpl; [|done]. intros [= <-]. by eapply as_i64_range.
Qed.

Lemma def_field_i64 d k m z : in_i64 d = true → def_field as_i64 d k m = Some z → in_i64 z = true.
Proof.
  intros Hd. unfold def_field. destruct (map_get k m); [apply as_i64_range|]. by intros [= <-].
Qed.

(** Inversion of a chain of option binds. *)
Ltac inv_binds H :=
  repeat (apply bind_Some in H as (? & ? & H)); simplify_eq.

Lemma schedule_of_json_wf v s :
  schedule_of_json v = Some s → opt_in_i64 (at_ms s) = true ∧ opt_in_i64 (every_ms s) = true.
Proof.
  unfold schedule_of_json. intros H. inv_binds H. simpl. eauto using opt_field_i64.
Qed.

Lemma payload_of_json_wf v p :
  payload_of_json v = Some p →
  (match pl_channel_meta p with Some w => negb (is_null w) | None => true end) = true.
Proof.
  unfold payload_of_json. intros H. inv_binds H. simpl. case_match; [|done]. subst.
  match goal with H : opt_field Some _ ?m = Some (Some ?w) |- _ =>
    unfold opt_field in H; destruct (map_get _ m) as [u|]; [|done];
    destruct (is_null u) eqn:Hu; [done|]; simpl in H; simplify_eq; by rewrite Hu end.
Qed.

Lemma record_of_json_wf v r : record_of_json v = Some r → wf_record r = true.
Proof.
  unfold record_of_json. intros H. inv_binds H. unfold wf_record. simpl.
  apply andb_true_iff. split; [|by eapply (def_field_i64 0)].
  match goal with H : req_field as_i64 _ _ = Some _ |- _ => unfold req_field in H; inv_binds H end.
  by eapply as_i64_range.
Qed.

Lemma list_of_json_forall {A} (f : json → option A) (P : A → Prop) v l :
  (∀ w x, f w = Some x → P x) → list_of_json f v = Some l → Forall P l.
Proof.
  intros Hf. unfold list_of_json. destruct (as_array v) as [ws|]; simpl; [|done].
  intros Hm%mapM_Some. induction Hm; constructor; eauto.
Qed.

Lemma def_field_wf {A} (f : json → option A) (P : A → Prop) d k m x :
  P d → (∀ v y, f v = Some y → P y) → def_field f d k m = Some x → P x.
Proof.
  intros Hd Hf. unfold def_field. destruct (map_get k m); [apply Hf|]. by intros [= <-].
Qed.

Lemma state_of_json_wf v s :
  state_of_json v = Some s →
  opt_in_i64 (next_run_at_ms s) = true ∧ opt_in_i64 (last_run_at_ms s) = true ∧
  forallb wf_record (run_history s) = true.
Proof.
  unfold state_of_json. intros H. inv_binds H. simpl. split_and!; eauto using opt_field_i64.
  rewrite forallb_forall. intros r Hr%list_elem_of_In.
  match goal with H : def_field (list_of_json record_of_json) _ _ _ = Some _ |- _ =>
    apply (def_field_wf _ (Forall (λ r, wf_record r = true))) in H end.
  - match goal with H : Forall _ _ |- _ => rewrite Forall_forall in H; by apply H end.
  - constructor.
  - intros w y. apply list_of_json_forall, record_of_json_wf.
Qed.

Lemma job_of_json_wf v j : job_of_json v = Some j → wf_job j = true.
Proof.
  unfold job_of_json. intros H. inv_binds H.
  repeat match goal with
  | H : def_field schedule_of_json _ _ _ = Some _ |- _ =>
      apply (def_field_wf _ (λ s, opt_in_i64 (at_ms s) = true ∧ opt_in_i64 (every_ms s) = true))
        in H as [??]; [|done|apply schedule_of_json_wf]
  | H : def_field payload_of_json _ _ _ = Some _ |- _ =>
      apply (def_field_wf _ (λ p,
        (match pl_channel_meta p with Some w => negb (is_null w) | None => true end) = true)) in H;
      [|done|apply payload_of_json_wf]
  | H : def_field state_of_json _ _ _ = Some _ |- _ =>
      apply (def_field_wf _ (λ s, opt_in_i64 (next_run_at_ms s) = true ∧
        opt_in_i64 (last_run_at_ms s) = true ∧ forallb wf_record (run_history s) = true))
        in H as (? & ? & ?); [|done|apply state_of_json_wf]
  | H : def_field as_i64 _ _ _ = Some _ |- _ => apply def_field_i64 in H; [|done]
  end.
  unfold wf_job. simpl. rewrite !andb_true_iff. tauto.
Qed.

(** ** The persistent map *)

Definition keyed (m : gmap string CronJob) : Prop := ∀ k j, m !! k = Some j → job_id j = k.
Definition all_wf (m : gmap string CronJob) : Prop := ∀ k j, m !! k = Some j → wf_job j = true.

Definition replay_log (log : list (option json)) (m : gmap string CronJob) : gmap string CronJob :=
  (fold_left replay_action log (m, false)).1.

(** What the files on disk denote: the jobs of the store file with the action log
    replayed over them; [None] when the store file is unreadable. *)
Definition disk_view (d : Disk) : option (gmap string CronJob) :=
  match load_jobs_from_disk (store_file d) with
  | None => None
  | Some (js, _) => Some (replay_log (default [] (action_log d)) (jobs_by_id js))
  end.

Lemma fold_by_id_lookup js (m : gmap string CronJob) id :
  fold_left (λ m j, <[job_id j := j]> m) js m !! id =
  match find_first (has_id id) (rev js) with Some j => Some j | None => m !! id end.
Proof.
  revert m. induction js as [|j js IH]; intros m; cbn [fold_left rev]; [done|].
  rewrite IH. clear IH.
  assert (Happ : find_first (has_id id) (rev js ++ [j]) =
    match find_first (has_id id) (rev js) with
    | Some x => Some x
    | None => if has_id id j then Some j else None
    end).
  { induction (rev js) as [|x l IH]; simpl; [done|]. by destruct (has_id id x). }
  rewrite Happ. destruct (find_first _ (rev js)); [done|].
  unfold has_id. destruct (String.eqb (job_id j) id) eqn:Ee; bool_to_prop.
  - rewrite Ee. by rewrite lookup_insert_eq.
  - by rewrite lookup_insert_ne.
Qed.

Lemma jobs_by_id_lookup js id : jobs_by_id js !! id = find_first (has_id id) (rev js).
Proof.
  unfold jobs_by_id. rewrite fold_by_id_lookup. by destruct (find_first _ _).
Qed.

Lemma jobs_by_id_keyed js : keyed (jobs_by_id js).
Proof.
  intros k j. rewrite jobs_by_id_lookup. intros [_ H]%find_first_Some.
  unfold has_id in H. by bool_to_prop.
Qed.

Lemma jobs_by_id_elem js id j : jobs_by_id js !! id = Some j → j ∈ js.
Proof.
  rewrite jobs_by_id_lookup. intros [H _]%find_first_Some. rewrite list_elem_of_In in H.
  by apply list_elem_of_In, in_rev.
Qed.

(** With distinct identifiers the map holds exactly the jobs of the list. *)
Lemma jobs_by_id_NoDup js id j :
  NoDup (job_id <$> js) → jobs_by_id js !! id = Some j ↔ j ∈ js ∧ job_id j = id.
Proof.
  intros Hnd. split.
  - intros H. split; [by eapply jobs_by_id_elem|by eapply jobs_by_id_keyed].
  - intros [Hj Hid]. destruct (jobs_by_id js !! id) as [j'|] eqn:Hl.
    + assert (j' ∈ js ∧ job_id j' = id) as [Hj' Hid']
        by (split; [by eapply jobs_by_id_elem|by eapply jobs_by_id_keyed]).
      f_equal. apply list_elem_of_lookup in Hj as [i Hi], Hj' as [i' Hi'].
      assert (i = i') as ->.
      { eapply (NoDup_lookup (job_id <$> js)); [done| |];
          rewrite list_lookup_fmap; [by rewrite Hi|rewrite Hi'; simpl; congruence]. }
      congruence.
    + rewrite jobs_by_id_lookup, find_first_None in Hl.
      specialize (Hl j). rewrite list_elem_of_In, <-in_rev, <-list_elem_of_In in Hl.
      specialize (Hl Hj). unfold has_id in Hl. bool_to_prop. done.
Qed.

Lemma jobs_by_id_app js j : jobs_by_id (js ++ [j]) = <[job_id j := j]> (jobs_by_id js).
Proof. unfold jobs_by_id. by rewrite fold_left_app. Qed.

Lemma find_first_retain {A} (f g : A → bool) l :
  (∀ x, f x = true → g x = true) → find_first f (retain g l) = find_first f l.
Proof.
  intros Hfg. induction l as [|x l IH]; simpl; [done|].
  destruct (f x) eqn:Hf; [rewrite (Hfg x Hf); simpl; by rewrite Hf|].
  destruct (g x); simpl; [by rewrite Hf|done].
Qed.

Lemma jobs_by_id_retain js id :
  jobs_by_id (retain (λ x, negb (has_id id x)) js) = delete id (jobs_by_id js).
Proof.
  apply map_eq. intros k. rewrite lookup_delete, !jobs_by_id_lookup.
  rewrite <-filter_rev. case_decide as Hk.
  - subst k. apply find_first_None. intros x Hx%retain_elem_of. by destruct Hx as [_ ?%negb_true_iff].
  - apply find_first_retain. unfold has_id. intros x Hx. bool_to_prop.
    apply negb_true_iff, String.eqb_neq. congruence.
Qed.

(** ** Replaying the log *)

(** The change a line makes, if any; it does not depend on the jobs. *)
Definition line_effect (line : option json) : option (gmap string CronJob → gmap string CronJob) :=
  match line with
  | None => None
  | Some action =>
      let kind := default "" (get_str "action" action) in
      let params := default JNull (jget "params" action) in
      if String.eqb kind "del" then (λ id m, delete id m) <$> get_str "job_id" params
      else if is_empty kind then None
      else (λ job m, <[job_id job := job]> m) <$> job_of_json params
  end.

Lemma replay_action_effect m c line :
  replay_action (m, c) line =
  match line_effect line with Some f => (f m, true) | None => (m, c) end.
Proof.
  unfold replay_action, line_effect. destruct line as [action|]; [|done].
  destruct (String.eqb _ "del"); [by destruct (get_str "job_id" _)|].
  destruct (is_empty _); [done|]. by destruct (job_of_json _).
Qed.

(** The log is inert when no line has an effect. *)
Definition inert (log : list (option json)) : Prop := Forall (λ l, line_effect l = None) log.

Lemma replay_fold log m c :
  (fold_left replay_action log (m, c)).1 = replay_log log m ∧
  ((fold_left replay_action log (m, c)).2 = false → inert log).
Proof.
  unfold replay_log. revert m c. induction log as [|l log IH]; intros m c; cbn [fold_left].
  { split; [done|]. constructor. }
  rewrite !replay_action_effect. destruct (line_effect l) as [f|] eqn:Hl.
  - destruct (IH (f m) true) as [H1 H2]. split; [done|].
    intros H. exfalso. clear -H. revert H. generalize (f m).
    induction log as [|x log IH]; intros m'; cbn [fold_left]; [done|].
    rewrite replay_action_effect. destruct (line_effect x); apply IH.
  - destruct (IH m c) as [H1 H2]. destruct (IH m false) as [H3 _]. split; [by rewrite H1|].
    intros H. constructor; [done|by apply H2].
Qed.

Lemma inert_replay log m : inert log → replay_log log m = m.
Proof.
  unfold replay_log. induction 1 as [|l log Hl _ IH]; [done|].
  cbn [fold_left]. by rewrite replay_action_effect, Hl.
Qed.

Lemma replay_log_app log line m :
  replay_log (log ++ [line]) m =
  match line_effect line with Some f => f (replay_log log m) | None => replay_log log m end.
Proof.
  unfold replay_log. rewrite fold_left_app. cbn [fold_left].
  destruct (fold_left replay_action log (m, false)) as [m' c]. rewrite replay_action_effect.
  by destruct (line_effect line).
Qed.

(** Properties of a map that single-job edits preserve survive a replay. *)
Lemma replay_log_inv (P : gmap string CronJob → Prop) log m :
  (∀ m id, P m → P (delete id m)) →
  (∀ m j v, job_of_json v = Some j → P m → P (<[job_id j := j]> m)) →
  P m → P (replay_log log m).
Proof.
  intros Hdel Hins. induction log as [|line log IH] using rev_ind; [done|].
  intros Hm. rewrite replay_log_app. specialize (IH Hm).
  destruct (line_effect line) as [f|] eqn:Hl; [|done].
  unfold line_effect in Hl. destruct line as [action|]; [|done].
  destruct (String.eqb _ "del").
  - destruct (get_str "job_id" _); simplify_eq/=. auto.
  - destruct (is_empty _); [done|]. destruct (job_of_json _) eqn:Hj; simplify_eq/=. eauto.
Qed.

Lemma keyed_delete m id : keyed m → keyed (delete id m).
Proof. intros H k j [_ Hk]%lookup_delete_Some. by apply H. Qed.

Lemma keyed_insert m j : keyed m → keyed (<[job_id j := j]> m).
Proof. intros H k j' [[? ?]|[_ Hk]]%lookup_insert_Some; [congruence|by apply H]. Qed.

Lemma all_wf_delete m id : all_wf m → all_wf (delete id m).
Proof. intros H k j [_ Hk]%lookup_delete_Some. by eapply H. Qed.

Lemma all_wf_insert m j : wf_job j = true → all_wf m → all_wf (<[job_id j := j]> m).
Proof. intros Hj H k j' [[_ ?]|[_ Hk]]%lookup_insert_Some; [congruence|by eapply H]. Qed.

#[export] Hint Resolve keyed_delete keyed_insert all_wf_delete all_wf_insert jobs_by_id_keyed : hive.

Lemma replay_log_keyed log m : keyed m → keyed (replay_log log m).
Proof. apply replay_log_inv; auto with hive. Qed.

Lemma replay_log_wf log m : all_wf m → all_wf (replay_log log m).
Proof.
  apply replay_log_inv; auto with hive. intros m' j v Hj. apply all_wf_insert.
  by eapply job_of_json_wf.
Qed.

(** ** Loading and saving *)

Lemma load_jobs_wf f js v :
  load_jobs_from_disk f = Some (js, v) →
  Forall (λ j, wf_job j = true) js ∧ (0 <= v <= u32_max)%Z.
Proof.
  destruct f as [| |data]; simpl; [intros [= <- <-]|done|intros [= <- <-]].
  { split; [constructor|]. unfold u32_max. lia. }
  split.
  - destruct (list_of_json job_of_json _) as [l|] eqn:Hl; [|constructor]. simpl.
    eapply list_of_json_forall; [|exact Hl]. intros w x. apply job_of_json_wf.
  - unfold wrap_u32, u32_max. pose proof (Z.mod_pos_bound
      (default 1%Z (jget "version" data ≫= as_u64)) 4294967296). lia.
Qed.

Lemma load_saved st :
  Forall (λ j, wf_job j = true) (jobs st) → (0 <= version st <= u32_max)%Z →
  load_jobs_from_disk (Parsed (store_to_json st)) = Some (jobs st, version st).
Proof.
  intros Hwf Hv. unfold load_jobs_from_disk, store_to_json. cbn -[list_of_json].
  rewrite (list_roundtrip _ _ wf_job).
  - unfold u32_max in Hv.
    assert (in_u64 (version st) = true) as ->
      by (unfold in_u64, u64_max; apply andb_true_iff; split; apply Z.leb_le; lia).
    simpl. unfold wrap_u32. by rewrite Z.mod_small by lia.
  - apply job_roundtrip.
  - rewrite forallb_forall. rewrite Forall_forall in Hwf. intros j Hj.
    by apply Hwf, list_elem_of_In.
Qed.

Lemma jobs_by_id_wf js : Forall (λ j, wf_job j = true) js → all_wf (jobs_by_id js).
Proof.
  intros Hwf k j Hj. rewrite Forall_forall in Hwf. apply Hwf. by eapply jobs_by_id_elem.
Qed.

#[local] Arguments store_to_json : simpl never.
#[local] Arguments load_jobs_from_disk : simpl never.

Lemma disk_view_saved st p log :
  Forall (λ j, wf_job j = true) (jobs st) → (0 <= version st <= u32_max)%Z →
  inert (default [] log) →
  disk_view (mkDisk (Parsed (store_to_json st)) p log) = Some (jobs_by_id (jobs st)).
Proof.
  intros Hwf Hv Hlog. unfold disk_view. cbn [store_file action_log].
  rewrite load_saved by done.
  by rewrite inert_replay.
Qed.

Section Loading.
Context (E : CronEnv) `{!CronEnvLaws E}.

Lemma hash_values_elem m j : j ∈ hash_values E m → ∃ k, m !! k = Some j.
Proof.
  rewrite hash_values_perm. intros ([k x] & -> & H)%list_elem_of_fmap.
  apply elem_of_map_to_list in H. by exists k.
Qed.

Lemma hash_values_NoDup m : keyed m → NoDup (job_id <$> hash_values E m).
Proof.
  intros Hk. rewrite hash_values_perm. rewrite <-list_fmap_compose.
  replace ((job_id ∘ snd) <$> map_to_list m) with (map_to_list m).*1.
  { apply NoDup_fst_map_to_list. }
  apply list_fmap_ext. intros i [k j] Hi%list_elem_of_lookup_2%elem_of_map_to_list.
  simpl. symmetry. by apply Hk.
Qed.

Lemma jobs_by_id_hash_values m : keyed m → jobs_by_id (hash_values E m) = m.
Proof.
  intros Hk. apply map_eq. intros id. apply option_eq. intros j.
  rewrite jobs_by_id_NoDup by (by apply hash_values_NoDup). split.
  - intros [[k Hj]%hash_values_elem <-]. by rewrite (Hk k j Hj).
  - intros Hj. split; [|by apply Hk]. rewrite hash_values_perm.
    apply list_elem_of_fmap. exists (id, j). split; [done|]. by apply elem_of_map_to_list.
Qed.

Lemma hash_values_wf m : all_wf m → Forall (λ j, wf_job j = true) (hash_values E m).
Proof. intros H. apply Forall_forall. intros j [k Hj]%hash_values_elem. by eapply H. Qed.

(** What a load leaves behind: the store in memory and the files both denote [m]. *)
Record loaded (s s' : Svc) (m : gmap string CronJob) (st : CronStore) : Prop := {
  ld_store : store (inner s') = Some st;
  ld_jobs : jobs_by_id (jobs st) = m;
  ld_wf : Forall (λ j, wf_job j = true) (jobs st);
  ld_version : (0 <= version st <= u32_max)%Z;
  ld_view : disk_view (disk s') = Some m;
  ld_running : running (inner s') = running (inner s);
  ld_active : timer_active (inner s') = timer_active (inner s);
  ld_sleep : max_sleep_ms (inner s') = max_sleep_ms (inner s);
  ld_timer : timer (inner s') = timer (inner s);
  ld_log : running (inner s) = true → inert (default [] (action_log (disk s')));
  ld_disk : running (inner s) = false → disk s' = disk s
}.

Lemma load_store_spec s m :
  timer_active (inner s) = false → disk_view (disk s) = Some m →
  ∃ st, loaded s (load_store E s) m st.
Proof.
  intros Hact Hview. unfold load_store. rewrite Hact. simpl.
  pose proof Hview as Hview0. unfold disk_view in Hview.
  destruct (load_jobs_from_disk (store_file (disk s))) as [[js v]|] eqn:Hload; [|done].
  injection Hview as Hview. destruct (load_jobs_wf _ _ _ Hload) as [Hwf Hv].
  unfold merge_action. simpl.
  destruct (action_log (disk s)) as [log|] eqn:Hlog; simpl in Hview.
  2:{ eexists. split; simpl; try done.
      intros _. rewrite Hlog. constructor. }
  destruct (fold_left replay_action log (jobs_by_id js, false)) as [jm changed] eqn:Hfold.
  destruct (replay_fold log (jobs_by_id js) false) as [Hjm Hch]. rewrite Hfold in Hjm, Hch.
  simpl in Hjm, Hch. rewrite Hview in Hjm. subst jm.
  assert (Hk : keyed m) by (rewrite <-Hview; apply replay_log_keyed; auto with hive).
  assert (Hmwf : all_wf m) by (rewrite <-Hview; apply replay_log_wf, jobs_by_id_wf, Hwf).
  exists (mkStore v (hash_values E m)).
  destruct (running (inner s)) eqn:Hrun; simpl; [destruct changed; simpl|].
  - split; simpl; auto using jobs_by_id_hash_values, hash_values_wf.
    + rewrite disk_view_saved by (simpl; auto using hash_values_wf; constructor). simpl.
      by rewrite jobs_by_id_hash_values.
    + constructor.
    + congruence.
  - split; simpl; auto using jobs_by_id_hash_values, hash_values_wf.
    + intros _. rewrite Hlog. by apply Hch.
  - split; simpl; auto using jobs_by_id_hash_values, hash_values_wf. congruence.
Qed.
End Loading.
