(* ===== verification/CronProps.v ===== *)
(** * Properties of the cron service *)

From S2P Require Import Prelude RustStr Json CronTypes CronService CronFacts.

Local Open Scope stdpp_scope.
Local Open Scope hive_scope.

#[local] Arguments store_to_json : simpl never.
#[local] Arguments load_jobs_from_disk : simpl never.
#[local] Arguments job_to_json : simpl never.
#[local] Arguments job_of_json : simpl never.

(** ** Helper lemmas *)

Section Helpers.
Context (E : CronEnv) `{!CronEnvLaws E}.

Lemma arm_timer_disk s now : disk (arm_timer s now) = disk s.
Proof. unfold arm_timer. by case_match. Qed.

Lemma arm_timer_store s now : store (inner (arm_timer s now)) = store (inner s).
Proof. unfold arm_timer. by case_match. Qed.

(** Saving a changed job list while running. *)
Lemma commit_view s s' m st js now :
  loaded s s' m st → running (inner s) = true → Forall (λ j, wf_job j = true) js →
  disk_view (disk (arm_timer (save_store (set_jobs s' js)) now)) = Some (jobs_by_id js).
Proof.
  intros Hl Hrun Hwf. rewrite arm_timer_disk. unfold set_jobs. rewrite (ld_store _ _ _ _ Hl).
  simpl. rewrite disk_view_saved; [done..| | |]; simpl; auto.
  - by apply (ld_version _ _ _ _ Hl).
  - by apply (ld_log _ _ _ _ Hl).
Qed.

(** Logging an action while not running. *)
Lemma append_view s m kind params f :
  disk_view (disk s) = Some m →
  line_effect (Some (JObj [("action", JStr kind); ("params", params)])) = Some f →
  disk_view (disk (append_action s kind params)) = Some (f m).
Proof.
  unfold disk_view, append_action, set_log, set_disk. cbn [disk store_file action_log].
  destruct (load_jobs_from_disk _) as [[js v]|]; [|done].
  intros [= Hm] Hf. cbn [from_option id]. by rewrite replay_log_app, Hf, Hm.
Qed.

Lemma set_jobs_disk s js : disk (set_jobs s js) = disk s.
Proof. unfold set_jobs. by case_match. Qed.

Lemma set_jobs_running s js : running (inner (set_jobs s js)) = running (inner s).
Proof. unfold set_jobs. by case_match. Qed.

Lemma svc_jobs_loaded s s' m st : loaded s s' m st → svc_jobs s' = jobs st.
Proof. intros Hl. unfold svc_jobs. by rewrite (ld_store _ _ _ _ Hl). Qed.

(** Persisting an edit of the loaded jobs, in either mode. *)
Lemma edit_view s s' m st js kind params f now :
  loaded s s' m st →
  Forall (λ j, wf_job j = true) js →
  jobs_by_id js = f m →
  line_effect (Some (JObj [("action", JStr kind); ("params", params)])) = Some f →
  disk_view (disk (if running (inner (set_jobs s' js))
                   then arm_timer (save_store (set_jobs s' js)) now
                   else append_action (set_jobs s' js) kind params)) = Some (f m).
Proof.
  intros Hl Hwf Hjs Hf. rewrite set_jobs_running, (ld_running _ _ _ _ Hl).
  destruct (running (inner s)) eqn:Hrun.
  - rewrite (commit_view s s' m st js now) by done. by rewrite Hjs.
  - apply append_view; [|done]. rewrite set_jobs_disk. by apply (ld_view _ _ _ _ Hl).
Qed.

Lemma update_line_effect j :
  wf_job j = true →
  line_effect (Some (JObj [("action", JStr "update"); ("params", job_to_json j)])) =
  Some (λ m, <[job_id j := j]> m).
Proof. intros Hj. unfold line_effect. simpl. by rewrite job_roundtrip. Qed.

Lemma jobs_by_id_update js idx j j' :
  NoDup (job_id <$> js) → js !! idx = Some j → job_id j' = job_id j →
  jobs_by_id (<[idx := j']> js) = <[job_id j' := j']> (jobs_by_id js).
Proof.
  intros Hnd Hidx Hid.
  assert (Hids : job_id <$> <[idx := j']> js = job_id <$> js).
  { rewrite list_fmap_insert. apply list_insert_id. by rewrite list_lookup_fmap, Hidx, Hid. }
  apply map_eq. intros id. apply option_eq. intros x.
  rewrite jobs_by_id_NoDup by (by rewrite Hids). rewrite lookup_insert_Some.
  pose proof (lookup_lt_Some _ _ _ Hidx) as Hlt. split.
  - intros [Hx Hxid]. apply list_elem_of_lookup in Hx as [i Hi].
    apply list_lookup_insert_Some in Hi as [(-> & -> & _)|(Hne & Hi)]; [by left|].
    right. split.
    + intros Heq. apply Hne. eapply (NoDup_lookup (job_id <$> js)); [done| |];
        rewrite list_lookup_fmap; [by rewrite Hidx|rewrite Hi; simpl; congruence].
    + apply jobs_by_id_NoDup; [done|]. split; [by eapply list_elem_of_lookup_2|done].
  - intros [[<- <-]|[Hne Hx]].
    + split; [|done]. eapply list_elem_of_lookup_2, list_lookup_insert_eq; lia.
    + apply jobs_by_id_NoDup in Hx as [Hx Hxid]; [|done]. split; [|done].
      apply list_elem_of_lookup in Hx as [i Hi].
      apply list_elem_of_lookup. exists i. rewrite list_lookup_insert_ne; [done|].
      intros ->. congruence.
Qed.

Lemma Forall_update {A} (P : A → Prop) l i x : Forall P l → P x → Forall P (<[i := x]> l).
Proof. intros Hl Hx. by apply Forall_insert. Qed.

Lemma Forall_retain {A} (P : A → Prop) f l : Forall P l → Forall P (retain f l).
Proof.
  rewrite !Forall_forall. intros H x [Hx _]%retain_elem_of. by apply H.
Qed.
End Helpers.

(** ** Schedules and execution *)

(** whatever job the store reads from JSON is written back to JSON that reads
    as the same job, so that load, save and load again loses nothing. *)
Theorem job_json_roundtrip (v : json) (j : CronJob) :
  job_of_json v = Some j → job_of_json (job_to_json j) = Some j.
Proof. intros H. apply job_roundtrip. by eapply job_of_json_wf. Qed.

Definition demo_job (id : string) (next : option Z) : CronJob :=
  mkJob id "demo" true (mkSchedule Every None (Some 60000%Z) None None) default_payload
    (mkJobState next None None None []) 5 5 false.

Example job_json_roundtrip_witness :
  job_of_json (JObj [("id", JStr "a"); ("name", JStr "n")]) ≠ None ∧
  job_of_json (job_to_json (demo_job "a" (Some 7%Z))) = Some (demo_job "a" (Some 7%Z)).
Proof.
  split; [by vm_compute|].
  apply (job_json_roundtrip (job_to_json (demo_job "a" (Some 7%Z)))). by vm_compute.
Defined.

(** a computed next run lies strictly in the future: for one-shot, interval
    (when the sum fits an [i64]) and cron-expression schedules, in every time zone. *)
Theorem compute_next_run_future (E : CronEnv) (s : CronSchedule) (now t : Z) :
  CronEnvLaws E → (0 <= now)%Z →
  in_i64 (now + default 0%Z (every_ms s)) = true →
  compute_next_run E s now = Some t → (now < t)%Z.
Proof.
  intros HE Hnow Hfit. unfold compute_next_run. destruct (sch_kind s).
  - destruct (at_ms s) as [a|]; simpl; [|done]. case_match eqn:Hlt; [|done].
    intros [= <-]. by bool_to_prop.
  - destruct (every_ms s) as [e|]; simpl in *; [|done]. case_match eqn:He; [done|].
    intros [= <-]. rewrite wrap_i64_id by done. bool_to_prop. lia.
  - intros H. inv_binds H.
    match goal with H : cron_after _ _ _ ?b = Some ?n |- _ =>
      pose proof (after_strict _ _ _ _ H) as Hs; pose proof (after_seconds _ _ _ _ H) as Hm;
      rename b into base, n into next end.
    match goal with H : timestamp_opt _ _ _ = Some base |- _ => apply timestamp_value in H end.
    assert (Hr : (0 <= Z.rem now 1000 < 1000)%Z) by (apply Z.rem_bound_pos; lia).
    pose proof (Z.quot_rem' now 1000).
    unfold wrap_u32 in *. rewrite Z.mod_small in * by lia.
    assert (next = 1000000000 * (next / 1000000000))%Z as Hq
      by (pose proof (Z.div_mod next 1000000000); lia).
    set (k := (next / 1000000000)%Z) in *. rewrite Hq.
    replace (1000000000 * k / 1000000)%Z with (1000 * k)%Z; [lia|].
    replace (1000000000 * k)%Z with (1000 * k * 1000000)%Z by lia. by rewrite Z.div_mul by lia.
Qed.

(** A concrete environment: one expression firing every minute. *)
Definition minute_env : CronEnv := {|
  CronExpr := unit;
  Tz := unit;
  cron_parse := λ s, if (6 <=? length (split_whitespace s)) && (length (split_whitespace s) <=? 7)
                     then Some tt else None;
  tz_parse := λ s, if String.eqb s "UTC" then Some tt else None;
  cron_after := λ _ _ b, Some ((b / 60000000000 + 1) * 60000000000)%Z;
  timestamp_opt := λ s n, Some (s * 1000000000 + n)%Z;
  hash_values := λ m, (map_to_list m).*2
|}.

#[export] Instance minute_env_laws : CronEnvLaws minute_env.
Proof.
  split; simpl.
  - intros _ _ b n [= <-]. pose proof (Z.mod_pos_bound b 60000000000).
    pose proof (Z.div_mod b 60000000000). lia.
  - intros _ _ b n [= <-].
    replace ((b / 60000000000 + 1) * 60000000000)%Z
      with ((b / 60000000000 + 1) * 60 * 1000000000)%Z by lia. by apply Z.mod_mul.
  - intros s n b [= <-]. done.
  - done.
Qed.

Definition cron_schedule (e : string) : CronSchedule := mkSchedule Cron None None (Some e) None.

Example compute_next_run_future_witness :
  compute_next_run minute_env (cron_schedule "0 9 * * *") 61500 = Some 120000%Z ∧
  (61500 < 120000)%Z.
Proof.
  split; [by vm_compute|].
  apply (compute_next_run_future minute_env (cron_schedule "0 9 * * *") 61500 120000);
    [apply minute_env_laws|lia|by vm_compute|by vm_compute].
Defined.

(** executing a job records the run: the history is the last twenty records of
    the old history followed by this run with its status, error and duration; a
    one-shot job that is kept is disabled without a next run, a recurring job gets
    its next run recomputed; identity, schedule and payload never change. *)
Theorem execute_job_records (E : CronEnv) (h : option handler_t) (t1 t2 t3 : Z) (j : CronJob) :
  let j' := execute_job E h t1 t2 t3 j in
  let status := match h with
                | Some f => match f j with Ok _ => StatusOk | Err _ => StatusError end
                | None => StatusOk
                end in
  let error := match h with
               | Some f => match f j with Ok _ => None | Err e => Some e end
               | None => None
               end in
  let full := run_history (job_state j) ++ [mkRunRecord t1 status (wrap_i64 (t2 - t1)) error] in
  run_history (job_state j') = drop (length full - 20) full ∧
  length (run_history (job_state j')) ≤ 20 ∧
  last (run_history (job_state j')) = Some (mkRunRecord t1 status (wrap_i64 (t2 - t1)) error) ∧
  (job_id j' = job_id j ∧ schedule j' = schedule j ∧ payload j' = payload j) ∧
  (sch_kind (schedule j) ≠ At →
     enabled j' = enabled j ∧
     next_run_at_ms (job_state j') = compute_next_run E (schedule j) t3) ∧
  (sch_kind (schedule j) = At → delete_after_run j = false →
     enabled j' = false ∧ next_run_at_ms (job_state j') = None).
Proof.
  cbn zeta.
  set (status := match h with Some f => match f j with Ok _ => StatusOk | Err _ => StatusError end
                 | None => StatusOk end).
  set (error := match h with Some f => match f j with Ok _ => None | Err e => Some e end
                | None => None end).
  assert (Hexec : (match h with
     | Some h0 => match h0 j with Ok _ => (StatusOk, None) | Err e => (StatusError, Some e) end
     | None => (StatusOk, None) end) = (status, error)).
  { subst status error. destruct h as [f|]; [|done]. by destruct (f j). }
  unfold execute_job. rewrite Hexec. clear Hexec.
  set (r := mkRunRecord _ _ _ _). set (full := run_history (job_state j) ++ [r]).
  assert (Hpush : push_history (run_history (job_state j)) r = drop (length full - 20) full).
  { unfold push_history, MAX_RUN_HISTORY. fold full. case_match eqn:Hl; [done|]. bool_to_prop.
    by replace (length full - 20) with 0 by lia. }
  assert (Hlen : length (drop (length full - 20) full) ≤ 20) by (rewrite length_drop; lia).
  assert (Hlast : last (drop (length full - 20) full) = Some r).
  { subst full. rewrite length_app. cbn [length].
    rewrite drop_app_le by lia. by rewrite last_snoc. }
  cbn -[push_history]. rewrite Hpush.
  destruct (bool_decide (sch_kind (schedule j) = At)) eqn:Hat; bool_to_prop; cbn.
  - destruct (delete_after_run j) eqn:Hdel; cbn; split_and!; naive_solver.
  - split_and!; naive_solver.
Qed.
