(* ===== verification/CronRefine.v ===== *)
(** * The cron service refines a map of jobs

    Several processes share the store file and the action log: the gateway, whose
    service is running and owns the store file, and tools or command-line calls,
    which append to the log.  Whatever the interleaving of their operations, the
    results and the persistent state are those of one map from identifiers to jobs. *)

From S2P Require Import Prelude RustStr Json CronTypes CronService CronFacts CronProps.

Local Open Scope stdpp_scope.
Local Open Scope hive_scope.

#[local] Arguments store_to_json : simpl never.
#[local] Arguments load_jobs_from_disk : simpl never.
#[local] Arguments job_to_json : simpl never.
#[local] Arguments job_of_json : simpl never.
#[local] Arguments jobs_by_id : simpl never.

(** ** Operations and their abstract meaning *)

Inductive cron_op :=
| OpAdd (uuid : string) (sch : CronSchedule) (a : AddArgs) (now : Z)
| OpRegister (j : CronJob) (now : Z)
| OpRemove (id : string) (now : Z)
| OpEnable (id : string) (b : bool) (now : Z)
| OpUpdate (id : string) (o : UpdateJobOpts) (now : Z)
| OpGet (id : string).

Inductive op_result :=
| RAdd (r : result CronJob CronError)
| RRegister (j : CronJob)
| RRemove (o : RemoveOutcome)
| REnable (o : option CronJob)
| RUpdate (o : UpdateOutcome)
| RGet (o : option CronJob).

Section Spec.
Variable E : CronEnv.

Definition registered (j : CronJob) (now : Z) : CronJob :=
  mkJob (job_id j) (job_name j) (enabled j) (schedule j) (payload j)
    (mkJobState (compute_next_run E (schedule j) now) None None None [])
    now now (delete_after_run j).

Definition impl_op (s : Svc) (op : cron_op) : Svc * op_result :=
  match op with
  | OpAdd uuid sch a now => let '(s, r) := add_job E s uuid sch a now in (s, RAdd r)
  | OpRegister j now => let '(s, r) := register_system_job E s j now in (s, RRegister r)
  | OpRemove id now => let '(s, r) := remove_job E s id now in (s, RRemove r)
  | OpEnable id b now => let '(s, r) := enable_job E s id b now in (s, REnable r)
  | OpUpdate id o now => let '(s, r) := update_job E s id o now in (s, RUpdate r)
  | OpGet id => let '(s, r) := get_job E s id in (s, RGet r)
  end.

Definition spec_op (m : gmap string CronJob) (op : cron_op) : gmap string CronJob * op_result :=
  match op with
  | OpAdd uuid sch a now =>
      match validate_schedule_for_add E sch with
      | Err e => (m, RAdd (Err e))
      | Ok _ => let j := new_job E uuid sch a now in (<[uuid := j]> m, RAdd (Ok j))
      end
  | OpRegister j now =>
      let j' := registered j now in (<[job_id j := j']> m, RRegister j')
  | OpRemove id _ =>
      match m !! id with
      | None => (m, RRemove RemoveNotFound)
      | Some j => if is_system j then (m, RRemove RemoveProtected)
                  else (delete id m, RRemove Removed)
      end
  | OpEnable id b now =>
      match m !! id with
      | None => (m, REnable None)
      | Some j => let j' := set_enabled E j b now in (<[id := j']> m, REnable (Some j'))
      end
  | OpUpdate id o now =>
      match m !! id with
      | None => (m, RUpdate UpdateNotFound)
      | Some j =>
          if is_system j then (m, RUpdate UpdateProtected)
          else match validate_schedule_for_add E <$> o_schedule o with
               | Some (Err _) => (m, RUpdate UpdateNotFound)
               | _ => let j' := apply_opts E j o now in (<[id := j']> m, RUpdate (Updated j'))
               end
      end
  | OpGet id => (m, RGet (m !! id))
  end.

(** When the refinement applies: identifiers drawn for new jobs are fresh, the
    resulting job's integers fit their fields (and its metadata is not a JSON null),
    and system jobs are registered by the owner of the store. *)
Definition allowed (is_running : bool) (m : gmap string CronJob) (op : cron_op) : bool :=
  match op with
  | OpAdd uuid sch a now =>
      bool_decide (m !! uuid = None) && wf_job (new_job E uuid sch a now)
  | OpRegister j now => is_running && wf_job (registered j now)
  | OpEnable id b now =>
      match m !! id with Some j => wf_job (set_enabled E j b now) | None => true end
  | OpUpdate id o now =>
      match m !! id with Some j => wf_job (apply_opts E j o now) | None => true end
  | OpRemove _ _ | OpGet _ => true
  end.

(** ** Processes sharing the files *)

Record World := mkWorld { procs : list Inner; files : Disk }.

Fixpoint run_world (w : World) (l : list (nat * cron_op)) : option (World * list op_result) :=
  match l with
  | [] => Some (w, [])
  | (i, op) :: l =>
      inn ← procs w !! i;
      let '(s, r) := impl_op (mkSvc inn (files w)) op in
      '(w', rs) ← run_world (mkWorld (<[i := inner s]> (procs w)) (disk s)) l;
      Some (w', r :: rs)
  end.

Fixpoint run_spec (m : gmap string CronJob) (l : list (nat * cron_op))
    : gmap string CronJob * list op_result :=
  match l with
  | [] => (m, [])
  | (_, op) :: l =>
      let '(m', r) := spec_op m op in
      let '(m'', rs) := run_spec m' l in
      (m'', r :: rs)
  end.

(** [modes] says which processes are running; operations do not change it. *)
Fixpoint all_allowed (modes : list bool) (m : gmap string CronJob) (l : list (nat * cron_op))
    : bool :=
  match l with
  | [] => true
  | (i, op) :: l =>
      match modes !! i with
      | Some b => allowed b m op && all_allowed modes (spec_op m op).1 l
      | None => false
      end
  end.
End Spec.

(** ** Simulation *)

(** The files denote [m] and the store file has no duplicate identifier. *)
Definition denotes (d : Disk) (m : gmap string CronJob) : Prop :=
  disk_view d = Some m ∧
  ∀ js v, load_jobs_from_disk (store_file d) = Some (js, v) → NoDup (job_id <$> js).

Section Simulation.
Context (E : CronEnv) `{!CronEnvLaws E}.

(** A loaded service: as [loaded], with distinct identifiers in memory and on disk. *)
Definition ready (s s' : Svc) (m : gmap string CronJob) (st : CronStore) : Prop :=
  loaded s s' m st ∧ NoDup (job_id <$> jobs st) ∧ denotes (disk s') m.

Lemma load_store_ready s m :
  timer_active (inner s) = false → denotes (disk s) m → ∃ st, ready s (load_store E s) m st.
Proof.
  intros Hact [Hview Hnd]. destruct (load_store_spec E s m Hact Hview) as [st Hl].
  exists st. split; [done|].
  assert (Hst : NoDup (job_id <$> jobs st)).
  { pose proof (ld_store _ _ _ _ Hl) as Hs. unfold load_store in Hs. rewrite Hact in Hs.
    simpl in Hs. destruct (load_jobs_from_disk _) as [[js v]|] eqn:Hload.
    2:{ unfold disk_view in Hview. by rewrite Hload in Hview. }
    unfold merge_action in Hs. simpl in Hs. destruct (action_log (disk s)) as [log|].
    2:{ simpl in Hs. simplify_eq. by eapply Hnd. }
    destruct (fold_left replay_action log _) as [jm c] eqn:Hf.
    assert (Hk : keyed jm).
    { replace jm with (replay_log log (jobs_by_id js)) by (unfold replay_log; by rewrite Hf).
      apply replay_log_keyed, jobs_by_id_keyed. }
    destruct (running (inner s)), c; simpl in Hs; simplify_eq/=; by apply hash_values_NoDup. }
  split; [done|]. split; [by apply (ld_view _ _ _ _ Hl)|].
  intros js v Hjs. destruct (running (inner s)) eqn:Hrun.
  - pose proof (ld_store _ _ _ _ Hl) as Hs. revert Hjs Hs. unfold load_store. rewrite Hact. simpl.
    destruct (load_jobs_from_disk (store_file (disk s))) as [[js0 v0]|] eqn:Hload.
    2:{ unfold disk_view in Hview. by rewrite Hload in Hview. }
    unfold merge_action. simpl. destruct (action_log (disk s)) as [log|].
    2:{ simpl. rewrite Hload. intros. simplify_eq. by eapply Hnd. }
    destruct (fold_left replay_action log _) as [jm c].
    rewrite Hrun. simpl. destruct c; simpl.
    + intros Hjs Hs. injection Hs as <-. rewrite load_saved in Hjs.
      * injection Hjs as <- <-. done.
      * by apply (ld_wf _ _ _ _ Hl).
      * apply (ld_version _ _ _ _ Hl).
    + rewrite Hload. intros. simplify_eq. by eapply Hnd.
  - rewrite (ld_disk _ _ _ _ Hl Hrun) in Hjs. by eapply Hnd.
Qed.

Lemma find_first_by_id js id :
  NoDup (job_id <$> js) → find_first (has_id id) js = jobs_by_id js !! id.
Proof.
  intros Hnd. destruct (find_first (has_id id) js) as [j|] eqn:Hf.
  - apply find_first_Some in Hf as [Hj Hid]. unfold has_id in Hid. bool_to_prop.
    symmetry. by apply jobs_by_id_NoDup.
  - destruct (jobs_by_id js !! id) as [j|] eqn:Hj; [|done].
    apply jobs_by_id_NoDup in Hj as [Hj Hid]; [|done].
    rewrite find_first_None in Hf. specialize (Hf j Hj). unfold has_id in Hf. by bool_to_prop.
Qed.

Lemma position_by_id js id :
  NoDup (job_id <$> js) →
  match position (has_id id) js with
  | Some idx => ∃ j, js !! idx = Some j ∧ job_id j = id ∧ jobs_by_id js !! id = Some j
  | None => jobs_by_id js !! id = None
  end.
Proof.
  intros Hnd. destruct (position (has_id id) js) as [idx|] eqn:Hp.
  - apply position_Some in Hp as (j & Hj & Hid & _). unfold has_id in Hid. bool_to_prop.
    exists j. split_and!; [done..|]. apply jobs_by_id_NoDup; [done|].
    split; [by eapply list_elem_of_lookup_2|done].
  - rewrite <-find_first_by_id by done. apply find_first_None. by apply position_None.
Qed.

(** What an operation keeps of the process. *)
Definition same_mode (s s' : Svc) : Prop :=
  running (inner s') = running (inner s) ∧ timer_active (inner s') = timer_active (inner s).

Lemma arm_timer_mode s now : same_mode s (arm_timer s now).
Proof. unfold same_mode, arm_timer. simpl. by destruct (running (inner s)) eqn:H; simpl. Qed.

Lemma set_jobs_mode s js : same_mode s (set_jobs s js).
Proof. unfold same_mode, set_jobs. by destruct (store (inner s)). Qed.

Lemma save_store_mode s : same_mode s (save_store s).
Proof. unfold same_mode, save_store. by destruct (store (inner s)). Qed.

Lemma same_mode_trans s1 s2 s3 : same_mode s1 s2 → same_mode s2 s3 → same_mode s1 s3.
Proof. unfold same_mode. intuition congruence. Qed.

Lemma saved_mode s js now : same_mode s (arm_timer (save_store (set_jobs s js)) now).
Proof.
  eapply same_mode_trans; [apply set_jobs_mode|].
  eapply same_mode_trans; [apply save_store_mode|apply arm_timer_mode].
Qed.

Lemma ready_mode s s' m st : ready s s' m st → same_mode s s'.
Proof. intros [Hl _]. split; [apply (ld_running _ _ _ _ Hl)|apply (ld_active _ _ _ _ Hl)]. Qed.

Lemma commit_denotes s s' m st js now :
  ready s s' m st → running (inner s) = true →
  Forall (λ j, wf_job j = true) js → NoDup (job_id <$> js) →
  denotes (disk (arm_timer (save_store (set_jobs s' js)) now)) (jobs_by_id js).
Proof.
  intros (Hl & _ & _) Hrun Hwf Hnd. split.
  - by eapply commit_view.
  - intros js' v. rewrite arm_timer_disk. unfold set_jobs. rewrite (ld_store _ _ _ _ Hl).
    simpl. rewrite load_saved; simpl; [|done|apply (ld_version _ _ _ _ Hl)]. by intros [= <- <-].
Qed.

Lemma append_denotes s m kind params f :
  denotes (disk s) m →
  line_effect (Some (JObj [("action", JStr kind); ("params", params)])) = Some f →
  denotes (disk (append_action s kind params)) (f m).
Proof. intros [Hv Hnd] Hf. split; [by apply append_view|exact Hnd]. Qed.

(** An edit of the loaded jobs persisted in either mode. *)
Lemma edit_denotes s s' m st js kind params f now :
  ready s s' m st →
  Forall (λ j, wf_job j = true) js → NoDup (job_id <$> js) →
  jobs_by_id js = f m →
  line_effect (Some (JObj [("action", JStr kind); ("params", params)])) = Some f →
  let s1 := set_jobs s' js in
  let s2 := if running (inner s1) then arm_timer (save_store s1) now
            else append_action s1 kind params in
  denotes (disk s2) (f m) ∧ same_mode s s2.
Proof.
  intros Hr Hwf Hnd Hjs Hf. cbn zeta. pose proof (ready_mode _ _ _ _ Hr) as Hm.
  rewrite set_jobs_running. destruct (running (inner s')) eqn:Hrun.
  - split; [|eapply same_mode_trans; [exact Hm|apply saved_mode]].
    rewrite <-Hjs. eapply commit_denotes; [done| |done..]. destruct Hm. congruence.
  - split.
    + apply append_denotes; [|done]. rewrite set_jobs_disk. apply Hr.
    + eapply same_mode_trans; [exact Hm|]. apply (set_jobs_mode s' js).
Qed.

Lemma NoDup_retain_ids f js : NoDup (job_id <$> js) → NoDup (job_id <$> retain f js).
Proof.
  intros Hnd. eapply sublist_NoDup; [exact Hnd|]. apply fmap_sublist, retain_sublist.
Qed.

(** ** One operation *)

Definition simulates (s : Svc) (m : gmap string CronJob) (op : cron_op) : Prop :=
  let '(s', r) := impl_op E s op in
  let '(m', r') := spec_op E m op in
  denotes (disk s') m' ∧ r = r' ∧ same_mode s s'.

Lemma sim_get s m id :
  timer_active (inner s) = false → denotes (disk s) m → simulates s m (OpGet id).
Proof.
  intros Hact Hd. destruct (load_store_ready s m Hact Hd) as [st Hr].
  pose proof (ready_mode _ _ _ _ Hr) as Hmode. destruct Hr as (Hl & Hnd & Hd').
  unfold simulates. simpl. split_and!; [done| |done]. f_equal.
  rewrite (svc_jobs_loaded _ _ _ _ Hl), find_first_by_id by done.
  by rewrite (ld_jobs _ _ _ _ Hl).
Qed.

Lemma sim_add s m uuid sch a now :
  timer_active (inner s) = false → denotes (disk s) m →
  allowed E (running (inner s)) m (OpAdd uuid sch a now) = true →
  simulates s m (OpAdd uuid sch a now).
Proof.
  intros Hact Hd Hok. simpl in Hok. bool_to_prop.
  unfold simulates, impl_op, spec_op, add_job.
  destruct (validate_schedule_for_add E sch) as [[]|e]; [|by split_and!].
  set (j := new_job E uuid sch a now) in *.
  destruct (running (inner s)) eqn:Hrun.
  - destruct (load_store_ready s m Hact Hd) as [st Hr].
    pose proof (ready_mode _ _ _ _ Hr) as Hmode. pose proof Hr as (Hl & Hnd & _).
    rewrite (svc_jobs_loaded _ _ _ _ Hl).
    assert (Hfresh : job_id j ∉ job_id <$> jobs st).
    { intros (x & Hid & Hx)%list_elem_of_fmap.
      assert (jobs_by_id (jobs st) !! uuid = Some x) as Hlk
        by (apply jobs_by_id_NoDup; [done|by split]).
      rewrite (ld_jobs _ _ _ _ Hl) in Hlk. congruence. }
    split_and!; [|done|eapply same_mode_trans; [exact Hmode|apply saved_mode]].
    replace (<[uuid := j]> m) with (jobs_by_id (jobs st ++ [j]))
      by (rewrite jobs_by_id_app; by rewrite (ld_jobs _ _ _ _ Hl)).
    eapply commit_denotes; [done..| |].
    + apply Forall_app. split; [apply (ld_wf _ _ _ _ Hl)|by repeat constructor].
    + rewrite fmap_app. simpl. apply NoDup_app. split_and!; [done| |apply NoDup_singleton].
      intros x Hx ->%list_elem_of_singleton. done.
  - split_and!; [|done|done].
    apply (append_denotes s m "add" (job_to_json j) (λ m, <[uuid := j]> m)); [done|].
    unfold line_effect. simpl. by rewrite job_roundtrip.
Qed.

Lemma sim_register s m j now :
  timer_active (inner s) = false → denotes (disk s) m →
  allowed E (running (inner s)) m (OpRegister j now) = true →
  simulates s m (OpRegister j now).
Proof.
  intros Hact Hd Hok. unfold allowed in Hok. apply andb_true_iff in Hok as [Hrun Hwf].
  destruct (load_store_ready s m Hact Hd) as [st Hr].
  pose proof (ready_mode _ _ _ _ Hr) as Hmode. pose proof Hr as (Hl & Hnd & _).
  unfold simulates, impl_op, spec_op, register_system_job.
  rewrite (svc_jobs_loaded _ _ _ _ Hl). cbn [job_id]. fold (registered E j now).
  split_and!; [|done|eapply same_mode_trans; [exact Hmode|apply saved_mode]].
  set (js := retain (λ x, negb (has_id (job_id j) x)) (jobs st)).
  replace (<[job_id j := registered E j now]> m) with (jobs_by_id (js ++ [registered E j now])).
  2:{ rewrite jobs_by_id_app. subst js. rewrite jobs_by_id_retain, (ld_jobs _ _ _ _ Hl).
      apply insert_delete_eq. }
  eapply commit_denotes; [done..| |].
  - apply Forall_app. split; [|by repeat constructor]. apply Forall_retain, (ld_wf _ _ _ _ Hl).
  - rewrite fmap_app. simpl. apply NoDup_app. split_and!; [| |apply NoDup_singleton].
    + by apply NoDup_retain_ids.
    + intros x (y & -> & Hy)%list_elem_of_fmap Hx. apply list_elem_of_singleton in Hx.
      apply retain_elem_of in Hy as [_ Hy]. unfold has_id in Hy. by bool_to_prop.
Qed.

Lemma retain_shrinks id js j :
  find_first (has_id id) js = Some j →
  length (retain (λ x, negb (has_id id x)) js) < length js.
Proof.
  induction js as [|x js IH]; simpl; [done|]. destruct (has_id id x) eqn:Hx; simpl.
  - intros _. pose proof (retain_length (λ x, negb (has_id id x)) js). lia.
  - intros H. specialize (IH H). lia.
Qed.

Lemma sim_remove s m id now :
  timer_active (inner s) = false → denotes (disk s) m → simulates s m (OpRemove id now).
Proof.
  intros Hact Hd. destruct (load_store_ready s m Hact Hd) as [st Hr].
  pose proof (ready_mode _ _ _ _ Hr) as Hmode. pose proof Hr as (Hl & Hnd & Hd').
  unfold simulates, impl_op, spec_op, remove_job. rewrite !(svc_jobs_loaded _ _ _ _ Hl).
  destruct (find_first (has_id id) (jobs st)) as [j|] eqn:Hf.
  all: pose proof Hf as Hm; rewrite find_first_by_id, (ld_jobs _ _ _ _ Hl) in Hm by done;
    rewrite Hm.
  2: by split_and!.
  destruct (is_system j); [by split_and!|].
  pose proof (retain_shrinks _ _ _ Hf) as Hlt.
  apply Nat.ltb_lt in Hlt. rewrite Hlt. cbn [negb].
  destruct (edit_denotes s (load_store E s) m st (retain (λ x, negb (has_id id x)) (jobs st))
              "del" (JObj [("job_id", JStr id)]) (delete id) now) as [H1 H2]; try done.
  - apply Forall_retain, (ld_wf _ _ _ _ Hl).
  - by apply NoDup_retain_ids.
  - by rewrite jobs_by_id_retain, (ld_jobs _ _ _ _ Hl).
  - by case_match; split_and!.
Qed.

(** Enabling and updating end in the same commit. *)
Lemma sim_commit s m st idx j j' now :
  ready s (load_store E s) m st → jobs st !! idx = Some j → job_id j' = job_id j →
  wf_job j' = true →
  let s' := commit_update (load_store E s) idx j' now in
  denotes (disk s') (<[job_id j := j']> m) ∧ same_mode s s'.
Proof.
  intros Hr Hidx Hid Hwf. pose proof Hr as (Hl & Hnd & _). cbn zeta. unfold commit_update.
  rewrite (svc_jobs_loaded _ _ _ _ Hl).
  apply (edit_denotes s (load_store E s) m st _ _ _ (λ m, <[job_id j := j']> m)); [done| | | |].
  - apply Forall_update; [apply (ld_wf _ _ _ _ Hl)|done].
  - rewrite list_fmap_insert, list_insert_id; [done|]. by rewrite list_lookup_fmap, Hidx, Hid.
  - rewrite (jobs_by_id_update _ _ j) by done. by rewrite (ld_jobs _ _ _ _ Hl), Hid.
  - rewrite <-Hid. by apply update_line_effect.
Qed.

Lemma sim_enable s m id b now :
  timer_active (inner s) = false → denotes (disk s) m →
  allowed E (running (inner s)) m (OpEnable id b now) = true →
  simulates s m (OpEnable id b now).
Proof.
  intros Hact Hd Hok. simpl in Hok. destruct (load_store_ready s m Hact Hd) as [st Hr].
  pose proof (ready_mode _ _ _ _ Hr) as Hmode. pose proof Hr as (Hl & Hnd & Hd').
  unfold simulates, impl_op, spec_op, enable_job. rewrite !(svc_jobs_loaded _ _ _ _ Hl).
  pose proof (position_by_id (jobs st) id Hnd) as Hp. rewrite (ld_jobs _ _ _ _ Hl) in Hp.
  destruct (position (has_id id) (jobs st)) as [idx|]; [|rewrite Hp; by split_and!].
  destruct Hp as (j & Hidx & <- & Hm). rewrite Hm in Hok. rewrite Hidx, Hm.
  destruct (sim_commit s m st idx j (set_enabled E j b now) now) as [H1 H2]; [done..|].
  by split_and!.
Qed.

Lemma sim_update s m id o now :
  timer_active (inner s) = false → denotes (disk s) m →
  allowed E (running (inner s)) m (OpUpdate id o now) = true →
  simulates s m (OpUpdate id o now).
Proof.
  intros Hact Hd Hok. simpl in Hok. destruct (load_store_ready s m Hact Hd) as [st Hr].
  pose proof (ready_mode _ _ _ _ Hr) as Hmode. pose proof Hr as (Hl & Hnd & Hd').
  unfold simulates, impl_op, spec_op, update_job. rewrite !(svc_jobs_loaded _ _ _ _ Hl).
  pose proof (position_by_id (jobs st) id Hnd) as Hp. rewrite (ld_jobs _ _ _ _ Hl) in Hp.
  destruct (position (has_id id) (jobs st)) as [idx|]; [|rewrite Hp; by split_and!].
  destruct Hp as (j & Hidx & <- & Hm). rewrite Hm in Hok. rewrite Hidx, Hm.
  destruct (is_system j); [by split_and!|].
  destruct (sim_commit s m st idx j (apply_opts E j o now) now) as [H1 H2]; [done..|].
  destruct (validate_schedule_for_add E <$> o_schedule o) as [[|]|]; by split_and!.
Qed.

Lemma sim_op s m op :
  timer_active (inner s) = false → denotes (disk s) m →
  allowed E (running (inner s)) m op = true → simulates s m op.
Proof.
  destruct op; intros; [by apply sim_add|by apply sim_register|by apply sim_remove|
    by apply sim_enable|by apply sim_update|by apply sim_get].
Qed.
End Simulation.


Definition fresh_inner (is_running : bool) : Inner :=
  mkInner None is_running false 300000%Z NoTimer.

Definition no_args : AddArgs := mkAddArgs "n" "hello" false None None false None None.
Definition every_minute : CronSchedule := mkSchedule Every None (Some 60000%Z) None None.

(** The owner adds a job, a client disables it through the log, the owner reads it
    back and removes it. *)
Definition demo_trace : list (nat * cron_op) :=
  [(0, OpAdd "aa" every_minute no_args 1000%Z); (1, OpEnable "aa" false 2000%Z);
   (1, OpAdd "bb" every_minute no_args 2500%Z); (0, OpGet "aa"); (0, OpRemove "bb" 3000%Z)].

Definition demo_world : World :=
  mkWorld [fresh_inner true; fresh_inner false] (mkDisk Absent [] None).

