(* ===== verification/CronTick.v ===== *)
(** * The timer of the cron service

    Arming the timer, one tick from wake-up to re-arming, the listing order, and the
    behaviours of ticks and loads that the surrounding code and comments do not
    expect. *)

From S2P Require Import Prelude RustStr Json CronTypes CronService CronFacts CronProps CronRefine.
From Stdlib Require Import Sorted.

Local Open Scope stdpp_scope.
Local Open Scope hive_scope.

#[local] Arguments store_to_json : simpl never.
#[local] Arguments load_jobs_from_disk : simpl never.
#[local] Arguments jobs_by_id : simpl never.
#[local] Arguments execute_job : simpl never.

(** ** Arming *)

Definition next_runs (js : list CronJob) : list Z :=
  filter_map (λ j, next_run_at_ms (job_state j)) (retain enabled js).

Lemma next_wake_min s :
  match next_wake_ms s with
  | Some t => t ∈ next_runs (svc_jobs s) ∧ ∀ u, u ∈ next_runs (svc_jobs s) → (t <= u)%Z
  | None => next_runs (svc_jobs s) = []
  end.
Proof.
  unfold next_wake_ms, next_runs. induction (svc_jobs s) as [|j js IH]; simpl; [done|].
  destruct (enabled j); simpl; [|done].
  destruct (next_run_at_ms (job_state j)) as [t|]; simpl; [|done].
  destruct (foldr _ _ js) as [u|].
  - destruct IH as [Hin Hmin]. split.
    + destruct (Z.min_spec t u) as [[_ ->]|[_ ->]]; [left|by right].
    + intros v [->|Hv]%elem_of_cons; [lia|]. specialize (Hmin v Hv). lia.
  - rewrite IH. split; [left|]. intros u ->%list_elem_of_singleton. done.
Qed.

(** arming a running service puts the timer task to sleep for a time between
    zero and the configured maximum that ends no later than the earliest due job;
    the minimum is attained, so it never wakes before both; a stopped service gets no
    timer.  Nothing else of the service changes. *)
Theorem arm_timer_bound (s : Svc) (now : Z) :
  (0 <= max_sleep_ms (inner s))%Z →
  (∀ t, t ∈ next_runs (svc_jobs s) → in_i64 (t - now) = true) →
  let s' := arm_timer s now in
  (disk s' = disk s ∧ store (inner s') = store (inner s)) ∧
  (running (inner s) = false → timer (inner s') = NoTimer) ∧
  (running (inner s) = true → ∃ d, timer (inner s') = Sleeping d ∧
     (0 <= d <= max_sleep_ms (inner s))%Z ∧
     (∀ t, t ∈ next_runs (svc_jobs s) → (now + d <= Z.max t now)%Z) ∧
     (d < max_sleep_ms (inner s) → ∃ t, t ∈ next_runs (svc_jobs s) ∧ (t <= now + d))%Z).
Proof.
  intros Hmax Hfit. cbn zeta. split; [by rewrite arm_timer_disk, arm_timer_store|].
  unfold arm_timer. simpl. split; [by intros ->|]. intros ->. simpl.
  pose proof (next_wake_min (set_timer s NoTimer)) as Hmin.
  destruct (next_wake_ms (set_timer s NoTimer)) as [t|]; (eexists; split; [done|]).
  - change (svc_jobs (set_timer s NoTimer)) with (svc_jobs s) in Hmin.
    destruct Hmin as [Hin Hle]. rewrite wrap_i64_id by auto. split; [lia|]. split.
    + intros u Hu. specialize (Hle u Hu). lia.
    + intros Hlt. exists t. split; [done|]. lia.
  - change (svc_jobs (set_timer s NoTimer)) with (svc_jobs s) in Hmin.
    rewrite Hmin. split; [lia|]. split; [|lia]. intros u Hu. by apply not_elem_of_nil in Hu.
Qed.

Definition demo_svc (js : list CronJob) : Svc :=
  mkSvc (mkInner (Some (mkStore 1 js)) true false 300000%Z NoTimer) (mkDisk Absent [] None).

Example arm_timer_bound_witness :
  ∃ d, timer (inner (arm_timer (demo_svc [demo_job "a" (Some 900%Z)]) 400%Z)) = Sleeping d ∧
       (0 <= d <= 300000)%Z.
Proof.
  destruct (arm_timer_bound (demo_svc [demo_job "a" (Some 900%Z)]) 400) as (_ & _ & H).
  - simpl. lia.
  - intros t Ht. cbn in Ht. apply list_elem_of_singleton in Ht as ->. by vm_compute.
  - destruct (H eq_refl) as (d & Hd & Hb & _). by exists d.
Defined.

(** ** Listing *)

Lemma insert_by_key_perm j l : insert_by_key j l ≡ₚ j :: l.
Proof.
  induction l as [|x l IH]; simpl; [done|]. case_match; [done|]. rewrite IH. apply Permutation_swap.
Qed.

Definition by_key (x y : CronJob) : Prop := (list_key x <= list_key y)%Z.

Lemma insert_by_key_sorted j l : Sorted by_key l → Sorted by_key (insert_by_key j l).
Proof.
  unfold by_key. induction l as [|x l IH]; simpl; intros Hs; [by repeat constructor|].
  destruct (list_key j <? list_key x)%Z eqn:Hlt; bool_to_prop.
  - constructor; [done|]. constructor. lia.
  - apply Sorted_inv in Hs as [Hs Hhd]. constructor; [by apply IH|].
    destruct l as [|y l]; simpl; [by constructor|]. case_match; constructor; [lia|].
    by inversion Hhd.
Qed.

Lemma sort_by_key_acc l acc :
  Sorted by_key acc →
  Sorted by_key (fold_left (λ acc j, insert_by_key j acc) l acc) ∧
  fold_left (λ acc j, insert_by_key j acc) l acc ≡ₚ l ++ acc.
Proof.
  revert acc. induction l as [|j l IH]; intros acc Hs; simpl; [done|].
  destruct (IH (insert_by_key j acc)) as [H1 H2]; [by apply insert_by_key_sorted|].
  split; [done|]. rewrite H2, insert_by_key_perm. symmetry. apply Permutation_middle.
Qed.

Lemma jobs_perm js : NoDup (job_id <$> js) → js ≡ₚ (map_to_list (jobs_by_id js)).*2.
Proof.
  intros Hnd. apply NoDup_Permutation.
  - by eapply NoDup_fmap_1.
  - rewrite <-(list_fmap_id ((map_to_list (jobs_by_id js)).*2)).
    apply (NoDup_fmap_1 job_id). rewrite <-!list_fmap_compose.
    erewrite list_fmap_ext; [apply NoDup_fst_map_to_list|].
    intros i [k j] Hi%list_elem_of_lookup_2%elem_of_map_to_list. simpl.
    by apply (jobs_by_id_keyed js).
  - intros j. rewrite list_elem_of_fmap. split.
    + intros Hj. exists (job_id j, j). split; [done|]. apply elem_of_map_to_list.
      by apply jobs_by_id_NoDup.
    + intros ([k x] & -> & Hx%elem_of_map_to_list). by eapply jobs_by_id_elem.
Qed.

(** [list_jobs] returns every job the files denote exactly once (the enabled
    ones unless disabled ones are asked for), ordered by next run with the jobs
    without one last, and leaves what the files denote unchanged. *)
Theorem list_jobs_sorted (E : CronEnv) (s : Svc) (m : gmap string CronJob) (all : bool) :
  CronEnvLaws E → timer_active (inner s) = false → denotes (disk s) m →
  let '(s', l) := list_jobs E s all in
  Sorted by_key l ∧
  l ≡ₚ retain (λ j, all || enabled j) (map_to_list m).*2 ∧
  denotes (disk s') m.
Proof.
  intros HE Hact Hd. destruct (load_store_ready E s m Hact Hd) as [st (Hl & Hnd & Hd')].
  unfold list_jobs. rewrite (svc_jobs_loaded _ _ _ _ Hl). unfold sort_by_key.
  destruct (sort_by_key_acc (retain (λ j, all || enabled j) (jobs st)) []) as [H1 H2]; [constructor|].
  split_and!; [done| |done]. rewrite H2, app_nil_r. apply retain_perm.
  by rewrite <-(ld_jobs _ _ _ _ Hl), <-jobs_perm.
Qed.

(** A service over a store file holding the given jobs. *)
Definition stored_svc (is_running : bool) (js : list CronJob) : Svc :=
  mkSvc (fresh_inner is_running) (mkDisk (Parsed (store_to_json (mkStore 1 js))) [] None).

Lemma stored_denotes b js :
  Forall (λ j, wf_job j = true) js → NoDup (job_id <$> js) →
  denotes (disk (stored_svc b js)) (jobs_by_id js).
Proof.
  intros Hwf Hnd. split.
  - apply (disk_view_saved (mkStore 1 js)); simpl; [done|unfold u32_max; lia|constructor].
  - intros js' v. simpl. rewrite load_saved; simpl; [|done|unfold u32_max; lia]. by intros [= <- <-].
Qed.

Definition demo_jobs : list CronJob :=
  [demo_job "a" None; demo_job "b" (Some 9%Z); demo_job "c" (Some 4%Z)].

Lemma demo_jobs_ok : Forall (λ j, wf_job j = true) demo_jobs ∧ NoDup (job_id <$> demo_jobs).
Proof. split; [by repeat constructor|]. apply (bool_decide_unpack _). by vm_compute. Qed.

Example list_jobs_sorted_witness :
  (job_id <$> (list_jobs minute_env (stored_svc false demo_jobs) false).2) = ["c"; "b"; "a"] ∧
  Sorted by_key (list_jobs minute_env (stored_svc false demo_jobs) false).2.
Proof.
  split; [by vm_compute|].
  pose proof (list_jobs_sorted minute_env (stored_svc false demo_jobs) (jobs_by_id demo_jobs) false
    minute_env_laws eq_refl) as H.
  destruct (list_jobs minute_env (stored_svc false demo_jobs) false) as [s' l].
  apply H, stored_denotes; apply demo_jobs_ok.
Defined.

(** ** One tick *)

Section Tick.
Context (E : CronEnv).
Variables (handler : option handler_t) (clk : CronJob → Z * Z * Z).

(** The job after its execution, with the clock readings made for it. *)
Definition executed (j : CronJob) : CronJob :=
  let '(t1, t2, t3) := clk j in execute_job E handler t1 t2 t3 j.

Definition one_shot (j : CronJob) : bool :=
  bool_decide (sch_kind (schedule j) = At) && delete_after_run j.

(** The tick as the timer task runs it when no other operation intervenes. *)
Definition tick_step (s : Svc) (j : CronJob) : Svc :=
  let '(t1, t2, t3) := clk j in tick_job E s handler t1 t2 t3.

Definition run_tick (s : Svc) (now later : Z) : Svc :=
  let s := tick_begin E s now in
  match timer (inner s) with
  | Ticking due => tick_end (fold_left tick_step due s) later
  | _ => s
  end.

(** What a tick means for one job of the map. *)
Definition tick_effect (now : Z) (j : CronJob) : option CronJob :=
  if is_due now j then if one_shot j then None else Some (executed j) else Some j.

Lemma execute_job_keeps t1 t2 t3 j :
  let j' := execute_job E handler t1 t2 t3 j in
  job_id j' = job_id j ∧ schedule j' = schedule j ∧ delete_after_run j' = delete_after_run j.
Proof.
  cbn zeta. unfold execute_job. repeat case_match; simplify_eq/=; done.
Qed.

Lemma executed_keeps j : job_id (executed j) = job_id j ∧ one_shot (executed j) = one_shot j.
Proof.
  unfold executed, one_shot. destruct (clk j) as [[t1 t2] t3].
  destruct (execute_job_keeps t1 t2 t3 j) as (-> & -> & ->). done.
Qed.

(** The write-back of an executed job on the map. *)
Definition write_effect (j : CronJob) (o : option CronJob) : option CronJob :=
  match o with None => None | Some _ => if one_shot j then None else Some j end.

Lemma replace_job_spec js j :
  NoDup (job_id <$> js) → wf_job j = true → Forall (λ j, wf_job j = true) js →
  Forall (λ j, wf_job j = true) (replace_job js j) ∧ NoDup (job_id <$> replace_job js j) ∧
  jobs_by_id (replace_job js j) =
    partial_alter (λ o, match o with None => None | Some _ => Some j end) (job_id j) (jobs_by_id js).
Proof.
  intros Hnd Hj Hwf. unfold replace_job. pose proof (position_by_id js (job_id j) Hnd) as Hp.
  destruct (position _ js) as [idx|].
  - destruct Hp as (x & Hidx & Hid & Hm). split_and!.
    + by apply Forall_update.
    + rewrite list_fmap_insert, list_insert_id; [done|]. by rewrite list_lookup_fmap, Hidx, <-Hid.
    + rewrite (jobs_by_id_update _ _ x) by done. unfold insert, map_insert.
      apply partial_alter_ext. intros o. rewrite Hm. by intros <-.
  - split_and!; [done..|]. symmetry. apply partial_alter_id. by rewrite Hp.
Qed.

Lemma write_back_spec s st j :
  store (inner s) = Some st → NoDup (job_id <$> jobs st) → wf_job j = true →
  Forall (λ j, wf_job j = true) (jobs st) →
  ∃ js, write_back s j = set_store s (Some (mkStore (version st) js)) ∧
    Forall (λ j, wf_job j = true) js ∧ NoDup (job_id <$> js) ∧
    jobs_by_id js = partial_alter (write_effect j) (job_id j) (jobs_by_id (jobs st)).
Proof.
  intros Hst Hnd Hj Hwf. unfold write_back, set_jobs, svc_jobs. rewrite Hst.
  destruct (replace_job_spec (jobs st) j Hnd Hj Hwf) as (H1 & H2 & H3).
  eexists. split; [done|]. fold (one_shot j). unfold write_effect. destruct (one_shot j); [|done].
  split_and!; [by apply Forall_retain|by apply NoDup_retain_ids|].
  rewrite jobs_by_id_retain, H3. unfold delete, map_delete.
  rewrite partial_alter_partial_alter_eq. apply partial_alter_ext. by intros [].
Qed.

(** What holds of a running service between two steps of a tick. *)
Record in_tick (s : Svc) (m : gmap string CronJob) (rest : list CronJob) : Prop := {
  it_store : ∃ st, store (inner s) = Some st ∧ jobs_by_id (jobs st) = m ∧
    Forall (λ j, wf_job j = true) (jobs st) ∧ NoDup (job_id <$> jobs st) ∧
    (0 <= version st <= u32_max)%Z;
  it_running : running (inner s) = true;
  it_timer : timer (inner s) = Ticking rest;
  it_log : inert (default [] (action_log (disk s)))
}.

Lemma in_tick_step s m j rest :
  in_tick s m (j :: rest) → wf_job (executed j) = true →
  in_tick (tick_step s j) (partial_alter (write_effect (executed j)) (job_id j) m) rest.
Proof.
  intros [(st & Hst & Hm & Hwf & Hnd & Hv) Hrun Ht Hlog] Hj.
  unfold tick_step, tick_job. rewrite Ht. revert Hj. pose proof (executed_keeps j) as [Hid _].
  revert Hid. unfold executed. destruct (clk j) as [[t1 t2] t3]. intros Hid Hj.
  destruct (write_back_spec s st _ Hst Hnd Hj Hwf) as (js & -> & Hwf' & Hnd' & Hm').
  rewrite <-Hid, <-Hm. split; simpl; [|done..]. eauto 10.
Qed.

Lemma in_tick_fold rest s m :
  in_tick s m rest → Forall (λ j, wf_job (executed j) = true) rest →
  in_tick (fold_left tick_step rest s)
    (fold_left (λ m j, partial_alter (write_effect (executed j)) (job_id j) m) rest m) [].
Proof.
  revert s m. induction rest as [|j rest IH]; intros s m Hin Hwf; simpl; [done|].
  apply Forall_cons in Hwf as [Hj Hwf]. by apply IH; [apply in_tick_step|].
Qed.

Lemma fold_alter_lookup rest (m : gmap string CronJob) id :
  NoDup (job_id <$> rest) →
  fold_left (λ m j, partial_alter (write_effect (executed j)) (job_id j) m) rest m !! id =
  match find_first (has_id id) rest with
  | Some j => write_effect (executed j) (m !! id)
  | None => m !! id
  end.
Proof.
  revert m. induction rest as [|j rest IH]; intros m Hnd; simpl; [done|].
  apply NoDup_cons in Hnd as [Hj Hnd]. rewrite IH by done. unfold has_id at 2.
  destruct (String.eqb (job_id j) id) eqn:Hid; bool_to_prop.
  - subst id. rewrite lookup_partial_alter_eq.
    destruct (find_first (has_id (job_id j)) rest) as [x|] eqn:Hx; [|done].
    apply find_first_Some in Hx as [Hx Hid]. unfold has_id in Hid. bool_to_prop.
    exfalso. apply Hj, list_elem_of_fmap. by exists x.
  - by rewrite lookup_partial_alter_ne.
Qed.

Lemma find_first_due now js id :
  NoDup (job_id <$> js) →
  find_first (has_id id) (retain (is_due now) js) =
  match jobs_by_id js !! id with
  | Some j => if is_due now j then Some j else None
  | None => None
  end.
Proof.
  intros Hnd. rewrite find_first_by_id by (by apply NoDup_retain_ids).
  apply option_eq. intros x. rewrite jobs_by_id_NoDup by (by apply NoDup_retain_ids).
  rewrite retain_elem_of. split.
  - intros [[Hx Hdue] Hid]. assert (jobs_by_id js !! id = Some x) as ->
      by (by apply jobs_by_id_NoDup). by rewrite Hdue.
  - destruct (jobs_by_id js !! id) as [j|] eqn:Hj; [|done].
    apply jobs_by_id_NoDup in Hj as [Hj Hid]; [|done]. destruct (is_due now j) eqn:Hdue; [|done].
    intros [= <-]. done.
Qed.

(** The effect of the whole tick is the pointwise one. *)
Lemma tick_map now js :
  NoDup (job_id <$> js) →
  fold_left (λ m j, partial_alter (write_effect (executed j)) (job_id j) m)
    (retain (is_due now) js) (jobs_by_id js) =
  omap (tick_effect now) (jobs_by_id js).
Proof.
  intros Hnd. apply map_eq. intros id. rewrite fold_alter_lookup by (by apply NoDup_retain_ids).
  rewrite lookup_omap, find_first_due by done. destruct (jobs_by_id js !! id) as [j|]; [|done].
  simpl. unfold tick_effect. destruct (is_due now j); [|done].
  simpl. unfold write_effect. by destruct (executed_keeps j) as [_ ->].
Qed.
End Tick.

(** C18: a tick that no other operation interrupts executes exactly the due jobs of
    the persistent map, each once: a due job becomes its executed self, or goes away
    when it is a one-shot flagged for deletion, every other job is untouched; the
    result is on disk, and the service is running, out of the tick and asleep. *)
Theorem run_tick_spec (E : CronEnv) (handler : option handler_t) (clk : CronJob → Z * Z * Z)
    (s : Svc) (m : gmap string CronJob) (now later : Z) :
  CronEnvLaws E → running (inner s) = true → timer_active (inner s) = false →
  denotes (disk s) m →
  (∀ id j, m !! id = Some j → is_due now j = true → wf_job (executed E handler clk j) = true) →
  let s' := run_tick E handler clk s now later in
  denotes (disk s') (omap (tick_effect E handler clk now) m) ∧
  running (inner s') = true ∧ timer_active (inner s') = false ∧
  ∃ d, timer (inner s') = Sleeping d.
Proof.
  intros HE Hrun Hact Hd Hok. cbn zeta. unfold run_tick, tick_begin. rewrite Hrun.
  destruct (load_store_ready E s m Hact Hd) as [st (Hl & Hnd & Hd')].
  cbn [timer inner set_timer].
  change (svc_jobs (set_timer_active (load_store E s) true)) with (svc_jobs (load_store E s)).
  rewrite (svc_jobs_loaded _ _ _ _ Hl).
  set (due := retain (is_due now) (jobs st)).
  set (s0 := set_timer (set_timer_active (load_store E s) true) (Ticking due)).
  assert (Hin : in_tick s0 (jobs_by_id (jobs st)) due).
  { split; simpl.
    - exists st. split_and!; try done; [apply (ld_store _ _ _ _ Hl)|apply (ld_wf _ _ _ _ Hl)|
        apply (ld_version _ _ _ _ Hl)..].
    - by rewrite (ld_running _ _ _ _ Hl).
    - done.
    - by apply (ld_log _ _ _ _ Hl). }
  assert (Hdue : Forall (λ j, wf_job (executed E handler clk j) = true) due).
  { apply Forall_forall. intros j [Hj Hdue]%retain_elem_of. eapply (Hok (job_id j)); [|done].
    rewrite <-(ld_jobs _ _ _ _ Hl). by apply jobs_by_id_NoDup. }
  destruct (in_tick_fold E handler clk _ _ _ Hin Hdue)
    as [(st' & Hst & Hm & Hwf & Hnd' & Hv) Hrun' Ht Hlog].
  unfold due in Hm at 1. rewrite tick_map, (ld_jobs _ _ _ _ Hl) in Hm by done.
  set (s1 := fold_left (tick_step E handler clk) due s0) in *.
  unfold tick_end. rewrite Ht. unfold save_store. rewrite Hst. split_and!.
  - rewrite arm_timer_disk. rewrite <-Hm. split.
    + simpl. by rewrite disk_view_saved.
    + intros js v. simpl. rewrite load_saved by done. by intros [= <- <-].
  - unfold arm_timer. simpl. by rewrite Hrun'.
  - unfold arm_timer. simpl. by rewrite Hrun'.
  - unfold arm_timer. simpl. rewrite Hrun'. by eexists.
Qed.

Definition demo_clk (j : CronJob) : Z * Z * Z := (100, 130, 130)%Z.

Definition one_shot_job (id : string) (at_time : Z) : CronJob :=
  mkJob id "once" true (mkSchedule At (Some at_time) None None None) default_payload
    (mkJobState (Some at_time) None None None []) 5 5 true.

Definition tick_jobs : list CronJob :=
  [demo_job "a" (Some 90%Z); demo_job "b" (Some 500%Z); one_shot_job "c" 95].

Example run_tick_spec_witness :
  let s' := run_tick minute_env None demo_clk (stored_svc true tick_jobs) 100 130 in
  denotes (disk s')
    (omap (tick_effect minute_env None demo_clk 100) (jobs_by_id tick_jobs)) ∧
  elements (dom (omap (M := gmap string) (tick_effect minute_env None demo_clk 100)
    (jobs_by_id tick_jobs))) = ["a"; "b"].
Proof.
  cbn zeta. split; [|by vm_compute].
  refine (proj1 (run_tick_spec minute_env None demo_clk (stored_svc true tick_jobs)
    (jobs_by_id tick_jobs) 100 130 minute_env_laws eq_refl eq_refl _ _)).
  - apply stored_denotes; [by repeat constructor|]. apply (bool_decide_unpack _). by vm_compute.
  - intros id j Hj%jobs_by_id_elem _. unfold tick_jobs in Hj. rewrite !elem_of_cons in Hj.
    destruct Hj as [->|[->|[->|Hj]]]; [by vm_compute..|]. by apply not_elem_of_nil in Hj.
Defined.

(** ** Behaviours against the comments and documents *)

(** one entry of the store file that does not deserialise as a job makes the
    service start without any job and overwrite the file with an empty list: every
    other job of the file is lost, and no copy is set aside. *)
Theorem bad_job_erases_store (E : CronEnv) (s : Svc) (data : json) (vs : list json) (x : json)
    (now : Z) :
  store_file (disk s) = Parsed data → action_log (disk s) = None →
  timer_active (inner s) = false →
  jget "jobs" data = Some (JArr vs) → x ∈ vs → job_of_json x = None →
  let '(s', ok) := start E s now in
  ok = true ∧ svc_jobs s' = [] ∧ preserved (disk s') = preserved (disk s) ∧
  ∃ v, store_file (disk s') = Parsed (store_to_json (mkStore v [])).
Proof.
  intros Hf Hlog Hact Hjobs Hx Hbad.
  assert (Hnone : mapM job_of_json vs = None).
  { apply mapM_None_2, Exists_exists. eauto. }
  unfold start, load_store, load_jobs_from_disk. simpl. rewrite Hact, Hf, Hjobs. simpl.
  unfold list_of_json. simpl. rewrite Hnone. simpl. unfold merge_action. simpl. rewrite Hlog. simpl.
  split_and!; try done. by eexists.
Qed.

Example bad_job_erases_store_witness :
  let data := JObj [("version", JInt 1);
                    ("jobs", JArr [job_to_json (demo_job "a" None); JObj [("name", JStr "no id")]])] in
  let s := mkSvc (fresh_inner false) (mkDisk (Parsed data) [] None) in
  svc_jobs (start minute_env s 5).1 = [] ∧ preserved (disk (start minute_env s 5).1) = [].
Proof.
  cbn zeta.
  set (data := JObj _). set (s := mkSvc _ _).
  pose proof (bad_job_erases_store minute_env s data
    [job_to_json (demo_job "a" None); JObj [("name", JStr "no id")]]
    (JObj [("name", JStr "no id")]) 5 eq_refl eq_refl eq_refl eq_refl) as H.
  destruct (start minute_env s 5) as [s' ok]. destruct H as (_ & H1 & H2 & _); [|by vm_compute|done].
  right. left.
Defined.

(** an operation that re-arms the timer while a due job's handler is waiting
    (here [add_job]; the others share [arm_timer]) replaces the task that runs the
    tick: the job is not written back, the tick never finishes, [timer_active] stays
    set, and the next tick starts the same job again. *)
Theorem add_job_aborts_tick (E : CronEnv) (s : Svc) (st : CronStore) (j : CronJob)
    (rest : list CronJob) (uuid : string) (sch : CronSchedule) (a : AddArgs) (now now' : Z) :
  timer (inner s) = Ticking (j :: rest) → running (inner s) = true →
  timer_active (inner s) = true → store (inner s) = Some st → j ∈ jobs st →
  is_due now' j = true → validate_schedule_for_add E sch = Ok tt →
  let s' := (add_job E s uuid sch a now).1 in
  timer_active (inner s') = true ∧
  svc_jobs s' = jobs st ++ [new_job E uuid sch a now] ∧
  (∃ d, timer (inner s') = Sleeping d) ∧
  (∀ h t1 t2 t3, tick_job E s' h t1 t2 t3 = s') ∧
  ∃ due, timer (inner (tick_begin E s' now')) = Ticking due ∧ j ∈ due.
Proof.
  intros Ht Hrun Hact Hst Hj Hdue Hval. cbn zeta. unfold add_job. rewrite Hval, Hrun. simpl.
  unfold load_store. rewrite Hact, Hst. simpl.
  unfold set_jobs, svc_jobs. rewrite Hst. simpl. unfold arm_timer. simpl. rewrite Hrun. simpl.
  split_and!; [done..|by eexists|done|].
  unfold tick_begin, load_store. simpl. rewrite Hrun. simpl. rewrite Hact. simpl.
  eexists. split; [done|]. apply retain_elem_of. split; [|done]. cbn.
  apply elem_of_app. by left.
Qed.

Definition ticking_svc : Svc :=
  mkSvc (mkInner (Some (mkStore 1 [demo_job "a" (Some 90%Z)])) true true 300000%Z
           (Ticking [demo_job "a" (Some 90%Z)])) (mkDisk Absent [] None).

Example add_job_aborts_tick_witness :
  ∃ due, timer (inner (tick_begin minute_env
    (add_job minute_env ticking_svc "bb" every_minute no_args 100).1 200)) = Ticking due ∧
    demo_job "a" (Some 90%Z) ∈ due.
Proof.
  pose proof (add_job_aborts_tick minute_env ticking_svc (mkStore 1 [demo_job "a" (Some 90%Z)])
    (demo_job "a" (Some 90%Z)) [] "bb" every_minute no_args 100 200
    eq_refl eq_refl eq_refl eq_refl) as H.
  cbn zeta in H. destruct H as (_ & _ & _ & _ & H); [left|by vm_compute..|]. exact H.
Defined.

(** [run_job] keeps a one-shot job flagged for deletion, still enabled and with
    its next run unchanged, so the timer runs it once more. *)
Theorem run_job_keeps_one_shot (E : CronEnv) (h : option handler_t) (t1 t2 t3 now : Z) (w : bool)
    (s : Svc) (st : CronStore) (j : CronJob) :
  store (inner s) = Some st → j ∈ jobs st → one_shot j = true →
  let j' := execute_job E h t1 t2 t3 j in
  j' ∈ svc_jobs (run_job_finish s j' w now) ∧
  job_id j' = job_id j ∧ enabled j' = enabled j ∧
  next_run_at_ms (job_state j') = next_run_at_ms (job_state j).
Proof.
  intros Hst Hj Hone. cbn zeta. unfold one_shot in Hone. apply andb_true_iff in Hone as [Hat Hdel].
  pose proof (execute_job_keeps E h t1 t2 t3 j) as (Hid & _ & _). split_and!; [|done|..].
  - unfold run_job_finish.
    assert (Hjobs : svc_jobs (if w then arm_timer
        (set_running (save_store (set_jobs s (replace_job (svc_jobs s) (execute_job E h t1 t2 t3 j)))) w) now
      else set_running (save_store (set_jobs s (replace_job (svc_jobs s) (execute_job E h t1 t2 t3 j)))) w)
      = replace_job (jobs st) (execute_job E h t1 t2 t3 j)).
    { unfold set_jobs, svc_jobs. rewrite Hst. by destruct w. }
    rewrite Hjobs. unfold replace_job.
    destruct (position (has_id (job_id (execute_job E h t1 t2 t3 j))) (jobs st)) as [idx|] eqn:Hp.
    + eapply list_elem_of_lookup_2, list_lookup_insert_eq. by apply position_lt in Hp.
    + rewrite position_None in Hp. specialize (Hp j Hj). unfold has_id in Hp. bool_to_prop. congruence.
  - unfold execute_job. repeat case_match; simplify_eq/=; congruence.
  - unfold execute_job. repeat case_match; simplify_eq/=; congruence.
Qed.

Example run_job_keeps_one_shot_witness :
  let j := one_shot_job "c" 95 in
  let s := demo_svc [j] in
  let j' := execute_job minute_env None 50 60 60 j in
  (run_job_begin minute_env (set_timer_active s true) "c" false).2 = Some (j, true) ∧
  j' ∈ svc_jobs (run_job_finish s j' true 60) ∧
  is_due 95 j' = true.
Proof.
  cbn zeta. split_and!; [by vm_compute| |by vm_compute].
  apply (run_job_keeps_one_shot minute_env None 50 60 60 60 true (demo_svc [one_shot_job "c" 95])
    (mkStore 1 [one_shot_job "c" 95]) (one_shot_job "c" 95)); [done|left|by vm_compute].
Defined.

(** a five-field cron expression, the form the documents use, can be neither
    added nor set by an update, although the scheduler would normalise and accept it:
    validation hands the raw text to a parser that wants six or seven fields. *)
Theorem five_fields_refused (E : CronEnv) (s : Svc) (uuid : string) (sch : CronSchedule) (e : string)
    (a : AddArgs) (now : Z) :
  (∀ x, cron_parse E x ≠ None → 6 ≤ length (split_whitespace x) ≤ 7) →
  sch_kind sch = Cron → sch_tz sch = None → sch_expr sch = Some e →
  length (split_whitespace e) = 5 →
  add_job E s uuid sch a now = (s, Err (BadCronExpr e)) ∧
  ∀ id o now' j, o_schedule o = Some sch → (update_job E s id o now').2 ≠ Updated j.
Proof.
  intros Hlaw Hk Htz He H5.
  assert (Hnone : cron_parse E e = None).
  { destruct (cron_parse E e) eqn:Hp; [|done]. specialize (Hlaw e). rewrite Hp in Hlaw.
    destruct Hlaw; [done|]. lia. }
  assert (Hval : validate_schedule_for_add E sch = Err (BadCronExpr e)).
  { unfold validate_schedule_for_add. by rewrite Hk, Htz, He, Hnone. }
  split; [unfold add_job; by rewrite Hval|].
  intros id o now' j Ho. unfold update_job. rewrite Ho. simpl. rewrite Hval.
  repeat case_match; simpl; done.
Qed.

Lemma minute_env_fields x :
  cron_parse minute_env x ≠ None → 6 ≤ length (split_whitespace x) ≤ 7.
Proof.
  unfold minute_env. cbn [cron_parse]. case_match eqn:Hb; [|done]. intros _. by bool_to_prop.
Qed.

Example five_fields_refused_witness :
  (add_job minute_env (demo_svc []) "aa" (cron_schedule "0 9 * * *") no_args 61500).2 =
    Err (BadCronExpr "0 9 * * *") ∧
  compute_next_run minute_env (cron_schedule "0 9 * * *") 61500 = Some 120000%Z.
Proof.
  split; [|by vm_compute].
  rewrite (proj1 (five_fields_refused minute_env (demo_svc []) "aa" (cron_schedule "0 9 * * *")
    "0 9 * * *" no_args 61500 minute_env_fields
    eq_refl eq_refl eq_refl eq_refl)).
  done.
Defined.
