(* ===== verification/DagCheck.v ===== *)
(** * Cycle detection of workflow graphs

    [detect_cycle] of [crates/hiveweb/src/services/workflow.rs]: an iterative
    depth-first search with three colours.  The order in which the [HashMap] yields
    its keys is an argument. *)

From stdpp Require Import relations.
From S2P Require Import Prelude.

Local Open Scope stdpp_scope.
Local Open Scope hive_scope.

Abbreviation graph := (gmap string (list string)).

Inductive Color := White | Gray | Black.

#[export] Instance color_eq_dec : EqDecision Color.
Proof. solve_decision. Defined.

(** [color.get(next).copied().unwrap_or(White)]. *)
Definition color_of (color : gmap string Color) (k : string) : Color := default White (color !! k).

(** What the loop over the successors of the top of the stack finds first. *)
Inductive found :=
| FoundWhite (next : string)
| FoundGray (next : string)
| AllBlack.

Fixpoint scan_succs (color : gmap string Color) (succs : list string) : found :=
  match succs with
  | [] => AllBlack
  | next :: succs =>
      match color_of color next with
      | White => FoundWhite next
      | Gray => FoundGray next
      | Black => scan_succs color succs
      end
  end.

(** [skip_while(|p| p != next)]. *)
Fixpoint skip_until (next : string) (path : list string) : list string :=
  match path with
  | [] => []
  | p :: path' => if String.eqb p next then path else skip_until next path'
  end.

(** The [while let] loop for one start; the stack has its top first.  It ends with a
    cycle or with the stack empty. *)
Fixpoint dfs_loop (fuel : nat) (adj : graph) (color : gmap string Color)
    (stack : list (string * list string)) : run (list string + gmap string Color) :=
  match stack with
  | [] => Returns (inr color)
  | (node, path) :: below =>
      match fuel with
      | 0 => OutOfFuel
      | S fuel =>
          match adj !! node with
          | None => dfs_loop fuel adj (<[node := Black]> color) below
          | Some succs =>
              match scan_succs color succs with
              | FoundWhite next =>
                  dfs_loop fuel adj (<[next := Gray]> color) ((next, path ++ [next]) :: stack)
              | FoundGray next => Returns (inl (skip_until next path ++ [next]))
              | AllBlack => dfs_loop fuel adj (<[node := Black]> color) below
              end
          end
      end
  end.

Fixpoint dfs_starts (fuel : nat) (adj : graph) (color : gmap string Color) (starts : list string)
    : run (option (list string)) :=
  match starts with
  | [] => Returns None
  | start :: starts =>
      if bool_decide (color_of color start = White) then
        let! r := dfs_loop fuel adj (<[start := Gray]> color) [(start, [start])] in
        match r with
        | inl cycle => Returns (Some cycle)
        | inr color => dfs_starts fuel adj color starts
        end
      else dfs_starts fuel adj color starts
  end.

(** Every node: the keys and whatever they point to. *)
Definition graph_nodes (adj : graph) : gset string :=
  dom adj ∪ list_to_set (concat (map_to_list adj).*2).

(** Every iteration blackens a node or turns a white one gray, so twice the number of
    nodes is enough fuel. *)
Definition detect_cycle (keys : list string) (adj : graph) : run (option (list string)) :=
  dfs_starts (2 * size (graph_nodes adj)) adj ((λ _, White) <$> adj) keys.

(** ** Specification *)

Definition edge (adj : graph) (u v : string) : Prop :=
  ∃ succs, adj !! u = Some succs ∧ v ∈ succs.

Definition acyclic (adj : graph) : Prop := ∀ v, ¬ tc (edge adj) v v.

(** Consecutive nodes of a walk are joined by edges. *)
Fixpoint walk (adj : graph) (l : list string) : Prop :=
  match l with
  | u :: ((v :: _) as l') => edge adj u v ∧ walk adj l'
  | _ => True
  end.

(** A closed walk of at least one edge. *)
Definition is_cycle (adj : graph) (c : list string) : Prop :=
  2 ≤ length c ∧ walk adj c ∧ head c = last c.

(** ** Walks *)

Lemma walk_app adj l1 u l2 : walk adj (l1 ++ [u]) → walk adj (u :: l2) → walk adj (l1 ++ u :: l2).
Proof.
  induction l1 as [|x l1 IH]; [done|]. destruct l1 as [|y l1]; simpl in *.
  - intros [He _] Hw. by split.
  - intros [He Hw] Hw2. split; [done|]. by apply IH.
Qed.

Lemma walk_snoc adj l u v : walk adj (l ++ [u]) → edge adj u v → walk adj ((l ++ [u]) ++ [v]).
Proof. intros Hw He. rewrite <-app_assoc. simpl. by apply walk_app. Qed.

Lemma walk_suffix adj l1 l2 : walk adj (l1 ++ l2) → walk adj l2.
Proof.
  induction l1 as [|x l1 IH]; [done|]. simpl. destruct (l1 ++ l2) eqn:He.
  - apply app_nil in He as [-> ->]. done.
  - intros [_ Hw]. by apply IH.
Qed.

Lemma skip_until_spec next path :
  next ∈ path → ∃ pre post, path = pre ++ next :: post ∧ skip_until next path = next :: post.
Proof.
  induction path as [|p path IH]; intros Hin; [by apply not_elem_of_nil in Hin|]. simpl.
  destruct (String.eqb p next) eqn:He; bool_to_prop; [subst; by exists [], path|].
  apply elem_of_cons in Hin as [->|Hin]; [done|].
  destruct (IH Hin) as (pre & post & -> & ->). by exists (p :: pre), post.
Qed.

Lemma cycle_of_path adj l u next :
  walk adj (l ++ [u]) → edge adj u next → next ∈ l ++ [u] →
  is_cycle adj (skip_until next (l ++ [u]) ++ [next]).
Proof.
  intros Hw He Hin. destruct (skip_until_spec _ _ Hin) as (pre & post & Hp & ->).
  assert (Hwalk : walk adj ((next :: post) ++ [next])).
  { pose proof (walk_snoc _ _ _ _ Hw He) as Hw'. rewrite Hp, <-app_assoc in Hw'.
    by apply walk_suffix in Hw'. }
  split; [rewrite length_app; simpl; lia|]. split; [done|].
  by rewrite last_snoc.
Qed.

Lemma cycle_tc adj c : is_cycle adj c → ∃ v, tc (edge adj) v v.
Proof.
  intros (Hlen & Hw & Hends).
  assert (Htc : ∀ l u, walk adj (u :: l) → l ≠ [] → ∀ v, last l = Some v → tc (edge adj) u v).
  { clear. induction l as [|x l IH]; intros u Hw Hne v Hl; [done|].
    destruct Hw as [He Hw]. destruct l as [|y l].
    - simpl in Hl. simplify_eq. by apply tc_once.
    - eapply tc_l; [done|]. by apply IH. }
  destruct c as [|u [|x c]]; simpl in Hlen; [lia..|]. exists u.
  apply (Htc (x :: c)); [done|done|]. by rewrite last_cons_cons in Hends.
Qed.

(** ** The search invariant *)

(** Each stack entry extends the path of the one below by an edge. *)
Inductive stack_ok (adj : graph) : list (string * list string) → Prop :=
| stack_nil : stack_ok adj []
| stack_start s : stack_ok adj [(s, [s])]
| stack_push u v p below :
    stack_ok adj ((u, p) :: below) → edge adj u v →
    stack_ok adj ((v, p ++ [v]) :: (u, p) :: below).

Lemma stack_ok_path adj node path below :
  stack_ok adj ((node, path) :: below) →
  ∃ l, path = l ++ [node] ∧ walk adj (l ++ [node]) ∧
       ∀ k, k ∈ path ↔ k ∈ ((node, path) :: below).*1.
Proof.
  remember ((node, path) :: below) as st eqn:Hst. intros H. revert node path below Hst.
  induction H as [|s|u v p below' H IH He]; intros node path below Hst; simplify_eq.
  - by exists [].
  - destruct (IH u p below' eq_refl) as (l & -> & Hw & Hk).
    exists (l ++ [u]). split_and!; [done|by apply walk_snoc|].
    intros k. rewrite elem_of_app, list_elem_of_singleton, Hk.
    cbn. rewrite !elem_of_cons. tauto.
Qed.

Lemma stack_ok_pop adj e below : stack_ok adj (e :: below) → stack_ok adj below.
Proof. inversion 1; [constructor|done]. Qed.

Record search_inv (adj : graph) (color : gmap string Color) (stack : list (string * list string))
    : Prop := {
  si_stack : stack_ok adj stack;
  si_nodup : NoDup stack.*1;
  si_gray : ∀ k, color_of color k = Gray ↔ k ∈ stack.*1;
  si_closed : ∀ u v, color_of color u = Black → edge adj u v → color_of color v = Black;
  si_acyclic : ∀ u, color_of color u = Black → ¬ tc (edge adj) u u
}.

Lemma color_insert color k c k' :
  color_of (<[k := c]> color) k' = if decide (k = k') then c else color_of color k'.
Proof.
  unfold color_of. destruct (decide (k = k')) as [->|Hne];
    [by rewrite lookup_insert_eq|by rewrite lookup_insert_ne].
Qed.

Lemma black_reach adj color stack u v :
  search_inv adj color stack → color_of color u = Black → tc (edge adj) u v →
  color_of color v = Black.
Proof.
  intros Hinv Hu Htc. induction Htc as [u v He|u w v He _ IH].
  - by eapply si_closed.
  - apply IH. by eapply si_closed.
Qed.

(** Popping a node all of whose successors are black. *)
Lemma search_inv_pop adj color node path below :
  search_inv adj color ((node, path) :: below) →
  (∀ v, edge adj node v → color_of color v = Black) →
  search_inv adj (<[node := Black]> color) below.
Proof.
  intros Hinv Hsucc. pose proof Hinv as [Hst Hnd Hgray Hcl Hac].
  cbn in Hnd. apply NoDup_cons in Hnd as [Hnode Hnd].
  assert (Hng : color_of color node = Gray) by (apply Hgray; left).
  split.
  - by eapply stack_ok_pop.
  - done.
  - intros k. rewrite color_insert. case_decide as Hk.
    + subst. by split.
    + rewrite Hgray. cbn. rewrite elem_of_cons. naive_solver.
  - intros u v. rewrite !color_insert. intros Hu He.
    destruct (decide (node = v)); [done|].
    destruct (decide (node = u)); [subst; by apply Hsucc|by eapply Hcl].
  - intros u. rewrite color_insert. case_decide as Hk; [|apply Hac]. subst u. intros _ Htc.
    assert (Hb : color_of color node = Black); [|congruence].
    inversion Htc as [? ? He|? w ? He Htc']; subst; [by apply Hsucc|].
    eapply black_reach; [done| |exact Htc']. by apply Hsucc.
Qed.

Lemma search_inv_push adj color node path below next :
  search_inv adj color ((node, path) :: below) →
  edge adj node next → color_of color next = White →
  search_inv adj (<[next := Gray]> color) ((next, path ++ [next]) :: (node, path) :: below).
Proof.
  intros [Hst Hnd Hgray Hcl Hac] He Hw.
  assert (Hnew : next ∉ ((node, path) :: below).*1) by (rewrite <-Hgray; congruence).
  split.
  - by constructor.
  - by apply NoDup_cons.
  - intros k. rewrite color_insert. change (((next, path ++ [next]) :: (node, path) :: below).*1)
      with (next :: ((node, path) :: below).*1). rewrite elem_of_cons.
    case_decide as Hk; [split; auto|]. rewrite Hgray.
    split; [auto|]. by intros [?|?].
  - intros u v. rewrite !color_insert. intros Hu Hev.
    destruct (decide (next = u)); [done|].
    pose proof (Hcl u v Hu Hev). destruct (decide (next = v)); [congruence|done].
  - intros u. rewrite color_insert. case_decide; [done|]. apply Hac.
Qed.

Lemma search_inv_start adj color start :
  search_inv adj color [] → color_of color start = White →
  search_inv adj (<[start := Gray]> color) [(start, [start])].
Proof.
  intros [Hst Hnd Hgray Hcl Hac] Hw. split.
  - constructor.
  - apply NoDup_singleton.
  - intros k. rewrite color_insert. cbn. rewrite list_elem_of_singleton.
    case_decide as Hk; [split; auto|]. rewrite Hgray. cbn.
    split; [by intros ?%not_elem_of_nil|congruence].
  - intros u v. rewrite !color_insert. intros Hu Hev.
    destruct (decide (start = u)); [done|].
    pose proof (Hcl u v Hu Hev). destruct (decide (start = v)); [congruence|done].
  - intros u. rewrite color_insert. case_decide; [done|]. apply Hac.
Qed.

Lemma scan_succs_spec color succs :
  match scan_succs color succs with
  | FoundWhite n => n ∈ succs ∧ color_of color n = White
  | FoundGray n => n ∈ succs ∧ color_of color n = Gray
  | AllBlack => ∀ v, v ∈ succs → color_of color v = Black
  end.
Proof.
  induction succs as [|n succs IH]; simpl; [by intros v ?%not_elem_of_nil|].
  destruct (color_of color n) eqn:Hc; [split; [left|done]..|].
  destruct (scan_succs color succs) as [m|m|].
  - destruct IH. split; [by right|done].
  - destruct IH. split; [by right|done].
  - intros v [->|Hv]%elem_of_cons; [done|by apply IH].
Qed.

(** ** Termination and correctness *)

Definition white_nodes (adj : graph) (color : gmap string Color) : gset string :=
  filter (λ k, color_of color k = White) (graph_nodes adj).

(** An upper bound on the iterations left. *)
Definition work (adj : graph) (color : gmap string Color) (stack : list (string * list string))
    : nat :=
  2 * size (white_nodes adj color) + length stack.

Lemma edge_node adj u v : edge adj u v → v ∈ graph_nodes adj.
Proof.
  intros (succs & Hu & Hv). unfold graph_nodes. apply elem_of_union_r, elem_of_list_to_set.
  rewrite list_elem_of_In, in_concat. exists succs. rewrite <-!list_elem_of_In. split; [|done].
  apply list_elem_of_fmap. exists (u, succs). split; [done|]. by apply elem_of_map_to_list.
Qed.

Lemma white_gray adj color k :
  k ∈ graph_nodes adj → color_of color k = White →
  S (size (white_nodes adj (<[k := Gray]> color))) = size (white_nodes adj color).
Proof.
  intros Hk Hw.
  assert (Heq : white_nodes adj color = {[k]} ∪ white_nodes adj (<[k := Gray]> color)).
  { apply set_eq. intros x. unfold white_nodes.
    rewrite elem_of_union, elem_of_singleton, !elem_of_filter, color_insert.
    destruct (decide (k = x)) as [->|Hne]; intuition congruence. }
  rewrite Heq, size_union, size_singleton; [lia|].
  unfold white_nodes. intros x ->%elem_of_singleton. rewrite elem_of_filter, color_insert.
  rewrite decide_True by done. by intros [? _].
Qed.

Lemma white_black adj color k :
  color_of color k = Gray → white_nodes adj (<[k := Black]> color) = white_nodes adj color.
Proof.
  intros Hk. apply set_eq. intros x. unfold white_nodes. rewrite !elem_of_filter, color_insert.
  destruct (decide (k = x)) as [->|Hne]; intuition congruence.
Qed.

(** The nodes some step has reached stay reached. *)
Definition keeps_reached (color color' : gmap string Color) : Prop :=
  ∀ k, color_of color k ≠ White → color_of color' k ≠ White.

Lemma keeps_insert color color' k c :
  c ≠ White → keeps_reached (<[k := c]> color) color' → keeps_reached color color'.
Proof.
  intros Hc H x Hx. apply H. rewrite color_insert. by destruct (decide (k = x)).
Qed.

Lemma dfs_loop_spec fuel adj color stack :
  search_inv adj color stack → work adj color stack ≤ fuel →
  ∃ r, dfs_loop fuel adj color stack = Returns r ∧
    match r with
    | inl c => is_cycle adj c
    | inr color' => search_inv adj color' [] ∧ keeps_reached color color'
    end.
Proof.
  revert color stack. induction fuel as [|fuel IH]; intros color [|[node path] below] Hinv Hwork;
    cbn [dfs_loop]; try (by exists (inr color); split; [|split; [|intros k]]).
  { unfold work in Hwork. cbn [length] in Hwork. lia. }
  assert (Hng : color_of color node = Gray) by (apply (si_gray _ _ _ Hinv); left).
  assert (Hpop : (∀ v, edge adj node v → color_of color v = Black) →
    ∃ r, dfs_loop fuel adj (<[node:=Black]> color) below = Returns r ∧
      match r with
      | inl c => is_cycle adj c
      | inr color' => search_inv adj color' [] ∧ keeps_reached color color'
      end).
  { intros Hs. destruct (IH (<[node:=Black]> color) below) as (r & Hr & Hspec).
    - by eapply search_inv_pop.
    - unfold work in *. cbn [length] in Hwork. rewrite white_black by done. lia.
    - exists r. split; [done|]. destruct r; [done|]. destruct Hspec. split; [done|].
      eapply keeps_insert; [|eassumption]. done. }
  destruct (adj !! node) as [succs|] eqn:Hadj.
  2:{ apply Hpop. intros v (l & Hl & _). congruence. }
  pose proof (scan_succs_spec color succs) as Hscan.
  destruct (scan_succs color succs) as [n|n|].
  - destruct Hscan as [Hin Hw]. assert (He : edge adj node n) by (by exists succs).
    destruct (IH (<[n:=Gray]> color) ((n, path ++ [n]) :: (node, path) :: below)) as (r & Hr & Hspec).
    + by apply search_inv_push.
    + unfold work in *. pose proof (white_gray adj color n (edge_node _ _ _ He) Hw).
      cbn [length] in *. lia.
    + exists r. split; [done|]. destruct r; [done|]. destruct Hspec. split; [done|].
      eapply keeps_insert; [|eassumption]. done.
  - destruct Hscan as [Hin Hg]. eexists. split; [done|].
    destruct (stack_ok_path _ _ _ _ (si_stack _ _ _ Hinv)) as (l & -> & Hw & Hk).
    apply cycle_of_path; [done|by exists succs|]. apply Hk. by apply (si_gray _ _ _ Hinv).
  - apply Hpop. intros v (l & Hl & Hv). simplify_eq. by apply Hscan.
Qed.

Lemma white_nodes_le adj color : size (white_nodes adj color) ≤ size (graph_nodes adj).
Proof. apply subseteq_size. unfold white_nodes. set_solver. Qed.

Lemma no_gray adj color k : search_inv adj color [] → color_of color k ≠ White → color_of color k = Black.
Proof.
  intros Hinv Hk. destruct (color_of color k) eqn:Hc; [done| |done].
  apply (si_gray _ _ _ Hinv) in Hc. by apply not_elem_of_nil in Hc.
Qed.

Lemma dfs_starts_spec fuel adj color starts :
  search_inv adj color [] → 2 * size (graph_nodes adj) ≤ fuel →
  (∀ k, k ∈ starts → k ∈ graph_nodes adj) →
  ∃ r, dfs_starts fuel adj color starts = Returns r ∧
    match r with
    | Some c => is_cycle adj c
    | None => ∀ k, color_of color k = Black ∨ k ∈ starts → ¬ tc (edge adj) k k
    end.
Proof.
  intros Hinv Hfuel. revert color Hinv. induction starts as [|start starts IH];
    intros color Hinv Hstarts; simpl.
  { exists None. split; [done|]. intros k [Hk|Hk]; [by apply (si_acyclic _ _ _ Hinv)|].
    by apply not_elem_of_nil in Hk. }
  assert (Hin : start ∈ graph_nodes adj) by (apply Hstarts; left).
  assert (Hrest : ∀ k, k ∈ starts → k ∈ graph_nodes adj) by (intros; apply Hstarts; by right).
  destruct (bool_decide (color_of color start = White)) eqn:Hw; bool_to_prop.
  - destruct (dfs_loop_spec fuel adj (<[start:=Gray]> color) [(start, [start])])
      as (r & -> & Hspec).
    + by apply search_inv_start.
    + unfold work. pose proof (white_gray adj color start Hin Hw).
      pose proof (white_nodes_le adj color). cbn [length]. lia.
    + simpl. destruct r as [c|color']; [by eexists|]. destruct Hspec as [Hinv' Hkeep].
      destruct (IH color' Hinv' Hrest) as (r & -> & Hr). exists r. split; [done|].
      destruct r; [done|]. intros k Hk. apply Hr.
      assert (Hcol : color_of color k = Black ∨ k = start → color_of color' k = Black).
      { intros Hc. apply (no_gray adj); [done|]. apply Hkeep. rewrite color_insert.
        destruct (decide (start = k)); [done|]. naive_solver congruence. }
      destruct Hk as [Hk|[->|Hk]%elem_of_cons]; auto.
  - destruct (IH color Hinv Hrest) as (r & -> & Hr). exists r. split; [done|].
    destruct r; [done|]. intros k Hk. apply Hr.
    destruct Hk as [Hk|[->|Hk]%elem_of_cons]; auto. left. by eapply no_gray.
Qed.

Lemma detect_cycle_spec keys adj :
  (∀ k, k ∈ keys ↔ k ∈ dom adj) →
  ∃ r, detect_cycle keys adj = Returns r ∧
    match r with
    | Some c => is_cycle adj c
    | None => acyclic adj
    end.
Proof.
  intros Hkeys. unfold detect_cycle.
  assert (Hwhite : ∀ k, color_of ((λ _, White) <$> adj) k = White).
  { intros k. unfold color_of. rewrite lookup_fmap. by destruct (adj !! k). }
  destruct (dfs_starts_spec (2 * size (graph_nodes adj)) adj ((λ _, White) <$> adj) keys)
    as (r & Hr & Hspec).
  - split.
    + constructor.
    + constructor.
    + intros k. rewrite Hwhite. cbn. split; [done|]. by intros ?%not_elem_of_nil.
    + intros u v. by rewrite Hwhite.
    + intros u. by rewrite Hwhite.
  - done.
  - intros k Hk%Hkeys. unfold graph_nodes. set_solver.
  - exists r. split; [done|]. destruct r; [done|]. intros v Hv.
    apply (Hspec v); [|done]. right. apply Hkeys.
    assert (He : ∃ w, edge adj v w) by (inversion Hv; eauto).
    destruct He as (w & succs & Hl & _). by apply elem_of_dom_2 in Hl.
Qed.

(** C12: the depth-first search always returns (the fuel is enough for every graph and
    every iteration order of the keys) and decides acyclicity: an answer without a
    cycle means the graph has none, and a returned list is a closed walk of the
    graph. *)
Theorem detect_cycle_correct (keys : list string) (adj : graph) :
  (∀ k, k ∈ keys ↔ k ∈ dom adj) →
  (detect_cycle keys adj = Returns None ↔ acyclic adj) ∧
  (∀ c, detect_cycle keys adj = Returns (Some c) → is_cycle adj c) ∧
  detect_cycle keys adj ≠ OutOfFuel ∧ detect_cycle keys adj ≠ Panics.
Proof.
  intros Hkeys. destruct (detect_cycle_spec keys adj Hkeys) as (r & -> & Hspec).
  split_and!; try done.
  - destruct r as [c|]; [|done]. split; [done|]. intros Hac.
    destruct (cycle_tc _ _ Hspec) as [v Hv]. by destruct (Hac v).
  - intros c [= ->]. done.
Qed.

Definition demo_graph : graph :=
  {["A" := ["B"; "C"]; "B" := ["D"]; "C" := ["D"]; "D" := []]}.

Example detect_cycle_correct_witness :
  detect_cycle ["C"; "A"; "D"; "B"] demo_graph = Returns None ∧ acyclic demo_graph.
Proof.
  split; [by vm_compute|].
  apply (detect_cycle_correct ["C"; "A"; "D"; "B"] demo_graph); [|by vm_compute].
  intros k. unfold demo_graph. rewrite !dom_insert, dom_singleton. set_solver.
Defined.
