(* ===== verification/InputSpec.v ===== *)
(** * Input sources of workflow nodes

    [crates/hiveweb/src/runtime/input_source.rs]: the structured description of where
    each input field of a node comes from, its JSON form and its validation. *)

From S2P Require Import Prelude RustStr Json CronTypes.

Local Open Scope stdpp_scope.
Local Open Scope hive_scope.

Inductive AgentContextCategory := UserInput | Entities | ToolResults | StateChanges | Extensions.

#[export] Instance category_eq_dec : EqDecision AgentContextCategory.
Proof. solve_decision. Defined.

Definition USER_INPUT_FIELDS : list string :=
  ["raw_text"; "session_id"; "message_id"; "timestamp"; "metadata"].

Inductive InputSource :=
| Upstream (node_key : string) (field : option string)
| Custom (value : json)
| AgentContext (category : AgentContextCategory) (key : string) (sub_key : option string).

(** A [BTreeMap]: an association list in the byte order of its keys. *)
Abbreviation InputSpec := (list (string * InputSource)).

Fixpoint btree_insert {A} (k : string) (v : A) (m : list (string * A)) : list (string * A) :=
  match m with
  | [] => [(k, v)]
  | (k', v') :: m' =>
      match String.compare k k' with
      | Lt => (k, v) :: m
      | Eq => (k, v) :: m'
      | Gt => (k', v') :: btree_insert k v m'
      end
  end.

Definition RESERVED_INPUT_KEYS : list string := ["_agent_context"; "_agent_context_updates"].

(** ** JSON form *)

Definition category_of_json (v : json) : option AgentContextCategory :=
  variant_name v ≫= λ s,
    if String.eqb s "user_input" then Some UserInput
    else if String.eqb s "entities" then Some Entities
    else if String.eqb s "tool_results" then Some ToolResults
    else if String.eqb s "state_changes" then Some StateChanges
    else if String.eqb s "extensions" then Some Extensions else None.

(** An internally tagged enum: the tag is the [kind] member of an object, or the
    first element of an array followed by the fields in order. *)
Definition tagged (v : json) : option (string * json) :=
  match v with
  | JObj m => (λ k, (k, v)) <$> (map_get "kind" m ≫= as_str)
  | JArr (JStr k :: rest) => Some (k, JArr rest)
  | _ => None
  end.

Definition source_of_json (v : json) : option InputSource :=
  '(kind, body) ← tagged v;
  if String.eqb kind "upstream" then
    m ← struct_fields ["node_key"; "field"] body;
    node_key ← req_field as_str "node_key" m;
    field ← opt_field as_str "field" m;
    Some (Upstream node_key field)
  else if String.eqb kind "custom" then
    m ← struct_fields ["value"] body;
    Custom <$> req_field Some "value" m
  else if String.eqb kind "agent_context" then
    m ← struct_fields ["category"; "key"; "sub_key"] body;
    category ← req_field category_of_json "category" m;
    key ← req_field as_str "key" m;
    sub_key ← opt_field as_str "sub_key" m;
    Some (AgentContext category key sub_key)
  else None.

(** Why a specification is refused; the source formats these as text. *)
Inductive SpecError :=
| NotAnObject
| BadSource (field : string)
| ReservedField (field : string)
| EmptyField
| EmptyNodeKey (field : string)
| EmptyKey (field : string)
| UnknownUserField (field key : string)
| EmptySubKey (field : string)
| SubKeyNotAllowed (field key : string)
| MissingSubKey (field : string).

Fixpoint parse_fields (obj : list (string * json)) (spec : InputSpec) : result InputSpec SpecError :=
  match obj with
  | [] => Ok spec
  | (field, src) :: obj =>
      match source_of_json src with
      | Some parsed => parse_fields obj (btree_insert field parsed spec)
      | None => Err (BadSource field)
      end
  end.

Definition parse_input_spec (value : json) : result InputSpec SpecError :=
  if is_null value then Ok []
  else match as_object value with
       | None => Err NotAnObject
       | Some obj => parse_fields obj []
       end.

(** ** Validation *)

Fixpoint check_field_names (fields : list string) : result unit SpecError :=
  match fields with
  | [] => Ok tt
  | field :: fields =>
      if bool_decide (field ∈ RESERVED_INPUT_KEYS) then Err (ReservedField field)
      else if is_empty field then Err EmptyField
      else check_field_names fields
  end.

(** [category.is_valid()] holds of every category. *)
Definition check_source (field : string) (src : InputSource) : result unit SpecError :=
  match src with
  | Upstream node_key _ => if is_empty node_key then Err (EmptyNodeKey field) else Ok tt
  | Custom _ => Ok tt
  | AgentContext category key sub_key =>
      if is_empty key then Err (EmptyKey field)
      else
        let? _ :=
          if bool_decide (category = UserInput) then
            if negb (bool_decide (key ∈ USER_INPUT_FIELDS)) then Err (UnknownUserField field key)
            else match sub_key with
                 | Some sk =>
                     if is_empty sk then Err (EmptySubKey field)
                     else if negb (String.eqb key "metadata") then Err (SubKeyNotAllowed field key)
                     else Ok tt
                 | None => Ok tt
                 end
          else Ok tt in
        match category, sub_key with
        | Extensions, None => Err (MissingSubKey field)
        | _, _ => Ok tt
        end
  end.

Fixpoint check_sources (spec : InputSpec) : result unit SpecError :=
  match spec with
  | [] => Ok tt
  | (field, src) :: spec => let? _ := check_source field src in check_sources spec
  end.

Definition validate_input_spec (spec : InputSpec) : result unit SpecError :=
  let? _ := check_field_names spec.*1 in check_sources spec.
