(* ===== verification/Workflow.v ===== *)
(** * Workflow graphs

    [crates/hiveweb/src/services/workflow.rs]: creating and deleting workflows, reading
    and replacing the graph of one (validation pipeline, transaction, virtual start and
    end nodes), and the query of the list page.  Tables are lists in the order of their
    auto-incremented identifiers; time stamps are left out. *)

From S2P Require Import Prelude RustStr Json CronTypes DagCheck InputSpec.

Local Open Scope stdpp_scope.
Local Open Scope hive_scope.

(** ** Data *)

Inductive NodeType := FunctionNode | StartNode | EndNode | GenerateAnswerNode.

#[export] Instance node_type_eq_dec : EqDecision NodeType.
Proof. solve_decision. Defined.

Definition node_type_to_db_str (nt : NodeType) : string :=
  match nt with
  | FunctionNode => "function_node"
  | StartNode => "start_node"
  | EndNode => "end_node"
  | GenerateAnswerNode => "generate_answer_node"
  end.

(** [sqlx::Decode for NodeType]. *)
Definition node_type_decode (s : string) : option NodeType :=
  if String.eqb s "function_node" then Some FunctionNode
  else if String.eqb s "start_node" then Some StartNode
  else if String.eqb s "end_node" then Some EndNode
  else if String.eqb s "generate_answer_node" then Some GenerateAnswerNode else None.

Record GraphNode := mkNode {
  gn_id : option Z;
  node_key : string;
  node_type : NodeType;
  function_id : option Z;
  position : option json;
  node_config : option json
}.

Record GraphEdge := mkEdge {
  ge_id : option Z;
  src_node_key : string;
  dst_node_key : string;
  mapping : json
}.

Record Workflow := mkWorkflow {
  wf_id : Z;
  identifier : string;
  wf_name : string;
  description : option string;
  timeout_ms : Z;
  category_id : option Z;
  input_schema : option json;
  start_description : option string;
  output_schema : option json;
  required_capabilities : option json
}.

Record WorkflowGraph := mkGraph {
  g_workflow : Workflow;
  g_nodes : list GraphNode;
  g_edges : list GraphEdge
}.

(** Rows of [workflow_nodes], [workflow_edges] and [functions]. *)
Record NodeRow := mkNodeRow {
  nr_id : Z; nr_workflow : Z; nr_key : string; nr_type : string;
  nr_function : option Z; nr_position : option json; nr_config : option json
}.

Record EdgeRow := mkEdgeRow {
  er_id : Z; er_workflow : Z; er_src : Z; er_dst : Z; er_mapping : json
}.

Record FunctionRow := mkFunction {
  fn_input_schema : json; fn_output_schema : json; fn_capabilities : option json
}.

(** The tables this service touches; [tool_refs] are the [workflow_id] columns of the
    tools and [wf_tags] the taggings of workflows. *)
Record Db := mkDb {
  workflows : gmap Z Workflow;
  node_rows : list NodeRow;
  edge_rows : list EdgeRow;
  functions : gmap Z FunctionRow;
  tool_refs : list (option Z);
  wf_tags : list (Z * Z);
  next_workflow : Z;
  next_node : Z;
  next_edge : Z
}.

(** [AppError], with the data its messages are formatted from: the [NotFound],
    [BadRequest] and [WorkflowMappingInvalid] variants are split by message. *)
Inductive AppError :=
| WorkflowNotFound (id : Z)
| FunctionNotFound (id : Z)
| DuplicateNodeKey (k : string)
| UnknownEdgeSrc (k : string)
| UnknownEdgeDst (k : string)
| DagCycle (cycle : list string)
| MappingFormat (node : string) (e : SpecError)
| MappingRefused (node : string) (e : SpecError)
| MappingMissing (node field : string)
| Conflict (ident : string)
| ResourceInUse (count : nat)
| Internal.

(** ** Metadata *)

Definition default_schema : json := JObj [("type", JStr "object"); ("properties", JObj [])].

Record CreateMeta := mkCreate {
  cm_identifier : string;
  cm_name : string;
  cm_description : option string;
  cm_timeout_ms : option Z;
  cm_category_id : option Z;
  cm_required_capabilities : option (list string);
  cm_tag_ids : list Z
}.

Definition fetch_by_id (db : Db) (id : Z) : result Workflow AppError :=
  match workflows db !! id with Some wf => Ok wf | None => Err (WorkflowNotFound id) end.

Definition with_workflows (db : Db) (w : gmap Z Workflow) : Db :=
  mkDb w (node_rows db) (edge_rows db) (functions db) (tool_refs db) (wf_tags db)
    (next_workflow db) (next_node db) (next_edge db).

(** The tag list is replaced. *)
Definition apply_tags (db : Db) (id : Z) (tag_ids : list Z) : Db :=
  mkDb (workflows db) (node_rows db) (edge_rows db) (functions db) (tool_refs db)
    (retain (λ t, negb (t.2 =? id)%Z) (wf_tags db) ++ ((λ t, (t, id)) <$> tag_ids))
    (next_workflow db) (next_node db) (next_edge db).

(** The unique index on [identifier] refuses a duplicate ([same] is the equality of
    the column's collation). *)
Definition create (same : string → string → bool) (db : Db) (meta : CreateMeta)
    : Db * result Workflow AppError :=
  if existsb (λ w, same (identifier w) (cm_identifier meta)) (map_to_list (workflows db)).*2
  then (db, Err (Conflict (cm_identifier meta)))
  else
    let id := next_workflow db in
    let wf := mkWorkflow id (cm_identifier meta) (cm_name meta) (cm_description meta)
                (default 300000%Z (cm_timeout_ms meta)) (cm_category_id meta)
                (Some default_schema) None None
                ((λ c, JArr (JStr <$> c)) <$> cm_required_capabilities meta) in
    let db := mkDb (<[id := wf]> (workflows db)) (node_rows db) (edge_rows db) (functions db)
                (tool_refs db) (wf_tags db) (id + 1)%Z (next_node db) (next_edge db) in
    let db := apply_tags db id (cm_tag_ids meta) in
    (db, fetch_by_id db id).

(** Deleting cascades to the nodes and edges of the workflow. *)
Definition delete_workflow (db : Db) (id : Z) : Db * result unit AppError :=
  match workflows db !! id with
  | None => (db, Err Internal)
  | Some _ =>
      let cnt := length (retain (λ r, bool_decide (r = Some id)) (tool_refs db)) in
      if 0 <? cnt then (db, Err (ResourceInUse cnt))
      else
        (mkDb (base.delete id (workflows db))
           (retain (λ r, negb (nr_workflow r =? id)%Z) (node_rows db))
           (retain (λ r, negb (er_workflow r =? id)%Z) (edge_rows db))
           (functions db) (tool_refs db) (wf_tags db)
           (next_workflow db) (next_node db) (next_edge db), Ok tt)
  end.

(** ** Reading the graph *)

Definition object_insert (k : string) (v : json) (o : json) : json :=
  match o with JObj m => JObj (map_insert k v m) | _ => o end.

Definition is_virtual_key (k : string) : bool := String.eqb k "start" || String.eqb k "end".

Definition start_node (wf : Workflow) : GraphNode :=
  mkNode None "start" StartNode None
    (Some (object_insert "input_schema" (default default_schema (input_schema wf))
             (JObj [("x", JInt 100); ("y", JInt 300)]))) None.

Definition end_node (wf : Workflow) : GraphNode :=
  let pos := JObj [("x", JInt 100); ("y", JInt 600)] in
  mkNode None "end" EndNode None
    (Some (match output_schema wf with
           | Some schema => object_insert "output_schema" schema pos
           | None => pos
           end)) None.

Definition node_of_row (r : NodeRow) : option GraphNode :=
  nt ← node_type_decode (nr_type r);
  Some (mkNode (Some (nr_id r)) (nr_key r) nt (nr_function r) (nr_position r) (nr_config r)).

Definition id_to_key (rows : list NodeRow) : gmap Z string :=
  list_to_map (rev ((λ r, (nr_id r, nr_key r)) <$> rows)).

Definition edge_of_row (keys : gmap Z string) (r : EdgeRow) : GraphEdge :=
  mkEdge (Some (er_id r)) (default "" (keys !! er_src r)) (default "" (keys !! er_dst r))
    (er_mapping r).

(** The edges that join the virtual nodes to the nodes without predecessor or
    successor. *)
Definition virtual_edges (inbound outbound : gset string) (nodes : list GraphNode)
    : list GraphEdge :=
  flat_map (λ n,
    let k := node_key n in
    if is_virtual_key k then []
    else (if bool_decide (k ∈ inbound) then [] else [mkEdge None "start" k (JObj [])]) ++
         (if bool_decide (k ∈ outbound) then [] else [mkEdge None k "end" (JObj [])])) nodes.

Definition fetch_graph (db : Db) (id : Z) : result WorkflowGraph AppError :=
  let? wf := fetch_by_id db id in
  let rows := retain (λ r, (nr_workflow r =? id)%Z) (node_rows db) in
  let erows := retain (λ r, (er_workflow r =? id)%Z) (edge_rows db) in
  match mapM node_of_row rows with
  | None => Err Internal
  | Some db_nodes =>
      let all_nodes := start_node wf :: db_nodes ++ [end_node wf] in
      let edges := edge_of_row (id_to_key rows) <$> erows in
      let has_inbound : gset string := list_to_set (dst_node_key <$> edges) in
      let has_outbound : gset string := list_to_set (src_node_key <$> edges) in
      Ok (mkGraph wf all_nodes (edges ++ virtual_edges has_inbound has_outbound all_nodes))
  end.

(** ** Replacing the graph *)

Definition is_start (n : GraphNode) : bool :=
  bool_decide (node_type n = StartNode) || String.eqb (node_key n) "start".
Definition is_end (n : GraphNode) : bool :=
  bool_decide (node_type n = EndNode) || String.eqb (node_key n) "end".

(** The nodes and edges that are stored: those not virtual. *)
Definition db_nodes_of (nodes : list GraphNode) : list GraphNode :=
  retain (λ n, negb (is_start n) && negb (is_end n)) nodes.
Definition db_edges_of (edges : list GraphEdge) : list GraphEdge :=
  retain (λ e, negb (is_virtual_key (src_node_key e)) && negb (is_virtual_key (dst_node_key e))) edges.

Definition position_field (k : string) (n : option GraphNode) : option json :=
  (n ≫= position) ≫= jget k.

Definition start_input_schema (wf : Workflow) (nodes : list GraphNode) : option json :=
  match position_field "input_schema" (find_first is_start nodes) with
  | Some s => Some s
  | None => Some (default default_schema (input_schema wf))
  end.

Definition start_desc (wf : Workflow) (nodes : list GraphNode) : option string :=
  match position_field "start_description" (find_first is_start nodes) ≫= as_str with
  | Some s => Some s
  | None => start_description wf
  end.

Definition end_output_schema (wf : Workflow) (nodes : list GraphNode) : option json :=
  match position_field "output_schema" (find_first is_end nodes) with
  | Some s => Some s
  | None => output_schema wf
  end.

(** 1. Node keys are unique. *)
Fixpoint check_keys (seen : gset string) (nodes : list GraphNode) : result unit AppError :=
  match nodes with
  | [] => Ok tt
  | n :: nodes =>
      if bool_decide (node_key n ∈ seen) then Err (DuplicateNodeKey (node_key n))
      else check_keys ({[node_key n]} ∪ seen) nodes
  end.

(** 2. The functions of the function nodes exist. *)
Definition function_ids (nodes : list GraphNode) : list Z :=
  filter_map function_id (retain (λ n, bool_decide (node_type n = FunctionNode)) nodes).

Fixpoint check_functions (fns : gmap Z FunctionRow) (ids : list Z) : result unit AppError :=
  match ids with
  | [] => Ok tt
  | fid :: ids =>
      match fns !! fid with
      | Some _ => check_functions fns ids
      | None => Err (FunctionNotFound fid)
      end
  end.

(** The rows [SELECT ... WHERE id IN (ids)] finds, by id. *)
Definition function_schemas (db : Db) (ids : list Z) : gmap Z FunctionRow :=
  base.filter (λ p, p.1 ∈ ids) (functions db).

(** 3. The edges join stored nodes; the adjacency lists follow the edges' order. *)
Definition empty_adjacency (nodes : list GraphNode) : graph :=
  fold_left (λ adj n, <[node_key n := []]> adj) nodes ∅.

Fixpoint add_edges (keys : gset string) (edges : list GraphEdge) (adj : graph)
    : result graph AppError :=
  match edges with
  | [] => Ok adj
  | e :: edges =>
      if negb (bool_decide (src_node_key e ∈ keys)) then Err (UnknownEdgeSrc (src_node_key e))
      else if negb (bool_decide (dst_node_key e ∈ keys)) then Err (UnknownEdgeDst (dst_node_key e))
      else add_edges keys edges (alter (λ l, l ++ [dst_node_key e]) (src_node_key e) adj)
  end.

(** 4a. The input mappings have a valid form. *)
Definition check_mapping (n : GraphNode) : result unit AppError :=
  if bool_decide (node_type n = FunctionNode) || bool_decide (node_type n = GenerateAnswerNode) then
    match node_config n ≫= jget "input_mapping" with
    | None => Ok tt
    | Some v =>
        match parse_input_spec v with
        | Err e => Err (MappingFormat (node_key n) e)
        | Ok spec =>
            match validate_input_spec spec with
            | Err e => Err (MappingRefused (node_key n) e)
            | Ok _ => Ok tt
            end
        end
    end
  else Ok tt.

(** 4b. The required inputs of the node's function are mapped. *)
Definition required_inputs (schema : json) : list string :=
  filter_map as_str (default [] (get_array "required" schema)).

Definition mapped_fields (n : GraphNode) : list (string * json) :=
  default [] ((node_config n ≫= jget "input_mapping") ≫= as_object).

Definition check_required (schemas : gmap Z FunctionRow) (n : GraphNode) : result unit AppError :=
  match function_id n ≫= λ fid, schemas !! fid with
  | None => Ok tt
  | Some f =>
      match find_first (λ r, negb (map_contains_key r (mapped_fields n)))
              (required_inputs (fn_input_schema f)) with
      | Some r => Err (MappingMissing (node_key n) r)
      | None => Ok tt
      end
  end.

Fixpoint check_all (f : GraphNode → result unit AppError) (nodes : list GraphNode)
    : result unit AppError :=
  match nodes with
  | [] => Ok tt
  | n :: nodes => let? _ := f n in check_all f nodes
  end.

(** 5. The capabilities of the functions used, sorted. *)
Definition node_caps (schemas : gmap Z FunctionRow) (n : GraphNode) : list string :=
  default []
    (fid ← function_id n; f ← schemas !! fid; caps ← fn_capabilities f;
     filter_map as_str <$> as_array caps).

Fixpoint insert_string (x : string) (l : list string) : list string :=
  match l with
  | [] => [x]
  | y :: l' => if String.leb x y then x :: l else y :: insert_string x l'
  end.

Definition workflow_caps (schemas : gmap Z FunctionRow) (nodes : list GraphNode) : option json :=
  let all_caps : gset string := list_to_set (flat_map (node_caps schemas) nodes) in
  if bool_decide (all_caps = ∅) then None
  else Some (JArr (JStr <$> foldr insert_string [] (elements all_caps))).

(** 6, 7. The rows inserted, with consecutive identifiers. *)
Fixpoint insert_nodes (id next : Z) (nodes : list GraphNode) : list NodeRow :=
  match nodes with
  | [] => []
  | n :: nodes =>
      mkNodeRow next id (node_key n) (node_type_to_db_str (node_type n)) (function_id n)
        (position n) (node_config n) :: insert_nodes id (next + 1) nodes
  end.

Definition key_to_id (rows : list NodeRow) : gmap string Z :=
  fold_left (λ m r, <[nr_key r := nr_id r]> m) rows ∅.

Fixpoint insert_edges (id next : Z) (ids : gmap string Z) (edges : list GraphEdge)
    : option (list EdgeRow) :=
  match edges with
  | [] => Some []
  | e :: edges =>
      src ← ids !! src_node_key e;
      dst ← ids !! dst_node_key e;
      rows ← insert_edges id (next + 1) ids edges;
      Some (mkEdgeRow next id src dst (mapping e) :: rows)
  end.

Section PutGraph.
(** The iteration order of a [HashMap]'s keys. *)
Variable key_order : graph → list string.

(** Everything checked before the transaction; the capabilities to store. *)
Definition check_graph (db : Db) (nodes : list GraphNode) (edges : list GraphEdge)
    : run (result (option json) AppError) :=
  match check_keys ∅ nodes with
  | Err e => Returns (Err e)
  | Ok _ =>
      let schemas := function_schemas db (function_ids nodes) in
      match check_functions schemas (function_ids nodes) with
      | Err e => Returns (Err e)
      | Ok _ =>
          match add_edges (list_to_set (node_key <$> nodes)) edges (empty_adjacency nodes) with
          | Err e => Returns (Err e)
          | Ok adj =>
              let! cycle := (if bool_decide (nodes = []) then Returns None
                             else detect_cycle (key_order adj) adj) in
              match cycle with
              | Some c => Returns (Err (DagCycle c))
              | None =>
                  Returns
                    (let? _ := check_all check_mapping nodes in
                     let? _ := check_all (check_required schemas) nodes in
                     Ok (workflow_caps schemas nodes))
              end
          end
      end
  end.

(** The tables after the transaction. *)
Definition store_graph (db : Db) (wf : Workflow) (caps : option json) (all : list GraphNode)
    (nodes : list GraphNode) (edges : list GraphEdge) : run Db :=
  let id := wf_id wf in
  let wf' := mkWorkflow id (identifier wf) (wf_name wf) (description wf) (timeout_ms wf)
               (category_id wf) (start_input_schema wf all) (start_desc wf all)
               (end_output_schema wf all) caps in
  let rows := insert_nodes id (next_node db) nodes in
  let! erows := run_of_option (insert_edges id (next_edge db) (key_to_id rows) edges) in
  Returns
    (mkDb (<[id := wf']> (workflows db))
       (retain (λ r, negb (nr_workflow r =? id)%Z) (node_rows db) ++ rows)
       (retain (λ r, negb (er_workflow r =? id)%Z) (edge_rows db) ++ erows)
       (functions db) (tool_refs db) (wf_tags db) (next_workflow db)
       (next_node db + Z.of_nat (length nodes)) (next_edge db + Z.of_nat (length edges))).

(** [tx_ok] says whether every statement of the transaction and its commit succeed;
    otherwise it is rolled back. *)
Definition put_graph (db : Db) (id : Z) (tx_ok : bool) (nodes : list GraphNode)
    (edges : list GraphEdge) : run (Db * result WorkflowGraph AppError) :=
  match fetch_by_id db id with
  | Err e => Returns (db, Err e)
  | Ok wf =>
      let dbn := db_nodes_of nodes in
      let dbe := db_edges_of edges in
      let! checked := check_graph db dbn dbe in
      match checked with
      | Err e => Returns (db, Err e)
      | Ok caps =>
          let! db' := store_graph db wf caps nodes dbn dbe in
          if tx_ok then Returns (db', fetch_graph db' id) else Returns (db, Err Internal)
      end
  end.
End PutGraph.

(** ** The list query *)

Record ListFilter := mkFilter {
  lf_id : option string;
  lf_identifier : option string;
  lf_name : option string;
  lf_search : option string;
  lf_category_id : option string;
  lf_tag_id : option string;
  lf_required_capabilities : option string;
  lf_timeout_ms_from : option string;
  lf_timeout_ms_to : option string;
  lf_created_at_from : option string;
  lf_created_at_to : option string;
  lf_updated_at_from : option string;
  lf_updated_at_to : option string
}.

Definition like (s : string) : string := "%" +:+ s +:+ "%".

Definition clause (o : option string) (c : string) (f : string → string) : list (string * string) :=
  match o with Some s => [(c, f s)] | None => [] end.

Definition search_clause : string :=
  "(w.identifier LIKE ? OR w.name LIKE ? OR w.description LIKE ? OR CAST(w.required_capabilities AS CHAR) LIKE ?)".

(** The filters before and after [search], each clause with its parameter (numbers and
    dates given by their text). *)
Definition clauses_before (f : ListFilter) : list (string * string) :=
  clause (lf_id f) "w.id = ?" id ++
  clause (lf_identifier f) "w.identifier LIKE ?" like ++
  clause (lf_name f) "w.name LIKE ?" like.

Definition clauses_after (f : ListFilter) : list (string * string) :=
  clause (lf_category_id f) "w.category_id = ?" id ++
  clause (lf_tag_id f)
    "EXISTS (SELECT 1 FROM taggings tg WHERE tg.entity_type = 'workflow' AND tg.entity_id = w.id AND tg.tag_id = ?)" id ++
  clause (lf_required_capabilities f) "CAST(w.required_capabilities AS CHAR) LIKE ?" like ++
  clause (lf_timeout_ms_from f) "w.timeout_ms >= ?" id ++
  clause (lf_timeout_ms_to f) "w.timeout_ms <= ?" id ++
  clause (lf_created_at_from f) "w.created_at >= ?" id ++
  clause (lf_created_at_to f) "w.created_at <= ?" id ++
  clause (lf_updated_at_from f) "w.updated_at >= ?" id ++
  clause (lf_updated_at_to f) "w.updated_at <= ?" id.

Definition where_clauses (f : ListFilter) : list string :=
  (clauses_before f).*1 ++ (match lf_search f with Some _ => [search_clause] | None => [] end) ++
  (clauses_after f).*1.

Definition where_sql (f : ListFilter) : string :=
  match where_clauses f with
  | [] => ""
  | cs => "WHERE " +:+ join " AND " cs
  end.

(** The values bound to the placeholders, in order: the search pattern four times,
    then the parameters. *)
Definition bound_values (f : ListFilter) : list string :=
  (match lf_search f with Some s => replicate 4 (like s) | None => [] end) ++
  (clauses_before f).*2 ++ (clauses_after f).*2.
