(* ===== verification/WorkflowProps.v ===== *)
(** * Properties of workflow graphs *)

From stdpp Require Import relations.
From S2P Require Import Prelude RustStr Json CronTypes DagCheck InputSpec Workflow.

Local Open Scope stdpp_scope.
Local Open Scope hive_scope.

(** ** The graph an edge list denotes *)

Definition joins (edges : list GraphEdge) (u v : string) : Prop :=
  ∃ e, e ∈ edges ∧ src_node_key e = u ∧ dst_node_key e = v.

Definition endpoints_in (keys : gset string) (edges : list GraphEdge) : Prop :=
  ∀ e, e ∈ edges → src_node_key e ∈ keys ∧ dst_node_key e ∈ keys.

Lemma check_keys_spec seen nodes :
  check_keys seen nodes = Ok tt ↔
  NoDup (node_key <$> nodes) ∧ ∀ n, n ∈ nodes → node_key n ∉ seen.
Proof.
  revert seen. induction nodes as [|n nodes IH]; intros seen; simpl.
  { split; [|done]. intros _. split; [constructor|]. intros n Hn. by apply not_elem_of_nil in Hn. }
  case_bool_decide as Hin.
  - split; [done|]. intros [_ H]. by destruct (H n); [left|].
  - rewrite IH, NoDup_cons, list_elem_of_fmap. split.
    + intros [Hnd H]. split_and!; [|done|].
      * intros (x & Hx & Hxn). destruct (H x Hxn). rewrite Hx. set_solver.
      * intros x [->|Hx]%elem_of_cons; [done|]. specialize (H x Hx). set_solver.
    + intros [[Hn Hnd] H]. split; [done|]. intros x Hx.
      assert (node_key x ≠ node_key n) by (intros He; apply Hn; by exists x).
      assert (node_key x ∉ seen) by (apply H; by right). set_solver.
Qed.

Lemma check_functions_spec fns ids :
  check_functions fns ids = Ok tt ↔ ∀ i, i ∈ ids → is_Some (fns !! i).
Proof.
  induction ids as [|i ids IH]; simpl.
  { split; [|done]. intros _ i Hi. by apply not_elem_of_nil in Hi. }
  destruct (fns !! i) eqn:Hi.
  - rewrite IH. split; [|intros H x Hx; apply H; by right].
    intros H x [->|Hx]%elem_of_cons; [done|auto].
  - split; [done|]. intros H. destruct (H i) as [? ?]; [left|congruence].
Qed.

Lemma empty_adjacency_spec nodes :
  dom (empty_adjacency nodes) = list_to_set (node_key <$> nodes) ∧
  ∀ u v, ¬ edge (empty_adjacency nodes) u v.
Proof.
  unfold empty_adjacency.
  assert (H : ∀ adj : graph, (∀ u l, adj !! u = Some l → l = []) →
    dom (fold_left (λ adj n, <[node_key n := []]> adj) nodes adj) =
      list_to_set (node_key <$> nodes) ∪ dom adj ∧
    ∀ u l, fold_left (λ adj n, <[node_key n := []]> adj) nodes adj !! u = Some l → l = []).
  { induction nodes as [|n nodes IH]; intros adj Hadj; simpl; [set_solver|].
    destruct (IH (<[node_key n := []]> adj)) as [Hd Hl].
    - intros u l [[? ?]|[? ?]]%lookup_insert_Some; [done|by eapply Hadj].
    - split; [|done]. rewrite Hd, dom_insert_L. set_solver. }
  destruct (H ∅) as [Hd Hl]; [intros u l; by rewrite lookup_empty|].
  split; [rewrite Hd; set_solver|]. intros u v (l & Hu & Hv). rewrite (Hl _ _ Hu) in Hv.
  by apply not_elem_of_nil in Hv.
Qed.

Lemma add_edge_edge (adj : graph) u v s d :
  s ∈ dom adj →
  edge (alter (λ l, l ++ [d]) s adj) u v ↔ edge adj u v ∨ (u = s ∧ v = d).
Proof.
  intros [ls Hs]%elem_of_dom. unfold edge. destruct (decide (s = u)) as [->|Hne].
  - rewrite lookup_alter_eq, Hs. simpl. split.
    + intros (l & [= <-] & Hv). apply elem_of_app in Hv as [Hv|Hv%list_elem_of_singleton]; eauto.
    + intros [(l & [= <-] & Hv)|[_ ->]]; eexists; (split; [done|]); apply elem_of_app; [by left|].
      right. left.
  - rewrite lookup_alter_ne by done. naive_solver.
Qed.

Lemma add_edges_spec keys edges adj :
  keys = dom adj →
  match add_edges keys edges adj with
  | Ok adj' => endpoints_in keys edges ∧ dom adj' = dom adj ∧
      ∀ u v, edge adj' u v ↔ edge adj u v ∨ joins edges u v
  | Err _ => ¬ endpoints_in keys edges
  end.
Proof.
  revert adj. induction edges as [|e edges IH]; intros adj Hk; simpl.
  { split_and!; [by intros e ?%not_elem_of_nil|done|]. intros u v. split; [by left|].
    intros [?|(e & He & _)]; [done|]. by apply not_elem_of_nil in He. }
  case_bool_decide as Hs; simpl; [|intros H; by destruct (H e (list_elem_of_here _ _))].
  case_bool_decide as Hd; simpl; [|intros H; by destruct (H e (list_elem_of_here _ _))].
  set (adj1 := alter _ (src_node_key e) adj).
  assert (Hdom : dom adj1 = dom adj) by apply dom_alter_L.
  specialize (IH adj1). rewrite Hdom in IH. specialize (IH Hk).
  destruct (add_edges keys edges adj1) as [adj'|err].
  - destruct IH as (Hin & Hd' & Hedge). split_and!; [|done|].
    + intros x [->|Hx]%elem_of_cons; [done|by apply Hin].
    + intros u v. rewrite Hedge. unfold adj1. rewrite add_edge_edge by (by rewrite <-Hk).
      unfold joins. split.
      * intros [[H|[-> ->]]|(x & Hx & H)]; [by left|..]; right;
          [exists e; split_and!; [left|done..]|exists x; split; [by right|done]].
      * intros [H|(x & [->|Hx]%elem_of_cons & <- & <-)]; [by do 2 left|left; by right|].
        right. by exists x.
  - intros H. apply IH. intros x Hx. apply H. by right.
Qed.

Lemma check_all_spec f nodes :
  check_all f nodes = Ok tt ↔ ∀ n, n ∈ nodes → f n = Ok tt.
Proof.
  induction nodes as [|n nodes IH]; simpl.
  { split; [|done]. intros _ n Hn. by apply not_elem_of_nil in Hn. }
  destruct (f n) as [[]|e] eqn:Hf; simpl.
  - rewrite IH. split; [|intros H x Hx; apply H; by right].
    intros H x [->|Hx]%elem_of_cons; auto.
  - split; [done|]. intros H. rewrite H in Hf; [done|left].
Qed.

Lemma check_required_spec schemas n :
  check_required schemas n = Ok tt ↔
  ∀ fid f r, function_id n = Some fid → schemas !! fid = Some f →
    r ∈ required_inputs (fn_input_schema f) → map_contains_key r (mapped_fields n) = true.
Proof.
  unfold check_required. destruct (function_id n) as [fid|]; simpl; [|naive_solver].
  destruct (schemas !! fid) as [f|] eqn:Hf; [|naive_solver].
  destruct (find_first _ _) as [r|] eqn:Hr.
  - apply find_first_Some in Hr as [Hr Hno]. split; [done|]. intros H.
    rewrite (H fid f r) in Hno; done.
  - split; [|done]. intros _ fid' f' r [= <-] Hf' Hin. simplify_eq.
    rewrite find_first_None in Hr. specialize (Hr r Hin). by apply negb_false_iff in Hr.
Qed.

(** ** Validation *)

Class KeyOrder (key_order : graph → list string) : Prop :=
  key_order_elem : ∀ g k, k ∈ key_order g ↔ k ∈ dom g.

Record valid_graph (db : Db) (nodes : list GraphNode) (edges : list GraphEdge) : Prop := {
  vg_keys : NoDup (node_key <$> nodes);
  vg_functions : ∀ n fid, n ∈ nodes → node_type n = FunctionNode → function_id n = Some fid →
    is_Some (functions db !! fid);
  vg_edges : endpoints_in (list_to_set (node_key <$> nodes)) edges;
  vg_acyclic : ∀ v, ¬ tc (joins edges) v v;
  vg_mapping : ∀ n v, n ∈ nodes → node_type n = FunctionNode ∨ node_type n = GenerateAnswerNode →
    node_config n ≫= jget "input_mapping" = Some v →
    ∃ spec, parse_input_spec v = Ok spec ∧ validate_input_spec spec = Ok tt;
  vg_required : ∀ n fid f r, n ∈ nodes → function_id n = Some fid → fid ∈ function_ids nodes →
    functions db !! fid = Some f → r ∈ required_inputs (fn_input_schema f) →
    map_contains_key r (mapped_fields n) = true
}.

Lemma function_ids_elem nodes fid :
  fid ∈ function_ids nodes ↔
  ∃ n, n ∈ nodes ∧ node_type n = FunctionNode ∧ function_id n = Some fid.
Proof.
  unfold function_ids. rewrite elem_of_filter_map. split.
  - intros (n & [Hn Ht%bool_decide_eq_true]%retain_elem_of & Hf). eauto.
  - intros (n & Hn & Ht & Hf). exists n. split; [|done]. apply retain_elem_of.
    split; [done|]. by apply bool_decide_eq_true.
Qed.

Lemma function_schemas_lookup db ids fid f :
  function_schemas db ids !! fid = Some f ↔ functions db !! fid = Some f ∧ fid ∈ ids.
Proof. unfold function_schemas. by rewrite map_lookup_filter_Some. Qed.

Lemma check_mapping_spec n :
  check_mapping n = Ok tt ↔
  ∀ v, node_type n = FunctionNode ∨ node_type n = GenerateAnswerNode →
    node_config n ≫= jget "input_mapping" = Some v →
    ∃ spec, parse_input_spec v = Ok spec ∧ validate_input_spec spec = Ok tt.
Proof.
  unfold check_mapping.
  destruct (bool_decide (node_type n = FunctionNode) || bool_decide (node_type n = GenerateAnswerNode))
    eqn:Ht.
  - apply orb_true_iff in Ht. rewrite !bool_decide_eq_true in Ht.
    destruct (node_config n ≫= jget "input_mapping") as [v|]; [|split; [done|by intros]].
    destruct (parse_input_spec v) as [spec|e] eqn:Hp.
    + destruct (validate_input_spec spec) as [[]|e] eqn:Hv.
      * split; [|done]. intros _ v' _ [= <-]. eauto.
      * split; [done|]. intros H. destruct (H v Ht eq_refl) as (spec' & ? & ?). congruence.
    + split; [done|]. intros H. destruct (H v Ht eq_refl) as (spec' & ? & ?). congruence.
  - bool_to_prop. split; [|done]. intros _ v [?|?]; done.
Qed.

Lemma tc_iff (R S : relation string) u v :
  (∀ x y, R x y ↔ S x y) → tc R u v ↔ tc S u v.
Proof.
  intros H. split; induction 1 as [x y Hxy|x y z Hxy _ IH].
  all: first [apply tc_once; by apply H | eapply tc_l; [by apply H|done]].
Qed.

Lemma check_graph_spec key_order db nodes edges :
  KeyOrder key_order →
  ∃ r, check_graph key_order db nodes edges = Returns r ∧
    match r with
    | Ok _ => valid_graph db nodes edges
    | Err _ => ¬ valid_graph db nodes edges
    end.
Proof.
  intros HK. unfold check_graph.
  pose proof (check_keys_spec ∅ nodes) as Hkeys.
  destruct (check_keys ∅ nodes) as [[]|e]; [destruct (proj1 Hkeys eq_refl) as [Hnd _]|].
  2:{ eexists. split; [done|]. intros [Hnd _ _ _ _ _].
      enough (Err e = Ok tt) by done. apply Hkeys. set_solver. }
  set (schemas := function_schemas db (function_ids nodes)).
  pose proof (check_functions_spec schemas (function_ids nodes)) as Hfn.
  destruct (check_functions schemas _) as [[]|e].
  2:{ eexists. split; [done|]. intros Hv. enough (Err e = Ok tt) by done. apply Hfn. intros i Hi.
      pose proof Hi as (n & Hn & Ht & Hf)%function_ids_elem.
      destruct (vg_functions _ _ _ Hv n i Hn Ht Hf) as [f Hrow]. exists f.
      by apply function_schemas_lookup. }
  destruct (empty_adjacency_spec nodes) as [Hdom Hempty].
  pose proof (add_edges_spec _ edges (empty_adjacency nodes) (eq_sym Hdom)) as Hadd.
  destruct (add_edges _ edges _) as [adj|e].
  2:{ eexists. split; [done|]. intros Hv. by apply Hadd, (vg_edges _ _ _ Hv). }
  destruct Hadd as (Hend & Hdom' & Hedge).
  assert (Hjoin : ∀ u v, edge adj u v ↔ joins edges u v).
  { intros u v. rewrite Hedge. split; [|by right]. intros [H|H]; [by apply Hempty in H|done]. }
  assert (Hdet : ∃ c, (if bool_decide (nodes = []) then Returns None
      else detect_cycle (key_order adj) adj) = Returns c ∧
    match c with None => acyclic adj | Some _ => ¬ acyclic adj end).
  { case_bool_decide as Hn.
    - exists None. split; [done|]. subst. intros v Hv.
      assert (Hout : ∃ w, edge adj v w) by (inversion Hv; eauto).
      destruct Hout as (w & (e & He & _)%Hjoin). destruct (Hend e He) as [Hs _].
      by apply elem_of_list_to_set, not_elem_of_nil in Hs.
    - destruct (detect_cycle_spec (key_order adj) adj) as (r & -> & Hr); [apply HK|].
      exists r. split; [done|]. destruct r as [c|]; [|done]. intros Hac.
      destruct (cycle_tc _ _ Hr) as [v Hv]. by apply (Hac v). }
  destruct Hdet as (c & -> & Hc). simpl.
  assert (Hac : acyclic adj ↔ ∀ v, ¬ tc (joins edges) v v).
  { split; intros H v Hv; apply (H v); [|by apply (tc_iff _ _ _ _ Hjoin)].
    by apply (tc_iff _ _ _ _ Hjoin). }
  destruct c as [c|].
  { eexists. split; [done|]. intros Hv. apply Hc, Hac, (vg_acyclic _ _ _ Hv). }
  eexists. split; [done|].
  pose proof (check_all_spec check_mapping nodes) as Hmap.
  destruct (check_all check_mapping nodes) as [[]|e]; simpl.
  2:{ intros Hv. enough (Err e = Ok tt) by done. apply Hmap. intros n Hn. apply check_mapping_spec.
      intros v. by apply (vg_mapping _ _ _ Hv). }
  pose proof (check_all_spec (check_required schemas) nodes) as Hreq.
  destruct (check_all (check_required schemas) nodes) as [[]|e]; simpl.
  2:{ intros Hv. enough (Err e = Ok tt) by done. apply Hreq. intros n Hn. apply check_required_spec.
      intros fid f r Hf [Hrow Hin]%function_schemas_lookup. by eapply (vg_required _ _ _ Hv). }
  split; [done| |done|by apply Hac| |].
  - intros n fid Hn Ht Hf. destruct (proj1 Hfn eq_refl fid) as [f [Hrow _]%function_schemas_lookup].
    { apply function_ids_elem. eauto. }
    by exists f.
  - intros n v Hn. apply check_mapping_spec. by apply Hmap.
  - intros n fid f r Hn Hf Hin Hrow Hr.
    eapply (proj1 (check_required_spec schemas n)); [by apply Hreq|done| |done].
    by apply function_schemas_lookup.
Qed.

(** ** Storing and reading back *)

(** Contents without the database identifiers. *)
Definition node_content (n : GraphNode) : GraphNode :=
  mkNode None (node_key n) (node_type n) (function_id n) (position n) (node_config n).
Definition edge_content (e : GraphEdge) : GraphEdge :=
  mkEdge None (src_node_key e) (dst_node_key e) (mapping e).

Lemma node_type_decode_encode nt : node_type_decode (node_type_to_db_str nt) = Some nt.
Proof. by destruct nt. Qed.

Lemma mapM_cons {A B} (f : A → option B) x l :
  mapM f (x :: l) = (y ← f x; ys ← mapM f l; Some (y :: ys)).
Proof. done. Qed.

Lemma node_of_inserted i id n :
  node_of_row (mkNodeRow i id (node_key n) (node_type_to_db_str (node_type n)) (function_id n)
    (position n) (node_config n)) =
  Some (mkNode (Some i) (node_key n) (node_type n) (function_id n) (position n) (node_config n)).
Proof. unfold node_of_row. cbn [nr_type]. by rewrite node_type_decode_encode. Qed.

Lemma insert_nodes_read id next nodes :
  ∃ ns, mapM node_of_row (insert_nodes id next nodes) = Some ns ∧
        node_content <$> ns = node_content <$> nodes.
Proof.
  revert next. induction nodes as [|n nodes IH]; intros next; [by exists []|].
  destruct (IH (next + 1)%Z) as (ns & Hns & Hc). cbn [insert_nodes]. rewrite mapM_cons, Hns.
  rewrite node_of_inserted. eexists. split; [done|]. cbn. by f_equal.
Qed.

Lemma insert_nodes_rows id next nodes :
  nr_key <$> insert_nodes id next nodes = node_key <$> nodes ∧
  Forall (λ r, nr_workflow r = id ∧ (next <= nr_id r)%Z) (insert_nodes id next nodes) ∧
  NoDup (nr_id <$> insert_nodes id next nodes).
Proof.
  revert next. induction nodes as [|n nodes IH]; intros next; simpl.
  { split_and!; [done|constructor|constructor]. }
  destruct (IH (next + 1)%Z) as (Hk & Hf & Hnd). split_and!.
  - by f_equal.
  - constructor; simpl; [lia|]. eapply Forall_impl; [exact Hf|]. simpl. intros; lia.
  - constructor; [|done]. intros (r & Hr & Hin)%list_elem_of_fmap.
    rewrite Forall_forall in Hf. destruct (Hf r Hin). lia.
Qed.

Lemma key_to_id_lookup rows k i :
  NoDup (nr_key <$> rows) →
  key_to_id rows !! k = Some i ↔ ∃ r, r ∈ rows ∧ nr_key r = k ∧ nr_id r = i.
Proof.
  unfold key_to_id. intros Hnd.
  assert (H : ∀ m : gmap string Z,
    (fold_left (λ m r, <[nr_key r := nr_id r]> m) rows m) !! k = Some i ↔
    (∃ r, r ∈ rows ∧ nr_key r = k ∧ nr_id r = i) ∨ (¬ (k ∈ nr_key <$> rows) ∧ m !! k = Some i)).
  { induction rows as [|r rows IH]; intros m; cbn [fold_left].
    - split; [right; split; [apply not_elem_of_nil|done]|].
      intros [(r & Hr & _)|[_ ?]]; [by apply not_elem_of_nil in Hr|done].
    - cbn in Hnd. apply NoDup_cons in Hnd as [Hr Hnd]. rewrite IH by done. cbn.
      rewrite not_elem_of_cons, lookup_insert_Some. split.
      + intros [(x & Hx & H)|[Hk [[Heq Hi]|[Hne Hi]]]].
        * left. exists x. split; [by right|done].
        * left. exists r. split; [left|done].
        * right. by split_and!.
      + intros [(x & [->|Hx]%elem_of_cons & <- & <-)|[[Hne Hk] Hi]].
        * right. split; [done|]. by left.
        * left. by exists x.
        * right. split; [done|]. by right. }
  rewrite H. split; [|by left]. intros [?|[_ Hk]]; [done|]. by rewrite lookup_empty in Hk.
Qed.

Lemma id_to_key_lookup rows r :
  NoDup (nr_id <$> rows) → r ∈ rows → id_to_key rows !! nr_id r = Some (nr_key r).
Proof.
  intros Hnd Hr. unfold id_to_key. apply elem_of_list_to_map_1.
  - rewrite <-Permutation_rev, <-list_fmap_compose. done.
  - rewrite <-Permutation_rev. apply list_elem_of_fmap. by exists r.
Qed.

Lemma insert_edges_read id next ids keys edges :
  (∀ e, e ∈ edges → ∃ i j, ids !! src_node_key e = Some i ∧ keys !! i = Some (src_node_key e) ∧
    ids !! dst_node_key e = Some j ∧ keys !! j = Some (dst_node_key e)) →
  ∃ rows, insert_edges id next ids edges = Some rows ∧
    Forall (λ r, er_workflow r = id) rows ∧
    (edge_content ∘ edge_of_row keys) <$> rows = edge_content <$> edges.
Proof.
  revert next. induction edges as [|e edges IH]; intros next H; simpl.
  { exists []. split_and!; [done|constructor|done]. }
  destruct (H e) as (i & j & Hs & Hi & Hd & Hj); [left|]. rewrite Hs, Hd. simpl.
  destruct (IH (next + 1)%Z) as (rows & -> & Hw & Hc); [intros x Hx; apply H; by right|].
  simpl. eexists. split; [done|]. split; [by constructor|]. simpl. f_equal; [|done].
  unfold edge_content, edge_of_row. simpl. by rewrite Hi, Hj.
Qed.

(** Node rows and edge rows of the other workflows stay; those of this one are the new
    ones. *)
Lemma own_rows {A} (wf_of : A → Z) id old new :
  Forall (λ r, wf_of r = id) new →
  retain (λ r, (wf_of r =? id)%Z) (retain (λ r, negb (wf_of r =? id)%Z) old ++ new) = new.
Proof.
  intros Hnew. rewrite retain_app.
  replace (retain (λ r, (wf_of r =? id)%Z) (retain (λ r, negb (wf_of r =? id)%Z) old)) with (@nil A).
  - simpl. apply retain_all. intros x Hx. rewrite Forall_forall in Hnew.
    apply Z.eqb_eq. by apply Hnew.
  - induction old as [|x old IH]; simpl; [done|]. destruct (wf_of x =? id)%Z eqn:He; simpl; [done|].
    by rewrite He.
Qed.

(** The identifiers given to the stored nodes lead back to their keys. *)
Lemma inserted_lookup id next nodes k :
  NoDup (node_key <$> nodes) → k ∈ node_key <$> nodes →
  ∃ i, key_to_id (insert_nodes id next nodes) !! k = Some i ∧ id_to_key (insert_nodes id next nodes) !! i = Some k.
Proof.
  destruct (insert_nodes_rows id next nodes) as (Hkeys & _ & Hids). intros Hnd Hk. rewrite <-Hkeys in Hnd, Hk.
  apply list_elem_of_fmap in Hk as (r & -> & Hr).
  exists (nr_id r). split; [|by apply id_to_key_lookup]. apply key_to_id_lookup; [done|]. by exists r.
Qed.

Lemma inserted_ends id next nodes edges e :
  NoDup (node_key <$> nodes) → endpoints_in (list_to_set (node_key <$> nodes)) edges → e ∈ edges →
  let rows := insert_nodes id next nodes in
  ∃ i j, key_to_id rows !! src_node_key e = Some i ∧ id_to_key rows !! i = Some (src_node_key e) ∧
         key_to_id rows !! dst_node_key e = Some j ∧ id_to_key rows !! j = Some (dst_node_key e).
Proof.
  intros Hnd Hend He. destruct (Hend e He) as [Hs Hd]. rewrite elem_of_list_to_set in Hs, Hd.
  destruct (inserted_lookup id next nodes _ Hnd Hs) as (i & ? & ?), (inserted_lookup id next nodes _ Hnd Hd) as (j & ? & ?).
  by exists i, j.
Qed.

(** What the new tables hold, and what reading them gives. *)
Lemma store_graph_read db wf caps all nodes edges :
  NoDup (node_key <$> nodes) → endpoints_in (list_to_set (node_key <$> nodes)) edges →
  ∃ db', store_graph db wf caps all nodes edges = Returns db' ∧
    ∃ g, fetch_graph db' (wf_id wf) = Ok g ∧
    input_schema (g_workflow g) = start_input_schema wf all ∧
    start_description (g_workflow g) = start_desc wf all ∧
    output_schema (g_workflow g) = end_output_schema wf all ∧
    required_capabilities (g_workflow g) = caps ∧
    ∃ ns es inb outb,
      g_nodes g = start_node (g_workflow g) :: ns ++ [end_node (g_workflow g)] ∧
      node_content <$> ns = node_content <$> nodes ∧
      g_edges g = es ++ virtual_edges inb outb (g_nodes g) ∧
      edge_content <$> es = edge_content <$> edges ∧
      inb = list_to_set (dst_node_key <$> edges) ∧ outb = list_to_set (src_node_key <$> edges).
Proof.
  intros Hnd Hend. unfold store_graph.
  set (id := wf_id wf). set (rows := insert_nodes id (next_node db) nodes).
  destruct (insert_nodes_rows id (next_node db) nodes) as (Hkeys & Hrows & Hids).
  fold rows in Hkeys, Hrows, Hids.
  destruct (insert_edges_read id (next_edge db) (key_to_id rows) (id_to_key rows) edges)
    as (erows & -> & Hew & Hec).
  { intros e He. by apply (inserted_ends id (next_node db) nodes edges). }
  simpl. eexists. split; [done|]. unfold fetch_graph, fetch_by_id. simpl.
  fold id. rewrite lookup_insert_eq. simpl.
  rewrite (own_rows nr_workflow) by (eapply Forall_impl; [exact Hrows|]; by intros ? []).
  rewrite (own_rows er_workflow) by done.
  destruct (insert_nodes_read id (next_node db) nodes) as (ns & Hns & Hc). fold rows in Hns.
  rewrite Hns. eexists. split; [done|]. split_and!; try done.
  assert (He : edge_content <$> (edge_of_row (id_to_key rows) <$> erows) = edge_content <$> edges)
    by (by rewrite <-list_fmap_compose).
  assert (Hkeep : ∀ f : GraphEdge → string, (∀ e, f (edge_content e) = f e) →
    f <$> (edge_of_row (id_to_key rows) <$> erows) = f <$> edges).
  { intros f Hf. assert (Hl : ∀ l : list GraphEdge, f <$> l = f <$> (edge_content <$> l)).
    { intros l. rewrite <-list_fmap_compose. apply list_fmap_ext. intros. symmetry. apply Hf. }
    rewrite Hl, He. symmetry. apply Hl. }
  eexists ns, _, _, _. split_and!; [done..| |]; by rewrite Hkeep.
Qed.

(** ** Putting a graph *)

Lemma retain_content {A} (c : A → A) (f : A → bool) (l k : list A) :
  (∀ x, f (c x) = f x) → c <$> l = c <$> retain f k → retain f l = l.
Proof.
  intros Hc Heq. apply retain_all. intros x Hx. rewrite <-Hc.
  assert (Hin : c x ∈ c <$> l) by (apply list_elem_of_fmap; by exists x).
  rewrite Heq in Hin. apply list_elem_of_fmap in Hin as (y & Hy & [_ Hf]%retain_elem_of).
  by rewrite Hy, Hc.
Qed.

Lemma virtual_edges_dropped inb outb nodes : db_edges_of (virtual_edges inb outb nodes) = [].
Proof.
  unfold db_edges_of, virtual_edges. induction nodes as [|n nodes IH]; cbn [flat_map]; [done|].
  rewrite retain_app, IH, app_nil_r. destruct (is_virtual_key (node_key n)) eqn:Hv; [done|].
  repeat case_bool_decide; simpl; by rewrite ?Hv.
Qed.

Lemma db_edges_app l k : db_edges_of (l ++ k) = db_edges_of l ++ db_edges_of k.
Proof. apply retain_app. Qed.

Lemma joins_app l k u v : joins (l ++ k) u v ↔ joins l u v ∨ joins k u v.
Proof.
  unfold joins. setoid_rewrite elem_of_app. naive_solver.
Qed.

(** Edge lists with the same content join the same keys. *)
Lemma joins_content l k :
  edge_content <$> l = edge_content <$> k →
  ∀ e, e ∈ k → joins l (src_node_key e) (dst_node_key e).
Proof.
  intros Heq e He. assert (Hc : edge_content e ∈ edge_content <$> l)
    by (rewrite Heq; apply list_elem_of_fmap; by exists e).
  apply list_elem_of_fmap in Hc as (e' & Hc & He'). injection Hc as Hs Hd _. by exists e'.
Qed.

Lemma virtual_edges_elem inb outb nodes n :
  n ∈ nodes → is_virtual_key (node_key n) = false →
  (node_key n ∉ inb → joins (virtual_edges inb outb nodes) "start" (node_key n)) ∧
  (node_key n ∉ outb → joins (virtual_edges inb outb nodes) (node_key n) "end").
Proof.
  intros Hn Hv. unfold virtual_edges. split; intros Hno; eexists (mkEdge None _ _ (JObj []));
    (split_and!; [|done..]); rewrite list_elem_of_In, in_flat_map; exists n;
    rewrite <-!list_elem_of_In, Hv; (split; [done|]); apply elem_of_app; [left|right];
    rewrite bool_decide_false by done; left.
Qed.

(** The rows of the database carry their own identifier. *)
Definition keyed_rows (db : Db) : Prop := ∀ i wf, workflows db !! i = Some wf → wf_id wf = i.

(** The outcome of [put_graph], by cases. *)
Lemma put_graph_cases key_order db id tx_ok nodes edges :
  KeyOrder key_order → keyed_rows db →
  match workflows db !! id with
  | None => put_graph key_order db id tx_ok nodes edges = Returns (db, Err (WorkflowNotFound id))
  | Some wf =>
      (∃ e, ¬ valid_graph db (db_nodes_of nodes) (db_edges_of edges) ∧
        put_graph key_order db id tx_ok nodes edges = Returns (db, Err e)) ∨
      (∃ caps db', valid_graph db (db_nodes_of nodes) (db_edges_of edges) ∧
        store_graph db wf caps nodes (db_nodes_of nodes) (db_edges_of edges) = Returns db' ∧
        put_graph key_order db id tx_ok nodes edges =
          Returns (if tx_ok then (db', fetch_graph db' id) else (db, Err Internal)))
  end.
Proof.
  intros HK Hrows. unfold put_graph, fetch_by_id.
  destruct (workflows db !! id) as [wf|] eqn:Hwf; [|done].
  destruct (check_graph_spec key_order db (db_nodes_of nodes) (db_edges_of edges) HK)
    as (r & -> & Hr). simpl. destruct r as [caps|e]; [right|left; by exists e].
  destruct (store_graph_read db wf caps nodes (db_nodes_of nodes) (db_edges_of edges))
    as (db' & Hst & _); [apply (vg_keys _ _ _ Hr)|apply (vg_edges _ _ _ Hr)|].
  exists caps, db'. split; [done|]. split; [done|]. rewrite Hst. simpl. by destruct tx_ok.
Qed.


(** reading a graph after replacing it gives back what was put: the same stored
    nodes and edges in the same order up to database identifiers, between a start and an
    end node; each node without a stored predecessor (successor) is joined to the start
    (end) node; and putting the read graph again stores the same content. *)
Theorem put_get_roundtrip (key_order : graph → list string) (db db' : Db) (id : Z) (tx_ok : bool)
    (nodes : list GraphNode) (edges : list GraphEdge) (g : WorkflowGraph) :
  KeyOrder key_order → keyed_rows db →
  put_graph key_order db id tx_ok nodes edges = Returns (db', Ok g) →
  fetch_graph db' id = Ok g ∧
  node_content <$> db_nodes_of (g_nodes g) = node_content <$> db_nodes_of nodes ∧
  edge_content <$> db_edges_of (g_edges g) = edge_content <$> db_edges_of edges ∧
  (∃ ns, g_nodes g = start_node (g_workflow g) :: ns ++ [end_node (g_workflow g)]) ∧
  (∀ n, n ∈ db_nodes_of nodes →
     (∃ u, joins (g_edges g) u (node_key n)) ∧ (∃ v, joins (g_edges g) (node_key n) v)).
Proof.
  intros HK Hrows Hput. pose proof (put_graph_cases key_order db id tx_ok nodes edges HK Hrows) as H.
  destruct (workflows db !! id) as [wf|] eqn:Hwf; [|congruence].
  destruct H as [(e & _ & ?)|(caps & db1 & Hok & Hst & Heq)]; [congruence|].
  destruct tx_ok; [|congruence]. rewrite Heq in Hput. injection Hput as -> Hg.
  destruct (store_graph_read db wf caps nodes (db_nodes_of nodes) (db_edges_of edges))
    as (db2 & Hst' & g' & Hg' & _ & _ & _ & _ & ns & es & inb & outb & Hns & Hnc & Hes & Hec & -> & ->);
    [apply (vg_keys _ _ _ Hok)|apply (vg_edges _ _ _ Hok)|].
  rewrite (Hrows _ _ Hwf) in Hg'. assert (db2 = db') as -> by congruence.
  assert (g' = g) as -> by congruence. split; [done|].
  assert (Hns' : db_nodes_of (g_nodes g) = ns).
  { rewrite Hns. unfold db_nodes_of. cbn [List.filter]. rewrite retain_app. cbn -[List.filter].
    rewrite (retain_content node_content _ ns nodes); [|done|done]. simpl. by rewrite app_nil_r. }
  assert (Hes' : db_edges_of (g_edges g) = es).
  { rewrite Hes, db_edges_app, virtual_edges_dropped, app_nil_r.
    by apply (retain_content edge_content _ es edges). }
  rewrite Hns', Hes'. split_and!; [done..|by exists ns|].
  intros n Hn.
  assert (Hin : ∃ n', n' ∈ g_nodes g ∧ node_key n' = node_key n).
  { assert (Hc : node_content n ∈ node_content <$> ns)
      by (rewrite Hnc; apply list_elem_of_fmap; by exists n).
    apply list_elem_of_fmap in Hc as (n' & Hc & Hn'). exists n'. split; [|by injection Hc].
    rewrite Hns. apply elem_of_cons. right. apply elem_of_app. by left. }
  assert (Hnv : is_virtual_key (node_key n) = false).
  { unfold db_nodes_of in Hn. apply retain_elem_of in Hn as [_ Hn]. bool_to_prop.
    unfold is_start, is_end in *. bool_to_prop. unfold is_virtual_key.
    apply orb_false_iff. by split; apply String.eqb_neq. }
  destruct Hin as (n' & Hn' & Hk). rewrite <-Hk in Hnv |- *.
  assert (Hstored : ∀ e, e ∈ db_edges_of edges → joins (g_edges g) (src_node_key e) (dst_node_key e)).
  { intros e He. rewrite Hes. apply joins_app. left. by apply (joins_content _ _ Hec). }
  destruct (virtual_edges_elem (list_to_set (dst_node_key <$> db_edges_of edges))
    (list_to_set (src_node_key <$> db_edges_of edges)) (g_nodes g) n' Hn' Hnv) as [Hin Hout].
  split.
  - destruct (decide (node_key n' ∈ dst_node_key <$> db_edges_of edges)) as [Hd|Hd].
    + apply list_elem_of_fmap in Hd as (e & -> & He). eauto.
    + exists "start". rewrite Hes. apply joins_app. right. apply Hin. by rewrite elem_of_list_to_set.
  - destruct (decide (node_key n' ∈ src_node_key <$> db_edges_of edges)) as [Hd|Hd].
    + apply list_elem_of_fmap in Hd as (e & -> & He). eauto.
    + exists "end". rewrite Hes. apply joins_app. right. apply Hout. by rewrite elem_of_list_to_set.
Qed.

(** ** A concrete workflow *)

Definition demo_order (g : graph) : list string := (map_to_list g).*1.

#[export] Instance demo_order_ok : KeyOrder demo_order.
Proof.
  intros g k. unfold demo_order. rewrite list_elem_of_fmap, elem_of_dom. split.
  - intros ([k' l] & -> & H%elem_of_map_to_list). by exists l.
  - intros [l H]. exists (k, l). split; [done|]. by apply elem_of_map_to_list.
Qed.

Definition demo_workflow : Workflow :=
  mkWorkflow 1 "wf" "wf" None 1000 None None None None None.

Definition demo_db : Db :=
  mkDb {[1%Z := demo_workflow]} [] [] {[7%Z := mkFunction (JObj [("required", JArr [JStr "q"])])
    JNull (Some (JArr [JStr "net"]))]} [] [] 2 10 20.

Definition upstream_config (src : string) : json :=
  JObj [("input_mapping", JObj [("q", JObj [("kind", JStr "upstream"); ("node_key", JStr src)])])].

Definition demo_nodes : list GraphNode :=
  [mkNode None "a" GenerateAnswerNode None None None;
   mkNode None "b" FunctionNode (Some 7%Z) None (Some (upstream_config "a"))].

Definition demo_edges : list GraphEdge :=
  [mkEdge None "start" "a" (JObj []); mkEdge None "a" "b" (JObj [])].

Lemma demo_db_keyed : keyed_rows demo_db.
Proof. intros i wf. cbn. rewrite lookup_singleton_Some. by intros [<- <-]. Qed.

Definition put_demo (tx : bool) : run (Db * result WorkflowGraph AppError) :=
  put_graph demo_order demo_db 1 tx demo_nodes demo_edges.

Definition db_of (r : run (Db * result WorkflowGraph AppError)) : Db :=
  match r with Returns (db, _) => db | _ => demo_db end.
Definition graph_of (r : run (Db * result WorkflowGraph AppError)) : WorkflowGraph :=
  match r with Returns (_, Ok g) => g | _ => mkGraph demo_workflow [] [] end.


Example put_get_roundtrip_witness :
  fetch_graph (db_of (put_demo true)) 1 = Ok (graph_of (put_demo true)) ∧
  node_key <$> g_nodes (graph_of (put_demo true)) = ["start"; "a"; "b"; "end"].
Proof.
  split; [|by vm_compute].
  refine (proj1 (put_get_roundtrip demo_order demo_db (db_of (put_demo true)) 1 true demo_nodes
    demo_edges (graph_of (put_demo true)) demo_order_ok demo_db_keyed _)).
  by vm_compute.
Defined.

(** ** Behaviours against the comments *)

(** a graph is stored although an input names an upstream node that is not in the
    workflow: the mapping check stops at the form of the mapping (the header of the
    service requires the source node to exist). *)
Theorem dangling_upstream_stored :
  ∃ db' g, put_graph demo_order demo_db 1 true
             [mkNode None "b" FunctionNode (Some 7%Z) None (Some (upstream_config "ghost"))] []
           = Returns (db', Ok g) ∧
    "ghost" ∉ node_key <$> g_nodes g.
Proof.
  eexists _, _. split; [by vm_compute|]. apply (bool_decide_unpack _). by vm_compute.
Qed.

(** The values the clauses are written for, in the order of their placeholders. *)
Definition intended_values (f : ListFilter) : list string :=
  (clauses_before f).*2 ++
  (match lf_search f with Some s => replicate 4 (like s) | None => [] end) ++
  (clauses_after f).*2.

(** the values bound by the list query match its placeholders when no search text
    is given or none of the id, identifier and name filters is; with a search text and
    any of these, whose parameter differs from the search pattern, they do not: the
    pattern is bound first although its clause comes later. *)
Theorem list_query_binding (f : ListFilter) :
  (lf_search f = None ∨ clauses_before f = [] → bound_values f = intended_values f) ∧
  (∀ s, lf_search f = Some s → (∃ v, head (clauses_before f).*2 = Some v ∧ v ≠ like s) →
     bound_values f ≠ intended_values f).
Proof.
  unfold bound_values, intended_values. split.
  - intros [-> | ->]; [|destruct (lf_search f)]; simpl; rewrite ?app_nil_r; done.
  - intros s -> (v & Hv & Hne) Heq. destruct (clauses_before f).*2 as [|w ws]; simplify_eq/=.
Qed.
