(* ===== verification/Network.v ===== *)
(** * Network guard

    [crates/security/src/network.rs]: CIDR blocks, the blocked and allowed networks, and
    the checks of URLs before and after a request.  The address parser of the standard
    library is modelled; name resolution is an argument. *)

From S2P Require Import Prelude RustStr.

Local Open Scope stdpp_scope.
Local Open Scope hive_scope.

(** ** Addresses

    [u32] and [u128] values in network order. *)
Inductive IpAddr :=
| V4 (a : Z)
| V6 (a : Z).

#[export] Instance ip_eq_dec : EqDecision IpAddr.
Proof. solve_decision. Defined.

Definition digit_value (c : ascii) : option Z :=
  let b := byte_of c in
  if ((48 <=? b) && (b <=? 57))%Z then Some (b - 48)%Z
  else if ((97 <=? b) && (b <=? 102))%Z then Some (b - 87)%Z
  else if ((65 <=? b) && (b <=? 70))%Z then Some (b - 55)%Z else None.

(** [read_number]: the digits at the front (value, count, rest). *)
Fixpoint read_digits (radix : Z) (s : string) (acc : Z) (count : nat) : Z * nat * string :=
  match s with
  | "" => (acc, count, s)
  | String c s' =>
      match digit_value c with
      | Some d => if (d <? radix)%Z then read_digits radix s' (acc * radix + d)%Z (S count)
                  else (acc, count, s)
      | None => (acc, count, s)
      end
  end.

Definition read_number (radix max : Z) (max_digits : nat) (zero_prefix : bool) (s : string)
    : option (Z * string) :=
  let '(v, count, rest) := read_digits radix s 0 0 in
  if (count =? 0)%nat || (max_digits <? count)%nat then None
  else if (max <? v)%Z then None
  else if negb zero_prefix && starts_with s "0" && (1 <? count)%nat then None
  else Some (v, rest).

(** [read_separator]: the separator before every item but the first. *)
Definition read_sep {A} (sep : string) (index : nat) (inner : string → option (A * string))
    (s : string) : option (A * string) :=
  if (index =? 0)%nat then inner s else strip_prefix sep s ≫= inner.

Definition read_octet (index : nat) (s : string) : option (Z * string) :=
  read_sep "." index (read_number 10 255 3 false) s.

Definition read_ipv4_addr (s : string) : option (Z * string) :=
  '(a, s) ← read_octet 0 s; '(b, s) ← read_octet 1 s;
  '(c, s) ← read_octet 2 s; '(d, s) ← read_octet 3 s;
  Some (a * 16777216 + b * 65536 + c * 256 + d, s)%Z.

(** [read_groups]: up to [left] groups from index [i], an embedded IPv4 address taking
    two; the groups, whether it ended with one, and the rest. *)
Fixpoint read_groups (left i : nat) (s : string) : list Z * bool * string :=
  match left with
  | 0 => ([], false, s)
  | S left' =>
      let group :=
        match read_sep ":" i (read_number 16 65535 4 true) s with
        | Some (g, s') =>
            let '(gs, v4, rest) := read_groups left' (S i) s' in (g :: gs, v4, rest)
        | None => ([], false, s)
        end in
      match left' with
      | 0 => group
      | S _ =>
          match read_sep ":" i read_ipv4_addr s with
          | Some (a, s') => ([a / 65536; a mod 65536]%Z, true, s')
          | None => group
          end
      end
  end.

Definition groups_value (gs : list Z) : Z := fold_left (λ acc g, acc * 65536 + g)%Z gs 0%Z.

Definition read_ipv6_addr (s : string) : option (Z * string) :=
  let '(head, head_v4, s1) := read_groups 8 0 s in
  if (length head =? 8)%nat then Some (groups_value head, s1)
  else if head_v4 then None
  else
    s2 ← strip_prefix "::" s1;
    let '(tail, _, s3) := read_groups (8 - (length head + 1)) 0 s2 in
    Some (groups_value (head ++ replicate (8 - length head - length tail) 0%Z ++ tail), s3).

(** [str::parse::<IpAddr>]: the whole text must be consumed. *)
Definition parse_ip (s : string) : option IpAddr :=
  match read_ipv4_addr s with
  | Some (a, rest) => if is_empty rest then Some (V4 a) else None
  | None =>
      '(a, rest) ← read_ipv6_addr s;
      if is_empty rest then Some (V6 a) else None
  end.

(** ** CIDR blocks *)

Inductive CidrBlock :=
| BlockV4 (base : Z) (prefix : Z)
| BlockV6 (base : Z) (prefix : Z).

(** [!0 << (w - prefix)] in [w] bits. *)
Definition mask_u32 (prefix : Z) : Z :=
  if (prefix =? 0)%Z then 0%Z else (Z.shiftl 4294967295 (32 - prefix) mod 4294967296)%Z.

Definition mask_u128 (prefix : Z) : Z :=
  if (prefix =? 0)%Z then 0%Z
  else (Z.shiftl (2 ^ 128 - 1) (128 - prefix) mod 2 ^ 128)%Z.

(** [str::parse::<u8>]: decimal digits after an optional plus sign. *)
Definition parse_u8 (s : string) : option Z :=
  let s := match strip_prefix "+" s with Some r => r | None => s end in
  let '(v, count, rest) := read_digits 10 s 0 0 in
  if (count =? 0)%nat || negb (is_empty rest) || (255 <? v)%Z then None else Some v.

Definition split_once (c : ascii) (s : string) : option (string * string) :=
  match find_char c s with
  | Some i => Some (stake i s, sdrop (S i) s)
  | None => None
  end.

Definition cidr_parse (cidr : string) : option CidrBlock :=
  let '(addr_part, prefix_part) :=
    match split_once "/" cidr with Some (a, p) => (a, Some p) | None => (cidr, None) end in
  addr ← parse_ip addr_part;
  match addr with
  | V4 v4 =>
      prefix ← parse_u8 (default "32" prefix_part);
      if (32 <? prefix)%Z then None else Some (BlockV4 (Z.land v4 (mask_u32 prefix)) prefix)
  | V6 v6 =>
      prefix ← parse_u8 (default "128" prefix_part);
      if (128 <? prefix)%Z then None else Some (BlockV6 (Z.land v6 (mask_u128 prefix)) prefix)
  end.

Definition contains (b : CidrBlock) (addr : IpAddr) : bool :=
  match b, addr with
  | BlockV4 base prefix, V4 a => (Z.land a (mask_u32 prefix) =? base)%Z
  | BlockV6 base prefix, V6 a => (Z.land a (mask_u128 prefix) =? base)%Z
  | _, _ => false
  end.

Definition blocked_cidrs : list string :=
  ["0.0.0.0/8"; "10.0.0.0/8"; "100.64.0.0/10"; "127.0.0.0/8"; "169.254.0.0/16";
   "172.16.0.0/12"; "192.168.0.0/16"; "::1/128"; "fc00::/7"; "fe80::/10"].

Definition BLOCKED_NETWORKS : list CidrBlock := filter_map cidr_parse blocked_cidrs.

(** ** The whitelist: its value is the state. *)

Definition configure_ssrf_whitelist (cidrs : list string) : list CidrBlock :=
  filter_map cidr_parse cidrs.

Definition clear_ssrf_whitelist : list CidrBlock := [].

Definition is_private (allowed : list CidrBlock) (addr : IpAddr) : bool :=
  if negb (match allowed with [] => true | _ => false end) && existsb (λ n, contains n addr) allowed
  then false
  else existsb (λ n, contains n addr) BLOCKED_NETWORKS.

(** ** URLs *)

Fixpoint find_any (cs : list ascii) (s : string) : option nat :=
  match s with
  | "" => None
  | String c s' => if existsb (Ascii.eqb c) cs then Some 0 else S <$> find_any cs s'
  end.

Definition rsplit_once_head (c : ascii) (s : string) : string :=
  match rfind_char c s with Some i => stake i s | None => s end.

(** Scheme, authority and host name. *)
Definition parse_url (url : string) : option (string * string * string) :=
  scheme_end ← find_sub "://" url;
  let scheme := to_lowercase (stake scheme_end url) in
  let rest := sdrop (scheme_end + 3) url in
  let netloc := stake (default (String.length rest) (find_any ["/"; "?"; "#"]%char rest)) rest in
  if is_empty netloc then None
  else
    let host_with_port :=
      match rfind_char "@" netloc with Some idx => sdrop (S idx) netloc | None => netloc end in
    hostname ←
      match strip_prefix "[" host_with_port with
      | Some stripped => close ← find_char "]" stripped; Some (stake close stripped)
      | None => Some (rsplit_once_head ":" host_with_port)
      end;
    Some (scheme, netloc, hostname).

(** The verdicts of the checks; the source formats the refusals as text. *)
Inductive Verdict :=
| Allowed
| MissingDomain
| BadScheme (scheme : string)
| MissingHostname
| Unresolvable (hostname : string)
| Blocked (hostname : string) (addr : IpAddr)
| RedirectPrivate (hostname : string) (addr : IpAddr).

Section Checks.
(** The system's name resolution. *)
Variable dns : string → option (list IpAddr).
Variable allowed : list CidrBlock.

(** [(host, 0).to_socket_addrs()]: a literal is its own address. *)
Definition resolve_host (hostname : string) : option (list IpAddr) :=
  match parse_ip hostname with Some ip => Some [ip] | None => dns hostname end.

Definition validate_url_target (url : string) : Verdict :=
  match parse_url url with
  | None => MissingDomain
  | Some (scheme, netloc, hostname) =>
      if negb (String.eqb scheme "http") && negb (String.eqb scheme "https") then BadScheme scheme
      else if is_empty netloc then MissingDomain
      else if is_empty hostname then MissingHostname
      else match resolve_host hostname with
           | None => Unresolvable hostname
           | Some infos =>
               match find_first (is_private allowed) infos with
               | Some addr => Blocked hostname addr
               | None => Allowed
               end
           end
  end.

Definition validate_resolved_url (url : string) : Verdict :=
  match parse_url url with
  | None => Allowed
  | Some (_, _, hostname) =>
      if is_empty hostname then Allowed
      else match parse_ip hostname with
           | Some ip => if is_private allowed ip then RedirectPrivate hostname ip else Allowed
           | None =>
               match resolve_host hostname with
               | None => Allowed
               | Some infos =>
                   match find_first (is_private allowed) infos with
                   | Some addr => RedirectPrivate hostname addr
                   | None => Allowed
                   end
               end
           end
  end.

(** The matches of [URL_RE]: the scheme in either case, then a run of characters that
    stops at quotes, semicolon, bar, angle brackets and whitespace; case folding also
    takes the long s for an s. *)
Definition url_stop (c : ascii) : bool :=
  existsb (Ascii.eqb c) [Ascii.ascii_of_nat 34; "'"; "`"; ";"; "|"; "<"; ">"]%char.

Fixpoint url_body (s : string) : string :=
  match s with
  | "" => ""
  | String a r1 =>
      if url_stop a || ws1 a then ""
      else if (match r1 with
               | String b r2 => ws2 a b || (match r2 with String c _ => ws3 a b c | "" => false end)
               | "" => false
               end) then ""
      else String a (url_body r1)
  end.

Definition strip_fold (c : ascii) (s : string) : option string :=
  match s with
  | String a s' => if Ascii.eqb (lower_char a) c then Some s' else None
  | "" => None
  end.

Definition long_s : string := String (Ascii.ascii_of_nat 197) (String (Ascii.ascii_of_nat 191) "").

Definition match_url (s : string) : option string :=
  s1 ← strip_fold "h" s; s2 ← strip_fold "t" s1; s3 ← strip_fold "t" s2; s4 ← strip_fold "p" s3;
  let s5 := match strip_fold "s" s4 with
            | Some r => r
            | None => match strip_prefix long_s s4 with Some r => r | None => s4 end
            end in
  s6 ← strip_prefix "://" s5;
  let body := url_body s6 in
  if is_empty body then None
  else Some (stake (String.length s - String.length s6 + String.length body) s).

(** [find_iter]; [skip] bytes belong to the last match. *)
Fixpoint find_urls (skip : nat) (s : string) : list string :=
  match s with
  | "" => []
  | String _ s' =>
      match skip with
      | S k => find_urls k s'
      | 0 => match match_url s with
             | Some m => m :: find_urls (String.length m - 1) s'
             | None => find_urls 0 s'
             end
      end
  end.

Definition is_allowed (v : Verdict) : bool := match v with Allowed => true | _ => false end.

Definition contains_internal_url (command : string) : bool :=
  existsb (λ url, negb (is_allowed (validate_url_target url))) (find_urls 0 command).
End Checks.

(** ** Masks are ranges *)

Lemma find_char_app c s t : no_char c s = true → find_char c (s +:+ String c t) = Some (String.length s).
Proof.
  induction s as [|a s IH]; intros H.
  - rewrite sapp_nil_l. cbn. by rewrite Ascii.eqb_refl.
  - rewrite sapp_cons. cbn in *. bool_to_prop. rewrite IH by done.
    by match goal with H : Ascii.eqb a c = false |- _ => rewrite H end.
Qed.

Lemma split_once_app c s t : no_char c s = true → split_once c (s +:+ String c t) = Some (s, t).
Proof.
  intros H. unfold split_once. rewrite find_char_app, stake_length_app by done. do 2 f_equal.
  clear H. induction s as [|a s IH]; [done|]. rewrite sapp_cons. exact IH.
Qed.

Lemma mask_ones w p :
  (0 < p <= w)%Z → (Z.shiftl (2 ^ w - 1) (w - p) mod 2 ^ w = Z.shiftl (Z.ones p) (w - p))%Z.
Proof.
  intros Hp. rewrite !Z.shiftl_mul_pow2, Z.ones_equiv by lia.
  assert (Hw : (2 ^ w = 2 ^ p * 2 ^ (w - p))%Z) by (rewrite <-Z.pow_add_r by lia; f_equal; lia).
  pose proof (Z.pow_pos_nonneg 2 p). pose proof (Z.pow_pos_nonneg 2 (w - p)).
  symmetry. apply Z.mod_unique with (q := (2 ^ (w - p) - 1)%Z); nia.
Qed.

Lemma land_mask w p a :
  (0 < p <= w)%Z → (0 <= a < 2 ^ w)%Z →
  Z.land a (Z.shiftl (Z.ones p) (w - p)) = (2 ^ (w - p) * (a / 2 ^ (w - p)))%Z.
Proof.
  intros Hp Ha. rewrite <-Z.shiftr_div_pow2 by lia. rewrite Z.mul_comm, <-Z.shiftl_mul_pow2 by lia.
  apply Z.bits_inj'. intros i Hi. rewrite Z.land_spec, !Z.shiftl_spec by lia.
  destruct (Z.le_gt_cases (w - p) i) as [Hle|Hgt].
  - rewrite Z.shiftr_spec by lia. replace (i - (w - p) + (w - p))%Z with i by lia.
    rewrite Z.testbit_ones by lia.
    destruct (i - (w - p) <? p)%Z eqn:Hlt.
    + replace (0 <=? i - (w - p))%Z with true by lia. simpl. by rewrite andb_true_r.
    + assert (Hz : Z.testbit a i = false); [|by rewrite Hz].
      destruct (Z.eq_dec a 0) as [->|Hne]; [apply Z.testbit_0_l|].
      apply Z.bits_above_log2; [lia|].
      assert (Z.log2 a < w)%Z by (apply Z.log2_lt_pow2; lia).
      lia.
  - rewrite (Z.testbit_neg_r (Z.ones p)), (Z.testbit_neg_r (Z.shiftr a _)) by lia.
    apply andb_false_r.
Qed.

(** An address masked to a prefix is the base of the aligned range it lies in. *)
Lemma masked_range w p a b :
  (0 < p <= w)%Z → (0 <= a < 2 ^ w)%Z → (0 <= b < 2 ^ w)%Z →
  let m := Z.shiftl (Z.ones p) (w - p) in
  Z.land a m = Z.land b m ↔ (Z.land b m <= a < Z.land b m + 2 ^ (w - p))%Z.
Proof.
  intros Hp Ha Hb. cbn zeta. rewrite !land_mask by done.
  pose proof (Z.pow_pos_nonneg 2 (w - p)). set (n := (2 ^ (w - p))%Z) in *.
  pose proof (Z.div_mod a n). pose proof (Z.mod_pos_bound a n). split.
  - intros Heq. nia.
  - intros Hr. f_equal. symmetry. apply Z.div_unique with (r := (a - n * (b / n))%Z); lia.
Qed.

Lemma mask_u32_ones p : (0 < p <= 32)%Z → mask_u32 p = Z.shiftl (Z.ones p) (32 - p).
Proof.
  intros Hp. unfold mask_u32. rewrite (proj2 (Z.eqb_neq p 0)) by lia.
  apply (mask_ones 32 p Hp).
Qed.

Lemma mask_u128_ones p : (0 < p <= 128)%Z → mask_u128 p = Z.shiftl (Z.ones p) (128 - p).
Proof.
  intros Hp. unfold mask_u128. rewrite (proj2 (Z.eqb_neq p 0)) by lia.
  apply (mask_ones 128 p Hp).
Qed.

(** Addresses as the program has them: within their width. *)
Definition ip_ok (a : IpAddr) : Prop :=
  match a with V4 x => (0 <= x < 2 ^ 32)%Z | V6 x => (0 <= x < 2 ^ 128)%Z end.

Lemma read_digits_nonneg radix s acc count :
  (0 <= radix)%Z → (0 <= acc)%Z → (0 <= (read_digits radix s acc count).1.1)%Z.
Proof.
  intros Hr. revert acc count. induction s as [|c s IH]; intros acc count Ha; simpl; [done|].
  destruct (digit_value c) as [d|] eqn:Hd; [|done]. case_match; [|done].
  apply IH. unfold digit_value in Hd. repeat case_match; simplify_eq; bool_to_prop; nia.
Qed.

Lemma read_number_range radix max digits zp s v rest :
  (0 <= radix)%Z → read_number radix max digits zp s = Some (v, rest) → (0 <= v <= max)%Z.
Proof.
  unfold read_number. intros Hr. pose proof (read_digits_nonneg radix s 0 0 Hr ltac:(lia)) as Hn.
  destruct (read_digits radix s 0 0) as [[v' count] rest'] eqn:He.
  repeat case_match; intros; simplify_eq/=. bool_to_prop. lia.
Qed.

Lemma read_sep_inv {A} sep i (f : string → option (A * string)) s r :
  read_sep sep i f s = Some r → ∃ s', f s' = Some r.
Proof.
  unfold read_sep. destruct (i =? 0); [eauto|]. intros (s' & _ & H)%bind_Some. eauto.
Qed.

Lemma read_octet_range i s v rest : read_octet i s = Some (v, rest) → (0 <= v <= 255)%Z.
Proof. intros (s' & H)%read_sep_inv. eapply read_number_range; [|exact H]. lia. Qed.

Lemma read_ipv4_range s a rest : read_ipv4_addr s = Some (a, rest) → (0 <= a < 2 ^ 32)%Z.
Proof.
  unfold read_ipv4_addr. intros H.
  apply bind_Some in H as ([x s1] & H1%read_octet_range & H).
  apply bind_Some in H as ([y s2] & H2%read_octet_range & H).
  apply bind_Some in H as ([z s3] & H3%read_octet_range & H).
  apply bind_Some in H as ([t s4] & H4%read_octet_range & H). simplify_eq. lia.
Qed.

Lemma read_groups_range left i s :
  length (read_groups left i s).1.1 ≤ left ∧
  Forall (λ g, 0 <= g < 65536)%Z (read_groups left i s).1.1.
Proof.
  revert i s. induction left as [|left IH]; intros i s; cbn [read_groups]; [by split; [|constructor]|].
  set (group := match read_sep ":" i (read_number 16 65535 4 true) s with
                | Some _ => _ | None => _ end).
  assert (Hg : length group.1.1 ≤ S left ∧ Forall (λ g, 0 <= g < 65536)%Z group.1.1).
  { subst group. destruct (read_sep ":" i _ s) as [[g s']|] eqn:Hr; [|split; [simpl; lia|constructor]].
    apply read_sep_inv in Hr as [s'' Hr%read_number_range]; [|lia].
    destruct (IH (S i) s') as [Hl Hf]. destruct (read_groups left (S i) s') as [[gs v4] rest].
    simpl in *. split; [lia|]. constructor; [lia|done]. }
  destruct left as [|left]; [exact Hg|].
  destruct (read_sep ":" i read_ipv4_addr s) as [[a s']|] eqn:Hr; [|exact Hg].
  apply read_sep_inv in Hr as [s'' Hr%read_ipv4_range]. simpl. split; [lia|].
  pose proof (Z.mod_pos_bound a 65536). constructor; [|constructor; [lia|constructor]].
  split; [apply Z.div_pos; lia|apply Z.div_lt_upper_bound; lia].
Qed.

Lemma groups_value_range gs :
  Forall (λ g, 0 <= g < 65536)%Z gs → (0 <= groups_value gs < 2 ^ (16 * Z.of_nat (length gs)))%Z.
Proof.
  unfold groups_value. induction gs as [|g gs IH] using rev_ind; intros Hf; [simpl; lia|].
  apply Forall_app in Hf as [Hf Hg]. inversion Hg as [|? ? Hg' _]; subst.
  specialize (IH Hf). rewrite fold_left_app, length_app. simpl.
  replace (16 * Z.of_nat (length gs + 1))%Z with (16 * Z.of_nat (length gs) + 16)%Z by lia.
  rewrite Z.pow_add_r by lia. lia.
Qed.

Lemma read_ipv6_range s a rest : read_ipv6_addr s = Some (a, rest) → (0 <= a < 2 ^ 128)%Z.
Proof.
  unfold read_ipv6_addr. destruct (read_groups_range 8 0 s) as [Hl Hf].
  destruct (read_groups 8 0 s) as [[head v4] s1]. simpl in Hl, Hf.
  assert (H8 : ∀ gs, length gs = 8 → Forall (λ g, 0 <= g < 65536)%Z gs →
    (0 <= groups_value gs < 2 ^ 128)%Z).
  { intros gs Hlen Hgs. apply groups_value_range in Hgs. by rewrite Hlen in Hgs. }
  destruct (length head =? 8) eqn:Hh; bool_to_prop.
  { intros [= <- _]. by apply H8. }
  destruct v4; [done|]. intros (s2 & _ & H)%bind_Some.
  destruct (read_groups_range (8 - (length head + 1)) 0 s2) as [Hl' Hf'].
  destruct (read_groups (8 - (length head + 1)) 0 s2) as [[tail v4'] s3]. simpl in Hl', Hf'.
  injection H as <- _. apply H8.
  - rewrite !length_app, length_replicate. lia.
  - rewrite !Forall_app. split_and!; [done| |done]. apply Forall_replicate. lia.
Qed.

Lemma parse_ip_ok s a : parse_ip s = Some a → ip_ok a.
Proof.
  unfold parse_ip. destruct (read_ipv4_addr s) as [[x rest]|] eqn:H4.
  - case_match; [|done]. intros [= <-]. by eapply read_ipv4_range.
  - intros ([x rest] & H6 & H)%bind_Some. case_match; [|done]. injection H as <-.
    by eapply read_ipv6_range.
Qed.

Lemma parse_u8_range s p : parse_u8 s = Some p → (0 <= p <= 255)%Z.
Proof.
  unfold parse_u8. set (s' := match strip_prefix "+" s with Some r => r | None => s end).
  pose proof (read_digits_nonneg 10 s' 0 0 ltac:(lia) ltac:(lia)) as Hn.
  destruct (read_digits 10 s' 0 0) as [[v count] rest]. simpl in Hn.
  case_match eqn:Hc; [done|]. intros [= <-]. bool_to_prop. lia.
Qed.

(** First and last address of a block. *)
Definition block_range (b : CidrBlock) : Z * Z :=
  match b with
  | BlockV4 base p => (base, base + 2 ^ (32 - p) - 1)%Z
  | BlockV6 base p => (base, base + 2 ^ (128 - p) - 1)%Z
  end.

Definition same_family (b : CidrBlock) (a : IpAddr) : bool :=
  match b, a with BlockV4 _ _, V4 _ | BlockV6 _ _, V6 _ => true | _, _ => false end.

Definition ip_value (a : IpAddr) : Z := match a with V4 x | V6 x => x end.

Lemma contains_range (cidr : string) (b : CidrBlock) (a : IpAddr) :
  cidr_parse cidr = Some b → ip_ok a →
  contains b a = true ↔
  same_family b a = true ∧ ((block_range b).1 <= ip_value a <= (block_range b).2)%Z.
Proof.
  unfold cidr_parse. intros Hp Ha.
  destruct (match split_once "/" cidr with Some (a0, p) => (a0, Some p) | None => (cidr, None) end)
    as [addr_part prefix_part].
  apply bind_Some in Hp as (addr & Haddr%parse_ip_ok & Hp).
  destruct addr as [v|v]; apply bind_Some in Hp as (p & Hu%parse_u8_range & Hp);
    simpl in Haddr; (case_match eqn:Hlt; [done|]); injection Hp as <-; bool_to_prop;
    (destruct a as [x|x]; simpl in Ha |- *; [|try by split; [|intros [? _]]]);
    try (by split; [|intros [? _]]).
  - rewrite Z.eqb_eq. destruct (Z.eq_dec p 0) as [->|Hne].
    + change (mask_u32 0) with 0%Z. rewrite !Z.land_0_r. split; [|done].
      intros _. split; [done|]. simpl. lia.
    + rewrite mask_u32_ones by lia. rewrite (masked_range 32 p x v) by lia.
      split; [intros; split; [done|lia]|lia].
  - rewrite Z.eqb_eq. destruct (Z.eq_dec p 0) as [->|Hne].
    + change (mask_u128 0) with 0%Z. rewrite !Z.land_0_r. split; [|done].
      intros _. split; [done|]. simpl. lia.
    + rewrite mask_u128_ones by lia. rewrite (masked_range 128 p x v) by lia.
      split; [intros; split; [done|lia]|lia].
Qed.

(** ** The guard *)

Definition v4 (a b c d : Z) : Z := (a * 16777216 + b * 65536 + c * 256 + d)%Z.
Definition v6_top (g : Z) : Z := (g * 2 ^ 112)%Z.

(** The address ranges the module is meant to keep requests away from. *)
Definition internal_ranges (a : IpAddr) : list (Z * Z) :=
  match a with
  | V4 _ =>
      [(v4 0 0 0 0, v4 0 255 255 255); (v4 10 0 0 0, v4 10 255 255 255);
       (v4 100 64 0 0, v4 100 127 255 255); (v4 127 0 0 0, v4 127 255 255 255);
       (v4 169 254 0 0, v4 169 254 255 255); (v4 172 16 0 0, v4 172 31 255 255);
       (v4 192 168 0 0, v4 192 168 255 255)]
  | V6 _ =>
      [(1, 1); (v6_top 64512, v6_top 65024 - 1); (v6_top 65152, v6_top 65216 - 1)]
  end%Z.

Definition internal (a : IpAddr) : Prop :=
  Exists (λ r, r.1 <= ip_value a <= r.2)%Z (internal_ranges a).

Lemma BLOCKED_parsed : mapM cidr_parse blocked_cidrs = Some BLOCKED_NETWORKS.
Proof. by vm_compute. Qed.

Lemma BLOCKED_ranges :
  (λ b, (same_family b (V4 0), block_range b)) <$> BLOCKED_NETWORKS =
  ((λ r, (true, r)) <$> internal_ranges (V4 0)) ++ ((λ r, (false, r)) <$> internal_ranges (V6 0)).
Proof. by vm_compute. Qed.

Lemma BLOCKED_contains b a :
  b ∈ BLOCKED_NETWORKS → ip_ok a →
  contains b a = true ↔
  same_family b a = true ∧ ((block_range b).1 <= ip_value a <= (block_range b).2)%Z.
Proof.
  intros Hb Ha. pose proof BLOCKED_parsed as Hp. apply mapM_Some in Hp.
  apply list_elem_of_lookup in Hb as [i Hi].
  destruct (Forall2_lookup_r _ _ _ _ _ Hp Hi) as (c & _ & Hc). by apply (contains_range c).
Qed.

Lemma family_V4 b a : same_family b a = match a with V4 _ => same_family b (V4 0)
                                        | V6 _ => negb (same_family b (V4 0)) end.
Proof. by destruct b, a. Qed.

(** The blocked networks are exactly the internal ranges. *)
Lemma blocked_internal a :
  ip_ok a → existsb (λ n, contains n a) BLOCKED_NETWORKS = true ↔ internal a.
Proof.
  intros Ha. rewrite existsb_exists. unfold internal.
  assert (Hmid : (∃ b, In b BLOCKED_NETWORKS ∧ contains b a = true) ↔
    Exists (λ p, p.1 = (match a with V4 _ => true | V6 _ => false end) ∧
                 (p.2.1 <= ip_value a <= p.2.2)%Z)
      ((λ b, (same_family b (V4 0), block_range b)) <$> BLOCKED_NETWORKS)).
  { rewrite Exists_exists. split.
    - intros (b & Hb & Hc). rewrite <-list_elem_of_In in Hb.
      apply BLOCKED_contains in Hc as [Hf Hr]; [|done..]. eexists. split.
      + apply list_elem_of_fmap. by exists b.
      + simpl. split; [|done]. rewrite family_V4 in Hf. destruct a; [done|].
        by apply negb_true_iff in Hf.
    - intros (p & (b & -> & Hb)%list_elem_of_fmap & Hf & Hr). exists b.
      split; [by apply list_elem_of_In|]. apply BLOCKED_contains; [done..|]. simpl in *.
      rewrite family_V4. destruct a; rewrite Hf; done. }
  rewrite Hmid, BLOCKED_ranges, Exists_app, !Exists_fmap. unfold compose. simpl.
  destruct a as [x|x]; simpl.
  - split; [|intros H; left; by eapply Exists_impl].
    intros [H|H]; [eapply Exists_impl; [exact H|]; by intros ? []|].
    apply Exists_exists in H as (? & _ & [=] & _).
  - split; [|intros H; right; by eapply Exists_impl].
    intros [H|H]; [|eapply Exists_impl; [exact H|]; by intros ? []].
    apply Exists_exists in H as (? & _ & [=] & _).
Qed.

(** a parsed CIDR block contains exactly the addresses of its family between its
    base and its last address. *)
Theorem cidr_contains_range (cidr : string) (b : CidrBlock) (a : IpAddr) :
  cidr_parse cidr = Some b → ip_ok a →
  contains b a = true ↔
  same_family b a = true ∧ ((block_range b).1 <= ip_value a <= (block_range b).2)%Z.
Proof. apply contains_range. Qed.

Example cidr_contains_range_witness :
  cidr_parse "172.16.9.9/12" = Some (BlockV4 (v4 172 16 0 0) 12) ∧
  contains (BlockV4 (v4 172 16 0 0) 12) (V4 (v4 172 31 255 255)) = true.
Proof.
  split; [by vm_compute|].
  apply (cidr_contains_range "172.16.9.9/12" (BlockV4 (v4 172 16 0 0) 12));
    [by vm_compute|unfold ip_ok, v4; lia|]. split; [done|]. unfold v4. simpl. lia.
Defined.

Lemma is_private_spec allowed a :
  ip_ok a →
  is_private allowed a = false ↔
  (∃ n, n ∈ allowed ∧ contains n a = true) ∨ ¬ internal a.
Proof.
  intros Ha. unfold is_private.
  assert (Hal : negb (match allowed with [] => true | _ => false end) &&
    existsb (λ n, contains n a) allowed = true ↔ ∃ n, n ∈ allowed ∧ contains n a = true).
  { setoid_rewrite list_elem_of_In. rewrite <-existsb_exists. by destruct allowed. }
  pose proof (blocked_internal a Ha) as Hb.
  destruct (negb _ && _) eqn:He; [split; [left; by apply Hal|done]|].
  rewrite <-Hb, <-Hal. destruct (existsb _ BLOCKED_NETWORKS); intuition congruence.
Qed.

(** C26: the check before a request lets a URL through exactly when it is an http or
    https URL with a host name that resolves, and every address it resolves to is
    whitelisted or outside the internal ranges. *)
Theorem validate_url_target_sound (dns : string → option (list IpAddr))
    (allowed : list CidrBlock) (url : string) :
  (∀ h l, dns h = Some l → Forall ip_ok l) →
  validate_url_target dns allowed url = Allowed ↔
  ∃ scheme netloc hostname addrs,
    parse_url url = Some (scheme, netloc, hostname) ∧
    (scheme = "http" ∨ scheme = "https") ∧ netloc ≠ "" ∧ hostname ≠ "" ∧
    resolve_host dns hostname = Some addrs ∧
    ∀ a, a ∈ addrs → (∃ n, n ∈ allowed ∧ contains n a = true) ∨ ¬ internal a.
Proof.
  intros Hdns. unfold validate_url_target.
  destruct (parse_url url) as [[[scheme netloc] hostname]|];
    [|split; [done|]; by intros (? & ? & ? & ? & ? & _)].
  assert (Hok : ∀ l, resolve_host dns hostname = Some l → Forall ip_ok l).
  { unfold resolve_host. intros l. destruct (parse_ip hostname) as [ip|] eqn:Hip; [|apply Hdns].
    intros [= <-]. constructor; [by eapply parse_ip_ok|constructor]. }
  destruct (negb (String.eqb scheme "http") && negb (String.eqb scheme "https")) eqn:Hs.
  { bool_to_prop. split; [done|]. by intros (? & ? & ? & ? & [= <- <- <-] & [?|?] & _). }
  assert (Hsch : scheme = "http" ∨ scheme = "https").
  { apply andb_false_iff in Hs as [Hs|Hs]; bool_to_prop; auto. }
  destruct (is_empty netloc) eqn:Hn.
  { apply is_empty_true in Hn. split; [done|]. by intros (? & ? & ? & ? & [= <- <- <-] & _ & ? & _). }
  destruct (is_empty hostname) eqn:Hh.
  { apply is_empty_true in Hh. split; [done|].
    by intros (? & ? & ? & ? & [= <- <- <-] & _ & _ & ? & _). }
  apply is_empty_false in Hn, Hh.
  destruct (resolve_host dns hostname) as [addrs|] eqn:Hres.
  2:{ split; [done|]. intros (? & ? & ? & ? & [= <- <- <-] & _ & _ & _ & Hr & _). congruence. }
  specialize (Hok addrs eq_refl). rewrite Forall_forall in Hok.
  destruct (find_first (is_private allowed) addrs) as [a|] eqn:Hf.
  - apply find_first_Some in Hf as [Ha Hp]. split; [done|].
    intros (? & ? & ? & l & [= <- <- <-] & _ & _ & _ & Hr & H). assert (l = addrs) as -> by congruence.
    specialize (H a Ha). rewrite <-is_private_spec in H by auto. congruence.
  - rewrite find_first_None in Hf. split; [|done]. intros _.
    exists scheme, netloc, hostname, addrs. split_and!; [done..|].
    intros a Ha. apply is_private_spec; [by apply Hok|by apply Hf].
Qed.

Definition demo_dns (h : string) : option (list IpAddr) :=
  if String.eqb h "example.com" then Some [V4 (v4 93 184 216 34)] else None.

Example validate_url_target_sound_witness :
  validate_url_target demo_dns [] "https://user@example.com:8080/x" = Allowed ∧
  ∃ scheme netloc hostname addrs,
    parse_url "https://user@example.com:8080/x" = Some (scheme, netloc, hostname) ∧
    (scheme = "http" ∨ scheme = "https") ∧ netloc ≠ "" ∧ hostname ≠ "" ∧
    resolve_host demo_dns hostname = Some addrs ∧
    ∀ a, a ∈ addrs → (∃ n, n ∈ [] ∧ contains n a = true) ∨ ¬ internal a.
Proof.
  split; [by vm_compute|].
  apply (validate_url_target_sound demo_dns [] "https://user@example.com:8080/x");
    [|by vm_compute].
  intros h l. unfold demo_dns. destruct (String.eqb h "example.com"); [|done].
  intros [= <-]. repeat constructor; unfold v4; lia.
Defined.

(** an IPv4-mapped IPv6 literal of a loopback or metadata address, which the
    operating system connects to over IPv4, passes both checks. *)
Theorem mapped_literal_passes (dns : string → option (list IpAddr)) :
  validate_url_target dns [] "http://[::ffff:127.0.0.1]/" = Allowed ∧
  validate_url_target dns [] "http://[::ffff:169.254.169.254]/latest/meta-data" = Allowed ∧
  validate_resolved_url dns [] "http://[::ffff:127.0.0.1]/" = Allowed ∧
  parse_ip "::ffff:127.0.0.1" = Some (V6 (65535 * 2 ^ 32 + v4 127 0 0 1)) ∧
  validate_url_target dns [] "http://127.0.0.1/" = Blocked "127.0.0.1" (V4 (v4 127 0 0 1)).
Proof. split_and!; by vm_compute. Qed.
