(* ===== verification/Think.v ===== *)
(** * Thinking blocks

    [crates/utils/src/helpers.rs], first part: removing and extracting the [think] and
    [thought] blocks a model writes into its text.  Each regular expression of the code is
    the function that replaces its matches; [\s] matches what [trim] removes. *)

From S2P Require Import Prelude RustStr F64 Json.

Local Open Scope stdpp_scope.
Local Open Scope hive_scope.

(** A tag name gives the texts the patterns look for. *)
Definition open_tag (name : string) : string := "<" +:+ name +:+ ">".
Definition close_tag (name : string) : string := "</" +:+ name +:+ ">".

(** The first closed block: the text before it, its inside and the text after. *)
Definition find_block (name s : string) : option (string * string * string) :=
  i ← find_sub (open_tag name) s;
  let after := sdrop (i + String.length (open_tag name)) s in
  j ← find_sub (close_tag name) after;
  Some (stake i s, stake j after, sdrop (j + String.length (close_tag name)) after).

(** [(?s)<name>.*?</name>] replaced by nothing; every match shortens the rest. *)
Fixpoint remove_blocks_fuel (fuel : nat) (name s : string) : string :=
  match fuel with
  | 0 => s
  | S fuel =>
      match find_block name s with
      | Some (pre, _, post) => pre +:+ remove_blocks_fuel fuel name post
      | None => s
      end
  end.

Definition remove_blocks (name s : string) : string := remove_blocks_fuel (String.length s) name s.

(** The first groups of [(?s)<name>(.*?)</name>], trimmed, without the empty ones. *)
Fixpoint block_texts_fuel (fuel : nat) (name s : string) : list string :=
  match fuel with
  | 0 => []
  | S fuel =>
      match find_block name s with
      | Some (_, inner, post) =>
          (if is_empty (trim inner) then [] else [trim inner]) ++ block_texts_fuel fuel name post
      | None => []
      end
  end.

Definition block_texts (name s : string) : list string := block_texts_fuel (String.length s) name s.

(** [(?s)^\s*<name>.*$]. *)
Definition remove_trail (name s : string) : string :=
  if starts_with (trim_start s) (open_tag name) then "" else s.

Definition tag_char (c : ascii) : bool :=
  let b := byte_of c in
  ((65 <=? b) && (b <=? 90) || (97 <=? b) && (b <=? 122) || (48 <=? b) && (b <=? 57) ||
   (b =? 95) || (b =? 45) || (b =? 58) || (b =? 62) || (b =? 47))%Z.

(** [<name(?:[^A-Za-z0-9_\-:>/]|$)], the character after the name kept. *)
Fixpoint remove_malformed_fuel (fuel : nat) (name s : string) : string :=
  match fuel, s with
  | S fuel, String c s' =>
      match strip_prefix ("<" +:+ name) s with
      | Some "" => ""
      | Some (String d rest) =>
          if tag_char d then String c (remove_malformed_fuel fuel name s')
          else String d (remove_malformed_fuel fuel name rest)
      | None => String c (remove_malformed_fuel fuel name s')
      end
  | _, _ => s
  end.

Definition remove_malformed (name s : string) : string :=
  remove_malformed_fuel (String.length s) name s.

(** [^\s*</name>\s*]. *)
Definition remove_close_start (name s : string) : string :=
  match strip_prefix (close_tag name) (trim_start s) with
  | Some rest => trim_start rest
  | None => s
  end.

Definition strip_suffix (p s : string) : option string :=
  String.rev <$> strip_prefix (String.rev p) (String.rev s).

(** [\s*</name>\s*$]. *)
Definition remove_close_end (name s : string) : string :=
  match strip_suffix (close_tag name) (trim_end s) with
  | Some rest => trim_end rest
  | None => s
  end.

(** [^\s*<\|?channel\|?>\s*]. *)
Definition remove_channel (s : string) : string :=
  match omap (λ tag, strip_prefix tag (trim_start s))
          ["<channel>"; "<|channel>"; "<channel|>"; "<|channel|>"] with
  | rest :: _ => trim_start rest
  | [] => s
  end.

(** The words the last pattern accepts before the end of a line: beginnings of tags. *)
Definition partial_tags : list string :=
  (n ← ["t"; "th"; "thi"; "thin"; "think"; "tho"; "thou"; "thoug"; "though"; "thought"];
   o ← ["<"; "</"]; c ← [""; ">"]; [o +:+ n +:+ c]) ++
  (n ← ["c"; "ch"; "cha"; "chan"; "chann"; "channe"; "channel"];
   o ← ["<"; "<|"]; c ← [""; "|"; ">"; "|>"]; [o +:+ n +:+ c]).

(** The text up to the first white space. *)
Fixpoint first_word (s : string) : string :=
  match s with
  | "" => ""
  | String c s' =>
      if String.length (trim_start s) <? String.length s then "" else String c (first_word s')
  end.

(** [\s*$] with [$] at the end of a line: [None] when it does not match, otherwise the rest. *)
Definition to_line_end (s : string) : option string :=
  let ws := stake (String.length s - String.length (trim_start s)) s in
  if is_empty (trim_start s) then Some ""
  else i ← rfind_char nl ws; Some (sdrop i s).

Fixpoint remove_partial_fuel (fuel : nat) (s : string) : string :=
  match fuel, s with
  | S fuel, String c s' =>
      let word := first_word s in
      match (if bool_decide (word ∈ partial_tags)
             then to_line_end (sdrop (String.length word) s) else None) with
      | Some rest => remove_partial_fuel fuel rest
      | None => String c (remove_partial_fuel fuel s')
      end
  | _, _ => s
  end.

Definition remove_partial (s : string) : string := remove_partial_fuel (String.length s) s.

(** [^\s*<\|?$]. *)
Definition remove_lone (s : string) : string :=
  if bool_decide (trim_start s ∈ ["<"; "<|"]) then "" else s.

Definition strip_think (text : string) : string :=
  let s := remove_blocks "think" text in
  let s := remove_trail "think" s in
  let s := remove_blocks "thought" s in
  let s := remove_trail "thought" s in
  let s := remove_malformed "think" s in
  let s := remove_malformed "thought" s in
  let s := remove_close_start "think" s in
  let s := remove_close_end "think" s in
  let s := remove_close_start "thought" s in
  let s := remove_close_end "thought" s in
  let s := remove_channel s in
  trim (remove_lone (remove_partial s)).

Definition blank_line : string := String nl (String nl "").

Definition extract_think (text : string) : option string * string :=
  let parts := block_texts "think" text ++ block_texts "thought" text in
  (match parts with [] => None | _ => Some (join blank_line parts) end, strip_think text).

(** [IncrementalThinkExtractor::feed]: the state is the text emitted so far; slicing it off
    the new text panics inside a character. *)
Definition feed (emitted buf : string) : run (string * option string) :=
  match (extract_think buf).1 with
  | None => Returns (emitted, None)
  | Some thinking =>
      if String.eqb thinking emitted then Returns (emitted, None)
      else
        let! new :=
          if String.length emitted <? String.length thinking
          then run_of_option (snd <$> split_at thinking (String.length emitted))
          else Returns thinking in
        Returns (thinking, if is_empty (trim new) then None else Some (trim new))
  end.

Definition thinking_text (tb : json) : option string :=
  match tb with
  | JObj obj =>
      if bool_decide (map_get "type" obj ≫= as_str = Some "thinking") then
        t ← map_get "thinking" obj ≫= as_str; if is_empty t then None else Some t
      else None
  | _ => None
  end.

(** The reasoning of a response and its text without it. *)
Definition extract_reasoning (reasoning_content : option string) (thinking_blocks : option (list json))
    (content : option string) : option string * option string :=
  match reasoning_content, thinking_blocks with
  | Some (String c r), _ => (Some (String c r), strip_think <$> content)
  | _, Some blocks =>
      (match filter_map thinking_text blocks with
       | [] => None
       | parts => Some (join blank_line parts)
       end, strip_think <$> content)
  | _, None =>
      match content with
      | Some c =>
          let '(thinking, cleaned) := extract_think c in
          (thinking, if is_empty cleaned then None else Some cleaned)
      | None => (None, None)
      end
  end.

(** ** Texts without tags *)

Abbreviation no_lt := (no_char "<").

Lemma no_char_app c s t : no_char c (s +:+ t) = no_char c s && no_char c t.
Proof. induction s as [|a s IH]; [done|]. rewrite sapp_cons. simpl. by rewrite IH, andb_assoc. Qed.

Lemma no_char_rev_app c s t : no_char c (String.rev_app s t) = no_char c s && no_char c t.
Proof.
  revert t. induction s as [|a s IH]; intros t; simpl; [done|]. rewrite IH. simpl.
  rewrite andb_assoc. f_equal. apply andb_comm.
Qed.

Lemma no_char_rev c s : no_char c (String.rev s) = no_char c s.
Proof. unfold String.rev. rewrite no_char_rev_app. by rewrite andb_true_r. Qed.

Lemma no_lt_prefix p s : no_lt s = true → no_lt p = false → strip_prefix p s = None.
Proof.
  intros Hs Hp. destruct (strip_prefix p s) as [r|] eqn:E; [|done].
  apply strip_prefix_Some in E as ->. by rewrite no_char_app, Hp in Hs.
Qed.

Lemma no_char_trim_start c s : no_char c s = true → no_char c (trim_start s) = true.
Proof.
  intros H. destruct (trim_start_spec s) as (w & E & _). rewrite E, no_char_app in H.
  by apply andb_true_iff in H as [_ H].
Qed.

Lemma trim_rev_suffix s : ∃ w, s = w +:+ trim_rev s.
Proof.
  induction s as [s IH] using (induction_ltof1 _ String.length). unfold ltof in IH.
  destruct s as [|a r1]; [by exists ""|]. cbn [trim_rev].
  destruct (ws1 a).
  { destruct (IH r1) as (w & E); [simpl; lia|]. exists (String a w). rewrite sapp_cons. by rewrite <-E. }
  destruct r1 as [|b r2]; [by exists ""|]. destruct (ws2 b a).
  { destruct (IH r2) as (w & E); [simpl; lia|]. exists (String a (String b w)). rewrite !sapp_cons. by rewrite <-E. }
  destruct r2 as [|c r3]; [by exists ""|]. destruct (ws3 c b a); [|by exists ""].
  destruct (IH r3) as (w & E); [simpl; lia|]. exists (String a (String b (String c w))).
  rewrite !sapp_cons. by rewrite <-E.
Qed.

Lemma no_char_trim_end c s : no_char c s = true → no_char c (trim_end s) = true.
Proof.
  intros H. unfold trim_end. rewrite no_char_rev. rewrite <-(no_char_rev c s) in H.
  destruct (trim_rev_suffix (String.rev s)) as (w & E). rewrite E, no_char_app in H.
  by apply andb_true_iff in H as [_ H].
Qed.

Lemma find_sub_no_lt p s : no_lt s = true → no_lt p = false → find_sub p s = None.
Proof.
  intros Hs Hp. induction s as [|a s IH]; simpl; unfold starts_with; rewrite no_lt_prefix by done; [done|].
  simpl in Hs. apply andb_true_iff in Hs as [_ Hs]. by rewrite IH.
Qed.

Lemma remove_blocks_plain name s : no_lt s = true → remove_blocks name s = s.
Proof.
  intros H. unfold remove_blocks. destruct (String.length s); simpl; [done|].
  unfold find_block. by rewrite find_sub_no_lt.
Qed.

Lemma block_texts_plain name s : no_lt s = true → block_texts name s = [].
Proof.
  intros H. unfold block_texts. destruct (String.length s); simpl; [done|].
  unfold find_block. by rewrite find_sub_no_lt.
Qed.

Lemma remove_malformed_plain name s : no_lt s = true → remove_malformed name s = s.
Proof.
  unfold remove_malformed. generalize (String.length s) as n. revert s.
  intros s n. revert s. induction n as [|n IH]; intros [|c s] H; try done. cbn [remove_malformed_fuel].
  rewrite no_lt_prefix by done. f_equal. apply IH. simpl in H. by apply andb_true_iff in H as [_ H].
Qed.

Lemma first_word_no_lt s : no_lt s = true → no_lt (first_word s) = true.
Proof.
  induction s as [|c s IH]; intros H; [done|]. cbn [first_word]. destruct (_ <? _); [done|].
  simpl in *. apply andb_true_iff in H as [-> H]. simpl. auto.
Qed.

Lemma partial_tags_lt : Forall (λ t, no_lt t = false) partial_tags.
Proof. by repeat constructor. Qed.

Lemma remove_partial_plain s : no_lt s = true → remove_partial s = s.
Proof.
  unfold remove_partial. generalize (String.length s) as n. intros n. revert s.
  induction n as [|n IH]; intros [|c s] H; try done. cbn [remove_partial_fuel].
  rewrite bool_decide_false.
  - f_equal. apply IH. simpl in H. by apply andb_true_iff in H as [_ H].
  - intros Hin. pose proof partial_tags_lt as Ht. rewrite Forall_forall in Ht.
    apply Ht in Hin. by rewrite first_word_no_lt in Hin.
Qed.

(** The passes after the first one leave a text without tags alone, up to trimming. *)
Lemma strip_think_after_blocks text s :
  remove_blocks "think" text = s → no_lt s = true → strip_think text = trim s.
Proof.
  intros E H. unfold strip_think. rewrite E. clear E.
  assert (∀ name, remove_trail name s = s) as Ht.
  { intros name. unfold remove_trail, starts_with.
    rewrite no_lt_prefix; [done|by apply no_char_trim_start|done]. }
  assert (∀ name, remove_close_start name s = s) as Hcs.
  { intros name. unfold remove_close_start.
    rewrite no_lt_prefix; [done|by apply no_char_trim_start|done]. }
  assert (∀ name, remove_close_end name s = s) as Hce.
  { intros name. unfold remove_close_end, strip_suffix.
    rewrite no_lt_prefix; [done|by rewrite no_char_rev, no_char_trim_end|by rewrite no_char_rev]. }
  rewrite Ht, remove_blocks_plain, Ht, !remove_malformed_plain, !Hcs, !Hce by
    (rewrite ?Ht, ?remove_malformed_plain; done).
  rewrite !Hcs, !Hce.
  assert (remove_channel s = s) as ->.
  { unfold remove_channel. cbn [omap list_omap]. by rewrite !no_lt_prefix by (done || by apply no_char_trim_start). }
  rewrite remove_partial_plain by done. unfold remove_lone. rewrite bool_decide_false; [done|].
  intros Hin. pose proof (no_char_trim_start "<" s H) as H'.
  repeat (apply elem_of_cons in Hin as [Hin|Hin]; [by rewrite Hin in H'|]).
  by apply not_elem_of_nil in Hin.
Qed.

(** Searching past a text without tags. *)
Lemma find_sub_skip p pre s :
  no_lt pre = true → find_sub (String "<" p) (pre +:+ s) = (λ i, String.length pre + i) <$> find_sub (String "<" p) s.
Proof.
  induction pre as [|c pre IH]; intros H.
  - rewrite sapp_nil_l. by destruct (find_sub _ s).
  - rewrite sapp_cons. simpl in H. apply andb_true_iff in H as [Hc H].
    cbn [find_sub]. assert (starts_with (String c (pre +:+ s)) (String "<" p) = false) as ->.
    { unfold starts_with. cbn [strip_prefix]. apply negb_true_iff in Hc. rewrite Ascii.eqb_sym in Hc. by rewrite Hc. }
    rewrite IH by done. by destruct (find_sub _ s).
Qed.

Lemma starts_with_app p s : starts_with (p +:+ s) p = true.
Proof.
  unfold starts_with. assert (strip_prefix p (p +:+ s) = Some s) as ->; [|done].
  induction p as [|a p IH]; [done|]. rewrite sapp_cons. simpl. by rewrite Ascii.eqb_refl.
Qed.

Lemma find_sub_here p s : find_sub p (p +:+ s) = Some 0.
Proof.
  destruct (p +:+ s) eqn:E; cbn [find_sub]; rewrite <-E; by rewrite starts_with_app.
Qed.

Lemma sdrop_add n m s : sdrop (n + m) s = sdrop m (sdrop n s).
Proof. revert s. induction n as [|n IH]; intros [|c s]; simpl; try done. by destruct m. Qed.

Lemma find_block_at name pre inner post :
  no_lt pre = true → no_lt inner = true →
  find_block name (pre +:+ open_tag name +:+ inner +:+ close_tag name +:+ post) =
  Some (pre, inner, post).
Proof.
  intros Hpre Hin. unfold find_block.
  assert (∀ s t, no_lt s = true →
    find_sub (open_tag name) (s +:+ t) = (λ i, String.length s + i) <$> find_sub (open_tag name) t) as Ho
    by (intros s t; apply find_sub_skip).
  assert (∀ s t, no_lt s = true →
    find_sub (close_tag name) (s +:+ t) = (λ i, String.length s + i) <$> find_sub (close_tag name) t) as Hc
    by (intros s t; apply find_sub_skip).
  rewrite Ho, find_sub_here by done. cbn [fmap option_fmap option_map mbind option_bind].
  rewrite Nat.add_0_r, sdrop_add, sdrop_length_app, sdrop_length_app.
  rewrite Hc, find_sub_here by done. cbn [fmap option_fmap option_map mbind option_bind].
  by rewrite Nat.add_0_r, sdrop_add, !sdrop_length_app, !stake_length_app.
Qed.

(** A text with one block and no other tags. *)
Definition with_block (pre inner post : string) : string :=
  pre +:+ open_tag "think" +:+ inner +:+ close_tag "think" +:+ post.

Lemma with_block_length pre inner post : ∃ n, String.length (with_block pre inner post) = S n.
Proof.
  unfold with_block. rewrite !slength_app. exists (String.length pre + (6 + (String.length inner +
    (String.length (close_tag "think") + String.length post)))). change (String.length (open_tag "think")) with 7. lia.
Qed.

Lemma thought_not_found pre inner post :
  no_lt pre = true → no_lt inner = true → no_lt post = true →
  find_sub (open_tag "thought") (with_block pre inner post) = None.
Proof.
  intros Hpre Hin Hpost. unfold with_block.
  change (open_tag "thought") with (String "<" "thought>"). rewrite find_sub_skip by done.
  change (open_tag "think" +:+ inner +:+ close_tag "think" +:+ post) with
    (String "<" ("think>" +:+ inner +:+ String "<" ("/think>" +:+ post))).
  cbn [find_sub]. change (starts_with (String "<" ("think>" +:+ inner +:+ String "<" ("/think>" +:+ post)))
    (String "<" "thought>")) with false. cbv iota.
  rewrite sapp_assoc, find_sub_skip by (by rewrite no_char_app, Hin).
  cbn [find_sub]. change (starts_with (String "<" ("/think>" +:+ post)) (String "<" "thought>")) with false.
  cbv iota. rewrite find_sub_no_lt; [done| |done]. by rewrite no_char_app, Hpost.
Qed.

(** A thinking block is separated from the answer: for a text with one closed block and no
    other tags, [extract_think] returns the inside of the block, trimmed, as the reasoning,
    or none when it is blank, and the rest of the text, trimmed, as the answer; a text
    without tags has no reasoning and is only trimmed. *)
Theorem extract_think_block (pre inner post : string) :
  no_lt pre = true → no_lt inner = true → no_lt post = true →
  extract_think (with_block pre inner post) =
    (if is_empty (trim inner) then None else Some (trim inner), trim (pre +:+ post)) ∧
  extract_think pre = (None, trim pre).
Proof.
  intros Hpre Hin Hpost. unfold extract_think. split.
  2: { rewrite !block_texts_plain by done. f_equal.
       apply strip_think_after_blocks; [by apply remove_blocks_plain|done]. }
  destruct (with_block_length pre inner post) as (n & En).
  assert (no_lt (pre +:+ post) = true) as Hrest by (by rewrite no_char_app, Hpre, Hpost).
  f_equal.
  - assert (block_texts "thought" (with_block pre inner post) = []) as ->.
    { unfold block_texts. rewrite En. cbn [block_texts_fuel]. unfold find_block.
      by rewrite thought_not_found. }
    rewrite app_nil_r. unfold block_texts. rewrite En. cbn [block_texts_fuel].
    unfold with_block. rewrite find_block_at by done.
    assert (block_texts_fuel n "think" post = []) as ->.
    { destruct n; [done|]. cbn [block_texts_fuel]. unfold find_block. by rewrite find_sub_no_lt. }
    by destruct (is_empty (trim inner)).
  - apply strip_think_after_blocks; [|done]. unfold remove_blocks. rewrite En.
    cbn [remove_blocks_fuel]. unfold with_block. rewrite find_block_at by done. f_equal.
    destruct n; [done|]. cbn [remove_blocks_fuel]. unfold find_block. by rewrite find_sub_no_lt.
Qed.

Lemma extract_think_block_witness :
  extract_think "so <think> plan </think>: done" = (Some "plan", "so : done").
Proof.
  pose proof (extract_think_block "so " " plan " ": done" eq_refl eq_refl eq_refl) as [H _]. exact H.
Defined.

(** Blocks are removed in one pass: removing one can make another, which reaches the answer. *)
Theorem nested_think_leaks :
  strip_think "a<thi<think></think>nk>secret</think>" = "a<think>secret".
Proof. vm_compute. reflexivity. Qed.

(** The incremental extractor assumes that the reasoning only grows at its end; a [think] block
    after a [thought] block comes first, and the slice can split a character. *)
Theorem feed_panics :
  feed "" "<thought>ab</thought>" = Returns ("ab", Some "ab") ∧
  feed "ab" "<thought>ab</thought><think>xéz</think>" = Panics.
Proof. vm_compute. split; reflexivity. Qed.
