(* ===== verification/ToolSchema.v ===== *)
(** * Tool parameters: casting and validation

    [crates/agent/src/tools/schema.rs] and the casting functions of
    [crates/agent/src/tools/base.rs].  A schema is a JSON value; casting follows it to repair
    the types a model got wrong, validation lists what is still wrong.  Error messages are
    values: their texts only differ in wording. *)

From S2P Require Import Prelude RustStr F64 Json.

Local Open Scope stdpp_scope.

(** ** Numbers and equality of JSON values *)

Definition as_f64 (v : json) : option f64 :=
  match v with JInt z => Some (f64_of_Z z) | JFloat x => Some x | _ => None end.

(** [Number::from_f64] refuses infinities and NaN. *)
Definition number_from_f64 (x : f64) : option json :=
  if f64_is_finite x then Some (JFloat x) else None.

(** [str::parse::<i64>]. *)
Definition parse_i64 (s : string) : option Z :=
  let '(neg, body) := take_sign s in
  let '(v, n, rest) := take_digits body 0 0 in
  let z := if neg then (- v)%Z else v in
  if (0 <? n) && is_empty rest && in_i64 z then Some z else None.

(** [==] on values: objects are equal as maps, zeros whatever their sign. *)
Fixpoint json_eqb (v w : json) {struct v} : bool :=
  match v, w with
  | JNull, JNull => true
  | JBool a, JBool b => Bool.eqb a b
  | JInt a, JInt b => (a =? b)%Z
  | JFloat a, JFloat b => SFeqb a b
  | JStr a, JStr b => String.eqb a b
  | JArr a, JArr b =>
      (fix go (a b : list json) : bool :=
         match a, b with
         | [], [] => true
         | x :: a, y :: b => json_eqb x y && go a b
         | _, _ => false
         end) a b
  | JObj a, JObj b =>
      (length a =? length b) &&
      (fix go (a : list (string * json)) : bool :=
         match a with
         | [] => true
         | (k, x) :: a => match map_get k b with Some y => json_eqb x y | None => false end && go a
         end) a
  | _, _ => false
  end.

(** ** Schemas *)

Definition resolve_json_schema_type (t : json) : option string :=
  match t with
  | JStr s => Some s
  | JArr items =>
      head (filter_map (λ v, match as_str v with
                             | Some s => if String.eqb s "null" then None else Some s
                             | None => None
                             end) items)
  | _ => None
  end.

Definition schema_type (schema : list (string * json)) : option string :=
  resolve_json_schema_type (default JNull (map_get "type" schema)).

Definition is_nullable (schema : list (string * json)) : bool :=
  match map_get "type" schema with
  | Some (JArr l) => existsb (λ v, bool_decide (as_str v = Some "null")) l
  | _ => false
  end || default false (map_get "nullable" schema ≫= as_bool).

Definition properties (schema : list (string * json)) : list (string * json) :=
  default [] (map_get "properties" schema ≫= as_object).

Definition is_integer (v : json) : bool := match v with JInt _ => true | _ => false end.
Definition is_number_non_bool (v : json) : bool :=
  match v with JInt _ | JFloat _ => true | _ => false end.
Definition is_string (v : json) : bool := match v with JStr _ => true | _ => false end.
Definition is_boolean (v : json) : bool := match v with JBool _ => true | _ => false end.
Definition is_array (v : json) : bool := match v with JArr _ => true | _ => false end.
Definition is_object (v : json) : bool := match v with JObj _ => true | _ => false end.

(** ** Validation *)

Inductive SchemaError :=
| ShouldBe (label ty : string)
| NotOneOf (label : string) (values : list json)
| BelowMinimum (label : string) (bound : f64)
| AboveMaximum (label : string) (bound : f64)
| TooShort (label : string) (bound : Z)
| TooLong (label : string) (bound : Z)
| MissingRequired (path : string)
| TooFewItems (label : string) (bound : Z)
| TooManyItems (label : string) (bound : Z).

Definition subpath (path key : string) : string :=
  if is_empty path then key else path +:+ "." +:+ key.

(** [replace("{}", by)] on the pattern of an array element. *)
Fixpoint replace_braces (by_ s : string) : string :=
  match s with
  | String a s' =>
      match s' with
      | String b s'' =>
          if Ascii.eqb a "{" && Ascii.eqb b "}" then by_ +:+ replace_braces by_ s''
          else String a (replace_braces by_ s')
      | "" => s
      end
  | "" => ""
  end.

Definition item_path (path : string) (i : nat) : string :=
  replace_braces (pretty i) (path +:+ "[{}]").

(** The type named by the schema is the type of the value. *)
Definition type_matches (ty : option string) (v : json) : bool :=
  match ty with
  | Some t =>
      if String.eqb t "integer" then is_integer v
      else if String.eqb t "number" then is_number_non_bool v
      else if String.eqb t "string" then is_string v
      else if String.eqb t "boolean" then is_boolean v
      else if String.eqb t "array" then is_array v
      else if String.eqb t "object" then is_object v
      else true
  | None => true
  end.

Definition type_is (ty : option string) (t : string) : bool := bool_decide (ty = Some t).

Definition enum_errors (label : string) (schema : list (string * json)) (v : json) : list SchemaError :=
  match map_get "enum" schema ≫= as_array with
  | Some en => if existsb (λ w, json_eqb w v) en then [] else [NotOneOf label en]
  | None => []
  end.

Definition bound_errors {B} (violated : B → bool) (err : B → SchemaError) (bound : option B)
    : list SchemaError :=
  match bound with
  | Some b => if violated b then [err b] else []
  | None => []
  end.

Definition number_errors (label : string) (schema : list (string * json)) (v : json) : list SchemaError :=
  match as_f64 v with
  | Some n =>
      bound_errors (λ b, f64_lt n b) (BelowMinimum label) (map_get "minimum" schema ≫= as_f64) ++
      bound_errors (λ b, f64_gt n b) (AboveMaximum label) (map_get "maximum" schema ≫= as_f64)
  | None => []
  end.

Definition string_errors (label : string) (schema : list (string * json)) (v : json) : list SchemaError :=
  match v with
  | JStr s =>
      let n := Z.of_nat (chars_count s) in
      bound_errors (λ b, n <? b)%Z (TooShort label) (map_get "minLength" schema ≫= as_u64) ++
      bound_errors (λ b, b <? n)%Z (TooLong label) (map_get "maxLength" schema ≫= as_u64)
  | _ => []
  end.

Definition length_errors (label : string) (schema : list (string * json)) (arr : list json)
    : list SchemaError :=
  let n := Z.of_nat (length arr) in
  bound_errors (λ b, n <? b)%Z (TooFewItems label) (map_get "minItems" schema ≫= as_u64) ++
  bound_errors (λ b, b <? n)%Z (TooManyItems label) (map_get "maxItems" schema ≫= as_u64).

Definition required_keys (schema : list (string * json)) : list string :=
  filter_map as_str (default [] (map_get "required" schema ≫= as_array)).

Definition required_errors (path : string) (schema obj : list (string * json)) : list SchemaError :=
  filter_map (λ k, if map_contains_key k obj then None else Some (MissingRequired (subpath path k)))
    (required_keys schema).

Definition label_of (path : string) : string := if is_empty path then "parameter" else path.

Fixpoint validate_json_schema_value (v schema : json) (path : string) {struct v} : list SchemaError :=
  match schema with
  | JObj so =>
      if is_nullable so && is_null v then []
      else
        let ty := schema_type so in
        let label := label_of path in
        if negb (type_matches ty v) then [ShouldBe label (default "" ty)]
        else
          enum_errors label so v ++
          (if type_is ty "integer" || type_is ty "number" then number_errors label so v
           else if type_is ty "string" then string_errors label so v
           else if type_is ty "object" then
             match v with
             | JObj obj =>
                 required_errors path so obj ++
                 (fix members (obj : list (string * json)) : list SchemaError :=
                    match obj with
                    | [] => []
                    | (k, x) :: obj =>
                        match map_get k (properties so) with
                        | Some sub => validate_json_schema_value x sub (subpath path k)
                        | None => []
                        end ++ members obj
                    end) obj
             | _ => []
             end
           else if type_is ty "array" then
             match v with
             | JArr arr =>
                 length_errors label so arr ++
                 match map_get "items" so with
                 | Some items =>
                     (fix elems (i : nat) (arr : list json) : list SchemaError :=
                        match arr with
                        | [] => []
                        | x :: arr =>
                            validate_json_schema_value x items (item_path path i) ++ elems (S i) arr
                        end) 0 arr
                 | None => []
                 end
             | _ => []
             end
           else [])
  | _ => []
  end.

(** ** Casting *)

Section Cast.
(** [serde_json::to_string]. *)
Variable to_string : json → string.

Definition cast_boolean (v : json) : json :=
  match v with
  | JBool b => JBool b
  | JStr s =>
      let low := to_lowercase s in
      if bool_decide (low ∈ ["true"; "1"; "yes"]) then JBool true
      else if bool_decide (low ∈ ["false"; "0"; "no"]) then JBool false
      else v
  | _ => v
  end.

Definition cast_integer (v : json) : json :=
  match v with
  | JStr s => match parse_i64 s with Some n => JInt n | None => v end
  | _ => v
  end.

Definition cast_number (v : json) : json :=
  match as_f64 v with
  | Some n => default v (number_from_f64 n)
  | None =>
      match v with
      | JStr s => default v (parse_f64 s ≫= number_from_f64)
      | _ => v
      end
  end.

Definition cast_string (v : json) : json :=
  match v with
  | JNull | JStr _ => v
  | _ => JStr (to_string v)
  end.

Fixpoint cast_value (v schema : json) {struct v} : json :=
  match jget "type" schema with
  | None => v
  | Some ty_val =>
      let t := resolve_json_schema_type ty_val in
      if type_is t "boolean" then cast_boolean v
      else if type_is t "integer" then cast_integer v
      else if type_is t "number" then cast_number v
      else if type_is t "string" then cast_string v
      else if type_is t "array" then
        match v, jget "items" schema with
        | JArr items, Some items_schema =>
            JArr ((fix go (l : list json) : list json :=
                     match l with [] => [] | x :: l => cast_value x items_schema :: go l end) items)
        | _, _ => v
        end
      else if type_is t "object" then
        match v with
        | JObj obj =>
            JObj ((fix go (m : list (string * json)) : list (string * json) :=
                     match m with
                     | [] => []
                     | (k, x) :: m =>
                         (k, match map_get k (default [] (jget "properties" schema ≫= as_object)) with
                             | Some sub => cast_value x sub
                             | None => x
                             end) :: go m
                     end) obj)
        | _ => v
        end
      else v
  end.

Definition cast_object (v schema : json) : json :=
  match v with
  | JObj obj =>
      let props := default [] (jget "properties" schema ≫= as_object) in
      JObj ((λ kx, (kx.1, match map_get kx.1 props with
                          | Some sub => cast_value kx.2 sub
                          | None => kx.2
                          end)) <$> obj)
  | _ => v
  end.

(** [Tool::cast_params] and [Tool::validate_params] of a tool with the given schema. *)
Definition cast_params (parameters params : json) : json :=
  if negb (String.eqb (default "object" (get_str "type" parameters)) "object") then params
  else cast_object params parameters.

Definition type_name (v : json) : string :=
  match v with
  | JNull => "null"
  | JBool _ => "bool"
  | JInt _ | JFloat _ => "number"
  | JStr _ => "string"
  | JArr _ => "list"
  | JObj _ => "dict"
  end.

Inductive ParamError :=
| NotAnObject (ty : string)
| Invalid (e : SchemaError).

Definition validate_params (parameters params : json) : list ParamError :=
  if negb (is_object params) then [NotAnObject (type_name params)]
  else
    let schema :=
      match parameters with
      | JObj obj =>
          if str_field_is "type" "object" parameters then parameters
          else JObj (map_insert "type" (JStr "object") obj)
      | _ => parameters
      end in
    Invalid <$> validate_json_schema_value params schema "".
End Cast.

(** ** What a schema asks for *)

(** A bound holds when it is absent or not violated. *)
Definition within {B} (bound : option B) (ok : B → Prop) : Prop :=
  ∀ b, bound = Some b → ok b.

Definition enum_ok (schema : list (string * json)) (v : json) : Prop :=
  within (map_get "enum" schema ≫= as_array) (λ en, ∃ w, w ∈ en ∧ json_eqb w v = true).

Definition range_ok (schema : list (string * json)) (v : json) : Prop :=
  ∀ n, as_f64 v = Some n →
    within (map_get "minimum" schema ≫= as_f64) (λ b, f64_lt n b = false) ∧
    within (map_get "maximum" schema ≫= as_f64) (λ b, f64_gt n b = false).

Definition chars_ok (schema : list (string * json)) (v : json) : Prop :=
  ∀ s, v = JStr s →
    within (map_get "minLength" schema ≫= as_u64) (λ b, b <= Z.of_nat (chars_count s))%Z ∧
    within (map_get "maxLength" schema ≫= as_u64) (λ b, Z.of_nat (chars_count s) <= b)%Z.

Definition items_ok (schema : list (string * json)) (arr : list json) : Prop :=
  within (map_get "minItems" schema ≫= as_u64) (λ b, b <= Z.of_nat (length arr))%Z ∧
  within (map_get "maxItems" schema ≫= as_u64) (λ b, Z.of_nat (length arr) <= b)%Z.

(** [conforms schema v]: the value has the type the schema names and meets its bounds, and so
    do the members and elements the schema describes. *)
Inductive conforms : json → json → Prop :=
| conforms_any schema v : is_object schema = false → conforms schema v
| conforms_null so : is_nullable so = true → conforms (JObj so) JNull
| conforms_typed so v :
    type_matches (schema_type so) v = true →
    enum_ok so v →
    (schema_type so = Some "integer" ∨ schema_type so = Some "number" → range_ok so v) →
    (schema_type so = Some "string" → chars_ok so v) →
    (schema_type so = Some "object" → ∀ obj k, v = JObj obj →
       k ∈ required_keys so → map_contains_key k obj = true) →
    (schema_type so = Some "object" → ∀ obj k x sub, v = JObj obj →
       (k, x) ∈ obj → map_get k (properties so) = Some sub → conforms sub x) →
    (schema_type so = Some "array" → ∀ arr, v = JArr arr → items_ok so arr) →
    (schema_type so = Some "array" → ∀ arr x items, v = JArr arr →
       x ∈ arr → map_get "items" so = Some items → conforms items x) →
    conforms (JObj so) v.

(** *** Each list of errors is empty exactly when its condition holds *)

Lemma bound_errors_nil {B} (violated : B → bool) err bound :
  bound_errors violated err bound = [] ↔ within bound (λ b, violated b = false).
Proof.
  unfold bound_errors, within. destruct bound as [b|]; [|by split].
  destruct (violated b) eqn:E; (split; [done || (intros _ ? [= <-]; done)|]); [|done].
  intros H. specialize (H b eq_refl). congruence.
Qed.

Lemma within_iff {B} (bound : option B) (P Q : B → Prop) :
  (∀ b, P b ↔ Q b) → within bound P ↔ within bound Q.
Proof. intros H. unfold within. split; intros Hw b Hb; apply H; auto. Qed.

Lemma enum_errors_nil label so v : enum_errors label so v = [] ↔ enum_ok so v.
Proof.
  unfold enum_errors, enum_ok, within. destruct (map_get "enum" so ≫= as_array) as [en|]; [|by split].
  destruct (existsb (λ w, json_eqb w v) en) eqn:E; split; try done.
  - intros _ ? [= <-]. apply existsb_exists in E as (w & Hw & Hv). exists w.
    by rewrite list_elem_of_In.
  - intros H. destruct (H en eq_refl) as (w & Hw & Hv).
    assert (existsb (λ w, json_eqb w v) en = true) as E'; [|congruence].
    apply existsb_exists. exists w. by rewrite <-list_elem_of_In.
Qed.

Lemma number_errors_nil label so v : number_errors label so v = [] ↔ range_ok so v.
Proof.
  unfold number_errors, range_ok. destruct (as_f64 v) as [n|]; [|by split].
  rewrite app_nil, !bound_errors_nil. split; [by intros ? ? [= <-]|eauto].
Qed.

Lemma string_errors_nil label so v : string_errors label so v = [] ↔ chars_ok so v.
Proof.
  unfold string_errors, chars_ok. destruct v as [| | | |s| |]; try by split.
  rewrite app_nil, !bound_errors_nil.
  rewrite (within_iff _ _ (λ b, b <= Z.of_nat (chars_count s))%Z) by (intros; apply Z.ltb_ge).
  rewrite (within_iff (map_get "maxLength" so ≫= as_u64) _ (λ b, Z.of_nat (chars_count s) <= b)%Z)
    by (intros; apply Z.ltb_ge).
  split; [by intros ? ? [= <-]|eauto].
Qed.

Lemma length_errors_nil label so arr : length_errors label so arr = [] ↔ items_ok so arr.
Proof.
  unfold length_errors, items_ok. rewrite app_nil, !bound_errors_nil.
  rewrite (within_iff _ _ (λ b, b <= Z.of_nat (length arr))%Z) by (intros; apply Z.ltb_ge).
  by rewrite (within_iff (map_get "maxItems" so ≫= as_u64) _ (λ b, Z.of_nat (length arr) <= b)%Z)
    by (intros; apply Z.ltb_ge).
Qed.

Lemma required_errors_nil path so obj :
  required_errors path so obj = [] ↔ ∀ k, k ∈ required_keys so → map_contains_key k obj = true.
Proof.
  unfold required_errors. induction (required_keys so) as [|k ks IH]; simpl.
  - split; [|done]. intros _ k Hk. by apply not_elem_of_nil in Hk.
  - destruct (map_contains_key k obj) eqn:E.
    + rewrite IH. setoid_rewrite elem_of_cons. naive_solver.
    + split; [done|]. intros H. rewrite H in E; [done|left].
Qed.

Lemma type_is_true ty t : type_is ty t = true ↔ ty = Some t.
Proof. unfold type_is. apply bool_decide_eq_true. Qed.

Lemma type_is_false ty t : type_is ty t = false ↔ ty ≠ Some t.
Proof. unfold type_is. apply bool_decide_eq_false. Qed.

(** The inner loops of the validator. *)
Lemma members_nil so path obj :
  Forall (λ kx, ∀ schema path, validate_json_schema_value kx.2 schema path = [] ↔ conforms schema kx.2) obj →
  (fix members (obj : list (string * json)) : list SchemaError :=
     match obj with
     | [] => []
     | (k, x) :: obj =>
         match map_get k (properties so) with
         | Some sub => validate_json_schema_value x sub (subpath path k)
         | None => []
         end ++ members obj
     end) obj = [] ↔
  ∀ k x sub, (k, x) ∈ obj → map_get k (properties so) = Some sub → conforms sub x.
Proof.
  induction 1 as [|[k x] obj Hx _ IH]; simpl in *.
  - split; [|done]. intros _ k x sub Hk. by apply not_elem_of_nil in Hk.
  - rewrite app_nil, IH. split.
    + intros [H1 H2] k' x' sub [[= -> ->]|Hin]%elem_of_cons Hsub; [|eauto].
      rewrite Hsub in H1. by eapply Hx.
    + intros H. split; [|intros; eapply H; [by right|done]].
      destruct (map_get k (properties so)) as [sub|] eqn:E; [|done]. apply Hx.
      eapply H; [left|done].
Qed.

Lemma elems_nil items path i arr :
  Forall (λ x, ∀ schema path, validate_json_schema_value x schema path = [] ↔ conforms schema x) arr →
  (fix elems (i : nat) (arr : list json) : list SchemaError :=
     match arr with
     | [] => []
     | x :: arr => validate_json_schema_value x items (item_path path i) ++ elems (S i) arr
     end) i arr = [] ↔
  ∀ x, x ∈ arr → conforms items x.
Proof.
  intros H. revert i. induction H as [|x arr Hx _ IH]; intros i.
  - split; [|done]. intros _ x Hk. by apply not_elem_of_nil in Hk.
  - rewrite app_nil, IH, Hx. setoid_rewrite elem_of_cons. naive_solver.
Qed.

(** Both directions for one value whose parts are settled. *)
Definition validates (v : json) : Prop :=
  ∀ schema path, validate_json_schema_value v schema path = [] ↔ conforms schema v.

(** The part of the validator after the type and the enumeration. *)
Definition detail_errors (so : list (string * json)) (v : json) (path : string) : list SchemaError :=
  let ty := schema_type so in
  let label := label_of path in
  if type_is ty "integer" || type_is ty "number" then number_errors label so v
  else if type_is ty "string" then string_errors label so v
  else if type_is ty "object" then
    match v with
    | JObj obj => required_errors path so obj ++
        (fix members (obj : list (string * json)) : list SchemaError :=
           match obj with
           | [] => []
           | (k, x) :: obj =>
               match map_get k (properties so) with
               | Some sub => validate_json_schema_value x sub (subpath path k)
               | None => []
               end ++ members obj
           end) obj
    | _ => []
    end
  else if type_is ty "array" then
    match v with
    | JArr arr => length_errors label so arr ++
        match map_get "items" so with
        | Some items =>
            (fix elems (i : nat) (arr : list json) : list SchemaError :=
               match arr with
               | [] => []
               | x :: arr => validate_json_schema_value x items (item_path path i) ++ elems (S i) arr
               end) 0 arr
        | None => []
        end
    | _ => []
    end
  else [].

Lemma validate_unfold v so path :
  validate_json_schema_value v (JObj so) path =
  (if is_nullable so && is_null v then []
   else if negb (type_matches (schema_type so) v)
   then [ShouldBe (label_of path) (default "" (schema_type so))]
   else enum_errors (label_of path) so v ++ detail_errors so v path).
Proof. by destruct v. Qed.

(** What [detail_errors] checks, as the premises of [conforms_typed]. *)
Definition details_ok (so : list (string * json)) (v : json) : Prop :=
  (schema_type so = Some "integer" ∨ schema_type so = Some "number" → range_ok so v) ∧
  (schema_type so = Some "string" → chars_ok so v) ∧
  (schema_type so = Some "object" → ∀ obj k, v = JObj obj →
     k ∈ required_keys so → map_contains_key k obj = true) ∧
  (schema_type so = Some "object" → ∀ obj k x sub, v = JObj obj →
     (k, x) ∈ obj → map_get k (properties so) = Some sub → conforms sub x) ∧
  (schema_type so = Some "array" → ∀ arr, v = JArr arr → items_ok so arr) ∧
  (schema_type so = Some "array" → ∀ arr x items, v = JArr arr →
     x ∈ arr → map_get "items" so = Some items → conforms items x).

Lemma detail_errors_nil so v path :
  (∀ obj, v = JObj obj → Forall (λ kx, validates kx.2) obj) →
  (∀ arr, v = JArr arr → Forall validates arr) →
  detail_errors so v path = [] ↔ details_ok so v.
Proof.
  intros Hobj Harr. unfold detail_errors, details_ok.
  destruct (type_is (schema_type so) "integer" || type_is (schema_type so) "number") eqn:En.
  { rewrite number_errors_nil. apply orb_true_iff in En.
    rewrite !type_is_true in En. split; [|naive_solver].
    intros H. split_and!; intros; destruct En; congruence || done. }
  apply orb_false_iff in En as [E1 E2]. rewrite type_is_false in E1, E2.
  destruct (type_is (schema_type so) "string") eqn:E3.
  { rewrite string_errors_nil. apply type_is_true in E3. split; [|naive_solver].
    intros H. split_and!; intros; (congruence || naive_solver). }
  destruct (type_is (schema_type so) "object") eqn:E4.
  { apply type_is_true in E4. destruct v as [| | | | | |obj]; try (split; [|done]; naive_solver congruence).
    rewrite app_nil, required_errors_nil, members_nil by (by apply Hobj).
    split; [|naive_solver]. intros [H1 H2]. split_and!; naive_solver congruence. }
  destruct (type_is (schema_type so) "array") eqn:E5.
  2: { rewrite type_is_false in E3, E4, E5. split; [|done]. intros _. split_and!; naive_solver. }
  apply type_is_true in E5. destruct v as [| | | | |arr|]; try (split; [|done]; naive_solver congruence).
  rewrite app_nil, length_errors_nil. destruct (map_get "items" so) as [items|].
  - rewrite elems_nil by (by apply Harr). split; [|naive_solver]. intros [H1 H2].
    split_and!; naive_solver congruence.
  - split; [|naive_solver]. intros [H1 _]. split_and!; naive_solver congruence.
Qed.

Lemma conforms_typed_iff so v :
  is_nullable so && is_null v = false →
  conforms (JObj so) v ↔ type_matches (schema_type so) v = true ∧ enum_ok so v ∧ details_ok so v.
Proof.
  intros Hn. split.
  - intros H. inversion H; subst; [done|simpl in Hn; by rewrite andb_true_r in Hn; congruence|].
    unfold details_ok. auto 10.
  - intros (H1 & H2 & H3 & H4 & H5 & H6 & H7 & H8). by apply conforms_typed.
Qed.

Lemma validates_step v :
  (∀ obj, v = JObj obj → Forall (λ kx, validates kx.2) obj) →
  (∀ arr, v = JArr arr → Forall validates arr) → validates v.
Proof.
  intros Hobj Harr schema path. destruct (is_object schema) eqn:Es.
  2: { split; [intros _; by apply conforms_any|]. intros _. by destruct v, schema. }
  destruct schema as [| | | | | |so]; try done. rewrite validate_unfold.
  destruct (is_nullable so && is_null v) eqn:En.
  { split; [|done]. intros _. apply andb_true_iff in En as [En Hv]. destruct v; try done.
    by apply conforms_null. }
  rewrite conforms_typed_iff by done. destruct (type_matches (schema_type so) v); simpl.
  - rewrite app_nil, enum_errors_nil, detail_errors_nil by done. tauto.
  - split; [done|]. by intros [? _].
Qed.

Lemma validate_conforms v : validates v.
Proof.
  induction v as [| | | | |l IH|m IH] using json_nested_ind; apply validates_step; try done;
    naive_solver.
Qed.

(** ** Casting once is enough *)

Section CastFacts.
Variable to_string : json → string.
Abbreviation cast := (cast_value to_string).

Definition cast_member (schema : json) (kx : string * json) : string * json :=
  (kx.1, match map_get kx.1 (default [] (jget "properties" schema ≫= as_object)) with
         | Some sub => cast kx.2 sub
         | None => kx.2
         end).

(** The casts of scalars and the recursion, without the inner loops. *)
Lemma cast_unfold v schema :
  cast v schema =
  match jget "type" schema with
  | None => v
  | Some ty_val =>
      let t := resolve_json_schema_type ty_val in
      if type_is t "boolean" then cast_boolean v
      else if type_is t "integer" then cast_integer v
      else if type_is t "number" then cast_number v
      else if type_is t "string" then cast_string to_string v
      else if type_is t "array" then
        match v, jget "items" schema with
        | JArr items, Some items_schema => JArr ((λ x, cast x items_schema) <$> items)
        | _, _ => v
        end
      else if type_is t "object" then
        match v with JObj obj => JObj (cast_member schema <$> obj) | _ => v end
      else v
  end.
Proof.
  assert (∀ items_schema l,
    (fix go (l : list json) : list json :=
       match l with [] => [] | x :: l => cast x items_schema :: go l end) l =
    (λ x, cast x items_schema) <$> l) as Hl.
  { intros items_schema l. induction l as [|x l IH]; [done|]. csimpl. by rewrite IH. }
  assert (∀ m,
    (fix go (m : list (string * json)) : list (string * json) :=
       match m with
       | [] => []
       | (k, x) :: m =>
           (k, match map_get k (default [] (jget "properties" schema ≫= as_object)) with
               | Some sub => cast x sub
               | None => x
               end) :: go m
       end) m = cast_member schema <$> m) as Hm.
  { intros m. induction m as [|[k x] m IH]; [done|]. csimpl. by rewrite IH. }
  destruct v; cbn [cast_value]; rewrite ?Hm; destruct (jget "type" schema); try done;
    destruct (jget "items" schema); rewrite ?Hl; done.
Qed.

Lemma cast_boolean_idem v : cast_boolean (cast_boolean v) = cast_boolean v.
Proof.
  destruct v as [| | | |s| |]; try done. simpl.
  destruct (bool_decide (to_lowercase s ∈ ["true"; "1"; "yes"])) eqn:E1; [done|].
  destruct (bool_decide (to_lowercase s ∈ ["false"; "0"; "no"])) eqn:E2; [done|].
  simpl. by rewrite E1, E2.
Qed.

Lemma cast_integer_idem v : cast_integer (cast_integer v) = cast_integer v.
Proof.
  destruct v as [| | | |s| |]; try done. simpl.
  destruct (parse_i64 s) eqn:E; simpl; [done|by rewrite E].
Qed.

Lemma number_from_f64_cast n w : number_from_f64 n = Some w → cast_number w = w.
Proof.
  unfold number_from_f64. destruct (f64_is_finite n) eqn:E; [|done]. intros [= <-].
  unfold cast_number, number_from_f64. simpl. by rewrite E.
Qed.

Lemma cast_number_idem v : cast_number (cast_number v) = cast_number v.
Proof.
  unfold cast_number at 2 3. destruct (as_f64 v) as [n|] eqn:E.
  - destruct (number_from_f64 n) as [w|] eqn:Ew; simpl; [by eapply number_from_f64_cast|].
    unfold cast_number. by rewrite E, Ew.
  - destruct v as [| | | |s| |]; try done.
    destruct (parse_f64 s ≫= number_from_f64) as [w|] eqn:Ew; simpl.
    + apply bind_Some in Ew as (n & _ & Ew). by eapply number_from_f64_cast.
    + unfold cast_number. simpl. by rewrite Ew.
Qed.

Lemma cast_string_idem v : cast_string to_string (cast_string to_string v) = cast_string to_string v.
Proof. by destruct v. Qed.

Lemma cast_member_fst schema obj : (cast_member schema <$> obj).*1 = obj.*1.
Proof. rewrite <-list_fmap_compose. apply list_fmap_ext. by intros i [k x] _. Qed.

Lemma cast_idem v schema : cast (cast v schema) schema = cast v schema.
Proof.
  revert schema. induction v as [| | | | |l IH|m IH] using json_nested_ind; intros schema;
    rewrite (cast_unfold _ schema), cast_unfold; destruct (jget "type" schema) as [ty|]; try done;
    cbv zeta;
    (destruct (type_is _ "boolean"); [apply cast_boolean_idem|]);
    (destruct (type_is _ "integer"); [apply cast_integer_idem|]);
    (destruct (type_is _ "number"); [apply cast_number_idem|]);
    (destruct (type_is _ "string"); [apply cast_string_idem|]);
    (destruct (type_is _ "array")); try done;
    try (destruct (type_is _ "object"); [|done]); try done.
  - destruct (jget "items" schema) as [items|]; [|done]. f_equal.
    rewrite <-list_fmap_compose. apply list_fmap_ext. intros i x Hx. simpl.
    rewrite Forall_lookup in IH. by eapply IH.
  - f_equal. rewrite <-list_fmap_compose. apply list_fmap_ext. intros i [k x] Hx.
    rewrite Forall_lookup in IH. unfold cast_member. simpl.
    destruct (map_get k _) as [sub|] eqn:E; [|done]. f_equal. exact (IH i (k, x) Hx sub).
Qed.

Lemma cast_object_idem v schema :
  cast_object to_string (cast_object to_string v schema) schema = cast_object to_string v schema.
Proof.
  destruct v as [| | | | | |obj]; try done. simpl. f_equal.
  rewrite <-list_fmap_compose. apply list_fmap_ext. intros i [k x] _. simpl.
  destruct (map_get k _) as [sub|] eqn:E; [|done]. by rewrite cast_idem.
Qed.

(** C35: The validator is exact: it reports no error, at whatever path, exactly when the value
    conforms to the schema (types, enumerations, bounds, required members, and the same for
    every described member and element, to any depth). *)
Theorem validate_json_schema_value_exact (v schema : json) (path : string) :
  validate_json_schema_value v schema path = [] ↔ conforms schema v.
Proof. apply validate_conforms. Qed.

(** Casting parameters to their schema is idempotent and keeps the members of the object
    and their order; what it cannot cast it leaves alone. *)
Theorem cast_params_idempotent (parameters params : json) :
  cast_params to_string parameters (cast_params to_string parameters params) =
    cast_params to_string parameters params ∧
  fmap (M := option) (λ m, m.*1) (as_object (cast_params to_string parameters params)) =
    fmap (M := option) (λ m, m.*1) (as_object params).
Proof.
  unfold cast_params. destruct (negb _) eqn:E; [done|]. split; [apply cast_object_idem|].
  destruct params as [| | | | | |obj]; try done. simpl. f_equal.
  induction obj as [|kx obj IH]; [done|]. csimpl. by rewrite IH.
Qed.
End CastFacts.

(** Casting to the type [number] turns integers into floats, which are equal to no integer: a
    numeric enumeration refuses every one of its own members. *)
Theorem number_enum_refuses_members :
  let schema := JObj [("type", JStr "number"); ("enum", JArr [JInt 1; JInt 2])] in
  ∀ to_string v, v ∈ [JInt 1; JInt 2] →
    conforms schema v ∧ ¬ conforms schema (cast_value to_string v schema).
Proof.
  intros schema to_string v Hv. rewrite <-!(λ v, validate_conforms v schema "").
  unfold schema. repeat (apply elem_of_cons in Hv as [->|Hv]; [by split|]).
  by apply not_elem_of_nil in Hv.
Qed.
