(* ===== verification/ToolRegistry.v ===== *)
(** * The tool registry and its throttles

    [crates/agent/src/tools/registry.rs]: registration, the cached definitions sent to the
    model, preparation and execution of calls.  [crates/utils/src/runtime.rs]: empty results
    and the throttling of repeated lookups and boundary violations.  Tools act on a world
    [W]; the iteration order of the hash map is an argument. *)

From S2P Require Import Prelude RustStr F64 Json ToolSchema Messages.

Local Open Scope stdpp_scope.

(** ** Tools *)

(** The methods of [Tool] the registry and the runner use; casting, validation and the schema
    sent to the model are the default methods, which no tool overrides. *)
Record Tool (W : Type) := mkTool {
  t_name : string;
  t_description : string;
  t_parameters : json;
  t_read_only : bool;
  t_exclusive : bool;
  t_execute : W → json → W * result json string
}.
Arguments mkTool {W}.
Arguments t_name {W}.
Arguments t_description {W}.
Arguments t_parameters {W}.
Arguments t_read_only {W}.
Arguments t_exclusive {W}.
Arguments t_execute {W}.

Definition concurrency_safe {W} (t : Tool W) : bool := t_read_only t && negb (t_exclusive t).

Definition to_schema {W} (t : Tool W) : json :=
  JObj [("type", JStr "function");
        ("function", JObj [("name", JStr (t_name t)); ("description", JStr (t_description t));
                           ("parameters", t_parameters t)])].

Definition schema_name (schema : json) : string :=
  match jget "function" schema ≫= get_str "name" with
  | Some n => n
  | None => default "" (get_str "name" schema)
  end.

(** ** The registry *)

Record Registry (W : Type) := mkRegistry {
  tools : gmap string (Tool W);
  cached_definitions : option (list json)
}.
Arguments mkRegistry {W}.
Arguments tools {W}.
Arguments cached_definitions {W}.

Definition new_registry {W} : Registry W := mkRegistry ∅ None.

Definition register {W} (t : Tool W) (r : Registry W) : Registry W :=
  mkRegistry (<[t_name t := t]> (tools r)) None.

Definition unregister {W} (name : string) (r : Registry W) : Registry W :=
  mkRegistry (delete name (tools r)) None.

Definition get {W} (name : string) (r : Registry W) : option (Tool W) := tools r !! name.
Definition has {W} (name : string) (r : Registry W) : bool := bool_decide (is_Some (tools r !! name)).

(** [sort_by_key(schema_name)]: stable, by the bytes of the names. *)
Fixpoint insert_by_name (x : json) (l : list json) : list json :=
  match l with
  | [] => [x]
  | y :: l' => if String.ltb (schema_name x) (schema_name y) then x :: l else y :: insert_by_name x l'
  end.

Definition sort_by_name (l : list json) : list json := fold_left (λ acc x, insert_by_name x acc) l [].

Definition is_mcp (schema : json) : bool := starts_with (schema_name schema) "mcp_".

Section Registry.
Context {W : Type}.
(** The order in which the hash map yields its entries. *)
Variable iter : gmap string (Tool W) → list (string * Tool W).
Variable to_string : json → string.
(** The texts of parameter errors. *)
Variable render : ParamError → string.

Definition build_definitions (m : gmap string (Tool W)) : list json :=
  let schemas := (λ kt, to_schema kt.2) <$> iter m in
  sort_by_name (retain (λ s, negb (is_mcp s)) schemas) ++ sort_by_name (retain is_mcp schemas).

Definition get_definitions (r : Registry W) : Registry W * list json :=
  match cached_definitions r with
  | Some cached => (r, cached)
  | None => let defs := build_definitions (tools r) in (mkRegistry (tools r) (Some defs), defs)
  end.

Definition ERROR_HINT : string :=
  String nl (String nl "[Analyze the error above and try a different approach.]").

Definition prepare_call (r : Registry W) (name : string) (params : json)
    : option (Tool W) * json * option string :=
  if negb (is_object params) && bool_decide (name ∈ ["write_file"; "read_file"]) then
    (None, params,
     Some ("Error: Tool '" +:+ name +:+ "' parameters must be a JSON object, got " +:+
           type_name params +:+ ". Use named parameters: tool_name(param1=" +:+ String "034" "value1" +:+
           String "034" ", param2=" +:+ String "034" "value2" +:+ String "034" ")"))
  else
    match tools r !! name with
    | None =>
        (None, params,
         Some ("Error: Tool '" +:+ name +:+ "' not found. Available: " +:+
               join ", " (iter (tools r)).*1))
    | Some t =>
        let cast := cast_params to_string (t_parameters t) params in
        match validate_params (t_parameters t) cast with
        | [] => (Some t, cast, None)
        | errors =>
            (Some t, cast,
             Some ("Error: Invalid parameters for tool '" +:+ name +:+ "': " +:+
                   join "; " (render <$> errors)))
        end
    end.

Definition execute (w : W) (r : Registry W) (name : string) (params : json) : W * json :=
  let '(tool, params, error) := prepare_call r name params in
  match error with
  | Some err => (w, JStr (err +:+ ERROR_HINT))
  | None =>
      match tool with
      | None => (w, JStr ("Error: Tool '" +:+ name +:+ "' missing" +:+ ERROR_HINT))
      | Some t =>
          let '(w, res) := t_execute t w params in
          (w, match res with
              | Ok (JStr s) => if starts_with s "Error" then JStr (s +:+ ERROR_HINT) else JStr s
              | Ok v => v
              | Err e => JStr ("Error executing " +:+ name +:+ ": " +:+ e +:+ ERROR_HINT)
              end)
      end
  end.
End Registry.

(** ** Empty results *)

Definition empty_tool_result_message (tool_name : string) : string :=
  "(" +:+ tool_name +:+ " completed with no output)".

Definition ensure_nonempty_tool_result (tool_name : string) (content : json) : json :=
  match content with
  | JNull => JStr (empty_tool_result_message tool_name)
  | JStr s => if is_empty (trim s) then JStr (empty_tool_result_message tool_name) else content
  | JArr [] => JStr (empty_tool_result_message tool_name)
  | JArr arr =>
      match stringify_text_blocks arr with
      | Some text => if is_empty (trim text) then JStr (empty_tool_result_message tool_name) else content
      | None => content
      end
  | _ => content
  end.

Definition is_blank_text (content : option string) : bool :=
  match content with None => true | Some s => is_empty (trim s) end.

(** ** Throttles *)

Definition MAX_REPEAT_EXTERNAL_LOOKUPS : nat := 2.
Definition MAX_REPEAT_WORKSPACE_VIOLATIONS : nat := 2.

(** Occurrences per signature; the 32-bit width is out of reach in one turn. *)
Abbreviation counts := (gmap string nat).

Definition trimmed_arg (key : string) (arguments : json) : string :=
  trim (default "" (get_str key arguments)).

Definition external_lookup_signature (tool_name : string) (arguments : json) : option string :=
  if String.eqb tool_name "web_fetch" then
    let url := trimmed_arg "url" arguments in
    if is_empty url then None else Some ("web_fetch:" +:+ to_lowercase url)
  else if String.eqb tool_name "web_search" then
    let q := trimmed_arg "query" arguments in
    let query := if is_empty q then trimmed_arg "search_term" arguments else q in
    if is_empty query then None else Some ("web_search:" +:+ to_lowercase query)
  else None.

(** [entry(sig).or_insert(0)], incremented in place. *)
Definition bump (sig : string) (c : counts) : counts * nat :=
  let n := default 0 (c !! sig) + 1 in (<[sig := n]> c, n).

Definition REPEATED_LOOKUP : string :=
  "Error: repeated external lookup blocked. Use the results you already have to answer, or try a meaningfully different source.".

Definition repeated_external_lookup_error (tool_name : string) (arguments : json) (seen : counts)
    : counts * option string :=
  match external_lookup_signature tool_name arguments with
  | None => (seen, None)
  | Some sig =>
      let '(seen, count) := bump sig seen in
      (seen, if count <=? MAX_REPEAT_EXTERNAL_LOOKUPS then None else Some REPEATED_LOOKUP)
  end.

Definition violation_target (normalized : string) : string := "violation:" +:+ to_lowercase normalized.

Definition first_nonblank_arg (keys : list string) (arguments : json) : option string :=
  head (filter_map (λ k, let v := trimmed_arg k arguments in if is_empty v then None else Some v) keys).

Definition path_keys : list string := ["path"; "file_path"; "target"; "source"; "destination"].

(** The text of an escalated refusal. *)
Definition escalation (target : string) (count : nat) : string :=
  "Error: refusing repeated workspace-bypass attempts." +:+ String nl "You have tried to access '" +:+
  target +:+ "' (or an equivalent path) " +:+ pretty count +:+
  " times in this turn. This is a hard policy boundary -- switching tools, shell tricks, working_dir overrides, symlinks, or base64 piping will NOT change the answer. Stop retrying. If the user genuinely needs this resource, tell them you cannot access it and ask how they want to proceed (e.g. copy the file into the workspace, or disable restrict_to_workspace for this run).".

Section Violations.
(** The first group of the pattern that finds a path in a command line. *)
Variable outside_path : string → option string.

Definition normalize_violation_target (raw : string) : string :=
  violation_target (replace_char "\" "/" raw).

Definition workspace_violation_signature (tool_name : string) (arguments : json) : option string :=
  match first_nonblank_arg path_keys arguments with
  | Some v => Some (normalize_violation_target v)
  | None =>
      if bool_decide (tool_name ∈ ["exec"; "shell"]) then
        let command := trimmed_arg "command" arguments in
        match (if is_empty command then None else outside_path command) with
        | Some target => Some (normalize_violation_target target)
        | None =>
            let cwd := trimmed_arg "working_dir" arguments in
            if is_empty cwd then None else Some (normalize_violation_target cwd)
        end
      else None
  end.

Definition repeated_workspace_violation_error (tool_name : string) (arguments : json) (seen : counts)
    : counts * option string :=
  match workspace_violation_signature tool_name arguments with
  | None => (seen, None)
  | Some sig =>
      let '(seen, count) := bump sig seen in
      (seen, if count <=? MAX_REPEAT_WORKSPACE_VIOLATIONS then None
             else Some (escalation (default sig (strip_prefix "violation:" sig)) count))
  end.
End Violations.
