(* ===== verification/ToolProps.v ===== *)
(** * The tool registry: theorems

    Stable definitions, validated execution and exact throttling. *)

From Stdlib Require Import Sorted.
From stdpp Require Import sorting.
From S2P Require Import Prelude RustStr F64 Json ToolSchema Messages ToolRegistry.

Local Open Scope stdpp_scope.

(** ** Sorting by name *)

Definition by_name (x y : json) : Prop := str_le (schema_name x) (schema_name y).

#[local] Instance by_name_trans : Transitive by_name.
Proof. intros x y z. apply str_le_trans. Qed.

Lemma insert_by_name_perm x l : insert_by_name x l ≡ₚ x :: l.
Proof.
  induction l as [|y l IH]; simpl; [done|]. destruct (String.ltb _ _); [done|].
  rewrite IH. apply Permutation_swap.
Qed.

Lemma insert_by_name_sorted x l : Sorted by_name l → Sorted by_name (insert_by_name x l).
Proof.
  induction l as [|y l IH]; simpl; intros Hs; [by repeat constructor|].
  destruct (String.ltb (schema_name x) (schema_name y)) eqn:E.
  - constructor; [done|]. constructor. by apply str_ltb_true.
  - apply Sorted_inv in Hs as [Hs Hhd]. constructor; [by apply IH|]. apply str_ltb_false in E.
    destruct l as [|z l]; simpl; [by constructor|].
    destruct (String.ltb _ _); constructor; [done|]. by apply HdRel_inv in Hhd.
Qed.

Lemma sort_by_name_spec l : sort_by_name l ≡ₚ l ∧ Sorted by_name (sort_by_name l).
Proof.
  unfold sort_by_name.
  enough (∀ acc, Sorted by_name acc →
    fold_left (λ acc x, insert_by_name x acc) l acc ≡ₚ acc ++ l ∧
    Sorted by_name (fold_left (λ acc x, insert_by_name x acc) l acc)) as H
    by (apply (H []); constructor).
  induction l as [|x l IH]; intros acc Hacc; simpl; [by rewrite app_nil_r|].
  destruct (IH (insert_by_name x acc)) as [H1 H2]; [by apply insert_by_name_sorted|].
  split; [|done]. rewrite H1, insert_by_name_perm. simpl. apply Permutation_middle.
Qed.

(** Sorting forgets the order when the names are distinct. *)
Lemma sort_by_name_unique l1 l2 :
  l1 ≡ₚ l2 → (∀ x y, x ∈ l1 → y ∈ l1 → schema_name x = schema_name y → x = y) →
  sort_by_name l1 = sort_by_name l2.
Proof.
  intros Hp Hinj. destruct (sort_by_name_spec l1) as [P1 S1], (sort_by_name_spec l2) as [P2 S2].
  apply (Sorted_unique_strong by_name); [|done|done|by rewrite P1, P2].
  intros x y Hx Hy Hxy Hyx. rewrite P1 in Hx. rewrite P2, <-Hp in Hy.
  apply Hinj; [done..|]. by apply str_le_antisym.
Qed.

(** ** The registry *)

Section RegistryFacts.
Context {W : Type}.

(** Iteration yields every entry once, in some order. *)
Definition iterates (iter : gmap string (Tool W) → list (string * Tool W)) : Prop :=
  ∀ m, iter m ≡ₚ map_to_list m.

(** Entries are filed under their own names and the cache is what would be computed. *)
Record registry_ok (iter : gmap string (Tool W) → list (string * Tool W)) (r : Registry W) : Prop := {
  reg_names : ∀ k t, tools r !! k = Some t → t_name t = k;
  reg_cache : ∀ d, cached_definitions r = Some d → d = build_definitions iter (tools r)
}.

Inductive reg_op :=
| OpRegister (t : Tool W)
| OpUnregister (name : string)
| OpDefinitions.

Definition reg_step (iter : gmap string (Tool W) → list (string * Tool W)) (r : Registry W)
    (op : reg_op) : Registry W :=
  match op with
  | OpRegister t => register t r
  | OpUnregister name => unregister name r
  | OpDefinitions => (get_definitions iter r).1
  end.

Definition reg_run iter (ops : list reg_op) : Registry W := foldl (reg_step iter) new_registry ops.

Lemma reg_step_ok iter r op : registry_ok iter r → registry_ok iter (reg_step iter r op).
Proof.
  intros [Hn Hc]. destruct op as [t|name|]; simpl.
  - split; simpl; [|done]. intros k t'. rewrite lookup_insert_Some. intros [[<- <-]|[_ Hk]]; [done|eauto].
  - split; simpl; [|done]. intros k t'. rewrite lookup_delete_Some. intros [_ Hk]. eauto.
  - unfold get_definitions. destruct (cached_definitions r) eqn:E; [rewrite <-E in Hc; exact (Build_registry_ok _ _ Hn Hc)|].
    split; simpl; [done|]. by intros d [= <-].
Qed.

Lemma reg_run_ok iter ops : registry_ok iter (reg_run iter ops).
Proof.
  unfold reg_run. assert (registry_ok iter new_registry) as H by (split; [simpl; intros k t []%lookup_empty_Some|done]).
  revert H. generalize (@new_registry W). induction ops as [|op ops IH]; intros r Hr; simpl; [done|].
  by apply IH, reg_step_ok.
Qed.

Lemma schema_name_to_schema (t : Tool W) : schema_name (to_schema t) = t_name t.
Proof. done. Qed.

(** The schemas of a registry have distinct names. *)
Lemma schemas_inj iter r x y :
  iterates iter → registry_ok iter r →
  x ∈ (λ kt, to_schema kt.2) <$> iter (tools r) → y ∈ (λ kt, to_schema kt.2) <$> iter (tools r) →
  schema_name x = schema_name y → x = y.
Proof.
  intros Hi [Hn _]. rewrite !list_elem_of_fmap. intros ([k t] & -> & Hx) ([k' t'] & -> & Hy) E.
  rewrite (Hi (tools r)), elem_of_map_to_list in Hx, Hy. simpl in *. rewrite !schema_name_to_schema in E.
  pose proof (Hn _ _ Hx). pose proof (Hn _ _ Hy). congruence.
Qed.

Lemma build_definitions_order iter iter' r :
  iterates iter → iterates iter' → registry_ok iter r →
  build_definitions iter (tools r) = build_definitions iter' (tools r).
Proof.
  intros Hi Hi' Hr. unfold build_definitions.
  assert ((λ kt, to_schema kt.2) <$> iter (tools r) ≡ₚ (λ kt, to_schema kt.2) <$> iter' (tools r)) as Hp
    by (apply fmap_Permutation; by rewrite (Hi (tools r)), (Hi' (tools r))).
  assert (∀ f : json → bool, retain f ((λ kt, to_schema kt.2) <$> iter (tools r)) ≡ₚ
             retain f ((λ kt, to_schema kt.2) <$> iter' (tools r))) as Hf.
  { intros f. by apply retain_perm. }
  f_equal; apply sort_by_name_unique; try apply Hf; intros x y Hx Hy;
    apply retain_elem_of in Hx as [Hx _]; apply retain_elem_of in Hy as [Hy _]; by apply (schemas_inj iter r).
Qed.

(** After any sequence of registrations, removals and readings, the definitions sent to the
    model are those of the tools registered now, built-in tools before tools of remote
    servers and each group sorted by name; they do not depend on the order in which the hash
    map is traversed, nor on whether they come from the cache. *)
Theorem get_definitions_stable (iter iter' : gmap string (Tool W) → list (string * Tool W))
    (ops : list reg_op) :
  iterates iter → iterates iter' →
  let r := reg_run iter ops in
  (get_definitions iter r).2 = build_definitions iter' (tools r) ∧
  (∀ x, x ∈ (get_definitions iter r).2 ↔ ∃ name t, tools r !! name = Some t ∧ x = to_schema t) ∧
  ∃ builtins mcp, (get_definitions iter r).2 = builtins ++ mcp ∧
    Sorted by_name builtins ∧ Sorted by_name mcp ∧
    Forall (λ x, is_mcp x = false) builtins ∧ Forall (λ x, is_mcp x = true) mcp.
Proof.
  intros Hi Hi' r. pose proof (reg_run_ok iter ops) as Hr.
  assert ((get_definitions iter r).2 = build_definitions iter (tools r)) as E.
  { unfold get_definitions. destruct (cached_definitions r) eqn:Ec; [|done]. by apply (reg_cache _ _ Hr). }
  rewrite E. split_and!; [by apply build_definitions_order|..].
  - intros x. unfold build_definitions. rewrite elem_of_app.
    rewrite !(λ l, proj1 (sort_by_name_spec l)), !retain_elem_of, list_elem_of_fmap.
    setoid_rewrite (Hi (tools r)). split.
    + intros [[([k t] & -> & Hx) _]|[([k t] & -> & Hx) _]]; apply elem_of_map_to_list in Hx; eauto.
    + intros (k & t & Hk & ->). apply elem_of_map_to_list in Hk.
      destruct (is_mcp (to_schema t)) eqn:Em; [right|left]; (split; [by exists (k, t)|done]).
  - unfold build_definitions. do 2 eexists. split; [done|].
    split_and!; try apply sort_by_name_spec;
      apply Forall_forall; intros x; rewrite (proj1 (sort_by_name_spec _)), retain_elem_of;
      intros [_ Hx]; [by apply negb_true_iff|done].
Qed.

(** The schema the parameters are checked against: the tool's own, as an object. *)
Definition object_schema (parameters : json) : json :=
  match parameters with
  | JObj obj =>
      if str_field_is "type" "object" parameters then parameters
      else JObj (map_insert "type" (JStr "object") obj)
  | _ => parameters
  end.

Lemma validate_params_nil parameters params :
  validate_params parameters params = [] ↔
  is_object params = true ∧ conforms (object_schema parameters) params.
Proof.
  unfold validate_params. destruct (is_object params); simpl; [|naive_solver].
  fold (object_schema parameters). rewrite <-(validate_conforms params (object_schema parameters) "").
  destruct (validate_json_schema_value params (object_schema parameters) ""); simpl; naive_solver.
Qed.

(** [execute] runs a tool only when it is registered under the name and the cast parameters
    are an object that conforms to its schema; otherwise nothing is run and the answer is a
    text that starts with [Error]. *)
Theorem execute_validated (iter : gmap string (Tool W) → list (string * Tool W))
    (to_string : json → string) (render : ParamError → string)
    (w : W) (r : Registry W) (name : string) (params : json) :
  let '(w', v) := execute iter to_string render w r name params in
  (∃ t, tools r !! name = Some t ∧
     let cast := cast_params to_string (t_parameters t) params in
     is_object cast = true ∧ conforms (object_schema (t_parameters t)) cast ∧
     w' = (t_execute t w cast).1) ∨
  (w' = w ∧ (∃ s, v = JStr ("Error" +:+ s)) ∧
   ∀ t, tools r !! name = Some t →
     let cast := cast_params to_string (t_parameters t) params in
     ¬ (is_object params = true ∧ is_object cast = true ∧ conforms (object_schema (t_parameters t)) cast)).
Proof.
  unfold execute, prepare_call.
  destruct (negb (is_object params) && _) eqn:Ew.
  { right. split_and!; [done|by eexists|]. intros t Ht [Ho _].
    apply andb_true_iff in Ew as [Ew _]. by rewrite Ho in Ew. }
  destruct (tools r !! name) as [t|] eqn:Et; [|right; split_and!; [done|by eexists|done]].
  set (cast := cast_params to_string (t_parameters t) params).
  pose proof (validate_params_nil (t_parameters t) cast) as Hv.
  destruct (validate_params (t_parameters t) cast) as [|e es] eqn:Ev.
  - destruct (proj1 Hv eq_refl) as [Ho Hc]. destruct (t_execute t w cast) as [w' res] eqn:Ee.
    left. exists t. split_and!; [done..|]. unfold cast in Ee. by rewrite Ee.
  - right. split_and!; [done|by eexists|]. intros t' [= <-] (_ & Ho & Hc). fold cast in Ho, Hc.
    discriminate (proj2 Hv (conj Ho Hc)).
Qed.
End RegistryFacts.

(** ** Throttles *)

(** Calls of the same signature among earlier ones. *)
Definition lookups_of (sig : string) (calls : list (string * json)) : nat :=
  length (retain (λ c, bool_decide (external_lookup_signature c.1 c.2 = Some sig)) calls).

Definition lookup_step (seen : counts) (c : string * json) : counts :=
  (repeated_external_lookup_error c.1 c.2 seen).1.

Lemma lookup_counts calls sig :
  default 0 (foldl lookup_step ∅ calls !! sig) = lookups_of sig calls.
Proof.
  unfold lookups_of. induction calls as [|c calls IH] using rev_ind; [done|].
  rewrite foldl_app, retain_app, length_app. cbn [foldl]. unfold lookup_step at 1.
  unfold repeated_external_lookup_error. simpl.
  destruct (external_lookup_signature c.1 c.2) as [sig'|] eqn:E; cbn [fst bump].
  - destruct (decide (sig = sig')) as [<-|Hne].
    + rewrite lookup_insert_eq, bool_decide_true by done. simpl. by rewrite IH.
    + rewrite lookup_insert_ne, bool_decide_false by congruence. simpl. lia.
  - rewrite bool_decide_false by done. simpl. lia.
Qed.

(** Within one run, a web fetch or search is refused exactly when at least two calls with the
    same tool and the same address or query, up to case and surrounding white space, were
    made before; other tools are never refused. *)
Theorem lookup_throttle_exact (calls : list (string * json)) (tool : string) (arguments : json) :
  (repeated_external_lookup_error tool arguments (foldl lookup_step ∅ calls)).2 =
  match external_lookup_signature tool arguments with
  | Some sig => if 2 <=? lookups_of sig calls then Some REPEATED_LOOKUP else None
  | None => None
  end.
Proof.
  unfold repeated_external_lookup_error.
  destruct (external_lookup_signature tool arguments) as [sig|]; [|done]. simpl.
  rewrite lookup_counts, Nat.add_1_r. unfold MAX_REPEAT_EXTERNAL_LOOKUPS.
  destruct (lookups_of sig calls) as [|[|n]]; done.
Qed.

(** ** Witnesses *)

Definition echo_tool : Tool nat :=
  mkTool "echo" "repeats" (JObj [("properties", JObj [("x", JObj [("type", JStr "integer")])])]) true false
    (λ w params, (S w, Ok params)).

Lemma map_to_list_iterates {W} : @iterates W map_to_list.
Proof. intros m. done. Qed.

Lemma get_definitions_stable_witness :
  (get_definitions map_to_list (reg_run map_to_list [OpRegister echo_tool; OpDefinitions])).2 =
  build_definitions (λ m, reverse (map_to_list m)) (tools (reg_run map_to_list [OpRegister echo_tool; OpDefinitions])).
Proof.
  apply (get_definitions_stable map_to_list (λ m, reverse (map_to_list m))).
  - apply map_to_list_iterates.
  - intros m. apply reverse_Permutation.
Defined.
