(* ===== verification/Provider.v ===== *)
(** * Model providers: types and message sanitising

    [crates/providers/src/base.rs], first half: requests and responses, and the functions
    that make a message list acceptable to a model (empty content, role alternation, image
    blocks, allowed keys).  Messages are JSON objects. *)

From S2P Require Import Prelude RustStr F64 Json.

Local Open Scope stdpp_scope.

(** ** Types *)

(** Hash maps are association lists: nothing depends on their order. *)
Record ToolCallRequest := mkToolCall {
  tc_id : string;
  tc_name : string;
  tc_arguments : list (string * json);
  tc_extra_content : option (list (string * json));
  tc_provider_specific_fields : option (list (string * json));
  tc_function_provider_specific_fields : option (list (string * json))
}.

Record LLMResponse := mkResponse {
  rs_content : option string;
  rs_tool_calls : list ToolCallRequest;
  finish_reason : string;
  rs_usage : list (string * Z);
  rs_retry_after : option f64;
  rs_reasoning_content : option string;
  rs_thinking_blocks : option (list json);
  error_status_code : option Z;
  error_kind : option string;
  error_type : option string;
  error_code : option string;
  error_retry_after_s : option f64;
  error_should_retry : option bool
}.

Record GenerationSettings := mkGeneration {
  g_temperature : f32;
  g_max_tokens : Z;
  g_reasoning_effort : option string
}.

(** [0.7_f32]. *)
Definition default_generation : GenerationSettings :=
  mkGeneration (S754_finite false 11744051 (-24)) 4096 None.

Inductive ToolChoice :=
| ChoiceAuto
| ChoiceRequired
| ChoiceNone
| ChoiceSpecific (v : json).

Record ChatRequest := mkRequest {
  rq_messages : list json;
  rq_tools : option (list json);
  rq_model : option string;
  rq_max_tokens : Z;
  rq_temperature : f32;
  rq_reasoning_effort : option string;
  rq_tool_choice : option ToolChoice
}.

(** What a streaming call emits before its response. *)
Inductive Delta :=
| TextDelta (text : string)
| ToolCallDelta (delta : json).

Definition with_messages (req : ChatRequest) (ms : list json) : ChatRequest :=
  mkRequest ms (rq_tools req) (rq_model req) (rq_max_tokens req) (rq_temperature req)
    (rq_reasoning_effort req) (rq_tool_choice req).

Definition has_tool_calls (r : LLMResponse) : bool :=
  match rs_tool_calls r with [] => false | _ => true end.

Definition should_execute_tools (r : LLMResponse) : bool :=
  has_tool_calls r && bool_decide (finish_reason r ∈ ["tool_calls"; "function_call"; "stop"]).

Definition is_error (r : LLMResponse) : bool := String.eqb (finish_reason r) "error".

(** [LLMResponse::error]; the other fields are [Default::default()]. *)
Definition error_response (msg : string) : LLMResponse :=
  mkResponse (Some msg) [] "error" [] None None None None None None None None None.

(** The payload of a call; [to_string] prints JSON text. *)
Definition to_openai_tool_call (to_string : json → string) (tc : ToolCallRequest) : json :=
  let func := [("name", JStr (tc_name tc)); ("arguments", JStr (to_string (JObj (tc_arguments tc))))] in
  let func := match tc_function_provider_specific_fields tc with
              | Some f => map_insert "provider_specific_fields" (JObj f) func
              | None => func
              end in
  let out := [("id", JStr (tc_id tc)); ("type", JStr "function"); ("function", JObj func)] in
  let out := match tc_extra_content tc with
             | Some e => map_insert "extra_content" (JObj e) out
             | None => out
             end in
  let out := match tc_provider_specific_fields tc with
             | Some p => map_insert "provider_specific_fields" (JObj p) out
             | None => out
             end in
  JObj out.

(** ** Accessors of messages *)

(** [msg.get("role").and_then(as_str).unwrap_or("")]. *)
Definition role_of (msg : json) : string := default "" (get_str "role" msg).

(** [msg.get("tool_calls").map(|v| !v.is_null()).unwrap_or(false)]. *)
Definition has_tools (msg : json) : bool :=
  match jget "tool_calls" msg with Some v => negb (is_null v) | None => false end.

(** Assigning a member of a message that is an object. *)
Definition set_field (k : string) (v : json) (msg : json) : json :=
  match msg with JObj m => JObj (map_insert k v m) | _ => msg end.

(** ** Empty content *)

Definition is_text_type (ty : string) : bool :=
  bool_decide (ty ∈ ["text"; "input_text"; "output_text"]).

(** A text block without text. *)
Definition empty_text_block (map : list (string * json)) : bool :=
  is_text_type (default "" (map_get "type" map ≫= as_str)) &&
  match map_get "text" map ≫= as_str with Some s => is_empty s | None => true end.

Definition strip_meta (map : list (string * json)) : list (string * json) :=
  retain (λ kv, negb (String.eqb kv.1 "_meta")) map.

(** The loop over the blocks: the blocks kept and whether anything changed. *)
Fixpoint sanitize_items (items : list json) : list json * bool :=
  match items with
  | [] => ([], false)
  | item :: items =>
      let '(rest, changed) := sanitize_items items in
      match item with
      | JObj map =>
          if empty_text_block map then (rest, true)
          else if map_contains_key "_meta" map then (JObj (strip_meta map) :: rest, true)
          else (item :: rest, changed)
      | _ => (item :: rest, changed)
      end
  end.

(** What stands for content that is gone. *)
Definition empty_substitute (obj : list (string * json)) : json :=
  if bool_decide (map_get "role" obj ≫= as_str = Some "assistant") && has_tools (JObj obj)
  then JNull else JStr "(empty)".

Definition sanitize_empty_content_one (msg : json) : json :=
  match msg with
  | JObj obj =>
      match map_get "content" obj with
      | Some (JStr "") => JObj (map_insert "content" (empty_substitute obj) obj)
      | Some (JArr items) =>
          let '(new_items, changed) := sanitize_items items in
          if changed then
            match new_items with
            | [] => JObj (map_insert "content" (empty_substitute obj) obj)
            | _ => JObj (map_insert "content" (JArr new_items) obj)
            end
          else msg
      | Some (JObj single) => JObj (map_insert "content" (JArr [JObj single]) obj)
      | _ => msg
      end
  | _ => msg
  end.

Definition sanitize_empty_content (messages : list json) : list json :=
  sanitize_empty_content_one <$> messages.

(** ** Role alternation *)

Definition SYNTHETIC_USER_CONTENT : string := "(conversation continued)".

Definition synthetic_user : json :=
  JObj [("role", JStr "user"); ("content", JStr SYNTHETIC_USER_CONTENT)].

Definition blank_line : string := String nl (String nl "").

(** One message of the merging loop; [merged] is kept newest first. *)
Definition merge_step (merged : list json) (msg : json) : list json :=
  match merged with
  | [] => [msg]
  | prev :: older =>
      let role := role_of msg in
      if String.eqb (role_of prev) role && (String.eqb role "user" || String.eqb role "assistant") &&
         negb (String.eqb role "system") && negb (String.eqb role "tool")
      then
        if String.eqb role "assistant" && has_tools msg then msg :: older
        else if String.eqb role "assistant" && has_tools prev then merged
        else
          match default (JStr "") (jget "content" prev), default JNull (jget "content" msg) with
          | JStr p, JStr c => set_field "content" (JStr (trim (p +:+ blank_line +:+ c))) prev :: older
          | _, _ => msg :: older
          end
      else msg :: merged
  end.

(** Popping trailing assistant messages, the last popped one remembered. *)
Fixpoint pop_trailing (merged : list json) (popped : option json) : list json * option json :=
  match merged with
  | m :: older =>
      if str_field_is "role" "assistant" m then pop_trailing older (Some m) else (merged, popped)
  | [] => ([], popped)
  end.

Definition is_user_or_tool (m : json) : bool :=
  str_field_is "role" "user" m || str_field_is "role" "tool" m.

(** A popped assistant message returns as a user message when only system messages are left. *)
Definition recover_popped (merged : list json) (popped : option json) : list json :=
  match popped with
  | Some m =>
      if negb (bool_decide (merged = [])) && negb (existsb is_user_or_tool merged)
      then set_field "role" (JStr "user") m :: merged
      else merged
  | None => merged
  end.

(** The first message that is not a system message must not be a bare assistant message. *)
Fixpoint insert_synthetic (merged : list json) : list json :=
  match merged with
  | [] => []
  | m :: rest =>
      if negb (String.eqb (role_of m) "system") then
        if String.eqb (role_of m) "assistant" && negb (has_tools m)
        then synthetic_user :: m :: rest else m :: rest
      else m :: insert_synthetic rest
  end.

Definition enforce_role_alternation (messages : list json) : list json :=
  let merged := foldl merge_step [] messages in
  let '(merged, popped) := pop_trailing merged None in
  insert_synthetic (reverse (recover_popped merged popped)).

(** ** Image blocks *)

Definition image_placeholder_text (path empty : string) : string :=
  if is_empty path then empty else "[image: " +:+ path +:+ "]".

Definition is_image_block (b : json) : bool :=
  match b with JObj _ => str_field_is "type" "image_url" b | _ => false end.

Definition image_placeholder (b : json) : json :=
  let path := default "" (jget "_meta" b ≫= get_str "path") in
  JObj [("type", JStr "text"); ("text", JStr (image_placeholder_text path "[image omitted]"))].

Definition strip_block (b : json) : json := if is_image_block b then image_placeholder b else b.

Definition content_blocks (msg : json) : list json :=
  match jget "content" msg with Some (JArr blocks) => blocks | _ => [] end.

(** The copying version: every message with blocks is rebuilt. *)
Definition strip_image_content (messages : list json) : option (list json) :=
  let result := (λ msg, match jget "content" msg with
                        | Some (JArr blocks) => set_field "content" (JArr (strip_block <$> blocks)) msg
                        | _ => msg
                        end) <$> messages in
  if existsb (λ msg, existsb is_image_block (content_blocks msg)) messages
  then Some result else None.

(** The in-place version: a nested loop that replaces one block at a time through the
    mutable reference and raises the flag. *)
Fixpoint strip_blocks_inplace (blocks : list json) (found : bool) : list json * bool :=
  match blocks with
  | [] => ([], found)
  | b :: blocks =>
      let '(b', found) := if is_image_block b then (image_placeholder b, true) else (b, found) in
      let '(blocks', found) := strip_blocks_inplace blocks found in
      (b' :: blocks', found)
  end.

(** [get_mut("content")]: the member under the key is replaced where it stands. *)
Fixpoint map_update (k : string) (f : json → json) (m : list (string * json)) : list (string * json) :=
  match m with
  | [] => []
  | (k', v) :: m' => if String.eqb k k' then (k', f v) :: m' else (k', v) :: map_update k f m'
  end.

Definition strip_message_inplace (msg : json) (found : bool) : json * bool :=
  match msg with
  | JObj m =>
      match map_get "content" m with
      | Some (JArr blocks) =>
          let '(blocks', found) := strip_blocks_inplace blocks found in
          (JObj (map_update "content" (λ _, JArr blocks') m), found)
      | _ => (msg, found)
      end
  | _ => (msg, found)
  end.

Fixpoint strip_image_content_inplace_go (messages : list json) (found : bool) : list json * bool :=
  match messages with
  | [] => ([], found)
  | msg :: messages =>
      let '(msg', found) := strip_message_inplace msg found in
      let '(messages', found) := strip_image_content_inplace_go messages found in
      (msg' :: messages', found)
  end.

Definition strip_image_content_inplace (messages : list json) : list json * bool :=
  strip_image_content_inplace_go messages false.

(** ** Tools and allowed keys *)

Definition tool_name (tool : json) : string :=
  match get_str "name" tool with
  | Some name => name
  | None => default "" ((jget "function" tool ≫= as_object) ≫= λ fn_obj, map_get "name" fn_obj ≫= as_str)
  end.

Definition tool_cache_marker_indices (tools : list json) : list nat :=
  match tools with
  | [] => []
  | _ =>
      let tail_idx := length tools - 1 in
      let last_builtin := rposition (λ t, negb (starts_with (tool_name t) "mcp_")) tools in
      match last_builtin with
      | Some i => if i =? tail_idx then [i] else [i; tail_idx]
      | None => [tail_idx]
      end
  end.

Definition sanitize_request_message (allowed : gset string) (msg : json) : json :=
  match msg with
  | JObj obj =>
      let clean := retain (λ kv, bool_decide (kv.1 ∈ allowed)) obj in
      if bool_decide (map_get "role" clean ≫= as_str = Some "assistant") &&
         negb (map_contains_key "content" clean)
      then JObj (map_insert "content" JNull clean) else JObj clean
  | _ => msg
  end.

Definition sanitize_request_messages (messages : list json) (allowed : gset string) : list json :=
  sanitize_request_message allowed <$> messages.
