(* ===== verification/ProviderProps.v ===== *)
(** * Message sanitising: theorems

    What the sanitising functions of [Provider] guarantee to the models. *)

From S2P Require Import Prelude RustStr F64 Json Provider.

Local Open Scope stdpp_scope.

(** ** Members of messages *)

Lemma jget_set_field k v m : is_Some (as_object m) → jget k (set_field k v m) = Some v.
Proof. destruct m; simpl; intros [? [=]]. apply map_get_insert. Qed.

Lemma jget_set_field_ne k k' v m : k ≠ k' → jget k (set_field k' v m) = jget k m.
Proof. intros Hne. destruct m; simpl; [done..|]. by apply map_get_insert_ne. Qed.

Lemma role_set_content v m : role_of (set_field "content" v m) = role_of m.
Proof. unfold role_of, get_str. by rewrite jget_set_field_ne. Qed.

Lemma role_of_object m : role_of m ≠ "" → is_Some (as_object m).
Proof. destruct m; simpl; done. Qed.

Lemma role_field_is m r : r ≠ "" → str_field_is "role" r m = String.eqb (role_of m) r.
Proof.
  intros Hr. unfold str_field_is, role_of. destruct (get_str "role" m) as [s|]; simpl; [done|].
  by destruct r.
Qed.

Lemma map_insert_id k v m : map_get k m = Some v → map_insert k v m = m.
Proof.
  induction m as [|[k' v'] m IH]; simpl; [done|]. destruct (String.eqb k k') eqn:E.
  - intros [= ->]. by apply String.eqb_eq in E as ->.
  - intros H. by rewrite IH.
Qed.

Lemma map_update_insert k v w m :
  map_get k m = Some w → map_update k (λ _, v) m = map_insert k v m.
Proof.
  induction m as [|[k' v'] m IH]; simpl; [done|]. destruct (String.eqb k k') eqn:E.
  - by apply String.eqb_eq in E as ->.
  - intros H. by rewrite IH.
Qed.

(** ** Role alternation *)

(** Roles whose messages must not follow each other. *)
Definition speaks (m : json) : bool :=
  String.eqb (role_of m) "user" || String.eqb (role_of m) "assistant".

(** No two neighbours are both user or both assistant messages. *)
Definition alternating (l : list json) : Prop :=
  ∀ l1 a b l2, l = l1 ++ a :: b :: l2 → role_of a = role_of b → speaks a = false.

(** The first message that is not a system message, when there is one. *)
Definition opening (l : list json) : option json :=
  find_first (λ m, negb (String.eqb (role_of m) "system")) l.

(** What a model accepts: alternation, no trailing assistant message and no bare assistant
    message at the start. *)
Record acceptable (l : list json) : Prop := {
  acc_alternating : alternating l;
  acc_last : ∀ m, last l = Some m → role_of m ≠ "assistant";
  acc_opening : ∀ m, opening l = Some m → role_of m = "assistant" → has_tools m = true
}.

Lemma speaks_role a b : role_of a = role_of b → speaks a = speaks b.
Proof. unfold speaks. by intros ->. Qed.

Lemma alternating_nil : alternating [].
Proof. by intros [|? [|??]]. Qed.

Lemma alternating_singleton m : alternating [m].
Proof. intros [|? [|??]] ???; naive_solver. Qed.

Lemma alternating_cons a b l :
  alternating (a :: b :: l) ↔ (role_of a = role_of b → speaks a = false) ∧ alternating (b :: l).
Proof.
  split.
  - intros H. split; [by apply (H [] a b l)|].
    intros l1 c d l2 E. apply (H (a :: l1) c d l2). by rewrite E.
  - intros [H1 H2] [|x l1] c d l2 E; simplify_eq/=; [done|]. by eapply H2.
Qed.

Lemma alternating_reverse l : alternating l → alternating (reverse l).
Proof.
  intros H l1 a b l2 E. apply (f_equal reverse) in E.
  rewrite reverse_involutive, reverse_app, !reverse_cons, <-!app_assoc in E. simpl in E.
  intros Hr. rewrite (speaks_role _ _ Hr). by eapply H.
Qed.

(** Replacing the head by a message of the same role. *)
Lemma alternating_replace a a' l :
  role_of a' = role_of a → alternating (a :: l) → alternating (a' :: l).
Proof.
  intros Hr H. destruct l as [|b l]; [apply alternating_singleton|].
  apply alternating_cons in H as [H1 H2]. apply alternating_cons. split; [|done].
  rewrite Hr, (speaks_role _ _ Hr). done.
Qed.

Lemma alternating_tail a l : alternating (a :: l) → alternating l.
Proof.
  destruct l as [|b l]; intros H; [apply alternating_nil|]. by apply alternating_cons in H as [_ H].
Qed.

(** A message is merged into its predecessor or added. *)
Lemma merge_step_spec merged msg :
  (∃ prev older m', merged = prev :: older ∧ merge_step merged msg = m' :: older ∧
     role_of prev = role_of msg ∧ role_of m' = role_of msg ∧ speaks msg = true) ∨
  (merge_step merged msg = msg :: merged ∧
     ∀ prev older, merged = prev :: older → role_of msg = role_of prev → speaks msg = false).
Proof.
  destruct merged as [|prev older]; [by right|]. cbn [merge_step].
  change (String.eqb (role_of msg) "user" || String.eqb (role_of msg) "assistant") with (speaks msg).
  destruct (String.eqb (role_of prev) (role_of msg)) eqn:Er, (speaks msg) eqn:Es; cbn [andb].
  2-4: right; split; [done|]; intros ?? [= <- <-] H; try done;
       by rewrite H, String.eqb_refl in Er.
  apply String.eqb_eq in Er. left. exists prev, older.
  assert (negb (String.eqb (role_of msg) "system") && negb (String.eqb (role_of msg) "tool") = true)
    as Hs.
  { unfold speaks in Es. apply orb_true_iff in Es as [Es|Es]; apply String.eqb_eq in Es; by rewrite Es. }
  rewrite Hs. clear Hs.
  destruct (String.eqb (role_of msg) "assistant" && has_tools msg); [by eexists|].
  destruct (String.eqb (role_of msg) "assistant" && has_tools prev); [by eexists|].
  destruct (default (JStr "") (jget "content" prev)); try by eexists.
  destruct (default JNull (jget "content" msg)); try by eexists.
  eexists. split_and!; try done. by rewrite role_set_content.
Qed.

Lemma merge_step_alternating merged msg : alternating merged → alternating (merge_step merged msg).
Proof.
  intros H. destruct (merge_step_spec merged msg)
    as [(prev & older & m' & -> & -> & H1 & H2 & _)|[-> Hnew]].
  - eapply alternating_replace; [|done]. congruence.
  - destruct merged as [|prev older]; [apply alternating_singleton|].
    apply alternating_cons. split; [|done]. intros Hr. by eapply Hnew.
Qed.

Lemma merge_fold_alternating l merged : alternating merged → alternating (foldl merge_step merged l).
Proof. revert merged. induction l; simpl; auto using merge_step_alternating. Qed.

(** The messages of other roles are neither merged nor dropped. *)
Abbreviation silent m := (negb (speaks m)).

Lemma merge_step_silent merged msg :
  retain (λ m, silent m) (merge_step merged msg) =
  (if silent msg then [msg] else []) ++ retain (λ m, silent m) merged.
Proof.
  destruct (merge_step_spec merged msg)
    as [(prev & older & m' & -> & -> & H1 & H2 & H3)|[-> _]]; simpl.
  - by rewrite (speaks_role m' msg), (speaks_role prev msg), H3.
  - by destruct (silent msg).
Qed.

Lemma merge_fold_silent l merged :
  retain (λ m, silent m) (foldl merge_step merged l) =
  reverse (retain (λ m, silent m) l) ++ retain (λ m, silent m) merged.
Proof.
  revert merged. induction l as [|m l IH]; intros merged; simpl; [done|].
  rewrite IH, merge_step_silent. destruct (silent m); simpl; [|done].
  by rewrite reverse_cons, <-app_assoc.
Qed.

(** Popping leaves a list that does not end in an assistant message; only assistant
    messages go. *)
Lemma pop_trailing_spec merged popped :
  let '(rest, popped') := pop_trailing merged popped in
  (∃ gone, merged = gone ++ rest ∧ Forall (λ m, role_of m = "assistant") gone ∧
     (popped' = popped ∨ ∃ m, popped' = Some m ∧ m ∈ gone)) ∧
  (∀ m, head rest = Some m → role_of m ≠ "assistant").
Proof.
  revert popped. induction merged as [|m older IH]; intros popped; simpl.
  - split; [|done]. exists []. auto.
  - rewrite role_field_is by done. destruct (String.eqb (role_of m) "assistant") eqn:E.
    + apply String.eqb_eq in E. specialize (IH (Some m)).
      destruct (pop_trailing older (Some m)) as [rest popped'].
      destruct IH as [(gone & -> & Hg & Hp) Hh]. split; [|done].
      exists (m :: gone). split_and!; [done|by constructor|]. right.
      destruct Hp as [->|(x & -> & Hx)]; [by exists m; split; [|left]|].
      exists x. split; [done|by right].
    + apply String.eqb_neq in E. split; [|by intros ? [= <-]]. exists []. auto.
Qed.

Lemma alternating_app_r l1 l2 : alternating (l1 ++ l2) → alternating l2.
Proof. induction l1; simpl; eauto using alternating_tail. Qed.

Lemma speaks_assistant m : role_of m = "assistant" → speaks m = true.
Proof. intros H. unfold speaks. by rewrite H. Qed.

Lemma existsb_not_elem {A} (f : A → bool) l x : existsb f l = false → x ∈ l → f x = false.
Proof.
  intros H Hx. destruct (f x) eqn:E; [|done].
  assert (existsb f l = true) as H' by (apply existsb_exists; exists x; by rewrite <-list_elem_of_In).
  congruence.
Qed.

(** Recovery adds a user message in front of messages of other roles only. *)
Lemma recover_popped_spec merged popped :
  (∀ m, popped = Some m → role_of m = "assistant") →
  recover_popped merged popped = merged ∨
  ∃ m, recover_popped merged popped = m :: merged ∧ role_of m = "user" ∧
       ∀ x, x ∈ merged → role_of x ≠ "user".
Proof.
  intros Hp. unfold recover_popped. destruct popped as [m|]; [|by left].
  destruct (negb (bool_decide (merged = [])) && negb (existsb is_user_or_tool merged)) eqn:E;
    [|by left].
  apply andb_true_iff in E as [_ E]. apply negb_true_iff in E.
  right. eexists. split_and!; [done|..].
  - unfold role_of, get_str. rewrite jget_set_field; [done|].
    apply role_of_object. by rewrite (Hp m).
  - intros x Hx Hu. apply (existsb_not_elem _ _ _ E) in Hx. unfold is_user_or_tool in Hx.
    rewrite role_field_is in Hx by done. by rewrite Hu in Hx.
Qed.

Lemma insert_synthetic_spec l :
  (insert_synthetic l = l ∧ ∀ m, opening l = Some m → role_of m = "assistant" → has_tools m = true) ∨
  (∃ sys m rest, l = sys ++ m :: rest ∧ Forall (λ x, role_of x = "system") sys ∧
     role_of m = "assistant" ∧ has_tools m = false ∧ insert_synthetic l = sys ++ synthetic_user :: m :: rest).
Proof.
  induction l as [|x l IH]; simpl; [by left|].
  unfold opening. simpl. destruct (String.eqb (role_of x) "system") eqn:E; simpl.
  - apply String.eqb_eq in E. destruct IH as [[-> H]|(sys & m & rest & -> & Hs & Hm & Ht & ->)].
    + by left.
    + right. exists (x :: sys), m, rest. split_and!; try done. by constructor.
  - destruct (String.eqb (role_of x) "assistant" && negb (has_tools x)) eqn:Ea.
    + apply andb_true_iff in Ea as [Ea Et]. apply String.eqb_eq in Ea. apply negb_true_iff in Et.
      right. exists [], x, l. split_and!; auto.
    + left. split; [done|]. intros m [= <-] Hm. rewrite Hm in Ea. simpl in Ea.
      by apply negb_false_iff in Ea.
Qed.

Lemma alternating_app l1 l2 :
  alternating l1 → alternating l2 →
  (∀ a b, last l1 = Some a → head l2 = Some b → role_of a = role_of b → speaks a = false) →
  alternating (l1 ++ l2).
Proof.
  induction l1 as [|a l1 IH]; intros H1 H2 Hb; [done|]. destruct l1 as [|b l1].
  - destruct l2 as [|b l2]; [done|]. apply alternating_cons. split; [|done]. by apply Hb.
  - apply alternating_cons in H1 as [Hab H1]. apply alternating_cons. split; [done|].
    apply IH; [done..|]. intros c d Hc Hd. apply Hb; [|done]. done.
Qed.

Lemma alternating_silent l : Forall (λ m, speaks m = false) l → alternating l.
Proof.
  intros H l1 a b l2 -> _. rewrite Forall_app, Forall_cons in H. tauto.
Qed.

Lemma system_silent l : Forall (λ m, role_of m = "system") l → Forall (λ m, speaks m = false) l.
Proof. intros Hl. apply (Forall_impl _ _ _ Hl). intros m H. unfold speaks. by rewrite H. Qed.

Lemma recover_alternating merged popped :
  (∀ m, popped = Some m → role_of m = "assistant") →
  alternating merged → (∀ m, head merged = Some m → role_of m ≠ "assistant") →
  alternating (recover_popped merged popped) ∧
  (∀ m, head (recover_popped merged popped) = Some m → role_of m ≠ "assistant") ∧
  retain (λ m, silent m) (recover_popped merged popped) = retain (λ m, silent m) merged.
Proof.
  intros Hp Ha Hh. destruct (recover_popped_spec merged popped Hp) as [->|(m & -> & Hm & Hno)];
    [done|]. split_and!.
  - destruct merged as [|b l]; [apply alternating_singleton|]. apply alternating_cons.
    split; [|done]. intros E. destruct (Hno b); [left|congruence].
  - intros x [= <-]. by rewrite Hm.
  - simpl. unfold speaks at 1. by rewrite Hm.
Qed.

Lemma insert_synthetic_acceptable l :
  alternating l → (∀ m, last l = Some m → role_of m ≠ "assistant") →
  acceptable (insert_synthetic l) ∧
  retain (λ m, silent m) (insert_synthetic l) = retain (λ m, silent m) l.
Proof.
  intros Ha Hl. destruct (insert_synthetic_spec l) as [[-> Ho]|(sys & m & rest & -> & Hs & Hm & Ht & ->)];
    [done|]. split; [split|].
  - apply alternating_app; [by apply alternating_silent, system_silent|..].
    + apply alternating_cons. split; [by rewrite Hm|]. by eapply alternating_app_r.
    + intros a b Hla _ _. apply last_Some_elem_of in Hla.
      by eapply (Forall_forall (λ m, speaks m = false)); [apply system_silent|].
  - intros x. rewrite last_app_cons. cbn [last]. intros Hx. apply Hl. by rewrite last_app_cons.
  - intros x Hx. assert (x = synthetic_user) as ->.
    { clear -Hs Hx. unfold opening in Hx. induction Hs as [|y sys Hy _ IH]; simpl in Hx; [by simplify_eq|].
      rewrite Hy in Hx. auto. }
    done.
  - by rewrite !retain_app.
Qed.

Lemma retain_reverse {A} (f : A → bool) l : retain f (reverse l) = reverse (retain f l).
Proof.
  induction l as [|x l IH]; simpl; [done|]. rewrite reverse_cons, retain_app, IH. simpl.
  destruct (f x); [by rewrite reverse_cons|by rewrite app_nil_r].
Qed.

(** [enforce_role_alternation] in two parts, shared by its theorems. *)
Lemma enforce_acceptable msgs :
  acceptable (enforce_role_alternation msgs) ∧
  retain (λ m, silent m) (enforce_role_alternation msgs) = retain (λ m, silent m) msgs.
Proof.
  unfold enforce_role_alternation.
  pose proof (merge_fold_alternating msgs [] alternating_nil) as Ha.
  pose proof (merge_fold_silent msgs []) as Hk. simpl in Hk. rewrite app_nil_r in Hk.
  pose proof (pop_trailing_spec (foldl merge_step [] msgs) None) as Hpop.
  destruct (pop_trailing (foldl merge_step [] msgs) None) as [rest popped].
  destruct Hpop as [(gone & E & Hg & Hp) Hh].
  rewrite E in Ha, Hk. apply alternating_app_r in Ha.
  rewrite retain_app, (retain_none _ gone) in Hk.
  2: { intros x Hx. rewrite Forall_forall in Hg. by rewrite (speaks_assistant x) by auto. }
  destruct (recover_alternating rest popped) as (Ha' & Hh' & Hk'); [|done..|].
  { intros m ->. destruct Hp as [|(x & [= ->] & Hx)]; [done|]. rewrite Forall_forall in Hg. auto. }
  destruct (insert_synthetic_acceptable (reverse (recover_popped rest popped))) as [H1 H2].
  { by apply alternating_reverse. }
  { intros m. rewrite last_reverse. apply Hh'. }
  split; [done|]. rewrite H2, retain_reverse, Hk'. simpl in Hk.
  by rewrite Hk, reverse_involutive.
Qed.

(** A list a model accepts is left alone. *)
Lemma opening_after_system sys m rest :
  Forall (λ x, role_of x = "system") sys → role_of m ≠ "system" →
  opening (sys ++ m :: rest) = Some m.
Proof.
  intros Hs Hm. unfold opening. induction Hs as [|y sys Hy _ IH]; simpl.
  - by apply String.eqb_neq in Hm as ->.
  - by rewrite Hy.
Qed.

Lemma merge_fold_fresh l merged :
  alternating (reverse l ++ merged) → foldl merge_step merged l = reverse l ++ merged.
Proof.
  revert merged. induction l as [|m l IH]; intros merged; simpl; [done|].
  rewrite reverse_cons, <-app_assoc. simpl. intros Ha.
  destruct (merge_step_spec merged m) as [(prev & older & m' & -> & _ & Hr & _ & Hs)|[-> _]]; [|auto].
  apply alternating_app_r, alternating_cons in Ha as [Ha _].
  rewrite Ha in Hs; [done|]. congruence.
Qed.

Lemma enforce_acceptable_id msgs : acceptable msgs → enforce_role_alternation msgs = msgs.
Proof.
  intros [Ha Hl Ho]. unfold enforce_role_alternation.
  rewrite merge_fold_fresh by (rewrite app_nil_r; by apply alternating_reverse).
  rewrite app_nil_r.
  assert (pop_trailing (reverse msgs) None = (reverse msgs, None)) as ->.
  { destruct (reverse msgs) as [|m r] eqn:E; [done|]. simpl. rewrite role_field_is by done.
    destruct (String.eqb (role_of m) "assistant") eqn:Ea; [|done]. apply String.eqb_eq in Ea.
    destruct (Hl m); [|done]. by rewrite <-head_reverse, E. }
  simpl. rewrite reverse_involutive.
  destruct (insert_synthetic_spec msgs) as [[-> _]|(sys & m & rest & -> & Hs & Hm & Ht & _)]; [done|].
  rewrite (Ho m) in Ht; [done|apply opening_after_system|]; by rewrite ?Hm.
Qed.

(** After [enforce_role_alternation] no two user and no two assistant messages follow
    each other, the list does not end in an assistant message, the first message after the
    system messages is not an assistant message without tool calls, and the messages of all
    other roles are kept, unchanged and in order. *)
Theorem enforce_role_alternation_acceptable (msgs : list json) :
  acceptable (enforce_role_alternation msgs) ∧
  retain (λ m, silent m) (enforce_role_alternation msgs) = retain (λ m, silent m) msgs.
Proof. apply enforce_acceptable. Qed.

(** The lists [enforce_role_alternation] leaves alone are exactly the acceptable ones, so
    the providers that apply it again after the retry wrapper change nothing. *)
Theorem enforce_role_alternation_fixpoints (msgs : list json) :
  (enforce_role_alternation msgs = msgs ↔ acceptable msgs) ∧
  enforce_role_alternation (enforce_role_alternation msgs) = enforce_role_alternation msgs.
Proof.
  destruct (enforce_acceptable msgs) as [H _]. split; [split|].
  - intros E. by rewrite E in H.
  - apply enforce_acceptable_id.
  - by apply enforce_acceptable_id.
Qed.

(** Two user messages in a row are merged only when both contents are text: otherwise the
    later one replaces the earlier one. *)
Definition user_msg (content : json) : json := JObj [("role", JStr "user"); ("content", content)].

Theorem consecutive_user_blocks_lost (blocks : list json) (text : string) :
  enforce_role_alternation [user_msg (JArr blocks); user_msg (JStr text)] =
  [user_msg (JStr text)].
Proof. reflexivity. Qed.

(** ** Images *)

Lemma strip_blocks_inplace_spec blocks found :
  strip_blocks_inplace blocks found = (strip_block <$> blocks, found || existsb is_image_block blocks).
Proof.
  revert found. induction blocks as [|b blocks IH]; intros found; csimpl; [by rewrite orb_false_r|].
  unfold strip_block at 1. destruct (is_image_block b); rewrite IH; simpl; [|done].
  by rewrite !orb_true_r.
Qed.

(** What both versions do to one message. *)
Definition strip_message (msg : json) : json :=
  match jget "content" msg with
  | Some (JArr blocks) => set_field "content" (JArr (strip_block <$> blocks)) msg
  | _ => msg
  end.

Definition message_has_image (msg : json) : bool := existsb is_image_block (content_blocks msg).

Lemma strip_inplace_go_spec msgs found :
  strip_image_content_inplace_go msgs found =
  (strip_message <$> msgs, found || existsb message_has_image msgs).
Proof.
  revert found. induction msgs as [|msg msgs IH]; intros found; csimpl; [by rewrite orb_false_r|].
  assert (strip_message_inplace msg found = (strip_message msg, found || message_has_image msg)) as ->.
  { unfold strip_message_inplace, message_has_image, content_blocks, strip_message.
    destruct msg as [| | | | | |m]; simpl; rewrite ?orb_false_r; try done.
    destruct (map_get "content" m) as [[| | | | |blocks|]|] eqn:E; simpl;
      rewrite ?orb_false_r; try done.
    rewrite strip_blocks_inplace_spec. by erewrite map_update_insert. }
  rewrite IH. by rewrite orb_assoc.
Qed.

Lemma image_placeholder_no_image b : is_image_block (image_placeholder b) = false.
Proof. done. Qed.

Lemma strip_block_no_image b : is_image_block (strip_block b) = false.
Proof. unfold strip_block. by destruct (is_image_block b) eqn:E. Qed.

Lemma strip_message_no_image msg : message_has_image (strip_message msg) = false.
Proof.
  unfold message_has_image, content_blocks, strip_message.
  destruct msg as [| | | | | |m]; simpl; try done.
  destruct (map_get "content" m) as [[| | | | |blocks|]|] eqn:E; simpl; rewrite ?E; try done.
  rewrite map_get_insert. clear E. induction blocks as [|b blocks IH]; csimpl; [done|].
  by rewrite strip_block_no_image.
Qed.

Lemma strip_message_id msg : message_has_image msg = false → strip_message msg = msg.
Proof.
  unfold message_has_image, content_blocks, strip_message.
  destruct msg as [| | | | | |m]; simpl; try done.
  destruct (map_get "content" m) as [[| | | | |blocks|]|] eqn:E; simpl; try done. intros H.
  rewrite map_insert_id; [done|]. rewrite E. do 2 f_equal. clear E.
  induction blocks as [|b blocks IH]; csimpl in *; [done|]. bool_to_prop.
  unfold strip_block at 1. rewrite H. by rewrite <-IH.
Qed.

(** Stripping twice is stripping once: the second pass of the retry wrapper is idle. *)
Lemma strip_inplace_twice msgs :
  strip_image_content_inplace (strip_image_content_inplace msgs).1 =
  ((strip_image_content_inplace msgs).1, false).
Proof.
  unfold strip_image_content_inplace. rewrite !strip_inplace_go_spec. simpl.
  assert (existsb message_has_image (strip_message <$> msgs) = false) as Hn.
  { induction msgs as [|m msgs IH]; csimpl; [done|]. by rewrite strip_message_no_image. }
  rewrite Hn. f_equal. rewrite <-list_fmap_compose. apply list_fmap_ext. intros i m Hm. simpl.
  apply strip_message_id, strip_message_no_image.
Qed.

(** The in-place version of image stripping computes the same messages as the copying
    one, or leaves them alone where that returns nothing, and reports an image exactly when
    the copying version returns messages; no image block is left. *)
Theorem strip_image_content_equiv (msgs : list json) :
  strip_image_content_inplace msgs =
    (default msgs (strip_image_content msgs), bool_decide (is_Some (strip_image_content msgs))) ∧
  strip_image_content (strip_image_content_inplace msgs).1 = None.
Proof.
  split.
  - unfold strip_image_content_inplace, strip_image_content. rewrite strip_inplace_go_spec. simpl.
    change (λ msg, existsb is_image_block (content_blocks msg)) with message_has_image.
    destruct (existsb message_has_image msgs) eqn:E; simpl; [done|]. f_equal.
    rewrite <-(list_fmap_id msgs) at 2. apply list_fmap_ext. intros i m Hm.
    apply strip_message_id. eapply existsb_not_elem; [done|]. by eapply list_elem_of_lookup_2.
  - pose proof (strip_inplace_twice msgs) as H.
    unfold strip_image_content_inplace in H at 1. rewrite strip_inplace_go_spec in H.
    apply (f_equal snd) in H. simpl in H. unfold strip_image_content.
    change (λ msg, existsb is_image_block (content_blocks msg)) with message_has_image.
    by rewrite H.
Qed.

(** ** Empty content *)

(** A block without an empty text and without internal members. *)
Definition clean_block (b : json) : bool :=
  match b with
  | JObj m => negb (empty_text_block m) && negb (map_contains_key "_meta" m)
  | _ => true
  end.

(** Content a model accepts: no empty text, not a bare object, clean blocks and at least
    one, unless the list was empty to begin with. *)
Definition clean_content (msg : json) : bool :=
  match jget "content" msg with
  | Some (JStr s) => negb (is_empty s)
  | Some (JArr blocks) => forallb clean_block blocks
  | Some (JObj _) => false
  | _ => true
  end.

Lemma map_get_retain_ne k f m :
  (∀ v, f (k, v) = true) → map_get k (retain f m) = map_get k m.
Proof.
  intros Hf. induction m as [|[k' v] m IH]; simpl; [done|].
  destruct (String.eqb k k') eqn:E.
  - apply String.eqb_eq in E as <-. rewrite Hf. simpl. by rewrite String.eqb_refl.
  - destruct (f (k', v)); simpl; [by rewrite E|done].
Qed.

Lemma map_get_retain_out k f m :
  (∀ v, f (k, v) = false) → map_get k (retain f m) = None.
Proof.
  intros Hf. induction m as [|[k' v] m IH]; simpl; [done|].
  destruct (f (k', v)) eqn:Hk; simpl; [|done].
  destruct (String.eqb k k') eqn:E; [|done]. apply String.eqb_eq in E as <-. congruence.
Qed.

Lemma clean_strip_meta m : empty_text_block m = false → clean_block (JObj (strip_meta m)) = true.
Proof.
  intros H. cbn [clean_block].
  assert (empty_text_block (strip_meta m) = empty_text_block m) as ->.
  { unfold empty_text_block, strip_meta. by rewrite !map_get_retain_ne by done. }
  rewrite H. unfold map_contains_key, strip_meta. by rewrite map_get_retain_out by done.
Qed.

Lemma sanitize_items_clean items :
  let '(items', changed) := sanitize_items items in
  forallb clean_block items' = true ∧ (changed = false → items' = items) ∧
  (items = [] → changed = false).
Proof.
  induction items as [|item items IH]; simpl; [done|].
  destruct (sanitize_items items) as [rest changed]. destruct IH as (H1 & H2 & _).
  destruct item as [| | | | | |m]; simpl; try by (split_and!; intros; f_equal; auto).
  destruct (empty_text_block m) eqn:Ee; [done|].
  destruct (map_contains_key "_meta" m) eqn:Em.
  - split_and!; [|done..]. cbn [forallb]. by rewrite clean_strip_meta.
  - simpl. rewrite Ee, Em. split_and!; [done|intros; f_equal; auto|done].
Qed.

Lemma sanitize_one_content msg :
  (∀ single, jget "content" msg ≠ Some (JObj single)) →
  clean_content (sanitize_empty_content_one msg) = true.
Proof.
  intros Hobj. destruct msg as [| | | | | |m]; try done.
  assert (clean_content (JObj (map_insert "content" (empty_substitute m) m)) = true) as Hsub.
  { unfold clean_content. simpl. rewrite map_get_insert. unfold empty_substitute.
    by destruct (bool_decide _ && _). }
  cbn [sanitize_empty_content_one]. simpl in Hobj.
  destruct (map_get "content" m) as [[| | | |s|items|o]|] eqn:E;
    try (unfold clean_content; simpl; by rewrite E).
  - destruct s; [done|]. unfold clean_content. simpl. by rewrite E.
  - pose proof (sanitize_items_clean items) as H. destruct (sanitize_items items) as [l changed].
    destruct H as (H1 & H2 & _). destruct changed.
    + destruct l as [|b l]; [done|]. unfold clean_content. simpl. by rewrite map_get_insert.
    + unfold clean_content. simpl. rewrite E. by rewrite H2 in H1.
  - by destruct (Hobj o).
Qed.

Lemma sanitize_one_other k msg :
  k ≠ "content" → jget k (sanitize_empty_content_one msg) = jget k msg.
Proof.
  intros Hk. destruct msg as [| | | | | |m]; try done. cbn [sanitize_empty_content_one].
  destruct (map_get "content" m) as [[| | | |[]|items|o]|]; try done;
    try (simpl; by rewrite map_get_insert_ne).
  destruct (sanitize_items items) as [[] []]; try done; simpl; by rewrite map_get_insert_ne.
Qed.

(** [sanitize_empty_content] keeps the number of messages and every member but the
    content; unless the content of a message is a bare object, its new content is no empty
    text and every block left in it has text where it must and no internal member. *)
Theorem sanitize_empty_content_clean (msgs : list json) :
  length (sanitize_empty_content msgs) = length msgs ∧
  ∀ i m m', msgs !! i = Some m → sanitize_empty_content msgs !! i = Some m' →
    (∀ k, k ≠ "content" → jget k m' = jget k m) ∧
    ((∀ single, jget "content" m ≠ Some (JObj single)) → clean_content m' = true).
Proof.
  unfold sanitize_empty_content. split; [by rewrite length_fmap|].
  intros i m m' Hm. rewrite list_lookup_fmap, Hm. simpl. intros [= <-]. split.
  - intros k. apply sanitize_one_other.
  - apply sanitize_one_content.
Qed.

(** A bare object is wrapped into a list but not cleaned: an empty text block and its
    internal members reach the model. *)
Theorem object_content_not_cleaned :
  let block := JObj [("type", JStr "text"); ("text", JStr ""); ("_meta", JNull)] in
  sanitize_empty_content [user_msg block] = [user_msg (JArr [block])] ∧
  clean_content (user_msg (JArr [block])) = false.
Proof. done. Qed.

Lemma sanitize_empty_content_clean_witness :
  ∃ m', sanitize_empty_content [user_msg (JStr "")] !! 0 = Some m' ∧ clean_content m' = true.
Proof.
  eexists. split; [reflexivity|].
  apply (sanitize_empty_content_clean [user_msg (JStr "")]) with (i := 0) (m := user_msg (JStr ""));
    [reflexivity|reflexivity|]. intros single. discriminate.
Defined.
