(* ===== verification/Retry.v ===== *)
(** * Model providers: the retry policy

    [crates/providers/src/base.rs], second half: which errors are transient, how long to
    wait, the provider interface and its retry wrappers.  A provider is a state machine: a
    call takes its state and a request to its next state and an answer.  The wrappers
    return what they did as a list of events next to the answer; waiting is an event. *)

From S2P Require Import Prelude RustStr F64 Json Provider.

Local Open Scope stdpp_scope.
Local Open Scope hive_scope.

(** ** Classification of errors *)

Definition TRANSIENT_ERROR_MARKERS : list string :=
  ["429"; "rate limit"; "500"; "502"; "503"; "504"; "overloaded"; "timeout"; "timed out";
   "connection"; "server error"; "temporarily unavailable"; "速率限制"; "访问量过大"].

Definition NON_RETRYABLE_429_TEXT : list string :=
  ["insufficient_quota"; "insufficient quota"; "quota exceeded"; "quota exhausted";
   "billing hard limit"; "billing_hard_limit_reached"; "billing not active";
   "insufficient balance"; "insufficient_balance"; "credit balance too low";
   "payment required"; "out of credits"; "out of quota"; "exceeded your current quota"].

Definition RETRYABLE_429_TEXT : list string :=
  ["rate limit"; "rate_limit"; "too many requests"; "retry after"; "try again in";
   "temporarily unavailable"; "overloaded"; "concurrency limit"; "速率限制"].

Definition NON_RETRYABLE_429_TOKENS : list string :=
  ["insufficient_quota"; "quota_exceeded"; "quota_exhausted"; "billing_hard_limit_reached";
   "insufficient_balance"; "credit_balance_too_low"; "billing_not_active"; "payment_required"].

Definition RETRYABLE_429_TOKENS : list string :=
  ["rate_limit_exceeded"; "rate_limit_error"; "too_many_requests"; "request_limit_exceeded";
   "requests_limit_exceeded"; "overloaded_error"].

Definition RETRYABLE_STATUS_CODES : list Z := [408; 409; 429]%Z.
Definition TRANSIENT_ERROR_KINDS : list string := ["timeout"; "connection"].

Definition is_transient_text (content : option string) : bool :=
  match content with
  | None => false
  | Some s => existsb (contains_str (to_lowercase s)) TRANSIENT_ERROR_MARKERS
  end.

Definition normalize_token (v : option string) : option string :=
  s ← v; let t := to_lowercase (trim s) in if is_empty t then None else Some t.

Definition is_retryable_429 (r : LLMResponse) : bool :=
  let tokens := option_list (normalize_token (error_type r)) ++
                option_list (normalize_token (error_code r)) in
  let content_lower := to_lowercase (default "" (rs_content r)) in
  if existsb (λ t, bool_decide (t ∈ NON_RETRYABLE_429_TOKENS)) tokens then false
  else if existsb (contains_str content_lower) NON_RETRYABLE_429_TEXT then false
  else if existsb (λ t, bool_decide (t ∈ RETRYABLE_429_TOKENS)) tokens then true
  else if existsb (contains_str content_lower) RETRYABLE_429_TEXT then true
  else true.

Definition is_transient_response (r : LLMResponse) : bool :=
  match error_should_retry r with
  | Some flag => flag
  | None =>
      let by_kind :=
        if match error_kind r with
           | Some kind => bool_decide (to_lowercase (trim kind) ∈ TRANSIENT_ERROR_KINDS)
           | None => false
           end then true
        else is_transient_text (rs_content r) in
      match error_status_code r with
      | Some status =>
          if (status =? 429)%Z then is_retryable_429 r
          else if bool_decide (status ∈ RETRYABLE_STATUS_CODES) || (500 <=? status)%Z then true
          else by_kind
      | None => by_kind
      end
  end.

(** ** Delays *)

Definition tenth : f64 := S754_finite false 7205759403792794 (-56).

Definition to_retry_seconds (value : f64) (unit : option string) : f64 :=
  let u := to_lowercase (default "s" unit) in
  if bool_decide (u ∈ ["ms"; "milliseconds"]) then f64_max (f64_div value (f64_of_Z 1000)) tenth
  else if bool_decide (u ∈ ["m"; "min"; "minutes"]) then f64_max (f64_mul value (f64_of_Z 60)) tenth
  else f64_max value tenth.

(** Lookup of a header, by its name and then by its name in lower case. *)
Definition header_value (headers : json) (name : string) : option string :=
  match headers with
  | JObj obj =>
      match map_get name obj with
      | Some v => as_str v
      | None =>
          kv ← find_first (λ kv, String.eqb (to_lowercase kv.1) (to_lowercase name)) obj;
          as_str kv.2
      end
  | _ => None
  end.

Definition extract_retry_after_from_headers (headers : json) : option f64 :=
  match header_value headers "retry-after-ms" ≫= parse_f64 with
  | Some value =>
      if f64_gt value (S754_zero false) then Some (f64_div value (f64_of_Z 1000))
      else
        s ← header_value headers "retry-after";
        if is_empty (trim s) then None
        else seconds ← parse_f64 (trim s); Some (to_retry_seconds seconds (Some "s"))
  | None =>
      s ← header_value headers "retry-after";
      if is_empty (trim s) then None
      else seconds ← parse_f64 (trim s); Some (to_retry_seconds seconds (Some "s"))
  end.

(** The double quote of the last pattern. *)
Definition quote : string := String "034" "".

Definition RETRY_AFTER_RES : list string :=
  ["retry after\s+(\d+(?:\.\d+)?)\s*(ms|milliseconds|s|sec|secs|seconds|m|min|minutes)?";
   "try again in\s+(\d+(?:\.\d+)?)\s*(ms|milliseconds|s|sec|secs|seconds|m|min|minutes)";
   "wait\s+(\d+(?:\.\d+)?)\s*(ms|milliseconds|s|sec|secs|seconds|m|min|minutes)\s*before retry";
   "retry[_-]?after[" +:+ quote +:+ "'\s:=]+(\d+(?:\.\d+)?)"].

Section Delays.
(** [Regex::captures] of the regular-expression crate: the first two groups of the first
    match of a pattern in a text. *)
Variable captures : string → string → option (option string * option string).

Fixpoint match_patterns (idx : nat) (res : list string) (text : string) : option f64 :=
  match res with
  | [] => None
  | re :: res =>
      match captures re text with
      | Some (g1, g2) =>
          digits ← g1; value ← parse_f64 digits;
          Some (to_retry_seconds value (if idx <? 3 then g2 else Some "s"))
      | None => match_patterns (S idx) res text
      end
  end.

Definition extract_retry_after_from_text (content : option string) : option f64 :=
  s ← content; match_patterns 0 RETRY_AFTER_RES (to_lowercase s).

Definition positive (d : option f64) : option f64 :=
  v ← d; if f64_gt v (S754_zero false) then Some v else None.

Definition pick_delay (r : LLMResponse) : option f64 :=
  match positive (error_retry_after_s r) with
  | Some v => Some v
  | None =>
      match positive (rs_retry_after r) with
      | Some v => Some v
      | None => extract_retry_after_from_text (rs_content r)
      end
  end.
End Delays.

(** ** Providers *)

Inductive RetryMode := Standard | Persistent.

Definition retry_mode_from_str (s : string) : RetryMode :=
  if String.eqb s "persistent" then Persistent else Standard.

(** [LLMProvider]: the methods a backend supplies, on its state [S]. *)
Record LLMProvider (S : Type) := mkProvider {
  default_model : string;
  generation : GenerationSettings;
  chat : S → ChatRequest → S * LLMResponse;
  chat_stream : S → ChatRequest → S * LLMResponse * list Delta
}.
Arguments mkProvider {S}.
Arguments default_model {S}.
Arguments generation {S}.
Arguments chat {S}.
Arguments chat_stream {S}.

(** The default method: one delta with the whole text. *)
Definition default_chat_stream {S} (chat : S → ChatRequest → S * LLMResponse) (s : S)
    (req : ChatRequest) : S * LLMResponse * list Delta :=
  let '(s', r) := chat s req in
  (s', r, match rs_content r with
          | Some text => if is_empty text then [] else [TextDelta text]
          | None => []
          end).

(** What the wrappers do besides answering. *)
Inductive Event :=
| Called (req : ChatRequest)
| Emitted (d : Delta)
| Notified (msg : string)
| Slept (seconds : f64).

Definition PERSISTENT_MAX_DELAY : Z := 60.
Definition PERSISTENT_IDENTICAL_ERROR_LIMIT : Z := 10.
Definition RETRY_HEARTBEAT_CHUNK : Z := 30.
Definition delays : list Z := [1; 2; 4]%Z.

(** Sleeping in chunks with a notification before each; [notify] tells whether a callback
    is installed. *)
Fixpoint heartbeat (fuel : nat) (remaining : f64) (attempt : nat) (persistent notify : bool)
    : run (list Event) :=
  if f64_gt remaining (S754_zero false) then
    match fuel with
    | 0 => OutOfFuel
    | S fuel =>
        let kind := if persistent then "persistent retry" else "retry" in
        let note := "Model request failed, " +:+ kind +:+ " in " +:+
                    pretty (Z.max 1 (f64_round_as_i64 remaining)) +:+
                    "s (attempt " +:+ pretty attempt +:+ ")." in
        let chunk := f64_min remaining (f64_of_Z RETRY_HEARTBEAT_CHUNK) in
        let! rest := heartbeat fuel (f64_sub remaining chunk) attempt persistent notify in
        Returns ((if notify then [Notified note] else []) ++ Slept chunk :: rest)
    end
  else Returns [].

Definition sleep_with_heartbeat (fuel : nat) (delay : f64) (attempt : nat)
    (persistent notify : bool) : run (list Event) :=
  heartbeat fuel (f64_max delay (S754_zero false)) attempt persistent notify.

(** The variables of the loop.  [attempt] counts at least a second per step and stays far
    below its width. *)
Record RetryState := mkRetry {
  attempt : nat;
  last_error_key : option string;
  identical_count : Z
}.

Definition error_key (r : LLMResponse) : string :=
  to_lowercase (trim (default "" (rs_content r))).

Definition saturating_add_u32 (a b : Z) : Z := Z.min u32_max (a + b).

Definition note_error (st : RetryState) (r : LLMResponse) : RetryState :=
  let key := error_key r in
  if negb (is_empty key) && bool_decide (Some key = last_error_key st)
  then mkRetry (attempt st) (last_error_key st) (saturating_add_u32 (identical_count st) 1)
  else
    let last := if is_empty key then None else Some key in
    mkRetry (attempt st) last (match last with Some _ => 1 | None => 0 end).

Section Retry.
Variable captures : string → string → option (option string * option string).
Context {S : Type}.
(** One call, plain or streaming; the word that tells the two apart in messages. *)
Variable call : S → ChatRequest → S * LLMResponse * list Delta.
Variable label : string.
Variables (persistent notify : bool).

(** A call with its events. *)
Definition invoke (s : S) (req : ChatRequest) : S * LLMResponse * list Event :=
  let '(s', r, ds) := call s req in (s', r, Called req :: (Emitted <$> ds)).

Definition retry_delay (attempt : nat) (r : LLMResponse) : f64 :=
  let base := default 0%Z (delays !! Nat.min (attempt - 1) (length delays - 1)) in
  let delay := default (f64_of_Z base) (pick_delay captures r) in
  if persistent then f64_min delay (f64_of_Z PERSISTENT_MAX_DELAY) else delay.

(** [sfuel] bounds the chunks of one wait. *)
Fixpoint retry_loop (fuel sfuel : nat) (s : S) (req : ChatRequest) (st : RetryState)
    : run (S * LLMResponse * list Event) :=
  match fuel with
  | 0 => OutOfFuel
  | Datatypes.S fuel =>
      let st := mkRetry (attempt st + 1) (last_error_key st) (identical_count st) in
      let '(s, response, evs) := invoke s req in
      if negb (String.eqb (finish_reason response) "error") then Returns (s, response, evs)
      else
        let st := note_error st response in
        if negb (is_transient_response response) then
          let '(messages, found) := strip_image_content_inplace (rq_messages req) in
          if found then
            let '(s, result, evs') := invoke s (with_messages req messages) in
            Returns (s, result, evs ++ evs')
          else Returns (s, response, evs)
        else if persistent && (PERSISTENT_IDENTICAL_ERROR_LIMIT <=? identical_count st)%Z then
          let note := "Persistent retry stopped after " +:+ pretty (identical_count st) +:+
                      " identical errors." in
          Returns (s, response, evs ++ if notify then [Notified note] else [])
        else if negb persistent && (length delays <? attempt st) then
          let note := "Model " +:+ label +:+ "request failed after " +:+ pretty (attempt st) +:+
                      " retries, giving up." in
          Returns (s, response, evs ++ if notify then [Notified note] else [])
        else
          let! waited := sleep_with_heartbeat sfuel (retry_delay (attempt st) response)
                           (attempt st) persistent notify in
          let! (s, r, evs') := retry_loop fuel sfuel s req st in
          Returns (s, r, evs ++ waited ++ evs')
  end.
End Retry.

(** Defaults filled in and roles made to alternate, once, before the first call. *)
Definition prepare_request (g : GenerationSettings) (req : ChatRequest) : ChatRequest :=
  mkRequest (enforce_role_alternation (rq_messages req)) (rq_tools req) (rq_model req)
    (if (rq_max_tokens req =? 0)%Z then g_max_tokens g else rq_max_tokens req)
    (if f64_is_finite (rq_temperature req) then rq_temperature req else g_temperature g)
    (match rq_reasoning_effort req with None => g_reasoning_effort g | e => e end)
    (rq_tool_choice req).

Definition is_persistent (mode : RetryMode) : bool :=
  match mode with Persistent => true | Standard => false end.

Section Wrappers.
Variable captures : string → string → option (option string * option string).
Context {S : Type} (p : LLMProvider S).

Definition chat_with_retry (fuel sfuel : nat) (s : S) (req : ChatRequest) (mode : RetryMode)
    (notify : bool) : run (S * LLMResponse * list Event) :=
  retry_loop captures (λ s req, (chat p s req, [])) "" (is_persistent mode) notify fuel sfuel s
    (prepare_request (generation p) req) (mkRetry 0 None 0).

(** Deltas reach the listener only when one is installed. *)
Definition chat_stream_with_retry (fuel sfuel : nat) (s : S) (req : ChatRequest)
    (listening : bool) (mode : RetryMode) (notify : bool) : run (S * LLMResponse * list Event) :=
  retry_loop captures
    (λ s req, let '(s', r, ds) := chat_stream p s req in (s', r, if listening then ds else []))
    "stream " (is_persistent mode) notify fuel sfuel s (prepare_request (generation p) req)
    (mkRetry 0 None 0).
End Wrappers.
