(* ===== verification/RetryProps.v ===== *)
(** * The retry policy: theorems

    When the retry wrappers return, after which calls and with which answer. *)

From S2P Require Import Prelude RustStr F64 Json Provider ProviderProps Retry.

Local Open Scope stdpp_scope.
Local Open Scope hive_scope.

(** ** Waiting *)

Abbreviation thirty := (f64_of_Z RETRY_HEARTBEAT_CHUNK).
Abbreviation sixty := (f64_of_Z PERSISTENT_MAX_DELAY).
Abbreviation f64_valid := (valid_binary 53 1024).

(** A delay of at most a minute, in the representation of the machine. *)
Definition short_delay (d : f64) : Prop := f64_valid d = true ∧ f64_lt sixty d = false.

Definition sleeps (evs : list Event) : list f64 :=
  omap (λ e, match e with Slept d => Some d | _ => None end) evs.

Definition calls (evs : list Event) : list ChatRequest :=
  omap (λ e, match e with Called r => Some r | _ => None end) evs.

Lemma calls_app a b : calls (a ++ b) = calls a ++ calls b.
Proof. apply omap_app. Qed.

(** At most [thirty] is slept in one chunk. *)
Lemma heartbeat_last fuel m e attempt p n :
  f64_lt thirty (S754_finite false m e) = false →
  ∃ evs, heartbeat (S fuel) (S754_finite false m e) attempt p n = Returns evs ∧
         sleeps evs = [S754_finite false m e] ∧ calls evs = [].
Proof.
  intros H. cbn [heartbeat]. change (f64_gt (S754_finite false m e) (S754_zero false)) with true.
  cbv iota.
  assert (f64_min (S754_finite false m e) thirty = S754_finite false m e) as ->.
  { unfold f64_min. change (f64_is_nan thirty) with false. simpl f64_is_nan. cbv iota. by rewrite H. }
  rewrite f64_sub_diag. destruct fuel; simpl; eexists; (split; [done|]); by destruct n.
Qed.

Lemma heartbeat_returns fuel x attempt p n :
  short_delay x →
  ∃ evs, heartbeat (S (S fuel)) x attempt p n = Returns evs ∧ length (sleeps evs) ≤ 2 ∧
         calls evs = [].
Proof.
  intros [Hv H60]. destruct (f64_gt x (S754_zero false)) eqn:Hpos.
  2: { cbn [heartbeat]. rewrite Hpos. eexists. split; [done|]. simpl. auto with lia. }
  destruct x as [[]|[]| |[] m e]; try done.
  destruct (f64_lt thirty (S754_finite false m e)) eqn:H30.
  - destruct (f64_sub_30 _ Hv H30 H60) as (m' & e' & E & H30').
    destruct (heartbeat_last fuel m' e' attempt p n H30') as (evs & Hevs & Hs & Hc).
    change (f64_of_Z 30) with thirty in E. remember (S fuel) as fuel'. cbn [heartbeat]. rewrite Hpos.
    assert (f64_min (S754_finite false m e) thirty = thirty) as ->.
    { unfold f64_min. change (f64_is_nan thirty) with false. simpl f64_is_nan. cbv iota. by rewrite H30. }
    rewrite E, Hevs. cbn [run_bind]. eexists. split; [done|].
    destruct n; simpl; rewrite Hs; simpl; split; try done; lia.
  - destruct (heartbeat_last (S fuel) m e attempt p n H30) as (evs & Hevs & Hs & Hc).
    exists evs. split_and!; [done| |done]. rewrite Hs. simpl. lia.
Qed.

Lemma sleep_returns fuel d attempt p n :
  2 ≤ fuel → short_delay d →
  ∃ evs, sleep_with_heartbeat fuel d attempt p n = Returns evs ∧ length (sleeps evs) ≤ 2 ∧
         calls evs = [].
Proof.
  intros Hf [Hv Hd]. destruct fuel as [|[|fuel]]; [lia..|]. apply heartbeat_returns.
  unfold f64_max. destruct (f64_is_nan d); [done|]. simpl f64_is_nan. cbv iota.
  destruct (f64_lt d (S754_zero false)); by split.
Qed.

Lemma min_sixty_short d : f64_valid d = true → short_delay (f64_min d sixty).
Proof.
  intros Hv. unfold f64_min. change (f64_is_nan sixty) with false.
  destruct (f64_is_nan d); [done|]. destruct (f64_lt sixty d) eqn:E; by split.
Qed.

(** ** Calls and answers *)

Section RetryFacts.
Variable captures : string → string → option (option string * option string).
Context {S : Type}.
Variable call : S → ChatRequest → S * LLMResponse * list Delta.
Variables (label : string) (persistent notify : bool).
Variables (s0 : S) (req : ChatRequest).

(** The state of the provider and its answer when the same request is sent again and again. *)
Fixpoint state_at (k : nat) : S :=
  match k with 0 => s0 | Datatypes.S k => (call (state_at k) req).1.1 end.
Definition answer_at (k : nat) : LLMResponse := (call (state_at k) req).1.2.

(** How many answers up to the [k]-th carry the same text, not counting blank ones. *)
Fixpoint same_run (k : nat) : nat :=
  if is_empty (error_key (answer_at k)) then 0
  else match k with
       | 0 => 1
       | Datatypes.S k' =>
           if String.eqb (error_key (answer_at k)) (error_key (answer_at k'))
           then Datatypes.S (same_run k') else 1
       end.

(** The attempts end with the [k]-th answer. *)
Definition stops_at (k : nat) : bool :=
  negb (is_error (answer_at k)) || negb (is_transient_response (answer_at k)) ||
  (if persistent then 10 <=? same_run k else 3 <=? k).

(** The call without images that follows a permanent error. *)
Definition stripped : ChatRequest :=
  with_messages req (strip_image_content_inplace (rq_messages req)).1.

Definition retries_stripped (k : nat) : bool :=
  is_error (answer_at k) && negb (is_transient_response (answer_at k)) &&
  (strip_image_content_inplace (rq_messages req)).2.

Definition final_answer (k : nat) : LLMResponse :=
  if retries_stripped k then (call (state_at (Datatypes.S k)) stripped).1.2 else answer_at k.

(** Waits the loop can end: the policy caps them in persistent mode only. *)
Definition waits_ok (k : nat) : Prop :=
  ∀ d, pick_delay captures (answer_at k) = Some d →
       f64_valid d = true ∧ (persistent = false → f64_lt sixty d = false).

Definition loop_state (k : nat) : RetryState :=
  match k with
  | 0 => mkRetry 0 None 0
  | Datatypes.S k' =>
      mkRetry k (if is_empty (error_key (answer_at k')) then None else Some (error_key (answer_at k')))
        (Z.min u32_max (Z.of_nat (same_run k')))
  end.

Lemma note_error_state k :
  note_error (mkRetry (attempt (loop_state k) + 1) (last_error_key (loop_state k))
                (identical_count (loop_state k))) (answer_at k) = loop_state (k + 1).
Proof.
  rewrite !Nat.add_1_r. unfold note_error. cbn [attempt last_error_key identical_count].
  destruct k as [|k'].
  - simpl. destruct (is_empty (error_key (answer_at 0))); [done|].
    destruct (bool_decide_reflect (Some (error_key (answer_at 0)) = None)); done.
  - cbn [loop_state attempt last_error_key identical_count same_run].
    set (key := error_key (answer_at (Datatypes.S k'))). set (old := error_key (answer_at k')).
    destruct (is_empty key) eqn:Ek; [done|]. cbn [negb andb].
    destruct (is_empty old) eqn:Eo.
    + destruct (bool_decide_reflect (Some key = None)); [done|].
      apply is_empty_true in Eo. apply is_empty_false in Ek.
      destruct (String.eqb_spec key old); [congruence|done].
    + destruct (String.eqb_spec key old) as [->|Hne].
      * rewrite bool_decide_true by done. unfold saturating_add_u32, u32_max. f_equal. lia.
      * rewrite bool_decide_false by congruence. done.
Qed.

Lemma retry_delay_short k : waits_ok k → short_delay (retry_delay captures persistent (k + 1) (answer_at k)).
Proof.
  intros Hw. unfold retry_delay. rewrite Nat.add_sub.
  assert (short_delay (f64_of_Z (default 0%Z (delays !! Nat.min k 2)))) as Hb.
  { assert (Nat.min k 2 = 0 ∨ Nat.min k 2 = 1 ∨ Nat.min k 2 = 2) as [->|[->| ->]] by lia; by split. }
  change (length delays - 1) with 2.
  destruct (pick_delay captures (answer_at k)) as [d|] eqn:E; simpl default.
  - destruct (Hw d E) as [Hv H60]. destruct persistent; [by apply min_sixty_short|]. split; auto.
  - destruct persistent; [apply min_sixty_short; apply Hb|done].
Qed.

Lemma invoke_calls s r :
  ∃ evs, invoke call s r = ((call s r).1.1, (call s r).1.2, evs) ∧ calls evs = [r].
Proof.
  unfold invoke. destruct (call s r) as [[s' a] ds]. eexists. split; [done|]. simpl. f_equal.
  induction ds; simpl; auto.
Qed.

(** A round that ends the attempts. *)
Lemma retry_round_stop fuel sfuel k :
  stops_at k = true →
  ∃ s' evs,
    retry_loop captures call label persistent notify (Datatypes.S fuel) sfuel (state_at k) req
      (loop_state k) = Returns (s', final_answer k, evs) ∧
    calls evs = req :: (if retries_stripped k then [stripped] else []).
Proof.
  intros Hstop. cbn [retry_loop]. destruct (invoke_calls (state_at k) req) as (evs & -> & Hevs).
  change ((call (state_at k) req).1.2) with (answer_at k).
  change ((call (state_at k) req).1.1) with (state_at (Datatypes.S k)).
  change (String.eqb (finish_reason (answer_at k)) "error") with (is_error (answer_at k)).
  rewrite note_error_state. unfold stops_at in Hstop.
  unfold final_answer, retries_stripped, stripped.
  destruct (is_error (answer_at k)) eqn:Ee; cbn [negb andb orb] in *; [|by eauto].
  destruct (is_transient_response (answer_at k)) eqn:Et; cbn [negb andb orb] in *.
  - rewrite Nat.add_1_r. cbn [loop_state identical_count attempt].
    destruct persistent; cbn [negb andb].
    + assert ((PERSISTENT_IDENTICAL_ERROR_LIMIT <=? Z.min u32_max (Z.of_nat (same_run k)))%Z = true)
        as -> by (unfold PERSISTENT_IDENTICAL_ERROR_LIMIT, u32_max; bool_to_prop; apply Z.leb_le; lia).
      do 2 eexists. split; [done|]. rewrite calls_app, Hevs. by destruct notify.
    + assert ((length delays <? Datatypes.S k) = true) as -> by (bool_to_prop; apply Nat.ltb_lt; simpl; lia).
      do 2 eexists. split; [done|]. rewrite calls_app, Hevs. by destruct notify.
  - destruct (strip_image_content_inplace (rq_messages req)) as [ms []] eqn:Es; cbn [fst snd]; [|by eauto].
    destruct (invoke_calls (state_at (Datatypes.S k)) (with_messages req ms)) as (evs' & -> & Hevs').
    do 2 eexists. split; [done|]. by rewrite calls_app, Hevs, Hevs'.
Qed.

(** A round that does not. *)
Lemma retry_round_continue fuel sfuel k :
  stops_at k = false → waits_ok k → 2 ≤ sfuel →
  ∃ evs, calls evs = [req] ∧
    retry_loop captures call label persistent notify (Datatypes.S fuel) sfuel (state_at k) req
      (loop_state k) =
    (let! (s', r, evs') :=
       retry_loop captures call label persistent notify fuel sfuel (state_at (Datatypes.S k)) req
         (loop_state (Datatypes.S k)) in
     Returns (s', r, evs ++ evs')).
Proof.
  intros Hstop Hw Hf. cbn [retry_loop]. destruct (invoke_calls (state_at k) req) as (evs & -> & Hevs).
  change ((call (state_at k) req).1.2) with (answer_at k).
  change ((call (state_at k) req).1.1) with (state_at (Datatypes.S k)).
  change (String.eqb (finish_reason (answer_at k)) "error") with (is_error (answer_at k)).
  rewrite note_error_state. unfold stops_at in Hstop.
  apply orb_false_iff in Hstop as [[->%negb_false_iff ->%negb_false_iff]%orb_false_iff Hlim].
  cbn [negb]. pose proof (retry_delay_short k Hw) as Hd.
  destruct (sleep_returns sfuel _ (k + 1) persistent notify Hf Hd) as (waited & Hs & _ & Hwc).
  rewrite !Nat.add_1_r in *. cbn [loop_state identical_count attempt].
  assert (persistent && (PERSISTENT_IDENTICAL_ERROR_LIMIT <=? Z.min u32_max (Z.of_nat (same_run k)))%Z = false)
    as ->.
  { unfold PERSISTENT_IDENTICAL_ERROR_LIMIT, u32_max. destruct persistent; [|done]. bool_to_prop.
    simpl. apply Z.leb_gt. lia. }
  assert (negb persistent && (length delays <? Datatypes.S k) = false) as ->.
  { destruct persistent; [done|]. bool_to_prop. simpl. apply Nat.ltb_ge. lia. }
  rewrite Hs. cbn [run_bind]. exists (evs ++ waited). split; [by rewrite calls_app, Hevs, Hwc|].
  change (mkRetry (Datatypes.S k) _ _) with (loop_state (Datatypes.S k)).
  destruct (retry_loop _ _ _ _ _ _ _ _ _ _) as [[[s' r] evs']| |]; simpl; [|done..].
  by rewrite app_assoc.
Qed.

(** The loop ends with the first answer that stops it. *)
Lemma retry_loop_exact n fuel sfuel k :
  (∀ j, j < n → stops_at (k + j) = false ∧ waits_ok (k + j)) → stops_at (k + n) = true →
  n < fuel → 2 ≤ sfuel →
  ∃ s' evs,
    retry_loop captures call label persistent notify fuel sfuel (state_at k) req (loop_state k) =
      Returns (s', final_answer (k + n), evs) ∧
    calls evs = replicate (Datatypes.S n) req ++
                (if retries_stripped (k + n) then [stripped] else []).
Proof.
  revert k fuel. induction n as [|n IH]; intros k fuel Hbefore Hstop Hfuel Hsf;
    (destruct fuel as [|fuel]; [lia|]).
  - rewrite Nat.add_0_r in *. by apply retry_round_stop.
  - destruct (Hbefore 0) as [H0 Hw0]; [lia|]. rewrite Nat.add_0_r in H0, Hw0.
    destruct (retry_round_continue fuel sfuel k H0 Hw0 Hsf) as (evs & Hevs & ->).
    rewrite <-Nat.add_succ_comm in *.
    destruct (IH (Datatypes.S k) fuel) as (s' & evs' & -> & Hc); [|done|lia|done|].
    { intros j Hj. rewrite Nat.add_succ_comm. apply Hbefore. lia. }
    exists s', (evs ++ evs'). split; [done|]. by rewrite calls_app, Hevs, Hc.
Qed.

Lemma same_run_const n m :
  (∀ j, j ≤ m → error_key (answer_at (n + j)) = error_key (answer_at n)) →
  error_key (answer_at n) ≠ "" → m < same_run (n + m).
Proof.
  intros Hsame Hne. induction m as [|m IH].
  - rewrite Nat.add_0_r. apply is_empty_false in Hne. destruct n; simpl; rewrite Hne; [lia|].
    destruct (String.eqb _ _); lia.
  - rewrite Nat.add_succ_r. cbn [same_run].
    rewrite <-Nat.add_succ_r, (Hsame (Datatypes.S m)) by lia.
    rewrite (proj2 (is_empty_false _) Hne), (Hsame m), String.eqb_refl by lia.
    specialize (IH ltac:(auto)). lia.
Qed.
End RetryFacts.

(** More fuel does not change a result. *)
Lemma retry_loop_mono {S} captures (call : S → ChatRequest → S * LLMResponse * list Delta) label
    persistent notify fuel fuel' sfuel s req st res :
  retry_loop captures call label persistent notify fuel sfuel s req st = Returns res →
  fuel ≤ fuel' →
  retry_loop captures call label persistent notify fuel' sfuel s req st = Returns res.
Proof.
  revert fuel' s st res. induction fuel as [|fuel IH]; intros fuel' s st res H Hle; [done|].
  destruct fuel' as [|fuel']; [lia|]. cbn [retry_loop] in *.
  destruct (invoke call s req) as [[s1 r] evs].
  destruct (negb _); [done|]. destruct (negb _); [done|].
  destruct (_ && _); [done|]. destruct (_ && _); [done|].
  destruct (sleep_with_heartbeat _ _ _ _ _) as [waited| |]; cbn [run_bind] in *; [|done..].
  destruct (retry_loop captures call label persistent notify fuel sfuel s1 req _)
    as [[[s2 r2] evs2]| |] eqn:E; cbn [run_bind] in *; [|done..].
  rewrite (IH fuel' _ _ _ E) by lia. done.
Qed.

Lemma least_true (f : nat → bool) n :
  f n = true → ∃ m, m ≤ n ∧ f m = true ∧ ∀ j, j < m → f j = false.
Proof.
  revert f. induction n as [|n IH]; intros f Hn.
  - exists 0. split_and!; [done..|lia].
  - destruct (f 0) eqn:E0; [exists 0; split_and!; [lia|done|lia]|].
    destruct (IH (λ k, f (S k)) Hn) as (m & Hm & Hfm & Hlt).
    exists (S m). split_and!; [lia|done|]. intros [|j] Hj; [done|]. apply Hlt. lia.
Qed.

(** What is left of a run when the listeners are ignored. *)
Definition observe {S} (r : run (S * LLMResponse * list Event)) : run (S * LLMResponse * list ChatRequest) :=
  let! (s, a, evs) := r in Returns (s, a, calls evs).

Lemma retry_loop_observe {S} captures
    (call1 call2 : S → ChatRequest → S * LLMResponse * list Delta) l1 l2 persistent notify
    fuel sfuel s req st :
  (∀ s r, (call1 s r).1 = (call2 s r).1) →
  observe (retry_loop captures call1 l1 persistent notify fuel sfuel s req st) =
  observe (retry_loop captures call2 l2 persistent notify fuel sfuel s req st).
Proof.
  intros Hcall. revert s st. induction fuel as [|fuel IH]; intros s st; [done|].
  cbn [retry_loop].
  destruct (invoke_calls call1 s req) as (evs1 & -> & Hc1).
  destruct (invoke_calls call2 s req) as (evs2 & -> & Hc2). rewrite Hcall.
  destruct (call2 s req) as [[s' r] ds]. cbn [fst snd].
  destruct (negb (String.eqb (finish_reason r) "error")); [simpl; by rewrite Hc1, Hc2|].
  destruct (negb (is_transient_response r)).
  { destruct (strip_image_content_inplace (rq_messages req)) as [ms []]; [|simpl; by rewrite Hc1, Hc2].
    destruct (invoke_calls call1 s' (with_messages req ms)) as (evs1' & -> & Hc1').
    destruct (invoke_calls call2 s' (with_messages req ms)) as (evs2' & -> & Hc2').
    rewrite Hcall. simpl. by rewrite !calls_app, Hc1, Hc2, Hc1', Hc2'. }
  destruct (persistent && _); [simpl; rewrite !calls_app, Hc1, Hc2; by destruct notify|].
  destruct (negb persistent && _); [simpl; rewrite !calls_app, Hc1, Hc2; by destruct notify|].
  destruct (sleep_with_heartbeat _ _ _ _ _) as [waited| |]; [|done..]. cbn [run_bind].
  match goal with |- observe (run_bind (retry_loop _ _ _ _ _ _ _ ?s ?r ?st) _) = _ =>
    specialize (IH s st) end.
  destruct (retry_loop captures call1 _ _ _ _ _ _ _ _) as [[[s1 r1] e1]| |],
           (retry_loop captures call2 _ _ _ _ _ _ _ _) as [[[s2 r2] e2]| |]; simpl in *; try done.
  injection IH as -> -> IH. by rewrite !calls_app, Hc1, Hc2, IH.
Qed.

(** ** The wrappers *)

Section Wrapped.
Variable captures : string → string → option (option string * option string).
Context {S : Type} (p : LLMProvider S).

(** A plain call as the loop sees it. *)
Definition plain (s : S) (r : ChatRequest) : S * LLMResponse * list Delta := (chat p s r, []).


(** Persistent mode is live: [chat_with_retry] returns as soon as an answer is no transient
    error, and at the latest with the tenth consecutive error of the same text that is not
    blank, whatever delays the errors ask for. *)
Theorem chat_with_retry_persistent_live (s : S) (req : ChatRequest) (notify : bool) (sfuel n : nat) :
  let req' := prepare_request (generation p) req in
  let answer := answer_at plain s req' in
  2 ≤ sfuel → (∀ k d, pick_delay captures (answer k) = Some d → f64_valid d = true) →
  is_error (answer n) = false ∨ is_transient_response (answer n) = false ∨
    (9 ≤ n ∧ error_key (answer n) ≠ "" ∧
     ∀ j, n - 9 ≤ j ≤ n → error_key (answer j) = error_key (answer n)) →
  ∃ m s' evs, m ≤ n ∧
    (∀ fuel, m < fuel → chat_with_retry captures p fuel sfuel s req Persistent notify =
                        Returns (s', final_answer plain s req' m, evs)) ∧
    length (calls evs) ≤ m + 2.
Proof.
  intros req' answer Hsf Hv Hn.
  assert (stops_at plain true s req' n = true) as Hstop.
  { unfold stops_at. fold answer. destruct Hn as [->|[->|(H9 & Hne & Hsame)]]; [done|by rewrite orb_true_r|].
    apply orb_true_iff. right. apply Nat.leb_le.
    pose proof (same_run_const plain s req' (n - 9) 9) as Hrun.
    rewrite Nat.sub_add in Hrun by done. fold answer in Hrun.
    assert (9 < same_run plain s req' n); [|lia]. apply Hrun.
    - intros j Hj. rewrite (Hsame (n - 9 + j)), (Hsame (n - 9)) by lia. done.
    - rewrite (Hsame (n - 9)) by lia. done. }
  destruct (least_true _ _ Hstop) as (m & Hm & Hstopm & Hbefore). clear Hstop.
  assert (∀ fuel, m < fuel → ∃ s' evs,
    chat_with_retry captures p fuel sfuel s req Persistent notify =
      Returns (s', final_answer plain s req' m, evs) ∧ length (calls evs) ≤ m + 2) as Hrun.
  { intros fuel Hfuel.
    destruct (retry_loop_exact captures plain "" true notify s req' m fuel sfuel 0)
      as (s' & evs & E & Hc); [|done..|].
    { intros j Hj. split; [by apply Hbefore|]. intros d Hd. split; [by eapply Hv|done]. }
    exists s', evs. split; [done|]. rewrite Hc, length_app, length_replicate.
    destruct (retries_stripped _ _ _ _); simpl; lia. }
  destruct (Hrun (Datatypes.S m)) as (s' & evs & E & Hlen); [lia|].
  exists m, s', evs. split_and!; [done| |done]. intros fuel Hfuel.
  clear -E Hfuel. unfold chat_with_retry in *.
  eapply retry_loop_mono; [exact E|lia].
Qed.

(** Errors without text are never counted as identical: in persistent mode a provider that
    keeps answering them is asked forever. *)
Theorem persistent_blank_never_stops (s : S) (req : ChatRequest) (notify : bool) (fuel sfuel : nat) :
  let answer := answer_at plain s (prepare_request (generation p) req) in
  2 ≤ sfuel → (∀ k d, pick_delay captures (answer k) = Some d → f64_valid d = true) →
  (∀ k, is_error (answer k) = true ∧ is_transient_response (answer k) = true ∧
        error_key (answer k) = "") →
  chat_with_retry captures p fuel sfuel s req Persistent notify = OutOfFuel.
Proof.
  intros answer Hsf Hv Hblank.
  enough (∀ k, retry_loop captures plain "" true notify fuel sfuel
    (state_at plain s (prepare_request (generation p) req) k) (prepare_request (generation p) req)
    (loop_state plain s (prepare_request (generation p) req) k) = OutOfFuel) as H by exact (H 0).
  induction fuel as [|fuel IH]; intros k; [done|].
  destruct (retry_round_continue captures plain "" true notify s (prepare_request (generation p) req)
              fuel sfuel k) as (evs & _ & ->); [| |done|].
  - destruct (Hblank k) as (He & Ht & Hk). unfold stops_at. fold answer. rewrite He, Ht. simpl.
    destruct k; simpl; fold answer; by rewrite Hk.
  - intros d Hd. split; [by eapply Hv|done].
  - by rewrite IH.
Qed.

(** For a provider that relies on the default streaming method, the streaming wrapper makes
    the same calls and gives the same answer as the plain one, in both modes and with or
    without listeners. *)
Theorem chat_stream_with_retry_equiv (s : S) (req : ChatRequest) (mode : RetryMode)
    (listening notify : bool) (fuel sfuel : nat) :
  (∀ s r, chat_stream p s r = default_chat_stream (chat p) s r) →
  observe (chat_stream_with_retry captures p fuel sfuel s req listening mode notify) =
  observe (chat_with_retry captures p fuel sfuel s req mode notify).
Proof.
  intros Hdef. apply retry_loop_observe. intros s' r. rewrite Hdef. unfold default_chat_stream.
  by destruct (chat p s' r).
Qed.

Lemma heartbeat_infinite fuel attempt persistent notify :
  heartbeat fuel (S754_infinity false) attempt persistent notify = OutOfFuel.
Proof. induction fuel as [|fuel IH]; simpl; [done|]. change (f64_sub _ _) with (S754_infinity false). by rewrite IH. Qed.

(** In standard mode a delay the server asks for is not capped: the header
    [retry-after: inf] parses as a number and the wait never ends. *)
Theorem standard_infinite_wait (s s' : S) (req : ChatRequest) (notify : bool) (fuel sfuel : nat) r :
  chat p s (prepare_request (generation p) req) = (s', r) →
  is_error r = true → is_transient_response r = true →
  error_retry_after_s r = parse_f64 "inf" →
  chat_with_retry captures p fuel sfuel s req Standard notify = OutOfFuel.
Proof.
  intros Hchat He Ht Hinf. unfold chat_with_retry. destruct fuel as [|fuel]; [done|].
  cbn [retry_loop]. unfold invoke. rewrite Hchat. unfold is_error in He. rewrite He, Ht.
  cbn [negb andb is_persistent]. unfold note_error. cbn [last_error_key attempt].
  assert (∀ k, retry_delay captures false k r = S754_infinity false) as Hd.
  { intros k. unfold retry_delay, pick_delay. rewrite Hinf. done. }
  destruct (negb _ && _); cbn [attempt]; rewrite Hd; unfold sleep_with_heartbeat;
    by rewrite (heartbeat_infinite sfuel).
Qed.
End Wrapped.

(** ** Scripted providers *)

(** Answers in a fixed order, the last one for good; the state counts the calls. *)
Definition scripted (answers : list LLMResponse) : LLMProvider nat :=
  let chat n (_ : ChatRequest) := (S n, default (error_response "no more") (answers !! Nat.min n (length answers - 1))) in
  mkProvider "scripted" default_generation chat (default_chat_stream chat).

Definition no_captures : string → string → option (option string * option string) := λ _ _, None.

Definition success : LLMResponse :=
  mkResponse (Some "hi") [] "stop" [] None None None None None None None None None.

Definition hello_request : ChatRequest :=
  mkRequest [user_msg (JStr "hello")] None None 0 S754_nan None None.

Definition flaky : LLMProvider nat := scripted [error_response "503"; error_response "timeout"; success].

Lemma scripted_no_delay answers s req k d :
  (∀ r, r ∈ error_response "no more" :: answers → pick_delay no_captures r = None) →
  pick_delay no_captures (answer_at (plain (scripted answers)) s req k) = Some d → False.
Proof.
  intros Hall H. unfold answer_at, plain, scripted in H. cbn in H.
  match type of H with pick_delay _ (default _ (answers !! ?i)) = _ =>
    destruct (answers !! i) eqn:E; simpl in H; (rewrite Hall in H; [done|]) end.
  - right. by eapply list_elem_of_lookup_2.
  - left.
Qed.

Ltac scripted_delays :=
  let H := fresh in
  intros; exfalso; eapply scripted_no_delay; [|eassumption];
  intros ? H; repeat (apply elem_of_cons in H as [->|H]; [reflexivity|]);
  by apply not_elem_of_nil in H.


Definition stubborn : LLMProvider nat := scripted [error_response "overloaded"].

Lemma chat_with_retry_persistent_live_witness :
  ∃ m s' evs, m ≤ 9 ∧
    chat_with_retry no_captures stubborn 10 2 0 hello_request Persistent true =
      Returns (s', final_answer (plain stubborn) 0 (prepare_request default_generation hello_request) m, evs).
Proof.
  destruct (chat_with_retry_persistent_live no_captures stubborn 0 hello_request true 2 9)
    as (m & s' & evs & Hm & E & _).
  - lia.
  - intros k d Hd. scripted_delays.
  - right. right. split_and!; [lia|discriminate|]. intros j _. unfold answer_at, plain, stubborn. cbn. by destruct j.
  - exists m, s', evs. split; [done|]. apply E. lia.
Defined.

Lemma chat_stream_with_retry_equiv_witness :
  observe (chat_stream_with_retry no_captures flaky 4 2 0 hello_request true Standard false) =
  observe (chat_with_retry no_captures flaky 4 2 0 hello_request Standard false).
Proof. apply (chat_stream_with_retry_equiv no_captures flaky). reflexivity. Defined.
