(* ===== verification/Governance.v ===== *)
(** * Context governance

    [crates/agent/src/runner.rs], first part: what the runner does to the message list before
    each model call.  Orphaned tool results are dropped, missing ones filled in, old ones
    compacted, large ones truncated, and the history is cut to the token budget. *)

From S2P Require Import Prelude RustStr F64 Json Messages.

Local Open Scope stdpp_scope.

Definition SNIP_SAFETY_BUFFER : Z := 1024.
Definition MICROCOMPACT_KEEP_RECENT : nat := 10.
Definition MICROCOMPACT_MIN_CHARS : nat := 500.
Definition BACKFILL_CONTENT : string := "[Tool result unavailable — call was interrupted or lost]".
Definition COMPACTABLE_TOOLS : list string :=
  ["read_file"; "exec"; "grep"; "web_search"; "web_fetch"; "list_dir"].

(** The string identifiers of the calls an assistant message declares. *)
Definition declared_ids (msg : json) : list string :=
  if str_field_is "role" "assistant" msg
  then filter_map (get_str "id") (default [] (get_array "tool_calls" msg)) else [].

(** ** Orphaned results *)

(** A tool result that names a call which was not declared. *)
Definition is_orphan (declared : gset string) (msg : json) : bool :=
  str_field_is "role" "tool" msg &&
  let tid := default "" (get_str "tool_call_id" msg) in
  negb (is_empty tid) && negb (bool_decide (tid ∈ declared)).

(** The loop: the messages before the current one, and the copy made at the first orphan. *)
Fixpoint drop_orphans_loop (declared : gset string) (updated : option (list json))
    (before rest : list json) : option (list json) :=
  match rest with
  | [] => updated
  | msg :: rest =>
      match get_str "role" msg with
      | None => drop_orphans_loop declared updated (before ++ [msg]) rest
      | Some _ =>
          let declared := list_to_set (declared_ids msg) ∪ declared in
          if is_orphan declared msg then
            drop_orphans_loop declared (Some (default before updated)) (before ++ [msg]) rest
          else
            drop_orphans_loop declared ((λ u, u ++ [msg]) <$> updated) (before ++ [msg]) rest
      end
  end.

Definition drop_orphan_tool_results (messages : list json) : list json :=
  default messages (drop_orphans_loop ∅ None [] messages).

(** ** Missing results *)

(** Index, identifier and tool name of every declared call. *)
Fixpoint declared_calls (idx : nat) (messages : list json) : list (nat * string * string) :=
  match messages with
  | [] => []
  | msg :: messages =>
      (if str_field_is "role" "assistant" msg then
         filter_map (λ tc, id ← get_str "id" tc;
                           Some (idx, id, default "" (jget "function" tc ≫= get_str "name")))
           (default [] (get_array "tool_calls" msg))
       else []) ++ declared_calls (S idx) messages
  end.

Definition fulfilled_ids (messages : list json) : gset string :=
  list_to_set (filter_map (λ msg, if str_field_is "role" "tool" msg
                                  then get_str "tool_call_id" msg else None) messages).

Definition backfill_message (call_id name : string) : json :=
  JObj [("role", JStr "tool"); ("tool_call_id", JStr call_id); ("name", JStr name);
        ("content", JStr BACKFILL_CONTENT)].

(** The [while] that steps over tool results. *)
Fixpoint leading_tools (l : list json) : nat :=
  match l with
  | m :: l' => if str_field_is "role" "tool" m then S (leading_tools l') else 0
  | [] => 0
  end.

(** [Vec::insert]. *)
Definition vec_insert {A} (i : nat) (x : A) (l : list A) : list A := take i l ++ x :: drop i l.

Fixpoint backfill_loop (missing : list (nat * string * string)) (offset : nat) (updated : list json)
    : list json :=
  match missing with
  | [] => updated
  | (assistant_idx, call_id, name) :: missing =>
      let start := assistant_idx + 1 + offset in
      let insert_at := start + leading_tools (drop start updated) in
      backfill_loop missing (offset + 1) (vec_insert insert_at (backfill_message call_id name) updated)
  end.

Definition backfill_missing_tool_results (messages : list json) : list json :=
  let fulfilled := fulfilled_ids messages in
  let missing := retain (λ d, negb (bool_decide (d.1.2 ∈ fulfilled))) (declared_calls 0 messages) in
  match missing with
  | [] => messages
  | _ => backfill_loop missing 0 messages
  end.

(** ** Compaction *)

Definition is_compactable (msg : json) : bool :=
  str_field_is "role" "tool" msg &&
  match get_str "name" msg with Some n => bool_decide (n ∈ COMPACTABLE_TOOLS) | None => false end.

(** The message that replaces a stale result. *)
Definition compact_message (msg : json) : json :=
  let content := default "" (get_str "content" msg) in
  if String.length content <? MICROCOMPACT_MIN_CHARS then msg
  else
    let name := default "tool" (get_str "name" msg) in
    JObj [("role", JStr "tool"); ("tool_call_id", default JNull (jget "tool_call_id" msg));
          ("name", JStr name); ("content", JStr ("[" +:+ name +:+ " result omitted from context]"))].

(** The first [stale] compactable results are replaced. *)
Fixpoint compact_first (stale : nat) (messages : list json) : list json :=
  match messages with
  | [] => []
  | msg :: messages =>
      if is_compactable msg then
        match stale with
        | 0 => msg :: compact_first 0 messages
        | S stale => compact_message msg :: compact_first stale messages
        end
      else msg :: compact_first stale messages
  end.

Definition microcompact (messages : list json) : list json :=
  let compactable := length (retain is_compactable messages) in
  if compactable <=? MICROCOMPACT_KEEP_RECENT then messages
  else compact_first (compactable - MICROCOMPACT_KEEP_RECENT) messages.

(** ** The budget of single results *)

Section Budget.
Context {W : Type}.
(** Normalisation of a result, which may write it to a file: call, tool, content. *)
Variable normalize : W → string → string → json → W * json.

Fixpoint apply_budget_loop (w : W) (idx : nat) (messages : list json) : W * list json :=
  match messages with
  | [] => (w, [])
  | msg :: messages =>
      let '(w, msg') :=
        if str_field_is "role" "tool" msg then
          let id := default ("tool_" +:+ pretty idx) (get_str "tool_call_id" msg) in
          let name := default "tool" (get_str "name" msg) in
          let content := default JNull (jget "content" msg) in
          let '(w, normalized) := normalize w id name content in
          (w, if bool_decide (Some normalized = jget "content" msg) then msg
              else match msg with JObj m => JObj (map_insert "content" normalized m) | _ => msg end)
        else (w, msg) in
      let '(w, rest) := apply_budget_loop w (S idx) messages in
      (w, msg' :: rest)
  end.

Definition apply_tool_result_budget (w : W) (messages : list json) : W * list json :=
  apply_budget_loop w 0 messages.
End Budget.

(** ** The token budget *)

Section Snip.
Variable to_string : json → string.

(** Messages from the end, as long as they fit, and at least one. *)
Fixpoint keep_recent (budget : nat) (newest_first : list json) (kept : list json) (tokens : nat)
    : list json :=
  match newest_first with
  | [] => kept
  | m :: older =>
      let t := estimate_message_tokens to_string m in
      if negb (bool_decide (kept = [])) && (budget <? tokens + t) then kept
      else keep_recent budget older (m :: kept) (tokens + t)
  end.

Definition legal_part (kept : list json) : list json := drop (find_legal_message_start kept) kept.

(** The kept messages from a user message on, recovered from outside the window if needed. *)
Definition from_user (non_system kept : list json) : list json :=
  match position (str_field_is "role" "user") kept with
  | Some i => drop i kept
  | None =>
      match rposition (str_field_is "role" "user") non_system with
      | Some i => drop i non_system
      | None => kept
      end
  end.

(** Options of the run: the context window, the answer limit and an explicit limit ([u32]). *)
Definition snip_budget (context_window : Z) (max_tokens context_block_limit : option Z) : Z :=
  match context_block_limit with
  | Some b => b
  | None => Z.max 0 (Z.max 0 (context_window - default 4096%Z max_tokens) - SNIP_SAFETY_BUFFER)
  end.

Definition snip_history (context_window_tokens max_tokens context_block_limit : option Z)
    (messages : list json) : list json :=
  match context_window_tokens with
  | Some window =>
      if negb (0 <? window)%Z then messages
      else
        let budget := Z.to_nat (snip_budget window max_tokens context_block_limit) in
        if budget =? 0 then messages
        else if estimate_prompt_tokens to_string messages None <=? budget then messages
        else
          let system := retain (str_field_is "role" "system") messages in
          let non_system := retain (λ m, negb (str_field_is "role" "system" m)) messages in
          match non_system with
          | [] => messages
          | _ =>
              let system_tokens := list_sum (estimate_message_tokens to_string <$> system) in
              let remaining := 128 `max` budget - system_tokens in
              let kept := keep_recent remaining (reverse non_system) [] 0 in
              let kept :=
                match kept with
                | [] => []
                | _ => legal_part (from_user non_system kept)
                end in
              let kept :=
                match kept with
                | [] => legal_part (drop (length non_system - 4 `min` length non_system) non_system)
                | _ => kept
                end in
              system ++ kept
          end
  | None => messages
  end.
End Snip.
