(* ===== verification/GovernanceProps.v ===== *)
(** * Context governance: theorems

    The message list a model receives pairs every tool result with a call and every call with
    a result; compaction and snipping keep what they promise to keep. *)

From S2P Require Import Prelude RustStr F64 Json Messages Governance.

Local Open Scope stdpp_scope.

(** ** Pairing *)

(** The call a tool result names, by a string that is not empty. *)
Definition answered_id (msg : json) : option string :=
  if str_field_is "role" "tool" msg then
    let tid := default "" (get_str "tool_call_id" msg) in if is_empty tid then None else Some tid
  else None.

(** Every tool result names a call declared before it. *)
Definition no_orphans (msgs : list json) : Prop :=
  ∀ l1 m l2 t, msgs = l1 ++ m :: l2 → answered_id m = Some t →
    ∃ a, a ∈ l1 ∧ t ∈ declared_ids a.

(** Every declared call has a result. *)
Definition all_answered (msgs : list json) : Prop :=
  ∀ a t, a ∈ msgs → t ∈ declared_ids a →
    ∃ m, m ∈ msgs ∧ str_field_is "role" "tool" m = true ∧ get_str "tool_call_id" m = Some t.

Definition ids (l : list json) : list string := l ≫= declared_ids.

Lemma elem_of_ids t l : t ∈ ids l ↔ ∃ a, a ∈ l ∧ t ∈ declared_ids a.
Proof. unfold ids. rewrite list_elem_of_bind. naive_solver. Qed.

Lemma ids_snoc l m : ids (l ++ [m]) = ids l ++ declared_ids m.
Proof. unfold ids. rewrite bind_app. simpl. by rewrite app_nil_r. Qed.

Lemma no_orphans_nil : no_orphans [].
Proof. by intros [|??]. Qed.

Lemma no_orphans_snoc l m :
  no_orphans (l ++ [m]) ↔ no_orphans l ∧ (∀ t, answered_id m = Some t → t ∈ ids l).
Proof.
  split.
  - intros H. split.
    + intros l1 x l2 t -> Ht. eapply (H l1 x (l2 ++ [m])); [|done]. by rewrite <-app_assoc.
    + intros t Ht. apply elem_of_ids. by eapply (H l m []).
  - intros [H1 H2] l1 x l2 t E Ht. destruct (decide (l2 = [])) as [->|Hne].
    + apply app_inj_2 in E as [-> [= ->]]; [|done]. apply elem_of_ids. auto.
    + destruct (exists_last Hne) as (l2' & y & ->).
      rewrite app_comm_cons, app_assoc in E. apply app_inj_2 in E as [-> _]; [|done]. eauto.
Qed.

Lemma no_orphans_app_l l k : no_orphans (l ++ k) → no_orphans l.
Proof.
  intros H l1 m l2 t -> Ht. eapply (H l1 m (l2 ++ k)); [|done]. by rewrite <-app_assoc.
Qed.

Lemma role_needed_declared m : get_str "role" m = None → declared_ids m = [].
Proof. intros H. unfold declared_ids, str_field_is. by rewrite H. Qed.

Lemma role_needed_answered m : get_str "role" m = None → answered_id m = None.
Proof. intros H. unfold answered_id, str_field_is. by rewrite H. Qed.

Lemma tool_declares_nothing m : str_field_is "role" "tool" m = true → declared_ids m = [].
Proof.
  unfold declared_ids, str_field_is. destruct (get_str "role" m) as [r|]; [|done].
  intros ->%String.eqb_eq. done.
Qed.

Lemma is_orphan_false d m :
  is_orphan d m = false ↔ ∀ t, answered_id m = Some t → t ∈ d.
Proof.
  unfold is_orphan, answered_id. destruct (str_field_is "role" "tool" m); simpl; [|naive_solver].
  destruct (is_empty (default "" (get_str "tool_call_id" m))); simpl; [naive_solver|].
  rewrite negb_false_iff, bool_decide_eq_true. naive_solver.
Qed.

Lemma is_orphan_tool d m : is_orphan d m = true → str_field_is "role" "tool" m = true.
Proof. unfold is_orphan. by intros [? _]%andb_true_iff. Qed.

(** *** Dropping orphans *)

(** The set the loop keeps holds what the messages so far declare. *)
Definition declares (d : gset string) (l : list json) : Prop := ∀ t, t ∈ d ↔ t ∈ ids l.

Lemma declares_snoc d l m : declares d l → declares (list_to_set (declared_ids m) ∪ d) (l ++ [m]).
Proof. intros H t. rewrite ids_snoc, elem_of_union, elem_of_list_to_set, elem_of_app, (H t). tauto. Qed.

Lemma declares_silent d l m : declared_ids m = [] → declares d l → declares d (l ++ [m]).
Proof. intros E H t. by rewrite ids_snoc, E, app_nil_r. Qed.

Lemma drop_orphans_loop_spec d updated before rest :
  declares d before →
  match updated with
  | None => no_orphans before
  | Some u => no_orphans u ∧ (∀ t, t ∈ ids u ↔ t ∈ ids before) ∧ u `sublist_of` before
  end →
  match drop_orphans_loop d updated before rest with
  | None => no_orphans (before ++ rest)
  | Some u => no_orphans u ∧ (∀ t, t ∈ ids u ↔ t ∈ ids (before ++ rest)) ∧ u `sublist_of` before ++ rest
  end.
Proof.
  revert d updated before. induction rest as [|m rest IH]; intros d updated before Hd Hu;
    cbn [drop_orphans_loop]; [by rewrite app_nil_r|].
  assert (before ++ m :: rest = (before ++ [m]) ++ rest) as -> by (by rewrite <-app_assoc).
  destruct (get_str "role" m) as [role|] eqn:Er.
  2: { apply IH; [apply declares_silent; auto using role_needed_declared|].
       destruct updated as [u|].
       - destruct Hu as (H1 & H2 & H3). split_and!; [done| |by apply sublist_inserts_r].
         intros t. rewrite H2, ids_snoc, (role_needed_declared m Er), app_nil_r. done.
       - apply no_orphans_snoc. split; [done|]. by rewrite role_needed_answered. }
  destruct (is_orphan (list_to_set (declared_ids m) ∪ d) m) eqn:Eo.
  - pose proof (tool_declares_nothing m (is_orphan_tool _ _ Eo)) as Em.
    apply IH; [by apply declares_snoc|]. destruct updated as [u|]; simpl.
    + destruct Hu as (H1 & H2 & H3). split_and!; [done| |by apply sublist_inserts_r].
      intros t. by rewrite H2, ids_snoc, Em, app_nil_r.
    + split_and!; [done| |by apply sublist_inserts_r]. intros t. by rewrite ids_snoc, Em, app_nil_r.
  - apply IH; [by apply declares_snoc|]. rewrite is_orphan_false in Eo.
    assert (∀ t, answered_id m = Some t → t ∈ ids before) as Ha.
    { intros t Ht. specialize (Eo t Ht). rewrite elem_of_union, elem_of_list_to_set, (Hd t) in Eo.
      destruct Eo as [Hin|]; [|done]. unfold answered_id in Ht.
      destruct (str_field_is "role" "tool" m) eqn:Et; [|done].
      rewrite (tool_declares_nothing m Et) in Hin. by apply not_elem_of_nil in Hin. }
    destruct updated as [u|]; simpl.
    + destruct Hu as (H1 & H2 & H3). split_and!.
      * apply no_orphans_snoc. split; [done|]. intros t Ht. apply H2. auto.
      * intros t. by rewrite !ids_snoc, !elem_of_app, H2.
      * by apply sublist_app.
    + by apply no_orphans_snoc.
Qed.

Lemma drop_orphans_spec msgs :
  no_orphans (drop_orphan_tool_results msgs) ∧
  (∀ t, t ∈ ids (drop_orphan_tool_results msgs) ↔ t ∈ ids msgs) ∧
  drop_orphan_tool_results msgs `sublist_of` msgs.
Proof.
  unfold drop_orphan_tool_results.
  pose proof (drop_orphans_loop_spec ∅ None [] msgs) as H. simpl in H.
  destruct (drop_orphans_loop ∅ None [] msgs) as [u|]; simpl.
  - apply H; [|apply no_orphans_nil]. intros t. simpl. by rewrite elem_of_empty, elem_of_nil.
  - split_and!; [|done|done]. apply H; [|apply no_orphans_nil].
    intros t. simpl. by rewrite elem_of_empty, elem_of_nil.
Qed.

Lemma drop_orphans_loop_none d before rest :
  declares d before → no_orphans (before ++ rest) → drop_orphans_loop d None before rest = None.
Proof.
  revert d before. induction rest as [|m rest IH]; intros d before Hd Hn; [done|].
  cbn [drop_orphans_loop]. assert (no_orphans ((before ++ [m]) ++ rest)) as Hn' by (by rewrite <-app_assoc).
  destruct (get_str "role" m) as [role|] eqn:Er.
  2: { apply IH; [apply declares_silent; auto using role_needed_declared|done]. }
  assert (is_orphan (list_to_set (declared_ids m) ∪ d) m = false) as ->.
  { apply is_orphan_false. intros t Ht. apply elem_of_union_r, Hd, elem_of_ids. by eapply Hn. }
  apply IH; [by apply declares_snoc|done].
Qed.

Lemma drop_orphans_id msgs : no_orphans msgs → drop_orphan_tool_results msgs = msgs.
Proof.
  intros H. unfold drop_orphan_tool_results. rewrite drop_orphans_loop_none; [done| |done].
  intros t. simpl. by rewrite elem_of_empty, elem_of_nil.
Qed.

(** *** Filling in missing results *)

Lemma elem_of_vec_insert {A} i (x y : A) l : y ∈ vec_insert i x l ↔ y = x ∨ y ∈ l.
Proof.
  unfold vec_insert. rewrite elem_of_app, elem_of_cons.
  rewrite <-(take_drop i l) at 3. rewrite elem_of_app. tauto.
Qed.

Lemma vec_insert_sublist {A} i (x : A) l : l `sublist_of` vec_insert i x l.
Proof. unfold vec_insert. rewrite <-(take_drop i l) at 1. apply sublist_app; [done|by constructor]. Qed.

Lemma vec_insert_lookup_lt {A} i j (x : A) l : j < i → j < length l → vec_insert i x l !! j = l !! j.
Proof.
  intros Hj Hl. unfold vec_insert. rewrite lookup_app_l; [|rewrite length_take; lia].
  by apply lookup_take_lt.
Qed.

(** Every element moves by at most one place. *)
Lemma vec_insert_lookup {A} i j (x y : A) l :
  l !! j = Some y → ∃ k, k ≤ S j ∧ vec_insert i x l !! k = Some y.
Proof.
  intros Hy. destruct (decide (j < i)) as [Hj|Hj].
  - exists j. split; [lia|]. rewrite vec_insert_lookup_lt; [done..|]. by apply lookup_lt_Some in Hy.
  - exists (S j). split; [done|]. pose proof (lookup_lt_Some _ _ _ Hy) as Hl. unfold vec_insert.
    rewrite lookup_app_r by (rewrite length_take; lia). rewrite length_take.
    replace (S j - i `min` length l) with (S (j - i)) by lia. simpl.
    rewrite lookup_drop, <-Hy. f_equal. lia.
Qed.

(** Inserting a result of a call that is declared before the place. *)
Lemma no_orphans_insert i x l :
  no_orphans l → declared_ids x = [] →
  (∀ t, answered_id x = Some t → ∃ a, a ∈ take i l ∧ t ∈ declared_ids a) →
  no_orphans (vec_insert i x l).
Proof.
  intros Hl Hx Hd l1 m l2 t E Ht. unfold vec_insert in E.
  apply app_eq_app in E as (k & [[E1 E2]|[E1 E2]]).
  - destruct k as [|y k]; simplify_eq/=.
    + destruct (Hd t Ht) as (a & Ha & Hta). exists a. rewrite app_nil_r in E1. by rewrite <-E1.
    + destruct (Hl l1 y (k ++ drop i l) t) as (a & Ha & Hta); [|done|eauto].
      rewrite <-(take_drop i l) at 1. by rewrite E1, <-app_assoc.
  - destruct k as [|y k]; simplify_eq/=.
    + destruct (Hd t Ht) as (a & Ha & Hta). exists a. rewrite app_nil_r in *. by subst.
    + destruct (Hl (take i l ++ k) m l2 t) as (a & Ha & Hta); [|done|].
      * rewrite <-(take_drop i l) at 1. by rewrite H0, <-app_assoc.
      * exists a. split; [|done]. rewrite elem_of_app in *. rewrite elem_of_cons. tauto.
Qed.

Lemma backfill_message_facts id name :
  declared_ids (backfill_message id name) = [] ∧
  answered_id (backfill_message id name) = (if is_empty id then None else Some id).
Proof. done. Qed.

(** The loop: elements move by at most the number of insertions, so an insertion comes after
    the call it answers. *)
Lemma backfill_loop_spec (msgs : list json) missing offset updated :
  no_orphans updated →
  (∀ i x, msgs !! i = Some x → ∃ j, j ≤ i + offset ∧ updated !! j = Some x) →
  (∀ a id name, (a, id, name) ∈ missing → ∃ m, msgs !! a = Some m ∧ id ∈ declared_ids m) →
  let out := backfill_loop missing offset updated in
  no_orphans out ∧ updated `sublist_of` out ∧
  (∀ x, x ∈ out ↔ x ∈ updated ∨ ∃ a id name, (a, id, name) ∈ missing ∧ x = backfill_message id name).
Proof.
  revert offset updated. induction missing as [|[[a id] name] missing IH];
    intros offset updated Hno Hpos Hmiss out.
  { simpl in out. subst out. split_and!; [done..|]. intros x. split; [by left|].
    intros [|(a & id & name & Hin & _)]; [done|by apply not_elem_of_nil in Hin]. }
  subst out. cbn [backfill_loop].
  set (start := a + 1 + offset). set (p := start + leading_tools (drop start updated)).
  destruct (IH (offset + 1) (vec_insert p (backfill_message id name) updated)) as (H1 & H2 & H3).
  - apply no_orphans_insert; [done|done|]. intros t Ht.
    destruct (Hmiss a id name) as (m & Hm & Hid); [left|].
    destruct (Hpos a m Hm) as (j & Hj & Hjm). exists m. split.
    + apply list_elem_of_lookup. exists j. rewrite lookup_take_lt by lia. done.
    + rewrite (proj2 (backfill_message_facts id name)) in Ht.
      destruct (is_empty id); [done|]. by injection Ht as ->.
  - intros i x Hx. destruct (Hpos i x Hx) as (j & Hj & Hjx).
    destruct (vec_insert_lookup p j (backfill_message id name) x updated Hjx) as (k & Hk & Hkx).
    exists k. split; [lia|done].
  - intros a' id' name' Hin. apply (Hmiss a' id' name'). by right.
  - split_and!; [done| |].
    + etrans; [apply vec_insert_sublist|done].
    + intros x. rewrite H3, elem_of_vec_insert. split.
      * intros [[->|Hx]|(a' & id' & name' & Hin & ->)]; [right; exists a, id, name; split; [left|done]|by left|].
        right. exists a', id', name'. split; [by right|done].
      * intros [Hx|(a' & id' & name' & [[= -> -> ->]|Hin]%elem_of_cons & ->)]; [by left; right|by left; left|].
        right. eauto.
Qed.

Lemma elem_of_declared_calls k (msgs : list json) a id name :
  (a, id, name) ∈ declared_calls k msgs →
  ∃ m, k ≤ a ∧ msgs !! (a - k) = Some m ∧ id ∈ declared_ids m.
Proof.
  revert k. induction msgs as [|m msgs IH]; intros k; cbn [declared_calls].
  { by intros H%not_elem_of_nil. }
  rewrite elem_of_app. intros [H|H].
  - destruct (str_field_is "role" "assistant" m) eqn:Er; [|by apply not_elem_of_nil in H].
    apply elem_of_filter_map in H as (tc & Htc & E).
    destruct (get_str "id" tc) as [id'|] eqn:Eid; simplify_eq/=.
    exists m. rewrite Nat.sub_diag. split_and!; [done..|]. unfold declared_ids. rewrite Er.
    apply elem_of_filter_map. eauto.
  - destruct (IH (S k) H) as (x & Hk & Hx & Hid). exists x.
    replace (a - k) with (S (a - S k)) by lia. split_and!; [lia|done..].
Qed.

Lemma declared_calls_complete k msgs m t :
  m ∈ msgs → t ∈ declared_ids m → ∃ a name, (a, t, name) ∈ declared_calls k msgs.
Proof.
  revert k. induction msgs as [|x msgs IH]; intros k Hm Ht; [by apply not_elem_of_nil in Hm|].
  cbn [declared_calls]. apply elem_of_cons in Hm as [->|Hm].
  - unfold declared_ids in Ht. destruct (str_field_is "role" "assistant" x); [|by apply not_elem_of_nil in Ht].
    apply elem_of_filter_map in Ht as (tc & Htc & E). do 2 eexists. apply elem_of_app. left.
    apply elem_of_filter_map. exists tc. split; [done|]. by rewrite E.
  - destruct (IH (S k) Hm Ht) as (a & name & H). exists a, name. apply elem_of_app. by right.
Qed.

Lemma elem_of_fulfilled t msgs :
  t ∈ fulfilled_ids msgs ↔
  ∃ m, m ∈ msgs ∧ str_field_is "role" "tool" m = true ∧ get_str "tool_call_id" m = Some t.
Proof.
  unfold fulfilled_ids. rewrite elem_of_list_to_set, elem_of_filter_map.
  split; intros (m & Hm & H); exists m; split; auto; destruct (str_field_is "role" "tool" m); naive_solver.
Qed.

Definition missing_calls (msgs : list json) : list (nat * string * string) :=
  retain (λ d, negb (bool_decide (d.1.2 ∈ fulfilled_ids msgs))) (declared_calls 0 msgs).

Lemma backfill_unfold msgs :
  backfill_missing_tool_results msgs = backfill_loop (missing_calls msgs) 0 msgs.
Proof. unfold backfill_missing_tool_results. by destruct (missing_calls msgs) eqn:E; unfold missing_calls in E; rewrite E. Qed.

Lemma elem_of_missing a id name msgs :
  (a, id, name) ∈ missing_calls msgs ↔ (a, id, name) ∈ declared_calls 0 msgs ∧ id ∉ fulfilled_ids msgs.
Proof. unfold missing_calls. by rewrite retain_elem_of, negb_true_iff, bool_decide_eq_false. Qed.

Lemma backfill_spec msgs :
  no_orphans msgs →
  no_orphans (backfill_missing_tool_results msgs) ∧
  msgs `sublist_of` backfill_missing_tool_results msgs ∧
  (∀ x, x ∈ backfill_missing_tool_results msgs ↔ x ∈ msgs ∨
     ∃ a id name, (a, id, name) ∈ missing_calls msgs ∧ x = backfill_message id name).
Proof.
  intros Hno. rewrite backfill_unfold. apply (backfill_loop_spec msgs); [done| |].
  - intros i x Hx. exists i. split; [lia|done].
  - intros a id name [H _]%elem_of_missing. apply elem_of_declared_calls in H as (m & _ & Hm & Hid).
    exists m. by rewrite Nat.sub_0_r in Hm.
Qed.

Lemma backfill_answered msgs : no_orphans msgs → all_answered (backfill_missing_tool_results msgs).
Proof.
  intros Hno a t Ha Ht. destruct (backfill_spec msgs Hno) as (_ & _ & Hel).
  apply Hel in Ha as [Ha|(i & id & name & _ & ->)]; [|by apply not_elem_of_nil in Ht].
  destruct (decide (t ∈ fulfilled_ids msgs)) as [Hf|Hf].
  - apply elem_of_fulfilled in Hf as (m & Hm & Hr & Hid). exists m. split; [|done]. apply Hel. by left.
  - destruct (declared_calls_complete 0 msgs a t Ha Ht) as (i & name & Hd).
    exists (backfill_message t name). split; [|done]. apply Hel. right.
    exists i, t, name. split; [|done]. by apply elem_of_missing.
Qed.

Lemma backfill_id msgs : all_answered msgs → backfill_missing_tool_results msgs = msgs.
Proof.
  intros H. rewrite backfill_unfold. destruct (missing_calls msgs) as [|[[a id] name] l] eqn:E; [done|].
  assert ((a, id, name) ∈ missing_calls msgs) as Hin by (rewrite E; left).
  apply elem_of_missing in Hin as [Hd Hf]. exfalso. apply Hf, elem_of_fulfilled.
  apply elem_of_declared_calls in Hd as (m & _ & Hm & Hid).
  apply (H m); [|done]. by eapply list_elem_of_lookup_2.
Qed.

(** The two last steps of the pipeline. *)
Definition repair_pairs (msgs : list json) : list json :=
  backfill_missing_tool_results (drop_orphan_tool_results msgs).

Definition paired (msgs : list json) : Prop := no_orphans msgs ∧ all_answered msgs.

Lemma repair_pairs_paired msgs : paired (repair_pairs msgs).
Proof.
  destruct (drop_orphans_spec msgs) as (Hno & _). split; [|by apply backfill_answered].
  by apply backfill_spec.
Qed.

(** Dropping orphaned results and then filling in missing ones pairs calls and results: in
    the outcome every result with an identifier follows the assistant message that declared
    its call, and every declared call has a result.  Messages that were neither orphaned
    results nor (once one was found) without a role are kept in order, and the outcome is
    left alone by both steps. *)
Theorem repair_pairs_correct (msgs : list json) :
  paired (repair_pairs msgs) ∧
  (∀ t, t ∈ ids (repair_pairs msgs) ↔ t ∈ ids msgs) ∧
  drop_orphan_tool_results msgs `sublist_of` repair_pairs msgs ∧
  repair_pairs (repair_pairs msgs) = repair_pairs msgs.
Proof.
  split; [apply repair_pairs_paired|].
  destruct (drop_orphans_spec msgs) as (Hno & Hids & _). unfold repair_pairs at 1 2 4.
  pose proof (backfill_answered _ Hno) as Hans.
  destruct (backfill_spec _ Hno) as (Hno' & Hsub & Hel). split_and!; try done.
  - intros t. rewrite <-Hids, !elem_of_ids. split.
    + intros (a & Ha & Ht). apply Hel in Ha as [Ha|(i & id & name & _ & ->)]; [eauto|].
      by apply not_elem_of_nil in Ht.
    + intros (a & Ha & Ht). exists a. split; [|done]. apply Hel. by left.
  - unfold repair_pairs. rewrite drop_orphans_id by done. by rewrite backfill_id.
Qed.

(** ** Compaction *)

Lemma compact_first_lookup n (msgs : list json) i :
  compact_first n msgs !! i =
  (λ m, if is_compactable m && (length (retain is_compactable (take i msgs)) <? n)
        then compact_message m else m) <$> msgs !! i.
Proof.
  revert n i. induction msgs as [|x msgs IH]; intros n i; [done|]. cbn [compact_first].
  destruct (is_compactable x) eqn:E.
  - destruct n as [|n], i as [|i]; simpl; rewrite ?E; simpl; try done; rewrite IH;
      destruct (msgs !! i) as [m|]; simpl; try done; by destruct (is_compactable m).
  - destruct i as [|i]; simpl; rewrite ?E; simpl; [done|]. by rewrite IH.
Qed.

Lemma compact_first_length n msgs : length (compact_first n msgs) = length msgs.
Proof.
  revert n. induction msgs as [|x msgs IH]; intros n; [done|]. cbn [compact_first].
  destruct (is_compactable x); [destruct n|]; simpl; by rewrite IH.
Qed.

(** Compaction changes neither what a message declares nor what it answers. *)
Lemma compact_message_pairing m :
  is_compactable m = true →
  answered_id (compact_message m) = answered_id m ∧ declared_ids (compact_message m) = declared_ids m.
Proof.
  intros [Hr _]%andb_true_iff. unfold compact_message. destruct (_ <? _); [done|].
  rewrite (tool_declares_nothing m Hr). split; [|done]. unfold answered_id. rewrite Hr.
  unfold get_str. simpl. by destruct (jget "tool_call_id" m).
Qed.

(** Compaction keeps every message in its place and leaves all of them alone but the large
    results of file, search and command tools that have at least ten such results after
    them; those are replaced by a note that still answers the same call. *)
Theorem microcompact_exact (msgs : list json) :
  length (microcompact msgs) = length msgs ∧
  (∀ i m, msgs !! i = Some m →
     microcompact msgs !! i =
       Some (if is_compactable m &&
                (MICROCOMPACT_KEEP_RECENT <=? length (retain is_compactable (drop (S i) msgs)))
             then compact_message m else m)) ∧
  (∀ m, is_compactable m = true →
     answered_id (compact_message m) = answered_id m ∧ declared_ids (compact_message m) = [] ∧
     (String.length (default "" (get_str "content" m)) < MICROCOMPACT_MIN_CHARS → compact_message m = m)).
Proof.
  split_and!.
  - unfold microcompact. destruct (_ <=? _); [done|]. apply compact_first_length.
  - intros i m Hm. pose proof (take_drop_middle msgs i m Hm) as E.
    assert (length (retain is_compactable msgs) =
      length (retain is_compactable (take i msgs)) +
      ((if is_compactable m then 1 else 0) + length (retain is_compactable (drop (S i) msgs)))) as Hlen.
    { rewrite <-E at 1. rewrite retain_app, length_app. simpl. by destruct (is_compactable m). }
    unfold microcompact. destruct (length (retain is_compactable msgs) <=? MICROCOMPACT_KEEP_RECENT) eqn:Ec.
    + bool_to_prop. rewrite Hm. destruct (is_compactable m); [|done]. cbn [andb].
      unfold MICROCOMPACT_KEEP_RECENT in *.
      destruct (Nat.leb_spec 10 (length (retain is_compactable (drop (S i) msgs)))); [lia|done].
    + bool_to_prop. rewrite compact_first_lookup, Hm. cbn [fmap option_fmap option_map]. f_equal.
      destruct (is_compactable m); [|done]. cbn [andb]. unfold MICROCOMPACT_KEEP_RECENT in *.
      destruct (Nat.leb_spec 10 (length (retain is_compactable (drop (S i) msgs))));
        destruct (Nat.ltb_spec (length (retain is_compactable (take i msgs)))
                   (length (retain is_compactable msgs) - 10)); try done; lia.
  - intros m Hm. destruct (compact_message_pairing m Hm) as [H1 H2]. split_and!; [done| |].
    + rewrite H2. apply tool_declares_nothing. by apply andb_true_iff in Hm as [Hm _].
    + intros Hlt. unfold compact_message. by apply Nat.ltb_lt in Hlt as ->.
Qed.

(** ** Snipping *)

Section SnipFacts.
Variable to_string : json → string.
Abbreviation tokens := (estimate_message_tokens to_string).
Definition total (l : list json) : nat := list_sum (tokens <$> l).

Lemma total_app l k : total (l ++ k) = total l + total k.
Proof. unfold total. rewrite fmap_app. apply list_sum_app. Qed.

Lemma total_cons m l : total (m :: l) = tokens m + total l.
Proof. done. Qed.

Lemma total_drop n l : total (drop n l) ≤ total l.
Proof. rewrite <-(take_drop n l) at 2. rewrite total_app. lia. Qed.

(** The window is a suffix, within the budget or a single message. *)
Lemma keep_recent_spec budget older kept :
  kept = [] ∨ total kept ≤ budget ∨ length kept = 1 →
  let out := keep_recent to_string budget older kept (total kept) in
  (∃ n, out = reverse (take n older) ++ kept) ∧
  (out = [] ∨ total out ≤ budget ∨ length out = 1) ∧ (out = [] → older = [] ∧ kept = []).
Proof.
  revert kept. induction older as [|m older IH]; intros kept Hk; simpl.
  { split_and!; [by exists 0|done|done]. }
  destruct (negb (bool_decide (kept = [])) && (budget <? total kept + tokens m)) eqn:E.
  - split_and!; [by exists 0|done|]. intros ->. by rewrite bool_decide_true in E.
  - replace (total kept + tokens m) with (total (m :: kept)) by (rewrite total_cons; lia).
    destruct (IH (m :: kept)) as ((n & Hn) & Hb & Hne).
    { apply andb_false_iff in E as [E|E].
      - apply negb_false_iff, bool_decide_eq_true in E as ->. by right; right.
      - bool_to_prop. right. left. rewrite total_cons. lia. }
    split_and!; [|done|by intros []%Hne]. exists (S n). simpl.
    rewrite reverse_cons, <-app_assoc. exact Hn.
Qed.

Lemma keep_recent_window budget l :
  l ≠ [] →
  ∃ n, keep_recent to_string budget (reverse l) [] 0 = drop n l ∧ drop n l ≠ [] ∧
       (total (drop n l) ≤ budget ∨ length (drop n l) = 1).
Proof.
  intros Hl. destruct (keep_recent_spec budget (reverse l) [] (or_introl eq_refl)) as ((n & Hn) & Hb & Hne).
  change (total []) with 0 in *. rewrite app_nil_r in Hn.
  assert (reverse (take n (reverse l)) = drop (length l - n) l) as E.
  { rewrite <-(reverse_involutive (drop (length l - n) l)). f_equal.
    destruct (decide (n ≤ length l)) as [Hle|Hgt].
    - rewrite <-(take_drop (length l - n) l) at 1. rewrite reverse_app.
      apply take_app_length'. rewrite length_reverse, length_drop. lia.
    - replace (length l - n) with 0 by lia. rewrite drop_0, take_ge; [done|]. rewrite length_reverse. lia. }
  exists (length l - n). rewrite Hn in *. rewrite E in *. split_and!; [done| |].
  - intros H. destruct (Hne H) as [H' _]. apply (f_equal length) in H'.
    rewrite length_reverse in H'. by destruct l.
  - destruct Hb as [H|Hb]; [|done]. destruct (Hne H) as [H' _]. apply (f_equal length) in H'.
    rewrite length_reverse in H'. by destruct l.
Qed.

Lemma legal_part_suffix l : ∃ n, legal_part l = drop n l ∧ legal_history (drop n l).
Proof. eexists. split; [done|]. apply find_legal_drop_legal. Qed.

Lemma from_user_suffix non kept n :
  kept = drop n non → ∃ k, from_user non kept = drop k non.
Proof.
  intros ->. unfold from_user. destruct (position _ _) as [i|]; [rewrite drop_drop; eauto|].
  destruct (rposition _ _) as [i|]; eauto.
Qed.

Lemma from_user_within non kept budget :
  existsb (str_field_is "role" "user") kept = true →
  total kept ≤ budget ∨ length kept = 1 →
  total (from_user non kept) ≤ budget ∨ length (from_user non kept) ≤ 1.
Proof.
  intros Hu Hb. unfold from_user. destruct (position _ kept) as [i|] eqn:E.
  - destruct Hb as [Hb|Hb]; [left; pose proof (total_drop i kept); lia|right; rewrite length_drop; lia].
  - exfalso. apply existsb_exists in Hu as (x & Hx & Hux). rewrite <-list_elem_of_In in Hx.
    by rewrite (proj1 (position_None _ _) E x Hx) in Hux.
Qed.

(** The recent messages that fit beside the system messages. *)
Definition recent_window (budget : nat) (msgs : list json) : list json :=
  keep_recent to_string (128 `max` budget - total (retain (str_field_is "role" "system") msgs))
    (reverse (retain (λ m, negb (str_field_is "role" "system" m)) msgs)) [] 0.

(** Snipping returns the messages as they are or the system messages followed by a suffix of
    the others in which every tool result answers a call; when the recent messages that fit
    the budget contain a user message and a legal part, the suffix fits the budget or is one
    message. *)
Theorem snip_history_spec (window max_tokens limit : option Z) (msgs : list json) :
  let out := snip_history to_string window max_tokens limit msgs in
  let system := retain (str_field_is "role" "system") msgs in
  let others := retain (λ m, negb (str_field_is "role" "system" m)) msgs in
  out = msgs ∨
  ∃ n w, window = Some w ∧ out = system ++ drop n others ∧ legal_history (drop n others) ∧
    let budget := Z.to_nat (snip_budget w max_tokens limit) in
    let kept := recent_window budget msgs in
    existsb (str_field_is "role" "user") kept = true → legal_part (from_user others kept) ≠ [] →
    total (drop n others) ≤ 128 `max` budget - total system ∨ length (drop n others) ≤ 1.
Proof.
  intros out system others. unfold out, snip_history. destruct window as [w|]; [|by left].
  destruct (negb (0 <? w)%Z); [by left|].
  set (budget := Z.to_nat (snip_budget w max_tokens limit)).
  destruct (budget =? 0); [by left|]. destruct (_ <=? budget); [by left|].
  fold system others. destruct (decide (others = [])) as [E|Hne]; [rewrite E; by left|].
  assert (∀ A (x y : A), match others with [] => x | _ => y end = y) as Hm
    by (intros; destruct others eqn:Eo; congruence).
  rewrite Hm. clear Hm. right.
  change (list_sum (tokens <$> system)) with (total system).
  destruct (keep_recent_window (128 `max` budget - total system) others Hne) as (n & En & Hn & Hb).
  unfold recent_window. fold system others. rewrite En.
  assert (∀ A (x y : A), match drop n others with [] => x | _ => y end = y) as Hm
    by (intros; destruct (drop n others) eqn:Eo; congruence).
  rewrite Hm. clear Hm.
  destruct (from_user_suffix others (drop n others) n eq_refl) as (k & Ek).
  destruct (legal_part_suffix (from_user others (drop n others))) as (j & Ej & Hlegal).
  destruct (legal_part (from_user others (drop n others))) as [|x kept] eqn:El.
  - destruct (legal_part_suffix (drop (length others - 4 `min` length others) others)) as (i & Ei & Hi).
    rewrite Ei, drop_drop in *. eexists _, w. fold budget. rewrite En.
    split_and!; [done..|]. by rewrite El.
  - rewrite Ej. rewrite Ek, drop_drop in *. eexists _, w. fold budget. rewrite En.
    split_and!; [done..|]. intros Hu _. destruct (from_user_within others (drop n others) _ Hu Hb) as [Ht|Hl];
      rewrite Ek in *; rewrite <-drop_drop.
    + left. pose proof (total_drop j (drop k others)). lia.
    + right. rewrite length_drop. lia.
Qed.
End SnipFacts.

(** When no user message fits, the nearest one is recovered together with everything after it,
    and the history exceeds the budget it was cut for. *)
Fixpoint letters (n : nat) : string := match n with 0 => "" | S n => String "x" (letters n) end.

Definition text_message (role : string) (n : nat) : json :=
  JObj [("role", JStr role); ("content", JStr (letters n))].

Theorem snip_recovery_exceeds :
  let msgs := [text_message "user" 400; text_message "assistant" 400] in
  ∀ to_string, snip_history to_string (Some 8192%Z) None (Some 100%Z) msgs = msgs ∧
    128 < total to_string msgs.
Proof. intros msgs to_string. split; [vm_compute; reflexivity|]. apply Nat.ltb_lt. vm_compute. reflexivity. Qed.
