(* ===== verification/Runner.v ===== *)
(** * The agent runner

    [crates/agent/src/runner.rs]: one execution of an agent.  Each iteration governs the
    context, asks the model, and either runs the tools it called or settles the final answer;
    messages that arrive meanwhile are injected.  The surroundings (provider, tools, files,
    injection queue, clock) act on a world [W].  Hooks, progress messages and logs only
    observe; of a hook the model keeps whether it wants streaming and how it finalises a
    text. *)

From S2P Require Import Prelude RustStr F64 Json Messages Think ToolSchema ToolRegistry Provider Retry Governance.

Local Open Scope stdpp_scope.
Local Open Scope hive_scope.

Definition DEFAULT_ERROR_MESSAGE : string := "Sorry, I encountered an error calling the AI model.".
Definition EMPTY_FINAL_RESPONSE_MESSAGE : string := "(No response from model)".
Definition FINALIZATION_RETRY_MESSAGE : string :=
  "Your last response appeared to be empty. Please provide your answer.".
Definition LENGTH_RECOVERY_MESSAGE : string :=
  "Your response was truncated. Please continue from where you left off.".
Definition MAX_EMPTY_RETRIES : nat := 2.
Definition MAX_LENGTH_RECOVERIES : nat := 3.
Definition RUNNER_MAX_REPEAT_VIOLATIONS : nat := 2.
Definition MAX_INJECTIONS_PER_TURN : nat := 3.
Definition MAX_INJECTION_CYCLES : nat := 5.

(** ** Types *)

Record ToolEvent := mkToolEvent {
  ev_name : string;
  ev_status : string;
  ev_detail : string
}.

(** [AgentRunSpec], with the hook's two decisions; the injection callback takes its limit. *)
Record AgentRunSpec (W : Type) := mkSpec {
  initial_messages : list json;
  spec_tools : Registry W;
  spec_model : string;
  max_iterations : nat;
  max_tool_result_chars : nat;
  spec_temperature : option f32;
  spec_max_tokens : option Z;
  spec_reasoning_effort : option string;
  error_message : option string;
  max_iterations_message : option string;
  concurrent_tools : bool;
  fail_on_tool_error : bool;
  workspace : option string;
  session_key : option string;
  context_window_tokens : option Z;
  context_block_limit : option Z;
  provider_retry_mode : RetryMode;
  injection_callback : option (W → nat → W * list json);
  has_progress : bool;
  stream_progress_deltas : bool;
  wants_streaming : bool;
  finalize_content : option string → option string
}.
Arguments mkSpec {W}.
Arguments initial_messages {W}.
Arguments spec_tools {W}.
Arguments spec_model {W}.
Arguments max_iterations {W}.
Arguments max_tool_result_chars {W}.
Arguments spec_temperature {W}.
Arguments spec_max_tokens {W}.
Arguments spec_reasoning_effort {W}.
Arguments error_message {W}.
Arguments max_iterations_message {W}.
Arguments concurrent_tools {W}.
Arguments fail_on_tool_error {W}.
Arguments workspace {W}.
Arguments session_key {W}.
Arguments context_window_tokens {W}.
Arguments context_block_limit {W}.
Arguments provider_retry_mode {W}.
Arguments injection_callback {W}.
Arguments has_progress {W}.
Arguments stream_progress_deltas {W}.
Arguments wants_streaming {W}.
Arguments finalize_content {W}.

Record AgentRunResult := mkResult {
  final_content : option string;
  res_messages : list json;
  tools_used : list string;
  res_usage : gmap string Z;
  stop_reason : string;
  res_error : option string;
  tool_events : list ToolEvent;
  had_injections : bool
}.

(** The surroundings of a run. *)
Record Env (W : Type) := mkEnv {
  provider : LLMProvider W;
  captures : string → string → option (option string * option string);
  to_string : json → string;
  to_string_pretty : json → string;
  iter_tools : gmap string (Tool W) → list (string * Tool W);
  render_param_error : ParamError → string;
  canonicalize : string → option string;
  (** The deadline of a plain call passes first: the world when it is cancelled. *)
  timed_out : W → option W;
  ensure_dir : W → string → W * bool;
  cleanup_buckets : W → string → string → W;
  path_exists : W → string → bool;
  write_text : W → string → string → W
}.
Arguments mkEnv {W}.
Arguments provider {W}.
Arguments captures {W}.
Arguments to_string {W}.
Arguments to_string_pretty {W}.
Arguments iter_tools {W}.
Arguments render_param_error {W}.
Arguments canonicalize {W}.
Arguments timed_out {W}.
Arguments ensure_dir {W}.
Arguments cleanup_buckets {W}.
Arguments path_exists {W}.
Arguments write_text {W}.

(** What a run does that can be seen from outside. *)
Inductive RunEvent :=
| AskedModel (messages : list json)
| TriedTool (name : string) (arguments : list (string * json))
| Checkpoint (phase : string) (iteration : nat) (assistant : json) (completed pending : list json).

(** ** Small functions *)

(** [accumulate_usage] and [merge_usage] are the same loop. *)
Definition accumulate_usage (target : gmap string Z) (delta : list (string * Z)) : gmap string Z :=
  fold_left (λ m kv, <[kv.1 := wrap_i64 (default 0%Z (m !! kv.1) + kv.2)]> m) delta target.

Definition text_block (s : string) : json := JObj [("type", JStr "text"); ("text", JStr s)].

Definition append_model_error_placeholder (messages : list json) : list json :=
  let placeholder := JObj [("role", JStr "assistant");
                           ("content", JStr "[Assistant reply unavailable due to model error.]")] in
  match last messages with
  | Some m => if str_field_is "role" "assistant" m && negb (has_tools m) then messages
              else messages ++ [placeholder]
  | None => messages ++ [placeholder]
  end.

Definition append_final_message (messages : list json) (content : option string) : list json :=
  match content with
  | Some c => if is_empty c then messages
              else messages ++ [JObj [("role", JStr "assistant"); ("content", JStr c)]]
  | None => messages
  end.

Definition user_text (s : string) : json := JObj [("role", JStr "user"); ("content", JStr s)].

Definition tool_message (id name : string) (content : json) : json :=
  JObj [("role", JStr "tool"); ("tool_call_id", JStr id); ("name", JStr name); ("content", content)].

(** ** Boundary violations *)

Definition SSRF_MARKERS : list string :=
  ["internal/private url detected"; "private/internal address"; "private address"].

Definition SSRF_BOUNDARY_NOTE : string :=
  "This is a non-bypassable security boundary. Stop trying to access private/internal URLs. Do not retry with curl, wget, encoded IPs, alternate DNS, redirects, proxies, or another tool. Ask the user for local files, logs, screenshots, or an explicit safe public URL instead. If the user explicitly trusts this private URL, ask them to whitelist the exact IP/CIDR via tools.ssrfWhitelist.".

Definition WORKSPACE_VIOLATION_MARKERS : list string :=
  ["outside the configured workspace"; "outside allowed directory"; "working_dir is outside";
   "working_dir could not be resolved"; "path outside working dir"; "path traversal detected"].

Definition is_ssrf_violation (text : string) : bool :=
  if is_empty text then false else existsb (contains_str (to_lowercase text)) SSRF_MARKERS.

Definition is_workspace_violation (text : string) : bool :=
  if is_empty text then false
  else
    let lowered := to_lowercase text in
    if is_ssrf_violation lowered then true
    else existsb (contains_str lowered) WORKSPACE_VIOLATION_MARKERS.

Definition ssrf_soft_payload (raw_text : string) : string :=
  let text := trim raw_text in
  (if is_empty text then "Error: request blocked by SSRF guard" else text) +:+
  blank_line +:+ SSRF_BOUNDARY_NOTE.

Definition event_detail (prefix text : string) (limit : nat) : string :=
  take_chars limit (prefix +:+ trim (replace_char nl " " text)).

Section Runner.
Context {W : Type} (E : Env W) (spec : AgentRunSpec W).

(** The runner's own target of a violation: a resolved path where the file exists. *)
Definition runner_violation_target (raw : string) : string :=
  violation_target (default (replace_char "\" "/" raw) (canonicalize E raw)).

Definition runner_violation_signature (tool_name : string) (arguments : json) : option string :=
  match first_nonblank_arg path_keys arguments with
  | Some v => Some (runner_violation_target v)
  | None =>
      if bool_decide (tool_name ∈ ["exec"; "shell"]) then
        match find_first (λ part, starts_with part "/") (split_whitespace (trimmed_arg "command" arguments)) with
        | Some part => Some (runner_violation_target part)
        | None =>
            let cwd := trimmed_arg "working_dir" arguments in
            if is_empty cwd then None else Some (runner_violation_target cwd)
        end
      else None
  end.

(** The runner's own counter: the entry is created and read, the sum is not stored. *)
Definition runner_repeated_violation_error (tool_name : string) (arguments : json) (seen : counts)
    : counts * option string :=
  match runner_violation_signature tool_name arguments with
  | None => (seen, None)
  | Some sig =>
      let seen := <[sig := default 0 (seen !! sig)]> seen in
      let count := default 0 (seen !! sig) + 1 in
      (seen, if count <=? RUNNER_MAX_REPEAT_VIOLATIONS then None
             else Some (escalation (default sig (strip_prefix "violation:" sig)) count))
  end.

Definition classify_violation (raw_text soft_payload : string) (event : ToolEvent)
    (tc : ToolCallRequest) (violations : counts)
    : counts * option (json * ToolEvent * option string) :=
  let with_detail d := mkToolEvent (ev_name event) (ev_status event) d in
  if is_ssrf_violation raw_text then
    (violations,
     Some (JStr (ssrf_soft_payload raw_text), with_detail (event_detail "ssrf_violation: " raw_text 160), None))
  else if is_workspace_violation raw_text then
    let '(violations, escalated) :=
      runner_repeated_violation_error (tc_name tc) (JObj (tc_arguments tc)) violations in
    (violations,
     match escalated with
     | Some text =>
         Some (JStr text, with_detail (event_detail "workspace_violation_escalated: " raw_text 160), None)
     | None =>
         Some (JStr soft_payload, with_detail (event_detail "workspace_violation: " raw_text 160), None)
     end)
  else (violations, None).

(** ** Results of tools *)

Definition TOOL_RESULTS_DIR : string := ".nanobot/tool-results".
Definition TOOL_RESULT_PREVIEW_CHARS : nat := 1200.

Definition path_join (a b : string) : string := a +:+ "/" +:+ b.

Definition render_tool_result_reference (filepath : string) (original_size : nat) (preview : string)
    (truncated : bool) : string :=
  "[tool output persisted]" +:+ String nl "Full output saved to: " +:+ filepath +:+
  String nl "Original size: " +:+ pretty original_size +:+ " chars" +:+
  String nl "Preview:" +:+ String nl preview +:+
  (if truncated
   then String nl "..." +:+ String nl "(Read the saved file if you need the full output.)" else "").

(** The text of a result and the kind of file it goes to. *)
Definition result_payload (content : json) : option (string * string) :=
  match content with
  | JStr s => Some (s, "txt")
  | JArr arr => (λ s, (s, "json")) <$> stringify_text_blocks arr
  | _ => None
  end.

Definition maybe_persist_tool_result (w : W) (tool_call_id : string) (content : json) : W * json :=
  match workspace spec, result_payload content with
  | Some ws, Some (text, suffix) =>
      if (max_tool_result_chars spec =? 0) || (chars_count text <=? max_tool_result_chars spec)
      then (w, content)
      else
        let root := path_join ws TOOL_RESULTS_DIR in
        let '(w, ok) := ensure_dir E w root in
        if negb ok then (w, content)
        else
          let bucket := path_join root (safe_filename (default "default" (session_key spec))) in
          let '(w, ok) := ensure_dir E w bucket in
          if negb ok then (w, content)
          else
            let w := cleanup_buckets E w root bucket in
            let path := path_join bucket (safe_filename tool_call_id +:+ "." +:+ suffix) in
            let out := if String.eqb suffix "json" then to_string_pretty E content else text in
            let w := if path_exists E w path then w else write_text E w path out in
            let size := chars_count text in
            (w, JStr (render_tool_result_reference path size (take_chars TOOL_RESULT_PREVIEW_CHARS text)
                        (TOOL_RESULT_PREVIEW_CHARS <? size)))
  | _, _ => (w, content)
  end.

Definition normalize_tool_result (w : W) (tool_call_id tool_name : string) (result : json) : W * json :=
  maybe_persist_tool_result w tool_call_id (ensure_nonempty_tool_result tool_name result).

(** ** Running tools *)

Definition partition_step (acc : list (list ToolCallRequest) * list ToolCallRequest)
    (tc : ToolCallRequest) : list (list ToolCallRequest) * list ToolCallRequest :=
  let '(batches, current) := acc in
  if match get (tc_name tc) (spec_tools spec) with Some t => concurrency_safe t | None => false end
  then (batches, current ++ [tc])
  else (batches ++ (match current with [] => [] | _ => [current] end) ++ [[tc]], []).

Definition partition_tool_batches (calls : list ToolCallRequest) : list (list ToolCallRequest) :=
  if negb (concurrent_tools spec) then (λ tc, [tc]) <$> calls
  else
    let '(batches, current) := fold_left partition_step calls ([], []) in
    batches ++ match current with [] => [] | _ => [current] end.

Abbreviation outcome := (json * ToolEvent * option string)%type.

Definition execute_single_tool (w : W) (tc : ToolCallRequest) (lookups violations : counts)
    : W * counts * counts * outcome :=
  let args := JObj (tc_arguments tc) in
  let '(lookups, blocked) := repeated_external_lookup_error (tc_name tc) args lookups in
  match blocked with
  | Some err =>
      (w, lookups, violations,
       (JStr (err +:+ ERROR_HINT), mkToolEvent (tc_name tc) "error" (truncate_text err 120), None))
  | None =>
      let '(w, result) := execute (iter_tools E) (to_string E) (render_param_error E) w
                            (spec_tools spec) (tc_name tc) args in
      let raw := match result with JStr s => s | other => to_string E other end in
      let failed := starts_with raw "Error" in
      let event := mkToolEvent (tc_name tc) (if failed then "error" else "ok") (truncate_text raw 200) in
      if failed then
        let '(violations, classified) := classify_violation raw raw event tc violations in
        match classified with
        | Some (payload, evt, fatal) =>
            (w, lookups, violations, (payload, evt, if fail_on_tool_error spec then fatal else None))
        | None =>
            (w, lookups, violations,
             (JStr (raw +:+ ERROR_HINT), event, if fail_on_tool_error spec then Some raw else None))
        end
      else (w, lookups, violations, (result, event, None))
  end.

(** A batch of several calls: each with counters of its own, the last error wins.  The calls
    of such a batch are read-only; they are modelled in order. *)
Fixpoint execute_batch (w : W) (batch : list ToolCallRequest) (fatal : option string)
    : W * list (json * ToolEvent) * option string :=
  match batch with
  | [] => (w, [], fatal)
  | tc :: batch =>
      let '(w, _, _, (result, event, f)) := execute_single_tool w tc ∅ ∅ in
      let '(w, rest, fatal) := execute_batch w batch (match f with Some _ => f | None => fatal end) in
      (w, (result, event) :: rest, fatal)
  end.

(** Calls one after the other, up to the first fatal one. *)
Fixpoint execute_sequence (w : W) (batch : list ToolCallRequest) (lookups violations : counts)
    : W * counts * counts * list (json * ToolEvent) * option string :=
  match batch with
  | [] => (w, lookups, violations, [], None)
  | tc :: batch =>
      let '(w, lookups, violations, (result, event, f)) := execute_single_tool w tc lookups violations in
      match f with
      | Some _ => (w, lookups, violations, [(result, event)], f)
      | None =>
          let '(w, lookups, violations, rest, fatal) := execute_sequence w batch lookups violations in
          (w, lookups, violations, (result, event) :: rest, fatal)
      end
  end.

Fixpoint execute_batches (w : W) (batches : list (list ToolCallRequest)) (lookups violations : counts)
    : W * counts * counts * list (json * ToolEvent) * option string :=
  match batches with
  | [] => (w, lookups, violations, [], None)
  | batch :: batches =>
      let '(w, lookups, violations, outs, fatal) :=
        if concurrent_tools spec && (1 <? length batch) then
          let '(w, outs, fatal) := execute_batch w batch None in (w, lookups, violations, outs, fatal)
        else execute_sequence w batch lookups violations in
      match fatal with
      | Some _ => (w, lookups, violations, outs, fatal)
      | None =>
          let '(w, lookups, violations, rest, fatal) := execute_batches w batches lookups violations in
          (w, lookups, violations, outs ++ rest, fatal)
      end
  end.

Definition execute_tools (w : W) (calls : list ToolCallRequest) (lookups violations : counts)
    : W * counts * counts * list (json * ToolEvent) * option string :=
  execute_batches w (partition_tool_batches calls) lookups violations.

(** ** Injected messages *)

Definition item_block (item : json) : json :=
  match item with
  | JObj _ => item
  | JStr s => text_block s
  | _ => text_block (to_string E item)
  end.

Definition to_blocks (v : json) : list json :=
  match v with
  | JArr items => item_block <$> items
  | JNull => []
  | JStr s => [text_block s]
  | other => [text_block (to_string E other)]
  end.

Definition merge_message_content (left right : option json) : json :=
  match left, right with
  | Some (JStr a), Some (JStr b) => if is_empty a then JStr b else JStr (a +:+ blank_line +:+ b)
  | Some l, Some r => JArr (to_blocks l ++ to_blocks r)
  | Some v, None | None, Some v => v
  | None, None => JStr ""
  end.

(** One injected message: merged into a last user message, or added. *)
Definition append_injected (messages : list json) (injection : json) : list json :=
  match last messages with
  | Some m =>
      if str_field_is "role" "user" injection && str_field_is "role" "user" m then
        removelast messages ++
        [set_field "content" (merge_message_content (jget "content" m) (jget "content" injection)) m]
      else messages ++ [injection]
  | None => messages ++ [injection]
  end.

Definition append_injected_messages (messages injections : list json) : list json :=
  foldl append_injected messages injections.

(** A message of the queue as it is injected. *)
Definition injected_item (item : json) : option json :=
  if str_field_is "role" "user" item && match jget "content" item with Some _ => true | None => false end
  then Some item
  else
    match get_str "content" item with
    | Some text => if is_empty (trim text) then None else Some (user_text text)
    | None => None
    end.

Definition drain_injections (w : W) : W * list json :=
  match injection_callback spec with
  | None => (w, [])
  | Some cb =>
      let '(w, items) := cb w MAX_INJECTIONS_PER_TURN in
      (w, take MAX_INJECTIONS_PER_TURN (filter_map injected_item items))
  end.

(** The world, the messages, whether anything was injected, and the cycles used. *)
Definition try_drain_injections (w : W) (messages : list json) (assistant : option json) (cycles : nat)
    : W * list json * bool * nat :=
  if MAX_INJECTION_CYCLES <=? cycles then (w, messages, false, cycles)
  else
    let '(w, injected) := drain_injections w in
    match injected with
    | [] => (w, messages, false, cycles)
    | _ => (w, append_injected_messages (messages ++ option_list assistant) injected, true, cycles + 1)
    end.

(** ** Asking the model *)

(** [fuel] bounds the attempts of the retry wrapper and [sfuel] the chunks of a wait. *)
Variables (fuel sfuel : nat).

Definition base_request (messages : list json) (tools : option (list json)) (choice : option ToolChoice)
    : ChatRequest :=
  mkRequest messages tools (Some (spec_model spec)) (default 0%Z (spec_max_tokens spec))
    (default S754_nan (spec_temperature spec)) (spec_reasoning_effort spec) choice.

(** What the streaming callback accumulates: the text, the reasoning and the extractor. *)
Definition feed_delta (acc : run (string * string * string)) (d : Delta) : run (string * string * string) :=
  let! (buf, thinking, emitted) := acc in
  match d with
  | TextDelta text =>
      let buf := buf +:+ text in
      let! (emitted, new) := feed emitted buf in
      Returns (buf, thinking +:+ default "" new, emitted)
  | ToolCallDelta _ => acc
  end.

Definition emitted_deltas (evs : list Event) : list Delta :=
  omap (λ e, match e with Emitted d => Some d | _ => None end) evs.

(** The accumulated text stands in for a response without one. *)
Definition fill_response (r : LLMResponse) (content reasoning : string) : LLMResponse :=
  mkResponse
    (match rs_content r with
     | Some (String _ _) => rs_content r
     | _ => if is_empty content then None else Some content
     end)
    (rs_tool_calls r) (finish_reason r) (rs_usage r) (rs_retry_after r)
    (match rs_reasoning_content r with
     | None => if is_empty reasoning then None else Some reasoning
     | reasoning => reasoning
     end)
    (rs_thinking_blocks r) (error_status_code r) (error_kind r) (error_type r) (error_code r)
    (error_retry_after_s r) (error_should_retry r).

Definition request_model (w : W) (messages : list json) : run (W * LLMResponse) :=
  let tools := (get_definitions (iter_tools E) (spec_tools spec)).2 in
  let req := match tools with
             | [] => base_request messages None None
             | _ => base_request messages (Some tools) (Some ChoiceAuto)
             end in
  if wants_streaming spec || (stream_progress_deltas spec && has_progress spec) then
    let! (w, r, evs) := chat_stream_with_retry (captures E) (provider E) fuel sfuel w req true
                          (provider_retry_mode spec) false in
    let! (content, reasoning, _) := foldl feed_delta (Returns ("", "", "")) (emitted_deltas evs) in
    Returns (w, fill_response r content reasoning)
  else
    match timed_out E w with
    | Some w' => Returns (w', error_response "LLM request timed out")
    | None =>
        let! (w, r, _) := chat_with_retry (captures E) (provider E) fuel sfuel w req
                            (provider_retry_mode spec) false in
        Returns (w, r)
    end.

Definition request_finalization_retry (w : W) (messages : list json) : run (W * LLMResponse) :=
  let! (w, r, _) := chat_with_retry (captures E) (provider E) fuel sfuel w
                      (base_request (messages ++ [user_text FINALIZATION_RETRY_MESSAGE]) None None)
                      (provider_retry_mode spec) false in
  Returns (w, r).

(** ** The loop *)

Definition govern (w : W) (messages : list json) : W * list json :=
  let m := drop_orphan_tool_results messages in
  let m := backfill_missing_tool_results m in
  let m := microcompact m in
  let '(w, m) := apply_tool_result_budget normalize_tool_result w m in
  let m := snip_history (to_string E) (context_window_tokens spec) (spec_max_tokens spec)
             (context_block_limit spec) m in
  let m := drop_orphan_tool_results m in
  (w, backfill_missing_tool_results m).

(** The variables of the loop. *)
Record RunState := mkState {
  st_world : W;
  st_messages : list json;
  st_final : option string;
  st_tools_used : list string;
  st_usage : gmap string Z;
  st_error : option string;
  st_stop : string;
  st_tool_events : list ToolEvent;
  st_lookups : counts;
  st_violations : counts;
  st_empty_retries : nat;
  st_length_recoveries : nat;
  st_had_injections : bool;
  st_cycles : nat;
  st_trace : list RunEvent
}.

(** How an iteration ends: the next one, the code after the loop, or the result. *)
Inductive Flow :=
| Continue (st : RunState)
| Break (st : RunState)
| Return (w : W) (res : AgentRunResult) (trace : list RunEvent).

Definition handle_final_content (w : W) (messages : list json) (clean : option string)
    (response : LLMResponse) (iteration cycles : nat) (had : bool) (usage : gmap string Z)
    (trace : list RunEvent) : Flow :=
  let blank := is_blank_text clean in
  let answer := build_assistant_message clean None (rs_reasoning_content response)
                  (rs_thinking_blocks response) in
  let assistant := if negb (is_error response) && negb blank then Some answer else None in
  let '(w, messages, injected, cycles) := try_drain_injections w messages assistant cycles in
  if injected then
    Return w (mkResult None messages [] usage "injected" None [] true) trace
  else if is_error response then
    let text := default (default DEFAULT_ERROR_MESSAGE (error_message spec)) clean in
    let messages := append_model_error_placeholder messages in
    let '(w, messages, injected, _) := try_drain_injections w messages None cycles in
    Return w (mkResult (Some text) messages [] usage "error" (Some text) [] (had || injected)) trace
  else if blank then
    let text := EMPTY_FINAL_RESPONSE_MESSAGE in
    let messages := append_final_message messages (Some text) in
    let '(w, messages, injected, _) := try_drain_injections w messages None cycles in
    Return w (mkResult (Some text) messages [] usage "empty_final_response" (Some text) [] (had || injected)) trace
  else
    Return w (mkResult clean (messages ++ [answer]) [] usage "completed" None [] had)
      (trace ++ [Checkpoint "final_response" iteration answer [] []]).

(** The results of a batch of calls as messages. *)
Fixpoint tool_messages (w : W) (calls : list ToolCallRequest) (results : list json) : W * list json :=
  match calls, results with
  | tc :: calls, r :: results =>
      let '(w, content) := normalize_tool_result w (tc_id tc) (tc_name tc) r in
      let '(w, rest) := tool_messages w calls results in
      (w, tool_message (tc_id tc) (tc_name tc) content :: rest)
  | _, _ => (w, [])
  end.

(** The branch that runs tools. *)
Definition tool_iteration (iteration : nat) (st : RunState) (w : W) (response : LLMResponse)
    (usage : gmap string Z) (trace : list RunEvent) : Flow :=
  let calls := rs_tool_calls response in
  let calls_json := to_openai_tool_call (to_string E) <$> calls in
  let assistant := build_assistant_message (rs_content response) (Some calls_json)
                     (rs_reasoning_content response) (rs_thinking_blocks response) in
  let messages := st_messages st ++ [assistant] in
  let used := st_tools_used st ++ (tc_name <$> calls) in
  let trace := trace ++ [Checkpoint "awaiting_tools" iteration assistant [] calls_json] in
  let '(w, lookups, violations, outs, fatal) :=
    execute_tools w calls (st_lookups st) (st_violations st) in
  let trace := trace ++ ((λ tc, TriedTool (tc_name tc) (tc_arguments tc)) <$> take (length outs) calls) in
  let events := st_tool_events st ++ outs.*2 in
  let '(w, results) := tool_messages w calls outs.*1 in
  let messages := messages ++ results in
  match fatal with
  | Some err =>
      let text := "Error: " +:+ err in
      let messages := append_final_message messages (Some text) in
      let '(w, messages, injected, cycles) := try_drain_injections w messages None (st_cycles st) in
      let st' := mkState w messages (Some text) used usage (Some text) "tool_error" events lookups
                   violations (st_empty_retries st) (st_length_recoveries st)
                   (st_had_injections st || injected) cycles trace in
      if injected then Continue st' else Break st'
  | None =>
      let trace := trace ++ [Checkpoint "tools_completed" iteration assistant results []] in
      let '(w, messages, injected, cycles) := try_drain_injections w messages None (st_cycles st) in
      Continue (mkState w messages (st_final st) used usage (st_error st) (st_stop st) events lookups
                  violations 0 0 (st_had_injections st || injected) cycles trace)
  end.

(** One iteration. *)
Definition iterate (iteration : nat) (st : RunState) : run Flow :=
  let '(w, for_model) := govern (st_world st) (st_messages st) in
  let trace := st_trace st ++ [AskedModel for_model] in
  let! (w, raw) := request_model w for_model in
  let '(_, cleaned) := extract_reasoning (rs_reasoning_content raw) (rs_thinking_blocks raw) (rs_content raw) in
  let response := mkResponse cleaned (rs_tool_calls raw) (finish_reason raw) (rs_usage raw)
                    (rs_retry_after raw) (rs_reasoning_content raw) (rs_thinking_blocks raw)
                    (error_status_code raw) (error_kind raw) (error_type raw) (error_code raw)
                    (error_retry_after_s raw) (error_should_retry raw) in
  let usage := accumulate_usage (st_usage st) (rs_usage raw) in
  let next messages empty length :=
    Continue (mkState w messages (st_final st) (st_tools_used st) usage (st_error st) (st_stop st)
                (st_tool_events st) (st_lookups st) (st_violations st) empty length
                (st_had_injections st) (st_cycles st) trace) in
  if should_execute_tools response then
    Returns (tool_iteration iteration st w response usage trace)
  else
    let clean := finalize_content spec (rs_content response) in
    if negb (is_error response) && is_blank_text clean then
      let empty := st_empty_retries st + 1 in
      if empty <? MAX_EMPTY_RETRIES then
        Returns (next (st_messages st) empty (st_length_recoveries st))
      else
        let! (w, retry) := request_finalization_retry w (st_messages st) in
        let trace := trace ++ [AskedModel (st_messages st ++ [user_text FINALIZATION_RETRY_MESSAGE])] in
        let usage := accumulate_usage usage (rs_usage retry) in
        let clean := finalize_content spec (rs_content retry) in
        Returns (handle_final_content w (st_messages st) clean retry iteration (st_cycles st)
                   (st_had_injections st) usage trace)
    else if String.eqb (finish_reason response) "length" && negb (is_blank_text clean) &&
            (st_length_recoveries st + 1 <=? MAX_LENGTH_RECOVERIES) then
      let answer := build_assistant_message clean None (rs_reasoning_content response)
                      (rs_thinking_blocks response) in
      Returns (next (st_messages st ++ [answer; user_text LENGTH_RECOVERY_MESSAGE])
                 (st_empty_retries st) (st_length_recoveries st + 1))
    else
      Returns (handle_final_content w (st_messages st) clean response iteration (st_cycles st)
                 (st_had_injections st) usage trace).

(** [for iteration in 0..max_iterations]; [None] when the bound is reached. *)
Fixpoint iterations (iteration remaining : nat) (st : RunState)
    : run (bool * RunState + W * AgentRunResult * list RunEvent) :=
  match remaining with
  | 0 => Returns (inl (true, st))
  | S remaining =>
      let! flow := iterate iteration st in
      match flow with
      | Continue st => iterations (S iteration) remaining st
      | Break st => Returns (inl (false, st))
      | Return w res trace => Returns (inr (w, res, trace))
      end
  end.

Definition initial_state (w : W) : RunState :=
  mkState w (initial_messages spec) None [] {["prompt_tokens" := 0%Z; "completion_tokens" := 0%Z]} None
    "completed" [] ∅ ∅ 0 0 false 0 [].

(** The result after the loop. *)
Definition finish (st : RunState) (final error : option string) (stop : string) (w : W)
    (messages : list json) (had : bool) : W * AgentRunResult * list RunEvent :=
  (w, mkResult final messages (st_tools_used st) (st_usage st) stop error (st_tool_events st) had, st_trace st).

Definition run_agent (w : W) : run (W * AgentRunResult * list RunEvent) :=
  let! out := iterations 0 (max_iterations spec) (initial_state w) in
  match out with
  | inr res => Returns res
  | inl (false, st) =>
      Returns (finish st (st_final st) (st_error st) (st_stop st) (st_world st) (st_messages st)
                 (st_had_injections st))
  | inl (true, st) =>
      let text := default ("Task did not finish within " +:+ pretty (max_iterations spec) +:+ " iterations.")
                    (max_iterations_message spec) in
      let messages := append_final_message (st_messages st) (Some text) in
      let '(w, messages, _, _) := try_drain_injections (st_world st) messages None (st_cycles st) in
      Returns (finish st (Some text) (st_error st) "max_iterations" w messages true)
  end.
End Runner.
