(* ===== verification/RunnerProps.v ===== *)
(** * The agent runner: theorems

    Batching and execution of tools, the pairing of calls and results over a whole run, its
    termination and its outcomes. *)

From S2P Require Import Prelude RustStr F64 Json Messages Think ToolSchema ToolRegistry Provider ProviderProps Retry RetryProps Governance GovernanceProps Runner.

Local Open Scope stdpp_scope.
Local Open Scope hive_scope.

(** ** Batches *)

Section Tools.
Context {W : Type} (E : Env W) (spec : AgentRunSpec W).

Definition safe_call (tc : ToolCallRequest) : bool :=
  match get (tc_name tc) (spec_tools spec) with Some t => concurrency_safe t | None => false end.

Definition pending (current : list ToolCallRequest) : list (list ToolCallRequest) :=
  match current with [] => [] | _ => [current] end.

Lemma concat_pending current : concat (pending current) = current.
Proof. destruct current; simpl; by rewrite ?app_nil_r. Qed.

Lemma partition_fold calls batches current :
  Forall (λ b, length b = 1 ∨ Forall (λ tc, safe_call tc = true) b) batches →
  Forall (λ tc, safe_call tc = true) current →
  let '(batches', current') := fold_left (partition_step spec) calls (batches, current) in
  concat batches' ++ current' = concat batches ++ current ++ calls ∧
  Forall (λ b, length b = 1 ∨ Forall (λ tc, safe_call tc = true) b) batches' ∧
  Forall (λ tc, safe_call tc = true) current'.
Proof.
  revert batches current. induction calls as [|tc calls IH]; intros batches current Hb Hc;
    cbn [fold_left]; [by rewrite app_nil_r|].
  unfold partition_step at 2. fold (safe_call tc). fold (pending current).
  destruct (safe_call tc) eqn:Es.
  - specialize (IH batches (current ++ [tc])).
    destruct (fold_left (partition_step spec) calls (batches, current ++ [tc])) as [b c].
    rewrite <-app_assoc in IH. apply IH; [done|]. apply Forall_app. by repeat constructor.
  - specialize (IH (batches ++ pending current ++ [[tc]]) []).
    destruct (fold_left (partition_step spec) calls (batches ++ pending current ++ [[tc]], [])) as [b c].
    destruct IH as (H1 & H2 & H3); [|done|].
    + rewrite !Forall_app. split_and!; [done| |by repeat constructor].
      destruct current; simpl; [done|]. constructor; [by right|done].
    + split_and!; [|done..]. rewrite H1, !concat_app, concat_pending. simpl.
      by rewrite <-!app_assoc.
Qed.

Lemma partition_concat calls : concat (partition_tool_batches spec calls) = calls.
Proof.
  unfold partition_tool_batches. destruct (concurrent_tools spec); cbn [negb].
  2: by induction calls; csimpl; f_equal.
  pose proof (partition_fold calls [] [] (Forall_nil_2 _) (Forall_nil_2 _)) as H.
  destruct (fold_left (partition_step spec) calls ([], [])) as [batches current].
  destruct H as (H1 & _). fold (pending current). by rewrite concat_app, concat_pending.
Qed.

(** The calls of a response are run in the order the model gave them, none left out and none
    repeated, and a batch of more than one call only holds read-only, non-exclusive tools;
    without concurrency every call is a batch of its own. *)
Theorem partition_tool_batches_correct (calls : list ToolCallRequest) :
  concat (partition_tool_batches spec calls) = calls ∧
  Forall (λ b, length b = 1 ∨
    Forall (λ tc, ∃ t, get (tc_name tc) (spec_tools spec) = Some t ∧ t_read_only t = true ∧
                       t_exclusive t = false) b) (partition_tool_batches spec calls) ∧
  (concurrent_tools spec = false → partition_tool_batches spec calls = (λ tc, [tc]) <$> calls).
Proof.
  split; [apply partition_concat|].
  unfold partition_tool_batches. destruct (concurrent_tools spec); cbn [negb].
  2: { split; [|done]. apply Forall_fmap, Forall_true. by left. }
  pose proof (partition_fold calls [] [] (Forall_nil_2 _) (Forall_nil_2 _)) as H.
  destruct (fold_left (partition_step spec) calls ([], [])) as [batches current].
  destruct H as (_ & H2 & H3). fold (pending current). split; [|done].
  apply (Forall_impl (λ b, length b = 1 ∨ Forall (λ tc, safe_call tc = true) b)).
  - apply Forall_app. split; [done|]. destruct current; simpl; [done|].
    constructor; [by right|done].
  - intros b [Hb|Hb]; [by left|right]. apply (Forall_impl _ _ _ Hb). intros tc. unfold safe_call.
    destruct (get (tc_name tc) (spec_tools spec)) as [t|]; [|done].
    unfold concurrency_safe. intros [Hr He]%andb_true_iff. apply negb_true_iff in He. eauto.
Qed.

(** ** Outcomes of the calls *)

Lemma execute_batch_length w batch fatal :
  length (execute_batch E spec w batch fatal).1.2 = length batch.
Proof.
  revert w fatal. induction batch as [|tc batch IH]; intros w fatal; [done|]. cbn [execute_batch].
  destruct (execute_single_tool E spec w tc ∅ ∅) as [[[w1 l1] v1] [[r e] f]].
  specialize (IH w1 (match f with Some _ => f | None => fatal end)).
  destruct (execute_batch E spec w1 batch _) as [[w2 rest] fatal']. simpl in *. by rewrite IH.
Qed.

Lemma execute_sequence_length w batch l v :
  let '(_, _, _, outs, fatal) := execute_sequence E spec w batch l v in
  length outs ≤ length batch ∧ (fatal = None → length outs = length batch).
Proof.
  revert w l v. induction batch as [|tc batch IH]; intros w l v; [done|]. cbn [execute_sequence].
  destruct (execute_single_tool E spec w tc l v) as [[[w1 l1] v1] [[r e] [f|]]]; [simpl; split; [lia|done]|].
  specialize (IH w1 l1 v1).
  destruct (execute_sequence E spec w1 batch l1 v1) as [[[[w2 l2] v2] rest] fatal]. simpl.
  destruct IH as [IH1 IH2]. split; [lia|]. intros H. by rewrite IH2.
Qed.

Lemma execute_batches_length w batches l v :
  let '(_, _, _, outs, fatal) := execute_batches E spec w batches l v in
  length outs ≤ length (concat batches) ∧ (fatal = None → length outs = length (concat batches)).
Proof.
  revert w l v. induction batches as [|batch batches IH]; intros w l v; [done|].
  cbn [execute_batches]. rewrite concat_cons, length_app.
  assert (let '(_, _, _, outs, fatal) :=
      if concurrent_tools spec && (1 <? length batch) then
        let '(w, outs, fatal) := execute_batch E spec w batch None in (w, l, v, outs, fatal)
      else execute_sequence E spec w batch l v in
    length outs ≤ length batch ∧ (fatal = None → length outs = length batch)) as Hone.
  { destruct (concurrent_tools spec && (1 <? length batch)); [|apply execute_sequence_length].
    pose proof (execute_batch_length w batch None) as H.
    destruct (execute_batch E spec w batch None) as [[w1 outs] fatal]. simpl in H. lia. }
  destruct (if concurrent_tools spec && (1 <? length batch) then _ else _)
    as [[[[w1 l1] v1] outs] [f|]]; [split; [lia|done]|].
  specialize (IH w1 l1 v1).
  destruct (execute_batches E spec w1 batches l1 v1) as [[[[w2 l2] v2] rest] fatal].
  destruct IH as [IH1 IH2], Hone as [H1 H2]. rewrite length_app. split; [lia|].
  intros Hf. rewrite IH2, H2 by done. done.
Qed.

(** Every call gets a result unless one is fatal. *)
Lemma execute_tools_length w calls l v :
  let '(_, _, _, outs, fatal) := execute_tools E spec w calls l v in
  length outs ≤ length calls ∧ (fatal = None → length outs = length calls).
Proof.
  unfold execute_tools. pose proof (execute_batches_length w (partition_tool_batches spec calls) l v) as H.
  by rewrite partition_concat in H.
Qed.
End Tools.

(** ** Pairing over a run *)

(** Messages that neither declare nor answer calls. *)
Definition quiet (m : json) : Prop :=
  declared_ids m = [] ∧ answered_id m = None ∧ str_field_is "role" "tool" m = false.

(** The part of [quiet] that pairing needs. *)
Definition mute (m : json) : Prop := declared_ids m = [] ∧ answered_id m = None.

Lemma paired_snoc_mute l m : mute m → paired l → paired (l ++ [m]).
Proof.
  intros (Hd & Ha) [H1 H2]. split.
  - apply no_orphans_snoc. split; [done|]. by rewrite Ha.
  - intros a t [Hin| ->%list_elem_of_singleton]%elem_of_app Ht.
    + destruct (H2 a t Hin Ht) as (x & Hx & ?). exists x. split; [apply elem_of_app; by left|done].
    + rewrite Hd in Ht. by apply not_elem_of_nil in Ht.
Qed.

Lemma paired_cons_mute m l : mute m → paired l → paired (m :: l).
Proof.
  intros (Hd & Ha) [H1 H2]. split.
  - intros [|y l1] x l2 t E Ht; cbn in E; injection E as -> E; [congruence|].
    destruct (H1 l1 x l2 t E Ht) as (a & Hin & ?). exists a. split; [by right|done].
  - intros a t [->|Hin]%elem_of_cons Ht; [rewrite Hd in Ht; by apply not_elem_of_nil in Ht|].
    destruct (H2 a t Hin Ht) as (x & Hx & ?). exists x. split; [by right|done].
Qed.

Lemma paired_mutes l : Forall mute l → paired l.
Proof.
  induction 1 as [|m l Hm _ IH]; [|by apply paired_cons_mute].
  split; [apply no_orphans_nil|]. by intros a t ?%not_elem_of_nil.
Qed.

Lemma paired_snoc l m : quiet m → paired l → paired (l ++ [m]).
Proof. intros (Hd & Ha & _). by apply paired_snoc_mute. Qed.

Lemma paired_unsnoc l m : quiet m → paired (l ++ [m]) → paired l.
Proof.
  intros (Hd & Ha & Hr) [H1 H2]. split; [by eapply no_orphans_app_l|].
  intros a t Hin Ht. destruct (H2 a t) as (x & [Hx| ->%list_elem_of_singleton]%elem_of_app & Hrx & ?);
    [apply elem_of_app; by left|done|eauto|congruence].
Qed.

Lemma paired_app l k : Forall quiet k → paired l → paired (l ++ k).
Proof.
  revert l. induction k as [|m k IH]; intros l Hk Hl; [by rewrite app_nil_r|].
  apply Forall_cons in Hk as [Hm Hk]. rewrite cons_middle, app_assoc. apply IH; [done|].
  by apply paired_snoc.
Qed.

(** A message with calls followed by a result for each of them. *)
Lemma paired_batch l a rs :
  paired l → answered_id a = None →
  (∀ m, m ∈ rs → declared_ids m = [] ∧ ∀ t, answered_id m = Some t → t ∈ declared_ids a) →
  (∀ t, t ∈ declared_ids a →
     ∃ m, m ∈ rs ∧ str_field_is "role" "tool" m = true ∧ get_str "tool_call_id" m = Some t) →
  paired (l ++ a :: rs).
Proof.
  intros [H1 H2] Ha Hrs Hall. split.
  - clear H2 Hall. induction rs as [|m rs IH] using rev_ind.
    + apply no_orphans_snoc. split; [done|]. by rewrite Ha.
    + rewrite app_comm_cons, app_assoc. apply no_orphans_snoc. split.
      * apply IH. intros x Hx. apply Hrs, elem_of_app. by left.
      * intros t Ht. apply elem_of_ids. exists a. split; [apply elem_of_app; right; left|].
        apply (Hrs m); [|done]. apply elem_of_app. right. left.
  - intros x t Hx Ht. apply elem_of_app in Hx as [Hx|[->|Hx]%elem_of_cons].
    + destruct (H2 x t Hx Ht) as (m & Hm & ?). exists m. split; [apply elem_of_app; by left|done].
    + destruct (Hall t Ht) as (m & Hm & ?). exists m. split; [|done].
      apply elem_of_app. right. by right.
    + rewrite (proj1 (Hrs x Hx)) in Ht. by apply not_elem_of_nil in Ht.
Qed.

Lemma user_quiet m : str_field_is "role" "user" m = true → quiet m.
Proof.
  unfold quiet, declared_ids, answered_id, str_field_is.
  destruct (get_str "role" m) as [r|]; [|done]. by intros ->%String.eqb_eq.
Qed.

Lemma set_content_role k v m : k ≠ "role" → str_field_is "role" "user" (set_field k v m) = str_field_is "role" "user" m.
Proof. intros Hk. unfold str_field_is, get_str. by rewrite jget_set_field_ne. Qed.

Lemma text_reply_quiet c : quiet (JObj [("role", JStr "assistant"); ("content", JStr c)]).
Proof. done. Qed.

Lemma answer_quiet content reasoning thinking :
  quiet (build_assistant_message content None reasoning thinking).
Proof. by destruct content, reasoning, thinking as [[|]|]. Qed.

(** *** Assistant messages with calls *)

Lemma to_openai_id to_string tc : get_str "id" (to_openai_tool_call to_string tc) = Some (tc_id tc).
Proof.
  unfold to_openai_tool_call. by destruct (tc_function_provider_specific_fields tc),
    (tc_extra_content tc), (tc_provider_specific_fields tc).
Qed.

Lemma calls_message_ids to_string content calls reasoning thinking :
  let a := build_assistant_message content (Some (to_openai_tool_call to_string <$> calls)) reasoning thinking in
  declared_ids a = tc_id <$> calls ∧ answered_id a = None.
Proof.
  intros a.
  assert (str_field_is "role" "assistant" a = true ∧
          default [] (get_array "tool_calls" a) = to_openai_tool_call to_string <$> calls) as [Hr Ht].
  { subst a. by destruct calls, content, reasoning, thinking as [[|]|]. }
  split.
  - unfold declared_ids. rewrite Hr, Ht. clear. induction calls as [|tc calls IH]; [done|].
    cbn [fmap list_fmap filter_map]. rewrite to_openai_id. by rewrite IH.
  - unfold answered_id, str_field_is in *. destruct (get_str "role" a) as [r|]; [|done].
    by apply String.eqb_eq in Hr as ->.
Qed.

(** The result of a call. *)
Definition answers (tc : ToolCallRequest) (m : json) : Prop :=
  declared_ids m = [] ∧ str_field_is "role" "tool" m = true ∧ get_str "tool_call_id" m = Some (tc_id tc).

(** A message with calls and the results of all of them. *)
Lemma answers_paired l a calls ms :
  paired l → declared_ids a = tc_id <$> calls → answered_id a = None → Forall2 answers calls ms →
  paired (l ++ a :: ms).
Proof.
  intros Hl Hd Ha Hms. apply paired_batch; [done|done|..].
  - intros m Hm. apply list_elem_of_lookup in Hm as (i & Hi).
    destruct (Forall2_lookup_r _ _ _ _ _ Hms Hi) as (tc & Htc & H1 & H2 & H3). split; [done|].
    intros t Ht. rewrite Hd. apply list_elem_of_fmap. exists tc. split; [|by eapply list_elem_of_lookup_2].
    unfold answered_id in Ht. rewrite H2, H3 in Ht. cbn in Ht. destruct (is_empty (tc_id tc)); by simplify_eq.
  - rewrite Hd. intros t Ht. apply list_elem_of_fmap in Ht as (tc & -> & Htc).
    apply list_elem_of_lookup in Htc as (i & Hi).
    destruct (Forall2_lookup_l _ _ _ _ _ Hms Hi) as (m & Hm & _ & H2 & H3).
    exists m. split; [by eapply list_elem_of_lookup_2|done].
Qed.

Section Pairing.
Context {W : Type} (E : Env W) (spec : AgentRunSpec W) (fuel sfuel : nat).

Lemma tool_messages_spec w calls results :
  length results = length calls →
  Forall2 (λ tc m, ∃ c, m = tool_message (tc_id tc) (tc_name tc) c) calls
    (tool_messages E spec w calls results).2.
Proof.
  revert w results. induction calls as [|tc calls IH]; intros w [|r results] Hlen; simplify_eq/=;
    [constructor|].
  destruct (normalize_tool_result E spec w (tc_id tc) (tc_name tc) r) as [w1 c].
  specialize (IH w1 results Hlen). destruct (tool_messages E spec w1 calls results) as [w2 rest].
  constructor; [by eexists|done].
Qed.

Lemma tool_batch_paired l to_string content calls reasoning thinking ms :
  paired l →
  Forall2 (λ tc m, ∃ c, m = tool_message (tc_id tc) (tc_name tc) c) calls ms →
  paired ((l ++ [build_assistant_message content (Some (to_openai_tool_call to_string <$> calls))
                   reasoning thinking]) ++ ms).
Proof.
  intros Hl Hms. rewrite <-app_assoc. simpl.
  destruct (calls_message_ids to_string content calls reasoning thinking) as [Hd Ha].
  apply answers_paired with calls; [done..|]. eapply Forall2_impl; [exact Hms|]. intros tc m (c & ->). done.
Qed.

(** *** Injections *)

Lemma injected_item_user item m : injected_item item = Some m → str_field_is "role" "user" m = true.
Proof.
  unfold injected_item. destruct (str_field_is "role" "user" item && _) eqn:H.
  - intros [= <-]. by apply andb_true_iff in H as [H _].
  - destruct (get_str "content" item); [|done]. destruct (is_empty (trim s)); [done|]. by intros [= <-].
Qed.

Lemma append_injected_paired messages m :
  str_field_is "role" "user" m = true → paired messages → paired (append_injected E messages m).
Proof.
  intros Hm Hp. unfold append_injected. destruct (last messages) as [x|] eqn:El.
  - apply last_Some in El as (l & ->). rewrite Hm. cbn [andb].
    destruct (str_field_is "role" "user" x) eqn:Hx; [|apply paired_snoc; [by apply user_quiet|done]].
    rewrite removelast_last. apply paired_snoc.
    + apply user_quiet. by rewrite set_content_role.
    + eapply paired_unsnoc; [by apply user_quiet|done].
  - apply paired_snoc; [by apply user_quiet|done].
Qed.

Lemma drain_users w : Forall (λ m, str_field_is "role" "user" m = true) (drain_injections spec w).2.
Proof.
  unfold drain_injections. destruct (injection_callback spec) as [cb|]; [|constructor].
  destruct (cb w MAX_INJECTIONS_PER_TURN) as [w' items]. simpl. apply Forall_take, Forall_forall.
  intros m (item & _ & Hi)%elem_of_filter_map. by eapply injected_item_user.
Qed.

Lemma try_drain_paired w messages assistant cycles :
  paired messages → (∀ a, assistant = Some a → quiet a) →
  let '(_, messages', _, _) := try_drain_injections E spec w messages assistant cycles in
  paired messages'.
Proof.
  intros Hp Ha. unfold try_drain_injections. destruct (_ <=? cycles); [done|].
  pose proof (drain_users w) as Hu. destruct (drain_injections spec w) as [w' injected].
  destruct injected as [|m injected]; [done|]. simpl in Hu.
  assert (paired (messages ++ option_list assistant)) as Hstart.
  { apply paired_app; [|done]. destruct assistant; repeat constructor; by apply Ha. }
  revert Hstart. generalize (messages ++ option_list assistant) as l.
  unfold append_injected_messages. generalize dependent (m :: injected). clear m injected.
  intros injected Hu. induction Hu as [|m injected Hm _ IH]; intros l Hl; simpl; [done|].
  apply IH. by apply append_injected_paired.
Qed.

(** *** Without fatal errors every call gets a result *)

Lemma single_not_fatal w tc l v :
  fail_on_tool_error spec = false → (execute_single_tool E spec w tc l v).2.2 = None.
Proof.
  intros Hf. unfold execute_single_tool. rewrite Hf.
  destruct (repeated_external_lookup_error _ _ _) as [l1 [err|]]; [done|].
  destruct (execute _ _ _ _ _ _ _) as [w1 result]. destruct (starts_with _ _); [|done].
  destruct (classify_violation _ _ _ _ _ _) as [v1 [[[p1 e1] f1]|]]; done.
Qed.

Lemma sequence_not_fatal w batch l v :
  fail_on_tool_error spec = false → (execute_sequence E spec w batch l v).2 = None.
Proof.
  intros Hf. revert w l v. induction batch as [|tc batch IH]; intros w l v; [done|].
  cbn [execute_sequence]. pose proof (single_not_fatal w tc l v Hf) as H.
  destruct (execute_single_tool E spec w tc l v) as [[[w1 l1] v1] [[r e] f]]. simpl in H. subst f.
  specialize (IH w1 l1 v1). by destruct (execute_sequence E spec w1 batch l1 v1) as [[[[? ?] ?] ?] ?].
Qed.

Lemma batch_not_fatal w batch :
  fail_on_tool_error spec = false → (execute_batch E spec w batch None).2 = None.
Proof.
  intros Hf. revert w. induction batch as [|tc batch IH]; intros w; [done|].
  cbn [execute_batch]. pose proof (single_not_fatal w tc ∅ ∅ Hf) as H.
  destruct (execute_single_tool E spec w tc ∅ ∅) as [[[w1 l1] v1] [[r e] f]]. simpl in H. subst f.
  specialize (IH w1). by destruct (execute_batch E spec w1 batch None) as [[? ?] ?].
Qed.

Lemma tools_not_fatal w calls l v :
  fail_on_tool_error spec = false → (execute_tools E spec w calls l v).2 = None.
Proof.
  intros Hf. unfold execute_tools. generalize (partition_tool_batches spec calls) as batches. intros batches.
  revert w l v. induction batches as [|batch batches IH]; intros w l v; [done|]. cbn [execute_batches].
  assert ((if concurrent_tools spec && (1 <? length batch) then
        let '(w, outs, fatal) := execute_batch E spec w batch None in (w, l, v, outs, fatal)
      else execute_sequence E spec w batch l v).2 = None) as H.
  { destruct (concurrent_tools spec && (1 <? length batch)); [|by apply sequence_not_fatal].
    pose proof (batch_not_fatal w batch Hf) as H.
    destruct (execute_batch E spec w batch None) as [[? ?] ?]. by simpl in *. }
  destruct (if concurrent_tools spec && (1 <? length batch) then _ else _) as [[[[w1 l1] v1] outs] f].
  simpl in H. subst f. specialize (IH w1 l1 v1).
  by destruct (execute_batches E spec w1 batches l1 v1) as [[[[? ?] ?] ?] ?].
Qed.

(** *** The invariant *)

Definition flow_messages (f : Flow (W := W)) : list json :=
  match f with Continue st | Break st => st_messages st | Return _ res _ => res_messages res end.

Lemma append_final_paired messages content : paired messages → paired (append_final_message messages content).
Proof.
  intros Hp. unfold append_final_message. destruct content as [c|]; [|done]. destruct (is_empty c); [done|].
  by apply paired_snoc.
Qed.

Lemma append_placeholder_paired messages : paired messages → paired (append_model_error_placeholder messages).
Proof.
  intros Hp. unfold append_model_error_placeholder.
  destruct (last messages) as [m|]; [destruct (_ && _); [done|]|]; by apply paired_snoc.
Qed.

Lemma handle_final_paired w messages clean response iteration cycles had usage trace :
  paired messages →
  paired (flow_messages (handle_final_content E spec w messages clean response iteration cycles had usage trace)).
Proof.
  intros Hp. unfold handle_final_content.
  set (answer := build_assistant_message clean None _ _).
  assert (∀ a, (if negb (is_error response) && negb (is_blank_text clean) then Some answer else None) = Some a →
    quiet a) as Ha by (intros a; destruct (_ && _); [intros [= <-]; apply answer_quiet|done]).
  pose proof (try_drain_paired w messages _ cycles Hp Ha) as Hd.
  destruct (try_drain_injections E spec w messages _ cycles) as [[[w1 m1] injected] c1].
  destruct injected; [done|]. destruct (is_error response).
  - pose proof (try_drain_paired w1 _ None c1 (append_placeholder_paired m1 Hd)) as H.
    destruct (try_drain_injections _ _ _ _ _ _) as [[[w2 m2] i2] c2]. by apply H.
  - destruct (is_blank_text clean).
    + pose proof (try_drain_paired w1 _ None c1
        (append_final_paired m1 (Some EMPTY_FINAL_RESPONSE_MESSAGE) Hd)) as H.
      destruct (try_drain_injections _ _ _ _ _ _) as [[[w2 m2] i2] c2]. by apply H.
    + apply paired_snoc; [apply answer_quiet|done].
Qed.

Lemma tool_iteration_paired iteration st w response usage trace :
  fail_on_tool_error spec = false → paired (st_messages st) →
  paired (flow_messages (tool_iteration E spec iteration st w response usage trace)).
Proof.
  intros Hf Hp. unfold tool_iteration.
  pose proof (tools_not_fatal w (rs_tool_calls response) (st_lookups st) (st_violations st) Hf) as Hnf.
  pose proof (execute_tools_length E spec w (rs_tool_calls response) (st_lookups st) (st_violations st)) as Hlen.
  destruct (execute_tools E spec w _ _ _) as [[[[w1 l1] v1] outs] fatal]. simpl in Hnf. subst fatal.
  destruct Hlen as [_ Hlen]. specialize (Hlen eq_refl).
  pose proof (tool_messages_spec w1 (rs_tool_calls response) outs.*1) as Hms.
  rewrite length_fmap in Hms. specialize (Hms Hlen).
  destruct (tool_messages E spec w1 (rs_tool_calls response) outs.*1) as [w2 results].
  pose proof (tool_batch_paired _ (to_string E) (rs_content response) _ (rs_reasoning_content response)
    (rs_thinking_blocks response) _ Hp Hms) as Hb.
  pose proof (try_drain_paired w2 _ None (st_cycles st) Hb) as Hd.
  destruct (try_drain_injections _ _ _ _ _ _) as [[[w3 m3] i3] c3]. by apply Hd.
Qed.

Lemma iterate_paired iteration st f :
  fail_on_tool_error spec = false → paired (st_messages st) →
  iterate E spec fuel sfuel iteration st = Returns f → paired (flow_messages f).
Proof.
  intros Hf Hp. unfold iterate. destruct (govern E spec (st_world st) (st_messages st)) as [w m].
  destruct (request_model E spec fuel sfuel w m) as [[w1 raw]| |]; cbn [run_bind]; [|done..].
  destruct (extract_reasoning _ _ _) as [reasoning cleaned].
  destruct (should_execute_tools _); [intros [= <-]; by apply tool_iteration_paired|].
  destruct (negb _ && _).
  - destruct (_ <? _); [by intros [= <-]|].
    destruct (request_finalization_retry _ _ _ _ _ _) as [[w2 retry]| |]; cbn [run_bind]; [|done..].
    intros [= <-]. by apply handle_final_paired.
  - destruct (_ && _); intros [= <-]; [|by apply handle_final_paired].
    simpl. apply paired_app; [|done]. repeat constructor; try done; apply answer_quiet.
Qed.

Lemma iterations_paired iteration remaining st out :
  fail_on_tool_error spec = false → paired (st_messages st) →
  iterations E spec fuel sfuel iteration remaining st = Returns out →
  match out with
  | inl (_, st') => paired (st_messages st')
  | inr (_, res, _) => paired (res_messages res)
  end.
Proof.
  intros Hf. revert iteration st. induction remaining as [|n IH]; intros iteration st Hp; cbn [iterations].
  - by intros [= <-].
  - destruct (iterate E spec fuel sfuel iteration st) as [f| |] eqn:Ei; cbn [run_bind]; [|done..].
    pose proof (iterate_paired iteration st f Hf Hp Ei) as Hfl.
    destruct f; [by apply IH|by intros [= <-]..].
Qed.

(** C7: When tool errors are not fatal, a run keeps the conversation well formed: if in the
    initial messages every result follows its call and every call has a result, the same
    holds of the messages it returns, whatever the model answers, the tools do and the user
    injects. *)
Theorem run_keeps_pairing (w w' : W) (res : AgentRunResult) (trace : list RunEvent) :
  fail_on_tool_error spec = false → paired (initial_messages spec) →
  run_agent E spec fuel sfuel w = Returns (w', res, trace) → paired (res_messages res).
Proof.
  intros Hf Hp. unfold run_agent.
  destruct (iterations E spec fuel sfuel 0 (max_iterations spec) (initial_state spec w)) as [out| |] eqn:Ei;
    cbn [run_bind]; [|done..].
  pose proof (iterations_paired _ _ (initial_state spec w) _ Hf Hp Ei) as H.
  destruct out as [[[] st]|[[w1 r1] t1]].
  - match goal with |- context [append_final_message ?m ?c] =>
      pose proof (try_drain_paired (st_world st) (append_final_message m c) None (st_cycles st)
        (append_final_paired m c H)) as Hd end.
    destruct (try_drain_injections _ _ _ _ _ _) as [[[w2 m2] i2] c2].
    intros [= <- <- <-]. by apply Hd.
  - by intros [= <- <- <-].
  - by intros [= <- <- <-].
Qed.
End Pairing.

(** ** What a run adds *)

Section Extends.
Context {W : Type} (E : Env W) (spec : AgentRunSpec W) (fuel sfuel : nat).
Hypothesis no_injections : injection_callback spec = None.

Lemma try_drain_none w messages assistant cycles :
  try_drain_injections E spec w messages assistant cycles = (w, messages, false, cycles).
Proof. unfold try_drain_injections, drain_injections. rewrite no_injections. by destruct (_ <=? cycles). Qed.

(** [l] begins with [initial]. *)
Definition extends (initial l : list json) : Prop := ∃ new, l = initial ++ new.

Lemma extends_app initial l k : extends initial l → extends initial (l ++ k).
Proof. intros (new & ->). exists (new ++ k). by rewrite app_assoc. Qed.

Lemma extends_final initial l c : extends initial l → extends initial (append_final_message l c).
Proof. intros H. unfold append_final_message. destruct c as [c|]; [|done]. destruct (is_empty c); [done|by apply extends_app]. Qed.

Lemma extends_placeholder initial l : extends initial l → extends initial (append_model_error_placeholder l).
Proof.
  intros H. unfold append_model_error_placeholder. destruct (last l) as [m|]; [|by apply extends_app].
  destruct (_ && _); [done|by apply extends_app].
Qed.

Definition flow_extends (initial : list json) (f : Flow (W := W)) : Prop :=
  match f with Continue st | Break st => extends initial (st_messages st) | Return _ res _ => extends initial (res_messages res) end.

Lemma handle_final_extends initial w l clean response iteration cycles had usage trace :
  extends initial l → flow_extends initial (handle_final_content E spec w l clean response iteration cycles had usage trace).
Proof.
  intros H. unfold handle_final_content. rewrite !try_drain_none.
  destruct (is_error response); [by apply extends_placeholder|].
  destruct (is_blank_text clean); [by apply extends_final|]. by apply extends_app.
Qed.

Lemma iterate_extends initial iteration st f :
  extends initial (st_messages st) → iterate E spec fuel sfuel iteration st = Returns f → flow_extends initial f.
Proof.
  intros H. unfold iterate. destruct (govern _ _ _ _) as [w for_model].
  destruct (request_model _ _ _ _ _ _) as [[w1 raw]| |]; cbn [run_bind]; [|done..].
  destruct (extract_reasoning _ _ _) as [? cleaned]. destruct (should_execute_tools _).
  { intros [= <-]. unfold tool_iteration. destruct (execute_tools _ _ _ _ _ _) as [[[[w2 lk] vi] outs] fatal].
    destruct (tool_messages _ _ _ _ _) as [w3 results]. destruct fatal; rewrite try_drain_none; cbn -[append_final_message].
    - by apply extends_final, extends_app, extends_app.
    - by apply extends_app, extends_app. }
  destruct (_ && _).
  { destruct (_ <? _); [by intros [= <-]|]. destruct (request_finalization_retry _ _ _ _ _ _) as [[w2 retry]| |]; cbn [run_bind]; [|done..].
    intros [= <-]. by apply handle_final_extends. }
  destruct (_ && _ && _); intros [= <-]; [by apply extends_app|by apply handle_final_extends].
Qed.

(** Without injected messages a run only adds to the messages it was given. *)
Lemma run_extends w w' res trace :
  run_agent E spec fuel sfuel w = Returns (w', res, trace) → extends (initial_messages spec) (res_messages res).
Proof.
  unfold run_agent.
  assert (∀ n i st out, extends (initial_messages spec) (st_messages st) → iterations E spec fuel sfuel i n st = Returns out →
    match out with inl (_, st') => extends (initial_messages spec) (st_messages st') | inr (_, r, _) => extends (initial_messages spec) (res_messages r) end) as H.
  { induction n as [|n IH]; intros i st out Hst; cbn [iterations]; [by intros [= <-]|].
    destruct (iterate _ _ _ _ _ _) as [f| |] eqn:Ef; cbn [run_bind]; [|done..]. apply (iterate_extends _ _ _ _ Hst) in Ef.
    destruct f; [by apply IH|by intros [= <-]..]. }
  destruct (iterations _ _ _ _ _ _ _) as [out| |] eqn:Ei; cbn [run_bind]; [|done..].
  apply H in Ei; [|by exists []; rewrite app_nil_r]. destruct out as [[[] st]|[[w1 r] t]].
  - rewrite try_drain_none. intros Heq. injection Heq as <- <- <-. cbn [res_messages]. by apply (extends_final _ _ (Some _)).
  - by intros [= <- <- <-].
  - by intros [= <- <- <-].
Qed.
End Extends.

(** ** What the model is asked *)

Section Requests.
Context {W : Type} (E : Env W) (spec : AgentRunSpec W) (fuel sfuel : nat).

Definition asked (trace : list RunEvent) : list (list json) :=
  omap (λ e, match e with AskedModel m => Some m | _ => None end) trace.

Lemma asked_app a b : asked (a ++ b) = asked a ++ asked b.
Proof. apply omap_app. Qed.

Lemma asked_tried (calls : list ToolCallRequest) :
  asked ((λ tc, TriedTool (tc_name tc) (tc_arguments tc)) <$> calls) = [].
Proof. by induction calls. Qed.

Definition flow_trace (f : Flow (W := W)) : list RunEvent :=
  match f with Continue st | Break st => st_trace st | Return _ _ trace => trace end.

Definition returned (f : Flow (W := W)) : Prop := match f with Return _ _ _ => True | _ => False end.

Lemma govern_paired w messages : paired (govern E spec w messages).2.
Proof.
  unfold govern. destruct (apply_tool_result_budget _ _ _) as [w1 m]. apply repair_pairs_paired.
Qed.

Lemma handle_final_trace w messages clean response iteration cycles had usage trace :
  let f := handle_final_content E spec w messages clean response iteration cycles had usage trace in
  returned f ∧ asked (flow_trace f) = asked trace.
Proof.
  unfold handle_final_content.
  destruct (try_drain_injections _ _ _ _ _ _) as [[[w1 m1] [|]] c1]; [done|].
  destruct (is_error response); [by destruct (try_drain_injections _ _ _ _ _ _) as [[[? ?] ?] ?]|].
  destruct (is_blank_text clean); [by destruct (try_drain_injections _ _ _ _ _ _) as [[[? ?] ?] ?]|].
  split; [done|]. cbn [flow_trace]. rewrite asked_app. apply app_nil_r.
Qed.

Lemma tool_iteration_trace iteration st w response usage trace :
  asked (flow_trace (tool_iteration E spec iteration st w response usage trace)) = asked trace.
Proof.
  unfold tool_iteration.
  destruct (execute_tools _ _ _ _ _ _) as [[[[w1 l1] v1] outs] fatal].
  destruct (tool_messages _ _ _ _ _) as [w2 results].
  destruct fatal; destruct (try_drain_injections _ _ _ _ _ _) as [[[? ?] [|]] ?]; cbn [flow_trace st_trace];
    rewrite !asked_app, asked_tried; cbn; by rewrite !app_nil_r.
Qed.

(** An iteration asks once, with paired messages; a second time, for a final answer, only if
    it ends the run. *)
Lemma iterate_asks iteration st f :
  iterate E spec fuel sfuel iteration st = Returns f →
  ∃ m, paired m ∧
    (asked (flow_trace f) = asked (st_trace st) ++ [m] ∨
     returned f ∧ asked (flow_trace f) =
       asked (st_trace st) ++ [m; st_messages st ++ [user_text FINALIZATION_RETRY_MESSAGE]]).
Proof.
  unfold iterate. pose proof (govern_paired (st_world st) (st_messages st)) as Hm.
  destruct (govern E spec (st_world st) (st_messages st)) as [w m]. simpl in Hm.
  destruct (request_model E spec fuel sfuel w m) as [[w1 raw]| |]; cbn [run_bind]; [|done..].
  destruct (extract_reasoning _ _ _) as [reasoning cleaned].
  set (asking := st_trace st ++ [AskedModel m]).
  assert (asked asking = asked (st_trace st) ++ [m]) as Ha by apply asked_app.
  intros H. exists m. split; [done|]. revert H.
  destruct (should_execute_tools _).
  { intros [= <-]. left. by rewrite tool_iteration_trace. }
  destruct (negb _ && _).
  - destruct (_ <? _); [intros [= <-]; by left|].
    destruct (request_finalization_retry _ _ _ _ _ _) as [[w2 retry]| |]; cbn [run_bind]; [|done..].
    intros [= <-]. right. destruct (handle_final_trace w2 (st_messages st)
      (finalize_content spec (rs_content retry)) retry iteration (st_cycles st) (st_had_injections st)
      (accumulate_usage (accumulate_usage (st_usage st) (rs_usage raw)) (rs_usage retry))
      (asking ++ [AskedModel (st_messages st ++ [user_text FINALIZATION_RETRY_MESSAGE])])) as [Hr Ht].
    split; [done|]. rewrite Ht, asked_app, Ha. by rewrite <-app_assoc.
  - destruct (_ && _); intros [= <-]; left; [done|]. rewrite (proj2 (handle_final_trace _ _ _ _ _ _ _ _ _)).
    done.
Qed.

Definition out_trace (out : bool * RunState (W := W) + W * AgentRunResult * list RunEvent) : list RunEvent :=
  match out with inl (_, st) => st_trace st | inr (_, _, trace) => trace end.

(** Closing request or governed history. *)
Definition well_asked (m : list json) : Prop :=
  paired m ∨ ∃ l, m = l ++ [user_text FINALIZATION_RETRY_MESSAGE].

Lemma iterations_ask iteration remaining st out :
  iterations E spec fuel sfuel iteration remaining st = Returns out →
  ∃ ms, asked (out_trace out) = asked (st_trace st) ++ ms ∧ Forall well_asked ms ∧
        length ms ≤ remaining + 1.
Proof.
  revert iteration st. induction remaining as [|n IH]; intros iteration st; cbn [iterations].
  - intros [= <-]. exists []. rewrite app_nil_r. split_and!; [done|constructor|simpl; lia].
  - destruct (iterate E spec fuel sfuel iteration st) as [f| |] eqn:Ei; cbn [run_bind]; [|done..].
    apply iterate_asks in Ei as (m & Hm & Ha).
    assert (∀ l, asked (flow_trace f) = asked (st_trace st) ++ m :: l → length l ≤ n + 1 →
              Forall well_asked l →
              ∃ ms, asked (flow_trace f) = asked (st_trace st) ++ ms ∧ Forall well_asked ms ∧
                    length ms ≤ S n + 1) as Hone.
    { intros l Hl Hlen Hw. exists (m :: l). split_and!; [done|constructor; [by left|done]|simpl; lia]. }
    assert (∃ ms, asked (flow_trace f) = asked (st_trace st) ++ ms ∧ Forall well_asked ms ∧
                    length ms ≤ S n + 1) as Hend.
    { destruct Ha as [Ha|[_ Ha]]; eapply Hone; [exact Ha|simpl; lia|constructor|exact Ha|simpl; lia|].
      constructor; [right; by eexists|constructor]. }
    destruct f as [st'|st'|w' res tr]; [|by intros [= <-]..].
    destruct Ha as [Ha|[[] _]]. intros (ms & Hms & Hw & Hlen)%IH. eexists.
    rewrite Hms. cbn [flow_trace] in Ha. rewrite Ha, <-app_assoc. split_and!; [done| |simpl; lia].
    constructor; [by left|done].
Qed.

(** C6: A run never sends a provider a conversation with a result that has no call or a call
    that has no result, whatever history it was given: every request is paired, the closing
    request for a final answer apart, and there are at most [max_iterations + 1] of them. *)
Theorem run_requests (w w' : W) (res : AgentRunResult) (trace : list RunEvent) :
  run_agent E spec fuel sfuel w = Returns (w', res, trace) →
  Forall well_asked (asked trace) ∧ length (asked trace) ≤ max_iterations spec + 1.
Proof.
  unfold run_agent.
  destruct (iterations E spec fuel sfuel 0 (max_iterations spec) (initial_state spec w)) as [out| |] eqn:Ei;
    cbn [run_bind]; [|done..].
  apply iterations_ask in Ei as (ms & Hms & Hw & Hlen). cbn in Hms. rewrite <-Hms in Hw, Hlen.
  destruct out as [[[] st]|[[w1 r1] t1]]; [|by intros [= <- <- <-]..].
  destruct (try_drain_injections _ _ _ _ _ _) as [[[w2 m2] i2] c2]. by intros [= <- <- <-].
Qed.
End Requests.
