(* ===== verification/RunnerOutcome.v ===== *)
(** * The agent runner: termination and outcomes

    A run over the retrying provider returns, what it returns for each stop reason, and what
    the counters and the lists of a result do not say.  Concrete runs at the end. *)

From S2P Require Import Prelude RustStr F64 Json Messages Think ToolSchema ToolRegistry ToolProps Provider ProviderProps Retry RetryProps Governance GovernanceProps Runner RunnerProps.

Local Open Scope stdpp_scope.
Local Open Scope hive_scope.

(** ** Termination *)

Section Termination.
Context {W : Type} (E : Env W) (spec : AgentRunSpec W) (fuel sfuel : nat).

(** The provider never asks for a wait of more than a minute. *)
Definition patient : Prop :=
  ∀ w req d, pick_delay (captures E) (chat (provider E) w req).2 = Some d →
             f64_valid d = true ∧ f64_lt sixty d = false.

Definition returns {A} (r : run A) : Prop := ∃ a, r = Returns a.

Lemma returns_bind {A B} (r : run A) (f : A → run B) :
  returns r → (∀ a, returns (f a)) → returns (run_bind r f).
Proof. intros [a ->] H. apply H. Qed.

Lemma returns_ret {A} (a : A) : returns (Returns a).
Proof. by eexists. Qed.
#[local] Hint Resolve returns_ret : core.

Hypothesis (Hfuel : 4 ≤ fuel) (Hsfuel : 2 ≤ sfuel) (Hpatient : patient).

Lemma standard_returns w req notify :
  returns (chat_with_retry (captures E) (provider E) fuel sfuel w req Standard notify).
Proof.
  set (req' := prepare_request (generation (provider E)) req).
  destruct (least_true (stops_at (plain (provider E)) false w req') 3) as (n & Hn & Hstop & Hbefore).
  { unfold stops_at. by rewrite orb_true_r. }
  destruct (retry_loop_exact (captures E) (plain (provider E)) "" false notify w req' n fuel sfuel 0)
    as (s' & evs & Eq & _); [|done|lia|done|by eexists].
  intros j Hj. split; [by apply Hbefore|]. intros d Hd. pose proof (Hpatient (state_at (plain (provider E)) w req' (0 + j)) req' d Hd) as []. done.
Qed.

Context (Hstream : wants_streaming spec = false)
  (Hprogress : stream_progress_deltas spec && has_progress spec = false)
  (Hmode : provider_retry_mode spec = Standard).

Lemma request_model_returns w messages : returns (request_model E spec fuel sfuel w messages).
Proof.
  unfold request_model. rewrite Hstream, Hprogress, Hmode. cbn [orb].
  destruct (timed_out E w); [done|]. apply returns_bind; [apply standard_returns|].
  by intros [[w' r] evs].
Qed.

Lemma iterate_returns iteration st : returns (iterate E spec fuel sfuel iteration st).
Proof.
  unfold iterate. destruct (govern E spec (st_world st) (st_messages st)) as [w m].
  apply returns_bind; [apply request_model_returns|]. intros [w1 raw].
  destruct (extract_reasoning _ _ _) as [reasoning cleaned].
  destruct (should_execute_tools _); [done|]. destruct (negb _ && _); [|destruct (_ && (_ <=? _)); done].
  destruct (_ <? _); [done|]. apply returns_bind; [|by intros [w2 retry]].
  unfold request_finalization_retry. rewrite Hmode. apply returns_bind; [apply standard_returns|].
  by intros [[w' r] evs].
Qed.

Lemma iterations_return iteration remaining st :
  returns (iterations E spec fuel sfuel iteration remaining st).
Proof.
  revert iteration st. induction remaining as [|n IH]; intros iteration st; cbn [iterations]; [done|].
  apply returns_bind; [apply iterate_returns|]. intros [st'|st'|w res tr]; eauto.
Qed.

(** C5: A run that does not stream, over a provider in standard retry mode that never asks for
    a wait of more than a minute, always returns: four attempts per request and two chunks per
    wait are enough, whatever the model answers and the tools do. *)
Theorem run_terminates (w : W) :
  ∃ w' res trace, run_agent E spec fuel sfuel w = Returns (w', res, trace).
Proof.
  assert (returns (run_agent E spec fuel sfuel w)) as [[[w' res] trace] H]; [|by eauto].
  unfold run_agent. apply returns_bind; [apply iterations_return|].
  intros [[[] st]|res]; [|done..]. by destruct (try_drain_injections _ _ _ _ _ _) as [[[? ?] ?] ?].
Qed.
End Termination.

(** ** Outcomes *)

Section Outcomes.
Context {W : Type} (E : Env W) (spec : AgentRunSpec W) (fuel sfuel : nat).

(** What a result says, by the reason it stopped for. *)
Definition coherent (res : AgentRunResult) : Prop :=
  (stop_reason res = "completed" ∧ is_blank_text (final_content res) = false ∧ res_error res = None ∧
     tool_events res = [] ∧
     ∃ l reasoning thinking, res_messages res =
       l ++ [build_assistant_message (final_content res) None reasoning thinking]) ∨
  (stop_reason res = "injected" ∧ final_content res = None ∧ res_error res = None ∧
     had_injections res = true) ∨
  (stop_reason res = "error" ∧ ∃ text, final_content res = Some text ∧ res_error res = Some text) ∨
  (stop_reason res = "empty_final_response" ∧ final_content res = Some EMPTY_FINAL_RESPONSE_MESSAGE ∧
     res_error res = Some EMPTY_FINAL_RESPONSE_MESSAGE) ∨
  (stop_reason res = "tool_error" ∧ fail_on_tool_error spec = true ∧
     ∃ err, final_content res = Some ("Error: " +:+ err) ∧ res_error res = Some ("Error: " +:+ err)) ∨
  (stop_reason res = "max_iterations" ∧ final_content res =
     Some (default ("Task did not finish within " +:+ pretty (max_iterations spec) +:+ " iterations.")
             (max_iterations_message spec))).

Lemma handle_final_coherent w messages clean response iteration cycles had usage trace :
  ∃ w' res trace', coherent res ∧
    handle_final_content E spec w messages clean response iteration cycles had usage trace =
    Return w' res trace'.
Proof.
  unfold handle_final_content, coherent.
  destruct (try_drain_injections _ _ _ _ _ _) as [[[w1 m1] [|]] c1].
  { eexists _, _, _. split; [|done]. right. left. done. }
  destruct (is_error response).
  { destruct (try_drain_injections _ _ _ _ _ _) as [[[? ?] ?] ?]. eexists _, _, _. split; [|done].
    do 2 right. left. split; [done|]. by eexists. }
  destruct (is_blank_text clean) eqn:Hb.
  { destruct (try_drain_injections _ _ _ _ _ _) as [[[? ?] ?] ?]. eexists _, _, _. split; [|done].
    do 3 right. by left. }
  eexists _, _, _. split; [|done]. left. split_and!; [done..|]. by eexists _, _, _.
Qed.

(** An iteration only leaves the loop with a result of its own or with a fatal tool error. *)
Definition flow_coherent (f : Flow (W := W)) : Prop :=
  match f with
  | Continue _ => True
  | Break st => st_stop st = "tool_error" ∧ fail_on_tool_error spec = true ∧
      ∃ err, st_final st = Some ("Error: " +:+ err) ∧ st_error st = Some ("Error: " +:+ err)
  | Return _ res _ => coherent res
  end.

Lemma final_flow w messages clean response iteration cycles had usage trace :
  flow_coherent (handle_final_content E spec w messages clean response iteration cycles had usage trace).
Proof.
  destruct (handle_final_coherent w messages clean response iteration cycles had usage trace)
    as (? & ? & ? & ? & ->). done.
Qed.

Lemma tool_iteration_flow iteration st w response usage trace :
  flow_coherent (tool_iteration E spec iteration st w response usage trace).
Proof.
  unfold tool_iteration.
  pose proof (tools_not_fatal E spec w (rs_tool_calls response) (st_lookups st) (st_violations st)) as Hnf.
  destruct (execute_tools _ _ _ _ _ _) as [[[[w1 l1] v1] outs] fatal]. simpl in Hnf.
  destruct (tool_messages _ _ _ _ _) as [w2 results].
  destruct fatal as [err|]; destruct (try_drain_injections _ _ _ _ _ _) as [[[? ?] [|]] ?]; try done.
  simpl. split; [done|]. destruct (fail_on_tool_error spec); [|by specialize (Hnf eq_refl)].
  split; [done|]. by exists err.
Qed.

Lemma iterate_flow iteration st f :
  iterate E spec fuel sfuel iteration st = Returns f → flow_coherent f.
Proof.
  unfold iterate. destruct (govern E spec (st_world st) (st_messages st)) as [w m].
  destruct (request_model E spec fuel sfuel w m) as [[w1 raw]| |]; cbn [run_bind]; [|done..].
  destruct (extract_reasoning _ _ _) as [reasoning cleaned].
  destruct (should_execute_tools _); [intros [= <-]; apply tool_iteration_flow|].
  destruct (negb _ && _).
  - destruct (_ <? _); [by intros [= <-]|].
    destruct (request_finalization_retry _ _ _ _ _ _) as [[w2 retry]| |]; cbn [run_bind]; [|done..].
    intros [= <-]. apply final_flow.
  - destruct (_ && _); intros [= <-]; [done|apply final_flow].
Qed.

Lemma iterations_flow iteration remaining st out :
  iterations E spec fuel sfuel iteration remaining st = Returns out →
  match out with
  | inl (true, _) => True
  | inl (false, st') => flow_coherent (Break st')
  | inr (w, res, trace) => coherent res
  end.
Proof.
  revert iteration st. induction remaining as [|n IH]; intros iteration st; cbn [iterations].
  - by intros [= <-].
  - destruct (iterate E spec fuel sfuel iteration st) as [f| |] eqn:Ei; cbn [run_bind]; [|done..].
    apply iterate_flow in Ei. destruct f; [apply IH|by intros [= <-]..].
Qed.

Lemma run_coherent (w w' : W) (res : AgentRunResult) (trace : list RunEvent) :
  run_agent E spec fuel sfuel w = Returns (w', res, trace) → coherent res.
Proof.
  unfold run_agent.
  destruct (iterations E spec fuel sfuel 0 (max_iterations spec) (initial_state spec w)) as [out| |] eqn:Ei;
    cbn [run_bind]; [|done..].
  apply iterations_flow in Ei. destruct out as [[[] st]|[[w1 r1] t1]]; [..|by intros [= <- <- <-]].
  - destruct (try_drain_injections _ _ _ _ _ _) as [[[? ?] ?] ?]. intros [= <- <- <-].
    unfold coherent. do 5 right. done.
  - intros [= <- <- <-]. unfold coherent. do 4 right. left. done.
Qed.
(** C17: A run stops for one of six reasons, and its result agrees with the reason: a completed
    run has an answer that is not blank, no error, an empty list of tool events, and the answer as its last message; an
    error and an empty answer are reported both as content and as error; a tool error only
    stops a run whose tool errors are fatal; a run out of iterations says so. *)
Theorem run_outcomes (w w' : W) (res : AgentRunResult) (trace : list RunEvent) :
  run_agent E spec fuel sfuel w = Returns (w', res, trace) → coherent res.
Proof. apply run_coherent. Qed.
End Outcomes.

(** ** What a result leaves out *)

Section Omissions.
Context {W : Type} (E : Env W) (spec : AgentRunSpec W).

(** However often a boundary is hit, the runner's counter stays at zero: the refusal of repeated
    violations is never given.  (The counter of [utils/runtime.rs] counts.) *)
Theorem violations_never_escalate (calls : list (string * json)) (tool : string) (arguments : json) :
  (runner_repeated_violation_error E tool arguments
     (foldl (λ seen c, (runner_repeated_violation_error E c.1 c.2 seen).1) ∅ calls)).2 = None.
Proof.
  assert (∀ seen : counts, map_Forall (λ _ n, n = 0) seen → ∀ name args,
    let '(seen', out) := runner_repeated_violation_error E name args seen in
    map_Forall (λ _ n, n = 0) seen' ∧ out = None) as Hstep.
  { intros seen H name args. unfold runner_repeated_violation_error.
    destruct (runner_violation_signature E name args) as [sig|]; [|done].
    assert (default 0 (seen !! sig) = 0) as ->.
    { destruct (seen !! sig) eqn:Es; [|done]. by apply (H sig). }
    rewrite lookup_insert_eq. split; [|done]. by apply map_Forall_insert_2. }
  assert (map_Forall (λ _ n, n = 0)
    (foldl (λ seen c, (runner_repeated_violation_error E c.1 c.2 seen).1) (∅ : counts) calls)) as H.
  { assert (map_Forall (λ _ n, n = 0) (∅ : counts)) as H0 by apply map_Forall_empty.
    revert H0. generalize (∅ : counts). induction calls as [|c calls IH]; intros seen H0; [done|]. simpl.
    apply IH. specialize (Hstep seen H0 c.1 c.2).
    destruct (runner_repeated_violation_error E c.1 c.2 seen). by apply Hstep. }
  specialize (Hstep _ H tool arguments). destruct (runner_repeated_violation_error _ _ _ _). by apply Hstep.
Qed.

(** The result of a run that ends with an answer lists no tools, whatever it ran. *)
Theorem completed_lists_no_tools w messages clean response iteration cycles had usage trace :
  ∃ w' res trace', handle_final_content E spec w messages clean response iteration cycles had usage trace =
    Return w' res trace' ∧ tools_used res = [] ∧ tool_events res = [].
Proof.
  unfold handle_final_content. destruct (try_drain_injections _ _ _ _ _ _) as [[[w1 m1] [|]] c1]; [by eauto 10|].
  destruct (is_error response); [destruct (try_drain_injections _ _ _ _ _ _) as [[[? ?] ?] ?]; by eauto 10|].
  destruct (is_blank_text clean); [destruct (try_drain_injections _ _ _ _ _ _) as [[[? ?] ?] ?]; by eauto 10|].
  by eauto 10.
Qed.
End Omissions.

(** The calls of a concurrent batch get fresh counters: none is refused as a repetition. *)
Theorem concurrent_batch_not_throttled (tc : ToolCallRequest) :
  (repeated_external_lookup_error (tc_name tc) (JObj (tc_arguments tc)) ∅).2 = None.
Proof.
  unfold repeated_external_lookup_error.
  destruct (external_lookup_signature _ _) as [sig|]; [|done]. simpl. by rewrite lookup_empty.
Qed.

(** ** Concrete runs *)

Definition calling (id : string) : LLMResponse :=
  mkResponse None [mkToolCall id "echo" [("x", JInt 7)] None None None] "tool_calls" [("prompt_tokens", 5%Z)]
    None None None None None None None None None.

Definition demo_env (answers : list LLMResponse) : Env nat :=
  mkEnv (scripted answers) no_captures (λ _, "{}") (λ _, "{}") map_to_list (λ _, "") (λ _, None)
    (λ _, None) (λ w _, (w, true)) (λ w _ _, w) (λ _ _, false) (λ w _ _, w).

Definition demo_spec : AgentRunSpec nat :=
  mkSpec [user_text "go"] (register echo_tool new_registry) "m" 4 1000 None None None None None true false
    None None None None Standard None false false false id.

Definition demo_answers : list LLMResponse := [error_response "503"; calling "a"; success].

Lemma scripted_patient answers :
  (∀ r, r ∈ error_response "no more" :: answers → pick_delay no_captures r = None) →
  patient (demo_env answers).
Proof.
  intros Hall w req d Hd. exfalso.
  apply (scripted_no_delay answers w req 0 d Hall). exact Hd.
Qed.

(** A transient error, a tool call and an answer. *)
Example demo_run :
  ∃ trace, run_agent (demo_env demo_answers) demo_spec 4 2 0 =
    Returns (4, mkResult (Some "hi")
      [user_text "go";
       build_assistant_message None
         (Some (to_openai_tool_call (λ _, "{}") <$> rs_tool_calls (calling "a"))) None None;
       tool_message "a" "echo" (JObj [("x", JInt 7)]);
       build_assistant_message (Some "hi") None None None]
      [] {["prompt_tokens" := 5%Z; "completion_tokens" := 0%Z]} "completed" None [] false, trace) ∧
    length (asked trace) = 2.
Proof. eexists. split; [vm_compute; reflexivity|reflexivity]. Qed.

Lemma demo_patient : patient (demo_env demo_answers).
Proof.
  apply scripted_patient. intros r Hr.
  repeat (apply elem_of_cons in Hr as [->|Hr]; [done|]). by apply not_elem_of_nil in Hr.
Qed.

Lemma demo_initial_paired : paired (initial_messages demo_spec).
Proof. change (paired ([] ++ [user_text "go"])). apply paired_snoc; [done|exact (repair_pairs_paired [])]. Qed.

Lemma run_terminates_witness :
  ∃ w' res trace, run_agent (demo_env demo_answers) demo_spec 4 2 0 = Returns (w', res, trace).
Proof.
  apply (run_terminates (demo_env demo_answers) demo_spec 4 2); [lia|lia|apply demo_patient|reflexivity..].
Defined.

Lemma run_keeps_pairing_witness :
  ∃ w' res trace, run_agent (demo_env demo_answers) demo_spec 4 2 0 = Returns (w', res, trace) ∧
    paired (res_messages res) ∧ length (res_messages res) = 4.
Proof.
  eexists _, _, _. split; [vm_compute; reflexivity|]. split; [|reflexivity].
  eapply (run_keeps_pairing (demo_env demo_answers) demo_spec 4 2 0);
    [reflexivity|apply demo_initial_paired|vm_compute; reflexivity].
Defined.

Lemma run_requests_witness :
  ∃ w' res trace, run_agent (demo_env demo_answers) demo_spec 4 2 0 = Returns (w', res, trace) ∧
    Forall well_asked (asked trace) ∧ length (asked trace) ≤ 5.
Proof.
  eexists _, _, _. split; [vm_compute; reflexivity|].
  eapply (run_requests (demo_env demo_answers) demo_spec 4 2 0). vm_compute. reflexivity.
Defined.

Lemma run_outcomes_witness :
  ∃ w' res trace, run_agent (demo_env demo_answers) demo_spec 4 2 0 = Returns (w', res, trace) ∧
    coherent demo_spec res.
Proof.
  eexists _, _, _. split; [vm_compute; reflexivity|].
  eapply (run_outcomes (demo_env demo_answers) demo_spec 4 2 0). vm_compute. reflexivity.
Defined.

(** ** Injections *)

(** One message waits in the queue: it is handed over once, at [w = 1]. *)
Definition waiting_spec : AgentRunSpec nat :=
  mkSpec [user_text "go"] new_registry "m" 4 1000 None None None None None true false
    None None None None Standard
    (Some (λ w _, if w =? 1 then (S w, [user_text "also this"]) else (w, []))) false false false id.

(** A message that arrives while the model gives its answer ends the run: the answer and the
    message stand in the history, the result has no content and the message no reply. *)
Example injection_ends_run :
  ∃ w' trace, run_agent (demo_env [success]) waiting_spec 4 2 0 =
    Returns (w', mkResult None
      [user_text "go"; build_assistant_message (Some "hi") None None None; user_text "also this"]
      [] {["prompt_tokens" := 0%Z; "completion_tokens" := 0%Z]} "injected" None [] true, trace).
Proof. eexists _, _. vm_compute. reflexivity. Qed.

(** A run out of iterations reports injections though there were none. *)
Example max_iterations_reports_injections :
  ∃ w' res trace, run_agent (demo_env [calling "a"]) demo_spec 4 2 0 = Returns (w', res, trace) ∧
    stop_reason res = "max_iterations" ∧ injection_callback demo_spec = None ∧ had_injections res = true.
Proof. eexists _, _, _. split; [vm_compute; reflexivity|]. done. Qed.
