(* ===== verification/Fallback.v ===== *)
(** * The fallback provider

    [crates/providers/src/fallback_provider.rs]: a primary model behind a circuit breaker
    and an ordered list of fallback models.  The models are arguments: what one call of
    them answers and streams. *)

From S2P Require Import Prelude RustStr F64 Json Provider.

Local Open Scope stdpp_scope.
Local Open Scope hive_scope.

Definition PRIMARY_FAILURE_THRESHOLD : Z := 3.
(** In nanoseconds. *)
Definition PRIMARY_COOLDOWN : Z := 60000000000.

Definition FALLBACK_ERROR_KINDS : list string :=
  ["timeout"; "connection"; "server_error"; "rate_limit"; "overloaded"].

Definition NON_FALLBACK_ERROR_KINDS : list string :=
  ["authentication"; "auth"; "permission"; "content_filter"; "refusal"; "context_length";
   "invalid_request"].

Definition FALLBACK_ERROR_TOKENS : list string :=
  ["rate_limit"; "rate limit"; "too_many_requests"; "too many requests"; "overloaded";
   "server_error"; "server error"; "temporarily unavailable"; "timeout"; "timed out";
   "connection"; "insufficient_quota"; "insufficient quota"; "quota_exceeded";
   "quota exceeded"; "quota_exhausted"; "quota exhausted"; "billing_hard_limit";
   "insufficient_balance"; "balance"; "out of credits"].

Record FallbackPreset := mkPreset {
  fp_model : string;
  fp_max_tokens : Z;
  fp_temperature : f32;
  fp_reasoning_effort : option string
}.

(** [FallbackState]: instants in nanoseconds. *)
Record Breaker := mkBreaker {
  primary_failures : Z;
  primary_tripped_at : option Z
}.

Definition new_breaker : Breaker := mkBreaker 0 None.

Definition primary_available (b : Breaker) (now : Z) : bool :=
  match primary_tripped_at b with
  | None => true
  | Some t => (PRIMARY_COOLDOWN <=? now - t)%Z
  end.

Definition lower_or_empty (o : option string) : string := to_lowercase (default "" o).

Definition should_fallback (r : LLMResponse) : bool :=
  if bool_decide (error_should_retry r = Some false) then false
  else
    let kind := lower_or_empty (error_kind r) in
    let ty := lower_or_empty (error_type r) in
    let code := lower_or_empty (error_code r) in
    let text := lower_or_empty (rs_content r) in
    if (match error_status_code r with
        | Some s => bool_decide (s ∈ [400; 401; 403; 404; 422]%Z)
        | None => false
        end) then false
    else if bool_decide (kind ∈ NON_FALLBACK_ERROR_KINDS) then false
    else if existsb (λ v, existsb (contains_str v) NON_FALLBACK_ERROR_KINDS) [kind; ty; code]
    then false
    else if bool_decide (error_should_retry r = Some true) then true
    else if (match error_status_code r with
             | Some s => bool_decide (s ∈ [408; 409; 429]%Z) || ((500 <=? s) && (s <=? 599))%Z
             | None => false
             end) then true
    else if bool_decide (kind ∈ FALLBACK_ERROR_KINDS) then true
    else existsb (λ v, existsb (contains_str v) FALLBACK_ERROR_TOKENS) [kind; ty; code; text].

(** The request as the fallback sees it; it is restored afterwards. *)
Definition fallback_request (req : ChatRequest) (f : FallbackPreset) : ChatRequest :=
  mkRequest (rq_messages req) (rq_tools req) (Some (fp_model f)) (fp_max_tokens f)
    (fp_temperature f) (fp_reasoning_effort f) (rq_tool_choice req).

(** A fallbackable failure of the primary: counted, and the circuit opens at the
    threshold.  The counter is a [u32]. *)
Definition record_failure (b : Breaker) (now : Z) : Breaker :=
  let failures := wrap_u32 (primary_failures b + 1) in
  mkBreaker failures
    (if (PRIMARY_FAILURE_THRESHOLD <=? failures)%Z then Some now else primary_tripped_at b).

Definition circuit_open_response (model : string) : LLMResponse :=
  error_response ("Primary model '" +:+ model +:+ "' circuit open and no fallbacks available").

(** Which models an invocation called. *)
Inductive Called :=
| CalledPrimary
| CalledFallback (f : FallbackPreset).

(** ** Plain calls *)

Section Chat.
Variables (primary : ChatRequest → LLMResponse) (factory : FallbackPreset → ChatRequest → LLMResponse).
Variables (default_model : string) (presets : list FallbackPreset).

(** The loop over the fallbacks: the answer and the calls made. *)
Fixpoint fallback_loop (req : ChatRequest) (fs : list FallbackPreset) (last : option LLMResponse)
    : option LLMResponse * list Called :=
  match fs with
  | [] => (last, [])
  | f :: fs =>
      let r := factory f (fallback_request req f) in
      if negb (is_error r) then (Some r, [CalledFallback f])
      else let '(out, calls) := fallback_loop req fs (Some r) in (out, CalledFallback f :: calls)
  end.

(** [t0] is read for the availability check, [t1] when the circuit opens. *)
Definition try_with_fallback_chat (b : Breaker) (req : ChatRequest) (t0 t1 : Z)
    : Breaker * LLMResponse * list Called :=
  let model := default default_model (rq_model req) in
  let finish b calls :=
    let '(out, fcalls) := fallback_loop req presets None in
    (b, default (circuit_open_response model) out, calls ++ fcalls) in
  if primary_available b t0 then
    let r := primary req in
    if negb (is_error r) then (mkBreaker 0 None, r, [CalledPrimary])
    else if negb (should_fallback r) then (b, r, [CalledPrimary])
    else finish (record_failure b t1) [CalledPrimary]
  else finish b [].

Definition chat (b : Breaker) (req : ChatRequest) (t0 t1 : Z)
    : Breaker * LLMResponse * list Called :=
  match presets with
  | [] => (b, primary req, [CalledPrimary])
  | _ => try_with_fallback_chat b req t0 t1
  end.
End Chat.

(** ** Streaming calls *)

Section Stream.
Variables (primary : ChatRequest → list Delta * LLMResponse)
  (factory : FallbackPreset → ChatRequest → list Delta * LLMResponse).
Variables (default_model : string) (presets : list FallbackPreset).

(** The wrapped callbacks set [has_streamed] on a non-empty text and on any tool-call
    delta, and forward everything. *)
Definition visible (d : Delta) : bool :=
  match d with TextDelta t => negb (is_empty t) | ToolCallDelta _ => true end.

Definition track (has_streamed : bool) (ds : list Delta) : bool :=
  has_streamed || existsb visible ds.

(** Deltas are kept with the model that emitted them. *)
Abbreviation tagged_delta := (Called * Delta)%type.

Fixpoint stream_loop (req : ChatRequest) (has_streamed : bool) (fs : list FallbackPreset)
    (last : option LLMResponse) : option LLMResponse * list Called * list tagged_delta :=
  match fs with
  | [] => (last, [], [])
  | f :: fs =>
      if has_streamed then (last, [], [])
      else
        let '(ds, r) := factory f (fallback_request req f) in
        let out := (λ d, (CalledFallback f, d)) <$> ds in
        if negb (is_error r) then (Some r, [CalledFallback f], out)
        else
          let '(res, calls, rest) := stream_loop req (track has_streamed ds) fs (Some r) in
          (res, CalledFallback f :: calls, out ++ rest)
  end.

Definition try_with_fallback_stream (b : Breaker) (req : ChatRequest) (t0 t1 : Z)
    : Breaker * LLMResponse * list Called * list tagged_delta :=
  let model := default default_model (rq_model req) in
  let finish b calls out has_streamed :=
    let '(res, fcalls, rest) := stream_loop req has_streamed presets None in
    (b, default (circuit_open_response model) res, calls ++ fcalls, out ++ rest) in
  if primary_available b t0 then
    let '(ds, r) := primary req in
    let out := (λ d, (CalledPrimary, d)) <$> ds in
    if negb (is_error r) then (mkBreaker 0 None, r, [CalledPrimary], out)
    else if track false ds then (b, r, [CalledPrimary], out)
    else if negb (should_fallback r) then (b, r, [CalledPrimary], out)
    else finish (record_failure b t1) [CalledPrimary] out (track false ds)
  else finish b [] [] false.

Definition chat_stream (b : Breaker) (req : ChatRequest) (t0 t1 : Z)
    : Breaker * LLMResponse * list Called * list tagged_delta :=
  match presets with
  | [] =>
      let '(ds, r) := primary req in
      (b, r, [CalledPrimary], (λ d, (CalledPrimary, d)) <$> ds)
  | _ => try_with_fallback_stream b req t0 t1
  end.
End Stream.

(** ** A sequence of plain calls *)

Record Invocation := mkInvocation {
  iv_primary : ChatRequest → LLMResponse;
  iv_factory : FallbackPreset → ChatRequest → LLMResponse;
  iv_req : ChatRequest;
  iv_t0 : Z;
  iv_t1 : Z
}.

Section Runs.
Variables (default_model : string) (presets : list FallbackPreset).

Definition invoke (b : Breaker) (iv : Invocation) : Breaker * LLMResponse * list Called :=
  chat (iv_primary iv) (iv_factory iv) default_model presets b (iv_req iv) (iv_t0 iv) (iv_t1 iv).

Definition primary_called (calls : list Called) : bool :=
  match calls with CalledPrimary :: _ => true | _ => false end.

(** The invocations of a run, each with whether it called the primary. *)
Fixpoint run_chats (b : Breaker) (l : list Invocation) : Breaker * list (Invocation * bool) :=
  match l with
  | [] => (b, [])
  | iv :: l =>
      let '(b', _, calls) := invoke b iv in
      let '(b'', res) := run_chats b' l in
      (b'', (iv, primary_called calls) :: res)
  end.
End Runs.

(** The history the breaker should reflect: the fallbackable failures of the primary
    since its last success, and when the last of them was noted. *)
Definition note_call (h : nat * option Z) (c : Invocation * bool) : nat * option Z :=
  let '(iv, called) := c in
  if called then
    let r := iv_primary iv (iv_req iv) in
    if negb (is_error r) then (0, None)
    else if should_fallback r then (S h.1, Some (iv_t1 iv)) else h
  else h.

Definition history_of (res : list (Invocation * bool)) : nat * option Z :=
  fold_left note_call res (0, None).

Definition reflects (b : Breaker) (h : nat * option Z) : Prop :=
  primary_failures b = Z.of_nat h.1 ∧
  primary_tripped_at b = (if 3 <=? h.1 then h.2 else None) ∧
  (h.1 = 0 ↔ h.2 = None).

Lemma available_reflects b h t :
  reflects b h →
  primary_available b t = true ↔
  h.1 < 3 ∨ ∃ t', h.2 = Some t' ∧ (t' + PRIMARY_COOLDOWN <= t)%Z.
Proof.
  intros (_ & Ht & Hz). unfold primary_available. rewrite Ht.
  destruct (3 <=? h.1) eqn:H3; bool_to_prop.
  - destruct h.2 as [t'|]; [|pose proof (proj2 Hz eq_refl); lia]. rewrite Z.leb_le. split.
    + intros H. right. exists t'. split; [done|lia].
    + intros [H|(x & [= <-] & H)]; lia.
  - split; [by left|done].
Qed.

Lemma invoke_called dm presets b iv b' r calls :
  presets ≠ [] → invoke dm presets b iv = (b', r, calls) →
  primary_called calls = primary_available b (iv_t0 iv).
Proof.
  intros Hne. unfold invoke, chat, try_with_fallback_chat. destruct presets as [|f fs]; [done|].
  destruct (primary_available b (iv_t0 iv)).
  - repeat case_match; intros; by simplify_eq/=.
  - cbn [fallback_loop]. repeat case_match; intros; by simplify_eq/=.
Qed.

Lemma invoke_reflects dm presets b iv b' r calls h :
  presets ≠ [] → reflects b h → (Z.of_nat h.1 + 1 < 4294967296)%Z →
  invoke dm presets b iv = (b', r, calls) →
  reflects b' (note_call h (iv, primary_called calls)).
Proof.
  intros Hne Hh Hlt Hinv. rewrite (invoke_called _ _ _ _ _ _ _ Hne Hinv).
  unfold invoke, chat, try_with_fallback_chat in Hinv. destruct presets as [|f fs]; [done|].
  unfold note_call. destruct (primary_available b (iv_t0 iv)).
  2:{ destruct (fallback_loop _ _ _ _) as [out fcalls]. by simplify_eq. }
  destruct (negb (is_error _)); [by simplify_eq|].
  destruct (should_fallback _); simpl in Hinv; [|by simplify_eq].
  destruct (if negb (is_error (iv_factory iv f _)) then _ else _) as [out fcalls]. simplify_eq.
  destruct Hh as (Hf & Ht & Hz). unfold reflects, record_failure. cbn [primary_failures primary_tripped_at fst snd].
  rewrite Hf. unfold wrap_u32. rewrite Z.mod_small by lia.
  assert (Hle : (PRIMARY_FAILURE_THRESHOLD <=? Z.of_nat h.1 + 1)%Z = (3 <=? S h.1)).
  { apply eq_true_iff_eq. unfold PRIMARY_FAILURE_THRESHOLD. rewrite Z.leb_le, Nat.leb_le. lia. }
  rewrite Hle. split_and!; [lia| |done].
  destruct (3 <=? S h.1) eqn:H3; [done|]. rewrite Ht.
  bool_to_prop. by rewrite (proj2 (Nat.leb_gt 3 h.1)) by lia.
Qed.

Lemma run_reflects dm presets l b h b' res :
  presets ≠ [] → reflects b h → (Z.of_nat h.1 + Z.of_nat (length l) < 4294967296)%Z →
  run_chats dm presets b l = (b', res) → reflects b' (fold_left note_call res h).
Proof.
  intros Hne. revert b h res. induction l as [|iv l IH]; intros b h res Hh Hlen Hrun;
    cbn [run_chats] in Hrun; [by simplify_eq|].
  destruct (invoke dm presets b iv) as [[b1 r] calls] eqn:Hinv.
  destruct (run_chats dm presets b1 l) as [b2 res'] eqn:Hrest. simplify_eq. cbn [fold_left].
  cbn [length] in Hlen. eapply IH; [|  |done].
  - eapply invoke_reflects; [done..|lia|done].
  - unfold note_call. repeat case_match; simpl; lia.
Qed.

(** C29: after any sequence of calls the circuit breaker is exactly the history of the
    primary model: the counter is the number of fallbackable failures since the last
    success, and the next call leaves the primary out exactly when there were at least
    three of them and the last is less than the cool-down ago. *)
Theorem breaker_exact (default_model : string) (presets : list FallbackPreset)
    (l : list Invocation) (next : Invocation) :
  presets ≠ [] → (Z.of_nat (length l) < 4294967296)%Z →
  let '(b, res) := run_chats default_model presets new_breaker l in
  let '(failures, last_failure) := history_of res in
  primary_failures b = Z.of_nat failures ∧
  (primary_called (invoke default_model presets b next).2 = false ↔
   3 ≤ failures ∧ ∃ t, last_failure = Some t ∧ (iv_t0 next < t + PRIMARY_COOLDOWN)%Z).
Proof.
  intros Hne Hlen. destruct (run_chats _ _ _ _) as [b res] eqn:Hrun.
  assert (Hr : reflects b (history_of res)).
  { by apply (run_reflects default_model presets l new_breaker (0, None) b res). }
  destruct (history_of res) as [n last] eqn:Hh. split; [apply Hr|].
  destruct (invoke default_model presets b next) as [[b' r] calls] eqn:Hinv. cbn [snd].
  rewrite (invoke_called _ _ _ _ _ _ _ Hne Hinv). pose proof (available_reflects b _ (iv_t0 next) Hr) as Ha.
  destruct Hr as (_ & _ & Hz). simpl in *.
  destruct (primary_available b (iv_t0 next)).
  - split; [done|]. intros [H3 (t & -> & Ht)].
    destruct (proj1 Ha eq_refl) as [?|(t' & [= <-] & ?)]; lia.
  - split; [|done]. intros _. destruct (decide (n < 3)) as [Hlt|Hge]; [by discriminate (proj2 Ha (or_introl Hlt))|].
    split; [lia|]. destruct last as [t|]; [|pose proof (proj2 Hz eq_refl); lia]. exists t. split; [done|].
    destruct (decide (t + PRIMARY_COOLDOWN <= iv_t0 next)%Z) as [Hle|]; [|lia].
    enough (false = true) by done. apply Ha. right. by exists t.
Qed.

(** Three failures, then a call one second and one a minute later. *)
Definition failing (t : Z) : Invocation :=
  mkInvocation (λ _, error_response "Rate limit hit")
    (λ _ _, mkResponse (Some "hi") [] "stop" [] None None None None None None None None None)
    (mkRequest [] None None 10 (S754_zero false) None None) t t.

Definition demo_preset : FallbackPreset := mkPreset "small" 100 (S754_zero false) None.

Example breaker_exact_witness :
  let '(b, res) := run_chats "big" [demo_preset] new_breaker [failing 1; failing 2; failing 3] in
  (history_of res = (3, Some 3%Z)) ∧
  (primary_called (invoke "big" [demo_preset] b (failing 1000000000)).2 = false ↔
   3 ≤ 3 ∧ ∃ t, Some 3%Z = Some t ∧ (1000000000 < t + PRIMARY_COOLDOWN)%Z).
Proof.
  pose proof (breaker_exact "big" [demo_preset] [failing 1; failing 2; failing 3]
    (failing 1000000000) ltac:(done) ltac:(simpl; lia)) as H.
  destruct (run_chats _ _ _ _) as [b res] eqn:Hr.
  assert (Hh : history_of res = (3, Some 3%Z)).
  { vm_compute in Hr. injection Hr as _ <-. by vm_compute. }
  rewrite Hh in H. split; [done|]. apply H.
Defined.

(** ** The answer *)

Definition succeeds (r : LLMResponse) : bool := negb (is_error r).

Lemma fallback_loop_spec factory req fs prev :
  let rs := (λ f, factory f (fallback_request req f)) <$> fs in
  fallback_loop factory req fs prev =
  match Prelude.position succeeds rs with
  | Some i => (rs !! i, CalledFallback <$> take (S i) fs)
  | None => (match last rs with Some r => Some r | None => prev end, CalledFallback <$> fs)
  end.
Proof.
  revert prev. induction fs as [|f fs IH]; intros prev; [done|]. cbn zeta in IH |- *.
  cbn -[take fallback_request last]. change (negb (is_error ?r)) with (succeeds r).
  destruct (succeeds _) eqn:Hs; [done|]. rewrite IH.
  destruct (Prelude.position _ _) as [i|]; [done|].
  cbn -[last fallback_request]. rewrite last_cons. by destruct (last _).
Qed.

(** a call answers with the first model that succeeds, in order.  An available
    primary that succeeds, or fails in a way no other model would mend, is the only
    model called; otherwise the fallbacks are called one after the other up to and
    including the first that succeeds, whose answer is returned; when all fail, the
    answer is the last fallback's error. *)
Theorem chat_first_success (primary : ChatRequest → LLMResponse)
    (factory : FallbackPreset → ChatRequest → LLMResponse) (default_model : string)
    (presets : list FallbackPreset) (b : Breaker) (req : ChatRequest) (t0 t1 : Z) :
  presets ≠ [] →
  let '(b', r, calls) := chat primary factory default_model presets b req t0 t1 in
  let avail := primary_available b t0 in
  let rs := (λ f, factory f (fallback_request req f)) <$> presets in
  if avail && (succeeds (primary req) || negb (should_fallback (primary req))) then
    r = primary req ∧ calls = [CalledPrimary] ∧
    b' = (if succeeds (primary req) then new_breaker else b)
  else
    let tried := if avail then [CalledPrimary] else [] in
    b' = (if avail then record_failure b t1 else b) ∧
    match Prelude.position succeeds rs with
    | Some i => rs !! i = Some r ∧ calls = tried ++ (CalledFallback <$> take (S i) presets)
    | None => last rs = Some r ∧ calls = tried ++ (CalledFallback <$> presets)
    end.
Proof.
  intros Hne. unfold chat. destruct presets as [|f fs] eqn:Hp; [done|]. rewrite <-Hp in *.
  unfold try_with_fallback_chat. rewrite fallback_loop_spec. cbn zeta.
  set (rs := _ <$> presets).
  assert (Hlast : ∃ r, last rs = Some r) by (apply last_is_Some; subst rs; by rewrite Hp).
  destruct Hlast as [rl Hlast]. rewrite Hlast.
  change (negb (is_error (primary req))) with (succeeds (primary req)).
  destruct (primary_available b t0); simpl.
  - destruct (succeeds (primary req)); simpl; [done|].
    destruct (should_fallback (primary req)); simpl; [|done].
    destruct (Prelude.position succeeds rs) as [i|] eqn:Hi; simpl; [|done].
    apply position_Some in Hi as (x & Hx & _). by rewrite Hx.
  - destruct (Prelude.position succeeds rs) as [i|] eqn:Hi; simpl; [|done].
    apply position_Some in Hi as (x & Hx & _). by rewrite Hx.
Qed.

Example chat_first_success_witness :
  (chat (iv_primary (failing 1)) (iv_factory (failing 1)) "big" [demo_preset] new_breaker
     (iv_req (failing 1)) 1 1).2 = [CalledPrimary; CalledFallback demo_preset] ∧
  (chat (iv_primary (failing 1)) (iv_factory (failing 1)) "big" [demo_preset] new_breaker
     (iv_req (failing 1)) 1 1).1.1 = record_failure new_breaker 1.
Proof.
  split; [by vm_compute|].
  pose proof (chat_first_success (iv_primary (failing 1)) (iv_factory (failing 1)) "big"
    [demo_preset] new_breaker (iv_req (failing 1)) 1 1 ltac:(done)) as H.
  destruct (chat _ _ _ _ _ _ _ _) as [[b' r] calls].
  assert (Hc : primary_available new_breaker 1 &&
    (succeeds (iv_primary (failing 1) (iv_req (failing 1)))
     || negb (should_fallback (iv_primary (failing 1) (iv_req (failing 1))))) = false)
    by (by vm_compute).
  cbn zeta in H. rewrite Hc in H. destruct H as [H _]. exact H.
Defined.

(** ** Streaming *)

(** The deltas of an invocation: those of the models before the last one called are all
    invisible. *)
Definition one_source (calls : list Called) (out : list (Called * Delta)) : Prop :=
  ∃ silent ds, out = silent ++ ds ∧
    (∀ p, p ∈ silent → visible p.2 = false) ∧
    (∀ p, p ∈ ds → last calls = Some p.1).

Lemma invisible_tag c ds : existsb visible ds = false →
  ∀ p : Called * Delta, p ∈ (λ d, (c, d)) <$> ds → visible p.2 = false.
Proof.
  intros Hv p (d & -> & Hd)%list_elem_of_fmap. simpl.
  destruct (visible d) eqn:Hd'; [|done]. rewrite <-Hv. symmetry. apply existsb_exists.
  exists d. split; [by apply list_elem_of_In|done].
Qed.

Lemma one_source_single c ds : one_source [c] ((λ d, (c, d)) <$> ds).
Proof.
  exists [], ((λ d, (c, d)) <$> ds). split_and!; [done|by intros p ?%not_elem_of_nil|].
  by intros p (d & -> & _)%list_elem_of_fmap.
Qed.

Lemma one_source_silent c ds calls out :
  existsb visible ds = false → calls ≠ [] → one_source calls out →
  one_source (c :: calls) (((λ d, (c, d)) <$> ds) ++ out).
Proof.
  intros Hv Hne (silent & rest & -> & Hs & Hr).
  exists (((λ d, (c, d)) <$> ds) ++ silent), rest. split_and!; [by rewrite app_assoc| |].
  - intros p [Hp|Hp]%elem_of_app; [by eapply invisible_tag|by apply Hs].
  - intros p Hp. rewrite last_cons. by rewrite (Hr p Hp).
Qed.

Lemma stream_loop_source factory req fs prev :
  let '(_, calls, out) := stream_loop factory req false fs prev in one_source calls out.
Proof.
  assert (Hempty : one_source [] []).
  { exists [], []. split_and!; [done|by intros p ?%not_elem_of_nil..]. }
  revert prev. induction fs as [|f fs IH]; intros prev; cbn [stream_loop]; [done|].
  destruct (factory f (fallback_request req f)) as [ds r].
  destruct (negb (is_error r)); [apply one_source_single|].
  unfold track. cbn [orb]. destruct (existsb visible ds) eqn:Hv.
  - assert (Hstop : stream_loop factory req true fs (Some r) = (Some r, [], [])) by (by destruct fs).
    rewrite Hstop, app_nil_r. apply one_source_single.
  - specialize (IH (Some r)). destruct fs as [|f' fs].
    { simpl. rewrite app_nil_r. apply one_source_single. }
    destruct (stream_loop factory req false (f' :: fs) (Some r)) as [[res calls] rest] eqn:Hl.
    apply one_source_silent; [done| |done].
    cbn [stream_loop] in Hl. destruct (factory f' _). repeat case_match; by simplify_eq.
Qed.

(** the listener of a streaming call sees content of one model only: once a model
    has streamed any text or tool call, no other model is called, whatever it answers. *)
Theorem chat_stream_one_source (primary : ChatRequest → list Delta * LLMResponse)
    (factory : FallbackPreset → ChatRequest → list Delta * LLMResponse) (default_model : string)
    (presets : list FallbackPreset) (b : Breaker) (req : ChatRequest) (t0 t1 : Z) :
  let '(_, _, calls, out) := chat_stream primary factory default_model presets b req t0 t1 in
  one_source calls out.
Proof.
  unfold chat_stream. destruct presets as [|f fs] eqn:Hp.
  { destruct (primary req). apply one_source_single. }
  rewrite <-Hp in *. unfold try_with_fallback_stream.
  pose proof (stream_loop_source factory req presets None) as Hl.
  destruct (primary_available b t0).
  - destruct (primary req) as [ds r]. destruct (negb (is_error r)); [apply one_source_single|].
    unfold track. cbn [orb]. destruct (existsb visible ds) eqn:Hv; [apply one_source_single|].
    destruct (negb (should_fallback r)); [apply one_source_single|].
    destruct (stream_loop factory req false presets None) as [[res calls] rest] eqn:Hs.
    simpl. apply one_source_silent; [done| |done].
    rewrite Hp in Hs. cbn [stream_loop] in Hs. destruct (factory f _).
    repeat case_match; by simplify_eq.
  - by destruct (stream_loop factory req false presets None) as [[res calls] rest].
Qed.
