(* ===== verification/Bus.v ===== *)
(** * The message bus

    [crates/bus/src/queue.rs] and [crates/bus/src/events.rs]: a lane is an unbounded queue
    with a separate atomic counter.  A send and the increment that follows it are two
    atomic steps, as are a receive and its decrement, so tasks interleave between them;
    the standalone senders the bus hands out push without touching the counter. *)

From S2P Require Import Prelude RustStr Json.

Local Open Scope stdpp_scope.
Local Open Scope hive_scope.

(** ** Messages *)

Record InboundMessage := mkInbound {
  in_channel : string;
  sender_id : string;
  in_chat_id : string;
  in_content : string;
  timestamp : Z;
  in_media : list string;
  in_metadata : gmap string json;
  session_key_override : option string
}.

Record OutboundMessage := mkOutbound {
  out_channel : string;
  out_chat_id : string;
  out_content : string;
  reply_to : option string;
  out_media : list string;
  out_metadata : gmap string json
}.

Definition session_key (m : InboundMessage) : string :=
  match session_key_override m with
  | Some k => if is_empty k then in_channel m +:+ ":" +:+ in_chat_id m else k
  | None => in_channel m +:+ ":" +:+ in_chat_id m
  end.

(** ** A lane *)

Section Lane.
Context {T : Type}.

(** The queue, the counter, how many publishers have sent and not yet counted, and
    whether the consumer holding the receiver has received and not yet counted. *)
Record Lane := mkLane {
  lane_queue : list T;
  pending : Z;
  publishing : nat;
  consuming : bool
}.

Definition Lane_new : Lane := mkLane [] 0 0 false.

(** [publish]: [tx.send], then [fetch_add]. *)
Definition lane_send (l : Lane) (x : T) : Lane :=
  mkLane (lane_queue l ++ [x]) (pending l) (S (publishing l)) (consuming l).

Definition lane_count_up (l : Lane) : option Lane :=
  match publishing l with
  | 0 => None
  | S n => Some (mkLane (lane_queue l) (wrap_u64 (pending l + 1)) n (consuming l))
  end.

(** [consume]: [rx.recv] under the receiver's lock, then [fetch_sub]. *)
Definition lane_recv (l : Lane) : option (Lane * T) :=
  match consuming l, lane_queue l with
  | false, x :: q => Some (mkLane q (pending l) (publishing l) true, x)
  | _, _ => None
  end.

Definition lane_count_down (l : Lane) : option Lane :=
  if consuming l
  then Some (mkLane (lane_queue l) (wrap_u64 (pending l - 1)) (publishing l) false)
  else None.

(** [publish] and [consume] when no other task runs in between; [None] for a consumer
    that waits. *)
Definition publish (l : Lane) (x : T) : Lane := default l (lane_count_up (lane_send l x)).

Definition consume (l : Lane) : option (Lane * T) :=
  '(l', x) ← lane_recv l; l'' ← lane_count_down l'; Some (l'', x).

(** A send through a handle from [inbound_sender] or [outbound_sender]. *)
Definition raw_send (l : Lane) (x : T) : Lane :=
  mkLane (lane_queue l ++ [x]) (pending l) (publishing l) (consuming l).

Definition size (l : Lane) : Z := pending l.

(** Atomic steps, with the history: every message sent, every message received, and
    how many were sent past the counter. *)
Record history := mkHistory { sent : list T; received : list T; raw_count : nat }.

Inductive lane_step : Lane * history → Lane * history → Prop :=
| step_send l h x :
    lane_step (l, h) (lane_send l x, mkHistory (sent h ++ [x]) (received h) (raw_count h))
| step_count_up l l' h : lane_count_up l = Some l' → lane_step (l, h) (l', h)
| step_recv l l' x h :
    lane_recv l = Some (l', x) →
    lane_step (l, h) (l', mkHistory (sent h) (received h ++ [x]) (raw_count h))
| step_count_down l l' h : lane_count_down l = Some l' → lane_step (l, h) (l', h)
| step_raw l h x :
    lane_step (l, h) (raw_send l x, mkHistory (sent h ++ [x]) (received h) (S (raw_count h))).

Definition init : Lane * history := (Lane_new, mkHistory [] [] 0).

Definition reachable (s : Lane * history) : Prop := rtc lane_step init s.

(** What holds at every moment. *)
Definition lane_inv (s : Lane * history) : Prop :=
  let '(l, h) := s in
  sent h = received h ++ lane_queue l ∧
  pending l = wrap_u64 (Z.of_nat (length (lane_queue l)) + (if consuming l then 1 else 0)
                        - Z.of_nat (publishing l) - Z.of_nat (raw_count h)).

Lemma wrap_u64_add a b : wrap_u64 (wrap_u64 a + b) = wrap_u64 (a + b).
Proof. unfold wrap_u64. by rewrite Zplus_mod_idemp_l. Qed.

Lemma lane_inv_step s s' : lane_inv s → lane_step s s' → lane_inv s'.
Proof.
  intros Hinv Hstep. destruct Hstep as [l h x|l l' h Hc|l l' x h Hr|l l' h Hc|l h x];
    destruct Hinv as [Hs Hp].
  - split; simpl; [by rewrite Hs, app_assoc|]. rewrite Hp, length_app. simpl. f_equal. lia.
  - unfold lane_count_up in Hc. destruct (publishing l) as [|n] eqn:Hn; [done|].
    injection Hc as <-. split; simpl; [done|]. rewrite Hp, wrap_u64_add. f_equal. lia.
  - unfold lane_recv in Hr. destruct (consuming l); [done|].
    destruct (lane_queue l) as [|y q] eqn:Hq; [done|]. simplify_eq. split; simpl.
    + by rewrite Hs, <-app_assoc.
    + rewrite Hp. f_equal. simpl. lia.
  - unfold lane_count_down in Hc. destruct (consuming l); [|done]. injection Hc as <-.
    split; simpl; [done|]. rewrite Hp. unfold Z.sub at 1. rewrite wrap_u64_add. f_equal. lia.
  - split; simpl; [by rewrite Hs, app_assoc|]. rewrite Hp, length_app. simpl. f_equal. lia.
Qed.

Lemma reachable_inv s : reachable s → lane_inv s.
Proof.
  unfold reachable. assert (H0 : lane_inv init) by (split; [done|by vm_compute]).
  revert H0. generalize init. intros s0 H0 Hr. induction Hr as [|x y z Hstep _ IH]; [done|].
  by apply IH, (lane_inv_step x).
Qed.
End Lane.

Arguments Lane : clear implicits.
Arguments history : clear implicits.

(** [MessageBus]: one lane per direction. *)
Record MessageBus := mkBus {
  inbound : Lane InboundMessage;
  outbound : Lane OutboundMessage
}.

Definition MessageBus_new : MessageBus := mkBus Lane_new Lane_new.

Definition publish_inbound (b : MessageBus) (m : InboundMessage) : MessageBus :=
  mkBus (publish (inbound b) m) (outbound b).
Definition publish_outbound (b : MessageBus) (m : OutboundMessage) : MessageBus :=
  mkBus (inbound b) (publish (outbound b) m).

Definition consume_inbound (b : MessageBus) : option (MessageBus * InboundMessage) :=
  '(l, m) ← consume (inbound b); Some (mkBus l (outbound b), m).
Definition consume_outbound (b : MessageBus) : option (MessageBus * OutboundMessage) :=
  '(l, m) ← consume (outbound b); Some (mkBus (inbound b) l, m).

Definition inbound_size (b : MessageBus) : Z := size (inbound b).
Definition outbound_size (b : MessageBus) : Z := size (outbound b).

(** in every interleaving of publishers and consumers each message is delivered
    once, in the order of the sends; and when no publish or consume is between its two
    steps the reported size is the length of the queue less the number of messages that
    were sent through a standalone sender, modulo 2^64: exact without such senders, and
    a huge number once more such messages were consumed than are waiting. *)
Theorem lane_fifo_and_size {T : Type} (l : Lane T) (h : history T) :
  reachable (l, h) →
  sent h = received h ++ lane_queue l ∧
  (publishing l = 0 → consuming l = false →
   size l = wrap_u64 (Z.of_nat (length (lane_queue l)) - Z.of_nat (raw_count h))) ∧
  (publishing l = 0 → consuming l = false → raw_count h = 0 →
   (Z.of_nat (length (lane_queue l)) <= u64_max)%Z →
   size l = Z.of_nat (length (lane_queue l))).
Proof.
  intros [Hs Hp]%reachable_inv. split; [done|].
  assert (Hq : publishing l = 0 → consuming l = false →
    size l = wrap_u64 (Z.of_nat (length (lane_queue l)) - Z.of_nat (raw_count h))).
  { intros Hpub Hcon. unfold size. rewrite Hp, Hpub, Hcon. f_equal. lia. }
  split; [done|]. intros Hpub Hcon Hraw Hmax. rewrite Hq, Hraw by done.
  unfold u64_max in Hmax. unfold wrap_u64. rewrite Z.mod_small; lia.
Qed.

(** One message sent past the counter and consumed: the size wraps around. *)
Example lane_fifo_and_size_witness :
  let l := mkLane (@nil nat) u64_max 0 false in
  let h := mkHistory [7] [7] 1 in
  sent h = received h ++ lane_queue l ∧ size l = wrap_u64 (0 - 1).
Proof.
  cbn zeta.
  destruct (lane_fifo_and_size (mkLane (@nil nat) u64_max 0 false) (mkHistory [7] [7] 1))
    as (H1 & H2 & _).
  - unfold reachable, init.
    eapply rtc_l; [apply (step_raw _ _ 7)|]. eapply rtc_l; [by apply step_recv|].
    eapply rtc_l; [by apply step_count_down|]. apply rtc_refl.
  - split; [exact H1|]. by apply H2.
Defined.
