(* ===== verification/Router.v ===== *)
(** * Dispatch of slash commands

    [crates/command/src/router.rs]: the table of handlers and its tiers, with the commands
    [builtin.rs] registers.  A handler acts on a world [W] and may change the context.
    Lower-casing follows the Unicode tables of the standard library: it is a parameter, so
    that every theorem holds for it. *)

From stdpp Require Import sorting.
From S2P Require Import Prelude RustStr Json Bus.

Local Open Scope stdpp_scope.
Local Open Scope hive_scope.

Section Router.
Context {W Sess Agent : Type}.

Record CommandContext := mkContext {
  c_msg : InboundMessage;
  c_session : option Sess;
  c_key : string;
  c_raw : string;
  c_args : string;
  c_loop : option Agent
}.

Definition context_new (msg : InboundMessage) (key raw : string) : CommandContext :=
  mkContext msg None key raw "" None.

Definition with_session (s : Sess) (c : CommandContext) : CommandContext :=
  mkContext (c_msg c) (Some s) (c_key c) (c_raw c) (c_args c) (c_loop c).

Definition with_loop (a : Agent) (c : CommandContext) : CommandContext :=
  mkContext (c_msg c) (c_session c) (c_key c) (c_raw c) (c_args c) (Some a).

Definition with_args (args : string) (c : CommandContext) : CommandContext :=
  mkContext (c_msg c) (c_session c) (c_key c) (c_raw c) args (c_loop c).

Definition Handler : Type := W → CommandContext → W * CommandContext * option OutboundMessage.

Record CommandRouter := mkRouter {
  r_priority : gmap string Handler;
  r_exact : gmap string Handler;
  r_prefix : list (string * Handler);
  r_interceptors : list Handler
}.

Definition router_new : CommandRouter := mkRouter ∅ ∅ [] [].

(** ** Registration *)

Definition priority (cmd : string) (h : Handler) (r : CommandRouter) : CommandRouter :=
  mkRouter (<[cmd := h]> (r_priority r)) (r_exact r) (r_prefix r) (r_interceptors r).

Definition exact_cmd (cmd : string) (h : Handler) (r : CommandRouter) : CommandRouter :=
  mkRouter (r_priority r) (<[cmd := h]> (r_exact r)) (r_prefix r) (r_interceptors r).

(** A stable sort by decreasing length. *)
Fixpoint insert_desc (e : string * Handler) (l : list (string * Handler)) : list (string * Handler) :=
  match l with
  | [] => [e]
  | x :: l' => if String.length x.1 <=? String.length e.1 then e :: l else x :: insert_desc e l'
  end.

Definition sort_desc (l : list (string * Handler)) : list (string * Handler) := foldr insert_desc [] l.

Definition prefix (pfx : string) (h : Handler) (r : CommandRouter) : CommandRouter :=
  mkRouter (r_priority r) (r_exact r) (sort_desc (r_prefix r ++ [(pfx, h)])) (r_interceptors r).

Definition intercept (h : Handler) (r : CommandRouter) : CommandRouter :=
  mkRouter (r_priority r) (r_exact r) (r_prefix r) (r_interceptors r ++ [h]).

(** ** Dispatch *)

Variable lower : string → string.

Definition normalize (text : string) : string := lower (trim text).

Definition is_some {A} (o : option A) : bool := match o with Some _ => true | None => false end.

Definition is_priority (r : CommandRouter) (text : string) : bool :=
  is_some (r_priority r !! normalize text).

Definition is_dispatchable_command (r : CommandRouter) (text : string) : bool :=
  let cmd := normalize text in
  if is_some (r_exact r !! cmd) then true
  else existsb (λ e, starts_with cmd e.1) (r_prefix r).

Definition dispatch_priority (r : CommandRouter) (w : W) (c : CommandContext)
    : W * CommandContext * option OutboundMessage :=
  match r_priority r !! lower (c_raw c) with
  | Some h => h w c
  | None => (w, c, None)
  end.

Fixpoint run_interceptors (hs : list Handler) (w : W) (c : CommandContext)
    : W * CommandContext * option OutboundMessage :=
  match hs with
  | [] => (w, c, None)
  | h :: hs =>
      let '(w, c, out) := h w c in
      match out with
      | Some _ => (w, c, out)
      | None => run_interceptors hs w c
      end
  end.

(** The arguments are a slice of the original text at the length of the prefix. *)
Definition run_prefix (e : string * Handler) (w : W) (c : CommandContext)
    : run (W * CommandContext * option OutboundMessage) :=
  match split_at (c_raw c) (String.length e.1) with
  | Some (_, args) => Returns (e.2 w (with_args args c))
  | None => Panics
  end.

Definition dispatch (r : CommandRouter) (w : W) (c : CommandContext)
    : run (W * CommandContext * option OutboundMessage) :=
  let cmd := lower (c_raw c) in
  match r_exact r !! cmd with
  | Some h => Returns (h w c)
  | None =>
      match find_first (λ e, starts_with cmd e.1) (r_prefix r) with
      | Some e => run_prefix e w c
      | None => Returns (run_interceptors (r_interceptors r) w c)
      end
  end.

(** ** The built-in commands; [h] gives the handler of a name. *)
Definition register_builtin_commands (h : string → Handler) (r : CommandRouter) : CommandRouter :=
  let r := priority "/stop" (h "stop") r in
  let r := priority "/restart" (h "restart") r in
  let r := priority "/status" (h "status") r in
  let r := exact_cmd "/new" (h "new") r in
  let r := exact_cmd "/status" (h "status") r in
  let r := exact_cmd "/model" (h "model") r in
  let r := prefix "/model " (h "model") r in
  let r := exact_cmd "/history" (h "history") r in
  let r := prefix "/history " (h "history") r in
  let r := exact_cmd "/goal" (h "goal") r in
  let r := prefix "/goal " (h "goal") r in
  let r := exact_cmd "/dream" (h "dream") r in
  let r := exact_cmd "/dream-log" (h "dream-log") r in
  let r := prefix "/dream-log " (h "dream-log") r in
  let r := exact_cmd "/dream-restore" (h "dream-restore") r in
  let r := prefix "/dream-restore " (h "dream-restore") r in
  let r := exact_cmd "/help" (h "help") r in
  let r := exact_cmd "/pairing" (h "pairing") r in
  prefix "/pairing " (h "pairing") r.

(** ** Reference: registrations in order *)

Inductive Registration :=
| RegPriority (cmd : string) (h : Handler)
| RegExact (cmd : string) (h : Handler)
| RegPrefix (pfx : string) (h : Handler)
| RegIntercept (h : Handler).

Definition add_reg (r : CommandRouter) (g : Registration) : CommandRouter :=
  match g with
  | RegPriority c h => priority c h r
  | RegExact c h => exact_cmd c h r
  | RegPrefix p h => prefix p h r
  | RegIntercept h => intercept h r
  end.

Definition router_of (regs : list Registration) : CommandRouter := foldl add_reg router_new regs.

(** The latest registration of an exact command. *)
Definition last_exact (cmd : string) (regs : list Registration) : option Handler :=
  last (omap (λ g, match g with
                   | RegExact c h => if String.eqb c cmd then Some h else None
                   | _ => None
                   end) regs).

(** The longest prefix of [cmd] registered; of equal ones the first. *)
Definition longer (cmd : string) (best : option (string * Handler)) (e : string * Handler)
    : option (string * Handler) :=
  if starts_with cmd e.1 then
    match best with
    | Some b => if String.length b.1 <? String.length e.1 then Some e else best
    | None => Some e
    end
  else best.

Definition prefixes_of (regs : list Registration) : list (string * Handler) :=
  omap (λ g, match g with RegPrefix p h => Some (p, h) | _ => None end) regs.

Definition longest_prefix (cmd : string) (regs : list Registration) : option (string * Handler) :=
  foldl (longer cmd) None (prefixes_of regs).

Definition interceptors_of (regs : list Registration) : list Handler :=
  omap (λ g, match g with RegIntercept h => Some h | _ => None end) regs.

Definition dispatch_spec (regs : list Registration) (w : W) (c : CommandContext)
    : run (W * CommandContext * option OutboundMessage) :=
  let cmd := lower (c_raw c) in
  match last_exact cmd regs with
  | Some h => Returns (h w c)
  | None =>
      match longest_prefix cmd regs with
      | Some e => run_prefix e w c
      | None => Returns (run_interceptors (interceptors_of regs) w c)
      end
  end.

(** *** The prefix table *)

Definition descending : list (string * Handler) → Prop :=
  StronglySorted (λ x y, String.length y.1 <= String.length x.1).

(** Where a new prefix lands in a sorted table: after those at least as long. *)
Fixpoint place (e : string * Handler) (l : list (string * Handler)) : list (string * Handler) :=
  match l with
  | [] => [e]
  | x :: l' => if String.length e.1 <=? String.length x.1 then x :: place e l' else e :: l
  end.

Lemma insert_desc_head x l : descending (x :: l) → insert_desc x l = x :: l.
Proof.
  intros [Hs Hall]%StronglySorted_inv. destruct l as [|y l]; [done|]. simpl.
  apply Forall_cons in Hall as [Hy _]. by apply Nat.leb_le in Hy as ->.
Qed.

Lemma place_descending e l : descending l → descending (place e l).
Proof.
  induction l as [|x l IH]; intros Hs; simpl; [repeat constructor|].
  pose proof (StronglySorted_inv Hs) as [Hl Hx]. destruct (Nat.leb_spec (String.length e.1) (String.length x.1)).
  - constructor; [by apply IH|]. clear IH Hs Hl. induction l as [|y l IHl]; simpl; [by repeat constructor|].
    apply Forall_cons in Hx as [Hy Hx]. destruct (_ <=? _); repeat constructor; auto.
  - constructor; [done|]. constructor; [lia|]. eapply Forall_impl; [done|]. simpl. lia.
Qed.

Lemma sort_snoc l e : descending l → sort_desc (l ++ [e]) = place e l.
Proof.
  unfold sort_desc. rewrite foldr_app. cbn [foldr insert_desc].
  induction l as [|x l IH]; intros Hs; [done|]. cbn [foldr place].
  pose proof (StronglySorted_inv Hs) as [Hl Hx]. rewrite IH by done.
  destruct (Nat.leb_spec (String.length e.1) (String.length x.1)).
  - apply insert_desc_head. pose proof (place_descending e (x :: l) Hs) as H'. simpl in H'.
    apply Nat.leb_le in H. by rewrite H in H'.
  - destruct l as [|y l]; cbn [place insert_desc].
    + by apply Nat.leb_gt in H as ->.
    + apply Forall_cons in Hx as [Hy _].
      assert ((String.length e.1 <=? String.length y.1) = false) as -> by (apply Nat.leb_gt; lia).
      cbn [insert_desc]. apply Nat.leb_gt in H as ->. by apply Nat.leb_le in Hy as ->.
Qed.

Lemma find_place cmd e l :
  descending l →
  find_first (λ x, starts_with cmd x.1) (place e l) =
  longer cmd (find_first (λ x, starts_with cmd x.1) l) e.
Proof.
  unfold longer. induction l as [|x l IH]; intros Hs; cbn [place find_first]; [by destruct (starts_with cmd e.1)|].
  pose proof (StronglySorted_inv Hs) as [Hl Hx].
  destruct (Nat.leb_spec (String.length e.1) (String.length x.1)) as [Hle|Hlt]; cbn [find_first].
  - destruct (starts_with cmd x.1).
    + destruct (starts_with cmd e.1); [|done]. by apply Nat.ltb_ge in Hle as ->.
    + by apply IH.
  - destruct (starts_with cmd e.1); [|done]. destruct (starts_with cmd x.1).
    + by apply Nat.ltb_lt in Hlt as ->.
    + destruct (find_first _ l) as [b|] eqn:E; [|done].
      apply find_first_Some in E as [Hb _]. rewrite Forall_forall in Hx. specialize (Hx b Hb).
      assert ((String.length b.1 <? String.length e.1) = true) as -> by (apply Nat.ltb_lt; lia). done.
Qed.

(** The table of any registrations. *)
Lemma router_of_spec regs :
  let r := router_of regs in
  (∀ cmd, r_exact r !! cmd = last_exact cmd regs) ∧ descending (r_prefix r) ∧
  (∀ cmd, find_first (λ x, starts_with cmd x.1) (r_prefix r) = longest_prefix cmd regs) ∧
  r_interceptors r = interceptors_of regs.
Proof.
  unfold router_of, longest_prefix, interceptors_of, prefixes_of, last_exact.
  induction regs as [|g regs (He & Hs & Hp & Hi)] using rev_ind.
  { split_and!; [done|constructor|done..]. }
  rewrite foldl_app. cbn [foldl]. split_and!; [intros cmd|..|intros cmd|]; rewrite ?omap_app.
  - destruct g as [c h|c h|p h|h]; simpl; rewrite ?app_nil_r; [apply He| |apply He..].
    destruct (String.eqb_spec c cmd) as [->|Hne]; [by rewrite lookup_insert_eq, last_snoc|].
    by rewrite lookup_insert_ne, app_nil_r.
  - destruct g; simpl; [done..| |done]. rewrite sort_snoc by done. by apply place_descending.
  - destruct g as [c h|c h|p h|h]; simpl; rewrite ?app_nil_r; [apply Hp..| |apply Hp].
    rewrite sort_snoc, foldl_app by done. simpl. by rewrite find_place, Hp.
  - destruct g; simpl; rewrite ?app_nil_r; by rewrite Hi.
Qed.

(** Whatever was registered in whatever order, a command is handled by the latest handler
    registered for it exactly; otherwise by the first handler of the longest registered
    prefix, with the rest of the original text as arguments; otherwise by the first
    interceptor that answers. *)
Theorem dispatch_refines (regs : list Registration) (w : W) (c : CommandContext) :
  dispatch (router_of regs) w c = dispatch_spec regs w c.
Proof.
  unfold dispatch, dispatch_spec. destruct (router_of_spec regs) as (He & _ & Hp & Hi).
  by rewrite He, Hp, Hi.
Qed.

(** A text without surrounding white space is dispatchable exactly if [dispatch] takes one of
    the first two tiers. *)
Lemma dispatchable_tiers r text :
  trim text = text →
  is_dispatchable_command r text = true ↔
    is_some (r_exact r !! lower text) = true ∨
    is_some (find_first (λ e, starts_with (lower text) e.1) (r_prefix r)) = true.
Proof.
  intros Ht. unfold is_dispatchable_command, normalize. rewrite Ht.
  destruct (is_some (r_exact r !! lower text)); [by split; auto|].
  induction (r_prefix r) as [|e l IH]; simpl; [by split; auto; intros [|]|].
  destruct (starts_with (lower text) e.1); simpl; [by split; auto|]. done.
Qed.
End Router.

Arguments CommandContext : clear implicits.
Arguments Handler : clear implicits.
Arguments CommandRouter : clear implicits.

(** ** Concrete commands *)

(** A handler that answers with its name and the arguments it was given. *)
Definition naming (name : string) : Handler unit unit unit :=
  λ w c, (w, c, Some (mkOutbound (in_channel (c_msg c)) (in_chat_id (c_msg c)) (name +:+ ":" +:+ c_args c)
                        None [] ∅)).

Definition builtin : CommandRouter unit unit unit := register_builtin_commands naming router_new.

Definition typed (raw : string) : CommandContext unit unit :=
  context_new (mkInbound "cli" "u" "c" raw 0 [] ∅ None) "k" raw.

Definition answered {W S A} (r : run (W * CommandContext S A * option OutboundMessage)) : run (option string) :=
  let! (_, _, out) := r in Returns (out_content <$> out).

(** The longest prefix wins and keeps the case of the arguments. *)
Example builtin_dream_log :
  answered (dispatch to_lowercase builtin tt (typed "/DREAM-log 3FA")) = Returns (Some "dream-log:3FA") ∧
  answered (dispatch to_lowercase builtin tt (typed "/dream")) = Returns (Some "dream:").
Proof. split; reflexivity. Qed.

(** [is_dispatchable_command] ignores surrounding white space and [dispatch] does not: its
    promise that a dispatchable text finds a handler fails. *)
Theorem dispatchable_not_dispatched :
  is_dispatchable_command to_lowercase builtin " /new" = true ∧
  answered (dispatch to_lowercase builtin tt (typed " /new")) = Returns None.
Proof. split; reflexivity. Qed.

(** Lower-casing that also knows U+212A, the Kelvin sign, whose lower case is [k]. *)
Fixpoint lower_kelvin (s : string) : string :=
  match s with
  | String "226" (String "132" (String "170" s')) => String "k" (lower_kelvin s')
  | String c s' => String (lower_char c) (lower_kelvin s')
  | "" => ""
  end.

(** The arguments are cut from the text at the length of its lower-cased prefix: a character
    whose lower case is shorter puts the cut inside a character. *)
Theorem dispatch_panics :
  answered (dispatch lower_kelvin (prefix "/k" (naming "k") router_new) tt
    (typed (String "/" (String "226" (String "132" (String "170" " x")))))) = Panics.
Proof. reflexivity. Qed.
