(* ===== verification/Context.v ===== *)
(** * The agent context

    [crates/agent/src/context/]: the state container of one agent execution.  Records in nine
    categories, a lifecycle, an audit log, forks for sub-agents and their merge ([core.rs],
    [category.rs], [audit.rs], [response.rs], [merge.rs]), views and snapshots
    ([read_view.rs], [serialize.rs]) and the prompt budget ([prompt.rs]).  An operation reads
    the clock once ([now]).  The locks are implicit: an operation is one step, and no step
    panics with a lock held, so that none is ever poisoned. *)

From S2P Require Import Prelude RustStr F64 Json Provider.

Local Open Scope stdpp_scope.
Local Open Scope hive_scope.

(** ** Categories and records *)

Inductive Category :=
| Entities | Intentions | ToolResults | QueryResults | WorkflowResults | ReasoningResults
| Extensions | StateChanges | SubagentResults.

Definition all_categories : list Category :=
  [Entities; Intentions; ToolResults; QueryResults; WorkflowResults; ReasoningResults;
   Extensions; StateChanges; SubagentResults].

Definition category_name (c : Category) : string :=
  match c with
  | Entities => "Entities"
  | Intentions => "Intentions"
  | ToolResults => "ToolResults"
  | QueryResults => "QueryResults"
  | WorkflowResults => "WorkflowResults"
  | ReasoningResults => "ReasoningResults"
  | Extensions => "Extensions"
  | StateChanges => "StateChanges"
  | SubagentResults => "SubagentResults"
  end.

#[export] Instance Category_eq_dec : EqDecision Category.
Proof. solve_decision. Defined.

#[export] Instance Category_countable : Countable Category.
Proof.
  refine (inj_countable (λ c, position (λ d, bool_decide (c = d)) all_categories)
    (λ o, match o with Some i => all_categories !! i | None => None end) _).
  by intros [].
Defined.

Record RecordEntry := mkEntry {
  e_key : string;
  e_value : json;
  e_source : string;
  e_timestamp : Z;
  e_iteration : nat
}.

Inductive ToolCallStatus := CallSuccess | CallFailure | CallTimeout.
Inductive SkillExecutionStatus := SkillSuccess | SkillFailure | SkillInterrupted | SkillTimeout.

(** ** Audit *)

Record StateChangeLog := mkChange {
  ch_category : Category;
  ch_key : string;
  ch_old : option json;
  ch_new : json;
  ch_source : string;
  ch_iteration : nat;
  ch_at : Z
}.

Inductive AuditRecord :=
| AuditToolCall (name : string) (arguments : json) (res : option json) (status : ToolCallStatus)
    (started : Z) (completed : option Z)
| AuditSkill (name : string) (input : json) (output : option json) (status : SkillExecutionStatus)
    (started : Z) (completed : option Z)
| AuditChange (log : StateChangeLog)
| AuditDelegation (subagent chain : string) (input : json) (output : option json) (success : bool)
    (started : Z) (completed : option Z).

(** ** Responses *)

Inductive ExtensionType := Card | Image | Suggestion | Link | Button | Table | Chart | ObjRef | Usage.

Record ExtensionContent := mkExtension {
  x_id : string;
  x_type : ExtensionType;
  x_reply : option json;
  x_data : json;
  x_hints : gmap string string
}.

Record ObjectRef := mkObjectRef {
  o_type : string;
  o_id : string;
  o_name : string;
  o_metadata : gmap string string
}.

Record ResponsePayload := mkPayload {
  p_text : string;
  p_extensions : list ExtensionContent;
  p_refs : list ObjectRef;
  p_suggestions : list string
}.

(** ** The context *)

Inductive LifecycleState := Active | Completed | Terminated | Merging.

#[export] Instance LifecycleState_eq_dec : EqDecision LifecycleState.
Proof. solve_decision. Defined.

Definition is_valid_transition (from to : LifecycleState) : bool :=
  match from, to with
  | Active, Completed | Active, Terminated | Active, Merging | Merging, Active | Merging, Completed => true
  | _, _ => false
  end.

Inductive ContextError :=
| CategoryNotFound (c : Category)
| BlacklistedCategoryWrite (c : Category) (subagent : string)
| IllegalStateTransition (from to : LifecycleState)
| MergeFailed (state : LifecycleState)
| RejectedSensitiveData (field : string) (in_value : bool)
| InvalidBlacklist (c : Category)
| SchemaVersionMismatch (expected found : string)
| JsonFailed.

Record UserInput := mkInput {
  raw_text : string;
  session_id : option string;
  message_id : option string;
  input_timestamp : Z;
  input_metadata : gmap string string
}.

Record ContextConfig := mkConfig {
  soft_limit : nat;
  max_prompt_tokens : Z;
  token_estimation_mode : string;
  debug_mode : bool;
  schema_version : string
}.

Definition default_config : ContextConfig := mkConfig 100 8000%Z "chars" false "v1".

Record CategoryStore := mkStore {
  s_records : list RecordEntry;
  s_limit : nat;
  s_warned : bool
}.

Record AgentContext := mkCtx {
  context_id : string;
  user_input : UserInput;
  categories : gmap Category CategoryStore;
  extensions : gmap string ExtensionContent;
  audit_log : list AuditRecord;
  response_payload : option ResponsePayload;
  lifecycle_state : LifecycleState;
  created_at : Z;
  ctx_metadata : gmap string string;
  ctx_messages : list json;
  config : ContextConfig;
  blacklisted_categories : option (list Category);
  subagent_id : option string;
  delegation_chain : string
}.

Definition context_init (id : string) (input : UserInput) (cfg : ContextConfig) (now : Z) : AgentContext :=
  mkCtx id input (list_to_map ((λ c, (c, mkStore [] (soft_limit cfg) false)) <$> all_categories))
    ∅ [] None Active now ∅ [] cfg None None "".

(** Field updates. *)
Definition with_categories (cs : gmap Category CategoryStore) (c : AgentContext) : AgentContext :=
  mkCtx (context_id c) (user_input c) cs (extensions c) (audit_log c) (response_payload c)
    (lifecycle_state c) (created_at c) (ctx_metadata c) (ctx_messages c) (config c)
    (blacklisted_categories c) (subagent_id c) (delegation_chain c).

Definition with_extensions (xs : gmap string ExtensionContent) (c : AgentContext) : AgentContext :=
  mkCtx (context_id c) (user_input c) (categories c) xs (audit_log c) (response_payload c)
    (lifecycle_state c) (created_at c) (ctx_metadata c) (ctx_messages c) (config c)
    (blacklisted_categories c) (subagent_id c) (delegation_chain c).

Definition with_audit (log : list AuditRecord) (c : AgentContext) : AgentContext :=
  mkCtx (context_id c) (user_input c) (categories c) (extensions c) log (response_payload c)
    (lifecycle_state c) (created_at c) (ctx_metadata c) (ctx_messages c) (config c)
    (blacklisted_categories c) (subagent_id c) (delegation_chain c).

Definition with_response (p : option ResponsePayload) (c : AgentContext) : AgentContext :=
  mkCtx (context_id c) (user_input c) (categories c) (extensions c) (audit_log c) p
    (lifecycle_state c) (created_at c) (ctx_metadata c) (ctx_messages c) (config c)
    (blacklisted_categories c) (subagent_id c) (delegation_chain c).

Definition with_lifecycle (s : LifecycleState) (c : AgentContext) : AgentContext :=
  mkCtx (context_id c) (user_input c) (categories c) (extensions c) (audit_log c) (response_payload c)
    s (created_at c) (ctx_metadata c) (ctx_messages c) (config c)
    (blacklisted_categories c) (subagent_id c) (delegation_chain c).

Definition with_metadata (m : gmap string string) (c : AgentContext) : AgentContext :=
  mkCtx (context_id c) (user_input c) (categories c) (extensions c) (audit_log c) (response_payload c)
    (lifecycle_state c) (created_at c) m (ctx_messages c) (config c)
    (blacklisted_categories c) (subagent_id c) (delegation_chain c).

Definition with_ctx_messages (m : list json) (c : AgentContext) : AgentContext :=
  mkCtx (context_id c) (user_input c) (categories c) (extensions c) (audit_log c) (response_payload c)
    (lifecycle_state c) (created_at c) (ctx_metadata c) m (config c)
    (blacklisted_categories c) (subagent_id c) (delegation_chain c).

Definition as_subagent (chain id : string) (blacklist : list Category) (c : AgentContext) : AgentContext :=
  mkCtx (context_id c) (user_input c) (categories c) (extensions c) (audit_log c) (response_payload c)
    (lifecycle_state c) (created_at c) (ctx_metadata c) (ctx_messages c) (config c)
    (Some blacklist) (Some id) chain.

(** ** Guards *)

Definition SENSITIVE_FIELD_PATTERNS : list string :=
  ["api_key"; "token"; "password"; "secret"; "credential"; "authorization"; "private_key"].

Definition is_sensitive_key (key : string) : bool :=
  existsb (contains_str (to_lowercase key)) SENSITIVE_FIELD_PATTERNS.

Definition is_sensitive_value (value : json) : bool :=
  match value with JObj m => existsb is_sensitive_key m.*1 | _ => false end.

Definition check_write_allowed (c : AgentContext) : result unit ContextError :=
  match lifecycle_state c with
  | Active | Merging => Ok tt
  | s => Err (IllegalStateTransition s Active)
  end.

Definition check_blacklist (c : AgentContext) (cat : Category) : result unit ContextError :=
  match blacklisted_categories c, subagent_id c with
  | Some bl, Some id => if bool_decide (cat ∈ bl) then Err (BlacklistedCategoryWrite cat id) else Ok tt
  | _, _ => Ok tt
  end.

Definition check_sensitive_data (key : string) (value : json) : result unit ContextError :=
  if is_sensitive_key key then Err (RejectedSensitiveData key false)
  else if is_sensitive_value value then Err (RejectedSensitiveData key true)
  else Ok tt.

(** ** Reading *)

Definition get_category (c : AgentContext) (cat : Category) : result (list RecordEntry) ContextError :=
  match categories c !! cat with
  | Some s => Ok (s_records s)
  | None => Err (CategoryNotFound cat)
  end.

Definition has_key (key : string) (e : RecordEntry) : bool := String.eqb (e_key e) key.

Definition get_record (c : AgentContext) (cat : Category) (key : string)
    : result (option RecordEntry) ContextError :=
  let? rs := get_category c cat in Ok (find_first (has_key key) rs).

Definition get_state_changes (c : AgentContext) : list StateChangeLog :=
  omap (λ r, match r with AuditChange log => Some log | _ => None end) (audit_log c).

(** ** Writing *)

(** The warning is given once per store. *)
Definition note_limit (s : CategoryStore) : bool := s_warned s || (s_limit s <=? length (s_records s)).

(** The first entry with the key is overwritten. *)
Fixpoint overwrite (e : RecordEntry) (rs : list RecordEntry) : option (list RecordEntry) :=
  match rs with
  | [] => None
  | r :: rs => if has_key (e_key e) r then Some (e :: rs) else cons r <$> overwrite e rs
  end.

Definition upsert (e : RecordEntry) (rs : list RecordEntry) : list RecordEntry :=
  default (rs ++ [e]) (overwrite e rs).

Definition set_record (now : Z) (c : AgentContext) (cat : Category) (key : string) (value : json)
    (source : string) (iteration : nat) : result AgentContext ContextError :=
  let? _ := check_write_allowed c in
  let? _ := check_blacklist c cat in
  let? _ := check_sensitive_data key value in
  match categories c !! cat with
  | None => Err (CategoryNotFound cat)
  | Some s =>
      let log := match find_first (has_key key) (s_records s) with
                 | Some old => [AuditChange (mkChange cat key (Some (e_value old)) value source iteration now)]
                 | None => []
                 end in
      let s' := mkStore (upsert (mkEntry key value source now iteration) (s_records s)) (s_limit s)
                  (note_limit s) in
      Ok (with_audit (audit_log c ++ log) (with_categories (<[cat := s']> (categories c)) c))
  end.

Definition append_record (now : Z) (c : AgentContext) (cat : Category) (key : string) (value : json)
    (source : string) (iteration : nat) : result AgentContext ContextError :=
  let? _ := check_write_allowed c in
  let? _ := check_blacklist c cat in
  let? _ := check_sensitive_data key value in
  match categories c !! cat with
  | None => Err (CategoryNotFound cat)
  | Some s =>
      let s' := mkStore (s_records s ++ [mkEntry key value source now iteration]) (s_limit s) (note_limit s) in
      Ok (with_categories (<[cat := s']> (categories c)) c)
  end.

Definition add_extension (c : AgentContext) (id : string) (x : ExtensionContent)
    : result AgentContext ContextError :=
  let? _ := check_write_allowed c in Ok (with_extensions (<[id := x]> (extensions c)) c).

Definition set_lifecycle_state (c : AgentContext) (target : LifecycleState)
    : result AgentContext ContextError :=
  if is_valid_transition (lifecycle_state c) target then Ok (with_lifecycle target c)
  else Err (IllegalStateTransition (lifecycle_state c) target).

Definition set_response_payload (c : AgentContext) (p : ResponsePayload) : result AgentContext ContextError :=
  let? _ := check_write_allowed c in Ok (with_response (Some p) c).

Definition set_metadata (c : AgentContext) (k v : string) : result AgentContext ContextError :=
  Ok (with_metadata (<[k := v]> (ctx_metadata c)) c).

Definition set_messages (c : AgentContext) (m : list json) : result AgentContext ContextError :=
  Ok (with_ctx_messages m c).

(** [record_tool_call], [record_skill_execution] and [record_delegation] are this with their
    record. *)
Definition record_audit (c : AgentContext) (r : AuditRecord) : result AgentContext ContextError :=
  let? _ := check_write_allowed c in Ok (with_audit (audit_log c ++ [r]) c).

(** [let _ = ...]: a refused write changes nothing. *)
Definition attempt_write (c : AgentContext) (r : result AgentContext ContextError) : AgentContext :=
  match r with Ok c' => c' | Err _ => c end.

(** ** Sub-agents *)

Record SubagentContext := mkSub {
  sub_context : AgentContext;
  sub_id : string;
  sub_blacklist : list Category;
  sub_chain : string
}.

Definition copy_records (now : Z) (parent : string) (cat : Category) (rs : list RecordEntry) (c : AgentContext)
    : AgentContext :=
  foldl (λ c r, attempt_write c (set_record now c cat (e_key r) (e_value r)
                                   ("fork-from-parent-" +:+ parent) (e_iteration r))) c rs.

Definition copy_category (now : Z) (parent : AgentContext) (c : AgentContext) (cat : Category) : AgentContext :=
  match get_category parent cat with
  | Ok rs => copy_records now (context_id parent) cat rs c
  | Err _ => c
  end.

Definition extend_chain (chain id : string) : string :=
  if is_empty chain then id +:+ "/" else chain +:+ id +:+ "/".

Definition fork_for_subagent (now : Z) (c : AgentContext) (id : string) (blacklist : list Category)
    : result SubagentContext ContextError :=
  if bool_decide (SubagentResults ∈ blacklist) then Err (InvalidBlacklist SubagentResults)
  else
    let chain := extend_chain (delegation_chain c) id in
    let child := context_init (context_id c +:+ "-fork") (user_input c) (config c) now in
    let child := foldl (copy_category now c) child all_categories in
    Ok (mkSub (as_subagent chain id blacklist child) id blacklist chain).

Definition merged_categories : list Category :=
  [Entities; Intentions; ToolResults; QueryResults; WorkflowResults; ReasoningResults; SubagentResults].

(** The key a record of a sub-agent gets in the parent. *)
Definition namespaced_key (sub : SubagentContext) (cat : Category) (conflict : bool) (key : string) : string :=
  if conflict then sub_chain sub +:+ category_name cat +:+ "/" +:+ key +:+ "/" +:+ sub_id sub
  else sub_chain sub +:+ key.

Definition parent_has (c : AgentContext) (cat : Category) (key : string) : bool :=
  match get_record c cat key with Ok (Some _) => true | _ => false end.

Definition merge_record (now : Z) (sub : SubagentContext) (cat : Category) (c : AgentContext) (r : RecordEntry)
    : AgentContext :=
  attempt_write c (set_record now c cat (namespaced_key sub cat (parent_has c cat (e_key r)) (e_key r))
                     (e_value r) ("subagent-" +:+ sub_id sub) (e_iteration r)).

Definition merge_category (now : Z) (sub : SubagentContext) (c : AgentContext) (cat : Category) : AgentContext :=
  match get_category (sub_context sub) cat with
  | Ok rs => foldl (merge_record now sub cat) c rs
  | Err _ => c
  end.

(** The loop over the sub-agent's audit log has no body. *)
Definition merge_subagent_context (now : Z) (c : AgentContext) (sub : SubagentContext)
    : result AgentContext ContextError :=
  match lifecycle_state c with
  | Active | Merging => Ok (foldl (merge_category now sub) c merged_categories)
  | s => Err (MergeFailed s)
  end.

(** ** Views and snapshots *)

Record ReadView := mkView {
  v_input : UserInput;
  v_categories : gmap Category (list RecordEntry);
  v_extensions : gmap string ExtensionContent;
  v_lifecycle : LifecycleState
}.

Definition read_view (c : AgentContext) : ReadView :=
  mkView (user_input c) (s_records <$> categories c) (extensions c) (lifecycle_state c).

Definition view_get_record (v : ReadView) (cat : Category) (key : string) : option RecordEntry :=
  rs ← v_categories v !! cat; find_first (has_key key) rs.

Record ContextSnapshot := mkSnapshot {
  sn_schema_version : string;
  sn_context_id : string;
  sn_user_input : UserInput;
  sn_categories : gmap Category (list RecordEntry);
  sn_extensions : list (string * ExtensionContent);
  sn_audit_log : list AuditRecord;
  sn_response_payload : option ResponsePayload;
  sn_lifecycle_state : LifecycleState;
  sn_created_at : Z;
  sn_snapshot_at : Z;
  sn_metadata : gmap string string;
  sn_blacklisted : option (list Category);
  sn_subagent_id : option string;
  sn_delegation_chain : string
}.

(** [iter] is the order in which the map of extensions is walked. *)
Definition snapshot (iter : gmap string ExtensionContent → list (string * ExtensionContent)) (now : Z)
    (c : AgentContext) : ContextSnapshot :=
  mkSnapshot (schema_version (config c)) (context_id c) (user_input c) (s_records <$> categories c)
    (iter (extensions c)) (audit_log c) (response_payload c) (lifecycle_state c) (created_at c) now
    (ctx_metadata c) (blacklisted_categories c) (subagent_id c) (delegation_chain c).

Definition restore_category (now : Z) (c : AgentContext) (entry : Category * list RecordEntry) : AgentContext :=
  foldl (λ c r, attempt_write c (set_record now c entry.1 (e_key r) (e_value r) (e_source r) (e_iteration r)))
    c entry.2.

(** [walk] is the order in which the categories of the snapshot are walked. *)
Definition restore (walk : gmap Category (list RecordEntry) → list (Category * list RecordEntry)) (now : Z)
    (sn : ContextSnapshot) (expected : string) : result AgentContext ContextError :=
  if negb (String.eqb (sn_schema_version sn) expected) then
    Err (SchemaVersionMismatch expected (sn_schema_version sn))
  else
    let cfg := mkConfig (soft_limit default_config) (max_prompt_tokens default_config)
                 (token_estimation_mode default_config) (debug_mode default_config) (sn_schema_version sn) in
    let c := context_init (sn_context_id sn) (sn_user_input sn) cfg now in
    let c := foldl (restore_category now) c (walk (sn_categories sn)) in
    let c := with_extensions (foldl (λ m kv, <[kv.1 := kv.2]> m) (extensions c) (sn_extensions sn)) c in
    let c := with_audit (sn_audit_log sn) c in
    let c := match sn_response_payload sn with Some p => with_response (Some p) c | None => c end in
    Ok (with_metadata (sn_metadata sn) (with_lifecycle (sn_lifecycle_state sn) c)).

(** ** The prompt budget *)

Definition prompt_estimate_tokens (text : string) : nat := (chars_count text + 3) / 4.

Record PromptData := mkPrompt {
  pd_user_input : string;
  pd_reasoning : option string;
  pd_tool_results : option string;
  pd_entities : option string;
  pd_history : option string;
  pd_tokens : nat;
  pd_truncated : bool
}.

Section Prompt.
(** The compact JSON text of one record; a list is its records between brackets. *)
Variable record_json : RecordEntry → string.

Definition records_json (rs : list RecordEntry) : string :=
  "[" +:+ join "," (record_json <$> rs) +:+ "]".

(** Records from the newest until the limit; [limit] is an unsigned difference that wraps. *)
Fixpoint take_records (limit : Z) (acc : string) (rs : list RecordEntry) : string :=
  match rs with
  | [] => acc
  | r :: rs =>
      let text := record_json r in
      if (limit <? Z.of_nat (chars_count acc + chars_count text + 3))%Z then acc
      else take_records limit ((if is_empty acc then acc else acc +:+ ", ") +:+ text) rs
  end.

Definition format_records (rs : list RecordEntry) (max_chars : nat) : string * bool :=
  match rs with
  | [] => ("", false)
  | _ =>
      let full := records_json rs in
      if chars_count full <=? max_chars then (full, false)
      else
        let acc := take_records (wrap_u64 (Z.of_nat max_chars - 14)) "" (reverse rs) in
        ("[truncated] [" +:+ acc +:+ "]", true)
  end.

Definition nonempty_text (s : string) : option string := if is_empty s then None else Some s.

(** One section: its text, whether it was cut, and the budget left. *)
Definition prompt_section (c : AgentContext) (cat : Category) (remaining : nat)
    : result (option string * bool * nat) ContextError :=
  let? rs := get_category c cat in
  match rs with
  | [] => Ok (None, false, remaining)
  | _ =>
      let '(text, cut) := format_records rs (remaining * 4) in
      Ok (nonempty_text text, cut, remaining - prompt_estimate_tokens text)
  end.

Definition opt_tokens (o : option string) : nat :=
  match o with Some s => prompt_estimate_tokens s | None => 0 end.

Definition build_prompt_budget (c : AgentContext) (max_tokens : nat) : result PromptData ContextError :=
  let input := raw_text (user_input c) in
  let user_tokens := prompt_estimate_tokens input in
  let? (reasoning, t1, left1) := prompt_section c ReasoningResults (max_tokens - user_tokens) in
  let? (tools, t2, left2) := prompt_section c ToolResults left1 in
  let? (entities, t3, left3) := prompt_section c Entities left2 in
  let? (history, t4, _) := prompt_section c StateChanges left3 in
  Ok (mkPrompt input reasoning tools entities history
        (user_tokens + opt_tokens reasoning + opt_tokens tools + opt_tokens entities + opt_tokens history)
        (t1 || t2 || t3 || t4)).
End Prompt.

(** ** The hook that records a run *)

Definition before_llm_call (now : Z) (c : AgentContext) (iteration : nat) : AgentContext :=
  attempt_write c (set_record now c ReasoningResults "llm_call_iteration"
    (JObj [("iteration", JInt (Z.of_nat iteration)); ("phase", JStr "before_call")])
    "AgentContextSyncHook" iteration).

Definition after_tool_execution (now : Z) (c : AgentContext) (name : string) (arguments res : json)
    (success : bool) (iteration : nat) : AgentContext :=
  let c := attempt_write c (set_record now c ToolResults name res name iteration) in
  attempt_write c (record_audit c (AuditToolCall name arguments (Some res)
    (if success then CallSuccess else CallFailure) now (Some now))).

Definition after_iteration (now : Z) (c : AgentContext) (iteration : nat) (is_final : bool) : AgentContext :=
  let c := attempt_write c (set_record now c StateChanges "iteration_complete"
    (JObj [("is_final", JBool is_final); ("iteration", JInt (Z.of_nat iteration))])
    "AgentContextSyncHook" iteration) in
  if is_final then attempt_write c (set_lifecycle_state c Completed) else c.

(** [AgentHook::after_iteration] for a turn with its calls and results. *)
Definition hook_after_iteration (now : Z) (c : AgentContext) (iteration : nat) (stop_reason error : option string)
    (calls : list ToolCallRequest) (results : list json) : AgentContext :=
  let c := foldl (λ c tc,
    match find_first (λ r, match get_str "tool_call_id" r with Some i => String.eqb i (tc_id tc) | None => false end)
            results with
    | Some r => after_tool_execution now c (tc_name tc) (JObj (tc_arguments tc)) r true iteration
    | None => c
    end) c calls in
  after_iteration now c iteration
    (match stop_reason, error with None, None => false | _, _ => true end).
