(* ===== verification/ContextProps.v ===== *)
(** * The agent context: theorems

    What writes do and what they never do: the frame of a record, contexts that are over,
    sensitive data, sub-agents, snapshots and the prompt budget. *)

From S2P Require Import Prelude RustStr F64 Json Provider Context.

Local Open Scope stdpp_scope.
Local Open Scope hive_scope.

(** Injectivity without simplifying the values. *)
Lemma Ok_inj {A E} (a b : A) : @Ok A E a = Ok b → a = b.
Proof. by intros [= ->]. Qed.

(** ** Records *)

Lemma upsert_find e rs : find_first (has_key (e_key e)) (upsert e rs) = Some e.
Proof.
  unfold upsert. assert (has_key (e_key e) e = true) as He by apply String.eqb_refl.
  induction rs as [|r rs IH]; simpl; [by rewrite He|].
  destruct (has_key (e_key e) r) eqn:E; simpl; [by rewrite He|].
  destruct (overwrite e rs); simpl in *; by rewrite E.
Qed.

Lemma upsert_find_ne e rs k :
  k ≠ e_key e → find_first (has_key k) (upsert e rs) = find_first (has_key k) rs.
Proof.
  intros Hk. unfold upsert.
  assert (has_key k e = false) as He by (apply String.eqb_neq; congruence).
  induction rs as [|r rs IH]; simpl; [by rewrite He|].
  destruct (has_key (e_key e) r) eqn:E; simpl.
  - apply String.eqb_eq in E. assert (has_key k r = false) as Hr.
    { apply String.eqb_neq. congruence. }
    by rewrite He, Hr.
  - destruct (overwrite e rs); simpl in *; destruct (has_key k r); auto.
Qed.

Lemma upsert_elem e rs x : x ∈ upsert e rs → x = e ∨ x ∈ rs.
Proof.
  unfold upsert. induction rs as [|r rs IH]; simpl; [set_solver|].
  destruct (has_key (e_key e) r); simpl; [set_solver|].
  destruct (overwrite e rs); simpl in *; set_solver.
Qed.

Lemma overwrite_keys e rs rs' : overwrite e rs = Some rs' → e_key <$> rs' = e_key <$> rs.
Proof.
  revert rs'. induction rs as [|r rs IH]; intros rs'; simpl; [done|].
  destruct (has_key (e_key e) r) eqn:E.
  - intros [= <-]. apply String.eqb_eq in E. csimpl. by rewrite E.
  - destruct (overwrite e rs) as [l|]; simpl; [|done]. intros [= <-]. csimpl. f_equal. by apply IH.
Qed.

Lemma overwrite_fresh e rs : overwrite e rs = None ↔ e_key e ∉ e_key <$> rs.
Proof.
  induction rs as [|r rs IH]; simpl; [set_solver|].
  unfold has_key. destruct (String.eqb_spec (e_key r) (e_key e)) as [->|Hne]; [set_solver|].
  rewrite not_elem_of_cons, <-IH. destruct (overwrite e rs); simpl; naive_solver.
Qed.

Lemma upsert_keys e rs :
  e_key <$> upsert e rs = if decide (e_key e ∈ e_key <$> rs) then e_key <$> rs else (e_key <$> rs) ++ [e_key e].
Proof.
  unfold upsert. destruct (overwrite e rs) as [l|] eqn:E; simpl.
  - rewrite (overwrite_keys _ _ _ E). rewrite decide_True; [done|].
    apply dec_stable. rewrite <-overwrite_fresh. congruence.
  - apply overwrite_fresh in E. by rewrite decide_False, fmap_app.
Qed.

(** An accepted write: the guards passed, and what changed. *)
Lemma set_record_ok now c cat key value source iteration c' :
  set_record now c cat key value source iteration = Ok c' →
  check_write_allowed c = Ok tt ∧ check_blacklist c cat = Ok tt ∧ check_sensitive_data key value = Ok tt ∧
  ∃ s log, categories c !! cat = Some s ∧
    c' = with_audit (audit_log c ++ log) (with_categories
      (<[cat := mkStore (upsert (mkEntry key value source now iteration) (s_records s)) (s_limit s)
                  (note_limit s)]> (categories c)) c) ∧
    Forall (λ r, ∃ ch, r = AuditChange ch) log.
Proof.
  unfold set_record. destruct (check_write_allowed c) as [[]|]; [|done]. cbn [result_bind].
  destruct (check_blacklist c cat) as [[]|]; [|done]. cbn [result_bind].
  destruct (check_sensitive_data key value) as [[]|]; [|done]. cbn [result_bind].
  destruct (categories c !! cat) as [s|]; [|done]. intros [= <-]. split_and!; [done..|].
  eexists s, _. split_and!; [done..|]. destruct (find_first _ _); repeat constructor. by eexists.
Qed.

(** A write is accepted exactly if the guards pass. *)
Lemma set_record_accepts now c cat key value source iteration s :
  categories c !! cat = Some s → check_write_allowed c = Ok tt → check_blacklist c cat = Ok tt →
  check_sensitive_data key value = Ok tt →
  ∃ c', set_record now c cat key value source iteration = Ok c'.
Proof. intros Hs H1 H2 H3. unfold set_record. rewrite H1, H2, H3. cbn [result_bind]. rewrite Hs. by eexists. Qed.

(** A record written is read back, and no other record changes. *)
Lemma set_record_frame now c cat key value source iteration c' :
  set_record now c cat key value source iteration = Ok c' →
  get_record c' cat key = Ok (Some (mkEntry key value source now iteration)) ∧
  ∀ cat' key', (cat', key') ≠ (cat, key) → get_record c' cat' key' = get_record c cat' key'.
Proof.
  intros (_ & _ & _ & s & log & Hs & -> & _)%set_record_ok. unfold get_record, get_category. simpl. split.
  - rewrite lookup_insert_eq. simpl.
    by rewrite (upsert_find (mkEntry key value source now iteration)).
  - intros cat' key' Hne. destruct (decide (cat' = cat)) as [->|Hc].
    + rewrite lookup_insert_eq, Hs. simpl. f_equal. apply upsert_find_ne. simpl. congruence.
    + by rewrite lookup_insert_ne.
Qed.

(** ** Sequences of operations *)

Inductive CtxOp :=
| OpSet (cat : Category) (key : string) (value : json) (source : string) (iteration : nat)
| OpAppend (cat : Category) (key : string) (value : json) (source : string) (iteration : nat)
| OpExtension (id : string) (x : ExtensionContent)
| OpLifecycle (target : LifecycleState)
| OpResponse (p : ResponsePayload)
| OpMetadata (k v : string)
| OpMessages (m : list json)
| OpAudit (r : AuditRecord)
| OpMerge (sub : SubagentContext).

Definition apply_op (c : AgentContext) (top : Z * CtxOp) : AgentContext :=
  let '(now, op) := top in
  attempt_write c
    match op with
    | OpSet cat key value source iteration => set_record now c cat key value source iteration
    | OpAppend cat key value source iteration => append_record now c cat key value source iteration
    | OpExtension id x => add_extension c id x
    | OpLifecycle target => set_lifecycle_state c target
    | OpResponse p => set_response_payload c p
    | OpMetadata k v => set_metadata c k v
    | OpMessages m => set_messages c m
    | OpAudit r => record_audit c r
    | OpMerge sub => merge_subagent_context now c sub
    end.

Definition apply_ops (c : AgentContext) (ops : list (Z * CtxOp)) : AgentContext := foldl apply_op c ops.

(** *** Contexts that are over *)

Definition is_over (c : AgentContext) : bool :=
  match lifecycle_state c with Completed | Terminated => true | _ => false end.

Definition frozen_part (c : AgentContext) :=
  (categories c, extensions c, audit_log c, response_payload c, lifecycle_state c).

Lemma over_refuses c : is_over c = true → ∃ e, check_write_allowed c = Err e.
Proof. unfold is_over, check_write_allowed. destruct (lifecycle_state c); by eauto. Qed.

Lemma apply_op_frozen c top : is_over c = true → frozen_part (apply_op c top) = frozen_part c.
Proof.
  intros Ho. destruct top as [now op]. pose proof (over_refuses c Ho) as [e He].
  destruct op; simpl; unfold set_record, append_record, add_extension, set_response_payload, record_audit;
    rewrite ?He; try done.
  - unfold set_lifecycle_state. unfold is_over in Ho. by destruct (lifecycle_state c), target.
  - unfold merge_subagent_context. unfold is_over in Ho. by destruct (lifecycle_state c).
Qed.

(** Once a context is completed or terminated nothing of its records, extensions, audit
    log, response or state ever changes, whatever operations follow; in particular no
    operation brings it back. *)
Theorem over_is_frozen (c : AgentContext) (ops : list (Z * CtxOp)) :
  is_over c = true → frozen_part (apply_ops c ops) = frozen_part c.
Proof.
  unfold apply_ops. revert c. induction ops as [|op ops IH]; intros c Ho; [done|]. simpl.
  pose proof (apply_op_frozen c op Ho) as Hf. rewrite IH; [done|].
  unfold is_over in *. injection Hf as _ _ _ _ Hl. by rewrite Hl.
Qed.

(** *** Sensitive data *)

Definition clean (e : RecordEntry) : Prop := check_sensitive_data (e_key e) (e_value e) = Ok tt.

(** No record in any category is sensitive. *)
Definition no_secrets (c : AgentContext) : Prop :=
  ∀ cat s, categories c !! cat = Some s → Forall clean (s_records s).

Lemma init_store id input cfg now cat :
  categories (context_init id input cfg now) !! cat = Some (mkStore [] (soft_limit cfg) false).
Proof. by destruct cat. Qed.

Lemma init_no_secrets id input cfg now : no_secrets (context_init id input cfg now).
Proof. intros cat s. rewrite init_store. intros [= <-]. constructor. Qed.

Lemma set_record_no_secrets now c cat key value source iteration :
  no_secrets c → no_secrets (attempt_write c (set_record now c cat key value source iteration)).
Proof.
  intros Hn. destruct (set_record now c cat key value source iteration) as [c'|] eqn:E; [|done].
  apply set_record_ok in E as (_ & _ & Hs & s & log & Hc & -> & _). intros cat' s'. simpl.
  rewrite lookup_insert_Some. intros [[<- <-]|[_ H]]; [|by apply Hn in H].
  apply Forall_forall. intros e [->|He]%upsert_elem; [done|].
  specialize (Hn cat s Hc). rewrite Forall_forall in Hn. by apply Hn.
Qed.

Lemma append_record_no_secrets now c cat key value source iteration :
  no_secrets c → no_secrets (attempt_write c (append_record now c cat key value source iteration)).
Proof.
  intros Hn. unfold append_record. destruct (check_write_allowed c) as [[]|]; [|done].
  destruct (check_blacklist c cat) as [[]|]; [|done].
  destruct (check_sensitive_data key value) as [[]|] eqn:Hs; [|done]. cbn [result_bind].
  destruct (categories c !! cat) as [s|] eqn:Hc; [|done]. intros cat' s'. simpl.
  rewrite lookup_insert_Some. intros [[<- <-]|[_ H]]; [|by apply Hn in H].
  apply Forall_app. split; [by apply Hn in Hc|by repeat constructor].
Qed.

(** What writes under the sub-agent's prefix preserve, merging preserves. *)
Lemma merge_preserves (P : AgentContext → Prop) now sub c c' :
  (∀ now c cat t value source iteration,
     P c → P (attempt_write c (set_record now c cat (sub_chain sub +:+ t) value source iteration))) →
  P c → merge_subagent_context now c sub = Ok c' → P c'.
Proof.
  intros Hstep Hc. unfold merge_subagent_context. intros Hm.
  assert (P (foldl (merge_category now sub) c merged_categories)) as H.
  { generalize merged_categories as cats. clear Hm. intros cats. revert c Hc.
    induction cats as [|cat cats IH]; intros c Hc; [done|]. simpl. apply IH.
    unfold merge_category. destruct (get_category (sub_context sub) cat) as [rs|]; [|done].
    revert c Hc. induction rs as [|r rs IHr]; intros c Hc; [done|]. simpl. apply IHr.
    unfold merge_record, namespaced_key. destruct (parent_has c cat (e_key r)); by apply Hstep. }
  by destruct (lifecycle_state c); simplify_eq.
Qed.

Lemma apply_op_no_secrets c top : no_secrets c → no_secrets (apply_op c top).
Proof.
  intros Hn. destruct top as [now op]. destruct op; simpl.
  - by apply set_record_no_secrets.
  - by apply append_record_no_secrets.
  - unfold add_extension. by destruct (check_write_allowed c).
  - unfold set_lifecycle_state. by destruct (is_valid_transition _ _).
  - unfold set_response_payload. by destruct (check_write_allowed c).
  - done.
  - done.
  - unfold record_audit. by destruct (check_write_allowed c).
  - destruct (merge_subagent_context now c sub) as [c'|] eqn:E; [|done].
    eapply merge_preserves; [|done|done]. intros. by apply set_record_no_secrets.
Qed.

(** C23: No sequence of operations on a new context, merges of sub-agents included, ever stores
    a record whose key, or a top-level field of whose value, names a credential. *)
Theorem secrets_never_stored (id : string) (input : UserInput) (cfg : ContextConfig) (now : Z)
    (ops : list (Z * CtxOp)) (cat : Category) (e : RecordEntry) (s : CategoryStore) :
  categories (apply_ops (context_init id input cfg now) ops) !! cat = Some s → e ∈ s_records s →
  is_sensitive_key (e_key e) = false ∧ is_sensitive_value (e_value e) = false.
Proof.
  intros Hs He.
  assert (no_secrets (apply_ops (context_init id input cfg now) ops)) as Hn.
  { pose proof (init_no_secrets id input cfg now) as H. revert H. unfold apply_ops.
    generalize (context_init id input cfg now) as c. clear Hs.
    induction ops as [|op ops IH]; intros c H; [done|]. simpl. by apply IH, apply_op_no_secrets. }
  specialize (Hn cat s Hs). rewrite Forall_forall in Hn. specialize (Hn e He).
  unfold clean, check_sensitive_data in Hn. destruct (is_sensitive_key _), (is_sensitive_value _); done.
Qed.

(** ** Copying records *)

Definition copied (now : Z) (src : RecordEntry → string) (r : RecordEntry) : RecordEntry :=
  mkEntry (e_key r) (e_value r) (src r) now (e_iteration r).

Definition write_all (now : Z) (src : RecordEntry → string) (cat : Category) (rs : list RecordEntry)
    (c : AgentContext) : AgentContext :=
  foldl (λ c r, attempt_write c (set_record now c cat (e_key r) (e_value r) (src r) (e_iteration r))) c rs.

Lemma with_categories_twice m1 m2 c : with_categories m1 (with_categories m2 c) = with_categories m1 c.
Proof. done. Qed.

Lemma with_own_audit c : with_audit (audit_log c) c = c.
Proof. by destruct c. Qed.

Lemma with_own_categories c : with_categories (categories c) c = c.
Proof. by destruct c. Qed.

Lemma find_fresh k rs : k ∉ e_key <$> rs → find_first (has_key k) rs = None.
Proof.
  intros Hk. apply find_first_None. intros x Hx. apply String.eqb_neq. intros <-. apply Hk.
  by apply list_elem_of_fmap_2.
Qed.

(** A fresh clean key is appended and nothing is logged. *)
Lemma set_fresh now c cat key value source iteration s :
  categories c !! cat = Some s → check_write_allowed c = Ok tt → check_blacklist c cat = Ok tt →
  check_sensitive_data key value = Ok tt → key ∉ e_key <$> s_records s →
  set_record now c cat key value source iteration =
  Ok (with_categories (<[cat := mkStore (s_records s ++ [mkEntry key value source now iteration])
                           (s_limit s) (note_limit s)]> (categories c)) c).
Proof.
  intros Hs H1 H2 H3 Hk. unfold set_record. rewrite H1, H2, H3. cbn [result_bind]. rewrite Hs, find_fresh by done.
  unfold upsert. rewrite (proj2 (overwrite_fresh (mkEntry key value source now iteration) _)) by done.
  by rewrite app_nil_r.
Qed.

Lemma write_all_spec now src cat rs c s :
  categories c !! cat = Some s → check_write_allowed c = Ok tt → check_blacklist c cat = Ok tt →
  Forall clean rs → NoDup ((e_key <$> s_records s) ++ (e_key <$> rs)) →
  ∃ w, write_all now src cat rs c =
    with_categories (<[cat := mkStore (s_records s ++ (copied now src <$> rs)) (s_limit s) w]> (categories c)) c.
Proof.
  revert c s. induction rs as [|r rs IH]; intros c s Hs H1 H2 Hcl Hnd.
  { exists (s_warned s). simpl. rewrite app_nil_r. destruct s. simpl.
    rewrite insert_id by done. by rewrite with_own_categories. }
  apply Forall_cons in Hcl as [Hr Hcl]. csimpl in Hnd.
  cbn [write_all foldl]. rewrite (set_fresh _ _ _ _ _ _ _ s) by
    (done || (apply NoDup_app in Hnd as (_ & Hd & _); intros Hin; by apply (Hd _ Hin); left)).
  cbn [attempt_write].
  set (c1 := with_categories _ c).
  destruct (IH c1 (mkStore (s_records s ++ [copied now src r]) (s_limit s) (note_limit s)))
    as [w Hw]; [by apply lookup_insert_eq|done|done|done|..].
  { simpl. rewrite fmap_app. csimpl. rewrite <-app_assoc. done. }
  exists w. unfold write_all in Hw. rewrite Hw. subst c1. rewrite with_categories_twice. simpl.
  rewrite insert_insert_eq, <-app_assoc. done.
Qed.

(** Several categories, each still empty. *)
Lemma write_pairs_spec now src pairs c :
  check_write_allowed c = Ok tt → blacklisted_categories c = None → NoDup pairs.*1 →
  (∀ cat rs, (cat, rs) ∈ pairs → Forall clean rs ∧ NoDup (e_key <$> rs) ∧
     ∃ s, categories c !! cat = Some s ∧ s_records s = []) →
  ∃ m, foldl (λ c p, write_all now src p.1 p.2 c) c pairs = with_categories m c ∧
    (∀ cat rs, (cat, rs) ∈ pairs → s_records <$> m !! cat = Some (copied now src <$> rs)) ∧
    (∀ cat, cat ∉ pairs.*1 → m !! cat = categories c !! cat).
Proof.
  revert c. induction pairs as [|[cat rs] pairs IH]; intros c Hw Hb Hnd Hall.
  { exists (categories c). simpl. rewrite with_own_categories. split_and!; [done|set_solver|done]. }
  csimpl in Hnd. apply NoDup_cons in Hnd as [Hcat Hnd].
  destruct (Hall cat rs) as (Hcl & Hk & s & Hs & He); [left|].
  destruct (write_all_spec now src cat rs c s) as [wn Hwa]; [done|done| |done|by rewrite He|].
  { unfold check_blacklist. by rewrite Hb. }
  cbn [foldl fst snd]. rewrite Hwa, He. set (c1 := with_categories _ c).
  destruct (IH c1) as (m & Hm & Hin & Hout); [done|done|done|..].
  { intros cat' rs' Hp. destruct (Hall cat' rs') as (? & ? & s' & Hs' & ?); [by right|].
    split_and!; [done..|]. exists s'. split; [|done]. simpl. rewrite lookup_insert_ne; [done|].
    intros <-. apply Hcat. by apply (list_elem_of_fmap_2 fst) in Hp. }
  exists m. rewrite Hm. split_and!; [done|..].
  - intros cat' rs' [[= -> ->]|Hp]%elem_of_cons; [|by apply Hin].
    rewrite Hout by done. simpl. by rewrite lookup_insert_eq.
  - intros cat' [Hne Hni]%not_elem_of_cons. rewrite Hout by done. simpl. by rewrite lookup_insert_ne.
Qed.

(** ** Sub-agents *)

(** A context as the operations build it: all categories there, keys unique, nothing secret. *)
Definition well_formed (c : AgentContext) : Prop :=
  ∀ cat, ∃ s, categories c !! cat = Some s ∧ Forall clean (s_records s) ∧ NoDup (e_key <$> s_records s).

Definition content (c : AgentContext) (cat : Category) : option (list (string * json * nat)) :=
  (λ s, (λ e, (e_key e, e_value e, e_iteration e)) <$> s_records s) <$> categories c !! cat.

Lemma copied_content now src (rs : list RecordEntry) :
  (λ e, (e_key e, e_value e, e_iteration e)) <$> (copied now src <$> rs) =
  (λ e, (e_key e, e_value e, e_iteration e)) <$> rs.
Proof. by rewrite <-list_fmap_compose. Qed.

Lemma fork_ok now c id blacklist sub :
  well_formed c → fork_for_subagent now c id blacklist = Ok sub →
  (∀ cat, content (sub_context sub) cat = content c cat) ∧
  blacklisted_categories (sub_context sub) = Some blacklist ∧ subagent_id (sub_context sub) = Some id ∧
  sub_chain sub = extend_chain (delegation_chain c) id ∧ sub_id sub = id.
Proof.
  intros Hwf. unfold fork_for_subagent. destruct (bool_decide _); [done|]. intros <-%Ok_inj.
  cbn [sub_context sub_chain sub_id]. split_and!; [|done..]. intros cat.
  set (child := context_init _ _ _ _).
  set (src := λ _ : RecordEntry, "fork-from-parent-" +:+ context_id c).
  set (records cat := default [] (s_records <$> categories c !! cat)).
  assert (∀ cat, categories c !! cat = None → False) as Hpresent.
  { intros k Hk. destruct (Hwf k) as (s & Hs & _). congruence. }
  destruct (write_pairs_spec now src ((λ k, (k, records k)) <$> all_categories) child)
    as (m & Hm & Hin & _); [done|done| |..].
  { by rewrite <-list_fmap_compose, list_fmap_id; compute; repeat constructor; set_solver. }
  { intros k rs (k' & [= -> ->] & _)%list_elem_of_fmap. destruct (Hwf k') as (s & Hs & Hcl & Hnd).
    subst records. simpl. rewrite Hs. simpl. split_and!; [done..|].
    exists (mkStore [] (soft_limit (config c)) false). split; [by destruct k'|done]. }
  assert (foldl (copy_category now c) child all_categories = with_categories m child) as ->.
  { rewrite <-Hm. clear Hm. generalize child. generalize all_categories as cats.
    induction cats as [|k cats IH]; intros ch; [done|]. csimpl. rewrite IH. f_equal.
    unfold copy_category, get_category. destruct (Hwf k) as (s & Hs & _). subst records. simpl. by rewrite Hs. }
  unfold content. simpl. destruct (Hwf cat) as (s & Hs & _). rewrite Hs.
  assert (s_records <$> m !! cat = Some (copied now src <$> s_records s)) as Hc.
  { rewrite (Hin cat (records cat)); [subst records; simpl; by rewrite Hs|].
    apply list_elem_of_fmap. exists cat. split; [done|]. by destruct cat; compute; set_solver. }
  destruct (m !! cat) as [s'|]; simplify_eq/=. rewrite Hc. by rewrite copied_content.
Qed.

(** A write that is refused in [cat]. *)
Definition shielded (bl : list Category) (id : string) (cat : Category) (s : option CategoryStore)
    (c : AgentContext) : Prop :=
  blacklisted_categories c = Some bl ∧ subagent_id c = Some id ∧ categories c !! cat = s.

Lemma set_record_shielded bl id cat s now c cat' key value source iteration :
  cat ∈ bl → shielded bl id cat s c →
  shielded bl id cat s (attempt_write c (set_record now c cat' key value source iteration)).
Proof.
  intros Hin (Hb & Hi & Hs). destruct (set_record now c cat' key value source iteration) as [c'|] eqn:E; [|done].
  apply set_record_ok in E as (_ & Hbl & _ & s' & log & Hc & -> & _). unfold shielded. simpl.
  split_and!; [done..|]. rewrite lookup_insert_ne; [done|]. intros ->.
  unfold check_blacklist in Hbl. rewrite Hb, Hi in Hbl. by rewrite bool_decide_true in Hbl.
Qed.

Lemma apply_op_shielded bl id cat s c top :
  cat ∈ bl → shielded bl id cat s c → shielded bl id cat s (apply_op c top).
Proof.
  intros Hin Hsh. destruct top as [now op]. destruct op as [cat1 key value source iteration|cat' key value source iteration|id1 x|target|p|k v|m|r|sub];
    simpl; [..|done|done| |].
  - by apply set_record_shielded.
  - destruct Hsh as (Hb & Hi & Hs). unfold append_record. destruct (check_write_allowed c) as [[]|]; [|done].
    destruct (check_blacklist c cat') as [[]|] eqn:Hbl; [|done].
    destruct (check_sensitive_data key value) as [[]|]; [|done]. cbn [result_bind].
    destruct (categories c !! cat') as [s'|]; [|done]. unfold shielded. simpl. split_and!; [done..|].
    rewrite lookup_insert_ne; [done|]. intros ->.
    unfold check_blacklist in Hbl. rewrite Hb, Hi in Hbl. by rewrite bool_decide_true in Hbl.
  - unfold add_extension. by destruct (check_write_allowed c).
  - unfold set_lifecycle_state. by destruct (is_valid_transition _ _).
  - unfold set_response_payload. by destruct (check_write_allowed c).
  - unfold record_audit. by destruct (check_write_allowed c).
  - destruct (merge_subagent_context now c sub) as [c'|] eqn:E; [|done].
    eapply merge_preserves; [|done|done]. intros. by apply set_record_shielded.
Qed.


(** Merging a sub-agent leaves every record of the parent alone whose key does not start
    with the sub-agent's delegation chain, and adds no key that does not. *)
Theorem merge_parent_priority (now : Z) (c c' : AgentContext) (sub : SubagentContext) (cat : Category)
    (key : string) :
  merge_subagent_context now c sub = Ok c' → (∀ t, key ≠ sub_chain sub +:+ t) →
  get_record c' cat key = get_record c cat key.
Proof.
  intros Hm Hk. apply (merge_preserves (λ x, get_record x cat key = get_record c cat key) now sub c c'); [|done..].
  intros now' x cat' t value source iteration Hx.
  destruct (set_record _ _ _ _ _ _ _) as [x'|] eqn:E; [|done]. simpl. rewrite <-Hx.
  apply set_record_frame in E as [_ Hf]. apply Hf. intros [= -> Ht]. by apply (Hk t).
Qed.

(** ** Snapshots *)

Lemma foldl_insert (l : list (string * ExtensionContent)) (m0 : gmap string ExtensionContent) :
  NoDup l.*1 → foldl (λ m kv, <[kv.1 := kv.2]> m) m0 l = list_to_map l ∪ m0.
Proof.
  revert m0. induction l as [|[k x] l IH]; intros m0 Hnd; csimpl in *; [by rewrite (left_id_L ∅ (∪))|].
  apply NoDup_cons in Hnd as [Hk Hnd]. rewrite IH by done. rewrite <-insert_union_r, <-insert_union_l; [done|].
  by apply not_elem_of_list_to_map_1.
Qed.

Lemma walk_extensions (l : list (string * ExtensionContent)) (m : gmap string ExtensionContent) :
  l ≡ₚ map_to_list m → foldl (λ m kv, <[kv.1 := kv.2]> m) ∅ l = m.
Proof.
  intros Hl. assert (NoDup l.*1) as Hnd by (rewrite Hl; apply NoDup_fst_map_to_list).
  rewrite foldl_insert, (right_id_L ∅ (∪)) by done.
  rewrite <-(list_to_map_to_list m). symmetry. apply list_to_map_proper; [|done].
  apply NoDup_fst_map_to_list.
Qed.

(** What a snapshot keeps of a record: all but its time stamp. *)
Definition kept (c : AgentContext) (cat : Category) : option (list (string * json * string * nat)) :=
  (λ s, (λ e, (e_key e, e_value e, e_source e, e_iteration e)) <$> s_records s) <$> categories c !! cat.

(** A context built by the operations is restored from its snapshot: the records of every
    category but for their time stamps, the extensions, the audit log, the response, the
    metadata and the lifecycle state, in whatever order the maps are walked. *)
Theorem snapshot_restore iter walk (now now' : Z) (c : AgentContext) :
  well_formed c → (∀ m, iter m ≡ₚ map_to_list m) → (∀ m, walk m ≡ₚ map_to_list m) →
  ∃ c', restore walk now' (snapshot iter now c) (schema_version (config c)) = Ok c' ∧
    (∀ cat, kept c' cat = kept c cat) ∧ extensions c' = extensions c ∧ audit_log c' = audit_log c ∧
    response_payload c' = response_payload c ∧ ctx_metadata c' = ctx_metadata c ∧
    lifecycle_state c' = lifecycle_state c ∧ user_input c' = user_input c ∧ context_id c' = context_id c.
Proof.
  intros Hwf Hiter Hwalk. unfold restore. cbn [snapshot sn_schema_version]. rewrite String.eqb_refl.
  cbn [negb]. set (c0 := context_init _ _ _ _). set (pairs := walk _).
  assert (pairs ≡ₚ map_to_list (s_records <$> categories c)) as Hp by apply Hwalk.
  assert (∀ cat s, categories c !! cat = Some s → (cat, s_records s) ∈ pairs) as Hpin.
  { intros cat s Hs. rewrite Hp, elem_of_map_to_list, lookup_fmap, Hs. done. }
  destruct (write_pairs_spec now' e_source pairs c0) as (m & Hm & Hin & _); [done|done| |..].
  { rewrite Hp. apply NoDup_fst_map_to_list. }
  { intros cat rs Hrs. rewrite Hp, elem_of_map_to_list, lookup_fmap in Hrs.
    destruct (Hwf cat) as (s & Hs & Hcl & Hnd). rewrite Hs in Hrs.
    injection Hrs as <-. split_and!; [done..|]. eexists. split; [apply init_store|done]. }
  assert (foldl (restore_category now') c0 pairs = with_categories m c0) as ->.
  { rewrite <-Hm. generalize pairs, c0. clear. intros pairs; induction pairs as [|p pairs IH]; intros c0; [done|]. simpl. by rewrite IH. }
  assert (∀ cat, (λ s, (λ e, (e_key e, e_value e, e_source e, e_iteration e)) <$> s_records s) <$> m !! cat =
                 kept c cat) as Hkept.
  { intros cat. destruct (Hwf cat) as (s & Hs & _). pose proof (Hin cat _ (Hpin cat s Hs)) as H.
    unfold kept. rewrite Hs. destruct (m !! cat); simplify_eq/=. rewrite H. by rewrite <-list_fmap_compose. }
  eexists. split; [done|]. cbn [sn_extensions snapshot]. rewrite (walk_extensions _ (extensions c)) by apply Hiter.
  unfold kept at 1. change (sn_response_payload (snapshot iter now c)) with (response_payload c).
  destruct (response_payload c); split_and!; done.
Qed.

(** ** The prompt budget *)

Section PromptFacts.
Variable record_json : RecordEntry → string.

Lemma take_records_bound limit acc rs :
  (Z.of_nat (chars_count (take_records record_json limit acc rs)) ≤
   Z.max (Z.of_nat (chars_count acc)) (limit - 1))%Z.
Proof.
  revert acc. induction rs as [|r rs IH]; intros acc; simpl; [lia|].
  destruct (Z.ltb_spec limit (Z.of_nat (chars_count acc + chars_count (record_json r) + 3))) as [H|H]; [lia|].
  etrans; [apply IH|]. destruct (is_empty acc); rewrite ?chars_count_app; simpl; lia.
Qed.

Lemma format_records_bound rs max_chars :
  14 ≤ max_chars → (Z.of_nat max_chars ≤ u64_max)%Z →
  chars_count (format_records record_json rs max_chars).1 ≤ max_chars.
Proof.
  intros Hmin Hmax. destruct rs as [|r rs]; [simpl; lia|]. unfold format_records.
  destruct (Nat.leb_spec (chars_count (records_json record_json (r :: rs))) max_chars) as [H|H]; [done|].
  rewrite wrap_u64_id by (unfold in_u64, u64_max in *; lia).
  pose proof (take_records_bound (Z.of_nat max_chars - 14) "" (reverse (r :: rs))) as Hb.
  cbn [fst]. rewrite !chars_count_app. change (chars_count "") with 0 in Hb.
  change (chars_count "[truncated] [") with 13. change (chars_count "]") with 1. lia.
Qed.

Lemma prompt_section_bound c cat remaining text cut left :
  prompt_section record_json c cat remaining = Ok (text, cut, left) →
  get_category c cat = Ok [] ∨ 4 ≤ remaining → (Z.of_nat remaining * 4 ≤ u64_max)%Z →
  opt_tokens text + left = remaining.
Proof.
  unfold prompt_section. destruct (get_category c cat) as [rs|] eqn:Eg; [|done]. cbn [result_bind].
  destruct rs as [|r rs]; [by intros [= <- <- <-]|]. intros Hs [?|H4] Hmax; [done|].
  pose proof (format_records_bound (r :: rs) (remaining * 4)) as Hb.
  destruct (format_records record_json (r :: rs) (remaining * 4)) as [t b]. simpl in Hb.
  injection Hs as <- <- <-.
  assert (prompt_estimate_tokens t ≤ remaining) as Ht.
  { unfold prompt_estimate_tokens. rewrite Nat2Z.inj_mul in Hb.
    pose proof (Nat.Div0.div_le_mono (chars_count t + 3) (remaining * 4 + 3) 4) as H.
    rewrite Nat.div_add_l in H by lia. change (3 / 4) with 0 in H. lia. }
  unfold nonempty_text. destruct t; simpl; [|lia]. unfold prompt_estimate_tokens. simpl. lia.
Qed.

(** Every section that has records is entered with at least four tokens left. *)
Fixpoint enough (c : AgentContext) (cats : list Category) (remaining : nat) : Prop :=
  match cats with
  | [] => True
  | cat :: cats =>
      (get_category c cat = Ok [] ∨ 4 ≤ remaining) ∧
      ∀ text cut left, prompt_section record_json c cat remaining = Ok (text, cut, left) → enough c cats left
  end.

Lemma enough_step c cat cats remaining text cut left :
  enough c (cat :: cats) remaining → (Z.of_nat remaining * 4 ≤ u64_max)%Z →
  prompt_section record_json c cat remaining = Ok (text, cut, left) →
  opt_tokens text + left = remaining ∧ enough c cats left.
Proof. intros [H4 He] Hmax Hs. split; [by eapply prompt_section_bound|by eapply He]. Qed.

(** A prompt stays within its budget when the user's text fits and no section with records
    is entered with fewer than four tokens left. *)
Theorem prompt_within_budget (c : AgentContext) (max_tokens : nat) (p : PromptData) :
  build_prompt_budget record_json c max_tokens = Ok p →
  prompt_estimate_tokens (raw_text (user_input c)) ≤ max_tokens → (Z.of_nat max_tokens * 4 ≤ u64_max)%Z →
  enough c [ReasoningResults; ToolResults; Entities; StateChanges]
    (max_tokens - prompt_estimate_tokens (raw_text (user_input c))) →
  pd_tokens p ≤ max_tokens.
Proof.
  unfold build_prompt_budget. set (user := prompt_estimate_tokens _). intros Hb Hu Hmax He.
  destruct (prompt_section _ _ ReasoningResults _) as [[[t1 c1] l1]|] eqn:E1; [|done]. cbn [result_bind] in Hb.
  destruct (prompt_section _ _ ToolResults _) as [[[t2 c2] l2]|] eqn:E2; [|done]. cbn [result_bind] in Hb.
  destruct (prompt_section _ _ Entities _) as [[[t3 c3] l3]|] eqn:E3; [|done]. cbn [result_bind] in Hb.
  destruct (prompt_section _ _ StateChanges _) as [[[t4 c4] l4]|] eqn:E4; [|done]. cbn [result_bind] in Hb.
  injection Hb as <-. cbn [pd_tokens].
  eapply enough_step in E1 as [H1 He1]; [|done|lia].
  eapply enough_step in E2 as [H2 He2]; [|done|lia].
  eapply enough_step in E3 as [H3 He3]; [|done|lia].
  eapply enough_step in E4 as [H4 _]; [|done|lia]. lia.
Qed.
End PromptFacts.

(** ** What the comments promise and the code does not do *)

(** Metadata and messages of a finished context can still be written. *)
Theorem finished_context_written (c : AgentContext) (k v : string) :
  is_over c = true → ∃ c', set_metadata c k v = Ok c' ∧ ctx_metadata c' !! k = Some v.
Proof. intros _. eexists. split; [done|]. apply lookup_insert_eq. Qed.

(** Merging appends nothing of the sub-agent's audit log: only changes of the parent's own
    records are added. *)
Theorem merge_drops_audit (now : Z) (c c' : AgentContext) (sub : SubagentContext) :
  merge_subagent_context now c sub = Ok c' →
  ∃ log, audit_log c' = audit_log c ++ log ∧ Forall (λ r, ∃ ch, r = AuditChange ch) log.
Proof.
  intros Hm. apply (merge_preserves (λ x, ∃ log, audit_log x = audit_log c ++ log ∧
    Forall (λ r, ∃ ch, r = AuditChange ch) log) now sub c c'); [|exists []; by rewrite app_nil_r|done].
  intros now' x cat t value source iteration (log & Hx & Hlog).
  destruct (set_record _ _ _ _ _ _ _) as [x'|] eqn:E; [|by exists log].
  apply set_record_ok in E as (_ & _ & _ & s & log' & _ & -> & Hlog'). simpl.
  exists (log ++ log'). rewrite Hx, app_assoc. split; [done|by apply Forall_app].
Qed.

(** The hook looks for results that carry the identifier of their call.  The runner hands it
    the plain results of the tools, so that it records none of them. *)
Theorem hook_records_no_tool_result (now : Z) (c : AgentContext) (iteration : nat) stop error calls results :
  Forall (λ r, get_str "tool_call_id" r = None) results →
  hook_after_iteration now c iteration stop error calls results =
  hook_after_iteration now c iteration stop error [] results.
Proof.
  intros Hr. unfold hook_after_iteration. f_equal. cbn [foldl]. revert c.
  induction calls as [|tc calls IH]; intros c; [done|]. cbn [foldl].
  replace (find_first _ results) with (@None json); [done|].
  symmetry. apply find_first_None. intros r Hin. rewrite Forall_forall in Hr. by rewrite Hr.
Qed.

(** ** Examples and witnesses *)

Definition demo_input : UserInput := mkInput "book a table" (Some "s") (Some "m") 0 ∅.

Definition demo_context : AgentContext :=
  apply_ops (context_init "ctx" demo_input default_config 0)
    [(1%Z, OpSet Entities "city" (JStr "Oslo") "ner" 1); (2%Z, OpSet ToolResults "weather" (JInt 3) "weather" 1)].

Definition keys_in (c : AgentContext) (cat : Category) : option (list string) :=
  (λ s, e_key <$> s_records s) <$> categories c !! cat.

Lemma demo_well_formed : well_formed demo_context.
Proof.
  intros cat. destruct cat; (eexists; split; [vm_compute; reflexivity|]);
    (split; [repeat constructor|]); repeat constructor; set_solver.
Qed.

Lemma fork_total now c id blacklist :
  SubagentResults ∉ blacklist → ∃ sub, fork_for_subagent now c id blacklist = Ok sub.
Proof. intros H. unfold fork_for_subagent. rewrite bool_decide_false by done. by eexists. Qed.

Lemma merge_total now c sub : lifecycle_state c = Active → ∃ c', merge_subagent_context now c sub = Ok c'.
Proof. intros H. unfold merge_subagent_context. rewrite H. by eexists. Qed.

(** Fork a sub-agent, let it work, merge it: the keys of a category of the parent. *)
Definition delegate (id : string) (ops : list (Z * CtxOp)) (cat : Category)
    : result (option (list string)) ContextError :=
  let? sub := fork_for_subagent 3 demo_context id [] in
  let? c' := merge_subagent_context 4 demo_context
               (mkSub (apply_ops (sub_context sub) ops) (sub_id sub) (sub_blacklist sub) (sub_chain sub)) in
  Ok (keys_in c' cat).

(** A sub-agent that did nothing doubles the parent's records when it is merged. *)
Theorem idle_merge_duplicates :
  delegate "a" [] Entities = Ok (Some ["city"; "a/Entities/city/a"]) ∧
  delegate "a" [] ToolResults = Ok (Some ["weather"; "a/ToolResults/weather/a"]).
Proof. split; vm_compute; reflexivity. Qed.

(** The results of a sub-agent whose name looks like a credential are silently dropped. *)
Theorem credential_name_loses_results :
  let ops := [(3%Z, OpSet Intentions "goal" (JStr "x") "t" 1)] in
  delegate "planner" ops Intentions = Ok (Some ["planner/goal"]) ∧
  delegate "tokenizer" ops Intentions = Ok (Some []).
Proof. split; vm_compute; reflexivity. Qed.

(** A restored sub-agent has lost its blacklist. *)
Theorem restore_forgets_blacklist (walk : _ → _) (now : Z) (sn : ContextSnapshot) (c : AgentContext)
    (expected : string) :
  restore walk now sn expected = Ok c → blacklisted_categories c = None ∧ subagent_id c = None.
Proof.
  unfold restore. destruct (negb _); [done|]. intros <-%Ok_inj.
  set (c0 := context_init _ _ _ _).
  assert (∀ pairs x, blacklisted_categories x = None ∧ subagent_id x = None →
    let y := foldl (restore_category now) x pairs in blacklisted_categories y = None ∧ subagent_id y = None) as H.
  { induction pairs as [|[cat rs] pairs IH]; intros x Hx; [done|]. simpl. apply IH. unfold restore_category. simpl.
    revert x Hx. induction rs as [|r rs IHr]; intros x Hx; [done|]. simpl. apply IHr.
    destruct (set_record _ _ _ _ _ _ _) as [x'|] eqn:E; [|done].
    by apply set_record_ok in E as (_ & _ & _ & s & log & _ & -> & _). }
  destruct (H (walk (sn_categories sn)) c0) as [Hb Hi]; [done|].
  destruct (sn_response_payload sn); simpl; by rewrite Hb, Hi.
Qed.

(** A budget below fourteen characters wraps around: the section is marked as truncated and
    holds every record. *)
Theorem exhausted_budget_keeps_all :
  let rs := (λ k, mkEntry k JNull "s" 0 0) <$> ["first"; "second"; "third"] in
  format_records e_key rs 12 = ("[truncated] [third, second, first]", true) ∧
  format_records e_key rs 16 = ("[truncated] []", true).
Proof. split; vm_compute; reflexivity. Qed.

Lemma over_is_frozen_witness :
  frozen_part (apply_ops (with_lifecycle Completed demo_context)
    [(9%Z, OpLifecycle Active); (9%Z, OpSet Entities "city" (JStr "Bergen") "x" 2)]) =
  frozen_part (with_lifecycle Completed demo_context).
Proof. apply over_is_frozen. reflexivity. Defined.

Lemma secrets_never_stored_witness :
  is_sensitive_key "city" = false ∧ is_sensitive_value (JStr "Oslo") = false.
Proof.
  apply (secrets_never_stored "ctx" demo_input default_config 0
    [(1%Z, OpSet Entities "city" (JStr "Oslo") "ner" 1); (2%Z, OpSet Entities "api_key" (JStr "x") "ner" 1)]
    Entities (mkEntry "city" (JStr "Oslo") "ner" 1 1)
    (mkStore [mkEntry "city" (JStr "Oslo") "ner" 1 1] 100 false)); [vm_compute; reflexivity|left].
Defined.


Lemma merge_parent_priority_witness :
  ∃ sub c', fork_for_subagent 3 demo_context "a" [] = Ok sub ∧
    merge_subagent_context 4 demo_context sub = Ok c' ∧
    get_record c' Entities "city" = get_record demo_context Entities "city".
Proof.
  destruct (fork_total 3 demo_context "a" []) as [sub Hsub]; [apply not_elem_of_nil|].
  destruct (merge_total 4 demo_context sub) as [c' Hc']; [vm_compute; reflexivity|].
  exists sub, c'. split; [exact Hsub|]. split; [exact Hc'|].
  apply (merge_parent_priority 4 demo_context c' sub Entities "city" Hc').
  intros t. destruct (fork_ok _ _ _ _ _ demo_well_formed Hsub) as (_ & _ & _ & Hchain & _).
  rewrite Hchain. vm_compute. discriminate.
Defined.

Lemma snapshot_restore_witness :
  ∃ c', restore map_to_list 9 (snapshot map_to_list 8 demo_context) "v1" = Ok c' ∧
    (∀ cat, kept c' cat = kept demo_context cat).
Proof.
  destruct (snapshot_restore map_to_list map_to_list 8 9 demo_context) as (c' & H & Hk & _);
    [apply demo_well_formed|reflexivity|reflexivity|]. exists c'. split; [exact H|exact Hk].
Defined.

Lemma section_empty record_json c cat remaining :
  get_category c cat = Ok [] → prompt_section record_json c cat remaining = Ok (None, false, remaining).
Proof. intros H. unfold prompt_section. by rewrite H. Qed.

Lemma demo_enough :
  enough e_key demo_context [ReasoningResults; ToolResults; Entities; StateChanges]
    (20 - prompt_estimate_tokens (raw_text (user_input demo_context))).
Proof.
  change (20 - prompt_estimate_tokens (raw_text (user_input demo_context))) with 17.
  split; [left; vm_compute; reflexivity|]. intros t1 c1 l1 H1.
  rewrite section_empty in H1 by (vm_compute; reflexivity). injection H1 as <- <- <-.
  split; [right; lia|]. intros t2 c2 l2 H2. vm_compute in H2. injection H2 as <- <- <-.
  split; [right; lia|]. intros t3 c3 l3 H3. vm_compute in H3. injection H3 as <- <- <-.
  split; [left; vm_compute; reflexivity|]. done.
Qed.

Lemma prompt_within_budget_witness :
  ∃ p, build_prompt_budget e_key demo_context 20 = Ok p ∧ pd_tokens p ≤ 20.
Proof.
  destruct (build_prompt_budget e_key demo_context 20) as [p|e] eqn:E; [|vm_compute in E; discriminate E].
  exists p. split; [reflexivity|].
  apply (prompt_within_budget e_key demo_context 20 p E);
    [apply Nat.leb_le; vm_compute; reflexivity|vm_compute; discriminate|apply demo_enough].
Defined.
