(* ===== verification/Memory.v ===== *)
(** * The memory store

    [crates/agent/src/memory.rs]: the numbered history of an agent ([history.jsonl] with its
    cursor file), its compaction, the formatting of archived messages, and a "Dream", which
    processes a batch of entries with the provider and the agent runner.  Files are their
    contents; appending is two writes, so that a crash can fall between them.  What a Dream
    is given by others is an argument: the date, the ages of the lines of [MEMORY.md], the
    section on skills, the answer to its first request and the result of its run.  The
    migration of the legacy history and the writing of the skill reference are not modelled. *)

From S2P Require Import Prelude RustStr F64 Json Messages Think ToolSchema ToolRegistry Provider Runner.

Local Open Scope stdpp_scope.
Local Open Scope hive_scope.

Definition DEFAULT_MAX_HISTORY : nat := 1000.
Definition HISTORY_ENTRY_HARD_CAP : Z := 64000.
Definition RAW_ARCHIVE_MAX_CHARS : Z := 16000.
Definition STALE_THRESHOLD_DAYS : Z := 14.
Definition MEMORY_FILE_MAX_CHARS : Z := 32000.
Definition SOUL_FILE_MAX_CHARS : Z := 16000.
Definition USER_FILE_MAX_CHARS : Z := 16000.
Definition HISTORY_ENTRY_PREVIEW_MAX_CHARS : Z := 4000.

(** The limits are kept as [Z]: a length is compared before a text is cut. *)
Definition truncate_to (text : string) (limit : Z) : string := truncate_text text (Z.to_nat limit).

Record MemoryStore := mkMemory {
  max_history_entries : nat;
  memory_file : option string;
  history_file : option string;
  soul_file : option string;
  user_file : option string;
  cursor_file : option string;
  dream_cursor_file : option string
}.

Definition empty_memory (max_entries : option nat) : MemoryStore :=
  mkMemory (default DEFAULT_MAX_HISTORY max_entries) None None None None None None.

Definition with_history (h : string) (m : MemoryStore) : MemoryStore :=
  mkMemory (max_history_entries m) (memory_file m) (Some h) (soul_file m) (user_file m)
    (cursor_file m) (dream_cursor_file m).

Definition read_file (f : option string) : string := default "" f.

Definition memory_context (m : MemoryStore) : string :=
  let long_term := read_file (memory_file m) in
  if is_empty long_term then "" else "## Long-term Memory" +:+ String nl long_term.

Definition valid_cursor (v : option json) : option Z :=
  match v with Some (JInt z) => if in_i64 z then Some z else None | _ => None end.

Section Memory.
Variables (from_str : string → option json) (to_string : json → string).

(** ** Reading *)

Definition read_entries (m : MemoryStore) : list json :=
  match history_file m with
  | None => []
  | Some text => filter_map from_str (retain (λ l, negb (is_empty (trim l))) (lines text))
  end.

(** The last line of the last 4096 bytes, if these are whole characters. *)
Definition read_last_entry (m : MemoryStore) : option json :=
  text ← history_file m;
  let size := String.length text in
  if size =? 0 then None
  else
    let start := size - Nat.min size 4096 in
    if is_char_boundary text start then
      line ← find_first (λ l, negb (is_empty (trim l))) (reverse (lines (sdrop start text)));
      from_str line
    else None.

Definition iter_valid_entries (m : MemoryStore) : list (json * Z) :=
  filter_map (λ e, c ← valid_cursor (jget "cursor" e); Some (e, c)) (read_entries m).

Definition read_unprocessed_history (m : MemoryStore) (since : Z) : list json :=
  (retain (λ ec, since <? ec.2)%Z (iter_valid_entries m)).*1.

Definition max_of (cs : list Z) : option Z :=
  match cs with [] => None | c :: cs => Some (foldl Z.max c cs) end.

Definition next_cursor (m : MemoryStore) : Z :=
  match cursor_file m ≫= (λ s, parse_i64 (trim s)) with
  | Some v => wrap_i64 (v + 1)
  | None =>
      match read_last_entry m ≫= (λ e, valid_cursor (jget "cursor" e)) with
      | Some c => wrap_i64 (c + 1)
      | None => wrap_i64 (default 0%Z (max_of (iter_valid_entries m).*2) + 1)
      end
  end.

Definition last_dream_cursor (m : MemoryStore) : Z :=
  default 0%Z (dream_cursor_file m ≫= (λ s, parse_i64 (trim s))).

(** ** Writing *)

Definition history_record (cursor : Z) (ts content : string) : json :=
  JObj [("cursor", JInt cursor); ("timestamp", JStr ts); ("content", JStr content)].

Definition entry_content (entry : string) (max_chars : option Z) : string :=
  let limit := default HISTORY_ENTRY_HARD_CAP max_chars in
  let raw := trim_end entry in
  let raw := if (limit <? Z.of_nat (String.length raw))%Z then truncate_to raw limit else raw in
  strip_think raw.

(** The first write. *)
Definition append_line (m : MemoryStore) (record : json) : MemoryStore :=
  with_history (read_file (history_file m) +:+ to_string record +:+ String nl "") m.

(** The second write. *)
Definition write_cursor (m : MemoryStore) (cursor : Z) : MemoryStore :=
  mkMemory (max_history_entries m) (memory_file m) (history_file m) (soul_file m) (user_file m)
    (Some (pretty cursor)) (dream_cursor_file m).

Definition append_history (m : MemoryStore) (ts entry : string) (max_chars : option Z) : MemoryStore * Z :=
  let cursor := next_cursor m in
  let m := append_line m (history_record cursor ts (entry_content entry max_chars)) in
  (write_cursor m cursor, cursor).

Definition write_entries (m : MemoryStore) (entries : list json) : MemoryStore :=
  with_history (foldr (λ l acc, l +:+ String nl acc) "" (to_string <$> entries)) m.

Definition compact_history (m : MemoryStore) : MemoryStore :=
  if max_history_entries m =? 0 then m
  else
    let entries := read_entries m in
    if length entries <=? max_history_entries m then m
    else write_entries m (drop (length entries - max_history_entries m) entries).

Definition set_last_dream_cursor (m : MemoryStore) (cursor : Z) : MemoryStore :=
  mkMemory (max_history_entries m) (memory_file m) (history_file m) (soul_file m) (user_file m)
    (cursor_file m) (Some (pretty cursor)).

(** ** Archives *)

Definition format_message (m : json) : option string :=
  match get_str "content" m with
  | None | Some "" => None
  | Some content =>
      let tools := match get_array "tools_used" m with
                   | Some arr => " [tools: " +:+ join ", " (filter_map as_str arr) +:+ "]"
                   | None => ""
                   end in
      let ts := take_chars 16 (default "?" (get_str "timestamp" m)) in
      Some ("[" +:+ ts +:+ "] " +:+ to_ascii_uppercase (default "" (get_str "role" m)) +:+ tools +:+ ": " +:+ content)
  end.

Definition format_messages (msgs : list json) : string :=
  join (String nl "") (filter_map format_message msgs).

Definition raw_text (msgs : list json) (max_chars : option Z) : string :=
  let limit := default RAW_ARCHIVE_MAX_CHARS max_chars in
  let formatted := truncate_to (format_messages msgs) limit in
  "[RAW] " +:+ pretty (length msgs) +:+ " messages" +:+ String nl formatted.

Definition raw_archive (m : MemoryStore) (ts : string) (msgs : list json) (max_chars : option Z) : MemoryStore :=
  (append_history m ts (raw_text msgs max_chars) None).1.

(** ** Dreams *)

(** The batch a Dream works on, and the cursor it would advance to. *)
Definition dream_batch (m : MemoryStore) (max_batch_size : nat) : list json * Z :=
  let last_cursor := last_dream_cursor m in
  let entries := read_unprocessed_history m last_cursor in
  let batch := take (Nat.min (length entries) max_batch_size) entries in
  (batch, default last_cursor (last batch ≫= (λ e, valid_cursor (jget "cursor" e)))).

Definition history_text (batch : list json) : string :=
  join (String nl "")
    ((λ e, "[" +:+ default "?" (get_str "timestamp" e) +:+ "] " +:+
           truncate_to (default "" (get_str "content" e)) HISTORY_ENTRY_PREVIEW_MAX_CHARS) <$> batch).

(** The lines of [MEMORY.md] with the ages of the stale ones; [ages] comes from the git store. *)
Definition annotate_with_ages (ages : list Z) (content : string) : string :=
  if bool_decide (ages = []) then content
  else
    let had_trailing := match strip_suffix (String nl "") content with Some _ => true | None => false end in
    let ls := split_on nl content in
    let ls := if had_trailing && bool_decide (last ls = Some "") then take (length ls - 1) ls else ls in
    if negb (length ls =? length ages) then content
    else
      let annotated := zip_with (λ line age,
        if is_empty (trim line) then line
        else if (STALE_THRESHOLD_DAYS <? age)%Z then line +:+ "  ← " +:+ pretty age +:+ "d"
        else line) ls ages in
      join (String nl "") annotated +:+ (if had_trailing then String nl "" else "").

Definition or_empty_note (s : string) : string := if is_empty s then "(empty)" else s.

Definition file_context (m : MemoryStore) (date : string) (ages : list Z) (annotate_line_ages : bool) : string :=
  let raw_memory := or_empty_note (read_file (memory_file m)) in
  let annotated := if annotate_line_ages then annotate_with_ages ages raw_memory else raw_memory in
  let current_memory := truncate_to annotated MEMORY_FILE_MAX_CHARS in
  let current_soul := truncate_to (or_empty_note (read_file (soul_file m))) SOUL_FILE_MAX_CHARS in
  let current_user := truncate_to (or_empty_note (read_file (user_file m))) USER_FILE_MAX_CHARS in
  let par := String nl (String nl "") in
  "## Current Date" +:+ String nl date +:+ par +:+
  "## Current MEMORY.md (" +:+ pretty (chars_count current_memory) +:+ " chars)" +:+ String nl current_memory +:+ par +:+
  "## Current SOUL.md (" +:+ pretty (chars_count current_soul) +:+ " chars)" +:+ String nl current_soul +:+ par +:+
  "## Current USER.md (" +:+ pretty (chars_count current_user) +:+ " chars)" +:+ String nl current_user.

Definition dream_changelog (res : AgentRunResult) : list string :=
  (λ e, ev_name e +:+ ": " +:+ ev_detail e) <$> retain (λ e, String.eqb (ev_status e) "ok") (tool_events res).

(** What happens after the runner returned: the store and the message of the commit, if
    one is asked of the git store. *)
Definition dream_finish (m : MemoryStore) (batch : list json) (new_cursor : Z) (git_initialized : bool)
    (analysis : string) (res : AgentRunResult) : MemoryStore * option string :=
  let changelog := dream_changelog res in
  let m := if String.eqb (stop_reason res) "completed" then set_last_dream_cursor m new_cursor else m in
  let m := compact_history m in
  (m,
   if negb (bool_decide (changelog = [])) && git_initialized
   then
     let ts := default "?" (last batch ≫= get_str "timestamp") in
     Some ("dream: " +:+ ts +:+ ", " +:+ pretty (length changelog) +:+ " change(s)" +:+
           String nl (String nl (trim analysis)))
   else None).

(** What a Dream is given by others: the date, the ages of lines, the section on skills, the
    answer to the first request and the result of the run, each by its user message. *)
Record DreamEnv := mkDreamEnv {
  max_batch_size : nat;
  annotate_line_ages : bool;
  current_date : string;
  line_ages : list Z;
  skills_section : string;
  git_initialized : bool;
  phase1 : string → LLMResponse;
  phase2 : string → AgentRunResult
}.

Record DreamOutcome := mkDream {
  dream_store : MemoryStore;
  dream_ran : bool;
  dream_commit : option string
}.

(** The user messages of the two requests. *)
Definition phase1_user (D : DreamEnv) (m : MemoryStore) (batch : list json) : string :=
  "## Conversation History" +:+ String nl (history_text batch) +:+ String nl (String nl
    (file_context m (current_date D) (line_ages D) (annotate_line_ages D))).

Definition phase2_user (D : DreamEnv) (m : MemoryStore) (analysis : string) : string :=
  "## Analysis Result" +:+ String nl analysis +:+ String nl (String nl
    (file_context m (current_date D) (line_ages D) (annotate_line_ages D) +:+ skills_section D)).

Definition dream_run (D : DreamEnv) (m : MemoryStore) : DreamOutcome :=
  let '(batch, new_cursor) := dream_batch m (max_batch_size D) in
  if bool_decide (read_unprocessed_history m (last_dream_cursor m) = []) then mkDream m false None
  else
    let response := phase1 D (phase1_user D m batch) in
    if String.eqb (finish_reason response) "error" then mkDream m false None
    else
      let analysis := default "" (rs_content response) in
      let res := phase2 D (phase2_user D m analysis) in
      let '(m, commit) := dream_finish m batch new_cursor (git_initialized D) analysis res in
      mkDream m true commit.
End Memory.
