(* ===== verification/MemoryProps.v ===== *)
(** * Correctness of the memory store

    The number files round trip, the store refines a numbered log that only ever loses its
    oldest entries, and Dreams work through that log in order. *)

From S2P Require Import Prelude RustStr F64 Json Messages Think ToolSchema ToolRegistry Provider Runner RunnerOutcome Memory.

Local Open Scope stdpp_scope.
Local Open Scope hive_scope.

(** ** Numbers as text *)

Definition graphic (c : ascii) : bool := ((33 <=? byte_of c) && (byte_of c <=? 126))%Z.

Lemma trim_start_graphic s : all_chars graphic s = true → trim_start s = s.
Proof.
  destruct s as [|a s]; [done|]. cbn [all_chars]. intros [Ha Hs]%andb_true_iff. cbn [trim_start].
  unfold graphic in Ha.
  assert (ws1 a = false) as -> by (unfold ws1; lia).
  destruct s as [|b s]; [done|]. assert (ws2 a b = false) as -> by (unfold ws2; lia).
  destruct s as [|c s]; [done|]. assert (ws3 a b c = false) as -> by (unfold ws3; lia). done.
Qed.

Lemma trim_rev_graphic s : all_chars graphic s = true → trim_rev s = s.
Proof.
  destruct s as [|a s]; [done|]. cbn [all_chars]. intros [Ha Hs]%andb_true_iff. cbn [trim_rev].
  unfold graphic in Ha.
  assert (ws1 a = false) as -> by (unfold ws1; lia).
  destruct s as [|b s]; [done|]. cbn [all_chars] in Hs. apply andb_true_iff in Hs as [Hb Hs].
  unfold graphic in Hb. assert (ws2 b a = false) as -> by (unfold ws2; lia).
  destruct s as [|c s]; [done|]. cbn [all_chars] in Hs. apply andb_true_iff in Hs as [Hc Hs].
  unfold graphic in Hc. assert (ws3 c b a = false) as -> by (unfold ws3; lia). done.
Qed.

Lemma trim_graphic s : all_chars graphic s = true → trim s = s.
Proof.
  intros H. unfold trim, trim_end. rewrite trim_start_graphic by done.
  rewrite trim_rev_graphic; [apply srev_involutive|].
  unfold String.rev. by rewrite rev_app_all, H.
Qed.

Lemma digit_graphic x :
  (x < 10)%N → graphic (pretty_N_char x) = true ∧ digit_of (pretty_N_char x) = Some (Z.of_N x).
Proof.
  intros H. assert (x = 0 ∨ x = 1 ∨ x = 2 ∨ x = 3 ∨ x = 4 ∨ x = 5 ∨ x = 6 ∨ x = 7 ∨ x = 8 ∨ x = 9)%N as Hx by lia.
  naive_solver.
Qed.

(** Printing a positive number puts digits in front; reading goes through them. *)
Lemma pretty_N_go_digits x s :
  (0 < x)%N → all_chars graphic s = true →
  all_chars graphic (pretty_N_go x s) = true ∧
  ∃ k, 0 < k ∧ take_digits (pretty_N_go x s) 0 0 = take_digits s (Z.of_N x) k.
Proof.
  revert s. induction (N.lt_wf_0 x) as [x _ IH]. intros s Hx Hs.
  rewrite pretty_N_go_step by done.
  destruct (digit_graphic (x `mod` 10)) as [Hg Hd]; [by apply N.mod_lt|].
  set (c := pretty_N_char (x `mod` 10)) in *.
  assert (Hs' : all_chars graphic (String c s) = true) by (cbn [all_chars]; by rewrite Hg).
  assert (Hval : (Z.of_N (x `div` 10) * 10 + Z.of_N (x `mod` 10) = Z.of_N x)%Z)
    by (rewrite N2Z.inj_div, N2Z.inj_mod; change (Z.of_N 10) with 10%Z; pose proof (Z.div_mod (Z.of_N x) 10); lia).
  destruct (decide (x `div` 10 = 0)%N) as [E|E].
  - rewrite E, pretty_N_go_0. split; [done|]. exists 1. split; [lia|].
    cbn [take_digits]. rewrite Hd, <-Hval, E. done.
  - destruct (IH (x `div` 10)%N ltac:(by apply N.div_lt) (String c s) (proj1 (N.neq_0_lt_0 _) E) Hs') as (Hall & k & Hk & Ht).
    split; [done|]. exists (S k). split; [lia|]. rewrite Ht. cbn [take_digits]. by rewrite Hd, Hval.
Qed.

Lemma pretty_N_digits (x : N) :
  all_chars graphic (pretty x) = true ∧ ∃ k, 0 < k ∧ take_digits (pretty x) 0 0 = (Z.of_N x, k, "").
Proof.
  unfold pretty, pretty_N. destruct (decide (x = 0)%N) as [->|Hx]; [split; [done|]; by exists 1; split; [lia|]|].
  destruct (pretty_N_go_digits x "" ltac:(lia) eq_refl) as (Ha & k & Hk & Ht).
  split; [done|]. exists k. by split.
Qed.

Lemma graphic_first_digit (x : N) : take_sign (pretty x) = (false, pretty x).
Proof.
  destruct (pretty_N_digits x) as (_ & k & Hk & Ht). destruct (pretty x) as [|c s]; [done|].
  cbn [take_digits] in Ht. unfold take_sign.
  destruct (digit_of c) eqn:Hd; [|by simplify_eq/=; lia].
  repeat case_match; done.
Qed.

(** [str::parse::<i64>] reads back what [to_string] prints, space around it or not. *)
Lemma parse_pretty z : in_i64 z = true → parse_i64 (trim (pretty z)) = Some z.
Proof.
  intros Hz. assert (Hcase : (∃ p, z = Z.neg p) ∨ ∃ n, z = Z.of_N n ∧ pretty z = pretty n).
  { destruct z as [|p|p]; [right; by exists 0%N|right; by exists (N.pos p)|left; by eexists]. }
  destruct Hcase as [[p ->]|(n & -> & ->)].
  - change (pretty (Z.neg p)) with (String "-" (pretty (N.pos p))).
    destruct (pretty_N_digits (N.pos p)) as (Ha & k & Hk & Ht).
    rewrite trim_graphic by (cbn [all_chars]; by rewrite Ha).
    unfold parse_i64. cbn [take_sign]. rewrite Ht.
    change (- Z.of_N (N.pos p))%Z with (Z.neg p). rewrite Hz.
    by destruct k; [lia|].
  - destruct (pretty_N_digits n) as (Ha & k & Hk & Ht). rewrite trim_graphic by done.
    unfold parse_i64. rewrite graphic_first_digit, Ht, Hz. by destruct k; [lia|].
Qed.

(** ** The abstract log

    The entries ever appended, numbered from 1; the store still has all but the oldest
    [lost] of them. *)

Definition number (cs : list (string * string)) : list json :=
  imap (λ i c, history_record (Z.of_nat i + 1) c.1 c.2) cs.

Lemma number_length cs : length (number cs) = length cs.
Proof. apply length_imap. Qed.

Lemma number_snoc cs c :
  number (cs ++ [c]) = number cs ++ [history_record (Z.of_nat (length cs) + 1) c.1 c.2].
Proof. unfold number. rewrite imap_app. simpl. by rewrite Nat.add_0_r. Qed.

Lemma number_lookup cs i e :
  number cs !! i = Some e → ∃ c, cs !! i = Some c ∧ e = history_record (Z.of_nat i + 1) c.1 c.2.
Proof. unfold number. rewrite list_lookup_imap. intros (c & ? & [= <-])%bind_Some. eauto. Qed.

(** The numbers fit the cursor's type. *)
Definition fits (cs : list (string * string)) : Prop := (Z.of_nat (length cs) <= i64_max)%Z.

Lemma number_cursor cs i e :
  fits cs → number cs !! i = Some e → valid_cursor (jget "cursor" e) = Some (Z.of_nat i + 1)%Z ∧ json_ok e = true.
Proof.
  unfold fits. intros Hf (c & Hc & ->)%number_lookup. apply lookup_lt_Some in Hc.
  assert (Hi : in_i64 (Z.of_nat i + 1) = true) by (unfold in_i64, i64_min, i64_max in *; lia).
  split; [cbn; by rewrite Hi|].
  unfold json_ok. cbn [json_valid json_depth history_record]. cbn [fmap list_fmap fst forallb snd]. cbn.
  rewrite Hi. done.
Qed.

Section Store.
Context {from_str : string → option json} {to_string : json → string} `{!JsonCodec from_str to_string}.

Definition encode_lines (es : list json) : string :=
  foldr (λ l acc, l +:+ String nl acc) "" (to_string <$> es).

Lemma encode_lines_app es es' : encode_lines (es ++ es') = encode_lines es +:+ encode_lines es'.
Proof.
  unfold encode_lines. rewrite fmap_app. induction (to_string <$> es) as [|l ls IH]; [done|].
  cbn [app foldr]. rewrite IH, <-sapp_assoc. by rewrite sapp_cons.
Qed.

Lemma encode_lines_snoc es e : encode_lines (es ++ [e]) = encode_lines es +:+ to_string e +:+ String nl "".
Proof. by rewrite encode_lines_app. Qed.

Lemma read_encoded m es :
  read_file (history_file m) = encode_lines es → Forall (λ e, json_ok e = true) es →
  read_entries from_str m = es.
Proof.
  intros Hf Hok. assert (Hlines : lines (encode_lines es) = to_string <$> es).
  { apply lines_concat, Forall_fmap, Forall_true. intros e. apply codec_one_line. }
  transitivity (filter_map from_str (retain (λ l, negb (is_empty (trim l))) (lines (encode_lines es)))).
  { unfold read_entries. destruct (history_file m); [by rewrite <-Hf|]. by rewrite <-Hf. }
  rewrite Hlines, retain_all.
  - clear Hlines Hf. induction Hok as [|e es He _ IH]; [done|]. cbn. by rewrite codec_roundtrip, IH.
  - intros l (e & -> & _)%list_elem_of_fmap. destruct (codec_trimmed e) as [-> ?].
    by destruct (to_string e).
Qed.

(** The store holds the log: its entries but the lost ones, the last number, the Dream's. *)
Record refines (m : MemoryStore) (cs : list (string * string)) (lost dreamed : nat) : Prop := {
  ref_fits : fits cs;
  ref_lost : lost = 0 ∨ lost + max_history_entries m ≤ length cs;
  ref_file : read_file (history_file m) = encode_lines (drop lost (number cs));
  ref_cursor : cursor_file m = if length cs =? 0 then None else Some (pretty (Z.of_nat (length cs)));
  ref_dreamed : last_dream_cursor m = Z.of_nat dreamed
}.

Lemma numbered_ok cs k : fits cs → Forall (λ e, json_ok e = true) (drop k (number cs)).
Proof.
  intros Hf. apply Forall_drop, Forall_lookup. intros i e He. by eapply number_cursor.
Qed.

Lemma refines_entries m cs lost dreamed :
  refines m cs lost dreamed → read_entries from_str m = drop lost (number cs).
Proof. intros [Hf _ Hh _ _]. apply read_encoded; [done|]. by apply numbered_ok. Qed.

(** The valid entries of a part of the log are all of it, each with its number. *)
Lemma iter_numbered cs k :
  fits cs →
  filter_map (λ e, c ← valid_cursor (jget "cursor" e); Some (e, c)) (drop k (number cs)) =
  imap (λ i e, (e, Z.of_nat (k + i) + 1)%Z) (drop k (number cs)).
Proof.
  intros Hf.
  assert (H : ∀ j e, drop k (number cs) !! j = Some e →
    valid_cursor (jget "cursor" e) = Some (Z.of_nat (k + j) + 1)%Z).
  { intros j e. rewrite lookup_drop. intros He. by eapply number_cursor. }
  revert H. generalize (drop k (number cs)) as es. clear Hf. intros es. revert k.
  induction es as [|e es IH]; intros k H; [done|]. cbn [filter_map].
  rewrite (H 0 e eq_refl). cbn. f_equal. rewrite (IH (S k)).
  - apply imap_ext. intros j x _. cbn. do 2 f_equal. lia.
  - intros j x Hx. rewrite (H (S j) x Hx). do 2 f_equal. lia.
Qed.

Lemma retain_after (since k : nat) (es : list json) :
  (retain (λ ec, Z.of_nat since <? ec.2)%Z (imap (λ i e, (e, Z.of_nat (k + i) + 1)%Z) es)).*1 =
  drop (since - k) es.
Proof.
  revert k. induction es as [|e es IH]; intros k; [by rewrite drop_nil|]. cbn [imap List.filter snd].
  rewrite (imap_ext _ (λ i e, (e, Z.of_nat (S k + i) + 1)%Z)) by (intros; cbn; do 2 f_equal; lia).
  destruct (_ <? _)%Z eqn:E; cbn [fmap list_fmap fst]; rewrite ?IH; bool_to_prop.
  - assert (since - k = 0) as -> by lia. assert (since - S k = 0) as -> by lia. done.
  - assert (since - k = S (since - S k)) as -> by lia. done.
Qed.

Lemma refines_unprocessed m cs lost dreamed (since : nat) :
  refines m cs lost dreamed →
  read_unprocessed_history from_str m (Z.of_nat since) = drop (lost `max` since) (number cs).
Proof.
  intros H. unfold read_unprocessed_history, iter_valid_entries.
  rewrite (refines_entries _ _ _ _ H), iter_numbered, retain_after, drop_drop by apply H.
  f_equal. lia.
Qed.

Lemma refines_next m cs lost dreamed :
  refines m cs lost dreamed → (Z.of_nat (length cs) < i64_max)%Z →
  next_cursor from_str m = (Z.of_nat (length cs) + 1)%Z.
Proof.
  intros H Hlt. assert (Hi : ∀ z, (0 <= z <= i64_max)%Z → in_i64 z = true)
    by (unfold in_i64, i64_min, i64_max; lia).
  unfold next_cursor. rewrite (ref_cursor _ _ _ _ H). destruct (length cs =? 0) eqn:E; bool_to_prop.
  - assert (number cs = []) as Hnil by (apply length_zero_iff_nil; by rewrite number_length).
    cbn. pose proof (refines_entries _ _ _ _ H) as Hr. rewrite Hnil, drop_nil in Hr.
    assert (read_last_entry from_str m = None) as ->.
    { pose proof (ref_file _ _ _ _ H) as Hf. rewrite Hnil, drop_nil in Hf. unfold read_last_entry.
      destruct (history_file m); [cbn in Hf; by subst|done]. }
    unfold iter_valid_entries. rewrite Hr, E. reflexivity.
  - cbn. rewrite parse_pretty by (apply Hi; lia). rewrite wrap_i64_id by (apply Hi; lia). done.
Qed.

Lemma refines_append m cs lost dreamed ts entry max_chars :
  refines m cs lost dreamed → fits (cs ++ [(ts, entry_content entry max_chars)]) →
  ∃ m', append_history from_str to_string m ts entry max_chars = (m', (Z.of_nat (length cs) + 1)%Z) ∧
    max_history_entries m' = max_history_entries m ∧
    refines m' (cs ++ [(ts, entry_content entry max_chars)]) lost dreamed.
Proof.
  intros H Hf. pose proof Hf as Hl. unfold fits in Hl. rewrite length_app in Hl. cbn in Hl.
  unfold append_history. rewrite (refines_next _ _ _ _ H) by lia. eexists. split; [reflexivity|].
  split; [done|].
  assert (Hlost : lost ≤ length (number cs)) by (rewrite number_length; pose proof (ref_lost _ _ _ _ H); lia).
  split; cbn [append_line write_cursor with_history max_history_entries history_file cursor_file].
  - done.
  - pose proof (ref_lost _ _ _ _ H). rewrite length_app. lia.
  - rewrite number_snoc, drop_app_le, encode_lines_snoc, <-(ref_file _ _ _ _ H) by done.
    cbn [read_file default fst snd]. reflexivity.
  - rewrite length_app. cbn [length]. rewrite Nat2Z.inj_add. by destruct (length cs + 1 =? 0) eqn:E; bool_to_prop; [lia|].
  - apply H.
Qed.

(** What compaction leaves: the newest [max_history_entries], if any are too many. *)
Definition compacted (m : MemoryStore) (cs : list (string * string)) (lost : nat) : nat :=
  if max_history_entries m =? 0 then lost else lost `max` (length cs - max_history_entries m).

Lemma refines_compact m cs lost dreamed :
  refines m cs lost dreamed →
  refines (compact_history from_str to_string m) cs (compacted m cs lost) dreamed ∧
  max_history_entries (compact_history from_str to_string m) = max_history_entries m.
Proof.
  intros H. unfold compact_history, compacted.
  destruct (max_history_entries m =? 0) eqn:E0; [done|]. bool_to_prop.
  rewrite (refines_entries _ _ _ _ H), length_drop, number_length.
  pose proof (ref_lost _ _ _ _ H) as Hl.
  destruct (length cs - lost <=? max_history_entries m) eqn:E1; bool_to_prop.
  - assert (lost `max` (length cs - max_history_entries m) = lost) as -> by lia. done.
  - assert (lost `max` (length cs - max_history_entries m) = length cs - max_history_entries m) as -> by lia.
    split; [|done]. split; cbn [write_entries with_history max_history_entries history_file cursor_file read_file].
    + apply H.
    + lia.
    + rewrite drop_drop. assert (lost + (length cs - lost - max_history_entries m) = length cs - max_history_entries m)
        as -> by lia. done.
    + apply H.
    + apply H.
Qed.

(** ** Dreams *)

(** Where a Dream that completes leaves its cursor. *)
Definition advanced (cs : list (string * string)) (lost dreamed b : nat) : nat :=
  let k := (length cs - lost `max` dreamed) `min` b in
  if k =? 0 then dreamed else lost `max` dreamed + k.

Lemma advanced_le cs lost dreamed b :
  dreamed ≤ advanced cs lost dreamed b ∧ advanced cs lost dreamed b ≤ dreamed `max` length cs.
Proof. unfold advanced. destruct (_ =? 0) eqn:E; bool_to_prop; lia. Qed.

Lemma refines_batch m cs lost dreamed b :
  refines m cs lost dreamed →
  dream_batch from_str m b =
  (take b (drop (lost `max` dreamed) (number cs)), Z.of_nat (advanced cs lost dreamed b)).
Proof.
  intros H. unfold dream_batch. rewrite (ref_dreamed _ _ _ _ H), (refines_unprocessed _ _ _ _ dreamed H).
  set (es := drop _ _). assert (Hlen : length es = length cs - lost `max` dreamed)
    by (unfold es; by rewrite length_drop, number_length).
  assert (Htake : take (length es `min` b) es = take b es).
  { destruct (decide (length es ≤ b)); [rewrite Nat.min_l, !take_ge by lia; done|by rewrite Nat.min_r by lia]. }
  rewrite Htake. f_equal. unfold advanced. rewrite <-Hlen.
  rewrite last_lookup, length_take, (Nat.min_comm b). destruct (_ =? 0) eqn:E; bool_to_prop.
  { assert (take b es = []) as -> by (apply length_zero_iff_nil; rewrite length_take; lia). done. }
  rewrite lookup_take_lt by lia.
  destruct (lookup_lt_is_Some_2 es (pred (length es `min` b))) as [e He]; [lia|]. rewrite He. cbn [mbind option_bind].
  assert (Hn : number cs !! (lost `max` dreamed + pred (length es `min` b)) = Some e) by (rewrite <-lookup_drop; exact He).
  rewrite (proj1 (number_cursor _ _ _ (ref_fits _ _ _ _ H) Hn)). cbn [default]. unfold id. lia.
Qed.

Lemma refines_set_dream m cs lost dreamed (k : nat) :
  refines m cs lost dreamed → (Z.of_nat k <= i64_max)%Z →
  refines (set_last_dream_cursor m (Z.of_nat k)) cs lost k.
Proof.
  intros [Hf Hl Hh Hc _] Hk. split; [done..|].
  unfold last_dream_cursor, set_last_dream_cursor. cbn [dream_cursor_file mbind option_bind].
  rewrite parse_pretty; [done|]. unfold in_i64, i64_min, i64_max in *. lia.
Qed.

(** A Dream leaves the store alone when there is nothing new or its first request fails;
    otherwise it compacts it, after advancing the cursor past the batch if its run completed. *)
Lemma refines_dream D m cs lost dreamed :
  refines m cs lost dreamed → (Z.of_nat dreamed <= i64_max)%Z →
  let batch := take (max_batch_size D) (drop (lost `max` dreamed) (number cs)) in
  let response := phase1 D (phase1_user D m batch) in
  let res := phase2 D (phase2_user D m (default "" (rs_content response))) in
  let o := dream_run from_str to_string D m in
  if (length cs <=? lost `max` dreamed) || String.eqb (finish_reason response) "error"
  then dream_store o = m ∧ dream_ran o = false
  else dream_ran o = true ∧ max_history_entries (dream_store o) = max_history_entries m ∧
    refines (dream_store o) cs (compacted m cs lost)
      (if String.eqb (stop_reason res) "completed" then advanced cs lost dreamed (max_batch_size D) else dreamed).
Proof.
  intros H Hd. cbv zeta. unfold dream_run.
  rewrite (refines_batch _ _ _ _ _ H), (ref_dreamed _ _ _ _ H), (refines_unprocessed _ _ _ _ dreamed H).
  destruct (length cs <=? lost `max` dreamed) eqn:E; bool_to_prop.
  { rewrite bool_decide_true; [done|]. apply drop_ge. by rewrite number_length. }
  rewrite bool_decide_false by (intros He%(f_equal length); rewrite length_drop, number_length in He; cbn in He; lia).
  cbn [orb]. set (response := phase1 _ _). destruct (String.eqb (finish_reason response) "error"); [done|].
  set (res := phase2 _ _). unfold dream_finish.
  pose proof (advanced_le cs lost dreamed (max_batch_size D)). pose proof (ref_fits _ _ _ _ H) as Hf. unfold fits in Hf.
  destruct (String.eqb (stop_reason res) "completed"); cbn [dream_store dream_ran].
  - apply (refines_set_dream _ _ _ _ (advanced cs lost dreamed (max_batch_size D))) in H; [|lia].
    apply refines_compact in H as [Hr Hm]. done.
  - apply refines_compact in H as [Hr Hm]. done.
Qed.

(** ** Sequences of operations *)

Inductive mem_op :=
  | MAppend (ts entry : string) (max_chars : option Z)
  | MArchive (ts : string) (msgs : list json) (max_chars : option Z)
  | MCompact
  | MDream (D : DreamEnv).

Definition exec (m : MemoryStore) (o : mem_op) : MemoryStore :=
  match o with
  | MAppend ts entry max_chars => (append_history from_str to_string m ts entry max_chars).1
  | MArchive ts msgs max_chars => raw_archive from_str to_string m ts msgs max_chars
  | MCompact => compact_history from_str to_string m
  | MDream D => dream_store (dream_run from_str to_string D m)
  end.

(** What an operation adds to the log. *)
Definition logged (o : mem_op) : list (string * string) :=
  match o with
  | MAppend ts entry max_chars => [(ts, entry_content entry max_chars)]
  | MArchive ts msgs max_chars => [(ts, entry_content (raw_text msgs max_chars) None)]
  | MCompact | MDream _ => []
  end.

Definition represents (m : MemoryStore) (cs : list (string * string)) (lost dreamed : nat) : Prop :=
  refines m cs lost dreamed ∧ dreamed ≤ length cs.

Lemma represents_empty max_entries : represents (empty_memory max_entries) [] 0 0.
Proof. split; [|done]. split; [unfold fits, i64_max; cbn; lia|by left|done..]. Qed.

Lemma represents_exec m cs lost dreamed o :
  represents m cs lost dreamed → fits (cs ++ logged o) →
  max_history_entries (exec m o) = max_history_entries m ∧
  ∃ lost' dreamed', represents (exec m o) (cs ++ logged o) lost' dreamed'.
Proof.
  intros [H Hd] Hf. unfold represents. destruct o as [ts entry mc|ts msgs mc| |D]; cbn [exec logged] in *.
  - destruct (refines_append _ _ _ _ _ _ _ H Hf) as (m' & -> & ? & ?). split; [done|].
    exists lost, dreamed. rewrite length_app. split; [done|lia].
  - unfold raw_archive. destruct (refines_append _ _ _ _ _ _ _ H Hf) as (m' & -> & ? & ?). split; [done|].
    exists lost, dreamed. rewrite length_app. split; [done|lia].
  - rewrite app_nil_r. destruct (refines_compact _ _ _ _ H) as [? ?]. eauto.
  - rewrite app_nil_r in *. pose proof (advanced_le cs lost dreamed (max_batch_size D)).
    pose proof Hf as Hb. unfold fits in Hb.
    pose proof (refines_dream D m cs lost dreamed H ltac:(lia)) as Hdr. cbv zeta in Hdr.
    destruct (_ || _); [destruct Hdr as [-> _]; eauto|]. destruct Hdr as (_ & ? & ?). split; [done|].
    eexists _, _. split; [done|]. destruct (String.eqb _ "completed"); lia.
Qed.

Lemma represents_run ops m cs lost dreamed :
  represents m cs lost dreamed → fits (cs ++ (ops ≫= logged)) →
  max_history_entries (foldl exec m ops) = max_history_entries m ∧
  ∃ lost' dreamed', represents (foldl exec m ops) (cs ++ (ops ≫= logged)) lost' dreamed'.
Proof.
  revert m cs lost dreamed. induction ops as [|o ops IH]; intros m cs lost dreamed H Hf; cbn [foldl].
  { rewrite app_nil_r. eauto. }
  cbn [mbind list_bind] in *. rewrite app_assoc in *.
  destruct (represents_exec m cs lost dreamed o H) as (Hm & lost' & dreamed' & H').
  { unfold fits in *. rewrite length_app in Hf. lia. }
  destruct (IH _ _ _ _ H' Hf) as [Hm' ?]. split; [congruence|done].
Qed.

(** C8: A memory store used only through its operations (appends, archives, compactions and
    Dreams, in any order and with any outcome) refines a numbered log: it reads back the
    entries ever appended, numbered 1, 2, 3, and so on, short of a number of the oldest that
    compaction removed, of which there are none as long as fewer than the limit are kept; the
    unprocessed entries are those after the given number, and the next append gets the next
    number. *)
Theorem memory_refines_log (max_entries : option nat) (ops : list mem_op) :
  let log := ops ≫= logged in
  let m := foldl exec (empty_memory max_entries) ops in
  fits log →
  ∃ lost dreamed,
    (lost = 0 ∨ lost + default DEFAULT_MAX_HISTORY max_entries ≤ length log) ∧
    read_entries from_str m = drop lost (number log) ∧
    (∀ since : nat, read_unprocessed_history from_str m (Z.of_nat since) = drop (lost `max` since) (number log)) ∧
    last_dream_cursor m = Z.of_nat dreamed ∧ dreamed ≤ length log ∧
    ((Z.of_nat (length log) < i64_max)%Z → next_cursor from_str m = (Z.of_nat (length log) + 1)%Z).
Proof.
  intros log m Hf.
  destruct (represents_run ops _ _ _ _ (represents_empty max_entries) Hf) as (Hm & lost & dreamed & H & Hd).
  rewrite app_nil_l in *. fold m in Hm, H. exists lost, dreamed. split_and!.
  - pose proof (ref_lost _ _ _ _ H) as Hl. by rewrite Hm in Hl.
  - by eapply refines_entries.
  - intros since. by eapply refines_unprocessed.
  - apply H.
  - done.
  - by eapply refines_next.
Qed.

(** *** Dreams that succeed *)

Definition eager (D : DreamEnv) : Prop :=
  (∀ msg, finish_reason (phase1 D msg) ≠ "error") ∧ (∀ msg, stop_reason (phase2 D msg) = "completed").

Lemma eager_step D m cs lost dreamed :
  represents m cs lost dreamed → eager D →
  ∃ lost' dreamed', represents (dream_store (dream_run from_str to_string D m)) cs lost' dreamed' ∧
    length cs - lost' `max` dreamed' ≤ length cs - lost `max` dreamed - max_batch_size D.
Proof.
  intros [H Hd] [H1 H2]. pose proof (ref_fits _ _ _ _ H) as Hb. unfold fits in Hb.
  pose proof (refines_dream D m cs lost dreamed H ltac:(lia)) as Hdr. cbv zeta in Hdr.
  destruct (String.eqb_spec (finish_reason (phase1 D (phase1_user D m
    (take (max_batch_size D) (drop (lost `max` dreamed) (number cs)))))) "error") as [He|_]; [by apply H1 in He|].
  rewrite orb_false_r, H2, String.eqb_refl in Hdr. destruct (_ <=? _) eqn:E; bool_to_prop.
  - destruct Hdr as [-> _]. exists lost, dreamed. split; [by split|lia].
  - destruct Hdr as (_ & _ & Hr). pose proof (advanced_le cs lost dreamed (max_batch_size D)).
    eexists _, _. split; [split; [exact Hr|lia]|]. unfold compacted, advanced.
    destruct (max_history_entries m =? 0); destruct (_ =? 0) eqn:E0; bool_to_prop; lia.
Qed.

Lemma eager_steps D k m cs lost dreamed :
  represents m cs lost dreamed → eager D →
  ∃ lost' dreamed', represents (Nat.iter k (λ m, dream_store (dream_run from_str to_string D m)) m) cs lost' dreamed' ∧
    length cs - lost' `max` dreamed' ≤ length cs - lost `max` dreamed - k * max_batch_size D.
Proof.
  intros H HD. induction k as [|k (lost1 & dreamed1 & H1 & Hle1)]; cbn [Nat.iter nat_rect].
  - exists lost, dreamed. split; [done|lia].
  - destruct (eager_step D _ _ _ _ H1 HD) as (lost2 & dreamed2 & H2 & Hle2).
    exists lost2, dreamed2. split; [exact H2|]. lia.
Qed.

(** Dreams catch up: whatever was done to the store before, as many Dreams as it takes
    batches to cover all entries ever appended, each with an answer to its first request and
    a completed run, leave no entry unprocessed. *)
Theorem dreams_catch_up (max_entries : option nat) (ops : list mem_op) (D : DreamEnv) (k : nat) :
  let log := ops ≫= logged in
  let m := Nat.iter k (λ m, dream_store (dream_run from_str to_string D m)) (foldl exec (empty_memory max_entries) ops) in
  fits log → eager D → length log ≤ k * max_batch_size D →
  read_unprocessed_history from_str m (last_dream_cursor m) = [].
Proof.
  intros log m Hf HD Hk.
  destruct (represents_run ops _ _ _ _ (represents_empty max_entries) Hf) as (_ & lost & dreamed & H).
  rewrite app_nil_l in H.
  destruct (eager_steps D k _ _ _ _ H HD) as (lost' & dreamed' & [H' _] & Hle). fold m log in H', Hle.
  rewrite (ref_dreamed _ _ _ _ H'), (refines_unprocessed _ _ _ _ dreamed' H').
  apply drop_ge. rewrite number_length. lia.
Qed.
End Store.

(** ** What goes wrong *)

(** An append cut off between its two writes leaves the next append with the same number. *)
Theorem interrupted_append_reuses_cursor (from_str : string → option json) (to_string : json → string)
    (m : MemoryStore) (r : json) (n : Z) :
  cursor_file m ≫= (λ s, parse_i64 (trim s)) = Some n →
  next_cursor from_str (append_line to_string m r) = next_cursor from_str m.
Proof. intros H. unfold next_cursor. cbn [append_line with_history cursor_file]. by rewrite H. Qed.

(** A Dream whose run completes never asks for a commit, since the result of a completed run
    lists no tool events. *)
Theorem completed_dream_never_commits {W} (E : Env W) (spec : AgentRunSpec W) (fuel sfuel : nat) (w w' : W)
    (res : AgentRunResult) (trace : list RunEvent) from_str to_string m batch cursor git analysis :
  run_agent E spec fuel sfuel w = Returns (w', res, trace) → stop_reason res = "completed" →
  (dream_finish from_str to_string m batch cursor git analysis res).2 = None.
Proof.
  intros Hrun Hc. apply run_coherent in Hrun.
  assert (tool_events res = []) as Hev
    by (destruct Hrun as [(_ & _ & _ & ? & _)|[(? & _)|[(? & _)|[(? & _)|[(? & _)|(? & _)]]]]]; [done|congruence..]).
  unfold dream_finish, dream_changelog. by rewrite Hev.
Qed.

(** ** Concrete inputs *)

Definition demo_dream : DreamEnv :=
  mkDreamEnv 2 true "2025-01-01" [] "" true
    (λ _, mkResponse (Some "analysis") [] "stop" [] None None None None None None None None None)
    (λ _, mkResult (Some "done") [] [] ∅ "completed" None [] false).

Definition demo_ops : list mem_op :=
  [MAppend "t1" "one " None; MArchive "t2" [JObj [("role", JStr "user"); ("content", JStr "hi")]] None;
   MAppend "t3" "three" (Some 3%Z); MCompact; MDream demo_dream].

Definition demo_memory : MemoryStore :=
  foldl (exec (from_str := binary_from_str) (to_string := binary_to_string)) (empty_memory (Some 2)) demo_ops.

Lemma demo_fits : fits (demo_ops ≫= logged).
Proof. vm_compute. discriminate. Qed.

(** Compaction has dropped the first entry; the Dream has processed the other two. *)
Example demo_memory_cursors :
  ((λ e, valid_cursor (jget "cursor" e)) <$> read_entries binary_from_str demo_memory,
   last_dream_cursor demo_memory, next_cursor binary_from_str demo_memory) =
  ([Some 2; Some 3], 3, 4)%Z.
Proof. vm_compute. reflexivity. Qed.

Lemma memory_refines_log_witness :
  ∃ lost, read_entries binary_from_str demo_memory = drop lost (number (demo_ops ≫= logged)).
Proof.
  destruct (memory_refines_log (from_str := binary_from_str) (to_string := binary_to_string)
    (Some 2) demo_ops demo_fits) as (lost & _ & _ & H & _).
  exists lost. exact H.
Defined.

Lemma dreams_catch_up_witness :
  let m := Nat.iter 2 (λ m, dream_store (dream_run binary_from_str binary_to_string demo_dream m)) demo_memory in
  read_unprocessed_history binary_from_str m (last_dream_cursor m) = [].
Proof.
  apply (dreams_catch_up (from_str := binary_from_str) (to_string := binary_to_string)
    (Some 2) demo_ops demo_dream 2 demo_fits).
  - split; [discriminate|reflexivity].
  - vm_compute. lia.
Defined.
