(* ===== verification/Sensitive.v ===== *)
(** * The sensitive-word filter

    [crates/hiveweb/src/services/sensitive_filter.rs] with its rows and requests
    ([models/sensitive_word.rs]): the matchers built from the table, the check of a text, and
    the administration of the words, each of which reloads the matchers.  The table is the
    list of its rows by id, with the unique key and the column width of its migration; the
    database answers every query but the reload, whose failure the code handles; the texts
    of its errors are left out.

    Arguments stand for what is not in the repository: [lower] for [str::to_lowercase],
    [ac_new] for the constructor of the Aho-Corasick automaton and the search it gives,
    [regex_new] for the regular-expression compiler ([true] with the size limit the filter
    sets), and [same_word] for the collation of the database. *)

From S2P Require Import Prelude RustStr Json.

Local Open Scope stdpp_scope.
Local Open Scope hive_scope.

Inductive AppError := BadRequest (msg : string) | Internal (msg : string).

Record SensitiveWord := mkWord {
  w_id : Z;
  w_word : string;
  w_mode : string;
  w_enabled : bool
}.

Record CreateSensitiveWordRequest := mkCreate { cr_word : string; cr_mode : string }.

Record UpdateSensitiveWordRequest := mkUpdate {
  up_word : option string;
  up_mode : option string;
  up_enabled : option bool
}.

Inductive SensitivePattern :=
| PExact (id : Z) (word : string)
| PRegex (id : Z) (word : string) (is_match : string → bool).

Definition pattern_id (p : SensitivePattern) : Z :=
  match p with PExact id _ | PRegex id _ _ => id end.

Definition pattern_word (p : SensitivePattern) : string :=
  match p with PExact _ w | PRegex _ w _ => w end.

Record SensitiveFilter := mkFilter {
  patterns : list SensitivePattern;
  ac : option (string → bool);
  exact_words : list (Z * string)
}.

Definition new_filter : SensitiveFilter := mkFilter [] None [].

Record WordTable := mkTable { t_rows : list SensitiveWord; t_next : Z }.

(** [WHERE id = ?]. *)
Definition fetch_word (t : WordTable) (id : Z) : option SensitiveWord :=
  find_first (λ r, Z.eqb (w_id r) id) (t_rows t).

Section Filter.
Variable lower : string → string.
Variable ac_new : list string → option (string → bool).
Variable regex_new : bool → string → option (string → bool).
Variable same_word : string → string → bool.

(** ** Matching *)

Definition build_pattern (row : SensitiveWord) : option SensitivePattern :=
  if String.eqb (w_mode row) "regex"
  then PRegex (w_id row) (w_word row) <$> regex_new true (w_word row)
  else Some (PExact (w_id row) (w_word row)).

Definition exact_tuple (row : SensitiveWord) : option (Z * string) :=
  if String.eqb (w_mode row) "regex" then None else Some (w_id row, w_word row).

(** The three replacements are made under separate locks, one after the other. *)
Definition build_matchers (rows : list SensitiveWord) : SensitiveFilter :=
  let pats := filter_map build_pattern rows in
  let exact := filter_map exact_tuple rows in
  let automaton := if bool_decide (exact = []) then None else ac_new exact.*2 in
  mkFilter pats automaton exact.

Definition enabled_rows (t : WordTable) : list SensitiveWord := retain w_enabled (t_rows t).

Definition load_from_db (t : WordTable) : SensitiveFilter := build_matchers (enabled_rows t).

Definition exact_hit (text : string) (p : SensitivePattern) : bool :=
  match p with PExact _ w => contains_str (lower text) (lower w) | PRegex _ _ _ => false end.

Definition regex_hit (text : string) (p : SensitivePattern) : bool :=
  match p with PExact _ _ => false | PRegex _ _ f => f text end.

Definition check (flt : SensitiveFilter) (text : string) : option SensitivePattern :=
  if is_empty text then None
  else
    let exact := match ac flt with
                 | Some f => if f text then find_first (exact_hit text) (patterns flt) else None
                 | None => None
                 end in
    match exact with
    | Some p => Some p
    | None => find_first (regex_hit text) (patterns flt)
    end.

(** ** Administration *)

(** What the unique key and the width of the column refuse. *)
Inductive RowError := Duplicate | DataTooLong.

Definition clashes (word mode : string) (r : SensitiveWord) : bool :=
  same_word (w_word r) word && same_word (w_mode r) mode.

Definition row_error (others : list SensitiveWord) (word mode : string) : option RowError :=
  if 512 <? chars_count word then Some DataTooLong
  else if existsb (clashes word mode) others then Some Duplicate
  else None.

Definition row_failure (what : string) (e : RowError) : AppError :=
  match e with
  | Duplicate => BadRequest "该敏感词已存在"
  | DataTooLong => Internal what
  end.

Definition valid_mode (mode : string) : bool := String.eqb mode "exact" || String.eqb mode "regex".

(** The checks create and update share: the mode, and that a regular expression compiles. *)
Definition check_mode (word mode : string) : result unit AppError :=
  if negb (valid_mode mode) then Err (BadRequest "match_mode 必须为 exact 或 regex")
  else if String.eqb mode "regex" then
    match regex_new false word with
    | None => Err (BadRequest "正则表达式无效")
    | Some _ => Ok tt
    end
  else Ok tt.

(** [refresh_ok] says whether the reload succeeds; its failure is only logged. *)
Definition refresh (refresh_ok : bool) (flt : SensitiveFilter) (t : WordTable) : SensitiveFilter :=
  if refresh_ok then load_from_db t else flt.

Definition create_sensitive_word (refresh_ok : bool) (t : WordTable) (flt : SensitiveFilter)
    (req : CreateSensitiveWordRequest) : WordTable * SensitiveFilter * result SensitiveWord AppError :=
  let word := trim (cr_word req) in
  if is_empty word then (t, flt, Err (BadRequest "敏感词不能为空"))
  else if 512 <? String.length word then (t, flt, Err (BadRequest "敏感词不能超过512个字符"))
  else match check_mode word (cr_mode req) with
  | Err e => (t, flt, Err e)
  | Ok _ =>
      match row_error (t_rows t) word (cr_mode req) with
      | Some e => (t, flt, Err (row_failure "create sensitive word" e))
      | None =>
          let row := mkWord (t_next t) word (cr_mode req) true in
          let t' := mkTable (t_rows t ++ [row]) (t_next t + 1) in
          (t', refresh refresh_ok flt t', Ok row)
      end
  end.

Definition set_row (row : SensitiveWord) (t : WordTable) : WordTable :=
  mkTable ((λ r, if Z.eqb (w_id r) (w_id row) then row else r) <$> t_rows t) (t_next t).

Definition update_sensitive_word (refresh_ok : bool) (t : WordTable) (flt : SensitiveFilter) (id : Z)
    (req : UpdateSensitiveWordRequest) : WordTable * SensitiveFilter * result SensitiveWord AppError :=
  match fetch_word t id with
  | None => (t, flt, Err (BadRequest "敏感词不存在"))
  | Some existing =>
      let word := trim (default (w_word existing) (up_word req)) in
      let mode := default (w_mode existing) (up_mode req) in
      if is_empty word then (t, flt, Err (BadRequest "敏感词不能为空"))
      else match check_mode word mode with
      | Err e => (t, flt, Err e)
      | Ok _ =>
          let others := retain (λ r, negb (Z.eqb (w_id r) id)) (t_rows t) in
          match row_error others word mode with
          | Some e => (t, flt, Err (row_failure "update sensitive word" e))
          | None =>
              let row := mkWord id word mode (default (w_enabled existing) (up_enabled req)) in
              let t' := set_row row t in
              (t', refresh refresh_ok flt t', Ok row)
          end
      end
  end.

Definition delete_sensitive_word (refresh_ok : bool) (t : WordTable) (flt : SensitiveFilter) (id : Z)
    : WordTable * SensitiveFilter * bool :=
  let deleted := bool_decide (is_Some (fetch_word t id)) in
  let t' := mkTable (retain (λ r, negb (Z.eqb (w_id r) id)) (t_rows t)) (t_next t) in
  (t', if deleted then refresh refresh_ok flt t' else flt, deleted).

(** [page.max(1)], [page_size.clamp(1, 100)]; newest first.  The parameter [_enabled] is not
    used; the database refuses the negative offset of a product that wrapped. *)
Definition like_match (search : option string) (r : SensitiveWord) (like : string → string → bool) : bool :=
  match search with
  | None | Some "" => true
  | Some keyword => like ("%" +:+ keyword +:+ "%") (w_word r)
  end.

Definition list_sensitive_words (like : string → string → bool) (t : WordTable) (page page_size : Z)
    (search : option string) (enabled : option bool) : result (Z * list SensitiveWord) AppError :=
  let page := Z.max page 1 in
  let page_size := Z.min (Z.max page_size 1) 100 in
  let found := retain (λ r, like_match search r like) (t_rows t) in
  let offset := wrap_i64 ((page - 1) * page_size) in
  if (offset <? 0)%Z then Err (Internal "sensitive words list")
  else Ok (Z.of_nat (length found), take (Z.to_nat page_size) (drop (Z.to_nat offset) (reverse found))).
End Filter.

(** ** What the automaton does

    Searching succeeds exactly on the texts that contain one of the words, byte by byte. *)
Class AhoCorasick (ac_new : list string → option (string → bool)) : Prop := {
  ac_builds : ∀ ws, is_Some (ac_new ws);
  ac_searches : ∀ ws f text, ac_new ws = Some f → f text = existsb (contains_str text) ws
}.

Definition naive_ac (ws : list string) : option (string → bool) := Some (λ text, existsb (contains_str text) ws).

#[export] Instance naive_ac_searches : AhoCorasick naive_ac.
Proof. split; [by eexists|]. by intros ws f text [= <-]. Qed.

Section Facts.
Context {lower : string → string} {ac_new : list string → option (string → bool)} `{!AhoCorasick ac_new}.
Context {regex_new : bool → string → option (string → bool)}.

(** When a row of the table stands for a text. *)
Definition row_hits (text : string) (r : SensitiveWord) : bool :=
  if String.eqb (w_mode r) "regex"
  then match regex_new true (w_word r) with Some f => f text | None => false end
  else contains_str text (w_word r).

(** Lower-casing keeps the occurrence of the exact words in the text. *)
Definition lowers_well (text : string) (rows : list SensitiveWord) : Prop :=
  ∀ r, r ∈ rows → contains_str text (w_word r) = true → contains_str (lower text) (lower (w_word r)) = true.

Lemma in_matchers p rows :
  p ∈ patterns (build_matchers ac_new regex_new rows) ↔
  ∃ r, r ∈ rows ∧
    ((String.eqb (w_mode r) "regex" = false ∧ p = PExact (w_id r) (w_word r)) ∨
     (String.eqb (w_mode r) "regex" = true ∧ ∃ f, regex_new true (w_word r) = Some f ∧ p = PRegex (w_id r) (w_word r) f)).
Proof.
  cbn [build_matchers patterns]. rewrite elem_of_filter_map. unfold build_pattern. split.
  - intros (r & Hr & Hp). exists r. split; [done|]. destruct (String.eqb _ _); [|naive_solver].
    apply fmap_Some in Hp as (f & Hf & ->). naive_solver.
  - intros (r & Hr & [[Hm ->]|(Hm & f & Hf & ->)]); exists r; rewrite Hm; [done|]. by rewrite Hf.
Qed.

Lemma in_exact_words rows w :
  w ∈ (exact_words (build_matchers ac_new regex_new rows)).*2 ↔
  ∃ r, r ∈ rows ∧ String.eqb (w_mode r) "regex" = false ∧ w_word r = w.
Proof.
  cbn [build_matchers exact_words]. rewrite list_elem_of_fmap. unfold exact_tuple. split.
  - intros ([i v] & -> & (r & Hr & Hx)%elem_of_filter_map). exists r. destruct (String.eqb _ _); naive_solver.
  - intros (r & Hr & Hm & <-). exists (w_id r, w_word r). split; [done|].
    apply elem_of_filter_map. exists r. by rewrite Hm.
Qed.

(** The automaton answers for the exact rows. *)
Lemma automaton_exact rows text :
  match ac (build_matchers ac_new regex_new rows) with Some f => f text | None => false end = true ↔
  ∃ r, r ∈ rows ∧ String.eqb (w_mode r) "regex" = false ∧ contains_str text (w_word r) = true.
Proof.
  pose proof (in_exact_words rows) as Hin. cbn [build_matchers ac exact_words] in *.
  destruct (bool_decide_reflect (filter_map exact_tuple rows = [])) as [E|E].
  - rewrite E in Hin. split; [done|]. intros (r & Hr & Hm & _).
    destruct (not_elem_of_nil (w_word r)). apply Hin. eauto.
  - destruct (ac_builds (filter_map exact_tuple rows).*2) as [f Hf]. rewrite Hf, (ac_searches _ _ text Hf).
    rewrite existsb_exists. split.
    + intros (w & (r & Hr & Hm & <-)%list_elem_of_In%Hin & Hc). eauto.
    + intros (r & Hr & Hm & Hc). exists (w_word r). split; [|done]. apply list_elem_of_In, Hin. eauto.
Qed.

Lemma regex_patterns rows text p :
  p ∈ patterns (build_matchers ac_new regex_new rows) → regex_hit text p = true →
  ∃ r, r ∈ rows ∧ row_hits text r = true.
Proof.
  intros (r & Hr & [[Hm ->]|(Hm & f & Hf & ->)])%in_matchers; [done|]. cbn. intros Ht.
  exists r. unfold row_hits. by rewrite Hm, Hf.
Qed.

Lemma check_complete rows text r :
  lowers_well text rows → is_empty text = false → r ∈ rows → row_hits text r = true →
  is_Some (check lower (build_matchers ac_new regex_new rows) text).
Proof.
  intros Hlow Hne Hr Hhit. unfold check. rewrite Hne. pose proof (automaton_exact rows text) as Hac.
  set (flt := build_matchers ac_new regex_new rows) in *. unfold row_hits in Hhit.
  destruct (String.eqb (w_mode r) "regex") eqn:Hm.
  - destruct (regex_new true (w_word r)) as [f|] eqn:Hf; [|done].
    assert (Hin : PRegex (w_id r) (w_word r) f ∈ patterns flt) by (apply in_matchers; naive_solver).
    destruct (match ac flt with
    | Some g => if g text then find_first (exact_hit lower text) (patterns flt) else None
    | None => None
    end) eqn:E; [by eexists|].
    destruct (find_first (regex_hit text) (patterns flt)) eqn:Er; [by eexists|].
    rewrite find_first_None in Er. specialize (Er _ Hin). cbn in Er. congruence.
  - assert (Hf : match ac flt with Some f => f text | None => false end = true) by (apply Hac; eauto).
    destruct (ac flt) as [f|]; [|done]. rewrite Hf.
    destruct (find_first (exact_hit lower text) (patterns flt)) eqn:Ee; [by eexists|].
    rewrite find_first_None in Ee. specialize (Ee (PExact (w_id r) (w_word r))). cbn in Ee.
    rewrite Hlow in Ee; [|done..]. discriminate Ee. apply in_matchers. naive_solver.
Qed.

Lemma check_sound rows text p :
  check lower (build_matchers ac_new regex_new rows) text = Some p →
  p ∈ patterns (build_matchers ac_new regex_new rows) ∧ (exact_hit lower text p || regex_hit text p) = true ∧
  is_empty text = false ∧ ∃ r, r ∈ rows ∧ row_hits text r = true.
Proof.
  unfold check. destruct (is_empty text); [done|]. pose proof (automaton_exact rows text) as Hac.
  set (flt := build_matchers ac_new regex_new rows) in *.
  destruct (match ac flt with
    | Some g => if g text then find_first (exact_hit lower text) (patterns flt) else None
    | None => None
    end) eqn:E.
  - intros [= <-]. destruct (ac flt) as [f|]; [|done]. destruct (f text); [|done].
    apply find_first_Some in E as [Hin ->]. destruct (proj1 Hac eq_refl) as (r & Hr & Hm & Hc).
    split; [done|]. split; [done|]. split; [done|]. exists r. unfold row_hits. by rewrite Hm.
  - intros [Hin Hhit]%find_first_Some. rewrite Hhit, orb_true_r. split_and!; [done..|].
    by eapply regex_patterns.
Qed.

(** A filter loaded from the table finds something in a text exactly when the text is not
    empty and an enabled exact word occurs in it, byte for byte, or an enabled expression that
    compiles matches it; what it reports is an enabled row whose word occurs up to case or
    whose expression matches.  Lower-casing must keep the occurrences in the text. *)
Theorem check_exact (t : WordTable) (text : string) :
  lowers_well text (enabled_rows t) →
  let hit := check lower (load_from_db ac_new regex_new t) text in
  (is_Some hit ↔ is_empty text = false ∧ ∃ r, r ∈ t_rows t ∧ w_enabled r = true ∧ row_hits text r = true) ∧
  (∀ p, hit = Some p → ∃ r, r ∈ t_rows t ∧ w_enabled r = true ∧ pattern_id p = w_id r ∧ pattern_word p = w_word r ∧
     (exact_hit lower text p || regex_hit text p) = true).
Proof.
  intros Hlow hit. assert (Hrow : ∀ r, r ∈ enabled_rows t ↔ r ∈ t_rows t ∧ w_enabled r = true)
    by (intros r; apply retain_elem_of).
  split; [split|].
  - intros [p (_ & _ & Hne & r & Hr & ?)%check_sound]. apply Hrow in Hr as [? ?]. eauto.
  - intros (Hne & r & ? & ? & ?). eapply check_complete; [done..| |done]. by apply Hrow.
  - intros p ((r & Hr & Hp)%in_matchers & Hhit & _)%check_sound. apply Hrow in Hr as [? ?].
    exists r. destruct Hp as [[_ ->]|(_ & f & _ & ->)]; done.
Qed.

(** ** Administration keeps the filter in step with the table *)

Context {same_word : string → string → bool}.

Inductive admin_op :=
| OpCreate (req : CreateSensitiveWordRequest)
| OpUpdate (id : Z) (req : UpdateSensitiveWordRequest)
| OpDelete (id : Z).

Definition admin_step (s : WordTable * SensitiveFilter) (o : admin_op) : WordTable * SensitiveFilter :=
  match o with
  | OpCreate req => (create_sensitive_word ac_new regex_new same_word true s.1 s.2 req).1
  | OpUpdate id req => (update_sensitive_word ac_new regex_new same_word true s.1 s.2 id req).1
  | OpDelete id => (delete_sensitive_word ac_new regex_new true s.1 s.2 id).1
  end.

(** Rows carry the identifiers they were given, in order, below the next one; a word is
    trimmed, not empty and has a known mode. *)
Definition row_ok (r : SensitiveWord) : Prop := w_word r ≠ "" ∧ valid_mode (w_mode r) = true.

Record table_ok (t : WordTable) : Prop := {
  ok_ids : NoDup (w_id <$> t_rows t);
  ok_next : Forall (λ r, w_id r < t_next t)%Z (t_rows t);
  ok_rows : Forall row_ok (t_rows t)
}.

Lemma check_mode_ok word mode u :
  check_mode regex_new word mode = Ok u → valid_mode mode = true.
Proof. unfold check_mode. by destruct (valid_mode mode). Qed.

Lemma retain_id_absent (id : Z) (rows : list SensitiveWord) :
  find_first (λ r, Z.eqb (w_id r) id) rows = None → retain (λ r, negb (Z.eqb (w_id r) id)) rows = rows.
Proof. intros H. apply retain_all. intros r Hr. rewrite find_first_None in H. by rewrite H. Qed.

Lemma set_row_ids row t : w_id <$> t_rows (set_row row t) = w_id <$> t_rows t.
Proof.
  cbn. rewrite <-list_fmap_compose. apply list_fmap_ext. intros i r _. cbn.
  by destruct (Z.eqb_spec (w_id r) (w_id row)).
Qed.

Lemma set_row_Forall (P : SensitiveWord → Prop) row t :
  P row → Forall P (t_rows t) → Forall P (t_rows (set_row row t)).
Proof.
  intros Hrow H. cbn. apply Forall_fmap. apply (Forall_impl _ _ _ H). intros r Hr. cbn. by destruct (Z.eqb _ _).
Qed.

Lemma admin_step_ok s o :
  table_ok s.1 ∧ s.2 = load_from_db ac_new regex_new s.1 →
  table_ok (admin_step s o).1 ∧ (admin_step s o).2 = load_from_db ac_new regex_new (admin_step s o).1.
Proof.
  destruct s as [t flt]. cbn [fst snd]. intros [[Hids Hnext Hrows] ->].
  destruct o as [req|id req|id]; cbn [admin_step fst snd].
  - unfold create_sensitive_word. destruct (is_empty (trim (cr_word req))) eqn:He; [by repeat split|].
    destruct (_ <? _); [by repeat split|]. destruct (check_mode _ _ _) as [u|e] eqn:Hm; [|by repeat split].
    destruct (row_error _ _ _ _); [by repeat split|]. cbn. split; [|done]. split; cbn.
    + rewrite fmap_app. apply NoDup_app. split_and!; [done| |apply NoDup_singleton].
      intros x (r & -> & Hr)%list_elem_of_fmap Hx. rewrite Forall_forall in Hnext. specialize (Hnext r Hr).
      apply list_elem_of_singleton in Hx. cbn in Hx. lia.
    + apply Forall_app. split; [|by constructor; cbn; [lia|]]. apply (Forall_impl _ _ _ Hnext). cbn. lia.
    + apply Forall_app. split; [done|]. constructor; [|done]. split; cbn; [by intros E; rewrite E in He|].
      by eapply check_mode_ok.
  - unfold update_sensitive_word. destruct (fetch_word t id) as [ex|] eqn:Hex; [|by repeat split].
    destruct (is_empty _) eqn:He; [by repeat split|]. destruct (check_mode _ _ _) as [u|e] eqn:Hm; [|by repeat split].
    destruct (row_error _ _ _ _); [by repeat split|]. cbn [fst snd]. split; [|done].
    apply find_first_Some in Hex as [Hin Hid]. apply Z.eqb_eq in Hid. split.
    + by rewrite set_row_ids.
    + apply set_row_Forall; [|done]. rewrite Forall_forall in Hnext. specialize (Hnext _ Hin). cbn. lia.
    + apply set_row_Forall; [|done]. split; cbn; [by intros E; rewrite E in He|]. by eapply check_mode_ok.
  - unfold delete_sensitive_word. cbn [fst snd]. set (keep := λ r, negb (Z.eqb (w_id r) id)).
    pose proof (retain_sublist keep (t_rows t)) as Hsub. split.
    + split; cbn; [eapply sublist_NoDup; [exact Hids|by apply fmap_sublist]|by apply retain_Forall..].
    + destruct (bool_decide_reflect (is_Some (fetch_word t id))) as [|E]; [done|].
      apply eq_None_not_Some in E. unfold keep. rewrite retain_id_absent by done. by destruct t.
Qed.

(** However the words are administered, starting from an empty table and filter, and
    with every reload succeeding, the filter in memory is the one the table describes, the
    identifiers are distinct and every word is usable. *)
Theorem admin_in_step (ops : list admin_op) :
  let s := foldl admin_step (mkTable [] 1, new_filter) ops in
  table_ok s.1 ∧ s.2 = load_from_db ac_new regex_new s.1.
Proof.
  assert (H : ∀ s, table_ok s.1 ∧ s.2 = load_from_db ac_new regex_new s.1 →
    let s' := foldl admin_step s ops in table_ok s'.1 ∧ s'.2 = load_from_db ac_new regex_new s'.1).
  { induction ops as [|o ops IH]; intros s Hs; [done|]. by apply IH, admin_step_ok. }
  apply H. split; [split; constructor|done].
Qed.
End Facts.

(** ** Concrete words *)

Definition demo_words : WordTable :=
  mkTable [mkWord 1 "badword" "exact" true; mkWord 2 "a+b" "regex" true; mkWord 3 "off" "exact" false] 4.

Definition demo_regex (limited : bool) (w : string) : option (string → bool) :=
  if String.eqb w "(" then None else Some (λ text, contains_str text "aab").

Lemma check_exact_witness :
  check to_lowercase (load_from_db naive_ac demo_regex demo_words) "a badword" = Some (PExact 1 "badword") ∧
  is_Some (check to_lowercase (load_from_db naive_ac demo_regex demo_words) "a badword").
Proof.
  split; [reflexivity|].
  destruct (check_exact (lower := to_lowercase) (ac_new := naive_ac) (regex_new := demo_regex) demo_words "a badword")
    as [H _].
  - intros r Hr. cbn in Hr. repeat (apply elem_of_cons in Hr as [->|Hr]; [by vm_compute|]). by apply not_elem_of_nil in Hr.
  - apply H. split; [reflexivity|]. exists (mkWord 1 "badword" "exact" true).
    split; [apply elem_of_cons; by left|]. split; reflexivity.
Defined.

(** The patterns are documented to match whatever the case, but the automaton is built
    case-sensitive and asked first. *)
Theorem case_insensitive_miss :
  let flt := load_from_db naive_ac demo_regex demo_words in
  contains_str (to_lowercase "a BadWord") (to_lowercase "badword") = true ∧ check to_lowercase flt "a BadWord" = None.
Proof. split; reflexivity. Qed.
