(* ===== verification/Heartbeat.v ===== *)
(** * The heartbeat

    [crates/heartbeat/src/service.rs] and [crates/utils/src/evaluator.rs]: a periodic task
    asks the model whether [HEARTBEAT.md] holds active tasks, has them executed and delivers
    the answer.  Deciding goes through the retries of [Retry]; executor, evaluator and
    notifier act on an abstract world.  A log line that is printed slices its text, so the
    log level is part of the model.  The service is a state machine of its loop and of the
    ticks the loop spawns. *)

From S2P Require Import Prelude RustStr F64 Json Provider Retry.

Local Open Scope stdpp_scope.
Local Open Scope hive_scope.

Inductive HeartbeatAction := HbSkip | HbRun.

#[export] Instance HeartbeatAction_eq_dec : EqDecision HeartbeatAction.
Proof. solve_decision. Defined.

Record HeartbeatDecision := mkDecision { hb_action : HeartbeatAction; hb_tasks : string }.

Definition HEARTBEAT_TOOL : json :=
  JObj [("type", JStr "function");
        ("function", JObj
          [("name", JStr "heartbeat");
           ("description", JStr "Report heartbeat decision after reviewing tasks.");
           ("parameters", JObj
             [("type", JStr "object");
              ("properties", JObj
                [("action", JObj
                   [("type", JStr "string");
                    ("enum", JArr [JStr "skip"; JStr "run"]);
                    ("description", JStr "skip = nothing to do, run = has active tasks")]);
                 ("tasks", JObj
                   [("type", JStr "string");
                    ("description", JStr "Natural-language summary of active tasks (required for run)")])]);
              ("required", JArr [JStr "action"])])])].

(** [&text[..text.len().min(80)]]: a panic off a character boundary. *)
Definition log_excerpt (text : string) : option string :=
  slice_to text (Nat.min (String.length text) 80).

(** [info!]: its arguments are only evaluated when the level is enabled. *)
Definition log_info (info_enabled : bool) (text : string) : run unit :=
  if info_enabled then run_of_option ((λ _, tt) <$> log_excerpt text) else Returns tt.

Definition skip : HeartbeatDecision := mkDecision HbSkip "".

Section Heartbeat.
Context {W : Type} (captures : string → string → option (option string * option string)) (p : LLMProvider W).
Variables (fuel sfuel : nat) (info_enabled : bool) (model time_str : string).

Definition decide_request (content : string) : ChatRequest :=
  let par := String nl (String nl "") in
  mkRequest
    [JObj [("role", JStr "system");
           ("content", JStr "You are a heartbeat agent. Call the heartbeat tool to report your decision.")];
     JObj [("role", JStr "user");
           ("content", JStr ("Current Time: " +:+ time_str +:+ par +:+
              "Review the following HEARTBEAT.md and decide whether there are active tasks." +:+ par +:+ content))]]
    (Some [HEARTBEAT_TOOL]) (Some model) 512 (S754_zero false) None None.

(** The decision a response stands for; printing it can panic. *)
Definition read_decision (response : LLMResponse) : run HeartbeatDecision :=
  if negb (should_execute_tools response) then Returns skip
  else match rs_tool_calls response with
  | [] => Returns skip
  | call :: _ =>
      if negb (String.eqb (tc_name call) "heartbeat") then Returns skip
      else
        let args := JObj (tc_arguments call) in
        let action := default "skip" (get_str "action" args) in
        let tasks := default "" (get_str "tasks" args) in
        if String.eqb action "run" && negb (is_empty tasks)
        then let! _ := log_info info_enabled tasks in Returns (mkDecision HbRun tasks)
        else Returns skip
  end.

(** [LLMHeartbeatDecider::decide]. *)
Definition llm_decide (w : W) (content : string) : run (W * HeartbeatDecision) :=
  let! (w, response, _) := chat_with_retry captures p fuel sfuel w (decide_request content) Standard false in
  let! d := read_decision response in
  Returns (w, d).
End Heartbeat.

(** [evaluate_response]: nothing catches a panic of the evaluator. *)
Definition evaluate_response {W} (evaluator : option (W → string → string → string → run (W * bool)))
    (w : W) (response task_context model : string) : run (W * bool) :=
  match evaluator with
  | Some e => e w response task_context model
  | None => Returns (w, true)
  end.

Definition leaked_patterns : list string :=
  ["heartbeat.md"; "awareness.md"; "judgment call:"; "decision logic"; "valid options are"; "my instructions";
   "i am supposed to"; "strict heartbeat interpretation"].

Definition is_deliverable (response : string) : bool :=
  let text := to_lowercase response in
  if contains_str text "couldn't produce a final answer" then false
  else negb (existsb (contains_str text) leaked_patterns).

(** The parts plugged into the service. *)
Record HeartbeatParts (W : Type) := mkParts {
  read_heartbeat_file : W → option string;
  decider : W → string → run (W * HeartbeatDecision);
  executor : option (W → string → run (W * option string));
  notifier : option (W → string → run W);
  evaluator : option (W → string → string → string → run (W * bool));
  hb_model : string;
  hb_info : bool
}.
Arguments mkParts {W}.
Arguments read_heartbeat_file {W}.
Arguments decider {W}.
Arguments executor {W}.
Arguments notifier {W}.
Arguments evaluator {W}.
Arguments hb_model {W}.
Arguments hb_info {W}.

Section Service.
Context {W : Type} (H : HeartbeatParts W).

(** One tick; the second component is the text that was delivered. *)
Definition tick (w : W) : run (W * option string) :=
  match read_heartbeat_file H w with
  | None | Some "" => Returns (w, None)
  | Some content =>
      let! (w, decision) := decider H w content in
      if negb (bool_decide (hb_action decision = HbRun)) then Returns (w, None)
      else match executor H with
      | None => Returns (w, None)
      | Some execute =>
          let! (w, response) := execute w (hb_tasks decision) in
          match response with
          | None | Some "" => Returns (w, None)
          | Some response =>
              if negb (is_deliverable response) then
                let! _ := log_info (hb_info H) response in Returns (w, None)
              else
                let! (w, should_notify) :=
                  evaluate_response (evaluator H) w response (hb_tasks decision) (hb_model H) in
                match should_notify, notifier H with
                | true, Some notify => let! w := notify w response in Returns (w, Some response)
                | _, _ => Returns (w, None)
                end
          end
      end
  end.

Definition trigger_now (w : W) : run (W * option string) :=
  match read_heartbeat_file H w with
  | None | Some "" => Returns (w, None)
  | Some content =>
      let! (w, decision) := decider H w content in
      if negb (bool_decide (hb_action decision = HbRun)) then Returns (w, None)
      else match executor H with
      | None => Returns (w, None)
      | Some execute => execute w (hb_tasks decision)
      end
  end.
End Service.

(** ** The loop

    The task of [start] sleeps, then looks at the flag and spawns a tick, and waits for it.
    Aborting it does not abort a tick that is under way. *)

Inductive loop_state := Sleeping | Ticking | Ended.

#[export] Instance loop_state_eq_dec : EqDecision loop_state.
Proof. solve_decision. Defined.

Record HeartbeatState := mkHb {
  hb_running : bool;
  hb_task : option loop_state;
  hb_ticks : nat;      (* ticks under way whose loop waits for them *)
  hb_detached : nat    (* ticks under way whose loop was aborted *)
}.

Definition hb_init : HeartbeatState := mkHb false None 0 0.

Inductive hb_event := EvStart | EvStop | EvWake | EvTickEnds | EvDetachedEnds.

Definition hb_start (enabled : bool) (s : HeartbeatState) : HeartbeatState :=
  if negb enabled then s
  else if hb_running s then s
  else mkHb true (Some Sleeping) (hb_ticks s) (hb_detached s).

Definition hb_stop (s : HeartbeatState) : HeartbeatState :=
  mkHb false None 0 (hb_detached s + hb_ticks s).

(** The sleep is over. *)
Definition hb_wake (s : HeartbeatState) : HeartbeatState :=
  if hb_running s then mkHb true (Some Ticking) (S (hb_ticks s)) (hb_detached s)
  else mkHb false (Some Ended) (hb_ticks s) (hb_detached s).

Inductive hb_step (enabled : bool) : HeartbeatState → hb_event → HeartbeatState → Prop :=
| StepStart s : hb_step enabled s EvStart (hb_start enabled s)
| StepStop s : hb_step enabled s EvStop (hb_stop s)
| StepWake s : hb_task s = Some Sleeping → hb_step enabled s EvWake (hb_wake s)
| StepTickEnds s n : hb_task s = Some Ticking → hb_ticks s = S n →
    hb_step enabled s EvTickEnds (mkHb (hb_running s) (Some Sleeping) n (hb_detached s))
| StepDetachedEnds s n : hb_detached s = S n →
    hb_step enabled s EvDetachedEnds (mkHb (hb_running s) (hb_task s) (hb_ticks s) n).

Inductive hb_steps (enabled : bool) : list hb_event → HeartbeatState → Prop :=
| HbNil : hb_steps enabled [] hb_init
| HbSnoc evs s e s' : hb_steps enabled evs s → hb_step enabled s e s' → hb_steps enabled (evs ++ [e]) s'.

(** ** Deliveries *)

Section Facts.
Context {W : Type} (H : HeartbeatParts W).

(** A tick delivers a text only when the file has content, the decider found tasks, the
    executor answered them with that text, the text is deliverable and the evaluator, if
    there is one, let it pass. *)
Theorem tick_delivers (w w' : W) (text : string) :
  tick H w = Returns (w', Some text) →
  ∃ content w1 tasks execute w2 w3 notify,
    read_heartbeat_file H w = Some content ∧ content ≠ "" ∧
    decider H w content = Returns (w1, mkDecision HbRun tasks) ∧
    executor H = Some execute ∧ execute w1 tasks = Returns (w2, Some text) ∧
    text ≠ "" ∧ is_deliverable text = true ∧
    evaluate_response (evaluator H) w2 text tasks (hb_model H) = Returns (w3, true) ∧
    notifier H = Some notify ∧ notify w3 text = Returns w'.
Proof.
  unfold tick. destruct (read_heartbeat_file H w) as [[|c0 content]|] eqn:Ef; [done| |done].
  destruct (decider H w (String c0 content)) as [[w1 [a tasks]]| |] eqn:Ed; cbn [run_bind]; [|done..].
  destruct (bool_decide_reflect (hb_action (mkDecision a tasks) = HbRun)) as [Ha|_]; [|done]. cbn in Ha. subst a.
  cbn [negb hb_tasks]. destruct (executor H) as [execute|] eqn:Ex; [|done].
  destruct (execute w1 tasks) as [[w2 [[|t0 txt]|]]| |] eqn:Ee; cbn [run_bind]; [done| |done..].
  destruct (is_deliverable (String t0 txt)) eqn:Edel; cbn [negb].
  2:{ destruct (log_info _ _); by cbn [run_bind]. }
  destruct (evaluate_response (evaluator H) w2 (String t0 txt) tasks (hb_model H)) as [[w3 [|]]| |] eqn:Ev;
    cbn [run_bind]; [|done..].
  destruct (notifier H) as [notify|] eqn:En; [|done].
  destruct (notify w3 (String t0 txt)) as [w4| |] eqn:Et; cbn [run_bind]; [|done..].
  intros [= -> <-]. exists (String c0 content), w1, tasks, execute, w2, w3, notify. by split_and!.
Qed.
End Facts.

(** A first tool call that is not the heartbeat's is ignored, and a decision to run has tasks. *)
Lemma read_decision_run info_enabled r d :
  read_decision info_enabled r = Returns d → hb_action d = HbRun →
  hb_tasks d ≠ "" ∧ should_execute_tools r = true ∧
  ∃ call rest, rs_tool_calls r = call :: rest ∧ tc_name call = "heartbeat".
Proof.
  unfold read_decision. destruct (should_execute_tools r); cbn [negb]; [|by intros [= <-]].
  destruct (rs_tool_calls r) as [|call rest]; [by intros [= <-]|].
  destruct (String.eqb_spec (tc_name call) "heartbeat") as [Hn|]; cbn [negb]; [|by intros [= <-]].
  destruct (String.eqb _ "run"); cbn [andb]; [|by intros [= <-]].
  destruct (default "" _) as [|c t] eqn:E; cbn [is_empty negb]; [by intros [= <-]|].
  destruct (log_info info_enabled (String c t)); cbn [run_bind]; [|done..].
  intros [= <-] _. split_and!; [done..|]. eauto.
Qed.

(** The decision is lost when it is logged and its eightieth byte is inside a character. *)
Theorem decision_panics (call : ToolCallRequest) (r : LLMResponse) (tasks : string) :
  should_execute_tools r = true → rs_tool_calls r = [call] → tc_name call = "heartbeat" →
  get_str "action" (JObj (tc_arguments call)) = Some "run" →
  get_str "tasks" (JObj (tc_arguments call)) = Some tasks →
  80 < String.length tasks → is_char_boundary tasks 80 = false →
  read_decision true r = Panics ∧ ∃ d, read_decision false r = Returns d ∧ hb_action d = HbRun.
Proof.
  intros Hs Hc Hn Ha Ht Hlen Hb. unfold read_decision. rewrite Hs, Hc, Hn, Ha, Ht. cbn [negb default].
  rewrite String.eqb_refl. destruct tasks as [|c t]; [cbn in Hlen; lia|]. cbn [is_empty negb andb id].
  assert (log_excerpt (String c t) = None) as El.
  { unfold log_excerpt. rewrite Nat.min_r by lia. unfold slice_to. by rewrite Hb. }
  split; [unfold log_info; by rewrite El|]. by eexists.
Qed.

(** ** One loop, and ticks that outlive it *)

Definition stops (evs : list hb_event) : nat :=
  length (retain (λ e, match e with EvStop => true | _ => false end) evs).

Lemma stops_snoc evs e : stops (evs ++ [e]) = stops evs + match e with EvStop => 1 | _ => 0 end.
Proof. unfold stops. rewrite retain_app, length_app. by destruct e. Qed.

Record hb_inv (evs : list hb_event) (s : HeartbeatState) : Prop := {
  inv_flag : hb_running s = true ↔ hb_task s = Some Sleeping ∨ hb_task s = Some Ticking;
  inv_ticks : hb_ticks s = if bool_decide (hb_task s = Some Ticking) then 1 else 0;
  inv_detached : hb_detached s ≤ stops evs
}.

Lemma hb_steps_inv enabled evs s : hb_steps enabled evs s → hb_inv evs s.
Proof.
  induction 1 as [|evs s e s' _ [Hf Ht Hd] Hstep].
  { split; [split; [done|by intros [?|?]]|done..]. }
  destruct Hstep as [s|s|s Hs|s n Hs Hn|s n Hn]; split; rewrite ?stops_snoc; cbn in *.
  - unfold hb_start. destruct enabled; cbn; [|done]. destruct (hb_running s) eqn:E; [by rewrite E|]. naive_solver.
  - unfold hb_start. destruct enabled; cbn; [|done]. destruct (hb_running s) eqn:E; [done|]. cbn.
    rewrite Ht, bool_decide_false; [done|]. intros Hs. rewrite Hs in Hf. naive_solver.
  - unfold hb_start. destruct enabled, (hb_running s); cbn; lia.
  - naive_solver.
  - done.
  - rewrite Ht. case_bool_decide; lia.
  - unfold hb_wake. destruct (hb_running s) eqn:E; cbn; naive_solver.
  - unfold hb_wake. rewrite Ht, Hs. destruct (hb_running s); done.
  - unfold hb_wake. destruct (hb_running s); cbn; lia.
  - naive_solver.
  - rewrite Ht, Hs in Hn. by injection Hn as <-.
  - lia.
  - done.
  - done.
  - lia.
Qed.

(** However starts, stops, wake-ups and ends of ticks interleave, the flag says whether a
    loop is alive, a live loop has at most one tick under way, and all ticks together are at
    most one more than there were stops; without a stop at most one tick runs. *)
Theorem heartbeat_ticks_bounded (enabled : bool) (evs : list hb_event) (s : HeartbeatState) :
  hb_steps enabled evs s →
  (hb_running s = true ↔ hb_task s = Some Sleeping ∨ hb_task s = Some Ticking) ∧
  hb_ticks s ≤ 1 ∧ hb_ticks s + hb_detached s ≤ 1 + stops evs.
Proof.
  intros [Hf Ht Hd]%hb_steps_inv. split; [done|]. rewrite Ht. case_bool_decide; lia.
Qed.

(** After a stop a tick can still be under way, beside that of a new loop. *)
Theorem stop_leaves_tick :
  ∃ s, hb_steps true [EvStart; EvWake; EvStop; EvStart; EvWake] s ∧ hb_ticks s + hb_detached s = 2.
Proof.
  exists (mkHb true (Some Ticking) 1 1). split; [|done].
  apply (HbSnoc true [EvStart; EvWake; EvStop; EvStart] (mkHb true (Some Sleeping) 0 1));
    [|by apply (StepWake true (mkHb true (Some Sleeping) 0 1))].
  apply (HbSnoc true [EvStart; EvWake; EvStop] (mkHb false None 0 1)); [|apply (StepStart true (mkHb false None 0 1))].
  apply (HbSnoc true [EvStart; EvWake] (mkHb true (Some Ticking) 1 0)); [|apply (StepStop true (mkHb true (Some Ticking) 1 0))].
  apply (HbSnoc true [EvStart] (mkHb true (Some Sleeping) 0 0));
    [|by apply (StepWake true (mkHb true (Some Sleeping) 0 0))].
  apply (HbSnoc true [] hb_init); [constructor|apply (StepStart true hb_init)].
Qed.

(** ** Concrete heartbeats *)

Definition demo_parts : HeartbeatParts (list string) :=
  mkParts (λ _, Some "- water the plants") (λ w _, Returns (w, mkDecision HbRun "water"))
    (Some (λ w t, Returns (w, Some ("done: " +:+ t)))) (Some (λ w t, Returns (w ++ [t]))) None "m" true.

Lemma tick_delivers_witness :
  ∃ content, read_heartbeat_file demo_parts [] = Some content ∧ content ≠ "" ∧ is_deliverable "done: water" = true.
Proof.
  destruct (tick_delivers demo_parts [] ["done: water"] "done: water" eq_refl)
    as (content & w1 & tasks & execute & w2 & w3 & notify & ? & ? & _ & _ & _ & _ & ? & _).
  exists content. repeat split; assumption.
Defined.

Lemma heartbeat_ticks_bounded_witness : hb_ticks (mkHb true (Some Sleeping) 0 0) + 0 ≤ 1 + stops [EvStart].
Proof.
  apply (heartbeat_ticks_bounded true [EvStart] (mkHb true (Some Sleeping) 0 0)).
  apply (HbSnoc true [] hb_init); [constructor|apply (StepStart true hb_init)].
Defined.
