(* ===== verification/Capability.v ===== *)
(** * Capabilities

    [crates/hiveweb/src/runtime/capability.rs], [runtime/capabilities/] and
    [services/runtime_audit.rs]: what a plugin may ask of its host.  The registry, the
    dispatcher with its permission check and audit log, and the handlers: files under one
    directory, objects under one prefix, secrets and hosts on lists, named queries.

    The host is a record of its files (with symbolic links), objects, environment, registered
    queries and permission table.  Arguments stand for services: running SQL, fetching a URL,
    resolving a name, asking a model, the clock, the URL parser, UTF-8 validity. *)

From S2P Require Import Prelude RustStr F64 Json Network Provider Think.

Local Open Scope stdpp_scope.
Local Open Scope hive_scope.

(** ** The registry *)

Definition NETWORK_HTTP : string := "network.http".
Definition FS_READ : string := "fs.read".
Definition FS_WRITE : string := "fs.write".
Definition S3_READ : string := "s3.read".
Definition S3_WRITE : string := "s3.write".
Definition DB_QUERY : string := "db.query".
Definition DB_EXECUTE : string := "db.execute".
Definition LLM_INVOKE : string := "llm.invoke".
Definition SECRET_GET : string := "secret.get".
Definition TIME_NOW : string := "time.now".
Definition LOG_EMIT : string := "log.emit".
Definition CHAT_RESPOND : string := "chat_respond".
Definition EXEC_RUN : string := "exec.run".
Definition AGENT_SPAWN : string := "agent.spawn".
Definition CRON_MANAGE : string := "cron.manage".

Record Capability := mkCap { cap_name : string; cap_description : string; cap_dangerous : bool }.

Definition CAPABILITIES : list Capability :=
  [mkCap NETWORK_HTTP "HTTP/HTTPS access (allowlisted hosts; SSRF-blocked)" true;
   mkCap FS_READ "/tmp/plugin/ 内文件读" false;
   mkCap FS_WRITE "/tmp/plugin/ 内文件写" false;
   mkCap S3_READ "Rustfs 桶 GET" false;
   mkCap S3_WRITE "Rustfs 桶 PUT / DELETE" false;
   mkCap DB_QUERY "宿主预注册命名 SELECT 查询" false;
   mkCap DB_EXECUTE "宿主预注册命名 DML（永不自由 SQL）" true;
   mkCap LLM_INVOKE "LLM 调用（走 Agent.model_preset 解析）" false;
   mkCap SECRET_GET "allowlist 内的密钥读取" true;
   mkCap TIME_NOW "服务器当前时间" false;
   mkCap LOG_EMIT "结构化日志写入（rate-limited）" false;
   mkCap CHAT_RESPOND "提交 Agent 最终用户可见回复" false;
   mkCap EXEC_RUN "Shell 命令执行（受 workspace 边界约束）" true;
   mkCap AGENT_SPAWN "生成子 Agent 执行独立任务" false;
   mkCap CRON_MANAGE "管理定时 Cron 任务" false].

(** The names are distinct, so the index holds the one entry of a name. *)
Definition cap_lookup (name : string) : option Capability :=
  find_first (λ c, String.eqb (cap_name c) name) CAPABILITIES.

Definition is_dangerous (name : string) : bool :=
  match cap_lookup name with Some c => cap_dangerous c | None => false end.

(** ** Audit *)

Definition masks (key : string) : bool :=
  let k := to_lowercase key in
  contains_str k "password" || contains_str k "token" || contains_str k "secret" || contains_str k "api_key".

Fixpoint redact_args (v : json) : json :=
  match v with
  | JObj m =>
      JObj ((fix walk (m : list (string * json)) : list (string * json) :=
               match m with
               | [] => []
               | (k, x) :: m => (k, if masks k then JStr "***" else redact_args x) :: walk m
               end) m)
  | JArr vs => JArr (redact_args <$> vs)
  | other => other
  end.

Record RuntimeAudit := mkAudit {
  au_session : option Z;
  au_agent : option Z;
  au_plugin : option Z;
  au_function : option Z;
  au_capability : option string;
  au_event : string;
  au_outcome : string;
  au_error : option string;
  au_payload : option json
}.

(** ** Envelopes *)

Record DispatchCtx := mkDispatch {
  dc_session : option Z;
  dc_agent : Z;
  dc_plugin : Z;
  dc_function : option Z;
  dc_permissions : list string
}.

Record CallEnvelope := mkEnvelope { ce_capability : string; ce_args : json }.

Definition envelope_of_json (v : json) : option CallEnvelope :=
  m ← struct_fields ["capability"; "args"] v;
  cap ← map_get "capability" m ≫= as_str;
  Some (mkEnvelope cap (default JNull (map_get "args" m))).

Inductive ReplyEnvelope := ReplyOk (data : json) | ReplyErr (code : Z) (message : string).

Definition reply_to_json (r : ReplyEnvelope) : json :=
  match r with
  | ReplyOk data => JObj [("ok", JBool true); ("data", data)]
  | ReplyErr code msg => JObj [("ok", JBool false); ("code", JInt code); ("message", JStr msg)]
  end.

Definition reply_is_ok (r : ReplyEnvelope) : bool := match r with ReplyOk _ => true | _ => false end.

(** ** Paths *)

(** [Path::components] of an absolute path: no empty and no ["."] component. *)
Definition components (p : string) : list string :=
  retain (λ c, negb (is_empty c) && negb (String.eqb c ".")) (split_on "/" p).

Definition ALLOWED_PREFIX : string := "/tmp/plugin/".

Fixpoint is_prefix (l k : list string) : bool :=
  match l, k with
  | [], _ => true
  | x :: l, y :: k => String.eqb x y && is_prefix l k
  | _ :: _, [] => false
  end.

(** The path a handler opens, as its components. *)
Definition fs_resolve (path_arg : string) : result (list string) string :=
  if contains_str path_arg ".." then Err "路径包含 `..`，拒绝"
  else
    let p := if starts_with path_arg "/" then path_arg else ALLOWED_PREFIX +:+ path_arg in
    if negb (is_prefix (components ALLOWED_PREFIX) (components p))
    then Err ("路径 " +:+ p +:+ " 越出 /tmp/plugin/ 沙箱")
    else Ok (components p).

Definition KEY_PREFIX : string := "plugin-data/".

Definition validate_key (key : string) : result unit string :=
  if negb (starts_with key KEY_PREFIX) then Err ("key 必须以 '" +:+ KEY_PREFIX +:+ "' 开头")
  else if contains_str key ".." then Err "key 包含 '..'，拒绝"
  else Ok tt.

(** ** Named queries *)

Record NamedQuery := mkQuery { q_name : string; q_sql : string; q_kind : string; q_params : list string }.

(** [NamedQueryRegistry::load]: a later query of a name replaces the earlier one. *)
Definition load_queries (raws : list NamedQuery) : gmap string NamedQuery :=
  foldl (λ m q, <[q_name q := q]> m) ∅ raws.

Fixpoint bind_loop (ps : list string) (sql : string) (ordered : list json) (args : list (string * json))
    : result (string * list json) string :=
  match ps with
  | [] => Ok (sql, ordered)
  | p :: ps =>
      let placeholder := ":" +:+ p in
      if negb (contains_str sql placeholder) then Err ("query 定义中找不到占位符 " +:+ placeholder)
      else
        let sql := replace_str placeholder "?" sql in
        match map_get p args with
        | None => Err ("missing param: " +:+ p)
        | Some v => bind_loop ps sql (ordered ++ [v]) args
        end
  end.

Definition bind_params (q : NamedQuery) (args : list (string * json)) : result (string * list json) string :=
  bind_loop (q_params q) (q_sql q) [] args.

Record DbCallArgs := mkDbCall { da_query : string; da_params : list (string * json) }.

Definition db_call_of_json (v : json) : option DbCallArgs :=
  m ← struct_fields ["query"; "params"] v;
  query ← map_get "query" m ≫= as_str;
  params ← match map_get "params" m with None => Some [] | Some x => as_object x end;
  Some (mkDbCall query params).

(** ** Hosts *)

(** [s.split(',').map(trim).filter(non-empty)]. *)
Definition comma_list (s : string) : list string :=
  retain (λ x, negb (is_empty x)) (trim <$> split_on "," s).

Definition is_private_ip (ip : IpAddr) : bool :=
  match ip with
  | V4 x =>
      let a := (x / 16777216)%Z in
      let b := ((x / 65536) mod 256)%Z in
      ((a =? 10) || (a =? 172) && (16 <=? b) && (b <=? 31) || (a =? 192) && (b =? 168)
       || (a =? 127) || (a =? 169) && (b =? 254) || (x =? 4294967295))%Z
  | V6 x => ((x =? 1) || (Z.land (x / 2 ^ 112) 65024 =? 64512))%Z
  end.

Definition host_allowed (list : list string) (host : string) : bool :=
  existsb (λ h, match strip_prefix "." h with
                | Some suffix => bool_decide (is_Some (strip_suffix suffix host)) || String.eqb host suffix
                | None => String.eqb host h
                end) list.

Record HttpArgs := mkHttp {
  h_method : string;
  h_url : string;
  h_headers : list (string * string);
  h_body : option string
}.

Record ParsedUrl := mkUrl { url_scheme : string; url_host : option string }.

Record HttpReply := mkReply {
  hr_status : Z;
  hr_headers : list (string * string);
  hr_body : string
}.

Definition BODY_MAX_BYTES : Z := 4194304.

(** ** The host *)

Record Host (DB : Type) := mkHost {
  files : gmap (list string) string;
  links : gmap (list string) (list string);   (* symbolic links, to canonical directories *)
  objects : option (gmap string string);      (* [None]: no object store *)
  env : gmap string string;
  queries : gmap string NamedQuery;
  agent_permissions : option (gmap Z (list string));   (* [None]: the lookup fails *)
  database : DB
}.
Arguments mkHost {DB}.
Arguments files {DB}.
Arguments links {DB}.
Arguments objects {DB}.
Arguments env {DB}.
Arguments queries {DB}.
Arguments agent_permissions {DB}.
Arguments database {DB}.

(** What the operating system opens for a path: links on the way are followed. *)
Fixpoint follow (ls : gmap (list string) (list string)) (cur rest : list string) : list string :=
  match rest with
  | [] => cur
  | c :: rest => follow ls (default (cur ++ [c]) (ls !! (cur ++ [c]))) rest
  end.

Section Dispatch.
Context {DB : Type}.
Variables (select_rows : DB → string → list json → result (list json) string)
          (execute_sql : DB → string → list json → result (DB * Z * Z) string).
Variables (parse_url : string → option ParsedUrl) (lookup_host : string → option (list IpAddr))
          (send : string → HttpArgs → result HttpReply string).
Variables (agent_preset : Z → option (option string))
          (build_primary : option string → result ((ChatRequest → LLMResponse) * string) string).
Variables (time_now : json) (utf8 : string → bool) (lossy : string → string) (f32_of_json : json → option f32).
Variable default_temperature : f32.

Abbreviation handler := (Host DB → json → option (Host DB * result json string)).

Definition with_files (fs : gmap (list string) string) (h : Host DB) : Host DB :=
  mkHost fs (links h) (objects h) (env h) (queries h) (agent_permissions h) (database h).

Definition with_objects (os : gmap string string) (h : Host DB) : Host DB :=
  mkHost (files h) (links h) (Some os) (env h) (queries h) (agent_permissions h) (database h).

Definition with_database (db : DB) (h : Host DB) : Host DB :=
  mkHost (files h) (links h) (objects h) (env h) (queries h) (agent_permissions h) db.

(** A handler answers [None] when its arguments do not deserialise. *)

Definition fs_read (h : Host DB) (path : string) : result json string :=
  let? p := fs_resolve path in
  match files h !! follow (links h) [] p with
  | None => Err "read"
  | Some content =>
      if utf8 content
      then Ok (JObj [("content", JStr content); ("size_bytes", JInt (Z.of_nat (String.length content)))])
      else Err "content 非 UTF-8"
  end.

Definition fs_read_call : handler := λ h args,
  m ← struct_fields ["path"] args;
  path ← map_get "path" m ≫= as_str;
  Some (h, fs_read h path).

Definition fs_write (h : Host DB) (path content : string) (append : bool) : Host DB * result json string :=
  match fs_resolve path with
  | Err e => (h, Err e)
  | Ok p =>
      let target := follow (links h) [] p in
      let old := if append then default "" (files h !! target) else "" in
      (with_files (<[target := old +:+ content]> (files h)) h,
       Ok (JObj [("bytes_written", JInt (Z.of_nat (String.length content)))]))
  end.

Definition fs_write_call : handler := λ h args,
  m ← struct_fields ["path"; "content"; "append"] args;
  path ← map_get "path" m ≫= as_str;
  content ← map_get "content" m ≫= as_str;
  append ← match map_get "append" m with None => Some false | Some v => as_bool v end;
  Some (fs_write h path content append).

Definition s3_read (os : gmap string string) (key : string) : result json string :=
  let? _ := validate_key key in
  match os !! key with
  | None => Err "s3 get_object"
  | Some content =>
      if utf8 content
      then Ok (JObj [("content", JStr content); ("size_bytes", JInt (Z.of_nat (String.length content)))])
      else Err "content 非 UTF-8"
  end.

Definition s3_read_call (os : gmap string string) : handler := λ h args,
  m ← struct_fields ["key"] args;
  key ← map_get "key" m ≫= as_str;
  Some (h, s3_read os key).

Definition s3_write (h : Host DB) (os : gmap string string) (key content : string) : Host DB * result json string :=
  match validate_key key with
  | Err e => (h, Err e)
  | Ok _ => (with_objects (<[key := content]> os) h,
             Ok (JObj [("bytes_written", JInt (Z.of_nat (String.length content)))]))
  end.

Definition s3_write_call (os : gmap string string) : handler := λ h args,
  m ← struct_fields ["key"; "content"] args;
  key ← map_get "key" m ≫= as_str;
  content ← map_get "content" m ≫= as_str;
  Some (s3_write h os key content).

Definition secret_get (h : Host DB) (key : string) : result json string :=
  let allowlist := comma_list (default "" (env h !! "SECRET_ALLOWLIST")) in
  if negb (existsb (String.eqb key) allowlist) then Err ("secret key '" +:+ key +:+ "' 不在 allowlist 内")
  else match env h !! key with
  | None => Err ("secret key '" +:+ key +:+ "' 未设置 env 值")
  | Some value => Ok (JObj [("value", JStr value)])
  end.

Definition secret_get_call : handler := λ h args,
  m ← struct_fields ["key"] args;
  key ← map_get "key" m ≫= as_str;
  Some (h, secret_get h key).

(** The registered query of the wanted kind, with its parameters bound. *)
Definition prepare_query (h : Host DB) (kind refusal : string) (a : DbCallArgs)
    : result (string * list json) string :=
  match queries h !! da_query a with
  | None => Err ("未注册的 named query: " +:+ da_query a)
  | Some q =>
      if negb (String.eqb (q_kind q) kind) then Err ("query " +:+ q_name q +:+ refusal)
      else bind_params q (da_params a)
  end.

Definition db_query (h : Host DB) (a : DbCallArgs) : result json string :=
  let? (sql, ordered) := prepare_query h "select" " 不是 select 类型；db.query 仅允许 select" a in
  let? rows := map_err (λ e, "db.query exec: " +:+ e) (select_rows (database h) sql ordered) in
  Ok (JObj [("rows", JArr rows); ("row_count", JInt (Z.of_nat (length rows)))]).

Definition db_execute (h : Host DB) (a : DbCallArgs) : Host DB * result json string :=
  match prepare_query h "execute" " 不是 execute 类型；db.execute 仅允许 DML" a with
  | Err e => (h, Err e)
  | Ok (sql, ordered) =>
      match execute_sql (database h) sql ordered with
      | Err e => (h, Err ("db.execute: " +:+ e))
      | Ok (db, affected, last) =>
          (with_database db h, Ok (JObj [("rows_affected", JInt affected); ("last_insert_id", JInt last)]))
      end
  end.

Definition db_query_call : handler := λ h args, a ← db_call_of_json args; Some (h, db_query h a).
Definition db_execute_call : handler := λ h args, a ← db_call_of_json args; Some (db_execute h a).

(** The request a plugin makes goes out only from here, as [send]. *)
Definition http_request (h : Host DB) (a : HttpArgs) : result json string :=
  let method := to_ascii_uppercase (h_method a) in
  if negb (existsb (String.eqb method) ["GET"; "POST"; "PUT"; "DELETE"])
  then Err ("method " +:+ method +:+ " 不允许；仅支持 GET/POST/PUT/DELETE")
  else match parse_url (h_url a) with
  | None => Err "url parse"
  | Some url =>
      if negb (existsb (String.eqb (url_scheme url)) ["http"; "https"]) then Err "仅允许 http/https scheme"
      else match url_host url with
      | None => Err "url 缺少 host"
      | Some host =>
          let host := to_lowercase host in
          let allowlist := comma_list (default "" (env h !! "NETWORK_HTTP_ALLOWLIST")) in
          if bool_decide (allowlist = []) then Err "网络访问未配置"
          else if negb (host_allowed allowlist host) then Err ("hostname " +:+ host +:+ " 不在 allowlist 内")
          else if match lookup_host host with Some addrs => existsb is_private_ip addrs | None => false end
          then Err ("hostname " +:+ host +:+ " 解析到私网地址，拒绝（SSRF 防护）")
          else if match h_body a with
                  | Some b => (BODY_MAX_BYTES <? Z.of_nat (String.length b))%Z
                  | None => false
                  end then Err "request body 大小超过 4 MB 上限"
          else
            let? reply := map_err (λ e, "HTTP 请求失败: " +:+ e) (send method a) in
            let truncated := (BODY_MAX_BYTES <? Z.of_nat (String.length (hr_body reply)))%Z in
            let body := if truncated then stake (Z.to_nat BODY_MAX_BYTES) (hr_body reply) else hr_body reply in
            Ok (JObj [("status", JInt (hr_status reply));
                      ("headers", JObj ((λ kv, (kv.1, JStr kv.2)) <$> hr_headers reply));
                      ("body", JStr (lossy body)); ("body_truncated", JBool truncated)])
      end
  end.

Definition string_map (v : json) : option (list (string * string)) :=
  m ← as_object v; mapM (λ kv, s ← as_str kv.2; Some (kv.1, s)) m.

(** [Option<String>]: absent or null is [None]. *)
Definition opt_str (v : option json) : option (option string) :=
  match v with None | Some JNull => Some None | Some v => Some <$> as_str v end.

Definition http_call : handler := λ h args,
  m ← struct_fields ["method"; "url"; "headers"; "body"] args;
  method ← map_get "method" m ≫= as_str;
  url ← map_get "url" m ≫= as_str;
  headers ← match map_get "headers" m with None => Some [] | Some v => string_map v end;
  body ← opt_str (map_get "body" m);
  Some (h, http_request h (mkHttp method url headers body)).

Record LlmArgs := mkLlm {
  la_messages : list json;
  la_prompt : option string;
  la_max_tokens : option Z;
  la_temperature : option f32
}.

Definition llm_args_of_json (v : json) : option LlmArgs :=
  m ← struct_fields ["messages"; "prompt"; "max_tokens"; "temperature"] v;
  messages ← match map_get "messages" m with None => Some [] | Some x => as_array x end;
  prompt ← opt_str (map_get "prompt" m);
  max_tokens ← match map_get "max_tokens" m with
               | None | Some JNull => Some None
               | Some (JInt z) => if ((0 <=? z) && (z <=? u32_max))%Z then Some (Some z) else None
               | _ => None
               end;
  temperature ← match map_get "temperature" m with
                | None | Some JNull => Some None
                | Some x => Some <$> f32_of_json x
                end;
  Some (mkLlm messages prompt max_tokens temperature).

Definition llm_invoke (agent_id : Z) (a : LlmArgs) : result json string :=
  if bool_decide (la_messages a = []) && bool_decide (la_prompt a = None)
  then Err "llm.invoke 至少需要 messages 或 prompt 之一"
  else
    let preset := mjoin (agent_preset agent_id) in
    let? (ask, model) := map_err (λ e, "build_primary: " +:+ e) (build_primary preset) in
    let messages := if negb (bool_decide (la_messages a = [])) then la_messages a
                    else [JObj [("role", JStr "user"); ("content", JStr (default "" (la_prompt a)))]] in
    let resp := ask (mkRequest messages None (Some model) (default 2048%Z (la_max_tokens a))
                       (default default_temperature (la_temperature a)) None None) in
    if is_error resp then
      Err ("LLM error: " +:+ default "LLM error"
             (match rs_content resp with Some c => Some c | None => error_kind resp end))
    else
      Ok (JObj [("content", match rs_content resp with Some c => JStr c | None => JNull end);
                ("finish_reason", JStr (finish_reason resp));
                ("usage", JObj ((λ kv, (kv.1, JInt kv.2)) <$> rs_usage resp))]).

Definition log_emit_call : handler := λ h args,
  m ← struct_fields ["level"; "message"; "fields"] args;
  _ ← opt_str (map_get "level" m);
  _ ← map_get "message" m ≫= as_str;
  Some (h, Ok (JObj [])).

(** ** The dispatcher *)

Definition PLUGIN_SYSTEM_DISABLED : Z := 5031.

Inductive answer :=
| Answered (r : result json string)     (* the handler ran *)
| BadArgs
| Disabled
| NoHandler.

Definition call (h : Host DB) (run : handler) (args : json) : Host DB * answer :=
  match run h args with Some (h', r) => (h', Answered r) | None => (h, BadArgs) end.

Definition handle (h : Host DB) (ctx : DispatchCtx) (cap : string) (args : json) : Host DB * answer :=
  if String.eqb cap TIME_NOW then (h, Answered (Ok time_now))
  else if String.eqb cap LOG_EMIT then call h log_emit_call args
  else if String.eqb cap FS_READ then call h fs_read_call args
  else if String.eqb cap FS_WRITE then call h fs_write_call args
  else if String.eqb cap NETWORK_HTTP then call h http_call args
  else if String.eqb cap S3_READ then
    match objects h with None => (h, Disabled) | Some os => call h (s3_read_call os) args end
  else if String.eqb cap S3_WRITE then
    match objects h with None => (h, Disabled) | Some os => call h (s3_write_call os) args end
  else if String.eqb cap SECRET_GET then call h secret_get_call args
  else if String.eqb cap DB_QUERY then call h db_query_call args
  else if String.eqb cap DB_EXECUTE then call h db_execute_call args
  else if String.eqb cap LLM_INVOKE then
    call h (λ h args, a ← llm_args_of_json args; Some (h, llm_invoke (dc_agent ctx) a)) args
  else (h, NoHandler).

(** [to_reply], [args_err] and the two other ends: the reply, the outcome and the message. *)
Definition reply_of (cap : string) (a : answer) : ReplyEnvelope * string * option string :=
  match a with
  | Answered (Ok v) => (ReplyOk v, "success", None)
  | Answered (Err e) => (ReplyErr 4000 e, "error", Some e)
  | BadArgs => (ReplyErr 4000 (cap +:+ " args"), "error", Some "invalid args")
  | Disabled => (ReplyErr PLUGIN_SYSTEM_DISABLED ("插件系统已关闭，" +:+ cap +:+ " 不可用"), "error",
                 Some "plugin system disabled")
  | NoHandler => (ReplyErr 5001 ("unknown handler for " +:+ cap), "error", Some "handler unimplemented")
  end.

Definition audit_for (ctx : DispatchCtx) (cap : option string) (event outcome : string) (err : option string)
    (payload : option json) : RuntimeAudit :=
  mkAudit (dc_session ctx) (Some (dc_agent ctx)) (Some (dc_plugin ctx)) (dc_function ctx) cap event outcome err payload.

(** The permissions of the caller; an empty list of the context is looked up. *)
Definition granted (h : Host DB) (ctx : DispatchCtx) : option (list string) :=
  if negb (bool_decide (dc_permissions ctx = [])) then Some (dc_permissions ctx)
  else t ← agent_permissions h; Some (default [] (t !! dc_agent ctx)).

Definition dispatch (from_str : string → option json) (h : Host DB) (ctx : DispatchCtx) (envelope_str : string)
    : Host DB * ReplyEnvelope * list RuntimeAudit :=
  match from_str envelope_str ≫= envelope_of_json with
  | None => (h, ReplyErr 4000 "invalid host_call envelope",
             [audit_for ctx None "capability_call" "error" (Some "invalid envelope") None])
  | Some e =>
      let cap := ce_capability e in
      match cap_lookup cap with
      | None => (h, ReplyErr 4045 ("unknown capability: " +:+ cap),
                 [audit_for ctx (Some cap) "capability_denied" "denied" (Some "unknown capability")
                    (Some (redact_args (ce_args e)))])
      | Some _ =>
          match granted h ctx with
          | None => (h, ReplyErr 5000 "permission lookup failed", [])
          | Some perms =>
              if negb (existsb (String.eqb cap) perms) then
                (h, ReplyErr 4030 ("当前 Agent 未授权调用能力「" +:+ cap +:+ "」"),
                 [audit_for ctx (Some cap) "capability_denied" "denied" (Some "capability not granted")
                    (Some (redact_args (ce_args e)))])
              else
                let '(h', a) := handle h ctx cap (ce_args e) in
                let '(reply, outcome, err) := reply_of cap a in
                (h', reply,
                 [audit_for ctx (Some cap) "capability_call" outcome err
                    (Some (JObj [("args", redact_args (ce_args e)); ("ok", JBool (reply_is_ok reply))]))])
          end
      end
  end.
End Dispatch.
