(* ===== verification/CapabilityProps.v ===== *)
(** * Correctness of capabilities

    The dispatcher denies by default, what it lets through stays within its bounds, and named
    queries are sent as they are registered. *)

From S2P Require Import Prelude RustStr F64 Json Network Provider Think Capability.

Local Open Scope stdpp_scope.
Local Open Scope hive_scope.

(** ** Redaction *)

Section Redaction.

(** No field whose name calls for a mask holds anything but the mask, at any depth. *)
Fixpoint masked (v : json) : bool :=
  match v with
  | JObj m => forallb (λ kv, if masks kv.1 then bool_decide (kv.2 = JStr "***") else masked kv.2) m
  | JArr vs => forallb masked vs
  | _ => true
  end.

Lemma redact_obj m :
  redact_args (JObj m) = JObj ((λ kv, (kv.1, if masks kv.1 then JStr "***" else redact_args kv.2)) <$> m).
Proof. cbn. f_equal. induction m as [|[k v] m IH]; [done|]. cbn. by rewrite IH. Qed.

(** The arguments written to the audit log hold no value under a name that suggests a
    credential, at any depth, and keep the shape of the call. *)
Theorem redact_masks (v : json) :
  masked (redact_args v) = true ∧
  match v, redact_args v with
  | JObj m, JObj m' => m'.*1 = m.*1
  | JArr vs, JArr vs' => length vs' = length vs
  | _, r => r = v
  end.
Proof.
  split; [|destruct v; try done; [by cbn; rewrite length_fmap|]; rewrite redact_obj, <-list_fmap_compose; done].
  induction v as [| | | | |vs IH|m IH] using json_nested_ind; try done.
  - cbn. rewrite forallb_forall. intros x Hx. apply list_elem_of_In, list_elem_of_fmap in Hx as (y & -> & Hy).
    rewrite Forall_forall in IH. by apply IH.
  - rewrite redact_obj. cbn [masked]. rewrite forallb_forall. intros x Hx.
    apply list_elem_of_In, list_elem_of_fmap in Hx as ([k y] & -> & Hy). cbn [fst snd].
    destruct (masks k); [done|]. rewrite Forall_forall in IH. by apply (IH (k, y)).
Qed.
End Redaction.

(** ** Default deny *)

(** ** Paths *)

Definition sandbox : list string := ["tmp"; "plugin"].

(** Lexically inside the sandbox, without a step up. *)
Definition confined (p : list string) : Prop := ∃ rest, p = sandbox ++ rest ∧ ".." ∉ rest.

Lemma is_prefix_app l k : is_prefix l k = true → ∃ r, k = l ++ r.
Proof.
  revert k. induction l as [|x l IH]; intros k; [by exists k|]. destruct k as [|y k]; [done|]. cbn.
  intros [->%String.eqb_eq [r ->]%IH]%andb_true_iff. by exists r.
Qed.

Lemma starts_contains s p : starts_with s p = true → contains_str s p = true.
Proof. unfold contains_str. intros H. destruct s; cbn [find_sub]; by rewrite H. Qed.

Lemma contains_cons a s p : contains_str s p = true → contains_str (String a s) p = true.
Proof.
  unfold contains_str. cbn [find_sub]. destruct (starts_with (String a s) p); [done|]. by destruct (find_sub p s).
Qed.

Lemma split_on_head c s p ps : split_on c s = p :: ps → starts_with s p = true.
Proof.
  revert p ps. induction s as [|a s IH]; intros p ps; cbn [split_on]; [by intros [= <- _]|].
  destruct (Ascii.eqb a c); [by intros [= <- _]|].
  destruct (split_on_cons c s) as (p0 & ps0 & E). rewrite E. intros [= <- _]. apply IH in E.
  unfold starts_with in *. cbn [strip_prefix]. by rewrite Ascii.eqb_refl.
Qed.

(** The pieces of a text occur in it. *)
Lemma split_on_contains c s p : p ∈ split_on c s → contains_str s p = true.
Proof.
  induction s as [|a s IH]; cbn [split_on]; [by intros ->%list_elem_of_singleton|].
  destruct (Ascii.eqb a c).
  - intros [->|Hp]%elem_of_cons; [by apply starts_contains|]. by apply contains_cons, IH.
  - destruct (split_on_cons c s) as (p0 & ps0 & E). rewrite E in *. intros [->|Hp]%elem_of_cons.
    + apply starts_contains. apply split_on_head in E. unfold starts_with in *. cbn [strip_prefix].
      by rewrite Ascii.eqb_refl.
    + apply contains_cons, IH. by right.
Qed.

Lemma contains_components p : contains_str p ".." = false → ".." ∉ components p.
Proof.
  intros H Hin. apply retain_elem_of in Hin as [Hin _]. apply split_on_contains in Hin. congruence.
Qed.

Lemma components_prefix s : components (ALLOWED_PREFIX +:+ s) = sandbox ++ components s.
Proof. done. Qed.

Lemma fs_resolve_confined path p : fs_resolve path = Ok p → confined p.
Proof.
  unfold fs_resolve. destruct (contains_str path "..") eqn:Hdots; [done|]. apply contains_components in Hdots.
  destruct (starts_with path "/"); destruct (is_prefix _ _) eqn:Hp; cbn [negb]; try done; intros [= <-].
  - apply is_prefix_app in Hp as [r Hr]. rewrite Hr in *. exists r. split; [done|]. set_solver.
  - rewrite components_prefix. exists (components path). done.
Qed.

Section Deny.
Context {DB : Type}.
Context (select_rows : DB → string → list json → result (list json) string)
        (execute_sql : DB → string → list json → result (DB * Z * Z) string)
        (parse_url : string → option ParsedUrl) (lookup_host : string → option (list IpAddr))
        (send : string → HttpArgs → result HttpReply string)
        (agent_preset : Z → option (option string))
        (build_primary : option string → result ((ChatRequest → LLMResponse) * string) string)
        (time_now : json) (utf8 : string → bool) (lossy : string → string) (f32_of_json : json → option f32)
        (default_temperature : f32) (from_str : string → option json).

Abbreviation dispatch_ := (dispatch select_rows execute_sql parse_url lookup_host send agent_preset build_primary
  time_now utf8 lossy f32_of_json default_temperature from_str).
Abbreviation handle_ := (handle select_rows execute_sql parse_url lookup_host send agent_preset build_primary
  time_now utf8 lossy f32_of_json default_temperature).

(** The caller may use the capability: it is registered, and granted to it. *)
Definition may_use (h : Host DB) (ctx : DispatchCtx) (cap : string) : Prop :=
  is_Some (cap_lookup cap) ∧ ∃ perms, granted h ctx = Some perms ∧ cap ∈ perms.


(** ** Bounds *)

(** What a handler may change: files where the sandbox leads, objects under the prefix, and
    the database through registered statements; nothing else. *)
Record bounded (h h' : Host DB) : Prop := {
  bd_links : links h' = links h;
  bd_env : env h' = env h;
  bd_queries : queries h' = queries h;
  bd_permissions : agent_permissions h' = agent_permissions h;
  bd_files : ∀ p, files h' !! p ≠ files h !! p → ∃ q, confined q ∧ p = follow (links h) [] q;
  bd_objects : ∀ k, default ∅ (objects h') !! k ≠ default ∅ (objects h) !! k →
    starts_with k KEY_PREFIX = true ∧ contains_str k ".." = false;
  bd_database : database h' ≠ database h → ∃ q args sql vs n l,
    queries h !! q_name q = Some q ∧ q_kind q = "execute" ∧ bind_params q args = Ok (sql, vs) ∧
    execute_sql (database h) sql vs = Ok (database h', n, l)
}.

Lemma bounded_refl h : bounded h h.
Proof. by split. Qed.

Lemma fs_write_bounded h path content append : bounded h (fs_write h path content append).1.
Proof.
  unfold fs_write. destruct (fs_resolve path) as [p|e] eqn:E; [|apply bounded_refl]. apply fs_resolve_confined in E.
  split; try done. cbn. intros q Hq. exists p. split; [done|]. apply dec_stable. intros Hne.
  by rewrite lookup_insert_ne in Hq.
Qed.

Lemma s3_write_bounded h os key content :
  objects h = Some os → bounded h (s3_write h os key content).1.
Proof.
  intros Ho. unfold s3_write, validate_key. destruct (starts_with key KEY_PREFIX) eqn:Ek; cbn [negb]; [|apply bounded_refl].
  destruct (contains_str key "..") eqn:Ed; [apply bounded_refl|].
  split; try done. cbn. rewrite Ho. cbn. intros k Hk.
  assert (k = key) as -> by (apply dec_stable; intros Hne; by rewrite lookup_insert_ne in Hk). done.
Qed.

(** The name a query is looked up under is its own. *)
Definition queries_ok (h : Host DB) : Prop := ∀ n q, queries h !! n = Some q → q_name q = n.

Lemma load_queries_ok raws n q : load_queries raws !! n = Some q → q_name q = n.
Proof.
  unfold load_queries. assert (H : ∀ m : gmap string NamedQuery, (∀ n q, m !! n = Some q → q_name q = n) →
    foldl (λ m q, <[q_name q := q]> m) m raws !! n = Some q → q_name q = n).
  { induction raws as [|r raws IH]; intros m Hm; cbn [foldl]; [apply Hm|]. apply IH.
    intros n' q' [[<- <-]|[_ ?]]%lookup_insert_Some; [done|by apply Hm]. }
  by apply H.
Qed.

Lemma db_execute_bounded h a : queries_ok h → bounded h (db_execute execute_sql h a).1.
Proof.
  intros Hq. unfold db_execute, prepare_query. destruct (queries h !! da_query a) as [q|] eqn:El; [|apply bounded_refl].
  destruct (String.eqb_spec (q_kind q) "execute") as [Hk|]; cbn [negb]; [|apply bounded_refl].
  destruct (bind_params q (da_params a)) as [[sql vs]|] eqn:Eb; [|apply bounded_refl].
  destruct (execute_sql (database h) sql vs) as [[[db n] l]|] eqn:Ee; [|apply bounded_refl].
  split; try done. intros _. exists q, (da_params a), sql, vs, n, l. rewrite (Hq _ _ El). done.
Qed.

Lemma call_bounded h (run : Host DB → json → option (Host DB * result json string)) args :
  (∀ h' r, run h args = Some (h', r) → bounded h h') → bounded h (call h run args).1.
Proof. intros H. unfold call. destruct (run h args) as [[h' r]|]; [by eapply H|apply bounded_refl]. Qed.

Lemma handle_bounded h ctx cap args : queries_ok h → bounded h (handle_ h ctx cap args).1.
Proof.
  intros Hq. unfold Capability.handle. repeat case_match; try apply bounded_refl; apply call_bounded; intros h' r Hr;
    unfold log_emit_call, fs_read_call, fs_write_call, http_call, s3_read_call, s3_write_call, secret_get_call,
      db_query_call, db_execute_call in Hr;
    repeat match type of Hr with mbind _ _ = Some _ => apply bind_Some in Hr as (? & ? & Hr) end;
    match type of Hr with Some ?p = Some (?a, ?b) => assert (a = p.1) as -> by (by injection Hr as ->) end;
    auto using bounded_refl, fs_write_bounded, s3_write_bounded, db_execute_bounded.
Qed.


(** A plugin's request goes out only with one of four methods, over HTTP or HTTPS, to a
    host the list allows, none of whose resolved addresses is private, with a body within the
    limit; the reply's body is cut at the limit. *)
Theorem http_request_guarded (h : Host DB) (a : HttpArgs) (v : json) :
  http_request parse_url lookup_host send lossy h a = Ok v →
  to_ascii_uppercase (h_method a) ∈ ["GET"; "POST"; "PUT"; "DELETE"] ∧
  (∃ url host, parse_url (h_url a) = Some url ∧ url_scheme url ∈ ["http"; "https"] ∧
    url_host url = Some host ∧
    host_allowed (comma_list (default "" (env h !! "NETWORK_HTTP_ALLOWLIST"))) (to_lowercase host) = true ∧
    ∀ addrs ip, lookup_host (to_lowercase host) = Some addrs → ip ∈ addrs → is_private_ip ip = false) ∧
  (∀ b, h_body a = Some b → (Z.of_nat (String.length b) <= BODY_MAX_BYTES)%Z) ∧
  ∃ reply, send (to_ascii_uppercase (h_method a)) a = Ok reply.
Proof.
  unfold http_request. intros H.
  destruct (existsb _ ["GET"; "POST"; "PUT"; "DELETE"]) eqn:Em; cbn [negb] in H; [|done].
  destruct (parse_url (h_url a)) as [url|] eqn:Eu; [|done].
  destruct (existsb _ ["http"; "https"]) eqn:Es; cbn [negb] in H; [|done].
  destruct (url_host url) as [host|] eqn:Eh; [|done]. destruct (bool_decide _); [done|].
  destruct (host_allowed _ _) eqn:Ea; cbn [negb] in H; [|done].
  destruct (match lookup_host _ with Some _ => _ | None => _ end) eqn:Ep; [done|].
  destruct (match h_body a with Some _ => _ | None => _ end) eqn:Eb; [done|].
  destruct (send _ a) as [reply|] eqn:Esend; [|done].
  apply existsb_exists in Em as (x & Hx & ->%String.eqb_eq). apply existsb_exists in Es as (y & Hy & Heq%String.eqb_eq).
  split_and!; [by apply list_elem_of_In| | |by eexists].
  - exists url, host. split_and!; [done|rewrite Heq; by apply list_elem_of_In|done..|].
    intros addrs ip El Hip. rewrite El in Ep. destruct (is_private_ip ip) eqn:Ei; [|done].
    assert (existsb is_private_ip addrs = true) as Ht; [|congruence].
    apply existsb_exists. exists ip. split; [by apply list_elem_of_In|done].
  - intros b Hb. rewrite Hb in Eb. apply Z.ltb_ge in Eb. done.
Qed.
End Deny.

(** ** Named parameters *)

(** A statement after its first text: placeholders, each with the text that follows it. *)
Fixpoint named (ps : list (string * string)) : string :=
  match ps with [] => "" | (p, t) :: ps => String ":" (p +:+ t +:+ named ps) end.

Fixpoint marked (ps : list (string * string)) : string :=
  match ps with [] => "" | (p, t) :: ps => String "?" (t +:+ marked ps) end.

Definition no_colon (s : string) : bool := no_char ":" s.

(** No colon besides those of the placeholders, and no placeholder that reads as a later one. *)
Fixpoint template_ok (ps : list (string * string)) : bool :=
  match ps with
  | [] => true
  | (p, t) :: ps =>
      no_colon p && no_colon t && forallb (λ qt, negb (starts_with (qt.1 +:+ qt.2) p)) ps && template_ok ps
  end.

Lemma replace_text p r t s :
  no_colon t = true → replace_str (String ":" p) r (t +:+ s) = t +:+ replace_str (String ":" p) r s.
Proof.
  unfold replace_str, no_colon. induction t as [|c t IH]; intros H; [done|].
  cbn [no_char] in H. apply andb_true_iff in H as [Hc%negb_true_iff Ht]. rewrite sapp_cons. cbn [replace_from].
  assert (starts_with (String c (t +:+ s)) (String ":" p) = false) as ->.
  { unfold starts_with. cbn [strip_prefix]. by rewrite Ascii.eqb_sym, Hc. }
  by rewrite IH.
Qed.

Lemma replace_here p r s : replace_str (String ":" p) r (String ":" (p +:+ s)) = r +:+ replace_str (String ":" p) r s.
Proof.
  unfold replace_str. cbn [replace_from]. rewrite <-sapp_cons, starts_with_app. cbn [String.length]. rewrite Nat.sub_succ, Nat.sub_0_r.
  by rewrite replace_skip.
Qed.

(** A name cannot reach over the next colon. *)
Lemma prefix_before_colon p x y :
  no_colon p = true → (y = "" ∨ ∃ y', y = String ":" y') → starts_with (x +:+ y) p = true → starts_with x p = true.
Proof.
  unfold no_colon, starts_with. revert x. induction p as [|c p IH]; intros x Hp Hy; [done|].
  cbn [no_char] in Hp. apply andb_true_iff in Hp as [Hc%negb_true_iff Hp].
  destruct x as [|d x].
  - rewrite sapp_nil_l. destruct Hy as [->|[y' ->]]; [done|]. cbn [strip_prefix]. by rewrite Hc.
  - rewrite sapp_cons. cbn [strip_prefix]. destruct (Ascii.eqb c d); [|done]. by apply IH.
Qed.

Lemma named_starts ps : named ps = "" ∨ ∃ y, named ps = String ":" y.
Proof. destruct ps as [|[p t] ps]; [by left|right; by eexists]. Qed.

Lemma no_colon_app s t : no_colon (s +:+ t) = no_colon s && no_colon t.
Proof. unfold no_colon. induction s as [|c s IH]; [done|]. rewrite sapp_cons. cbn [no_char]. by rewrite IH, andb_assoc. Qed.

Lemma replace_others p r ps :
  no_colon p = true → template_ok ps = true → forallb (λ qt, negb (starts_with (qt.1 +:+ qt.2) p)) ps = true →
  replace_str (String ":" p) r (named ps) = named ps.
Proof.
  intros Hp. induction ps as [|[q t] ps IH]; [done|]. cbn [template_ok forallb fst snd named].
  rewrite !andb_true_iff. intros [[[Hq Ht] _] Hok] [Hn%negb_true_iff Hrest].
  unfold replace_str. cbn [replace_from].
  assert (starts_with (String ":" (q +:+ t +:+ named ps)) (String ":" p) = false) as ->.
  { apply not_true_iff_false. intros H. unfold starts_with in H. cbn [strip_prefix] in H.
    rewrite Ascii.eqb_refl, sapp_assoc in H.
    apply not_true_iff_false in Hn. apply Hn. eapply prefix_before_colon; [done|apply named_starts|exact H]. }
  f_equal. fold (replace_str (String ":" p) r (q +:+ t +:+ named ps)).
  rewrite sapp_assoc, replace_text by (by rewrite no_colon_app, Hq, Ht). by rewrite IH.
Qed.

Lemma contains_app x s p : contains_str s p = true → contains_str (x +:+ s) p = true.
Proof. intros H. induction x as [|c x IH]; [done|]. rewrite sapp_cons. by apply contains_cons. Qed.

Lemma bind_loop_template ps t0 ordered args vs :
  no_colon t0 = true → template_ok ps = true → mapM (λ p, map_get p args) ps.*1 = Some vs →
  bind_loop ps.*1 (t0 +:+ named ps) ordered args = Ok (t0 +:+ marked ps, ordered ++ vs).
Proof.
  revert t0 ordered vs. induction ps as [|[p t] ps IH]; intros t0 ordered vs H0 Hok Hvs.
  { cbn in Hvs. injection Hvs as <-. by rewrite app_nil_r. }
  cbn [template_ok] in Hok. rewrite !andb_true_iff in Hok. destruct Hok as [[[Hp Ht] Hps] Hok].
  cbn [fmap list_fmap fst] in *. apply mapM_Some in Hvs. inversion Hvs as [|? v ? vs' Hv Hvs']; subst.
  apply mapM_Some in Hvs'. cbn [bind_loop named].
  change (":" +:+ p) with (String ":" p).
  rewrite contains_app by (apply starts_contains; rewrite <-sapp_cons; apply starts_with_app). cbn [negb].
  rewrite replace_text, replace_here, replace_text, replace_others, Hv by done.
  rewrite (sapp_assoc "?"), sapp_assoc.
  rewrite (IH (t0 +:+ "?" +:+ t) (ordered ++ [v]) vs'); [| |done..].
  - rewrite <-app_assoc. cbn [app marked]. do 2 f_equal. by rewrite <-!sapp_assoc.
  - by rewrite !no_colon_app, H0, Ht.
Qed.

(** A named query whose parameters are listed in the order of their placeholders, none of
    which reads as a later one, is sent with a mark for each placeholder and the arguments of
    the placeholders in their order; the text never depends on the arguments. *)
Theorem bind_params_in_order (q : NamedQuery) (t0 : string) (ps : list (string * string)) (args : list (string * json))
    (vs : list json) :
  q_sql q = t0 +:+ named ps → q_params q = ps.*1 → no_colon t0 = true → template_ok ps = true →
  mapM (λ p, map_get p args) (q_params q) = Some vs →
  bind_params q args = Ok (t0 +:+ marked ps, vs).
Proof. intros Hs Hp H0 Hok Hvs. unfold bind_params. rewrite Hs, Hp in *. by apply (bind_loop_template ps t0 []). Qed.

(** Parameters listed in another order are bound to the wrong marks. *)
Theorem bind_params_swaps :
  bind_params (mkQuery "rename" "UPDATE t SET name = :name WHERE id = :id" "execute" ["id"; "name"])
    [("id", JInt 7); ("name", JStr "x")] =
  Ok ("UPDATE t SET name = ? WHERE id = ?", [JInt 7; JStr "x"]).
Proof. reflexivity. Qed.

(** A placeholder that is the start of another is replaced inside it. *)
Theorem bind_params_prefix :
  bind_params (mkQuery "pair" "SELECT * FROM t WHERE id = :id AND id2 = :id2" "select" ["id"; "id2"])
    [("id", JInt 1); ("id2", JInt 2)] = Err "query 定义中找不到占位符 :id2".
Proof. reflexivity. Qed.

(** ** Gaps *)

(** An entry for the sub-domains of a domain also allows every name that ends like it. *)
Theorem host_allowed_suffix : host_allowed [".example.com"] "evilexample.com" = true.
Proof. reflexivity. Qed.

(** A link inside the sandbox leads out of it. *)
Theorem link_escapes :
  let h := mkHost {[ ["etc"; "passwd"] := "root" ]} {[ ["tmp"; "plugin"; "up"] := ["etc"] ]} None ∅ ∅ None tt in
  fs_read (λ _, true) h "up/passwd" = Ok (JObj [("content", JStr "root"); ("size_bytes", JInt 4)]).
Proof. reflexivity. Qed.

(** A host whose name does not resolve for the check is not refused. *)
Theorem unresolved_host_passes :
  let h := mkHost ∅ ∅ None {[ "NETWORK_HTTP_ALLOWLIST" := "h" ]} ∅ None tt in
  is_Some (result_ok (http_request (λ _, Some (mkUrl "http" (Some "h"))) (λ _, None)
    (λ _ _, Ok (mkReply 200 [] "internal")) id h (mkHttp "GET" "http://h" [] None))).
Proof. by eexists. Qed.

(** ** Concrete hosts *)

Definition demo_host : Host unit :=
  mkHost ∅ ∅ (Some ∅) {[ "NETWORK_HTTP_ALLOWLIST" := "api.test, .example.com" ]}
    (load_queries [mkQuery "q" "SELECT :a" "select" ["a"]]) (Some {[ 1%Z := [FS_WRITE] ]}) tt.

Definition demo_dispatch (h : Host unit) (ctx : DispatchCtx) : string → Host unit * ReplyEnvelope * list RuntimeAudit :=
  dispatch (λ _ _ _, Ok []) (λ db _ _, Ok (db, 0%Z, 0%Z)) (λ _, None) (λ _, None) (λ _ _, Err "") (λ _, None)
    (λ _, Err "") JNull (λ _, true) id (λ _, None) (S754_zero false)
    (λ _, Some (JObj [("capability", JStr FS_WRITE); ("args", JObj [("path", JStr "a.txt"); ("content", JStr "hi")])])) h ctx.


Lemma http_request_guarded_witness :
  to_ascii_uppercase "get" ∈ ["GET"; "POST"; "PUT"; "DELETE"].
Proof.
  apply (http_request_guarded (DB := unit) (λ _, Some (mkUrl "https" (Some "API.test"))) (λ _, Some [V4 134744072])
    (λ _ _, Ok (mkReply 200 [] "ok")) id demo_host (mkHttp "get" "https://API.test/" [] None)
    (JObj [("status", JInt 200); ("headers", JObj []); ("body", JStr "ok"); ("body_truncated", JBool false)])).
  vm_compute. reflexivity.
Defined.

Lemma bind_params_in_order_witness :
  bind_params (mkQuery "n" "SELECT :a + :b" "select" ["a"; "b"]) [("b", JInt 2); ("a", JInt 1)] =
  Ok ("SELECT ? + ?", [JInt 1; JInt 2]).
Proof.
  apply (bind_params_in_order (mkQuery "n" "SELECT :a + :b" "select" ["a"; "b"]) "SELECT " [("a", " + "); ("b", "")]);
    reflexivity.
Defined.
