(* ===== verification/Pool.v ===== *)
(** * Plugin instances

    [crates/hiveweb/src/runtime/pool.rs] and [runtime/invoker.rs]: idle instances per plugin
    with their counters, the cold start that checks the digest of the module, and one
    invocation from the row of the plugin to the returned instance.  Instances are of an
    abstract type; fetching, hashing and compiling a module and calling an instance are
    arguments.  Each critical section of the pool is one step, so that invocations
    interleave between them. *)

From S2P Require Import Prelude RustStr Json Capability.

Local Open Scope stdpp_scope.
Local Open Scope hive_scope.

Record PoolMetrics := mkMetrics {
  pm_in_use : nat;
  pm_idle : nat;
  pm_created_total : nat;
  pm_cache_misses : nat;
  pm_reset_failures : nat
}.

Record PluginPool (I : Type) := mkPool {
  pp_idle : list I;
  pp_in_use : nat;
  pp_cache_misses : nat
}.
Arguments mkPool {I}.
Arguments pp_idle {I}.
Arguments pp_in_use {I}.
Arguments pp_cache_misses {I}.

Record PoolConfig := mkPoolConfig {
  max_per_plugin : nat;
  max_total : nat;
  call_timeout_ms : Z
}.

Record InstancePool (I : Type) := mkInstances {
  ip_inner : gmap Z (PluginPool I);
  ip_metrics : PoolMetrics
}.
Arguments mkInstances {I}.
Arguments ip_inner {I}.
Arguments ip_metrics {I}.

Inductive PoolError := PoolS3 (msg : string) | Sha256Mismatch | PoolCompile (msg : string).

(** A row of the plugin table, as far as the pool reads it. *)
Record PluginRow := mkRow { pr_id : Z; pr_s3_key : string; pr_sha256 : string }.

Section Pool.
Context {I : Type} (cfg : PoolConfig).

Definition pool_init : InstancePool I := mkInstances ∅ (mkMetrics 0 0 0 0 0).

Definition try_acquire_idle (s : InstancePool I) (plugin_id : Z) : option (I * InstancePool I) :=
  p ← ip_inner s !! plugin_id;
  match pp_idle p with
  | [] => None
  | inst :: rest =>
      let m := ip_metrics s in
      Some (inst, mkInstances
        (<[plugin_id := mkPool rest (pp_in_use p + 1) (pp_cache_misses p)]> (ip_inner s))
        (mkMetrics (pm_in_use m + 1) (pm_idle m - 1) (pm_created_total m) (pm_cache_misses m) (pm_reset_failures m)))
  end.

(** The bookkeeping of a cold start. *)
Definition register_cold (s : InstancePool I) (plugin_id : Z) : InstancePool I :=
  let p := default (mkPool [] 0 0) (ip_inner s !! plugin_id) in
  let m := ip_metrics s in
  mkInstances (<[plugin_id := mkPool (pp_idle p) (pp_in_use p + 1) (pp_cache_misses p + 1)]> (ip_inner s))
    (mkMetrics (pm_in_use m + 1) (pm_idle m) (pm_created_total m + 1) (pm_cache_misses m + 1) (pm_reset_failures m)).

Definition release (s : InstancePool I) (plugin_id : Z) (inst : I) (reset_ok : bool) : InstancePool I :=
  match ip_inner s !! plugin_id with
  | None => s
  | Some p =>
      let m := ip_metrics s in
      if reset_ok && (length (pp_idle p) <? max_per_plugin cfg) then
        mkInstances (<[plugin_id := mkPool (pp_idle p ++ [inst]) (pp_in_use p - 1) (pp_cache_misses p)]> (ip_inner s))
          (mkMetrics (pm_in_use m - 1) (pm_idle m + 1) (pm_created_total m) (pm_cache_misses m) (pm_reset_failures m))
      else
        mkInstances (<[plugin_id := mkPool (pp_idle p) (pp_in_use p - 1) (pp_cache_misses p)]> (ip_inner s))
          (mkMetrics (pm_in_use m - 1) (pm_idle m) (pm_created_total m) (pm_cache_misses m)
             (if reset_ok then pm_reset_failures m else pm_reset_failures m + 1))
  end.

(** What a cold start needs: the object store, the digest and the compiler. *)
Variables (get_wasm : string → result string string) (sha256_hex : string → string)
          (build_plugin : string → result I string).

Definition cold_start (has_s3 : bool) (row : PluginRow) : result I PoolError :=
  if negb has_s3 then Err (PoolS3 "plugin system disabled: S3 client unavailable for cold start")
  else
    let? bytes := map_err PoolS3 (get_wasm (pr_s3_key row)) in
    if negb (String.eqb (sha256_hex bytes) (pr_sha256 row)) then Err Sha256Mismatch
    else map_err PoolCompile (build_plugin bytes).

(** [acquire] of an invocation that runs alone. *)
Definition acquire (s : InstancePool I) (has_s3 : bool) (row : PluginRow)
    : InstancePool I * result I PoolError :=
  match try_acquire_idle s (pr_id row) with
  | Some (inst, s) => (s, Ok inst)
  | None =>
      match cold_start has_s3 row with
      | Err e => (s, Err e)
      | Ok inst => (register_cold s (pr_id row), Ok inst)
      end
  end.

(** ** Invocations *)

Inductive InvokerError :=
| PluginMissing (id : Z)
| InvokeTimeout (ms : Z)
| PluginError (msg : string)
| InvokePool (e : PoolError).

(** [lookup_row] is the query for the plugin that is not deleted.  [call_plugin] gives the
    result of the export, the instance and whether it was reset, or nothing when it
    panicked. *)
Variables (lookup_row : Z → result (option PluginRow) string)
          (call_plugin : I → string → string → option (result string string * I * bool)).

Definition classify (r : result string string) : result string InvokerError * string :=
  match r with
  | Ok out => (Ok out, "success")
  | Err msg =>
      if contains_str msg "timeout" || contains_str msg "fuel"
      then (Err (InvokeTimeout (call_timeout_ms cfg)), "timeout")
      else (Err (PluginError msg), "error")
  end.

(** One invocation that runs alone; the audit record says how it ended. *)
Definition invoke (s : InstancePool I) (has_s3 : bool) (plugin_id : Z) (export_name input_json : string)
    : InstancePool I * result string InvokerError * list RuntimeAudit :=
  match lookup_row plugin_id with
  | Err e => (s, Err (PluginError ("plugin lookup: " +:+ e)), [])
  | Ok None => (s, Err (PluginMissing plugin_id), [])
  | Ok (Some row) =>
      match acquire s has_s3 row with
      | (s, Err e) => (s, Err (InvokePool e), [])
      | (s, Ok inst) =>
          match call_plugin inst export_name input_json with
          | None => (s, Err (PluginError "spawn_blocking join"), [])
          | Some (r, inst, reset_ok) =>
              let s := release s (pr_id row) inst reset_ok in
              let '(answer, outcome) := classify r in
              (s, answer,
               [mkAudit None None (Some plugin_id) None None "plugin_invoke" outcome
                  (match r with Ok _ => None | Err msg => Some msg end) None])
          end
      end
  end.

(** ** Interleavings

    The instances handed out are kept beside the pool: those of calls under way, and those
    whose call panicked. *)

Record pool_world := mkPw {
  pw_pool : InstancePool I;
  pw_held : list (Z * I);
  pw_lost : list Z
}.

Inductive pool_step : pool_world → pool_world → Prop :=
| PsIdle s held lost id inst s' : try_acquire_idle s id = Some (inst, s') →
    pool_step (mkPw s held lost) (mkPw s' ((id, inst) :: held) lost)
| PsCold s held lost id inst :
    pool_step (mkPw s held lost) (mkPw (register_cold s id) ((id, inst) :: held) lost)
| PsRelease s held1 held2 lost id inst inst' reset_ok :
    pool_step (mkPw s (held1 ++ (id, inst) :: held2) lost)
              (mkPw (release s id inst' reset_ok) (held1 ++ held2) lost)
| PsPanic s held1 held2 lost id inst :
    pool_step (mkPw s (held1 ++ (id, inst) :: held2) lost) (mkPw s (held1 ++ held2) (id :: lost)).

Definition pool_reach : pool_world → Prop := rtc pool_step (mkPw pool_init [] []).
End Pool.

(** ** Counters *)

Section Facts.
Context {I : Type} (cfg : PoolConfig).
Implicit Types (p : PluginPool I) (m : gmap Z (PluginPool I)).

Definition idle_total m : nat := map_fold (λ _ p n, length (pp_idle p) + n) 0 m.

Lemma idle_total_insert m k p :
  idle_total (<[k := p]> m) + length (default [] (pp_idle <$> m !! k)) = idle_total m + length (pp_idle p).
Proof.
  unfold idle_total. destruct (m !! k) as [q|] eqn:E; cbn.
  - rewrite <-(insert_delete_id m k q E) at 2. rewrite <-insert_delete_eq.
    rewrite !map_fold_insert_L by (try apply lookup_delete_eq; intros; lia). lia.
  - rewrite map_fold_insert_L by (try done; intros; lia). lia.
Qed.

Definition count (id : Z) (ids : list Z) : nat := length (retain (Z.eqb id) ids).

#[local] Arguments count : simpl never.

Lemma count_cons id x ids : count id (x :: ids) = (if Z.eqb id x then 1 else 0) + count id ids.
Proof. unfold count. cbn. by destruct (Z.eqb id x). Qed.

Lemma count_app id l k : count id (l ++ k) = count id l + count id k.
Proof. unfold count. by rewrite retain_app, length_app. Qed.

(** Every instance handed out is counted once, and idle ones are within their bound. *)
Record pool_inv (w : pool_world (I := I)) : Prop := {
  pi_in_use : pm_in_use (ip_metrics (pw_pool w)) = length (pw_held w) + length (pw_lost w);
  pi_each : ∀ id, default 0 (pp_in_use <$> ip_inner (pw_pool w) !! id) = count id (pw_held w).*1 + count id (pw_lost w);
  pi_idle : pm_idle (ip_metrics (pw_pool w)) = idle_total (ip_inner (pw_pool w));
  pi_bound : ∀ id p, ip_inner (pw_pool w) !! id = Some p → length (pp_idle p) ≤ max_per_plugin cfg
}.

(** Replacing the pool of one plugin, from what it changes. *)
Lemma pool_inv_update (w : pool_world (I := I)) id p held lost metrics :
  pool_inv w →
  pm_in_use metrics = length held + length lost →
  pp_in_use p = count id held.*1 + count id lost →
  (∀ j, j ≠ id → count j held.*1 + count j lost = count j (pw_held w).*1 + count j (pw_lost w)) →
  pm_idle metrics + length (default [] (pp_idle <$> ip_inner (pw_pool w) !! id)) =
    pm_idle (ip_metrics (pw_pool w)) + length (pp_idle p) →
  length (pp_idle p) ≤ max_per_plugin cfg →
  pool_inv (mkPw (mkInstances (<[id := p]> (ip_inner (pw_pool w))) metrics) held lost).
Proof.
  intros [Hu He Hi Hb] Hu' Hp Hj Hidle Hmax. split; cbn [pw_pool pw_held pw_lost ip_inner ip_metrics].
  - done.
  - intros j. destruct (decide (j = id)) as [->|Hne].
    + rewrite lookup_insert_eq. done.
    + rewrite lookup_insert_ne, He, Hj by done. done.
  - pose proof (idle_total_insert (ip_inner (pw_pool w)) id p). lia.
  - intros j q [[<- <-]|[_ Hq]]%lookup_insert_Some; [done|by eapply Hb].
Qed.

Lemma pool_step_inv w w' : pool_step cfg w w' → pool_inv w → pool_inv w'.
Proof.
  destruct 1 as [s held lost id inst s' Ha|s held lost id inst|s held1 held2 lost id inst inst' ok|s held1 held2 lost id inst];
    intros Hinv; pose proof Hinv as [Hu He Hi Hb]; cbn [pw_pool pw_held pw_lost] in *; specialize (He id) as Hid.
  - apply bind_Some in Ha as (p & Hp & Ha). destruct (pp_idle p) as [|i rest] eqn:Ei; [done|].
    cbv zeta in Ha. injection Ha as -> <-.
    rewrite Hp in Hid. cbn in Hid. specialize (Hb _ _ Hp). rewrite Ei in Hb. cbn in Hb.
    pose proof (idle_total_insert (ip_inner s) id (mkPool [] 0 0)) as Ht. rewrite Hp in Ht. cbn in Ht. rewrite Ei in Ht. cbn in Ht.
    apply (pool_inv_update (mkPw s held lost)); cbn; rewrite ?count_cons, ?Z.eqb_refl, ?Hp; cbn; rewrite ?Ei; cbn; try lia; [done|].
    intros j Hj. rewrite count_cons. by destruct (Z.eqb_spec j id).
  - apply (pool_inv_update (mkPw s held lost)); cbn; rewrite ?count_cons, ?Z.eqb_refl; try lia; [done|..].
    + destruct (ip_inner s !! id) as [p|]; cbn in *; lia.
    + intros j Hj. rewrite count_cons. by destruct (Z.eqb_spec j id).
    + destruct (ip_inner s !! id) as [p|]; cbn; lia.
    + destruct (ip_inner s !! id) as [p|] eqn:Hp; cbn; [by eapply Hb|lia].
  - rewrite fmap_app, count_app in Hid. cbn in Hid. rewrite count_cons, Z.eqb_refl in Hid.
    rewrite length_app in Hu. cbn in Hu. unfold release.
    destruct (ip_inner s !! id) as [p|] eqn:Hp; [|cbn in Hid; lia]. cbn in Hid. specialize (Hb _ _ Hp).
    assert (Hj : ∀ j, j ≠ id → count j (held1 ++ held2).*1 + count j lost =
      count j (held1 ++ (id, inst) :: held2).*1 + count j lost).
    { intros j Hj. rewrite !fmap_app, !count_app. cbn. rewrite count_cons. by destruct (Z.eqb_spec j id). }
    destruct (ok && _) eqn:Eok.
    + apply andb_true_iff in Eok as [-> Hlt%Nat.ltb_lt].
      apply (pool_inv_update (mkPw s (held1 ++ (id, inst) :: held2) lost)); cbn; try done; rewrite ?Hp; cbn;
        rewrite ?fmap_app, ?count_app, ?length_app; cbn; lia.
    + apply (pool_inv_update (mkPw s (held1 ++ (id, inst) :: held2) lost)); cbn; try done; rewrite ?Hp; cbn;
        rewrite ?fmap_app, ?count_app, ?length_app; cbn; lia.
  - split; cbn [pw_pool pw_held pw_lost].
    + rewrite length_app in *. cbn in *. lia.
    + intros j. rewrite He, !fmap_app, !count_app. cbn. rewrite !count_cons. lia.
    + done.
    + done.
Qed.

(** However invocations interleave, the counters of the pool are those of the instances
    handed out, for each plugin and in total, the idle count is that of the idle lists, and
    no plugin keeps more idle instances than its limit; an instance whose call panicked
    stays counted as in use. *)
Theorem pool_counts (w : pool_world) : pool_reach cfg w → pool_inv w.
Proof.
  unfold pool_reach. assert (H0 : pool_inv (mkPw pool_init [] [])) by (split; done).
  revert H0. generalize (mkPw (pool_init (I := I)) [] []) as w0. intros w0 H0 H.
  induction H as [|? ? ? Hstep _ IH]; [done|]. apply IH. by eapply pool_step_inv.
Qed.
End Facts.

(** ** Invocations that run alone *)

Section Invocations.
Context {I : Type} (cfg : PoolConfig) (get_wasm : string → result string string) (sha256_hex : string → string)
  (build_plugin : string → result I string) (lookup_row : Z → result (option PluginRow) string)
  (call_plugin : I → string → string → option (result string string * I * bool)).

Abbreviation invoke_ := (invoke cfg get_wasm sha256_hex build_plugin lookup_row call_plugin).

Lemma acquire_in_use s has_s3 row s' inst :
  acquire get_wasm sha256_hex build_plugin s has_s3 row = (s', Ok inst) →
  pm_in_use (ip_metrics s') = pm_in_use (ip_metrics s) + 1 ∧
  is_Some (ip_inner s' !! pr_id row).
Proof.
  unfold acquire. destruct (try_acquire_idle s (pr_id row)) as [[i s1]|] eqn:E.
  - intros [= -> ->]. unfold try_acquire_idle in E. apply bind_Some in E as (p & Hp & E).
    destruct (pp_idle p); [done|]. cbv zeta in E. injection E as -> <-. cbn. rewrite lookup_insert_eq. by split; [|eexists].
  - destruct (cold_start _ _ _ _ _); intros [= <- <-]. cbn. rewrite lookup_insert_eq. by split; [|eexists].
Qed.

Lemma release_in_use (s : InstancePool I) id inst ok :
  is_Some (ip_inner s !! id) → pm_in_use (ip_metrics (release cfg s id inst ok)) = pm_in_use (ip_metrics s) - 1.
Proof. intros [p Hp]. unfold release. rewrite Hp. by destruct (ok && _). Qed.

(** An invocation answers with the text of the export only when the plugin exists and an
    instance was idle or built from a module with the recorded digest; it gives its instance
    back whatever the export answers, so the count of instances in use is what it was before,
    unless the call panicked; and it leaves an audit record when the call was made. *)
Theorem invoke_returns_instance (s : InstancePool I) (has_s3 : bool) (id : Z) (export input : string) :
  let '(s', answer, audit) := invoke_ s has_s3 id export input in
  (pm_in_use (ip_metrics s') = pm_in_use (ip_metrics s) ∨
   answer = Err (PluginError "spawn_blocking join") ∧ pm_in_use (ip_metrics s') = pm_in_use (ip_metrics s) + 1) ∧
  (∀ out, answer = Ok out → length audit = 1 ∧ ∃ row inst inst' ok,
     lookup_row id = Ok (Some row) ∧ call_plugin inst export input = Some (Ok out, inst', ok) ∧
     ((∃ s1, try_acquire_idle s (pr_id row) = Some (inst, s1)) ∨
      ∃ bytes, get_wasm (pr_s3_key row) = Ok bytes ∧ sha256_hex bytes = pr_sha256 row ∧ build_plugin bytes = Ok inst)).
Proof.
  unfold Pool.invoke. destruct (lookup_row id) as [[row|]|e] eqn:El; [|by split; [left|]..].
  destruct (acquire _ _ _ s has_s3 row) as [s1 [inst|e]] eqn:Ea.
  2:{ split; [left|done]. unfold acquire in Ea. destruct (try_acquire_idle s (pr_id row)) as [[? ?]|]; [done|].
      destruct (cold_start _ _ _ _ _); by simplify_eq. }
  pose proof (acquire_in_use _ _ _ _ _ Ea) as [Hu Hin].
  destruct (call_plugin inst export input) as [[[r inst'] ok]|] eqn:Ec; [|split; [by right|done]].
  destruct (classify cfg r) as [answer outcome] eqn:Er. split.
  - left. rewrite release_in_use by done. lia.
  - intros out ->. split; [done|].
    assert (r = Ok out) as -> by (destruct r as [o|msg]; cbn in Er; [congruence|by destruct (_ || _)]).
    exists row, inst, inst', ok. split_and!; [done..|]. unfold acquire in Ea.
    destruct (try_acquire_idle s (pr_id row)) as [[i s2]|]; [left; simplify_eq; by eexists|].
    right. destruct (cold_start get_wasm sha256_hex build_plugin has_s3 row) as [i|] eqn:Ecs; [|done]. simplify_eq.
    unfold cold_start in Ecs. destruct has_s3; [|done]. cbn [negb] in Ecs.
    destruct (get_wasm (pr_s3_key row)) as [bytes|]; [|done]. cbn in Ecs. exists bytes. split; [done|].
    destruct (String.eqb_spec (sha256_hex bytes) (pr_sha256 row)); [|done]. cbn in Ecs.
    split; [done|]. destruct (build_plugin bytes); [cbn in Ecs; congruence|done].
Qed.
End Invocations.

(** ** Limits that are not enforced *)

(** However small the limit on instances, any number can be in use. *)
Theorem max_total_not_enforced (cfg : PoolConfig) (n : nat) :
  ∃ w, pool_reach (I := unit) cfg w ∧ pm_in_use (ip_metrics (pw_pool w)) = n.
Proof.
  induction n as [|n ([s held lost] & Hr & Hn)].
  - exists (mkPw pool_init [] []). split; [apply rtc_refl|done].
  - exists (mkPw (register_cold s 1) ((1%Z, tt) :: held) lost). split.
    + eapply rtc_r; [exact Hr|apply PsCold].
    + cbn in *. lia.
Qed.

Lemma pool_counts_witness :
  pool_inv (mkPoolConfig 8 64 33000) (mkPw (register_cold (pool_init (I := unit)) 3) [(3%Z, tt)] []).
Proof.
  apply pool_counts. eapply rtc_l; [apply (PsCold _ pool_init [] [] 3 tt)|apply rtc_refl].
Defined.
