(* ===== verification/RuntimeCtx.v ===== *)
(** * The agent context seen by functions and workflows

    [crates/hiveweb/src/runtime/hook.rs] 547-719: the snapshot of the context that is handed
    to functions, plugins and workflow nodes, and the updates they send back.  Maps are hash
    maps in the source; the order in which their entries are written into JSON is a parameter.
    The main theorem shows that the updates in a function's output, whatever it holds, act as a
    sequence of the context's own guarded operations. *)

From S2P Require Import Prelude RustStr Json Context ContextProps.

Local Open Scope stdpp_scope.
Local Open Scope hive_scope.

(** ** Serialisation *)

(** The derived [Serialize] writes the name of the variant, [Display] the lower-case form. *)
Definition extension_variant (t : ExtensionType) : string :=
  match t with
  | Card => "Card" | Image => "Image" | Suggestion => "Suggestion" | Link => "Link" | Button => "Button"
  | Table => "Table" | Chart => "Chart" | ObjRef => "ObjectRef" | Usage => "Usage"
  end.

Definition extension_display (t : ExtensionType) : string :=
  match t with
  | Card => "card" | Image => "image" | Suggestion => "suggestion" | Link => "link" | Button => "button"
  | Table => "table" | Chart => "chart" | ObjRef => "object_ref" | Usage => "usage"
  end.

Definition opt_json (o : option string) : json := match o with Some s => JStr s | None => JNull end.

Section Snapshot.
(** The iteration orders of the two kinds of hash map. *)
Variables (str_order : gmap string string → list (string * string))
          (ext_order : gmap string ExtensionContent → list (string * ExtensionContent)).

Definition string_map_json (m : gmap string string) : json :=
  JObj ((λ kv, (kv.1, JStr kv.2)) <$> str_order m).

Definition extension_json (x : ExtensionContent) : json :=
  JObj ([("id", JStr (x_id x)); ("content_type", JStr (extension_variant (x_type x)))]
        ++ match x_reply x with Some r => [("reply", r)] | None => [] end
        ++ [("data", x_data x); ("render_hints", string_map_json (x_hints x))]).

Definition record_json (r : RecordEntry) : json :=
  JObj [("key", JStr (e_key r)); ("value", e_value r); ("source", JStr (e_source r))].

(** [cat_to_vec]. *)
Definition category_json (c : AgentContext) (cat : Category) : json :=
  JArr (record_json <$> match get_category c cat with Ok rs => rs | Err _ => [] end).

Definition user_input_json (ui : UserInput) : json :=
  JObj [("raw_text", JStr (raw_text ui)); ("session_id", opt_json (session_id ui));
        ("message_id", opt_json (message_id ui)); ("timestamp", JInt (input_timestamp ui));
        ("metadata", string_map_json (input_metadata ui))].

Definition get_extensions (c : AgentContext) : list ExtensionContent := (ext_order (extensions c)).*2.

Definition agent_context_snapshot_value (c : AgentContext) : json :=
  JObj [("user_input", user_input_json (user_input c));
        ("tool_results", category_json c ToolResults);
        ("entities", category_json c Entities);
        ("state_changes", category_json c StateChanges);
        ("extensions", JArr (extension_json <$> get_extensions c));
        ("messages", JArr (ctx_messages c))].

Definition inject_agent_context_snapshot (input : json) (c : AgentContext) : json :=
  match input with
  | JObj m => JObj (map_insert "_agent_context" (agent_context_snapshot_value c) m)
  | _ => input
  end.
End Snapshot.

(** ** Updates *)

Definition category_of_name (s : string) : option Category :=
  find_first (λ c, String.eqb (category_name c) s) all_categories.

Definition extension_type_of (s : string) : ExtensionType :=
  if String.eqb s "card" then Card
  else if String.eqb s "image" then Image
  else if String.eqb s "suggestion" then Suggestion
  else if String.eqb s "link" then Link
  else if String.eqb s "button" then Button
  else if String.eqb s "table" then Table
  else if String.eqb s "chart" then Chart
  else if String.eqb s "object_ref" then ObjRef
  else if String.eqb s "usage" then Usage
  else Card.

Definition apply_record (now : Z) (c : AgentContext) (rcd : json) : AgentContext :=
  let category_str := default "" (get_str "category" rcd) in
  let key := default "" (get_str "key" rcd) in
  let value := default JNull (jget "value" rcd) in
  let source := default "hook_function" (get_str "source" rcd) in
  let iteration := Z.to_nat (default 0%Z (jget "iteration" rcd ≫= as_u64)) in
  match category_of_name category_str with
  | Some cat => attempt_write c (set_record now c cat key value source iteration)
  | None => c
  end.

(** The data of an extension: its [data] field, else the object without its other fields. *)
Definition extension_data (ext : json) : option json :=
  match jget "data" ext with
  | Some d => Some d
  | None => obj ← as_object ext; Some (JObj (map_remove "reply" (map_remove "id" (map_remove "content_type" obj))))
  end.

Definition extension_of_json (ext : json) : option ExtensionContent :=
  data ← extension_data ext;
  Some (mkExtension (default "" (get_str "id" ext))
          (extension_type_of (default "card" (get_str "content_type" ext))) (jget "reply" ext) data ∅).

Definition apply_extension (c : AgentContext) (ext : json) : AgentContext :=
  match extension_of_json ext with
  | Some x => attempt_write c (add_extension c (x_id x) x)
  | None => c
  end.

Definition apply_metadata (c : AgentContext) (kv : string * json) : AgentContext :=
  match as_str kv.2 with
  | Some s => attempt_write c (set_metadata c kv.1 s)
  | None => c
  end.

Definition apply_agent_context_updates (now : Z) (c : AgentContext) (output : json) : AgentContext :=
  match jget "_agent_context_updates" output with
  | None => c
  | Some updates =>
      let c := foldl (apply_record now) c (default [] (get_array "records" updates)) in
      let c := foldl apply_extension c (default [] (get_array "extensions" updates)) in
      foldl apply_metadata c (default [] (jget "metadata" updates ≫= as_object))
  end.

(** ** Updates are guarded operations *)

Definition record_op (now : Z) (rcd : json) : option (Z * CtxOp) :=
  cat ← category_of_name (default "" (get_str "category" rcd));
  Some (now, OpSet cat (default "" (get_str "key" rcd)) (default JNull (jget "value" rcd))
               (default "hook_function" (get_str "source" rcd))
               (Z.to_nat (default 0%Z (jget "iteration" rcd ≫= as_u64)))).

Definition extension_op (now : Z) (ext : json) : option (Z * CtxOp) :=
  x ← extension_of_json ext; Some (now, OpExtension (x_id x) x).

Definition metadata_op (now : Z) (kv : string * json) : option (Z * CtxOp) :=
  s ← as_str kv.2; Some (now, OpMetadata kv.1 s).

(** The operations an output asks for. *)
Definition update_ops (now : Z) (output : json) : list (Z * CtxOp) :=
  match jget "_agent_context_updates" output with
  | None => []
  | Some updates =>
      omap (record_op now) (default [] (get_array "records" updates))
      ++ omap (extension_op now) (default [] (get_array "extensions" updates))
      ++ omap (metadata_op now) (default [] (jget "metadata" updates ≫= as_object))
  end.

Lemma foldl_ops {A} (f : AgentContext → A → AgentContext) (op : A → option (Z * CtxOp)) l c :
  (∀ c a, f c a = match op a with Some o => apply_op c o | None => c end) →
  foldl f c l = apply_ops c (omap op l).
Proof.
  intros H. revert c. induction l as [|a l IH]; intros c; csimpl; [done|].
  rewrite H, IH. by destruct (op a).
Qed.

Lemma ctx_ops_app c l k : apply_ops c (l ++ k) = apply_ops (apply_ops c l) k.
Proof. apply foldl_app. Qed.

Lemma apply_updates_ops now c output :
  apply_agent_context_updates now c output = apply_ops c (update_ops now output).
Proof.
  unfold apply_agent_context_updates, update_ops.
  destruct (jget "_agent_context_updates" output) as [updates|]; [|done].
  rewrite !ctx_ops_app.
  rewrite (foldl_ops (apply_record now) (record_op now)), (foldl_ops apply_extension (extension_op now)),
    (foldl_ops apply_metadata (metadata_op now)); [done| | |]; intros.
  - unfold apply_metadata, metadata_op. by destruct (as_str _).
  - unfold apply_extension, extension_op. by destruct (extension_of_json _).
  - unfold apply_record, record_op. by destruct (category_of_name _).
Qed.

(** Operations that write records, extensions or metadata only. *)
Definition plain_op (o : Z * CtxOp) : Prop :=
  match o.2 with OpSet _ _ _ _ _ | OpExtension _ _ | OpMetadata _ _ => True | _ => False end.

Lemma update_ops_plain now output : Forall plain_op (update_ops now output).
Proof.
  unfold update_ops. destruct (jget _ _) as [u|]; [|constructor].
  rewrite !Forall_app. split_and!; apply Forall_forall; intros o (a & _ & Ha)%list_elem_of_omap.
  - unfold record_op in Ha. destruct (category_of_name _); [|done]. injection Ha as <-. done.
  - unfold extension_op in Ha. destruct (extension_of_json _); [|done]. injection Ha as <-. done.
  - unfold metadata_op in Ha. destruct (as_str _); [|done]. injection Ha as <-. done.
Qed.

(** What plain operations never touch. *)
Definition fixed_part (c : AgentContext) :=
  (context_id c, user_input c, response_payload c, lifecycle_state c, created_at c, ctx_messages c, config c,
   (blacklisted_categories c, subagent_id c, delegation_chain c)).

Lemma plain_op_fixed c o : plain_op o → fixed_part (apply_op c o) = fixed_part c.
Proof.
  destruct o as [now []]; try done; intros _; cbn [apply_op].
  - destruct (set_record now c cat key value source iteration) as [c'|] eqn:E; [|done].
    unfold set_record in E. destruct (check_write_allowed c), (check_blacklist c cat), (check_sensitive_data key value);
      try done. cbn in E. destruct (categories c !! cat); [|done]. injection E as <-. done.
  - unfold add_extension. by destruct (check_write_allowed c).
Qed.

Lemma apply_ops_ind (P : AgentContext → Prop) (Q : Z * CtxOp → Prop) c ops :
  (∀ c o, Q o → P c → P (apply_op c o)) → Forall Q ops → P c → P (apply_ops c ops).
Proof.
  intros H HQ. revert c. induction HQ as [|o ops Ho _ IH]; intros c Hc; [done|]. apply IH. by apply H.
Qed.

(** Whatever is true of every plain operation is true of the updates of any output. *)
Lemma updates_ind (P : AgentContext → Prop) now c output :
  (∀ c o, plain_op o → P c → P (apply_op c o)) → P c → P (apply_agent_context_updates now c output).
Proof.
  intros H Hc. rewrite apply_updates_ops. eapply apply_ops_ind; [exact H|apply update_ops_plain|done].
Qed.

(** Whatever a function, plugin or workflow node returns, its updates to the agent context
    store no credential, change no category the context is denied, leave a finished context as
    it was, and never touch the user's input, the conversation, the response, the lifecycle or
    the delegation data. *)
Theorem updates_guarded (now : Z) (c : AgentContext) (output : json) :
  let c' := apply_agent_context_updates now c output in
  fixed_part c' = fixed_part c ∧
  (no_secrets c → no_secrets c') ∧
  (is_over c = true → frozen_part c' = frozen_part c) ∧
  ∀ bl id cat, blacklisted_categories c = Some bl → subagent_id c = Some id → cat ∈ bl →
    categories c' !! cat = categories c !! cat.
Proof.
  cbn zeta. split_and!.
  - apply (updates_ind (λ x, fixed_part x = fixed_part c)); [|done]. intros x o Ho <-. by apply plain_op_fixed.
  - intros H. apply updates_ind; [|done]. intros x o _. apply apply_op_no_secrets.
  - intros H. apply (updates_ind (λ x, frozen_part x = frozen_part c)); [|done]. intros x o _ Hx.
    rewrite <-Hx. apply apply_op_frozen. unfold is_over in *. injection Hx as _ _ _ _ Hl. by rewrite Hl.
  - intros bl id cat Hb Hi Hin.
    destruct (updates_ind (shielded bl id cat (categories c !! cat)) now c output) as (_ & _ & Hs); [|done|done].
    intros x o _. by apply apply_op_shielded.
Qed.

(** An extension read from the snapshot and sent back as an update loses its type: the
    snapshot writes the name of the variant, the updates only know the lower-case form. *)
Theorem extension_type_lost str_order (x : ExtensionContent) :
  x_type <$> extension_of_json (extension_json str_order x) = Some Card.
Proof.
  destruct x as [id t r d h]. unfold extension_of_json, extension_data, extension_json. cbn.
  by destruct r, t.
Qed.

(** A record sent back under the key it was read from is found there, unless it is refused. *)
Example updates_example :
  let c := apply_agent_context_updates 5
             (context_init "c" (mkInput "hi" None None 0 ∅) default_config 0)
             (JObj [("_agent_context_updates",
                JObj [("records", JArr [JObj [("category", JStr "Entities"); ("key", JStr "city"); ("value", JStr "Rome")];
                                        JObj [("category", JStr "Entities"); ("key", JStr "api_key"); ("value", JStr "k")]]);
                      ("extensions", JArr [JObj [("id", JStr "x"); ("content_type", JStr "image"); ("url", JStr "u")]]);
                      ("metadata", JObj [("agent_loop_break", JStr "true")])])]) in
  get_category c Entities = Ok [mkEntry "city" (JStr "Rome") "hook_function" 5 0] ∧
  extensions c !! "x" = Some (mkExtension "x" Image None (JObj [("url", JStr "u")]) ∅) ∧
  ctx_metadata c !! "agent_loop_break" = Some "true".
Proof. by vm_compute. Qed.
