(* ===== verification/Executor.v ===== *)
(** * Execution of workflows

    [crates/hiveweb/src/runtime/workflow/]: loading a graph, running its nodes layer by layer
    ([workflow_executor.rs]), resolving their inputs, function nodes ([node_executor.rs],
    [function_node.rs]) and answer nodes ([generate_answer_node.rs]), and the output of the end
    node.

    Builtin functions, plugins and models act on a world [W]; builtins may also use the agent
    context.  The nodes of a layer are one after another in the order of the layer: waits of
    one node during which another runs are not represented.  The order in which a hash set is
    walked is a parameter.  A deadline passes during a layer after some of its nodes have
    run ([cut]). *)

From S2P Require Import Prelude RustStr F64 Json DagCheck InputSpec Workflow Provider Capability.
From S2P Require Import Context ContextProps RuntimeCtx.

Local Open Scope stdpp_scope.
Local Open Scope hive_scope.

Inductive WorkflowError :=
| WfNotFound (id : Z)
| LoadFailed (msg : string)
| MissingFunction (key : string)
| WfTimeout (ms : Z)
| NodeFailure (key msg : string)
| MappingResolve (key field msg : string).

(** ** Inputs of a node *)

Definition resolve_dot_path (root : json) (path field : string) : result json (string * string) :=
  foldl (λ cur seg,
    let? v := cur in
    match v with
    | JObj m => match map_get seg m with
                | Some x => Ok x
                | None => Err (field, "path segment '" +:+ seg +:+ "' not found in upstream output")
                end
    | _ => Err (field, "cannot index into non-object at segment '" +:+ seg +:+ "'")
    end) (Ok root) (split_on "." path).

Definition resolve_from_external (key field : string) (external : json) : result json (string * string) :=
  match as_object external with
  | None => Err (field, "external_input is not a JSON object")
  | Some m => Ok (default (JStr "") (map_get key m))
  end.

Definition or_missing {A} (o : option A) (field msg : string) : result A (string * string) :=
  match o with Some a => Ok a | None => Err (field, msg) end.

(** The records of a category of the snapshot. *)
Definition resolve_record (cat_name key : string) (snapshot : json) (field : string)
    : result json (string * string) :=
  let? arr := or_missing (get_array cat_name snapshot) field ("snapshot." +:+ cat_name +:+ " missing") in
  or_missing (find_first (str_field_is "key" key) arr ≫= jget "value") field (cat_name +:+ "." +:+ key +:+ " not found").

Definition resolve_from_agent_context (category : AgentContextCategory) (key : string) (sub_key : option string)
    (snapshot : json) (field : string) : result json (string * string) :=
  match category with
  | InputSpec.UserInput =>
      let? ui := or_missing (jget "user_input" snapshot ≫= as_object) field "snapshot.user_input missing" in
      match sub_key with
      | Some sk =>
          let? md := or_missing (map_get "metadata" ui ≫= as_object) field "snapshot.user_input.metadata missing" in
          or_missing (map_get sk md) field ("user_input.metadata." +:+ sk +:+ " not found")
      | None => or_missing (map_get key ui) field ("user_input." +:+ key +:+ " not found")
      end
  | InputSpec.Entities => resolve_record "entities" key snapshot field
  | InputSpec.ToolResults => resolve_record "tool_results" key snapshot field
  | InputSpec.StateChanges => resolve_record "state_changes" key snapshot field
  | InputSpec.Extensions =>
      let? arr := or_missing (get_array "extensions" snapshot) field "snapshot.extensions missing" in
      let? ext := or_missing (find_first (str_field_is "id" key) arr) field ("extension id '" +:+ key +:+ "' not found") in
      let? sk := or_missing sub_key field "extensions requires sub_key (field name)" in
      or_missing (jget sk ext) field ("extension '" +:+ key +:+ "' has no field '" +:+ sk +:+ "'")
  end.

Definition resolve_source (outputs : gmap string json) (external snapshot : json) (field : string)
    (src : InputSource) : result json (string * string) :=
  match src with
  | Upstream node sub =>
      if String.eqb node "start" then resolve_from_external (default field sub) field external
      else
        let? upstream := or_missing (outputs !! node) field ("upstream node '" +:+ node +:+ "' produced no output") in
        match sub with Some path => resolve_dot_path upstream path field | None => Ok upstream end
  | Custom value => Ok value
  | InputSpec.AgentContext category key sub_key => resolve_from_agent_context category key sub_key snapshot field
  end.

(** The specification is a [BTreeMap]: its fields are visited in order. *)
Fixpoint build_input_from_spec (spec : InputSpec) (outputs : gmap string json) (external snapshot : json)
    (input : list (string * json)) : result json (string * string) :=
  match spec with
  | [] => Ok (JObj input)
  | (field, src) :: spec =>
      let? value := resolve_source outputs external snapshot field src in
      build_input_from_spec spec outputs external snapshot (map_insert field value input)
  end.

(** ** Templates and history *)

(** What follows a match of [\s*[a-zA-Z0-9_]+\s*\}] at the start of [s]. *)
Definition after_placeholder (s : string) : option string :=
  match trim_start s with
  | String c r =>
      if is_word_char c then
        match trim_start (drop_word r) with String "}" rest => Some rest | _ => None end
      else None
  | "" => None
  end.

Fixpoint strip_placeholders (skip : nat) (s : string) : string :=
  match s with
  | "" => ""
  | String c s' =>
      match skip with
      | S k => strip_placeholders k s'
      | O =>
          match (if Ascii.eqb c "{" then after_placeholder s' else None) with
          | Some rest => strip_placeholders (String.length s' - String.length rest) s'
          | None => String c (strip_placeholders 0 s')
          end
      end
  end.

Definition resolve_template_vars (to_string : json → string) (template : string) (input : json) : string :=
  strip_placeholders 0
    match input with
    | JObj m => foldl (λ t kv, replace_str ("{" +:+ kv.1 +:+ "}")
                                 (match kv.2 with JStr s => s | v => to_string v end) t) template m
    | _ => template
    end.

Definition speaker (role : string) : string :=
  if String.eqb role "user" then "用户A" else if String.eqb role "assistant" then "用户B" else role.

Definition history_line (msg : json) : option string :=
  let content := default "" (get_str "content" msg) in
  if is_empty content then None else Some (speaker (default "" (get_str "role" msg)) +:+ ": " +:+ content).

Definition build_history_context (c : AgentContext) (limit : nat) : string :=
  match ctx_messages c with
  | [] => "用户A:" +:+ raw_text (user_input c)
  | messages =>
      let recent := if (0 <? limit) && (limit <? length messages) then drop (length messages - limit) messages
                    else messages in
      join (String nl "") (filter_map history_line recent)
  end.

(** ** The output of the end node *)

Definition schema_fields (schema : json) : list string :=
  match jget "properties" schema ≫= as_object with Some props => props.*1 | None => [] end.

Definition collect_fields (fields : list string) (end_output : list (string * json)) (v : option json)
    : list (string * json) :=
  match v with
  | Some (JObj obj) =>
      foldl (λ acc field, match map_get field obj with Some x => map_insert field x acc | None => acc end)
        end_output fields
  | _ => end_output
  end.

Definition final_node_keys (nodes : list NodeRow) (succ : gmap string (list string)) : list string :=
  retain (λ k, negb (bool_decide (is_Some (succ !! k)))) (nr_key <$> nodes).

Definition build_end_output (nodes : list NodeRow) (succ : gmap string (list string)) (outputs : gmap string json)
    (output_schema : option json) : json :=
  match output_schema with
  | Some schema =>
      JObj (foldl (λ acc nk, collect_fields (schema_fields schema) acc (outputs !! nk)) []
              (final_node_keys nodes succ))
  | None =>
      match outputs !! "end" with
      | Some (JObj m) => JObj (map_remove "_agent_context_updates" m)
      | Some v => v
      | None => JObj []
      end
  end.

(** ** Topology *)

Definition key_map {A} (f : NodeRow → A) (nodes : list NodeRow) : gmap string A :=
  list_to_map (rev ((λ r, (nr_key r, f r)) <$> nodes)).

(** The ends of the edges that join known nodes, by key. *)
Definition edge_keys (keys : gmap Z string) (edges : list EdgeRow) : list (string * string) :=
  filter_map (λ e, s ← keys !! er_src e; d ← keys !! er_dst e; Some (s, d)) edges.

Definition count_indegree (indegree : gmap string nat) (e : string * string) : gmap string nat :=
  <[e.2 := default 0 (indegree !! e.2) + 1]> indegree.

Definition add_succ (succ : gmap string (list string)) (e : string * string) : gmap string (list string) :=
  <[e.1 := default [] (succ !! e.1) ++ [e.2]]> succ.

(** One downstream edge of a finished node. *)
Definition lower_indegree (indegree : gmap string nat) (dst : string) : gmap string nat :=
  alter (λ d, d - 1) dst indegree.

(** ** Running the nodes *)

Record FunctionRuntimeMeta := mkMeta {
  fm_kind : Z; fm_plugin : option Z; fm_export : option string; fm_identifier : string
}.

Section Executor.
Context {W : Type}.
Variables (str_order : gmap string string → list (string * string))
          (ext_order : gmap string ExtensionContent → list (string * ExtensionContent))
          (set_order : gset string → list string).
Variables (to_string : json → string) (from_str : string → option json) (spec_text : SpecError → string).
(** [fetch_runtime_meta], the builtin handlers, the invoker and the models. *)
Variables (function_meta : Z → result (option FunctionRuntimeMeta) string)
          (builtin_lookup : string → option (json → W * AgentContext → W * AgentContext * result json string))
          (invoke_plugin : DispatchCtx → string → string → W → W * result string string)
          (build_primary : option string → result ((W → ChatRequest → W * LLMResponse) * string) string)
          (resolve_config : option string → Z * f32) (clock : W → Z).

Abbreviation snapshot_value := (agent_context_snapshot_value str_order ext_order).
Abbreviation inject := (inject_agent_context_snapshot str_order ext_order).

(** [start] and other types pass the external input on. *)
Definition build_node_input (node_type node_key : string) (outputs : gmap string json) (external : json)
    (node_config : option json) (c : AgentContext) : result json (string * string) :=
  if String.eqb node_type "function_node" || String.eqb node_type "generate_answer_node" then
    let spec_value := default JNull (node_config ≫= jget "input_mapping") in
    let? spec := map_err (λ e, (node_key, "parse node_config.input_mapping: " +:+ spec_text e))
                   (parse_input_spec spec_value) in
    build_input_from_spec spec outputs external (snapshot_value c) []
  else Ok external.

Abbreviation node_result := (result (string * json) WorkflowError).

(** *** Function nodes *)

Definition execute_builtin_function (node_key identifier : string) (input : json) (s : W * AgentContext)
    : W * AgentContext * node_result :=
  match builtin_lookup identifier with
  | None => (s, Err (NodeFailure node_key ("unknown builtin: " +:+ identifier)))
  | Some handler =>
      let '(s, r) := handler (inject input s.2) s in
      (s, match r with Ok out => Ok (node_key, out) | Err msg => Err (NodeFailure node_key msg) end)
  end.

Definition execute_plugin_function (node_key : string) (function_id : Z) (plugin_id : option Z)
    (export : option string) (input : json) (agent_id : Z) (perms : list string) (s : W * AgentContext)
    : W * AgentContext * node_result :=
  match plugin_id, export with
  | None, _ => (s, Err (NodeFailure node_key "custom function missing plugin_id"))
  | Some _, None => (s, Err (NodeFailure node_key "custom function missing plugin_export"))
  | Some plugin_id, Some export =>
      let input_json := to_string (inject input s.2) in
      let ctx := mkDispatch None agent_id plugin_id (Some function_id) perms in
      let '(w, r) := invoke_plugin ctx export input_json s.1 in
      ((w, s.2),
       match r with
       | Ok out_str => Ok (node_key, default (JStr out_str) (from_str out_str))
       | Err e => Err (NodeFailure node_key ("plugin invoke: " +:+ e))
       end)
  end.

Definition execute_function_node (node_key : string) (function_id : Z) (input : json) (agent_id : Z)
    (perms : list string) (s : W * AgentContext) : W * AgentContext * node_result :=
  match function_meta function_id with
  | Err e => (s, Err (NodeFailure node_key ("function fetch: " +:+ e)))
  | Ok None => (s, Err (NodeFailure node_key ("function id=" +:+ pretty function_id +:+ " not found")))
  | Ok (Some meta) =>
      if (fm_kind meta =? 1)%Z then execute_builtin_function node_key (fm_identifier meta) input s
      else execute_plugin_function node_key function_id (fm_plugin meta) (fm_export meta) input agent_id perms s
  end.

(** *** Answer nodes *)

Definition answer_preset (cfg : json) : option string :=
  p ← get_str "model_preset" cfg; if is_empty p then None else Some p.

Definition answer_prompt (cfg input : json) (c : AgentContext) : string :=
  let system_prompt := default "You are a helpful assistant." (get_str "system_prompt" cfg) in
  let window := Z.to_nat (Z.max 0 (default 0%Z (jget "history_window" cfg ≫= as_i64))) in
  let input := match input with JObj m => JObj (map_remove "_agent_context" m) | _ => input end in
  let input :=
    if 0 <? window then
      let history := build_history_context c window in
      match input with
      | JObj m => if is_empty history then input else JObj (map_insert "context" (JStr history) m)
      | _ => input
      end
    else input in
  resolve_template_vars to_string system_prompt input.

Definition execute_answer_node (node_key : string) (input : json) (node_config : option json) (s : W * AgentContext)
    : W * AgentContext * node_result :=
  let cfg := default JNull node_config in
  let preset := answer_preset cfg in
  let prompt := answer_prompt cfg input s.2 in
  let max_tokens := (resolve_config preset).1 in
  let '(w, answer) :=
    match build_primary preset with
    | Ok (chat, model) =>
        let '(w, resp) := chat s.1 (mkRequest [JObj [("role", JStr "system"); ("content", JStr prompt)]] None
                                      (Some model) max_tokens (S754_zero false) None None) in
        (w, if is_error resp then "[LLM 调用失败: " +:+ default "unknown LLM error" (rs_content resp) +:+ "]"
            else default "" (rs_content resp))
    | Err _ => (s.1, "[无可用模型] 系统提示: " +:+ prompt +:+ String nl "")
    end in
  ((w, s.2), Ok (node_key, JObj [("answer", JStr answer); ("model_preset", opt_json preset)])).

Definition execute_node (function_id : option Z) (node_type : string) (node_config : option json) (node_key : string)
    (input : json) (agent_id : Z) (perms : list string) (s : W * AgentContext) : W * AgentContext * node_result :=
  if String.eqb node_type "generate_answer_node" then execute_answer_node node_key input node_config s
  else if String.eqb node_type "function_node" then
    match function_id with
    | None => (s, Err (NodeFailure node_key "function node has no function_id"))
    | Some fid => execute_function_node node_key fid input agent_id perms s
    end
  else (s, Err (NodeFailure node_key ("unsupported node type: " +:+ node_type))).

(** *** Layers *)

Record Plan := mkPlan {
  key_to_function : gmap string (option Z);
  key_to_node_type : gmap string string;
  key_to_node_config : gmap string (option json);
  plan_succ : gmap string (list string);
  plan_external : json;
  plan_agent : Z;
  plan_perms : list string;
  plan_timeout : Z
}.

(** The variables of the loop; [l_done] is a history variable: the layers run so far.
    The debugging snapshots are the contexts they are taken of. *)
Record LayerState := mkLayers {
  l_world : W * AgentContext;
  l_outputs : gmap string json;
  l_inputs : gmap string json;
  l_contexts : gmap string AgentContext;
  l_remaining : gset string;
  l_indegree : gmap string nat;
  l_done : list (list string)
}.

Definition layer_of (l : LayerState) : list string :=
  retain (λ k, bool_decide (default 0 (l_indegree l !! k) = 0)) (set_order (l_remaining l)).

Record Job := mkJob {
  j_key : string; j_function : option Z; j_type : string; j_config : option json; j_input : json
}.

(** The inputs of a layer are all resolved before any of its nodes runs. *)
Definition prepare_node (p : Plan) (l : LayerState) (node_key : string) : result Job WorkflowError :=
  let node_type := default "function_node" (key_to_node_type p !! node_key) in
  let node_config := mjoin (key_to_node_config p !! node_key) in
  let? input := map_err (λ e, MappingResolve node_key e.1 e.2)
                  (build_node_input node_type node_key (l_outputs l) (plan_external p) node_config (l_world l).2) in
  match key_to_function p !! node_key with
  | None => Err (MissingFunction node_key)
  | Some fid => Ok (mkJob node_key fid node_type node_config input)
  end.

Fixpoint prepare (p : Plan) (l : LayerState) (keys : list string) : result (list Job) WorkflowError :=
  match keys with
  | [] => Ok []
  | k :: keys => let? j := prepare_node p l k in let? js := prepare p l keys in Ok (j :: js)
  end.

(** The recorded input of a node. *)
Definition clean_input (v : json) : json :=
  match v with JObj m => JObj (map_remove "_agent_context" m) | _ => v end.

Definition note_jobs (l : LayerState) (js : list Job) : LayerState :=
  mkLayers (l_world l) (l_outputs l)
    (foldl (λ m j, <[j_key j := clean_input (j_input j)]> m) (l_inputs l) js)
    (foldl (λ m j, <[j_key j := (l_world l).2]> m) (l_contexts l) js)
    (l_remaining l) (l_indegree l) (l_done l ++ [j_key <$> js]).

Fixpoint run_jobs (p : Plan) (js : list Job) (s : W * AgentContext) : W * AgentContext * list node_result :=
  match js with
  | [] => (s, [])
  | j :: js =>
      let '(s, r) := execute_node (j_function j) (j_type j) (j_config j) (j_key j) (j_input j)
                       (plan_agent p) (plan_perms p) s in
      let '(s, rs) := run_jobs p js s in
      (s, r :: rs)
  end.

(** One result: the updates reach the context at once, then the successors are released. *)
Definition finish_node (p : Plan) (l : LayerState) (nk : string) (out : json) : LayerState :=
  let '(w, c) := l_world l in
  mkLayers (w, apply_agent_context_updates (clock w) c out) (<[nk := out]> (l_outputs l)) (l_inputs l) (l_contexts l)
    (l_remaining l ∖ {[nk]})
    (match plan_succ p !! nk with Some downstream => foldl lower_indegree (l_indegree l) downstream
                                | None => l_indegree l end)
    (l_done l).

Fixpoint finish_layer (p : Plan) (l : LayerState) (rs : list node_result) : LayerState * option WorkflowError :=
  match rs with
  | [] => (l, None)
  | Ok (nk, out) :: rs => finish_layer p (finish_node p l nk out) rs
  | Err e :: _ => (l, Some e)
  end.

Definition with_world (l : LayerState) (s : W * AgentContext) : LayerState :=
  mkLayers s (l_outputs l) (l_inputs l) (l_contexts l) (l_remaining l) (l_indegree l) (l_done l).

Definition topology_failure : WorkflowError :=
  NodeFailure "<topology>" "no schedulable node — possible cycle slipped past save-time check".

(** [cut n] says whether the deadline passes during layer [n], and after how many nodes. *)
Variable cut : nat → option nat.

Fixpoint run_layers (fuel : nat) (p : Plan) (l : LayerState) : run (LayerState * option WorkflowError) :=
  match fuel with
  | O => OutOfFuel
  | S fuel =>
      if bool_decide (l_remaining l = ∅) then Returns (l, None)
      else
        match layer_of l with
        | [] => Returns (l, Some topology_failure)
        | layer =>
            match prepare p l layer with
            | Err e => Returns (l, Some e)
            | Ok js =>
                let n := length (l_done l) in
                let l := note_jobs l js in
                match cut n with
                | Some k => Returns (with_world l (run_jobs p (take k js) (l_world l)).1, Some (WfTimeout (plan_timeout p)))
                | None =>
                    let '(s, rs) := run_jobs p js (l_world l) in
                    let '(l, e) := finish_layer p (with_world l s) rs in
                    match e with
                    | Some e => Returns (l, Some e)
                    | None => run_layers fuel p l
                    end
                end
            end
        end
  end.

(** ** The executor *)

Record ExecuteOutcome := mkOutcome {
  end_value : json;
  node_results : gmap string json;
  node_inputs : gmap string json;
  node_agent_contexts : gmap string AgentContext
}.

Definition plan_of (wf : Workflow) (nodes : list NodeRow) (edges : list EdgeRow) (external : json) (agent_id : Z)
    (perms : list string) : Plan :=
  mkPlan (key_map nr_function nodes) (key_map nr_type nodes) (key_map nr_config nodes)
    (foldl add_succ ∅ (edge_keys (id_to_key nodes) edges)) external agent_id perms (wrap_u64 (timeout_ms wf)).

Definition initial_layers (nodes : list NodeRow) (edges : list EdgeRow) (s : W * AgentContext) : LayerState :=
  mkLayers s ∅ ∅ ∅ (list_to_set (nr_key <$> nodes))
    (foldl count_indegree (key_map (λ _, 0) nodes) (edge_keys (id_to_key nodes) edges)) [].

(** [query_error i] is the error of the [i]-th query, if it fails. *)
Definition execute (fuel : nat) (query_error : nat → option string) (db : Db) (workflow_id : Z) (external : json)
    (agent_id : Z) (perms : list string) (s : W * AgentContext)
    : run (W * AgentContext * result ExecuteOutcome WorkflowError) :=
  let nodes := retain (λ r, (nr_workflow r =? workflow_id)%Z) (node_rows db) in
  let edges := retain (λ r, (er_workflow r =? workflow_id)%Z) (edge_rows db) in
  match query_error 0, workflows db !! workflow_id, query_error 1, query_error 2 with
  | Some e, _, _, _ => Returns (s, Err (LoadFailed e))
  | None, None, _, _ => Returns (s, Err (WfNotFound workflow_id))
  | None, Some _, Some e, _ | None, Some _, None, Some e => Returns (s, Err (LoadFailed e))
  | None, Some wf, None, None =>
      let p := plan_of wf nodes edges external agent_id perms in
      let! (l, e) := run_layers fuel p (initial_layers nodes edges s) in
      Returns (l_world l,
               match e with
               | Some e => Err e
               | None => Ok (mkOutcome (build_end_output nodes (plan_succ p) (l_outputs l) (output_schema wf))
                               (l_outputs l) (l_inputs l) (l_contexts l))
               end)
  end.
End Executor.
