(* ===== verification/ExecutorProps.v ===== *)
(** * Properties of the workflow executor

    The scheduler of [Executor.v] runs every node of an acyclic graph exactly once and after
    its predecessors, and a graph that [Workflow.put_graph] stored is such a graph. *)

From stdpp Require Import relations.
From S2P Require Import Prelude RustStr F64 Json DagCheck InputSpec Workflow WorkflowProps Provider Capability.
From S2P Require Import Context ContextProps RuntimeCtx Executor.

Local Open Scope stdpp_scope.
Local Open Scope hive_scope.

(** The order in which a hash set is walked. *)
Class SetOrder (set_order : gset string → list string) : Prop :=
  set_order_perm : ∀ X, set_order X ≡ₚ elements X.

(** ** Edges *)

Abbreviation arcs := (list (string * string)).

Definition dsts (pairs : arcs) (s : string) : list string := (retain (λ e, String.eqb e.1 s) pairs).*2.

(** Edges into [k] from nodes of [X]. *)
Definition pending (pairs : arcs) (X : gset string) (k : string) : nat :=
  length (retain (λ e, String.eqb e.2 k && bool_decide (e.1 ∈ X)) pairs).

Definition arc (pairs : arcs) (u v : string) : Prop := (u, v) ∈ pairs.

Lemma foldl_add_succ pairs m k :
  foldl add_succ m pairs !! k =
    match dsts pairs k with [] => m !! k | ds => Some (default [] (m !! k) ++ ds) end.
Proof.
  unfold dsts. revert m. induction pairs as [|[s d] pairs IH]; intros m; cbn; [done|]. rewrite IH.
  unfold add_succ. cbn. destruct (String.eqb_spec s k) as [->|Hne]; cbn.
  - rewrite lookup_insert_eq. cbn. destruct (retain _ pairs) as [|e l]; cbn; [done|]. by rewrite <-app_assoc.
  - by rewrite lookup_insert_ne.
Qed.

Lemma foldl_indegree pairs m k n :
  m !! k = Some n → foldl count_indegree m pairs !! k = Some (n + length (retain (λ e, String.eqb e.2 k) pairs)).
Proof.
  revert m n. induction pairs as [|[s d] pairs IH]; intros m n H; cbn; [by rewrite Nat.add_0_r|].
  unfold count_indegree at 1. cbn. destruct (String.eqb_spec d k) as [->|Hne]; cbn.
  - erewrite IH by (apply lookup_insert_eq). rewrite H. cbn. f_equal. lia.
  - apply IH. by rewrite lookup_insert_ne.
Qed.

Lemma foldl_lower ds m k :
  foldl lower_indegree m ds !! k = (λ n, n - length (retain (String.eqb k) ds)) <$> m !! k.
Proof.
  revert m. induction ds as [|d ds IH]; intros m; cbn.
  - destruct (m !! k); cbn; [|done]. by rewrite Nat.sub_0_r.
  - rewrite IH. unfold lower_indegree. destruct (String.eqb_spec k d) as [->|Hne]; cbn.
    + rewrite lookup_alter_eq. destruct (m !! d); cbn; [|done]. f_equal. lia.
    + by rewrite lookup_alter_ne.
Qed.

(** Finishing a node of [X] releases exactly its edges. *)
Lemma pending_finish pairs X s k :
  s ∈ X → pending pairs X k = pending pairs (X ∖ {[s]}) k + length (retain (String.eqb k) (dsts pairs s)).
Proof.
  intros Hs. unfold pending, dsts. induction pairs as [|[u v] pairs IH]; cbn; [done|].
  destruct (String.eqb_spec u s) as [->|Hus]; cbn.
  - rewrite (bool_decide_true (s ∈ X)) by done. rewrite (bool_decide_false (s ∈ X ∖ {[s]})) by set_solver.
    rewrite (String.eqb_sym k v). destruct (String.eqb v k); cbn; rewrite IH; lia.
  - destruct (String.eqb v k); cbn; [|done].
    destruct (decide (u ∈ X)).
    + rewrite !bool_decide_true by set_solver. cbn. lia.
    + rewrite !bool_decide_false by set_solver. done.
Qed.

Lemma pending_zero pairs X k u : pending pairs X k = 0 → arc pairs u k → u ∉ X.
Proof.
  intros H%length_zero_iff_nil Hu HX.
  assert ((u, k) ∈ retain (λ e, String.eqb e.2 k && bool_decide (e.1 ∈ X)) pairs) as Hin.
  { apply retain_elem_of. split; [done|]. cbn. rewrite String.eqb_refl. by apply bool_decide_eq_true. }
  rewrite H in Hin. by apply not_elem_of_nil in Hin.
Qed.

Lemma pending_none pairs X k : (∀ u, arc pairs u k → u ∉ X) → pending pairs X k = 0.
Proof.
  intros H. unfold pending. apply length_zero_iff_nil, retain_none. intros [u v] Hin. cbn.
  destruct (String.eqb_spec v k) as [->|]; [|done]. cbn. by apply bool_decide_eq_false, H.
Qed.

Lemma pending_all pairs X k :
  (∀ u, arc pairs u k → u ∈ X) → pending pairs X k = length (retain (λ e, String.eqb e.2 k) pairs).
Proof.
  intros H. unfold pending. f_equal. apply retain_ext. intros [u v] Hin. cbn.
  destruct (String.eqb_spec v k) as [->|]; [|done]. cbn. by apply bool_decide_eq_true, H.
Qed.

Lemma tc_flip {A} (R : relation A) x y : tc (flip R) x y → tc R y x.
Proof. induction 1 as [x y H|x y z H _ IH]; [by apply tc_once|]. by eapply tc_r. Qed.

(** A finite non-empty set has a node without predecessor in it. *)
Lemma acyclic_source pairs (X : gset string) :
  (∀ v, ¬ tc (arc pairs) v v) → X ≠ ∅ → ∃ k, k ∈ X ∧ ∀ u, arc pairs u k → u ∉ X.
Proof.
  intros Hac (k & Hk)%set_choose_L.
  assert (sn (flip (arc pairs)) k) as Hsn.
  { apply tc_finite_sn.
    - intros v Hv. by apply (Hac v), tc_flip.
    - exists (pairs.*1). intros u Hu. assert (∃ w, arc pairs u w) as (w & Hw).
      { clear -Hu. induction Hu as [x y H|]; [by exists x|done]. }
      apply list_elem_of_fmap. by exists (u, w). }
  revert Hk. induction Hsn as [k _ IH]; intros Hk.
  destruct (decide (Exists (λ u, (u, k) ∈ pairs) (elements X))) as [(u & Hu & He)%Exists_exists|Hno].
  - apply (IH u); [exact He|]. by apply elem_of_elements.
  - exists k. split; [done|]. intros u Hu HX. apply Hno, Exists_exists. exists u. by rewrite elem_of_elements.
Qed.

(** ** One layer *)

Section Schedule.
Context {W : Type}.
Context (str_order : gmap string string → list (string * string))
        (ext_order : gmap string ExtensionContent → list (string * ExtensionContent))
        (set_order : gset string → list string) `{!SetOrder set_order}.
Context (to_string : json → string) (from_str : string → option json) (spec_text : SpecError → string)
        (function_meta : Z → result (option FunctionRuntimeMeta) string)
        (builtin_lookup : string → option (json → W * AgentContext → W * AgentContext * result json string))
        (invoke_plugin : DispatchCtx → string → string → W → W * result string string)
        (build_primary : option string → result ((W → ChatRequest → W * LLMResponse) * string) string)
        (resolve_config : option string → Z * f32) (clock : W → Z) (cut : nat → option nat).

Abbreviation run_jobs_ := (run_jobs str_order ext_order to_string from_str function_meta builtin_lookup invoke_plugin
  build_primary resolve_config).
Abbreviation run_layers_ := (run_layers str_order ext_order set_order to_string from_str spec_text function_meta
  builtin_lookup invoke_plugin build_primary resolve_config clock cut).
Abbreviation Layers := (LayerState (W := W)).

(** A node reports under its own key. *)
Definition reports (j : Job) (r : result (string * json) WorkflowError) : Prop :=
  match r with Ok (k, _) => k = j_key j | Err e => ∃ msg, e = NodeFailure (j_key j) msg end.

Lemma run_jobs_reports p js s : Forall2 reports js (run_jobs_ p js s).2.
Proof.
  revert s. induction js as [|j js IH]; intros s; cbn [run_jobs]; [constructor|].
  destruct (execute_node _ _ _ _ _ _ _ _ _ _ _ _ _ _ _ _ s) as [s1 r] eqn:E.
  specialize (IH s1). destruct (run_jobs _ _ _ _ _ _ _ _ _ p js s1) as [s2 rs]. cbn. constructor; [|done].
  revert E. unfold execute_node. destruct (String.eqb _ "generate_answer_node").
  { unfold execute_answer_node. destruct (match build_primary _ with Ok _ => _ | _ => _ end). by intros [= _ <-]. }
  destruct (String.eqb _ "function_node"); [|intros [= _ <-]; cbn; eauto].
  destruct (j_function j) as [fid|]; [|intros [= _ <-]; cbn; eauto].
  unfold execute_function_node. destruct (function_meta fid) as [[meta|]|]; [|intros [= _ <-]; cbn; eauto..].
  destruct (fm_kind meta =? 1)%Z.
  - unfold execute_builtin_function. destruct (builtin_lookup _) as [h|]; [|intros [= _ <-]; cbn; eauto].
    destruct (h _ _) as [? [out|msg]]; intros [= _ <-]; cbn; eauto.
  - unfold execute_plugin_function. destruct (fm_plugin meta) as [pid|]; [|intros [= _ <-]; cbn; eauto].
    destruct (fm_export meta) as [x|]; [|intros [= _ <-]; cbn; eauto].
    destruct (invoke_plugin _ _ _ _) as [? [out|msg]]; intros [= _ <-]; cbn; eauto.
Qed.

Lemma prepare_spec p (l : Layers) keys :
  (∀ k, k ∈ keys → is_Some (key_to_function p !! k)) →
  match prepare str_order ext_order spec_text p l keys with
  | Ok js => j_key <$> js = keys
  | Err e => ∃ k f m, k ∈ keys ∧ e = MappingResolve k f m
  end.
Proof.
  induction keys as [|k keys IH]; intros Hk; cbn [prepare]; [done|].
  unfold prepare_node. destruct (build_node_input _ _ _ _ _ _ _ _ _) as [input|[f m]]; cbn.
  2:{ exists k, f, m. split; [left|done]. }
  destruct (Hk k) as [fid ->]; [left|]. cbn.
  specialize (IH (λ x Hx, Hk x (list_elem_of_further _ _ _ Hx))).
  destruct (prepare _ _ _ p l keys) as [js|e]; cbn; [by f_equal|].
  destruct IH as (k' & f & m & Hin & ->). exists k', f, m. split; [by right|done].
Qed.

(** ** Topology *)

Context (p : Plan) (pairs : arcs).

Definition succ_ok : Prop := ∀ k, default [] (plan_succ p !! k) = dsts pairs k.

Definition indegree_ok (l : Layers) : Prop :=
  ∀ k, k ∈ l_remaining l → l_indegree l !! k = Some (pending pairs (l_remaining l) k).

Lemma finish_node_ok l nk out :
  succ_ok → nk ∈ l_remaining l → indegree_ok l → indegree_ok (finish_node clock p l nk out).
Proof.
  intros Hs Hnk Hi k. unfold finish_node. destruct (l_world l) as [w c]. cbn.
  intros [Hk Hne]%elem_of_difference. specialize (Hi k Hk). rewrite (pending_finish _ _ nk k Hnk) in Hi.
  specialize (Hs nk). destruct (plan_succ p !! nk) as [ds|]; cbn in Hs.
  - rewrite foldl_lower, Hi, Hs. cbn. f_equal. lia.
  - rewrite Hi, <-Hs. cbn. f_equal. lia.
Qed.

Lemma finish_layer_spec l js rs :
  succ_ok → Forall2 reports js rs → NoDup (j_key <$> js) → (∀ j, j ∈ js → j_key j ∈ l_remaining l) → indegree_ok l →
  let '(l', e) := finish_layer clock p l rs in
  l_done l' = l_done l ∧
  match e with
  | None => l_remaining l' = l_remaining l ∖ list_to_set (j_key <$> js) ∧
            dom (l_outputs l') = dom (l_outputs l) ∪ list_to_set (j_key <$> js) ∧ indegree_ok l'
  | Some e => ∃ k msg, k ∈ j_key <$> js ∧ e = NodeFailure k msg
  end.
Proof.
  intros Hs Hr. revert l. induction Hr as [|j r js rs Hj Hr IH]; intros l Hnd Hin Hi; cbn.
  { split_and!; [done| | |done]; set_solver. }
  cbn in Hnd. apply NoDup_cons in Hnd as [Hjn Hnd].
  destruct r as [[k out]|e].
  2:{ destruct Hj as [msg ->]. split; [done|]. exists (j_key j), msg. split; [left|done]. }
  cbn in Hj. subst k.
  specialize (IH (finish_node clock p l (j_key j) out) Hnd). destruct (finish_layer _ _ _ _) as [l' e].
  assert (l_remaining (finish_node clock p l (j_key j) out) = l_remaining l ∖ {[j_key j]} ∧
          l_done (finish_node clock p l (j_key j) out) = l_done l ∧
          dom (l_outputs (finish_node clock p l (j_key j) out)) = dom (l_outputs l) ∪ {[j_key j]}) as (Hrem & Hdone & Hout).
  { unfold finish_node. destruct (l_world l). cbn. split_and!; [done..|]. rewrite dom_insert_L. set_solver. }
  rewrite Hrem, Hdone, Hout in IH. destruct IH as [Hd He].
  - intros j' Hj'. apply elem_of_difference. split; [apply Hin; by right|].
    intros Heq%elem_of_singleton. apply Hjn. rewrite <-Heq. apply list_elem_of_fmap. by exists j'.
  - apply finish_node_ok; [done| |done]. apply Hin. left.
  - split; [done|]. destruct e as [e|].
    + destruct He as (k & msg & Hk & ->). exists k, msg. split; [by right|done].
    + destruct He as (Hr' & Ho' & Hi'). split_and!; [| |done]; cbn.
      * by rewrite Hr', difference_difference_l_L.
      * by rewrite Ho', union_assoc_L.
Qed.

(** Every node of a layer has its predecessors in earlier layers. *)
Definition topo (done : list (list string)) : Prop :=
  ∀ i layer d s, done !! i = Some layer → d ∈ layer → arc pairs s d →
    ∃ j layer', j < i ∧ done !! j = Some layer' ∧ s ∈ layer'.

Lemma elem_of_concat {A} (x : A) ls : x ∈ concat ls ↔ ∃ l, l ∈ ls ∧ x ∈ l.
Proof.
  rewrite list_elem_of_In, in_concat. by setoid_rewrite list_elem_of_In.
Qed.

Lemma topo_snoc done layer :
  topo done → (∀ d s, d ∈ layer → arc pairs s d → s ∈ concat done) → topo (done ++ [layer]).
Proof.
  intros Ht Hl i layer' d s Hi Hd Ha. apply lookup_app_Some in Hi as [Hi|[Hle Hi]].
  - destruct (Ht i layer' d s Hi Hd Ha) as (j & l2 & Hj & H2 & Hs). exists j, l2. split_and!; [done| |done].
    by apply lookup_app_l_Some.
  - apply list_lookup_singleton_Some in Hi as [Hi <-].
    specialize (Hl d s Hd Ha). apply elem_of_concat in Hl as (l2 & (j & Hj)%list_elem_of_lookup & Hs).
    exists j, l2. split_and!; [|by apply lookup_app_l_Some|done]. apply lookup_lt_Some in Hj. lia.
Qed.

Context (keys : gset string).

Record sched_inv (l : Layers) : Prop := {
  si_sub : l_remaining l ⊆ keys;
  si_out : dom (l_outputs l) = keys ∖ l_remaining l;
  si_done : ∀ k, k ∈ concat (l_done l) ↔ k ∈ keys ∖ l_remaining l;
  si_nodup : NoDup (concat (l_done l));
  si_indegree : indegree_ok l;
  si_topo : topo (l_done l)
}.

Lemma layer_elem l k : indegree_ok l →
  k ∈ layer_of set_order l ↔ k ∈ l_remaining l ∧ pending pairs (l_remaining l) k = 0.
Proof.
  intros Hi. unfold layer_of. rewrite retain_elem_of, set_order_perm, elem_of_elements, bool_decide_eq_true.
  split; intros [Hk H]; (split; [done|]); specialize (Hi k Hk); rewrite Hi in *; done.
Qed.

Lemma layer_NoDup (l : Layers) : NoDup (layer_of set_order l).
Proof.
  unfold layer_of. eapply sublist_NoDup; [|apply retain_sublist]. rewrite set_order_perm. apply NoDup_elements.
Qed.

Lemma concat_snoc {A} (ls : list (list A)) l : concat (ls ++ [l]) = concat ls ++ l.
Proof. rewrite concat_app. cbn. by rewrite app_nil_r. Qed.

(** Starting a layer keeps the order and runs no node twice. *)
Lemma layer_starts l :
  (∀ u v, arc pairs u v → u ∈ keys) → sched_inv l →
  topo (l_done l ++ [layer_of set_order l]) ∧ NoDup (concat (l_done l ++ [layer_of set_order l])) ∧
  ∀ k, k ∈ concat (l_done l ++ [layer_of set_order l]) ↔ k ∈ keys ∖ (l_remaining l ∖ list_to_set (layer_of set_order l)).
Proof.
  intros Hends [Hsub Hout Hdone Hnd Hi Ht]. rewrite concat_snoc. split_and!.
  - apply topo_snoc; [done|]. intros d s Hd Ha. apply layer_elem in Hd as [Hd H0]; [|done].
    apply Hdone, elem_of_difference. split; [by eapply Hends|]. by eapply pending_zero.
  - apply NoDup_app. split_and!; [done| |apply layer_NoDup]. intros k Hk Hl.
    apply layer_elem in Hl as [Hl _]; [|done]. apply Hdone in Hk. set_solver.
  - intros k. rewrite elem_of_app, Hdone.
    assert (k ∈ layer_of set_order l → k ∈ l_remaining l) by (intros Hl; by apply layer_elem in Hl as [? _]).
    destruct (decide (k ∈ layer_of set_order l)); set_solver.
Qed.

Definition failure (e : WorkflowError) : Prop :=
  e = WfTimeout (plan_timeout p) ∨ (∃ k m, k ∈ keys ∧ e = NodeFailure k m) ∨
  (∃ k f m, k ∈ keys ∧ e = MappingResolve k f m) ∨
  (e = topology_failure ∧ ¬ ∀ v, ¬ tc (arc pairs) v v).

Record schedule_ok (l : Layers) (e : option WorkflowError) : Prop := {
  so_topo : topo (l_done l);
  so_nodup : NoDup (concat (l_done l));
  so_nodes : ∀ k, k ∈ concat (l_done l) → k ∈ keys;
  so_end : match e with
           | None => (∀ k, k ∈ concat (l_done l) ↔ k ∈ keys) ∧ dom (l_outputs l) = keys
           | Some e => failure e
           end
}.

Lemma inv_nodes l k : sched_inv l → k ∈ concat (l_done l) → k ∈ keys.
Proof. intros Hinv Hk. apply (si_done l Hinv) in Hk. set_solver. Qed.

Lemma inv_layer l k : sched_inv l → k ∈ layer_of set_order l → k ∈ l_remaining l ∧ k ∈ keys.
Proof.
  intros Hinv [Hk _]%layer_elem; [|apply (si_indegree l Hinv)]. split; [done|]. by apply (si_sub l Hinv).
Qed.

(** Only a cycle leaves nothing to schedule. *)
Lemma stuck_cyclic l :
  indegree_ok l → l_remaining l ≠ ∅ → layer_of set_order l = [] → ¬ ∀ v, ¬ tc (arc pairs) v v.
Proof.
  intros Hi Hne Hl Hac. destruct (acyclic_source pairs (l_remaining l) Hac Hne) as (k & Hk & Hno).
  assert (k ∈ layer_of set_order l) as Hin by (apply layer_elem; [done|]; split; [done|by apply pending_none]).
  rewrite Hl in Hin. by apply not_elem_of_nil in Hin.
Qed.

(** A layer ends with a failure of one of its nodes or with fewer nodes left. *)
Lemma layer_ends l js s rs :
  succ_ok → (∀ u v, arc pairs u v → u ∈ keys) → sched_inv l → layer_of set_order l ≠ [] →
  j_key <$> js = layer_of set_order l → Forall2 reports js rs →
  let '(l', e) := finish_layer clock p (with_world (note_jobs l js) s) rs in
  match e with
  | Some e => schedule_ok l' (Some e)
  | None => sched_inv l' ∧ size (l_remaining l') < size (l_remaining l)
  end.
Proof.
  intros Hs Hends Hinv Hne Hjs Hrep. destruct (layer_starts l Hends Hinv) as (Ht & Hnd & Hd).
  pose proof (λ k, inv_layer l k Hinv) as Hlay. set (layer := layer_of set_order l) in *.
  pose proof (finish_layer_spec (with_world (note_jobs l js) s) js rs Hs Hrep) as Hfin.
  destruct (finish_layer _ _ _ rs) as [l' e]. cbn in Hfin. rewrite Hjs in Hfin.
  destruct Hfin as [Hdone Hend].
  { apply layer_NoDup. }
  { intros j Hj. apply Hlay. rewrite <-Hjs. by apply list_elem_of_fmap_2. }
  { apply (si_indegree l Hinv). }
  destruct e as [e|].
  - constructor; rewrite ?Hdone; [done..| |].
    + intros k Hk. apply Hd in Hk. set_solver.
    + right. left. destruct Hend as (k & msg & Hk & ->). exists k, msg. split; [by apply Hlay|done].
  - destruct Hend as (Hr & Ho & Hi). pose proof (si_sub l Hinv) as Hsub. split.
    + constructor; rewrite ?Hdone, ?Hr; [set_solver| |done..]. rewrite Ho, (si_out l Hinv). apply set_eq. intros k.
      specialize (Hlay k). destruct (decide (k ∈ layer)); set_solver.
    + rewrite Hr. apply subset_size. split; [set_solver|]. intros Hsub'.
      destruct layer as [|k ks]; [done|]. destruct (Hlay k ltac:(left)) as [Hk _]. specialize (Hsub' k Hk). set_solver.
Qed.

Lemma run_layers_spec fuel l :
  succ_ok → (∀ k, k ∈ keys → is_Some (key_to_function p !! k)) → (∀ u v, arc pairs u v → u ∈ keys) →
  sched_inv l → size (l_remaining l) < fuel →
  ∃ l' e, run_layers_ fuel p l = Returns (l', e) ∧ schedule_ok l' e.
Proof.
  intros Hs Hf Hends. revert l. induction fuel as [|fuel IH]; intros l Hinv Hsz; [lia|].
  pose proof Hinv as [Hsub Hout Hdone Hnd Hi Ht]. pose proof (λ k, inv_nodes l k Hinv) as Hnodes.
  cbn [run_layers]. case_bool_decide as Hempty.
  { exists l, None. split; [done|]. rewrite Hempty in *.
    constructor; [done..|]. split; [intros k; rewrite Hdone; set_solver|]. rewrite Hout. set_solver. }
  destruct (layer_of set_order l) as [|k0 ks] eqn:Hlayer.
  { exists l, (Some topology_failure). split; [done|]. constructor; [done..|]. do 3 right. split; [done|].
    by apply (stuck_cyclic l). }
  assert (layer_of set_order l ≠ []) as Hne by by rewrite Hlayer. rewrite <-Hlayer. clear k0 ks Hlayer.
  pose proof (prepare_spec p l (layer_of set_order l)) as Hprep.
  pose proof (λ k, inv_layer l k Hinv) as Hlay.
  destruct (prepare _ _ _ p l _) as [js|e].
  2:{ exists l, (Some e). split; [done|]. constructor; [done..|].
      destruct Hprep as (k & f & m & Hk & ->); [intros k Hk; by apply Hf, Hlay|].
      right. right. left. exists k, f, m. split; [by apply Hlay|done]. }
  assert (j_key <$> js = layer_of set_order l) as Hjs by (apply Hprep; intros k Hk; by apply Hf, Hlay).
  destruct (cut _) as [n|].
  { eexists _, _. split; [done|]. destruct (layer_starts l Hends Hinv) as (? & ? & Hd).
    constructor; cbn; rewrite ?Hjs; [done..| |by left]. intros k Hk. apply Hd in Hk. set_solver. }
  pose proof (run_jobs_reports p js (l_world (note_jobs l js))) as Hrep.
  destruct (run_jobs _ _ _ _ _ _ _ _ _ p js _) as [s rs]. cbn in Hrep.
  pose proof (layer_ends l js s rs Hs Hends Hinv Hne Hjs Hrep) as Hend.
  destruct (finish_layer _ _ _ rs) as [l' [e|]]; [by eexists _, _|]. destruct Hend. apply IH; [done|lia].
Qed.
End Schedule.

(** ** Plans made from rows *)

Lemma key_map_lookup {A} (f : NodeRow → A) nodes k : k ∈ nr_key <$> nodes → is_Some (key_map f nodes !! k).
Proof.
  intros Hk. unfold key_map. apply not_eq_None_Some. intros H%not_elem_of_list_to_map_2. apply H.
  rewrite <-Permutation_rev, <-list_fmap_compose. exact Hk.
Qed.

Lemma key_map_value {A} (f : NodeRow → A) nodes k a : key_map f nodes !! k = Some a → ∃ r, r ∈ nodes ∧ nr_key r = k ∧ f r = a.
Proof.
  intros H%elem_of_list_to_map_2. rewrite <-Permutation_rev in H.
  apply list_elem_of_fmap in H as (r & [= -> ->] & Hr). by exists r.
Qed.

Lemma id_to_key_value nodes i k : id_to_key nodes !! i = Some k → k ∈ nr_key <$> nodes.
Proof.
  intros H%elem_of_list_to_map_2. rewrite <-Permutation_rev in H.
  apply list_elem_of_fmap in H as (r & [= -> ->] & Hr). by apply list_elem_of_fmap_2.
Qed.

Lemma edge_keys_ends nodes edges u v :
  arc (edge_keys (id_to_key nodes) edges) u v → u ∈ nr_key <$> nodes ∧ v ∈ nr_key <$> nodes.
Proof.
  unfold arc, edge_keys. intros (e & _ & He)%elem_of_filter_map.
  destruct (id_to_key nodes !! er_src e) eqn:Es; [|done]. cbn in He.
  destruct (id_to_key nodes !! er_dst e) eqn:Ed; [|done]. injection He as <- <-.
  split; by eapply id_to_key_value.
Qed.

Definition row_keys (nodes : list NodeRow) : gset string := list_to_set (nr_key <$> nodes).
Definition row_arcs (nodes : list NodeRow) (edges : list EdgeRow) : arcs := edge_keys (id_to_key nodes) edges.

Lemma plan_succ_ok wf nodes edges external agent perms :
  succ_ok (plan_of wf nodes edges external agent perms) (row_arcs nodes edges).
Proof.
  intros k. cbn. rewrite foldl_add_succ, lookup_empty. unfold row_arcs. by destruct (dsts _ k).
Qed.

Lemma initial_inv {W} nodes edges (s : W * AgentContext) :
  sched_inv (row_arcs nodes edges) (row_keys nodes) (initial_layers nodes edges s).
Proof.
  constructor; cbn; [done|set_solver|..].
  - intros k. rewrite difference_diag_L. split; [by intros ?%not_elem_of_nil|set_solver].
  - constructor.
  - intros k Hk. cbn in *. apply elem_of_list_to_set in Hk as Hk'.
    destruct (key_map_lookup (λ _, 0) nodes k Hk') as [n Hn].
    destruct (key_map_value _ _ _ _ Hn) as (r & _ & _ & <-).
    rewrite (foldl_indegree _ _ _ _ Hn). cbn. f_equal. symmetry. apply pending_all.
    intros u Hu. apply elem_of_list_to_set. by apply edge_keys_ends in Hu as [? _].
  - intros i layer d s' H. done.
Qed.

Lemma row_keys_size nodes : size (row_keys nodes) ≤ length nodes.
Proof.
  unfold row_keys. induction nodes as [|r nodes IH]; csimpl; [done|].
  pose proof (size_union_alt {[nr_key r]} (list_to_set (C := gset string) (nr_key <$> nodes))) as H.
  rewrite H, size_singleton. pose proof (subseteq_size (list_to_set (C := gset string) (nr_key <$> nodes) ∖ {[nr_key r]})
    (list_to_set (nr_key <$> nodes)) ltac:(set_solver)). lia.
Qed.

(** ** Stored graphs *)

Definition ends (e : GraphEdge) : string * string := (src_node_key e, dst_node_key e).

Lemma insert_edges_keys id next ids keys edges rows :
  (∀ e, e ∈ edges → ∃ i j, ids !! src_node_key e = Some i ∧ keys !! i = Some (src_node_key e) ∧
    ids !! dst_node_key e = Some j ∧ keys !! j = Some (dst_node_key e)) →
  insert_edges id next ids edges = Some rows →
  Forall (λ r, er_workflow r = id) rows ∧ edge_keys keys rows = ends <$> edges.
Proof.
  revert next rows. induction edges as [|e edges IH]; intros next rows H; cbn; [by intros [= <-]|].
  destruct (H e) as (i & j & Hs & Hi & Hd & Hj); [left|]. rewrite Hs, Hd. cbn.
  destruct (insert_edges id (next + 1) ids edges) as [rows'|] eqn:E; [|done]. intros [= <-].
  destruct (IH _ _ (λ x Hx, H x (list_elem_of_further _ _ _ Hx)) E) as [Hw Hk]. split; [by constructor|].
  unfold edge_keys in *. cbn. by rewrite Hi, Hj, Hk.
Qed.

(** The rows that [execute] reads after a graph was stored. *)
Definition own_nodes (db : Db) (id : Z) : list NodeRow := retain (λ r, (nr_workflow r =? id)%Z) (node_rows db).
Definition own_edges (db : Db) (id : Z) : list EdgeRow := retain (λ r, (er_workflow r =? id)%Z) (edge_rows db).

Lemma store_graph_rows db wf caps all nodes edges db' :
  NoDup (node_key <$> nodes) → endpoints_in (list_to_set (node_key <$> nodes)) edges →
  store_graph db wf caps all nodes edges = Returns db' →
  nr_key <$> own_nodes db' (wf_id wf) = node_key <$> nodes ∧
  row_arcs (own_nodes db' (wf_id wf)) (own_edges db' (wf_id wf)) = ends <$> edges ∧
  ∃ wf', workflows db' !! wf_id wf = Some wf' ∧ output_schema wf' = end_output_schema wf all.
Proof.
  intros Hnd Hend. unfold store_graph. set (id := wf_id wf). set (rows := insert_nodes id (next_node db) nodes).
  destruct (insert_nodes_rows id (next_node db) nodes) as (Hkeys & Hrows & _). fold rows in Hkeys, Hrows.
  destruct (insert_edges id (next_edge db) (key_to_id rows) edges) as [erows|] eqn:Ee; [|done]. intros [= <-].
  destruct (insert_edges_keys id (next_edge db) (key_to_id rows) (id_to_key rows) edges erows) as [Hw He]; [|done|].
  { intros e Hin. by apply (inserted_ends id (next_node db) nodes edges). }
  unfold own_nodes, own_edges. cbn.
  rewrite (own_rows nr_workflow) by (eapply Forall_impl; [exact Hrows|]; by intros ? []).
  rewrite (own_rows er_workflow) by done. split_and!; [done..|].
  eexists. split; [apply lookup_insert_eq|done].
Qed.

Lemma put_graph_stored key_order db db' id tx_ok nodes edges g :
  KeyOrder key_order → keyed_rows db → put_graph key_order db id tx_ok nodes edges = Returns (db', Ok g) →
  valid_graph db (db_nodes_of nodes) (db_edges_of edges) ∧
  nr_key <$> own_nodes db' id = node_key <$> db_nodes_of nodes ∧
  row_arcs (own_nodes db' id) (own_edges db' id) = ends <$> db_edges_of edges ∧
  ∃ wf wf', workflows db !! id = Some wf ∧ workflows db' !! id = Some wf' ∧
            output_schema wf' = end_output_schema wf nodes.
Proof.
  intros HK Hrows Hput. pose proof (put_graph_cases key_order db id tx_ok nodes edges HK Hrows) as H.
  destruct (workflows db !! id) as [wf|] eqn:Hwf; [|congruence].
  destruct H as [(e & _ & ?)|(caps & db1 & Hok & Hst & Heq)]; [congruence|].
  destruct tx_ok; [|congruence]. rewrite Heq in Hput. injection Hput as -> Hg.
  destruct (store_graph_rows _ _ _ _ _ _ _ (vg_keys _ _ _ Hok) (vg_edges _ _ _ Hok) Hst) as (Hk & Ha & wf' & Hw' & Ho).
  rewrite (Hrows _ _ Hwf) in *. split_and!; [done..|]. by exists wf, wf'.
Qed.

Lemma arc_joins edges u v : arc (ends <$> edges) u v ↔ joins edges u v.
Proof.
  unfold arc, joins. rewrite list_elem_of_fmap. split.
  - intros (e & [= -> ->] & He). by exists e.
  - intros (e & He & <- & <-). by exists e.
Qed.

(** ** Executions *)

Section Execution.
Context {W : Type}.
Context (str_order : gmap string string → list (string * string))
        (ext_order : gmap string ExtensionContent → list (string * ExtensionContent))
        (set_order : gset string → list string).
Context (to_string : json → string) (from_str : string → option json) (spec_text : SpecError → string)
        (function_meta : Z → result (option FunctionRuntimeMeta) string)
        (builtin_lookup : string → option (json → W * AgentContext → W * AgentContext * result json string))
        (invoke_plugin : DispatchCtx → string → string → W → W * result string string)
        (build_primary : option string → result ((W → ChatRequest → W * LLMResponse) * string) string)
        (resolve_config : option string → Z * f32) (clock : W → Z) (cut : nat → option nat).

Abbreviation run_ := (run_layers str_order ext_order set_order to_string from_str spec_text function_meta
  builtin_lookup invoke_plugin build_primary resolve_config clock cut).
Abbreviation execute_ := (execute str_order ext_order set_order to_string from_str spec_text function_meta
  builtin_lookup invoke_plugin build_primary resolve_config clock cut).

Lemma run_rows_spec `{!SetOrder set_order} fuel wf nodes edges external agent perms (s : W * AgentContext) :
  length nodes < fuel →
  let p := plan_of wf nodes edges external agent perms in
  ∃ l e, run_ fuel p (initial_layers nodes edges s) = Returns (l, e) ∧
         schedule_ok p (row_arcs nodes edges) (row_keys nodes) l e.
Proof.
  intros Hf. cbn zeta. apply run_layers_spec; [done|apply plan_succ_ok| | |apply initial_inv|].
  - intros k Hk%elem_of_list_to_set. by apply key_map_lookup.
  - intros u v Hu%edge_keys_ends. apply elem_of_list_to_set, Hu.
  - cbn. pose proof (row_keys_size nodes). unfold row_keys in *. lia.
Qed.

(** C3: A graph that [put_graph] accepted can be executed, whatever its functions, plugins and
    models do and in whatever order sets are walked: the scheduler returns; no node runs twice,
    and none before all its predecessors have run in earlier layers; when there is no error
    every stored node has run and has an output; and the defence against a cycle is never
    needed. *)
Theorem stored_graph_executes `{!SetOrder set_order} (key_order : graph → list string) (fuel : nat) (db db' : Db)
    (id : Z) (tx_ok : bool) (nodes : list GraphNode) (edges : list GraphEdge) (g : WorkflowGraph) (wf : Workflow)
    (external : json) (agent : Z) (perms : list string) (s : W * AgentContext) :
  KeyOrder key_order → keyed_rows db → put_graph key_order db id tx_ok nodes edges = Returns (db', Ok g) →
  workflows db' !! id = Some wf → length (db_nodes_of nodes) < fuel →
  ∃ l e, run_ fuel (plan_of wf (own_nodes db' id) (own_edges db' id) external agent perms)
           (initial_layers (own_nodes db' id) (own_edges db' id) s) = Returns (l, e) ∧
    NoDup (concat (l_done l)) ∧
    (∀ u v i layer, joins (db_edges_of edges) u v → l_done l !! i = Some layer → v ∈ layer →
       ∃ j layer', j < i ∧ l_done l !! j = Some layer' ∧ u ∈ layer') ∧
    (e = None → concat (l_done l) ≡ₚ node_key <$> db_nodes_of nodes ∧
                dom (l_outputs l) = list_to_set (node_key <$> db_nodes_of nodes)) ∧
    (e = Some topology_failure → "<topology>" ∈ node_key <$> db_nodes_of nodes).
Proof.
  intros HK Hrows Hput Hwf Hf. destruct (put_graph_stored _ _ _ _ _ _ _ _ HK Hrows Hput) as (Hv & Hk & Ha & _).
  destruct (run_rows_spec fuel wf (own_nodes db' id) (own_edges db' id) external agent perms s) as (l & e & -> & Hok).
  { apply (f_equal length) in Hk. rewrite !length_fmap in Hk. lia. }
  rewrite Ha in Hok. unfold row_keys in Hok. rewrite Hk in Hok. destruct Hok as [Ht Hnd Hn He].
  exists l, e. split; [done|]. split; [done|]. split_and!.
  - intros u v i layer Hj Hi Hin. eapply Ht; [done..|]. by apply arc_joins.
  - intros ->. destruct He as [He Hdom]. split; [|done].
    apply NoDup_Permutation; [done|apply (vg_keys _ _ _ Hv)|]. intros k. by rewrite He, elem_of_list_to_set.
  - intros ->. destruct He as [?|[(k & m & Hin & [= <- _])|[(k & f & m & _ & ?)|[_ Hc]]]]; [done| |done|].
    + by apply elem_of_list_to_set in Hin.
    + exfalso. apply Hc. intros v Hv'. apply (vg_acyclic _ _ _ Hv v).
      eapply tc_iff; [|exact Hv']. intros. by rewrite arc_joins.
Qed.

(** C16: Executing a workflow always returns: with an outcome that has a result for every node,
    or with an error of the database, an unknown workflow, the deadline, one of its nodes, one
    of its inputs, or, for a cyclic graph only, of the topology. *)
Theorem execute_returns `{!SetOrder set_order} (fuel : nat) (query_error : nat → option string) (db : Db) (id : Z)
    (external : json) (agent : Z) (perms : list string) (s : W * AgentContext) :
  length (own_nodes db id) < fuel →
  ∃ s' r, execute_ fuel query_error db id external agent perms s = Returns (s', r) ∧
    match r with
    | Ok o => dom (node_results o) = row_keys (own_nodes db id)
    | Err (LoadFailed msg) => s' = s ∧ ∃ i, query_error i = Some msg
    | Err (WfNotFound i) => s' = s ∧ i = id ∧ workflows db !! id = None
    | Err (MissingFunction _) => False
    | Err (WfTimeout ms) => ∃ wf, workflows db !! id = Some wf ∧ ms = wrap_u64 (timeout_ms wf)
    | Err (NodeFailure k msg) => k ∈ row_keys (own_nodes db id) ∨
        (k = "<topology>" ∧ ¬ ∀ v, ¬ tc (arc (row_arcs (own_nodes db id) (own_edges db id))) v v)
    | Err (MappingResolve k _ _) => k ∈ row_keys (own_nodes db id)
    end.
Proof.
  intros Hf. unfold execute. fold (own_nodes db id) (own_edges db id).
  destruct (query_error 0) as [e0|] eqn:E0; [eexists _, _; split; [done|]; by split; [|exists 0]|].
  destruct (workflows db !! id) as [wf|] eqn:Ew; [|by eexists _, _].
  destruct (query_error 1) as [e1|] eqn:E1; [eexists _, _; split; [done|]; by split; [|exists 1]|].
  destruct (query_error 2) as [e2|] eqn:E2; [eexists _, _; split; [done|]; by split; [|exists 2]|].
  destruct (run_rows_spec fuel wf (own_nodes db id) (own_edges db id) external agent perms s Hf) as (l & e & Hr & Hok).
  rewrite Hr. cbn. eexists _, _. split; [done|]. destruct Hok as [_ _ _ He].
  destruct e as [e|]; [|apply He].
  destruct He as [->|[(k & m & Hin & ->)|[(k & f & m & Hin & ->)|[-> Hc]]]]; [by exists wf|by left|done|].
  right. by split.
Qed.

(** Without an output schema a stored workflow returns the empty object: the end node it looks
    for is virtual and never runs. *)
Theorem no_schema_no_result `{!SetOrder set_order} (key_order : graph → list string) (fuel : nat) (db db' : Db)
    (id : Z) (tx_ok : bool) (nodes : list GraphNode) (edges : list GraphEdge) (g : WorkflowGraph) (wf : Workflow)
    (external : json) (agent : Z) (perms : list string) (s s' : W * AgentContext) (o : ExecuteOutcome) :
  KeyOrder key_order → keyed_rows db → put_graph key_order db id tx_ok nodes edges = Returns (db', Ok g) →
  workflows db' !! id = Some wf → output_schema wf = None → length (db_nodes_of nodes) < fuel →
  execute_ fuel (λ _, None) db' id external agent perms s = Returns (s', Ok o) →
  end_value o = JObj [].
Proof.
  intros HK Hrows Hput Hwf Hout Hf. destruct (put_graph_stored _ _ _ _ _ _ _ _ HK Hrows Hput) as (_ & Hk & _ & _).
  unfold execute. fold (own_nodes db' id) (own_edges db' id). rewrite Hwf.
  destruct (run_rows_spec fuel wf (own_nodes db' id) (own_edges db' id) external agent perms s) as (l & e & -> & Hok).
  { apply (f_equal length) in Hk. rewrite !length_fmap in Hk. lia. }
  cbn. destruct e as [e|]; [done|]. intros [= _ <-]. cbn. rewrite Hout. cbn.
  destruct Hok as [_ _ _ [_ Hdom]]. unfold row_keys in Hdom. rewrite Hk in Hdom.
  destruct (l_outputs l !! "end") as [v|] eqn:E; [|done]. apply elem_of_dom_2 in E. rewrite Hdom in E.
  apply elem_of_list_to_set, list_elem_of_fmap in E as (n & Hn & Hin).
  unfold db_nodes_of in Hin. apply retain_elem_of in Hin as [_ Hin]. unfold is_end in Hin.
  rewrite <-Hn in Hin. rewrite orb_true_r, andb_false_r in Hin. done.
Qed.
(** ** What nodes can do to the context *)

Section Preservation.
Context (P : AgentContext → Prop) (Hplain : ∀ c o, plain_op o → P c → P (apply_op c o))
        (Hbuiltin : ∀ name h input s, builtin_lookup name = Some h → P s.2 → P (h input s).1.2).

Abbreviation jobs_ := (run_jobs str_order ext_order to_string from_str function_meta builtin_lookup invoke_plugin
  build_primary resolve_config).

Lemma execute_node_preserves fid nt cfg nk input agent perms s :
  P s.2 → P (execute_node str_order ext_order to_string from_str function_meta builtin_lookup invoke_plugin
               build_primary resolve_config fid nt cfg nk input agent perms s).1.2.
Proof.
  intros HP. unfold execute_node. destruct (String.eqb nt "generate_answer_node").
  { unfold execute_answer_node. by destruct (match build_primary _ with Ok _ => _ | _ => _ end). }
  destruct (String.eqb nt "function_node"); [|done]. destruct fid as [fid|]; [|done].
  unfold execute_function_node. destruct (function_meta fid) as [[meta|]|]; [|done..].
  destruct (fm_kind meta =? 1)%Z.
  - unfold execute_builtin_function. destruct (builtin_lookup _) as [h|] eqn:E; [|done].
    pose proof (Hbuiltin _ _ (inject_agent_context_snapshot str_order ext_order input s.2) s E HP) as H.
    by destruct (h _ s) as [s' r].
  - unfold execute_plugin_function. destruct (fm_plugin meta), (fm_export meta); try done. by destruct (invoke_plugin _ _ _ _).
Qed.

Lemma run_jobs_preserves p js s : P s.2 → P (jobs_ p js s).1.2.
Proof.
  revert s. induction js as [|j js IH]; intros s HP; cbn [run_jobs]; [done|].
  pose proof (execute_node_preserves (j_function j) (j_type j) (j_config j) (j_key j) (j_input j) (plan_agent p)
    (plan_perms p) s HP) as H1. destruct (execute_node _ _ _ _ _ _ _ _ _ _ _ _ _ _ _ _ s) as [s1 r].
  specialize (IH s1 H1). by destruct (run_jobs _ _ _ _ _ _ _ _ _ p js s1).
Qed.

Lemma finish_layer_preserves p l rs : P (l_world l).2 → P (l_world (finish_layer clock p l rs).1).2.
Proof.
  revert l. induction rs as [|[[nk out]|e] rs IH]; intros l HP; cbn; [done| |done].
  apply IH. unfold finish_node. destruct (l_world l) as [w c]. cbn. by apply updates_ind.
Qed.

Lemma run_layers_preserves fuel p l l' e : P (l_world l).2 → run_ fuel p l = Returns (l', e) → P (l_world l').2.
Proof.
  revert l. induction fuel as [|fuel IH]; intros l HP; cbn [run_layers]; [done|].
  case_bool_decide; [by intros [= <- _]|]. destruct (layer_of set_order l) as [|k ks]; [by intros [= <- _]|].
  destruct (prepare _ _ _ p l (k :: ks)) as [js|]; [|by intros [= <- _]].
  destruct (cut _) as [n|].
  { intros [= <- _]. cbn. by apply run_jobs_preserves. }
  pose proof (run_jobs_preserves p js (l_world (note_jobs l js)) HP) as Hj.
  destruct (run_jobs _ _ _ _ _ _ _ _ _ p js _) as [s rs].
  pose proof (finish_layer_preserves p (with_world (note_jobs l js) s) rs Hj) as Hf.
  destruct (finish_layer _ _ _ rs) as [l1 [e1|]]; [by intros [= <- _]|]. by apply IH.
Qed.

Lemma execute_preserves fuel query_error db id external agent perms s s' r :
  P s.2 → execute_ fuel query_error db id external agent perms s = Returns (s', r) → P s'.2.
Proof.
  intros HP. unfold execute.
  destruct (query_error 0); [by intros [= <- _]|]. destruct (workflows db !! id); [|by intros [= <- _]].
  destruct (query_error 1); [by intros [= <- _]|]. destruct (query_error 2); [by intros [= <- _]|].
  match goal with |- context [run_ fuel ?p ?l] => destruct (run_ fuel p l) as [[l' e]| |] eqn:E end; [|done..].
  cbn. intros [= <- _]. eapply run_layers_preserves; [|exact E]. exact HP.
Qed.
End Preservation.
End Execution.

(** ** A concrete execution *)

#[export] Instance elements_order : SetOrder elements.
Proof. by intros X. Qed.

(** One builtin, [shout], that notes its call; no plugin and no model. *)
Definition demo_meta (id : Z) : result (option FunctionRuntimeMeta) string :=
  Ok (if (id =? 7)%Z then Some (mkMeta 1 None None "shout") else None).

Definition demo_builtin (name : string)
    : option (json → list string * AgentContext → list string * AgentContext * result json string) :=
  if String.eqb name "shout" then
    Some (λ input s, ((s.1 ++ ["shout"], s.2), Ok (JObj [("heard", default JNull (jget "q" input))])))
  else None.

Definition demo_run (cut : nat → option nat) :=
  execute (λ m, map_to_list m) (λ m, map_to_list m) elements (λ _, "") (λ _, None) (λ _, "bad mapping")
    demo_meta demo_builtin (λ _ _ _ w, (w, Err "no plugin")) (λ _, Err "no model") (λ _, (2048%Z, S754_zero false))
    (λ w, Z.of_nat (length w)) cut.

Definition demo_ctx : AgentContext := context_init "c" (mkInput "hi" None None 0 ∅) default_config 0.
Definition stored_db : Db := db_of (put_demo true).

(** The answer of the first node is the input of the second. *)
Example demo_execution :
  match demo_run (λ _, None) 3 (λ _, None) stored_db 1 (JObj []) 5 [] ([], demo_ctx) with
  | Returns ((w, _), Ok o) =>
      w = ["shout"] ∧ end_value o = JObj [] ∧
      (node_results o !! "b") ≫= jget "heard" = node_results o !! "a" ∧ is_Some (node_results o !! "a")
  | _ => False
  end.
Proof. vm_compute. by eauto. Qed.

(** A deadline in the second layer. *)
Example demo_timeout :
  match demo_run (λ n, if n =? 1 then Some 0 else None) 3 (λ _, None) stored_db 1 (JObj []) 5 [] ([], demo_ctx) with
  | Returns ((w, _), r) => w = [] ∧ r = Err (WfTimeout 1000)
  | _ => False
  end.
Proof. vm_compute. by eauto. Qed.

Lemma stored_graph_executes_witness :
  ∃ l e, run_layers (λ m, map_to_list m) (λ m, map_to_list m) elements (λ _, "") (λ _, None) (λ _, "bad mapping")
           demo_meta demo_builtin (λ _ _ _ w, (w, Err "no plugin")) (λ _, Err "no model") (λ _, (2048%Z, S754_zero false))
           (λ w, Z.of_nat (length w)) (λ _, None) 3
           (plan_of (default demo_workflow (workflows stored_db !! 1%Z)) (own_nodes stored_db 1) (own_edges stored_db 1)
              (JObj []) 5 [])
           (initial_layers (own_nodes stored_db 1) (own_edges stored_db 1) ([], demo_ctx)) = Returns (l, e) ∧
         NoDup (concat (l_done l)).
Proof.
  destruct (stored_graph_executes (λ m, map_to_list m) (λ m, map_to_list m) elements (λ _, "") (λ _, None)
    (λ _, "bad mapping") demo_meta demo_builtin (λ _ _ _ w, (w, Err "no plugin")) (λ _, Err "no model")
    (λ _, (2048%Z, S754_zero false)) (λ w, Z.of_nat (length w)) (λ _, None) demo_order 3 demo_db stored_db 1 true
    demo_nodes demo_edges (graph_of (put_demo true)) (default demo_workflow (workflows stored_db !! 1%Z)) (JObj []) 5 []
    ([], demo_ctx)) as (l & e & Hr & Hn & _).
  - apply demo_order_ok.
  - apply demo_db_keyed.
  - by vm_compute.
  - by vm_compute.
  - vm_compute. lia.
  - exists l, e. exact (conj Hr Hn).
Defined.

Lemma execute_returns_witness :
  ∃ s' r, demo_run (λ _, None) 3 (λ _, None) stored_db 1 (JObj []) 5 [] ([], demo_ctx) = Returns (s', r).
Proof.
  destruct (execute_returns (λ m, map_to_list m) (λ m, map_to_list m) elements (λ _, "") (λ _, None)
    (λ _, "bad mapping") demo_meta demo_builtin (λ _ _ _ w, (w, Err "no plugin")) (λ _, Err "no model")
    (λ _, (2048%Z, S754_zero false)) (λ w, Z.of_nat (length w)) (λ _, None) 3 (λ _, None) stored_db 1 (JObj []) 5 []
    ([], demo_ctx)) as (s' & r & H & _); [vm_compute; lia|]. by exists s', r.
Defined.
