(* ===== verification/HookEngine.v ===== *)
(** * Lifecycle hooks of agents

    [crates/hiveweb/src/runtime/hook.rs] 1-545: running the hooks of a trigger point in order,
    blocking or not, each under its own deadline; calling a function, a workflow or a web hook;
    and the task that repeats a failed web hook in the background.

    Functions, plugins, workflows and requests act on a world [W] and, where the source gives
    them the agent context, on it.  What an action that its deadline cut off has done by then is
    a parameter ([expired]). *)

From S2P Require Import Prelude RustStr F64 Json InputSpec Workflow Provider Capability Context ContextProps RuntimeCtx.
From S2P Require Import Executor ExecutorProps.

Local Open Scope stdpp_scope.
Local Open Scope hive_scope.

Record AgentHook := mkHook {
  h_id : Z;
  h_name : string;
  h_action : string;
  h_params : json;
  h_enabled : bool;
  h_blocking : bool;
  h_timeout : Z
}.

Record HookContext := mkHookCtx {
  hc_agent : Z;
  hc_identifier : string;
  hc_session : Z;
  hc_actor : Z;
  hc_request : string;
  hc_point : string;
  hc_message : string;
  hc_channel : string;
  hc_client_type : string;
  hc_client_version : string
}.

(** The derived [Serialize]. *)
Definition hook_context_json (ctx : HookContext) : json :=
  JObj [("agent_id", JInt (hc_agent ctx)); ("identifier", JStr (hc_identifier ctx)); ("session_id", JInt (hc_session ctx));
        ("actor_id", JInt (hc_actor ctx)); ("request_id", JStr (hc_request ctx)); ("trigger_point", JStr (hc_point ctx));
        ("message", JStr (hc_message ctx)); ("channel", JStr (hc_channel ctx)); ("client_type", JStr (hc_client_type ctx));
        ("client_version", JStr (hc_client_version ctx))].

Inductive HookError := BlockingFailed (msg : string) | HookTimeout (msg : string).

(** What [trace_hook_exec] reports: the hook, the outcome and the kind of error. *)
Record HookEvent := mkEvent { ev_hook : Z; ev_outcome : string; ev_error : option string }.

Definition hook_error_kind (action : string) : string :=
  if String.eqb action "call_function" then "function_action_failed"
  else if String.eqb action "call_workflow" then "workflow_action_failed"
  else if String.eqb action "http_webhook" then "webhook_action_failed"
  else "unknown_action_failed".

(** A request to repeat in the background. *)
Record WebhookRetry := mkRetry { wr_url : string; wr_payload : json }.

Section Hooks.
Context {W : Type}.
Variables (str_order : gmap string string → list (string * string))
          (ext_order : gmap string ExtensionContent → list (string * ExtensionContent)).
Variables (to_string : json → string) (from_str : string → option json) (clock : W → Z) (rfc3339 : Z → string).
Variables (function_meta : Z → result (option FunctionRuntimeMeta) string)
          (builtin_lookup : string → option (json → W * AgentContext → W * AgentContext * result json string))
          (permissions : Z → list string)
          (invoke_plugin : DispatchCtx → string → string → W → W * result string string).
(** [WorkflowExecutor::execute] up to the value of the end node. *)
Variable run_workflow : list string → Z → json → Z → W * AgentContext → W * AgentContext * result json string.
(** A POST with its headers and JSON body: the status, or nothing when the connection fails. *)
Variables (post : string → list (string * string) → json → W → W * option Z) (status_text : Z → string).
(** Every character is alphanumeric, a hyphen or an underscore. *)
Variable header_name : string → bool.
Variable expired : AgentHook → W * AgentContext → option (W * AgentContext).

Abbreviation inject := (inject_agent_context_snapshot str_order ext_order).

Definition apply_output (s : W * AgentContext) (out : json) : W * AgentContext :=
  (s.1, apply_agent_context_updates (clock s.1) s.2 out).

(** ** Functions *)

Definition hook_builtin (identifier : string) (input : json) (s : W * AgentContext)
    : W * AgentContext * result unit string :=
  match builtin_lookup identifier with
  | None => (s, Err ("call_function: builtin「" +:+ identifier +:+ "」handler 未找到"))
  | Some handler =>
      match handler input s with
      | (s, Ok out) => (apply_output s out, Ok tt)
      | (s, Err e) => (s, Err ("builtin function 执行失败: " +:+ e))
      end
  end.

Definition hook_plugin (ctx : HookContext) (function_id : Z) (plugin_id : option Z) (export : option string)
    (input : json) (s : W * AgentContext) : W * AgentContext * result unit string :=
  match plugin_id, export with
  | None, _ => (s, Err "call_function: function 缺 plugin_id")
  | Some _, None => (s, Err "call_function: function 缺 plugin_export")
  | Some pid, Some export =>
      let dispatch_ctx := mkDispatch (Some (hc_session ctx)) (hc_agent ctx) pid (Some function_id)
                            (permissions (hc_agent ctx)) in
      match invoke_plugin dispatch_ctx export (to_string input) s.1 with
      | (w, Ok out) =>
          (match from_str out with Some v => apply_output (w, s.2) v | None => (w, s.2) end, Ok tt)
      | (w, Err e) => ((w, s.2), Err ("plugin invoke failed: " +:+ e))
      end
  end.

Definition execute_call_function (hook : AgentHook) (ctx : HookContext) (s : W * AgentContext)
    : W * AgentContext * result unit string :=
  match jget "function_id" (h_params hook) ≫= as_i64 with
  | None => (s, Err "call_function: function_id is required")
  | Some function_id =>
      match function_meta function_id with
      | Err e => (s, Err ("function lookup: " +:+ e))
      | Ok None => (s, Err ("call_function: function id=" +:+ pretty function_id +:+ " 不存在"))
      | Ok (Some meta) =>
          let input := inject (JObj []) s.2 in
          if (fm_kind meta =? 1)%Z && bool_decide (fm_plugin meta = None) then hook_builtin (fm_identifier meta) input s
          else if (fm_kind meta =? 1)%Z || (fm_kind meta =? 2)%Z
          then hook_plugin ctx function_id (fm_plugin meta) (fm_export meta) input s
          else (s, Err ("call_function: function「" +:+ fm_identifier meta +:+ "」kind=" +:+ pretty (fm_kind meta)
                          +:+ " 不支持"))
      end
  end.

(** ** Workflows *)

Definition execute_call_workflow (hook : AgentHook) (ctx : HookContext) (s : W * AgentContext)
    : W * AgentContext * result unit string :=
  match jget "workflow_id" (h_params hook) ≫= as_i64 with
  | None => (s, Err "call_workflow: workflow_id is required")
  | Some workflow_id =>
      let input := inject (hook_context_json ctx) s.2 in
      match run_workflow (permissions (hc_agent ctx)) workflow_id input (hc_agent ctx) s with
      | (s, Ok end_value) => (apply_output s end_value, Ok tt)
      | (s, Err e) => (s, Err ("workflow execute: " +:+ e))
      end
  end.

(** ** Web hooks *)

Definition has_crlf (s : string) : bool := negb (no_char cr s) || negb (no_char nl s).

(** The headers of the request; those whose value is no text or whose name has other
    characters are left out. *)
Fixpoint webhook_headers (headers : list (string * json)) : result (list (string * string)) string :=
  match headers with
  | [] => Ok []
  | (key, val) :: headers =>
      match as_str val with
      | None => webhook_headers headers
      | Some v =>
          if has_crlf key || has_crlf v then Err "Header contains illegal characters"
          else
            let? rest := webhook_headers headers in
            Ok (if header_name key then (key, v) :: rest else rest)
      end
  end.

Definition webhook_payload (hook : AgentHook) (ctx : HookContext) (now : Z) : json :=
  JObj [("agent_identifier", JStr (hc_identifier ctx)); ("session_id", JInt (hc_session ctx));
        ("trigger_point", JStr (hc_point ctx)); ("timestamp", JStr (rfc3339 now)); ("hook_name", JStr (h_name hook));
        ("message", JStr (hc_message ctx)); ("channel", JStr (hc_channel ctx));
        ("client_type", JStr (hc_client_type ctx)); ("client_version", JStr (hc_client_version ctx))].

Definition is_success (status : Z) : bool := (200 <=? status)%Z && (status <=? 299)%Z.

Definition execute_http_webhook (hook : AgentHook) (ctx : HookContext) (w : W)
    : W * list WebhookRetry * result unit string :=
  match get_str "webhook_url" (h_params hook) with
  | None => (w, [], Err "webhook_url is required for http_webhook")
  | Some url =>
      if negb (starts_with url "https://") then (w, [], Err "Webhook URL must use HTTPS")
      else
        let payload := webhook_payload hook ctx (clock w) in
        match webhook_headers (default [] (jget "headers" (h_params hook) ≫= as_object)) with
        | Err e => (w, [], Err e)
        | Ok headers =>
            match post url headers payload w with
            | (w, Some status) =>
                if is_success status then (w, [], Ok tt)
                else (w, [mkRetry url payload], Err ("Webhook returned HTTP " +:+ status_text status))
            | (w, None) => (w, [mkRetry url payload], Err "Webhook connection failed — pending async retry")
            end
        end
  end.

(** The background task: attempt [i] waits [2^i] seconds ([u64] power, wrapping); the log has
    the number, the wait and the status of each attempt. *)
Fixpoint webhook_retry (n : nat) (attempt : nat) (r : WebhookRetry) (w : W)
    : W * list (nat * Z * option Z) :=
  match n with
  | O => (w, [])
  | S n =>
      let wait := wrap_u64 (2 ^ Z.of_nat attempt) in
      let '(w, status) := post (wr_url r) [] (wr_payload r) w in
      let entry := (attempt + 1, wait, status) in
      match status with
      | Some code =>
          if is_success code then (w, [entry])
          else let '(w, log) := webhook_retry n (S attempt) r w in (w, entry :: log)
      | None => let '(w, log) := webhook_retry n (S attempt) r w in (w, entry :: log)
      end
  end.

(** ** Running the hooks *)

Definition execute_hook_action (hook : AgentHook) (ctx : HookContext) (s : W * AgentContext)
    : W * AgentContext * list WebhookRetry * result unit string :=
  if String.eqb (h_action hook) "call_function" then
    let '(s, r) := execute_call_function hook ctx s in (s, [], r)
  else if String.eqb (h_action hook) "call_workflow" then
    let '(s, r) := execute_call_workflow hook ctx s in (s, [], r)
  else if String.eqb (h_action hook) "http_webhook" then
    let '(w, retries, r) := execute_http_webhook hook ctx s.1 in ((w, s.2), retries, r)
  else (s, [], Err ("Unknown action type: " +:+ h_action hook)).

Record HookRun := mkHookRun {
  hr_state : W * AgentContext;
  hr_retries : list WebhookRetry;
  hr_events : list HookEvent;
  hr_result : result unit HookError
}.

(** One hook has reported [e]; go on or stop. *)
Definition after_event (e : HookEvent) (retries : list WebhookRetry) (r : HookRun) : HookRun :=
  mkHookRun (hr_state r) (retries ++ hr_retries r) (e :: hr_events r) (hr_result r).

Fixpoint run_list (hooks : list AgentHook) (ctx : HookContext) (s : W * AgentContext) : HookRun :=
  match hooks with
  | [] => mkHookRun s [] [] (Ok tt)
  | hook :: hooks =>
      if negb (h_enabled hook) then after_event (mkEvent (h_id hook) "skipped" None) [] (run_list hooks ctx s)
      else
        match expired hook s with
        | Some s =>
            let e := mkEvent (h_id hook) "timeout" (Some "timeout") in
            if h_blocking hook
            then mkHookRun s [] [e] (Err (HookTimeout ("Hook「" +:+ h_name hook +:+ "」阻塞模式执行超时")))
            else after_event e [] (run_list hooks ctx s)
        | None =>
            match execute_hook_action hook ctx s with
            | (s, retries, Ok _) =>
                after_event (mkEvent (h_id hook) "success" None) retries (run_list hooks ctx s)
            | (s, retries, Err msg) =>
                let e := mkEvent (h_id hook) "error" (Some (hook_error_kind (h_action hook))) in
                if h_blocking hook
                then mkHookRun s retries [e]
                       (Err (BlockingFailed ("Hook「" +:+ h_name hook +:+ "」阻塞模式执行失败: " +:+ msg)))
                else after_event e retries (run_list hooks ctx s)
            end
        end
  end.

Definition run_hooks (hooks : gmap string (list AgentHook)) (point : string) (ctx : HookContext)
    (s : W * AgentContext) : HookRun :=
  match hooks !! point with
  | None => mkHookRun s [] [] (Ok tt)
  | Some list => run_list list ctx s
  end.
End Hooks.

(** ** Order and blocking *)

(** The hook ends the flow with this event. *)
Definition stops (h : AgentHook) (e : HookEvent) : bool :=
  h_blocking h && (String.eqb (ev_outcome e) "error" || String.eqb (ev_outcome e) "timeout").

(** The hook reported the event and was skipped exactly when it is disabled. *)
Definition reported (h : AgentHook) (e : HookEvent) : Prop :=
  ev_hook e = h_id h ∧ (ev_outcome e = "skipped" ↔ h_enabled h = false).

Section Facts.
Context {W : Type}.
Context (str_order : gmap string string → list (string * string))
        (ext_order : gmap string ExtensionContent → list (string * ExtensionContent))
        (to_string : json → string) (from_str : string → option json) (clock : W → Z) (rfc3339 : Z → string)
        (function_meta : Z → result (option FunctionRuntimeMeta) string)
        (builtin_lookup : string → option (json → W * AgentContext → W * AgentContext * result json string))
        (permissions : Z → list string)
        (invoke_plugin : DispatchCtx → string → string → W → W * result string string)
        (run_workflow : list string → Z → json → Z → W * AgentContext → W * AgentContext * result json string)
        (post : string → list (string * string) → json → W → W * option Z) (status_text : Z → string)
        (header_name : string → bool) (expired : AgentHook → W * AgentContext → option (W * AgentContext)).

Abbreviation run_hooks_ := (run_hooks str_order ext_order to_string from_str clock rfc3339 function_meta builtin_lookup
  permissions invoke_plugin run_workflow post status_text header_name expired).
Abbreviation run_list_ := (run_list str_order ext_order to_string from_str clock rfc3339 function_meta builtin_lookup
  permissions invoke_plugin run_workflow post status_text header_name expired).
Abbreviation action_ := (execute_hook_action str_order ext_order to_string from_str clock rfc3339 function_meta
  builtin_lookup permissions invoke_plugin run_workflow post status_text header_name).

(** The hooks that reported, and the one that stopped the flow. *)
Definition hook_trace (hooks : list AgentHook) (r : HookRun (W := W)) : Prop :=
  match hr_result r with
  | Ok _ => Forall2 (λ h e, reported h e ∧ stops h e = false) hooks (hr_events r)
  | Err _ => ∃ pre h rest evs e, hooks = pre ++ h :: rest ∧ hr_events r = evs ++ [e] ∧
      Forall2 (λ h e, reported h e ∧ stops h e = false) pre evs ∧ reported h e ∧ stops h e = true
  end.

Lemma after_event_trace h e retries hooks r :
  reported h e → stops h e = false → hook_trace hooks r → hook_trace (h :: hooks) (after_event e retries r).
Proof.
  intros Hr Hs. unfold hook_trace. cbn. destruct (hr_result r).
  - intros H. by constructor.
  - intros (pre & h' & rest & evs & e' & -> & -> & H & ?). exists (h :: pre), h', rest, (e :: evs), e'.
    split_and!; [done|done|by constructor|apply H0|apply H0].
Qed.

(** The hooks of a trigger point run in their order.  Disabled hooks are skipped, hooks that
    fail or run into their deadline are passed over unless they are blocking, and the flow ends
    with an error exactly at the first blocking hook that fails, after which none runs. *)
Theorem run_hooks_trace (hooks : gmap string (list AgentHook)) (point : string) (ctx : HookContext)
    (s : W * AgentContext) :
  hook_trace (default [] (hooks !! point)) (run_hooks_ hooks point ctx s).
Proof.
  unfold run_hooks. destruct (hooks !! point) as [list|]; [|constructor]. cbn. revert s.
  induction list as [|h list IH]; intros s; cbn [run_list]; [constructor|].
  destruct (h_enabled h) eqn:En; cbn [negb].
  2:{ apply after_event_trace; [|unfold stops; cbn; by rewrite andb_false_r|apply IH]. split; [done|]. by rewrite En. }
  assert (∀ e x, ev_outcome e = x → x ≠ "skipped" → ev_hook e = h_id h → reported h e) as Hrep.
  { intros e x <- Hx Hh. split; [done|]. rewrite En. done. }
  assert (∀ e s' rs err, reported h e → stops h e = true → hook_trace (h :: list) (mkHookRun s' rs [e] (Err err))) as Hstop.
  { intros e s' rs err H1 H2. cbn. exists [], h, list, [], e. by split_and!. }
  destruct (expired h s) as [s'|].
  { destruct (h_blocking h) eqn:Hb.
    - apply Hstop; [by eapply Hrep|]. unfold stops. by rewrite Hb.
    - apply after_event_trace; [by eapply Hrep|unfold stops; by rewrite Hb|apply IH]. }
  destruct (execute_hook_action _ _ _ _ _ _ _ _ _ _ _ _ _ _ h ctx s) as [[s' rs] [[]|msg]].
  - apply after_event_trace; [by eapply Hrep|unfold stops; cbn; by rewrite andb_false_r|apply IH].
  - destruct (h_blocking h) eqn:Hb.
    + apply Hstop; [by eapply Hrep|]. unfold stops. by rewrite Hb.
    + apply after_event_trace; [by eapply Hrep|unfold stops; by rewrite Hb|apply IH].
Qed.

(** ** What hooks can do to the context *)

Section Preservation.
(** A property that every plain operation keeps, and that builtins, workflows and actions cut
    off by their deadline keep. *)
Context (P : AgentContext → Prop) (Hplain : ∀ c o, plain_op o → P c → P (apply_op c o))
        (Hbuiltin : ∀ name h input s, builtin_lookup name = Some h → P s.2 → P (h input s).1.2)
        (Hworkflow : ∀ perms id input agent s, P s.2 → P (run_workflow perms id input agent s).1.2)
        (Hexpired : ∀ h s s', expired h s = Some s' → P s.2 → P s'.2).

Lemma apply_output_preserves s out : P s.2 → P (apply_output clock s out).2.
Proof. intros H. cbn. by apply updates_ind. Qed.

Lemma action_preserves hook ctx s : P s.2 → P (action_ hook ctx s).1.1.2.
Proof.
  intros HP. unfold execute_hook_action. destruct (String.eqb _ "call_function").
  { enough (P (execute_call_function str_order ext_order to_string from_str clock function_meta builtin_lookup permissions
      invoke_plugin hook ctx s).1.2) by by destruct (execute_call_function _ _ _ _ _ _ _ _ _ hook ctx s).
    unfold execute_call_function. destruct (_ ≫= as_i64) as [fid|]; [|done].
    destruct (function_meta fid) as [[meta|]|]; [|done..]. destruct (_ && _).
    - unfold hook_builtin. destruct (builtin_lookup _) as [h|] eqn:E; [|done].
      pose proof (Hbuiltin _ _ (inject_agent_context_snapshot str_order ext_order (JObj []) s.2) s E HP) as Hh.
      destruct (h _ s) as [s' [out|]]; [by apply apply_output_preserves|done].
    - destruct (_ || _); [|done]. unfold hook_plugin. destruct (fm_plugin meta); [|done]. destruct (fm_export meta); [|done].
      destruct (invoke_plugin _ _ _ _) as [w [out|]]; [|done].
      destruct (from_str out); [by apply apply_output_preserves|done]. }
  destruct (String.eqb _ "call_workflow").
  { unfold execute_call_workflow. destruct (_ ≫= as_i64) as [wid|]; [|done].
    match goal with |- context [run_workflow ?a ?b ?c ?d s] => pose proof (Hworkflow a b c d s HP) as Hw;
      destruct (run_workflow a b c d s) as [s' [out|]] end; [by apply apply_output_preserves|done]. }
  destruct (String.eqb _ "http_webhook"); [|done].
  by destruct (execute_http_webhook _ _ _ _ _ hook ctx s.1) as [[w rs] r].
Qed.

Lemma run_hooks_preserves hooks point ctx s : P s.2 → P (hr_state (run_hooks_ hooks point ctx s)).2.
Proof.
  unfold run_hooks. destruct (hooks !! point) as [list|]; [|done]. revert s.
  induction list as [|h list IH]; intros s HP; cbn [run_list]; [done|].
  destruct (h_enabled h); cbn [negb]; [|by apply IH].
  destruct (expired h s) as [s'|] eqn:Ee.
  { apply Hexpired in Ee; [|done]. destruct (h_blocking h); [done|by apply IH]. }
  pose proof (action_preserves h ctx s HP) as Ha.
  destruct (execute_hook_action _ _ _ _ _ _ _ _ _ _ _ _ _ _ h ctx s) as [[s' rs] [[]|msg]]; cbn in Ha; [by apply IH|].
  destruct (h_blocking h); [done|by apply IH].
Qed.
End Preservation.
End Facts.

(** ** Hooks over the workflow executor *)

(** The value a hook gets from an execution. *)
Definition workflow_value {W} (error_text : WorkflowError → string) (s : W * AgentContext)
    (r : run (W * AgentContext * result ExecuteOutcome WorkflowError)) : W * AgentContext * result json string :=
  match r with
  | Returns (s, Ok o) => (s, Ok (end_value o))
  | Returns (s, Err e) => (s, Err (error_text e))
  | Panics | OutOfFuel => (s, Err "")
  end.

(** Whatever is true of an agent context, and kept by its own guarded writes of records,
    extensions and metadata and by the builtin functions, still holds after the hooks of a
    trigger point have run, with the workflows they execute: plugins, models and web hooks
    cannot break it. *)
Theorem hooks_keep_context {W} str_order ext_order set_order to_string from_str spec_text (clock : W → Z) rfc3339
    function_meta builtin_lookup permissions invoke_plugin build_primary resolve_config cut fuel query_error db error_text
    post status_text header_name expired (P : AgentContext → Prop)
    (hooks : gmap string (list AgentHook)) (point : string) (ctx : HookContext) (s : W * AgentContext) :
  (∀ c o, plain_op o → P c → P (apply_op c o)) →
  (∀ name h input s, builtin_lookup name = Some h → P s.2 → P (h input s).1.2) →
  (∀ h s s', expired h s = Some s' → P s.2 → P s'.2) →
  P s.2 →
  P (hr_state (run_hooks str_order ext_order to_string from_str clock rfc3339 function_meta builtin_lookup permissions
       invoke_plugin
       (λ perms id input agent s, workflow_value error_text s
          (execute str_order ext_order set_order to_string from_str spec_text function_meta builtin_lookup invoke_plugin
             build_primary resolve_config clock cut fuel query_error db id input agent perms s))
       post status_text header_name expired hooks point ctx s)).2.
Proof.
  intros Hplain Hb He HP. apply run_hooks_preserves; [done|done| |done|done].
  intros perms id input agent s1 H1. unfold workflow_value.
  destruct (execute _ _ _ _ _ _ _ _ _ _ _ _ _ _ _ _ id input agent perms s1) as [[s2 [o|e]]| |] eqn:E; [| |done..];
    by eapply execute_preserves in E.
Qed.

(** ** Web hooks *)

Definition safe_header (header_name : string → bool) (kv : string * string) : Prop :=
  header_name kv.1 = true ∧ has_crlf kv.1 = false ∧ has_crlf kv.2 = false.

Lemma webhook_headers_safe header_name hs l :
  webhook_headers header_name hs = Ok l → Forall (safe_header header_name) l.
Proof.
  revert l. induction hs as [|[k v] hs IH]; intros l; cbn; [by intros [= <-]|].
  destruct (as_str v) as [t|]; [|apply IH].
  destruct (has_crlf k) eqn:E1; [done|]. destruct (has_crlf t) eqn:E2; [done|]. cbn.
  destruct (webhook_headers header_name hs) as [rest|] eqn:E; [|done]. cbn. intros [= <-].
  destruct (header_name k) eqn:En; [constructor; [by split_and!|]|]; by apply IH.
Qed.

(** A web hook only ever sends requests over HTTPS whose header names are plain and whose
    headers contain no line break: two networks that agree on such requests cannot be told
    apart. *)
Theorem webhook_requests_safe {W} (clock : W → Z) (rfc3339 : Z → string)
    (post1 post2 : string → list (string * string) → json → W → W * option Z) (status_text : Z → string)
    (header_name : string → bool) (hook : AgentHook) (ctx : HookContext) (w : W) :
  (∀ url headers payload w, starts_with url "https://" = true → Forall (safe_header header_name) headers →
     post1 url headers payload w = post2 url headers payload w) →
  execute_http_webhook clock rfc3339 post1 status_text header_name hook ctx w =
  execute_http_webhook clock rfc3339 post2 status_text header_name hook ctx w.
Proof.
  intros Hpost. unfold execute_http_webhook. destruct (get_str _ _) as [url|]; [|done].
  destruct (starts_with url "https://") eqn:Eu; [|done]. cbn.
  destruct (webhook_headers _ _) as [l|] eqn:El; [|done]. rewrite Hpost; [done|done|]. by eapply webhook_headers_safe.
Qed.

(** The background task makes at most [n] attempts and stops at the first success. *)
Lemma webhook_retry_log {W} (post : string → list (string * string) → json → W → W * option Z) n attempt r w :
  let log := (webhook_retry post n attempt r w).2 in
  length log ≤ n ∧ ∀ i e, log !! i = Some e → e.1.1 = attempt + i + 1 ∧
    (S i < length log → match e.2 with Some code => is_success code = false | None => True end).
Proof.
  cbn zeta. revert attempt w. induction n as [|n IH]; intros attempt w; cbn [webhook_retry]; [by split; [cbn; lia|]|].
  destruct (post _ _ _ w) as [w' status].
  assert (match status with Some code => is_success code = false | None => True end →
    let log := (let '(w, log) := webhook_retry post n (S attempt) r w' in
                (w, (attempt + 1, wrap_u64 (2 ^ Z.of_nat attempt), status) :: log)).2 in
    length log ≤ S n ∧ ∀ i e, log !! i = Some e → e.1.1 = attempt + i + 1 ∧
      (S i < length log → match e.2 with Some code => is_success code = false | None => True end)) as Hcont.
  { intros Hf. specialize (IH (S attempt) w'). destruct (webhook_retry post n (S attempt) r w') as [w2 log].
    cbn in *. destruct IH as [Hl IH]. split; [lia|]. intros [|i] e; cbn.
    - intros [= <-]. cbn. split; [lia|done].
    - intros He. destruct (IH i e He) as [Hn Hs]. split; [lia|]. intros. apply Hs. lia. }
  destruct status as [code|]; [|by apply Hcont]. destruct (is_success code) eqn:E; [|by apply Hcont].
  cbn. split; [lia|]. intros i e He. destruct i; cbn in He; [|done]. injection He as <-. cbn. split; [lia|lia].
Qed.

(** A web hook whose receiver insists on a configured header is repeated in vain: the repeats
    carry no headers. *)
Theorem retry_drops_headers {W} (post : string → list (string * string) → json → W → W * option Z) n r w :
  (∀ url payload w, (post url [] payload w).2 = Some 401%Z) →
  Forall (λ e, e.2 = Some 401%Z) (webhook_retry post n 0 r w).2.
Proof.
  intros Hp. generalize 0 as attempt. revert w. induction n as [|n IH]; intros w attempt; cbn [webhook_retry]; [constructor|].
  specialize (Hp (wr_url r) (wr_payload r) w). destruct (post _ _ _ w) as [w' status]. cbn in Hp. subst. cbn.
  specialize (IH w' (S attempt)). destruct (webhook_retry post n (S attempt) r w'). by constructor.
Qed.

(** ** Examples *)

Definition demo_hook (id : Z) (action : string) (params : json) (blocking : bool) : AgentHook :=
  mkHook id "h" action params true blocking 1000.

Definition demo_hctx : HookContext := mkHookCtx 5 "a" 1 1 "r" "on_start" "hi" "web" "web" "1".

Definition demo_network (url : string) (hs : list (string * string)) (payload : json) (w : list string)
    : list string * option Z := (w ++ [url], Some (if bool_decide (hs = []) then 401 else 200)%Z).

Definition run_demo (hooks : list AgentHook) : HookRun :=
  run_hooks (λ m, map_to_list m) (λ m, map_to_list m) (λ _, "") (λ _, None) (λ w, Z.of_nat (length w)) (λ _, "now")
    demo_meta demo_builtin (λ _, []) (λ _ _ _ w, (w, Err "no plugin"))
    (λ perms id input agent s, workflow_value (λ _, "failed") s
       (execute (λ m, map_to_list m) (λ m, map_to_list m) elements (λ _, "") (λ _, None) (λ _, "bad mapping")
          demo_meta demo_builtin (λ _ _ _ w, (w, Err "no plugin")) (λ _, Err "no model") (λ _, (2048%Z, S754_zero false))
          (λ w, Z.of_nat (length w)) (λ _, None) 3 (λ _, None) stored_db id input agent perms s))
    demo_network (λ _, "401 Unauthorized") (λ _, true) (λ _ _, None) {["on_start" := hooks]} "on_start" demo_hctx
    ([], demo_ctx).

(** A failing hook is passed over, a workflow runs, a blocking failure ends the flow. *)
Example run_demo_events :
  let r := run_demo [demo_hook 1 "http_webhook" (JObj [("webhook_url", JStr "https://x")]) false;
                     demo_hook 2 "call_workflow" (JObj [("workflow_id", JInt 1)]) true;
                     demo_hook 3 "call_function" (JObj []) true;
                     demo_hook 4 "call_function" (JObj [("function_id", JInt 7)]) true] in
  (ev_outcome <$> hr_events r) = ["error"; "success"; "error"] ∧ length (hr_retries r) = 1 ∧
  (hr_state r).1 = ["https://x"; "shout"] ∧ hr_result r ≠ Ok tt.
Proof. by vm_compute. Qed.

Lemma hooks_keep_context_witness : no_secrets (hr_state (run_demo [demo_hook 2 "call_workflow" (JObj [("workflow_id", JInt 1)]) true])).2.
Proof.
  refine (hooks_keep_context _ _ _ _ _ _ _ _ _ _ _ _ _ _ _ _ _ _ _ _ _ _ _ no_secrets _ _ _ _ _ _ _ _).
  - intros c o _. apply apply_op_no_secrets.
  - intros name h input s. unfold demo_builtin. destruct (String.eqb name "shout"); [|done]. by intros [= <-].
  - done.
  - apply init_no_secrets.
Defined.

Lemma webhook_requests_safe_witness :
  execute_http_webhook (λ w, Z.of_nat (length w)) (λ _, "now") demo_network (λ _, "") (λ _, true)
    (demo_hook 1 "http_webhook" (JObj [("webhook_url", JStr "http://x")]) false) demo_hctx [] =
  execute_http_webhook (λ w, Z.of_nat (length w)) (λ _, "now")
    (λ url hs p w, if starts_with url "https://" then demo_network url hs p w else (w, None)) (λ _, "") (λ _, true)
    (demo_hook 1 "http_webhook" (JObj [("webhook_url", JStr "http://x")]) false) demo_hctx [].
Proof. apply webhook_requests_safe. intros url hs p w Hu _. by rewrite Hu. Defined.
