(* ===== verification/Orchestrator.v ===== *)
(** * The chat orchestrator

    [crates/hiveweb/src/runtime/orchestrator.rs]: a chat session of the web back end.  Up to a
    number of hops the current agent's model is called with the conversation and its tools; the
    calls it makes are executed, or hand the conversation to a sub-agent; the answer is filtered,
    saved and announced.

    What the session uses is gathered in a record of operations over a world [W]: the agents of
    the database, the hooks ([HookEngine.run_hooks]), the models, builtin functions, plugins,
    workflows ([Executor.execute]) and the table of messages.  A small state monad threads the
    variables of the loop. *)

From S2P Require Import Prelude RustStr F64 Json Provider ToolSchema Capability Sensitive.
From S2P Require Import Context ContextProps RuntimeCtx Executor HookEngine.

Local Open Scope stdpp_scope.
Local Open Scope hive_scope.

Definition ROUTE_TOOL_NAME : string := "route_to_subagent".

(** ** Data *)

Record ToolRef := mkToolRef {
  tr_identifier : string;
  tr_description : string;
  tr_kind : Z;
  tr_function_id : option Z;
  tr_function_identifier : option string;
  tr_workflow_id : option Z;
  tr_input_schema : json;
  tr_plugin_id : option Z;
  tr_plugin_export : option string;
  tr_builtin : bool;
  tr_meta : bool;
  tr_capabilities : list string
}.

Record ChildAgent := mkChild { ch_id : Z; ch_identifier : string; ch_description : option string }.

Record AgentContent := mkAgent {
  ac_id : Z;
  ac_identifier : string;
  ac_system_prompt : string;
  ac_preset : option string;
  ac_tools : list ToolRef;
  ac_permissions : list string;
  ac_children : list ChildAgent;
  ac_hooks : gmap string (list AgentHook)
}.

(** A message of the conversation as the database holds it. *)
Record ChatMessage := mkChat { cm_role : string; cm_content : option string; cm_extensions : option json }.

Inductive SseEvent :=
| SseToken (text : string)
| SseToolCall (id name : string) (args : list (string * json))
| SseToolResult (id : string) (payload : json)
| SseRouted (agent : Z) (identifier : string)
| SseError (code : Z) (message : string)
| SseDone (final_agent : option Z)
| SseExtensions (extensions : list json).

(** ** The conversation sent to the model *)

Definition role_message (role content : string) : json := JObj [("role", JStr role); ("content", JStr content)].

Definition omitted : json := role_message "assistant" "[已省略]".

(** Extensions other than cards and usage notes. *)
Definition filtered_extensions (m : ChatMessage) : option json :=
  exts ← cm_extensions m;
  arr ← as_array exts;
  let kept := retain (λ e, let ct := default "" (get_str "content_type" e) in
                           negb (String.eqb ct "usage") && negb (String.eqb ct "card")) arr in
  match kept with [] => None | _ => Some (JArr kept) end.

Definition has_text (o : option string) : bool := match o with Some s => negb (is_empty (trim s)) | None => false end.

Definition is_assistant (m : ChatMessage) : bool := String.eqb (cm_role m) "assistant".

(** One message: [trim] says whether old assistant messages are left out, [is_last] whether this
    is the last one of the assistant. *)
Definition chat_message (to_string : json → string) (trim is_last : bool) (m : ChatMessage) : json :=
  let ext := if is_assistant m then filtered_extensions m else None in
  if is_assistant m && negb (has_text (cm_content m)) && negb (bool_decide (is_Some ext)) then omitted
  else if trim && is_assistant m && negb is_last then omitted
  else
    match ext with
    | Some e => role_message (cm_role m)
                  (to_string (JObj [("content", JStr (default "" (cm_content m))); ("extensions", e)]))
    | None => role_message (cm_role m) (default "" (cm_content m))
    end.

(** The last user message that has a content; assistant messages are passed by. *)
Definition last_user_content (history : list ChatMessage) : option string :=
  last (filter_map cm_content (retain (λ m, String.eqb (cm_role m) "user") history)).

Definition build_chat_messages (to_string : json → string) (history : list ChatMessage) (user_content : string)
    : list json :=
  let last_assistant := rposition is_assistant history in
  let trim := 5 <=? length history in
  imap (λ i m, chat_message to_string trim (bool_decide (last_assistant = Some i)) m) history
  ++ (if bool_decide (last_user_content history = Some user_content) then [] else [role_message "user" user_content]).

(** ** Extensions *)

Definition flatten_extension (e : ExtensionContent) : json :=
  JObj (foldl (λ m kv, map_insert kv.1 kv.2 m) [("content_type", JStr (extension_display (x_type e)))]
          (match x_data e with JObj data => data | _ => [] end)).

Definition NO_DURATION_CARD : string :=
  "暂未查询到您的时长卡购买记录。如您需要更多游戏时长，推荐购买会员产品，通常会比单独购买时长卡更划算。".
Definition NO_DISK : string :=
  "暂未查询到您的云硬盘购买记录。如您需要使用云硬盘，可前往「我的」页面点击「云硬盘」进行购买。您也可以购买会员产品，享受赠送的 5GB 会员专属云硬盘权益。".

(** The text an empty card is replaced by. *)
Definition empty_card_text (ext : json) : option string :=
  if negb (str_field_is "content_type" "card" ext) then None
  else
    let payload := jget "payload" ext in
    let category := default "" (get_str "category" ext) in
    let dc_empty := match payload ≫= get_array "duration_card" with Some l => bool_decide (l = []) | None => true end in
    let disk_empty := match ((payload ≫= jget "info") ≫= jget "disk_total_size") ≫= as_f64 with
                      | Some s => SFeqb s (S754_zero false)
                      | None => true
                      end in
    if String.eqb category "duration_card" && dc_empty then Some NO_DURATION_CARD
    else if String.eqb category "disk" && disk_empty then Some NO_DISK
    else None.

Definition rewrite_content_for_empty_extensions (content : option string) (extensions : option (list json))
    : option string :=
  match extensions with
  | None => content
  | Some exts => match filter_map empty_card_text exts with t :: _ => Some t | [] => content end
  end.

(** ** Tools offered to the model *)

Definition tool_schema (name : string) (description : string) (parameters : json) : json :=
  JObj [("type", JStr "function");
        ("function", JObj [("name", JStr name); ("description", JStr description); ("parameters", parameters)])].

Definition route_schema (children : list ChildAgent) : json :=
  tool_schema ROUTE_TOOL_NAME
    ("Switch to a sub-agent for specialized handling. Available sub-agents:" +:+ String nl ""
       +:+ join (String nl "") ((λ c, "- " +:+ ch_identifier c +:+ ": " +:+ default "" (ch_description c)) <$> children))
    (JObj [("type", JStr "object");
           ("properties", JObj [("agent_identifier", JObj [("type", JStr "string");
                                                           ("enum", JArr (JStr ∘ ch_identifier <$> children));
                                                           ("description", JStr "The identifier of the sub-agent to route to")]);
                                ("reason", JObj [("type", JStr "string");
                                                 ("description", JStr "Why this sub-agent is being chosen")])]);
           ("required", JArr [JStr "agent_identifier"])]).

Definition build_tools_schema (ctx : AgentContent) : list json :=
  (match ac_children ctx with [] => [] | children => [route_schema children] end)
  ++ ((λ t, tool_schema (tr_identifier t) (tr_description t) (tr_input_schema t)) <$> ac_tools ctx).

(** ** Outcomes of tools *)

Record ToolOutcome := mkTool { to_payload : json; to_route : option (Z * string) }.

Definition tool_ok (payload : json) : ToolOutcome := mkTool payload None.
Definition tool_error (msg : string) : ToolOutcome := mkTool (JObj [("error", JStr msg)]) None.
Definition tool_route (id : Z) (identifier : string) : ToolOutcome :=
  mkTool (JObj [("routed", JBool true); ("agent_id", JInt id); ("agent_identifier", JStr identifier)])
    (Some (id, identifier)).

Definition handle_route_tool (parent : AgentContent) (visited : list Z) (tc : ToolCallRequest) : ToolOutcome :=
  let target := default "" (map_get "agent_identifier" (tc_arguments tc) ≫= as_str) in
  if is_empty target then tool_error "agent_identifier 缺失"
  else
    match find_first (λ c, String.eqb (ch_identifier c) target) (ac_children parent) with
    | None => tool_error ("agent「" +:+ target +:+ "」不是当前 agent「" +:+ ac_identifier parent +:+ "」的子 agent，路由拒绝")
    | Some child =>
        if bool_decide (ch_id child ∈ visited)
        then tool_error ("agent_id=" +:+ pretty (ch_id child) +:+ " 已在本会话访问过，循环路由拒绝")
        else tool_route (ch_id child) (ch_identifier child)
    end.

(** The capabilities the agent lacks. *)
Definition missing_capabilities (ctx : AgentContent) (required : list string) : list string :=
  retain (λ c, negb (bool_decide (c ∈ ac_permissions ctx))) required.

Definition FILTERED_TEXT : string := "内容安全警告：输出的文本数据可能包含不适当的内容！".

(** What a session uses of its surroundings. *)
Record Runtime (W : Type) := mkRuntime {
  rt_agent : Z → W → result AgentContent string;
  rt_hooks : gmap string (list AgentHook) → string → HookContext → W * AgentContext
             → W * AgentContext * result unit HookError;
  rt_models : option string → result ((ChatRequest → W → W * LLMResponse * list string) * string) string;
  rt_builtin : string → option (json → W * AgentContext → W * AgentContext * result json string);
  rt_plugin : DispatchCtx → string → string → W → W * result string string;
  rt_workflow : list string → Z → json → Z → W * AgentContext → W * AgentContext * result json string;
  rt_function : string → W → option (Z * FunctionRuntimeMeta * option json);
  rt_workflow_id : string → W → option Z;
  rt_append : Z → Z → string → option (list json) → W → W * bool;
  rt_filter : SensitiveFilter;
  rt_lower : string → string;
  rt_clock : W → Z;
  rt_to_string : json → string;
  rt_from_str : string → option json;
  rt_str_order : gmap string string → list (string * string);
  rt_ext_order : gmap string ExtensionContent → list (string * ExtensionContent);
  (** The client has gone when the hop begins. *)
  rt_cancelled : nat → bool;
  rt_max_hops : nat
}.
Arguments rt_agent {W}. Arguments rt_hooks {W}. Arguments rt_models {W}. Arguments rt_builtin {W}.
Arguments rt_plugin {W}. Arguments rt_workflow {W}. Arguments rt_function {W}. Arguments rt_workflow_id {W}.
Arguments rt_append {W}. Arguments rt_filter {W}. Arguments rt_lower {W}. Arguments rt_clock {W}.
Arguments rt_to_string {W}. Arguments rt_from_str {W}. Arguments rt_str_order {W}. Arguments rt_ext_order {W}.
Arguments rt_cancelled {W}. Arguments rt_max_hops {W}.

(** The request the session answers. *)
Record Request := mkChatRequest {
  q_session : Z;
  q_actor : Z;
  q_message : string;
  q_channel : string;
  q_client_type : string;
  q_client_version : string
}.

Section Tools.
Context {W : Type} (rt : Runtime W).

Abbreviation inject := (inject_agent_context_snapshot (rt_str_order rt) (rt_ext_order rt)).

Definition apply_result (s : W * AgentContext) (out : json) : W * AgentContext :=
  (s.1, apply_agent_context_updates (rt_clock rt s.1) s.2 out).

(** A builtin function by its name. *)
Definition call_builtin (name : string) (input : json) (s : W * AgentContext) : W * AgentContext * ToolOutcome :=
  match rt_builtin rt name with
  | None => (s, tool_error ("builtin function「" +:+ name +:+ "」未找到 handler"))
  | Some handler =>
      match handler input s with
      | (s, Ok out) => (apply_result s out, tool_ok out)
      | (s, Err e) => (s, tool_error ("builtin function 执行失败: " +:+ e))
      end
  end.

(** An export of a plugin; [updates] says whether its output may update the context. *)
Definition call_plugin_tool (updates : bool) (ctx : AgentContent) (session_id : Z) (plugin_id : option Z)
    (export : option string) (function_id : option Z) (input : json) (s : W * AgentContext)
    : W * AgentContext * ToolOutcome :=
  match plugin_id, export with
  | None, _ => (s, tool_error "function 缺 plugin_id")
  | Some _, None => (s, tool_error "function 缺 plugin_export")
  | Some pid, Some export =>
      let dc := mkDispatch (Some session_id) (ac_id ctx) pid function_id (ac_permissions ctx) in
      match rt_plugin rt dc export (rt_to_string rt input) s.1 with
      | (w, Ok out_str) =>
          let parsed := default (JStr out_str) (rt_from_str rt out_str) in
          (if updates then apply_result (w, s.2) parsed else (w, s.2), tool_ok parsed)
      | (w, Err e) => ((w, s.2), tool_error ("plugin invoke failed: " +:+ e))
      end
  end.

Definition call_workflow_tool (ctx : AgentContent) (workflow_id : Z) (input : json) (s : W * AgentContext)
    : W * AgentContext * ToolOutcome :=
  match rt_workflow rt (ac_permissions ctx) workflow_id input (ac_id ctx) s with
  | (s, Ok end_value) => (apply_result s end_value, tool_ok end_value)
  | (s, Err e) => (s, tool_error ("workflow execute: " +:+ e))
  end.

Definition invoke_function (ctx : AgentContent) (tc : ToolCallRequest) (session_id : Z) (s : W * AgentContext)
    : W * AgentContext * ToolOutcome :=
  match map_get "function_identifier" (tc_arguments tc) ≫= as_str, map_get "function_input" (tc_arguments tc) with
  | None, _ => (s, tool_error "invoke_function: function_identifier 缺失")
  | Some _, None => (s, tool_error "invoke_function: function_input 缺失")
  | Some ident, Some input =>
      match rt_function rt ident s.1 with
      | None => (s, tool_error ("invoke_function: function「" +:+ ident +:+ "」不存在"))
      | Some (function_id, meta, caps) =>
          let missing := missing_capabilities ctx (filter_map as_str (default [] (caps ≫= as_array))) in
          if negb (bool_decide (missing = []))
          then (s, tool_error ("function「" +:+ ident +:+ "」需要能力「" +:+ join "、" missing +:+ "」，但当前 Agent 未授权"))
          else
            let input := inject input s.2 in
            if (fm_kind meta =? 1)%Z && bool_decide (fm_plugin meta = None) then call_builtin ident input s
            else if (fm_kind meta =? 1)%Z || (fm_kind meta =? 2)%Z
            then call_plugin_tool true ctx session_id (fm_plugin meta) (fm_export meta) (Some function_id) input s
            else (s, tool_error ("invoke_function: function「" +:+ ident +:+ "」kind=" +:+ pretty (fm_kind meta) +:+ " 不支持"))
      end
  end.

Definition invoke_workflow (ctx : AgentContent) (tc : ToolCallRequest) (s : W * AgentContext)
    : W * AgentContext * ToolOutcome :=
  match map_get "workflow_identifier" (tc_arguments tc) ≫= as_str, map_get "workflow_input" (tc_arguments tc) with
  | None, _ => (s, tool_error "invoke_workflow: workflow_identifier 缺失")
  | Some _, None => (s, tool_error "invoke_workflow: workflow_input 缺失")
  | Some ident, Some input =>
      match rt_workflow_id rt ident s.1 with
      | None => (s, tool_error ("invoke_workflow: workflow「" +:+ ident +:+ "」不存在"))
      | Some workflow_id => call_workflow_tool ctx workflow_id (inject input s.2) s
      end
  end.

Definition handle_meta_tool (ctx : AgentContent) (tool : ToolRef) (tc : ToolCallRequest) (session_id : Z)
    (s : W * AgentContext) : W * AgentContext * ToolOutcome :=
  if String.eqb (tr_identifier tool) "invoke_function" then invoke_function ctx tc session_id s
  else if String.eqb (tr_identifier tool) "invoke_workflow" then invoke_workflow ctx tc s
  else (s, tool_error ("未知元工具: " +:+ tr_identifier tool)).

Definition handle_workspace_tool (ctx : AgentContent) (tool : ToolRef) (tc : ToolCallRequest) (session_id : Z)
    (s : W * AgentContext) : W * AgentContext * ToolOutcome :=
  let missing := missing_capabilities ctx (tr_capabilities tool) in
  if negb (bool_decide (missing = []))
  then (s, tool_error ("tool「" +:+ tr_identifier tool +:+ "」需要能力「" +:+ join "、" missing +:+ "」，但当前 Agent 未授权"))
  else
    let args := JObj (tc_arguments tc) in
    if (tr_kind tool =? 1)%Z then
      if tr_meta tool then handle_meta_tool ctx tool tc session_id s
      else if tr_builtin tool then
        match tr_function_id tool with
        | None => (s, tool_error "builtin function 缺 function_id")
        | Some _ => call_builtin (default (tr_identifier tool) (tr_function_identifier tool)) (inject args s.2) s
        end
      else call_plugin_tool false ctx session_id (tr_plugin_id tool) (tr_plugin_export tool) (tr_function_id tool) args s
    else if (tr_kind tool =? 2)%Z then
      match tr_workflow_id tool with
      | None => (s, tool_error "workflow-wrap tool 缺 workflow_id")
      | Some workflow_id => call_workflow_tool ctx workflow_id (inject args s.2) s
      end
    else (s, tool_error ("未知 tool kind: " +:+ pretty (tr_kind tool))).

Definition filter_output (content : string) : string :=
  match Sensitive.check (rt_lower rt) (rt_filter rt) content with Some _ => FILTERED_TEXT | None => content end.
End Tools.

(** ** The session *)

(** The variables of the session; [ss_requests] is a history variable: the requests sent. *)
Record Session (W : Type) := mkSession {
  ss_state : W * AgentContext;
  ss_events : list SseEvent;
  ss_audit : list RuntimeAudit;
  ss_messages : list json;
  ss_visited : list Z;
  ss_requests : list ChatRequest
}.
Arguments mkSession {W}. Arguments ss_state {W}. Arguments ss_events {W}. Arguments ss_audit {W}.
Arguments ss_messages {W}. Arguments ss_visited {W}. Arguments ss_requests {W}.

(** Actions on the session. *)
Definition act (W A : Type) : Type := Session W → Session W * A.

Definition act_ret {W A} (a : A) : act W A := λ s, (s, a).
Definition act_bind {W A B} (m : act W A) (f : A → act W B) : act W B := λ s, let '(s, a) := m s in f a s.

Declare Scope act_scope.
Notation "'let~' x ':=' m 'in' k" := (act_bind m (λ x, k))
  (at level 10, x pattern, m at level 100, k at level 200) : act_scope.
Notation "'do~' m 'in' k" := (act_bind m (λ _, k)) (at level 10, m at level 100, k at level 200) : act_scope.
Local Open Scope act_scope.

Definition gets {W A} (f : Session W → A) : act W A := λ s, (s, f s).

Definition emit {W} (e : SseEvent) : act W unit := λ s,
  (mkSession (ss_state s) (ss_events s ++ [e]) (ss_audit s) (ss_messages s) (ss_visited s) (ss_requests s), tt).

Definition record_audit_entry {W} (a : RuntimeAudit) : act W unit := λ s,
  (mkSession (ss_state s) (ss_events s) (ss_audit s ++ [a]) (ss_messages s) (ss_visited s) (ss_requests s), tt).

Definition push_message {W} (m : json) : act W unit := λ s,
  (mkSession (ss_state s) (ss_events s) (ss_audit s) (ss_messages s ++ [m]) (ss_visited s) (ss_requests s), tt).

Definition push_visited {W} (id : Z) : act W unit := λ s,
  (mkSession (ss_state s) (ss_events s) (ss_audit s) (ss_messages s) (ss_visited s ++ [id]) (ss_requests s), tt).

Definition note_request {W} (r : ChatRequest) : act W unit := λ s,
  (mkSession (ss_state s) (ss_events s) (ss_audit s) (ss_messages s) (ss_visited s) (ss_requests s ++ [r]), tt).

(** An action on the world and the context. *)
Definition on_state {W A} (f : W * AgentContext → W * AgentContext * A) : act W A := λ s,
  let '(st, a) := f (ss_state s) in
  (mkSession st (ss_events s) (ss_audit s) (ss_messages s) (ss_visited s) (ss_requests s), a).

(** [let _ = agent_ctx....]: a write whose refusal is ignored. *)
Definition on_context {W} (f : AgentContext → result AgentContext ContextError) : act W unit :=
  on_state (λ s, ((s.1, attempt_write s.2 (f s.2)), tt)).

Section Session.
Context {W : Type} (rt : Runtime W) (q : Request).

Definition hook_context (agent_id : Z) (identifier point : string) : HookContext :=
  mkHookCtx agent_id identifier (q_session q) (q_actor q) "" point (q_message q) (q_channel q) (q_client_type q)
    (q_client_version q).

Definition run_hooks_at (agent_id : Z) (identifier : string) (hooks : gmap string (list AgentHook)) (point : string)
    : act W (result unit HookError) :=
  on_state (rt_hooks rt hooks point (hook_context agent_id identifier point)).

Definition agent_hooks (ctx : AgentContent) (point : string) : act W (result unit HookError) :=
  run_hooks_at (ac_id ctx) (ac_identifier ctx) (ac_hooks ctx) point.

Definition hook_error_text (e : HookError) : string := match e with BlockingFailed m | HookTimeout m => m end.

Definition now_ : act W Z := gets (λ s, rt_clock rt (ss_state s).1).

Definition set_context_record (cat : Category) (key : string) (value : json) (source : string) (hop : nat) : act W unit :=
  let~ now := now_ in on_context (λ c, set_record now c cat key value source hop).

(** *** The end *)

Definition finalize (content : option string) (final_agent : Z)
    (last : option (gmap string (list AgentHook) * string)) : act W bool :=
  do~ (match last with
       | Some (hooks, ident) => let~ _ := run_hooks_at final_agent ident hooks "after_agent_end" in act_ret tt
       | None => act_ret tt
       end) in
  let~ c := gets (λ s, (ss_state s).2) in
  let exts := get_extensions (rt_ext_order rt) c in
  let extensions := match exts with [] => None | _ => Some (flatten_extension <$> exts) end in
  let final :=
    match ctx_metadata c !! "response_content" with
    | Some rc => if is_empty rc then rewrite_content_for_empty_extensions content extensions else Some rc
    | None => rewrite_content_for_empty_extensions content extensions
    end in
  let~ saved :=
    (if bool_decide (final = Some "") && bool_decide (extensions = None) then act_ret false
     else on_state (λ s, let '(w, ok) := rt_append rt (q_session q) (q_actor q) (default "" final) extensions s.1 in
                         ((w, s.2), ok))) in
  do~ emit (SseDone (if (final_agent =? 1)%Z then None else Some final_agent)) in
  do~ (match extensions with Some l => emit (SseExtensions l) | None => act_ret tt end) in
  act_ret saved.

(** *** Tool calls *)

Definition audit_llm (agent : Z) (outcome : string) : act W unit :=
  record_audit_entry (mkAudit None (Some agent) None None None "llm_invoke" outcome None None).
Definition audit_route (from to : Z) : act W unit :=
  record_audit_entry (mkAudit None (Some from) None None None "agent_route" "success" None
                        (Some (JObj [("to_agent_id", JInt to)]))).

Definition execute_tool (ctx : AgentContent) (tc : ToolCallRequest) : act W ToolOutcome :=
  if String.eqb (tc_name tc) ROUTE_TOOL_NAME then gets (λ s, handle_route_tool ctx (ss_visited s) tc)
  else
    match find_first (λ t, String.eqb (tr_identifier t) (tc_name tc)) (ac_tools ctx) with
    | Some tool => on_state (handle_workspace_tool rt ctx tool tc (q_session q))
    | None => act_ret (tool_error ("未知工具：" +:+ tc_name tc))
    end.

(** Routing to an agent, or the content the session ends with when it was visited before. *)
Definition route_result (hop : nat) (current : Z) (content : string) (next : Z) (identifier : string)
    : act W (option string) :=
  let~ visited := gets ss_visited in
  if bool_decide (next ∈ visited) then
    do~ emit (SseError 5006 ("路由循环检测：agent_id=" +:+ pretty next +:+ " 已访问过")) in
    do~ on_context (λ c, set_response_payload c (mkPayload content [] [] [])) in
    do~ on_context (λ c, set_lifecycle_state c Terminated) in
    act_ret (Some content)
  else
    do~ push_visited next in
    do~ emit (SseRouted next identifier) in
    do~ audit_route current next in
    let~ now := now_ in
    do~ on_context (λ c, record_audit c (AuditDelegation (pretty next) ""
          (JObj [("from_agent", JInt current); ("via", JStr "route_to_subagent")]) None true now None)) in
    do~ set_context_record StateChanges ("route-hop-" +:+ pretty hop)
          (JObj [("event", JStr "routed"); ("from", JInt current); ("to", JInt next)]) "orchestrator" hop in
    act_ret None.

(** The tool calls of a hop: the agent routed to last, or the content of an early end. *)
Fixpoint run_calls (hop : nat) (ctx : AgentContent) (current : Z) (content : string) (tcs : list ToolCallRequest)
    (routed : option Z) : act W (option Z + string) :=
  match tcs with
  | [] => act_ret (inl routed)
  | tc :: tcs =>
      let~ h := agent_hooks ctx "before_tool_call" in
      match h with
      | Err e =>
          do~ emit (SseError 6005 (hook_error_text e)) in
          do~ on_context (λ c, set_response_payload c (mkPayload "Hook blocked tool execution" [] [] [])) in
          do~ on_context (λ c, set_lifecycle_state c Terminated) in
          act_ret (inr "Hook blocked tool execution")
      | Ok _ =>
          do~ emit (SseToolCall (tc_id tc) (tc_name tc) (tc_arguments tc)) in
          let~ r := execute_tool ctx tc in
          do~ emit (SseToolResult (tc_id tc) (to_payload r)) in
          let~ _ := agent_hooks ctx "after_tool_call" in
          let~ now := now_ in
          do~ on_context (λ c, record_audit c (AuditToolCall (tc_name tc) (JObj (tc_arguments tc)) (Some (to_payload r))
                (match jget "error" (to_payload r) with Some _ => CallFailure | None => CallSuccess end) now (Some now))) in
          do~ set_context_record ToolResults (tc_name tc +:+ "-" +:+ tc_id tc) (to_payload r) (tc_name tc) hop in
          do~ push_message (JObj [("role", JStr "tool"); ("tool_call_id", JStr (tc_id tc));
                                  ("content", JStr (rt_to_string rt (to_payload r)))]) in
          match to_route r with
          | None => run_calls hop ctx current content tcs routed
          | Some (next, identifier) =>
              let~ stop := route_result hop current content next identifier in
              match stop with
              | Some content => act_ret (inr content)
              | None => run_calls hop ctx current content tcs (Some next)
              end
          end
      end
  end.

(** *** One hop *)

Inductive HopEnd :=
| HopBreak (content : option string) (final_agent : option Z)
| HopReturn (content : string) (final_agent : Z)
| HopNext (agent : Z).

Definition assistant_message (resp : LLMResponse) : json :=
  let content := default "" (rs_content resp) in
  match rs_tool_calls resp with
  | [] => role_message "assistant" content
  | tcs =>
      let msg := [("role", JStr "assistant"); ("content", if is_empty content then JNull else JStr content);
                  ("tool_calls", JArr (to_openai_tool_call (rt_to_string rt) <$> tcs))] in
      JObj (match rs_reasoning_content resp with
            | Some rc => map_insert "reasoning_content" (JStr rc) msg
            | None => msg
            end)
  end.

Definition hop_request (ctx : AgentContent) (model : string) (messages : list json) : ChatRequest :=
  let prompt := ac_system_prompt ctx +:+ String nl (String nl "") +:+ "[当前客户端]" +:+ String nl "" +:+ "渠道："
                +:+ q_channel q +:+ String nl "" +:+ "平台：" +:+ q_client_type q +:+ String nl "" +:+ "版本："
                +:+ q_client_version q in
  mkRequest (role_message "system" prompt :: messages)
    (match build_tools_schema ctx with [] => None | l => Some l end) (Some model) 2048
    (g_temperature default_generation) None None.

(** The call of the model, with its tokens forwarded. *)
Definition call_model (chat : ChatRequest → W → W * LLMResponse * list string) (req : ChatRequest) : act W LLMResponse :=
  do~ note_request req in
  let~ (resp, deltas) := on_state (λ s, let '(w, resp, deltas) := chat req s.1 in ((w, s.2), (resp, deltas))) in
  do~ (λ s, (mkSession (ss_state s) (ss_events s ++ (SseToken <$> deltas)) (ss_audit s) (ss_messages s) (ss_visited s)
               (ss_requests s), tt)) in
  act_ret resp.

(** What follows the tool calls of a hop. *)
Definition after_calls (hop : nat) (current : Z) (content : string) (routed : option Z) : act W HopEnd :=
  let~ c := gets (λ s, (ss_state s).2) in
  if bool_decide (ctx_metadata c !! "agent_loop_break" = Some "true") then
    let reply := trim (default "" (ctx_metadata c !! "agent_loop_reply")) in
    do~ set_context_record StateChanges ("hop-" +:+ pretty hop +:+ "-loop-break")
          (JObj [("iteration", JInt (Z.of_nat hop)); ("event", JStr "agent_loop_break");
                 ("triggered_by", JStr "tool_metadata")]) "orchestrator" hop in
    do~ on_context (λ c, set_lifecycle_state c Completed) in
    act_ret (HopBreak (Some reply) (Some current))
  else
    match routed with
    | Some next =>
        do~ set_context_record StateChanges ("hop-" +:+ pretty hop +:+ "-routed")
              (JObj [("iteration", JInt (Z.of_nat hop)); ("event", JStr "agent_routed"); ("to_agent", JInt next)])
              "orchestrator" hop in
        act_ret (HopNext next)
    | None =>
        if hop + 1 =? rt_max_hops rt then
          do~ emit (SseError 5006 ("已达最大 hop " +:+ pretty (rt_max_hops rt))) in
          do~ on_context (λ c, set_lifecycle_state c Terminated) in
          act_ret (HopBreak (Some content) (Some current))
        else act_ret (HopNext current)
    end.

(** The agent is loaded; its model is called and answers, or its tools run. *)
Definition run_agent (hop : nat) (ctx : AgentContent) (current : Z) : act W HopEnd :=
  let~ h := agent_hooks ctx "before_agent_start" in
  match h with
  | Err e => do~ emit (SseError 6005 (hook_error_text e)) in act_ret (HopBreak None None)
  | Ok _ =>
      match rt_models rt (ac_preset ctx) with
      | Err e => do~ emit (SseError 5007 ("preset error: " +:+ e)) in act_ret (HopBreak None None)
      | Ok (chat, model) =>
          let~ messages := gets ss_messages in
          let req := hop_request ctx model messages in
          let~ h := agent_hooks ctx "before_llm_call" in
          match h with
          | Err e => do~ emit (SseError 6005 (hook_error_text e)) in act_ret (HopBreak None None)
          | Ok _ =>
              let~ resp := call_model chat req in
              if is_error resp then
                let msg := default "LLM error" (match rs_content resp with Some c => Some c | None => error_kind resp end) in
                do~ emit (SseError ((default 5000 (error_status_code resp)) mod 65536)%Z msg) in
                do~ audit_llm current "error" in
                let~ _ := agent_hooks ctx "on_agent_error" in
                do~ on_context (λ c, set_lifecycle_state c Terminated) in
                act_ret (HopBreak None None)
              else
                let~ _ := agent_hooks ctx "after_llm_call" in
                let content := default "" (rs_content resp) in
                do~ push_message (assistant_message resp) in
                do~ audit_llm current "success" in
                if negb (should_execute_tools resp)
                then act_ret (HopBreak (Some (filter_output rt content)) (Some current))
                else
                  let~ r := run_calls hop ctx current content (rs_tool_calls resp) None in
                  match r with
                  | inr content => act_ret (HopReturn content current)
                  | inl routed => after_calls hop current content routed
                  end
          end
      end
  end.

(** *** The loop *)

(** The agent the session falls back to when a hop breaks off. *)
Definition session_end (starting : Z) (last : option (gmap string (list AgentHook) * string)) (content : option string)
    (final_agent : option Z) : act W (option bool) :=
  do~ (match content with
       | Some text =>
           do~ on_context (λ c, set_response_payload c (mkPayload text [] [] [])) in
           on_context (λ c, set_lifecycle_state c Completed)
       | None => on_context (λ c, set_lifecycle_state c Terminated)
       end) in
  let~ saved := finalize content (default starting final_agent) last in
  act_ret (Some saved).

Fixpoint run_hops (left_ : nat) (hop : nat) (starting current : Z)
    (last : option (gmap string (list AgentHook) * string)) : act W (option bool) :=
  match left_ with
  | O => session_end starting last None None
  | S left_ =>
      if rt_cancelled rt hop then act_ret None
      else
        let~ w := gets (λ s, (ss_state s).1) in
        match rt_agent rt current w with
        | Err e =>
            do~ emit (SseError 5000 ("agent context: " +:+ e)) in
            session_end starting last None None
        | Ok ctx =>
            let last := Some (ac_hooks ctx, ac_identifier ctx) in
            let~ r := run_agent hop ctx current in
            match r with
            | HopBreak content final_agent => session_end starting last content final_agent
            | HopReturn content agent =>
                let~ saved := finalize (Some content) agent last in act_ret (Some saved)
            | HopNext agent => run_hops left_ (S hop) starting agent last
            end
        end
  end.

Definition initial_context (starting : Z) (user_content : string) (now : Z) : AgentContext :=
  context_init ("session-" +:+ pretty (q_session q) +:+ "-agent-" +:+ pretty starting)
    (mkInput user_content (Some (pretty (q_session q))) None now
       {["channel" := q_channel q; "client_type" := q_client_type q; "client_version" := q_client_version q;
         "actor_id" := pretty (q_actor q)]}) default_config now.

(** [run_session_user]: the session afterwards, and whether a message was saved; nothing when
    the client had gone. *)
Definition run_session (starting : Z) (history : list ChatMessage) (user_content : string) (w : W)
    : Session W * option bool :=
  let messages := build_chat_messages (rt_to_string rt) history user_content in
  let c := initial_context starting user_content (rt_clock rt w) in
  run_hops (rt_max_hops rt) 0 starting starting None
    (mkSession (w, attempt_write c (set_messages c messages)) [] [] messages [starting] []).
End Session.
