(* ===== verification/OrchestratorProps.v ===== *)
(** * Properties of the chat orchestrator

    Over whole sessions of [Orchestrator.v]: what the client is told, how often and with what
    conversations the models are called, and which agents take part. *)

From S2P Require Import Prelude RustStr F64 Json Provider Governance GovernanceProps RunnerProps Capability Sensitive.
From S2P Require Import Context ContextProps RuntimeCtx Executor HookEngine Orchestrator.

Local Open Scope stdpp_scope.
Local Open Scope hive_scope.

(** ** What an action leaves alone *)

Definition is_done (e : SseEvent) : bool := match e with SseDone _ => true | _ => false end.

Definition more_events {W} (s s' : Session W) : Prop :=
  ∃ es, ss_events s' = ss_events s ++ es ∧ Forall (λ e, is_done e = false) es.

(** Only events other than [done] are added, and the world, the context and the audit change. *)
Record frame {W} (s s' : Session W) : Prop := {
  fr_events : more_events s s';
  fr_messages : ss_messages s' = ss_messages s;
  fr_visited : ss_visited s' = ss_visited s;
  fr_requests : ss_requests s' = ss_requests s
}.

Lemma more_same {W} (s s' : Session W) : ss_events s' = ss_events s → more_events s s'.
Proof. intros H. exists []. by rewrite H, app_nil_r. Qed.

Lemma more_refl {W} (s : Session W) : more_events s s.
Proof. exists []. by rewrite app_nil_r. Qed.

Lemma more_trans {W} (s1 s2 s3 : Session W) : more_events s1 s2 → more_events s2 s3 → more_events s1 s3.
Proof.
  intros (e1 & H1 & F1) (e2 & H2 & F2). exists (e1 ++ e2). rewrite H2, H1, <-app_assoc. split; [done|].
  by apply Forall_app.
Qed.

#[export] Instance frame_preorder {W} : PreOrder (@frame W).
Proof.
  split.
  - intros s. split; [apply more_refl|done..].
  - intros s1 s2 s3 [E1 M1 V1 R1] [E2 M2 V2 R2]. split; [by eapply more_trans|congruence..].
Qed.

Definition framed {W A} (m : act W A) : Prop := ∀ s, frame s (m s).1.

Lemma framed_bind {W A B} (m : act W A) (f : A → act W B) : framed m → (∀ a, framed (f a)) → framed (act_bind m f).
Proof.
  intros Hm Hf s. unfold act_bind. specialize (Hm s). destruct (m s) as [s1 a]. etrans; [exact Hm|]. apply Hf.
Qed.

Lemma framed_ret {W A} (a : A) : framed (W := W) (act_ret a).
Proof. by intros s. Qed.

Lemma framed_gets {W A} (f : Session W → A) : framed (gets f).
Proof. by intros s. Qed.

Lemma framed_emit {W} e : is_done e = false → framed (W := W) (emit e).
Proof. intros He s. split; [|done..]. exists [e]. split; [done|]. by constructor. Qed.

Lemma framed_audit {W} a : framed (W := W) (record_audit_entry a).
Proof. intros s. split; [by apply more_same|done..]. Qed.

Lemma framed_on_state {W A} (f : W * AgentContext → W * AgentContext * A) : framed (on_state f).
Proof. intros s. unfold on_state. destruct (f (ss_state s)) as [st a]. split; [by apply more_same|done..]. Qed.

Lemma framed_on_context {W} f : framed (W := W) (on_context f).
Proof. apply framed_on_state. Qed.

Create HintDb framed.
#[export] Hint Resolve framed_bind framed_ret framed_gets framed_audit framed_on_state framed_on_context : framed.
#[export] Hint Extern 1 (framed (emit _)) => apply framed_emit; done : framed.
#[export] Hint Extern 2 (framed ?m) => match m with match ?x with _ => _ end => destruct x end : framed.

(** Running an action that is framed. *)
Lemma framed_run {W A} (m : act W A) s : framed m → ∃ s' a, m s = (s', a) ∧ frame s s'.
Proof. intros H. specialize (H s). destruct (m s) as [s' a]. by exists s', a. Qed.

(** Splitting a sequence. *)
Lemma bind_run {W A B} (m : act W A) (f : A → act W B) s s1 a : m s = (s1, a) → act_bind m f s = f a s1.
Proof. intros H. unfold act_bind. by rewrite H. Qed.

(** Taking a framed action off the front of a sequence. *)
Ltac step_frame := match goal with
  | |- context [act_bind ?m ?f ?s] =>
      let s' := fresh "s" in let a := fresh "a" in let E := fresh "E" in let F := fresh "F" in
      destruct (framed_run m s ltac:(eauto with framed)) as (s' & a & E & F); rewrite (bind_run m f s s' a E)
  end.

(** ** Agents *)

Section Session.
Context {W : Type} (rt : Runtime W) (q : Request) (first : Z).

(** [n] is a direct sub-agent of [m], as the database has it at some time. *)
Definition child_of (m n : Z) : Prop := ∃ w ctx, rt_agent rt m w = Ok ctx ∧ n ∈ (ch_id <$> ac_children ctx).

(** The session began with [first]; every other agent visited is a direct sub-agent of one
    visited before it. *)
Definition tree (visited : list Z) : Prop :=
  visited !! 0 = Some first ∧ ∀ i n, visited !! S i = Some n → ∃ j m, j ≤ i ∧ visited !! j = Some m ∧ child_of m n.

Lemma tree_snoc visited m n : tree visited → m ∈ visited → child_of m n → tree (visited ++ [n]).
Proof.
  intros [H0 Ht] (j & Hj)%list_elem_of_lookup Hc. split; [by apply lookup_app_l_Some|]. intros i x Hx. apply lookup_app_Some in Hx as [Hx|[Hle Hx]].
  - destruct (Ht i x Hx) as (k & y & Hk & Hy & ?). exists k, y. split_and!; [done|by apply lookup_app_l_Some|done].
  - apply list_lookup_singleton_Some in Hx as [Hx <-]. exists j, m. split_and!; [|by apply lookup_app_l_Some|done].
    apply lookup_lt_Some in Hj. lia.
Qed.

(** What holds of the agents of a session whose current agent is [current]. *)
Record agents_ok (current : Z) (s : Session W) : Prop := {
  ag_nodup : NoDup (ss_visited s);
  ag_tree : tree (ss_visited s);
  ag_current : current ∈ ss_visited s
}.

Lemma agents_frame current s s' : frame s s' → agents_ok current s → agents_ok current s'.
Proof. intros [_ _ Hv _] [H1 H2 H3]. split; by rewrite Hv. Qed.

Lemma handle_route_child ctx visited tc n ident :
  to_route (handle_route_tool ctx visited tc) = Some (n, ident) → (n ∉ visited) ∧ n ∈ (ch_id <$> ac_children ctx).
Proof.
  unfold handle_route_tool. destruct (is_empty _); [done|]. destruct (find_first _ _) as [c|] eqn:E; [|done].
  case_bool_decide as Hv; [done|]. intros [= <- <-]. split; [done|].
  apply find_first_Some in E as [Hin _]. by apply list_elem_of_fmap_2.
Qed.

Lemma workspace_no_route ctx tool tc sid s : to_route (handle_workspace_tool rt ctx tool tc sid s).2 = None.
Proof.
  assert (∀ name input s, to_route (call_builtin rt name input s).2 = None) as Hb.
  { intros name input s0. unfold call_builtin. destruct (rt_builtin rt name) as [h|]; [|done]. by destruct (h input s0) as [? []]. }
  assert (∀ u p e f input s, to_route (call_plugin_tool rt u ctx sid p e f input s).2 = None) as Hp.
  { intros u p e f input s0. unfold call_plugin_tool. destruct p, e; try done. by destruct (rt_plugin rt _ _ _ _) as [? []]. }
  assert (∀ id input s, to_route (call_workflow_tool rt ctx id input s).2 = None) as Hw.
  { intros id input s0. unfold call_workflow_tool. by destruct (rt_workflow rt _ _ _ _ _) as [? []]. }
  unfold handle_workspace_tool. destruct (negb _); [done|]. destruct (tr_kind tool =? 1)%Z.
  - destruct (tr_meta tool).
    + unfold handle_meta_tool. destruct (String.eqb _ "invoke_function").
      * unfold invoke_function. destruct (_ ≫= as_str); [|done]. destruct (map_get _ _); [|done].
        destruct (rt_function rt _ _) as [[[fid meta] caps]|]; [|done]. destruct (negb _); [done|].
        destruct (_ && _); [apply Hb|]. destruct (_ || _); [apply Hp|done].
      * destruct (String.eqb _ "invoke_workflow"); [|done]. unfold invoke_workflow. destruct (_ ≫= as_str); [|done].
        destruct (map_get _ _); [|done]. destruct (rt_workflow_id rt _ _); [apply Hw|done].
    + destruct (tr_builtin tool); [|apply Hp]. destruct (tr_function_id tool); [apply Hb|done].
  - destruct (tr_kind tool =? 2)%Z; [|done]. destruct (tr_workflow_id tool); [apply Hw|done].
Qed.

Lemma framed_hooks ctx point : framed (agent_hooks rt q ctx point).
Proof. apply framed_on_state. Qed.

Lemma framed_tool ctx tc : framed (execute_tool rt q ctx tc).
Proof. unfold execute_tool. destruct (String.eqb _ _); [auto with framed|]. destruct (find_first _ _); auto with framed. Qed.

Lemma framed_record cat key value source hop : framed (set_context_record rt cat key value source hop).
Proof. unfold set_context_record, now_. auto with framed. Qed.

(** A tool routes only to a direct sub-agent that was not visited. *)
Lemma execute_tool_route ctx tc s n ident :
  to_route (execute_tool rt q ctx tc s).2 = Some (n, ident) → (n ∉ ss_visited s) ∧ n ∈ (ch_id <$> ac_children ctx).
Proof.
  unfold execute_tool. destruct (String.eqb _ _); [apply handle_route_child|].
  destruct (find_first _ _) as [tool|]; [|done]. unfold on_state.
  pose proof (workspace_no_route ctx tool tc (q_session q) (ss_state s)) as H.
  destruct (handle_workspace_tool _ _ _ _ _ _) as [st r]. cbn in *. congruence.
Qed.
End Session.
#[export] Hint Resolve framed_hooks framed_tool framed_record : framed.

(** ** The tool calls of a hop *)

Section Calls.
Context {W : Type} (rt : Runtime W) (q : Request) (first : Z).

Lemma route_result_spec hop current content next ident s ctx w :
  rt_agent rt current w = Ok ctx → next ∈ (ch_id <$> ac_children ctx) → next ∉ ss_visited s →
  agents_ok rt first current s →
  let '(s', r) := route_result rt hop current content next ident s in
  r = None ∧ more_events s s' ∧ ss_messages s' = ss_messages s ∧ ss_requests s' = ss_requests s ∧
  agents_ok rt first current s' ∧ next ∈ ss_visited s'.
Proof.
  intros Hctx Hchild Hnew [Hnd Ht Hc]. unfold route_result. cbn. rewrite bool_decide_false by done.
  set (s1 := (push_visited next s).1).
  assert (agents_ok rt first current s1 ∧ next ∈ ss_visited s1) as [Hok Hin].
  { cbn. split; [split; cbn|].
    - apply NoDup_app. split_and!; [done| |apply NoDup_singleton]. by intros x Hx ->%list_elem_of_singleton.
    - eapply tree_snoc; [done|exact Hc|]. by exists w, ctx.
    - apply elem_of_app. by left.
    - apply elem_of_app. right. left. }
  rewrite (bind_run (push_visited next) _ s s1 tt eq_refl).
  match goal with |- let '(s', r) := ?m s1 in _ =>
    assert (framed m ∧ ∀ x, (m x).2 = None) as [Hf Hr] end.
  { unfold audit_route, now_. split; [eauto 20 with framed|done]. }
  specialize (Hf s1). specialize (Hr s1). destruct (act_bind _ _ s1) as [s2 r]. cbn in *. subst r.
  destruct Hf as [He Hm Hv Hq]. split_and!; [done| |done|done| |by rewrite Hv].
  - eapply more_trans; [|exact He]. by apply more_same.
  - split; rewrite Hv; apply Hok.
Qed.
(** What running calls from [s] to [s'] with result [r] guarantees. *)
Definition calls_ok (current : Z) (tcs : list ToolCallRequest) (s : Session W) (out : Session W * (option Z + string)) : Prop :=
  let '(s', r) := out in
  more_events s s' ∧ ss_requests s' = ss_requests s ∧ agents_ok rt first current s' ∧
  ∃ outs, ss_messages s' = ss_messages s ++ outs ∧
    match r with
    | inl next => Forall2 answers tcs outs ∧ ∀ n, next = Some n → n ∈ ss_visited s'
    | inr x => x = "Hook blocked tool execution"
    end.

(** One call has been answered. *)
Lemma calls_ok_cons current tc tcs m s s1 out :
  more_events s s1 → ss_messages s1 = ss_messages s ++ [m] → ss_requests s1 = ss_requests s → answers tc m →
  calls_ok current tcs s1 out → calls_ok current (tc :: tcs) s out.
Proof.
  destruct out as [s' r]. intros He Hm Hq Ha (He' & Hq' & Hok & outs & Hm' & Hr). split_and!; [by eapply more_trans|congruence|done|].
  exists (m :: outs). split; [rewrite Hm', Hm, <-app_assoc; done|]. destruct r; [|done]. destruct Hr. by split; [constructor|].
Qed.

(** The calls of a hop get their results in order; agents are added as the tree allows; an early
    end is always due to a hook. *)
Lemma run_calls_spec hop ctx current content tcs routed s w :
  rt_agent rt current w = Ok ctx → agents_ok rt first current s → (∀ n, routed = Some n → n ∈ ss_visited s) →
  calls_ok current tcs s (run_calls rt q hop ctx current content tcs routed s).
Proof.
  intros Hctx. revert routed s. induction tcs as [|tc tcs IH]; intros routed s Hok Hr; cbn [run_calls].
  { cbn. split_and!; [apply more_refl|done|done|]. exists []. rewrite app_nil_r. split; [done|]. by split. }
  step_frame. destruct a as [[]|err].
  2:{ do 3 step_frame. cbn. assert (frame s s3) as Hf by (by do 3 (etrans; [eassumption|])).
      split_and!; [apply Hf|apply Hf|by eapply agents_frame|]. exists []. rewrite app_nil_r. split; [apply Hf|done]. }
  step_frame. step_frame.
  assert (∀ n ident, to_route a0 = Some (n, ident) → (n ∉ ss_visited s1) ∧ n ∈ (ch_id <$> ac_children ctx)) as Hroute.
  { intros n ident Hn. apply (execute_tool_route rt q ctx tc s1 n ident). by rewrite E1. }
  do 5 step_frame.
  assert (frame s s7) as Hf by (by do 7 (etrans; [eassumption|])).
  assert (ss_visited s1 = ss_visited s) as Hv1 by (transitivity (ss_visited s0); apply fr_visited; done).
  clear - Hctx Hok Hr Hroute Hf Hv1 IH. set (m := JObj _).
  rewrite (bind_run (push_message m) _ s7 (push_message m s7).1 tt eq_refl). set (s8 := (push_message m s7).1).
  destruct Hf as [He Hm Hv Hq].
  assert (more_events s s8) as He8 by (eapply more_trans; [exact He|by apply more_same]).
  assert (ss_messages s8 = ss_messages s ++ [m]) as Hm8 by (cbn; by rewrite Hm).
  assert (ss_visited s8 = ss_visited s) as Hv8 by exact Hv.
  assert (agents_ok rt first current s8) as Hok8 by (destruct Hok; split; by rewrite Hv8).
  destruct (to_route a0) as [[next ident]|].
  - destruct (Hroute next ident eq_refl) as [Hnew Hch]. rewrite Hv1, <-Hv8 in Hnew.
    pose proof (route_result_spec hop current content next ident s8 ctx w Hctx Hch Hnew Hok8) as Hrr.
    unfold act_bind at 1. destruct (route_result _ _ _ _ _ _ _) as [s9 r]. destruct Hrr as (-> & He9 & Hm9 & Hq9 & Hok9 & Hin).
    apply calls_ok_cons with m s9; [by eapply more_trans|congruence|by rewrite Hq9|done|]. apply IH; [done|]. by intros n [= <-].
  - apply calls_ok_cons with m s8; [done..|]. apply IH; [done|]. by rewrite Hv8.
Qed.
End Calls.

(** ** One hop *)

Lemma role_message_mute role content : mute (role_message role content).
Proof.
  split; unfold declared_ids, answered_id, str_field_is, get_str; cbn;
    [by destruct (String.eqb _ _)|by destruct (String.eqb _ _)].
Qed.

Section Hop.
Context {W : Type} (rt : Runtime W) (q : Request) (first : Z).

Lemma assistant_message_ids resp :
  declared_ids (assistant_message rt resp) = tc_id <$> rs_tool_calls resp ∧ answered_id (assistant_message rt resp) = None.
Proof.
  unfold assistant_message. destruct (rs_tool_calls resp) as [|tc tcs] eqn:E; [apply role_message_mute|].
  rewrite <-E. clear E tc tcs.
  assert (∀ o, o = map_insert "reasoning_content" (JStr (default "" (rs_reasoning_content resp))) [("role", JStr "assistant");
     ("content", if is_empty (default "" (rs_content resp)) then JNull else JStr (default "" (rs_content resp)));
     ("tool_calls", JArr (to_openai_tool_call (rt_to_string rt) <$> rs_tool_calls resp))] ∨
    o = [("role", JStr "assistant");
     ("content", if is_empty (default "" (rs_content resp)) then JNull else JStr (default "" (rs_content resp)));
     ("tool_calls", JArr (to_openai_tool_call (rt_to_string rt) <$> rs_tool_calls resp))] →
    declared_ids (JObj o) = tc_id <$> rs_tool_calls resp ∧ answered_id (JObj o) = None) as H.
  { intros o [-> | ->]; (split; [|done]); unfold declared_ids; cbn -[to_openai_tool_call filter_map];
      induction (rs_tool_calls resp) as [|tc tcs IH]; [done| |done|]; cbn [fmap list_fmap filter_map];
      by rewrite to_openai_id, IH. }
  apply H. destruct (rs_reasoning_content resp); [by left|by right].
Qed.

(** The part of the session between hops. *)
Record hop_ok (current : Z) (s : Session W) : Prop := {
  ho_agents : agents_ok rt first current s;
  ho_paired : paired (ss_messages s)
}.

(** At most one request, with a paired conversation, and no end of the session announced. *)
Definition hop_result (s : Session W) (out : Session W * HopEnd) : Prop :=
  let '(s', r) := out in
  more_events s s' ∧ NoDup (ss_visited s') ∧ tree rt first (ss_visited s') ∧
  (∃ reqs, ss_requests s' = ss_requests s ++ reqs ∧ length reqs ≤ 1 ∧ Forall (λ r, paired (rq_messages r)) reqs) ∧
  match r with
  | HopNext agent => agent ∈ ss_visited s' ∧ paired (ss_messages s')
  | HopReturn content _ => content = "Hook blocked tool execution"
  | HopBreak _ _ => True
  end.

Lemma hop_result_break current s s' content agent :
  hop_ok current s → frame s s' → hop_result s (s', HopBreak content agent).
Proof.
  intros [[Hnd Ht Hc] Hp] [He Hm Hv Hq]. split_and!; [done|by rewrite Hv..| |done].
  exists []. rewrite app_nil_r. split_and!; [done|cbn; lia|done].
Qed.

Lemma framed_after_calls hop current content routed : framed (after_calls rt hop current content routed).
Proof.
  unfold after_calls. apply framed_bind; [auto with framed|]. intros c. case_bool_decide; [eauto 10 with framed|].
  destruct routed; [eauto 10 with framed|]. destruct (_ =? _); eauto 10 with framed.
Qed.

Lemma after_calls_next hop current content routed s :
  match (after_calls rt hop current content routed s).2 with
  | HopNext agent => routed = Some agent ∨ agent = current
  | HopReturn _ _ => False
  | HopBreak _ _ => True
  end.
Proof.
  unfold after_calls. cbn. case_bool_decide; [done|]. destruct routed as [n|]; [by left|].
  destruct (_ =? _); [done|]. by right.
Qed.

Lemma call_model_spec (chat : ChatRequest → W → W * LLMResponse * list string) req (s : Session W) :
  let s' := (call_model chat req s).1 in
  more_events s s' ∧ ss_messages s' = ss_messages s ∧ ss_visited s' = ss_visited s ∧
  ss_requests s' = ss_requests s ++ [req].
Proof.
  unfold call_model, act_bind, on_state. cbn. destruct (chat req (ss_state s).1) as [[w resp] deltas]. cbn.
  split_and!; [|done..]. exists (SseToken <$> deltas). split; [done|]. by apply Forall_fmap, Forall_true.
Qed.

(** A hop whose request has been sent. *)
Lemma hop_result_sent s s1 req out :
  paired (rq_messages req) → more_events s s1 → ss_requests s1 = ss_requests s ++ [req] →
  (let '(s', r) := out in
   more_events s1 s' ∧ NoDup (ss_visited s') ∧ tree rt first (ss_visited s') ∧ ss_requests s' = ss_requests s1 ∧
   match r with
   | HopNext agent => agent ∈ ss_visited s' ∧ paired (ss_messages s')
   | HopReturn content _ => content = "Hook blocked tool execution"
   | HopBreak _ _ => True
   end) → hop_result s out.
Proof.
  destruct out as [s' r]. intros Hp He Hq (He' & Hnd & Ht & Hq' & Hr). split_and!; [by eapply more_trans|done|done| |done].
  exists [req]. rewrite Hq', Hq. split_and!; [done|done|by constructor].
Qed.

(** The hop from the tool calls on. *)
Lemma run_tools_spec hop ctx current content resp s w :
  rt_agent rt current w = Ok ctx → agents_ok rt first current s →
  (∃ l, ss_messages s = l ++ [assistant_message rt resp] ∧ paired l) →
  let '(s', r) := (act_bind (run_calls rt q hop ctx current content (rs_tool_calls resp) None) (λ r,
      match r with
      | inl routed => after_calls rt hop current content routed
      | inr content => act_ret (HopReturn content current)
      end)) s in
  more_events s s' ∧ NoDup (ss_visited s') ∧ tree rt first (ss_visited s') ∧ ss_requests s' = ss_requests s ∧
  match r with
  | HopNext agent => agent ∈ ss_visited s' ∧ paired (ss_messages s')
  | HopReturn content _ => content = "Hook blocked tool execution"
  | HopBreak _ _ => True
  end.
Proof.
  intros Hctx Hok (l & Hl & Hp).
  pose proof (run_calls_spec rt q first hop ctx current content (rs_tool_calls resp) None s w Hctx Hok ltac:(done)) as H.
  unfold act_bind. destruct (run_calls _ _ _ _ _ _ _ _ s) as [s1 r]. destruct H as (He & Hq & [Hnd Ht Hc] & outs & Hm & Hr).
  destruct r as [routed|x]; [|by split_and!]. destruct Hr as [Hans Hrt].
  pose proof (framed_after_calls hop current content routed s1) as [He2 Hm2 Hv2 Hq2].
  pose proof (after_calls_next hop current content routed s1) as Hn.
  destruct (after_calls _ _ _ _ _ s1) as [s2 r]. cbn in *. rewrite Hv2. split_and!; [by eapply more_trans|done|done|congruence|].
  destruct r as [| |agent]; [done|done|]. split; [destruct Hn as [-> | ->]; [by apply Hrt|done]|].
  rewrite Hm2, Hm, Hl, <-app_assoc. cbn. destruct (assistant_message_ids resp) as [Hd Ha].
  by apply answers_paired with (rs_tool_calls resp).
Qed.

Lemma run_agent_spec hop ctx current s w :
  rt_agent rt current w = Ok ctx → hop_ok current s → hop_result s (run_agent rt q hop ctx current s).
Proof.
  intros Hctx Hok. unfold run_agent. step_frame. destruct a as [[]|e].
  2:{ step_frame. eapply hop_result_break; [done|]. by etrans. }
  destruct (rt_models rt (ac_preset ctx)) as [[chat model]|e].
  2:{ step_frame. eapply hop_result_break; [done|]. by etrans. }
  step_frame. assert (a = ss_messages s1) as -> by (injection E0 as <- <-; done).
  step_frame. destruct a as [[]|e].
  2:{ step_frame. eapply hop_result_break; [done|]. by do 3 (etrans; [eassumption|]). }
  assert (frame s s1) as [_ Hm1 _ _] by by etrans. rewrite Hm1.
  assert (frame s s2) as [He2 Hm2 Hv2 Hq2] by (by do 2 (etrans; [eassumption|])). clear E E0 E1 F F0 F1 Hm1.
  set (req := hop_request q ctx model (ss_messages s)).
  pose proof (call_model_spec chat req s2) as (He3 & Hm3 & Hv3 & Hq3).
  unfold act_bind at 1. destruct (call_model chat req s2) as [s3 resp]. cbn in He3, Hm3, Hv3, Hq3.
  destruct Hok as [[Hnd Ht Hc] Hp]. rewrite Hm2 in Hm3. rewrite Hv2 in Hv3. rewrite Hq2 in Hq3.
  apply hop_result_sent with s3 req; [apply paired_cons_mute; [apply role_message_mute|done]|by eapply more_trans|done|].
  assert (∀ s4, frame s3 s4 → agents_ok rt first current s4) as Hag.
  { intros s4 [_ _ Hv _]. split; by rewrite Hv, Hv3. }
  destruct (is_error resp).
  { do 4 step_frame. assert (frame s3 s7) as Hf by (by do 3 (etrans; [eassumption|])). cbn.
    destruct (Hag _ Hf). by split_and!; [apply Hf| | |apply Hf|]. }
  step_frame. set (m := assistant_message rt resp). unfold act_bind at 1. cbn [push_message].
  match goal with |- context [act_bind _ _ ?x] => set (s5 := x) end. step_frame.
  assert (agents_ok rt first current s6) as Hag6.
  { destruct (Hag _ F). split; rewrite (fr_visited _ _ F0); done. }
  assert (more_events s3 s6) as He6.
  { eapply more_trans; [apply F|]. eapply more_trans; [|apply F0]. by apply more_same. }
  assert (ss_requests s6 = ss_requests s3) as Hq6 by (rewrite (fr_requests _ _ F0); apply F).
  destruct (negb _).
  { destruct Hag6. by split_and!. }
  pose proof (run_tools_spec hop ctx current (default "" (rs_content resp)) resp s6 w Hctx Hag6) as Hrt.
  destruct (act_bind _ _ s6) as [s7 r]. destruct Hrt as (He7 & ? & ? & Hq7 & ?).
  { exists (ss_messages s). split; [|done]. rewrite (fr_messages _ _ F0). cbn. by rewrite (fr_messages _ _ F), Hm3. }
  split_and!; [by eapply more_trans|done|done|congruence|done].
Qed.
End Hop.

(** ** The end of a session *)

(** The session ends with one [done] event, followed at most by the extensions. *)
Definition closed (events : list SseEvent) : Prop :=
  ∃ pre agent post, events = pre ++ SseDone agent :: post ∧ Forall (λ e, is_done e = false) pre ∧
    (post = [] ∨ ∃ l, post = [SseExtensions l]).

Lemma closed_app es es' : Forall (λ e, is_done e = false) es → closed es' → closed (es ++ es').
Proof.
  intros He (pre & a & post & -> & Hpre & Hpost). exists (es ++ pre), a, post. rewrite <-app_assoc.
  split_and!; [done|by apply Forall_app|done].
Qed.

(** Events up to the end, after events without an end. *)
Lemma closed_more {W} (s s1 s' : Session W) :
  more_events s s1 → (∃ es, ss_events s' = ss_events s1 ++ es ∧ closed es) →
  ∃ es, ss_events s' = ss_events s ++ es ∧ closed es.
Proof.
  intros (es & He & Hes) (es' & He' & Hc). exists (es ++ es'). rewrite He', He, <-app_assoc. split; [done|]. by apply closed_app.
Qed.

Section End.
Context {W : Type} (rt : Runtime W) (q : Request) (first : Z).

(** Everything but the last events is framed. *)
Record ended (s s' : Session W) : Prop := {
  en_events : ∃ es, ss_events s' = ss_events s ++ es ∧ closed es;
  en_visited : ss_visited s' = ss_visited s;
  en_requests : ss_requests s' = ss_requests s
}.

Lemma ended_after s s1 s' : frame s s1 → ended s1 s' → ended s s'.
Proof.
  intros [He _ Hv Hq] [Hc Hv' Hq']. split; [by eapply closed_more|congruence..].
Qed.

Lemma finalize_ended content agent last s : ended s (finalize rt q content agent last s).1.
Proof.
  unfold finalize.
  unfold run_hooks_at. do 2 step_frame. match goal with |- context [act_bind (if ?b then _ else _)] => destruct b end.
  all: step_frame; apply ended_after with s2; [by do 2 (etrans; [eassumption|])|]; clear.
  all: match goal with |- context [act_bind (match ?e with Some _ => _ | None => _ end)] => destruct e as [l|] end.
  all: split; [|done..]; eexists; split; [cbn; rewrite <-?app_assoc; done|].
  all: exists [], (if (agent =? 1)%Z then None else Some agent); eexists; split_and!; [done|done|eauto].
Qed.

Lemma finalize_then content agent last s :
  let '(s', r) := (act_bind (finalize rt q content agent last) (λ saved, act_ret (Some saved))) s in
  ended s s' ∧ is_Some r.
Proof.
  unfold act_bind. pose proof (finalize_ended content agent last s) as H.
  destruct (finalize _ _ _ _ _ s) as [s1 b]. by split; [|eexists].
Qed.

Lemma session_end_ended starting last content agent s :
  let '(s', r) := session_end rt q starting last content agent s in ended s s' ∧ is_Some r.
Proof.
  unfold session_end. step_frame. pose proof (finalize_then content (default starting agent) last s0) as H.
  destruct (act_bind _ _ s0) as [s1 r]. destruct H as [H Hr]. split; [by apply ended_after with s0|done].
Qed.

(** What [n] more hops guarantee. *)
Definition session_ok (n hop : nat) (s : Session W) (out : Session W * option bool) : Prop :=
  let '(s', r) := out in
  NoDup (ss_visited s') ∧ tree rt first (ss_visited s') ∧
  (∃ reqs, ss_requests s' = ss_requests s ++ reqs ∧ length reqs ≤ n ∧ Forall (λ r, paired (rq_messages r)) reqs) ∧
  match r with
  | Some _ => ∃ es, ss_events s' = ss_events s ++ es ∧ closed es
  | None => more_events s s' ∧ ∃ k, hop ≤ k < hop + n ∧ rt_cancelled rt k = true
  end.

(** The session has ended after a hop that sent the requests of [s1]. *)
Lemma session_ok_ended n hop s s1 s' r reqs :
  NoDup (ss_visited s1) → tree rt first (ss_visited s1) → more_events s s1 →
  ss_requests s1 = ss_requests s ++ reqs → length reqs ≤ n → Forall (λ r, paired (rq_messages r)) reqs →
  ended s1 s' ∧ is_Some r → session_ok n hop s (s', r).
Proof.
  intros Hnd Ht He Hq Hl Hp [[Hc Hv' Hq'] [b ->]].
  split_and!; [by rewrite Hv'..| |]; [by exists reqs; rewrite Hq'|]. by eapply closed_more.
Qed.

(** A hop, then the hops after it. *)
Lemma session_ok_next n hop s s1 agent out :
  hop_result rt first s (s1, HopNext agent) → session_ok n (S hop) s1 out → session_ok (S n) hop s out.
Proof.
  intros (He & _ & _ & (reqs & Hq & Hl & Hp) & _). destruct out as [s' r].
  intros (Hnd & Ht & (reqs' & Hq' & Hl' & Hp') & Hend). split_and!; [done|done| |].
  - exists (reqs ++ reqs'). rewrite Hq', Hq, <-app_assoc, length_app. split_and!; [done|lia|by apply Forall_app].
  - destruct r as [b|]; [by eapply closed_more|]. destruct Hend as (Hm & k & Hk & ?).
    split; [by eapply more_trans|]. exists k. split; [lia|done].
Qed.

Lemma run_hops_spec n hop starting current last s :
  hop_ok rt first current s → session_ok n hop s (run_hops rt q n hop starting current last s).
Proof.
  revert hop current last s. induction n as [|n IH]; intros hop current last s Hok; cbn [run_hops].
  - pose proof (session_end_ended starting last None None s) as He. destruct (session_end _ _ _ _ _ _ s) as [s' r].
    destruct Hok as [[] _]. apply session_ok_ended with s []; rewrite ?app_nil_r; done || apply more_refl.
  - destruct (rt_cancelled rt hop) eqn:Hc.
    { destruct Hok as [[] _]. split_and!; [done|done|exists []; rewrite app_nil_r; split_and!; [done|cbn; lia|done]|apply more_refl|].
      exists hop. split; [lia|done]. }
    step_frame. destruct (rt_agent rt current a) as [ctx|e] eqn:Hctx.
    2:{ step_frame. pose proof (session_end_ended starting last None None s1) as He.
        destruct (session_end _ _ _ _ _ _ s1) as [s' r]. assert (frame s s1) as [Hev _ Hv Hq] by by etrans. destruct Hok as [[] _].
        apply session_ok_ended with s1 []; rewrite ?app_nil_r, ?Hv; done || (cbn; lia). }
    assert (s0 = s) as -> by (by injection E). clear E F.
    pose proof (run_agent_spec rt q first hop ctx current s a Hctx Hok) as Hr. unfold act_bind at 1.
    destruct (run_agent _ _ _ _ _ s) as [s1 r]. pose proof Hr as (Hev & Hnd & Ht & (reqs & Hq & Hl & Hp) & Hn).
    destruct r as [content agent|content agent|agent].
    + pose proof (session_end_ended starting (Some (ac_hooks ctx, ac_identifier ctx)) content agent s1) as He.
      destruct (session_end _ _ _ _ _ _ s1) as [s' r]. apply session_ok_ended with s1 reqs; done || lia.
    + pose proof (finalize_then (Some content) agent (Some (ac_hooks ctx, ac_identifier ctx)) s1) as He.
      destruct (act_bind _ _ s1) as [s' r]. apply session_ok_ended with s1 reqs; done || lia.
    + eapply session_ok_next; [exact Hr|]. apply IH. by destruct Hn.
Qed.
End End.

(** ** Sessions *)

Lemma chat_message_mute to_string old is_last m : mute (chat_message to_string old is_last m).
Proof.
  unfold chat_message, omitted. destruct (_ && _ && _); [apply role_message_mute|].
  destruct (_ && _ && _); [apply role_message_mute|]. destruct (if is_assistant m then _ else _); apply role_message_mute.
Qed.

Lemma chat_messages_paired to_string history user_content : paired (build_chat_messages to_string history user_content).
Proof.
  apply paired_mutes. unfold build_chat_messages. apply Forall_app. split.
  - apply Forall_lookup. intros i m. rewrite list_lookup_imap. destruct (history !! i); [|done]. intros [= <-]. apply chat_message_mute.
  - case_bool_decide; [done|]. constructor; [apply role_message_mute|done].
Qed.

Lemma run_session_ok {W} (rt : Runtime W) q starting history user_content w :
  ∃ s0, ss_events s0 = [] ∧ ss_requests s0 = [] ∧
    session_ok rt starting (rt_max_hops rt) 0 s0 (run_session rt q starting history user_content w).
Proof.
  unfold run_session. match goal with |- context [run_hops _ _ _ _ _ _ _ ?s] => exists s end. split_and!; [done|done|].
  apply run_hops_spec. split; [|apply chat_messages_paired]. split; cbn; [apply NoDup_singleton| |left].
  split; [done|]. intros i n Hn. by apply lookup_lt_Some in Hn; cbn in Hn; lia.
Qed.

(** C14: The client of a session is told once that it is over: there is exactly one [done] event,
    and after it at most the extensions come; a session that ends without it was cancelled before
    one of its hops. *)
Theorem session_announces {W} (rt : Runtime W) q starting history user_content w :
  let '(s, saved) := run_session rt q starting history user_content w in
  match saved with
  | Some _ => closed (ss_events s)
  | None => Forall (λ e, is_done e = false) (ss_events s) ∧ ∃ hop, hop < rt_max_hops rt ∧ rt_cancelled rt hop = true
  end.
Proof.
  destruct (run_session_ok rt q starting history user_content w) as (s0 & He & _ & H).
  destruct (run_session _ _ _ _ _ _) as [s saved]. destruct H as (_ & _ & _ & H). destruct saved.
  - destruct H as (es & Hes & Hc). by rewrite He in Hes; rewrite Hes.
  - destruct H as ((es & Hes & Hd) & k & Hk & ?). rewrite He in Hes. rewrite Hes. split; [done|]. exists k. split; [lia|done].
Qed.

(** C13: A session calls a model at most once per hop, and in every conversation it sends each tool
    call is answered by a tool message and each tool result belongs to an earlier call. *)
Theorem session_requests {W} (rt : Runtime W) q starting history user_content w :
  let s := (run_session rt q starting history user_content w).1 in
  length (ss_requests s) ≤ rt_max_hops rt ∧ Forall (λ r, paired (rq_messages r)) (ss_requests s).
Proof.
  destruct (run_session_ok rt q starting history user_content w) as (s0 & _ & Hq & H).
  destruct (run_session _ _ _ _ _ _) as [s saved]. destruct H as (_ & _ & (reqs & Hr & Hl & Hp) & _).
  rewrite Hq in Hr. cbn. by rewrite Hr.
Qed.

(** C15: A session enters no agent twice, and only along the tree of agents: it starts with the
    agent it was asked for, and every agent after it is a direct sub-agent of one visited before. *)
Theorem session_agents {W} (rt : Runtime W) q starting history user_content w :
  let s := (run_session rt q starting history user_content w).1 in
  NoDup (ss_visited s) ∧ tree rt starting (ss_visited s).
Proof.
  destruct (run_session_ok rt q starting history user_content w) as (s0 & _ & _ & H).
  destruct (run_session _ _ _ _ _ _) as [s saved]. by destruct H as (Hnd & Ht & _).
Qed.
