(* ===== verification/OrchestratorAuth.v ===== *)
(** * The authority of a chat session

    What a session of [Orchestrator.v] may do on behalf of its agents: plugins and workflows are
    only called under the id and the permissions of an agent of the database, plugins only for a
    tool or function whose required capabilities that agent has, and the agent context is only
    changed by its own guarded operations.  The statements are about invariants of the world and
    the context, so they hold of any log of calls a world may contain.

    At the end the session is put together with the hooks of [HookEngine.v] and the workflows of
    [Executor.v], and run on concrete scripts. *)

From S2P Require Import Prelude RustStr F64 Json Provider Capability Sensitive.
From S2P Require Import InputSpec Workflow Context ContextProps RuntimeCtx Executor ExecutorProps HookEngine.
From S2P Require Import Orchestrator OrchestratorProps.

Local Open Scope stdpp_scope.
Local Open Scope hive_scope.

Section Authority.
Context {W : Type} (rt : Runtime W) (q : Request).

(** An agent as the database has it at some time. *)
Definition known (ctx : AgentContent) : Prop := ∃ id w, rt_agent rt id w = Ok ctx.

Definition permits (ctx : AgentContent) (required : list string) : Prop := Forall (λ c, c ∈ ac_permissions ctx) required.

(** The call of a plugin's export that an agent is entitled to. *)
Inductive authorised : DispatchCtx → string → Prop :=
| by_tool ctx tool pid export :
    known ctx → tool ∈ ac_tools ctx → permits ctx (tr_capabilities tool) →
    tr_plugin_id tool = Some pid → tr_plugin_export tool = Some export →
    authorised (mkDispatch (Some (q_session q)) (ac_id ctx) pid (tr_function_id tool) (ac_permissions ctx)) export
| by_function ctx ident w fid meta caps pid export :
    known ctx → rt_function rt ident w = Some (fid, meta, caps) →
    permits ctx (filter_map as_str (default [] (caps ≫= as_array))) →
    fm_plugin meta = Some pid → fm_export meta = Some export →
    authorised (mkDispatch (Some (q_session q)) (ac_id ctx) pid (Some fid) (ac_permissions ctx)) export.

(** [I] is kept by everything the session uses and by every operation of the context, where
    plugins and workflows need to keep it only when they are called with authority. *)
Record guards (I : W * AgentContext → Prop) : Prop := {
  gu_hooks : ∀ hooks point hc s, I s → I (rt_hooks rt hooks point hc s).1;
  gu_models : ∀ preset chat model req w c, rt_models rt preset = Ok (chat, model) → I (w, c) → I ((chat req w).1.1, c);
  gu_builtin : ∀ name h input s, rt_builtin rt name = Some h → I s → I (h input s).1;
  gu_append : ∀ sid actor text exts w c, I (w, c) → I ((rt_append rt sid actor text exts w).1, c);
  gu_workflow : ∀ ctx wid input s, known ctx → I s → I (rt_workflow rt (ac_permissions ctx) wid input (ac_id ctx) s).1;
  gu_plugin : ∀ dc export input w c, authorised dc export → I (w, c) → I ((rt_plugin rt dc export input w).1, c);
  gu_write : ∀ w c o, I (w, c) → I (w, apply_op c o)
}.

Context (I : W * AgentContext → Prop) (HI : guards I).

(** ** Tools *)

Lemma missing_permits ctx required : missing_capabilities ctx required = [] → permits ctx required.
Proof.
  unfold missing_capabilities, permits. induction required as [|c l IH]; cbn; [constructor|].
  case_bool_decide; cbn; [|done]. intros H'. constructor; auto.
Qed.

Lemma apply_result_keeps s out : I s → I (apply_result rt s out).
Proof.
  destruct s as [w c]. intros H. apply (updates_ind (λ c, I (w, c))); [|done]. intros c' o _. apply (gu_write I HI).
Qed.
Hint Resolve apply_result_keeps : core.

Lemma call_builtin_keeps name input s : I s → I (call_builtin rt name input s).1.
Proof.
  intros H. unfold call_builtin. destruct (rt_builtin rt name) as [h|] eqn:E; [|done].
  pose proof (gu_builtin I HI name h input s E H) as Hk. destruct (h input s) as [? []]; cbn; auto.
Qed.

Lemma call_workflow_keeps ctx wid input s : known ctx → I s → I (call_workflow_tool rt ctx wid input s).1.
Proof.
  intros Hctx H. unfold call_workflow_tool. pose proof (gu_workflow I HI ctx wid input s Hctx H) as Hk.
  destruct (rt_workflow _ _ _ _ _ _) as [? []]; cbn; auto.
Qed.

Lemma call_plugin_keeps updates ctx pid export fid input s :
  (∀ p e, pid = Some p → export = Some e →
     authorised (mkDispatch (Some (q_session q)) (ac_id ctx) p fid (ac_permissions ctx)) e) →
  I s → I (call_plugin_tool rt updates ctx (q_session q) pid export fid input s).1.
Proof.
  intros Ha H. unfold call_plugin_tool. destruct pid as [p|], export as [e|]; try done.
  destruct s as [w c]. pose proof (gu_plugin I HI _ e (rt_to_string rt input) w c (Ha p e eq_refl eq_refl) H) as Hk. cbn.
  destruct (rt_plugin _ _ _ _ _) as [? []]; [destruct updates; cbn; auto|done].
Qed.

Lemma invoke_function_keeps ctx tc s : known ctx → I s → I (invoke_function rt ctx tc (q_session q) s).1.
Proof.
  intros Hctx H. unfold invoke_function. destruct (_ ≫= as_str) as [ident|]; [|done]. destruct (map_get _ _) as [input|]; [|done].
  destruct (rt_function rt ident s.1) as [[[fid meta] caps]|] eqn:Ef; [|done].
  case_bool_decide as Hm; [|done]. cbn [negb]. destruct (_ && _); [by apply call_builtin_keeps|].
  destruct (_ || _); [|done]. apply call_plugin_keeps; [|done]. intros p e Hp He.
  eapply by_function; [done|exact Ef|by apply missing_permits|done|done].
Qed.

Lemma invoke_workflow_keeps ctx tc s : known ctx → I s → I (invoke_workflow rt ctx tc s).1.
Proof.
  intros Hctx H. unfold invoke_workflow. destruct (_ ≫= as_str); [|done]. destruct (map_get _ _); [|done].
  destruct (rt_workflow_id _ _ _); [by apply call_workflow_keeps|done].
Qed.

Lemma workspace_keeps ctx tool tc s :
  known ctx → tool ∈ ac_tools ctx → I s → I (handle_workspace_tool rt ctx tool tc (q_session q) s).1.
Proof.
  intros Hctx Htool H. unfold handle_workspace_tool. case_bool_decide as Hm; [|done]. cbn [negb]. destruct (_ =? 1)%Z.
  - destruct (tr_meta tool).
    { unfold handle_meta_tool. destruct (String.eqb _ _); [by apply invoke_function_keeps|].
      destruct (String.eqb _ _); [by apply invoke_workflow_keeps|done]. }
    destruct (tr_builtin tool); [by destruct (tr_function_id tool); [apply call_builtin_keeps|]|].
    apply call_plugin_keeps; [|done]. intros p e Hp He. eapply by_tool; [done|done|by apply missing_permits|done|done].
  - destruct (_ =? 2)%Z; [|done]. destruct (tr_workflow_id tool); [by apply call_workflow_keeps|done].
Qed.

(** ** Actions *)

Definition keeps {A} (m : act W A) : Prop := ∀ s, I (ss_state s) → I (ss_state (m s).1).

Lemma keeps_bind {A B} (m : act W A) (f : A → act W B) : keeps m → (∀ a, keeps (f a)) → keeps (act_bind m f).
Proof. intros Hm Hf s Hs. unfold act_bind. specialize (Hm s Hs). destruct (m s) as [s' a]. by apply Hf. Qed.

Lemma keeps_on_state {A} (f : W * AgentContext → W * AgentContext * A) : (∀ st, I st → I (f st).1) → keeps (on_state f).
Proof. intros Hf s Hs. unfold on_state. specialize (Hf _ Hs). by destruct (f (ss_state s)) as [st a]. Qed.

(** A write that is one of the operations of a context. *)
Lemma keeps_write f o : (∀ c, attempt_write c (f c) = apply_op c o) → keeps (on_context f).
Proof. intros Hf. apply keeps_on_state. intros [w c] H. cbn. rewrite Hf. by apply (gu_write I HI). Qed.

Lemma keeps_state_kept {A} (m : act W A) : (∀ s, ss_state (m s).1 = ss_state s) → keeps m.
Proof. intros Hm s Hs. by rewrite Hm. Qed.
End Authority.

Create HintDb keeps.
#[export] Hint Resolve keeps_bind : keeps.
#[export] Hint Extern 1 (keeps _ (act_ret _)) => by apply keeps_state_kept : keeps.
#[export] Hint Extern 1 (keeps _ (gets _)) => by apply keeps_state_kept : keeps.
#[export] Hint Extern 1 (keeps _ (emit _)) => by apply keeps_state_kept : keeps.
#[export] Hint Extern 1 (keeps _ (record_audit_entry _)) => by apply keeps_state_kept : keeps.
#[export] Hint Extern 1 (keeps _ (push_message _)) => by apply keeps_state_kept : keeps.
#[export] Hint Extern 1 (keeps _ (push_visited _)) => by apply keeps_state_kept : keeps.
#[export] Hint Extern 1 (keeps _ (note_request _)) => by apply keeps_state_kept : keeps.
#[export] Hint Extern 2 (keeps _ ?m) => match m with match ?x with _ => _ end => destruct x end : keeps.

Section Sessions.
Context {W : Type} (rt : Runtime W) (q : Request) (I : W * AgentContext → Prop) (HI : guards rt q I).

Hint Extern 1 (keeps _ (on_context (λ c, set_response_payload c ?p))) =>
  by apply (keeps_write rt q I HI _ (0%Z, OpResponse p)) : keeps.
Hint Extern 1 (keeps _ (on_context (λ c, set_lifecycle_state c ?l))) =>
  by apply (keeps_write rt q I HI _ (0%Z, OpLifecycle l)) : keeps.
Hint Extern 1 (keeps _ (on_context (λ c, record_audit c ?r))) =>
  by apply (keeps_write rt q I HI _ (0%Z, OpAudit r)) : keeps.
Hint Extern 1 (keeps _ (on_context (λ c, set_record ?now c ?cat ?k ?v ?src ?hop))) =>
  by apply (keeps_write rt q I HI _ (now, OpSet cat k v src hop)) : keeps.

Lemma keeps_hooks agent ident hooks point : keeps I (run_hooks_at rt q agent ident hooks point).
Proof. apply keeps_on_state. intros st. apply (gu_hooks rt q I HI). Qed.
Hint Resolve keeps_hooks : keeps.

Lemma keeps_record cat key value source hop : keeps I (set_context_record rt cat key value source hop).
Proof. unfold set_context_record, now_. eauto with keeps. Qed.
Hint Resolve keeps_record : keeps.

Lemma keeps_tool ctx tc : known rt ctx → keeps I (execute_tool rt q ctx tc).
Proof.
  intros Hctx. unfold execute_tool. destruct (String.eqb _ _); [auto with keeps|].
  destruct (find_first _ _) as [tool|] eqn:E; [|auto with keeps]. apply find_first_Some in E as [Hin _].
  apply keeps_on_state. intros st. by apply (workspace_keeps rt q I HI).
Qed.
Hint Resolve keeps_tool : keeps.

Lemma keeps_route hop current content next ident : keeps I (route_result rt hop current content next ident).
Proof. unfold route_result, audit_route, now_. eauto 20 with keeps. Qed.
Hint Resolve keeps_route : keeps.

Lemma keeps_calls hop ctx current content tcs routed :
  known rt ctx → keeps I (run_calls rt q hop ctx current content tcs routed).
Proof.
  intros Hctx. revert routed. induction tcs as [|tc tcs IH]; intros routed; cbn [run_calls]; [auto with keeps|].
  unfold agent_hooks, now_. eauto 30 with keeps.
Qed.
Hint Resolve keeps_calls : keeps.

Lemma keeps_model preset chat model req :
  rt_models rt preset = Ok (chat, model) → keeps I (call_model chat req).
Proof.
  intros Hm. unfold call_model. apply keeps_bind; [auto with keeps|]. intros _. apply keeps_bind.
  - apply keeps_on_state. intros [w c] Hs. pose proof (gu_models rt q I HI preset chat model req w c Hm Hs) as Hk. cbn.
    by destruct (chat req w) as [[w' resp] deltas].
  - intros [resp deltas]. apply keeps_bind; [by apply keeps_state_kept|auto with keeps].
Qed.

Lemma keeps_after_calls hop current content routed : keeps I (after_calls rt hop current content routed).
Proof. unfold after_calls. eauto 20 with keeps. Qed.
Hint Resolve keeps_after_calls : keeps.

Lemma keeps_agent hop ctx current : known rt ctx → keeps I (run_agent rt q hop ctx current).
Proof.
  intros Hctx. unfold run_agent, agent_hooks, audit_llm. apply keeps_bind; [auto with keeps|]. intros [[]|e]; [|auto with keeps].
  destruct (rt_models rt (ac_preset ctx)) as [[chat model]|e] eqn:Hm; [|auto with keeps].
  apply keeps_bind; [auto with keeps|]. intros messages. apply keeps_bind; [auto with keeps|]. intros [[]|e]; [|auto with keeps].
  apply keeps_bind; [by eapply keeps_model|]. eauto 30 with keeps.
Qed.
Hint Resolve keeps_agent : keeps.

Lemma keeps_finalize content agent last : keeps I (finalize rt q content agent last).
Proof.
  unfold finalize. apply keeps_bind; [eauto with keeps|]. intros _. apply keeps_bind; [eauto with keeps|]. intros c.
  apply keeps_bind; [|eauto 10 with keeps]. destruct (_ && _); [auto with keeps|]. apply keeps_on_state. intros [w c'] Hs. cbn.
  match goal with |- context [rt_append rt ?a ?b ?t ?e w] =>
    pose proof (gu_append rt q I HI a b t e w c' Hs) as Hk; by destruct (rt_append rt a b t e w) end.
Qed.
Hint Resolve keeps_finalize : keeps.

Lemma keeps_end starting last content agent : keeps I (session_end rt q starting last content agent).
Proof. unfold session_end. eauto 10 with keeps. Qed.
Hint Resolve keeps_end : keeps.

Lemma keeps_hops n hop starting current last : keeps I (run_hops rt q n hop starting current last).
Proof.
  revert hop current last. induction n as [|n IH]; intros hop current last; cbn [run_hops]; [auto with keeps|].
  destruct (rt_cancelled rt hop); [auto with keeps|]. apply keeps_bind; [auto with keeps|]. intros w.
  destruct (rt_agent rt current w) as [ctx|e] eqn:Hctx; [|eauto with keeps].
  assert (known rt ctx) by (by exists current, w). eauto 10 with keeps.
Qed.

Lemma session_keeps starting history user_content w :
  (∀ c, I (w, c)) ∨ I (w, initial_context q starting user_content (rt_clock rt w)) →
  I (ss_state (run_session rt q starting history user_content w).1).
Proof.
  intros Hw. unfold run_session. apply keeps_hops. apply (gu_write rt q I HI _ _ (0%Z, OpMessages _)). destruct Hw; auto.
Qed.
End Sessions.


(** ** The whole runtime

    A session whose hooks are those of [HookEngine.v] and whose workflows, from tools and from
    hooks, are executed by [Executor.v], over the same functions, plugins and models. *)

Section Whole.
Context {W : Type}.
Variables (rt : Runtime W) (set_order : gset string → list string) (spec_text : SpecError → string).
Variables (function_meta : Z → result (option FunctionRuntimeMeta) string) (resolve_config : option string → Z * f32)
          (cut : nat → option nat) (fuel : nat) (query_error : nat → option string) (db : Db)
          (error_text : WorkflowError → string).
Variables (permissions : Z → list string) (rfc3339 : Z → string)
          (post : string → list (string * string) → json → W → W * option Z) (status_text : Z → string)
          (header_name : string → bool) (expired : AgentHook → W * AgentContext → option (W * AgentContext)).

(** Answer nodes call the model without listening to its tokens. *)
Definition node_models (preset : option string) : result ((W → ChatRequest → W * LLMResponse) * string) string :=
  let? (chat, model) := rt_models rt preset in Ok (λ w req, (chat req w).1, model).

Definition whole_workflow (perms : list string) (id : Z) (input : json) (agent : Z) (s : W * AgentContext)
    : W * AgentContext * result json string :=
  workflow_value error_text s
    (execute (rt_str_order rt) (rt_ext_order rt) set_order (rt_to_string rt) (rt_from_str rt) spec_text function_meta
       (rt_builtin rt) (rt_plugin rt) node_models resolve_config (rt_clock rt) cut fuel query_error db id input agent perms s).

Definition whole_hooks (hooks : gmap string (list AgentHook)) (point : string) (hc : HookContext) (s : W * AgentContext)
    : W * AgentContext * result unit HookError :=
  let r := run_hooks (rt_str_order rt) (rt_ext_order rt) (rt_to_string rt) (rt_from_str rt) (rt_clock rt) rfc3339
             function_meta (rt_builtin rt) permissions (rt_plugin rt) whole_workflow post status_text header_name expired
             hooks point hc s in
  (hr_state r, hr_result r).

Definition whole_runtime : Runtime W := {|
  rt_agent := rt_agent rt; rt_hooks := whole_hooks; rt_models := rt_models rt; rt_builtin := rt_builtin rt;
  rt_plugin := rt_plugin rt; rt_workflow := whole_workflow; rt_function := rt_function rt;
  rt_workflow_id := rt_workflow_id rt; rt_append := rt_append rt; rt_filter := rt_filter rt; rt_lower := rt_lower rt;
  rt_clock := rt_clock rt; rt_to_string := rt_to_string rt; rt_from_str := rt_from_str rt;
  rt_str_order := rt_str_order rt; rt_ext_order := rt_ext_order rt; rt_cancelled := rt_cancelled rt;
  rt_max_hops := rt_max_hops rt
|}.

(** C11: Over a whole session, with its hooks, tools, sub-agents, workflows and their nodes, whatever
    is true of the new agent context and kept by the context's own guarded operations and by the
    builtin functions is true at the end: no plugin, model, web hook or output of a tool can break
    it.  In particular no credential is ever stored. *)
Theorem session_context (P : AgentContext → Prop) q starting history user_content w :
  (∀ c o, P c → P (apply_op c o)) →
  (∀ name h input s, rt_builtin rt name = Some h → P s.2 → P (h input s).1.2) →
  (∀ h s s', expired h s = Some s' → P s.2 → P s'.2) →
  P (initial_context q starting user_content (rt_clock rt w)) →
  P (ss_state (run_session whole_runtime q starting history user_content w).1).2.
Proof.
  intros Hop Hb He Hinit.
  assert (∀ perms id input agent s, P s.2 → P (whole_workflow perms id input agent s).1.2) as Hw.
  { intros perms id input agent s Hs. unfold whole_workflow, workflow_value.
    match goal with |- context [execute ?a1 ?a2 ?a3 ?a4 ?a5 ?a6 ?a7 ?a8 ?a9 ?b1 ?b2 ?b3 ?b4 ?b5 ?b6 ?b7 ?b8 ?b9 ?c1 ?c2 ?c3] =>
      destruct (execute a1 a2 a3 a4 a5 a6 a7 a8 a9 b1 b2 b3 b4 b5 b6 b7 b8 b9 c1 c2 c3) as [[s2 [o|e]]| |] eqn:E end;
      [| |done..]; eapply execute_preserves in E; eauto. }
  apply (session_keeps whole_runtime q (λ s, P s.2)); [|by right]. split; cbn; [|done| |done| |done|].
  - intros hooks point hc s Hs. apply run_hooks_preserves; auto.
  - intros name h input s E Hs. by eapply Hb.
  - intros ctx wid input s _ Hs. by apply Hw.
  - intros _ c o. apply Hop.
Qed.
End Whole.

(** ** A concrete surrounding

    Two agents: agent 7 may use the network and has a plugin tool that needs it, a plugin tool
    that needs the file system, and agent 8 as its child.  The model answers from a script. *)

Record World := mkWorld {
  w_script : list LLMResponse;
  w_plugins : list (DispatchCtx * string);
  w_saved : list string
}.

Definition net_tool : ToolRef :=
  mkToolRef "lookup" "" 1 (Some 40%Z) None None (JObj []) (Some 5%Z) (Some "run") false false ["http.request"].
Definition disk_tool : ToolRef :=
  mkToolRef "wipe" "" 1 (Some 41%Z) None None (JObj []) (Some 5%Z) (Some "wipe") false false ["db.exec"].
Definition main_agent : AgentContent :=
  mkAgent 7 "main" "You help." None [net_tool; disk_tool] ["http.request"]
    [mkChild 8 "billing" None; mkChild 9 "support" None] ∅.
Definition sub_agent (id : Z) : AgentContent := mkAgent id "sub" "You help." None [] [] [] ∅.

Definition blank_response (content : option string) (calls : list ToolCallRequest) (reason : string) : LLMResponse :=
  mkResponse content calls reason [] None None None None None None None None None.

Definition demo (max_hops : nat) : Runtime World := {|
  rt_agent id _ := Ok (if (id =? 7)%Z then main_agent else sub_agent id);
  rt_hooks _ _ _ s := (s, Ok tt);
  rt_models _ := Ok (λ _ w,
    match w_script w with
    | r :: rest => (mkWorld rest (w_plugins w) (w_saved w), r, [])
    | [] => (w, blank_response (Some "end") [] "stop", [])
    end, "model");
  rt_builtin _ := None;
  rt_plugin dc export _ w := (mkWorld (w_script w) (w_plugins w ++ [(dc, export)]) (w_saved w), Ok "found");
  rt_workflow _ _ _ _ s := (s, Err "none");
  rt_function _ _ := None;
  rt_workflow_id _ _ := None;
  rt_append _ _ text _ w := (mkWorld (w_script w) (w_plugins w) (w_saved w ++ [text]), true);
  rt_filter := Sensitive.mkFilter [PExact 1 "secret"] (Some (λ s, contains_str s "secret")) [(1%Z, "secret")];
  rt_lower s := s;
  rt_clock _ := 0%Z;
  rt_to_string _ := "";
  rt_from_str _ := None;
  rt_str_order := map_to_list;
  rt_ext_order := map_to_list;
  rt_cancelled _ := false;
  rt_max_hops := max_hops
|}.

Definition demo_request : Request := mkChatRequest 1 2 "hi" "web" "pc" "1.0".

Definition call_to (id name : string) (args : list (string * json)) : ToolCallRequest :=
  mkToolCall id name args None None None.

Definition run_demo (max_hops : nat) (script : list LLMResponse) : Session World * option bool :=
  run_session (demo max_hops) demo_request 7 [] "hi" (mkWorld script [] []).

(** One of the two tools may run; the other is refused. *)
Definition two_tools : list LLMResponse :=
  [blank_response None [call_to "a" "lookup" []; call_to "b" "wipe" []] "tool_calls";
   blank_response (Some "done") [] "stop"].

Example two_tools_run :
  let '(s, saved) := run_demo 5 two_tools in
  (ss_state s).1 = mkWorld [] [(mkDispatch (Some 1%Z) 7 5 (Some 40%Z) ["http.request"], "run")] ["done"] ∧
  length (ss_requests s) = 2 ∧ saved = Some true.
Proof. vm_compute. done. Qed.

Lemma two_tools_guards :
  guards (demo 5) demo_request (λ s, Forall (λ c, authorised (demo 5) demo_request c.1 c.2) (w_plugins s.1)).
Proof.
  split; try done.
  - intros preset chat model req w c [= <- _]. by destruct (w_script w).
  - intros dc export input w c Ha Hw. apply Forall_app. split; [done|]. by constructor.
Qed.


Lemma session_context_witness :
  no_secrets (ss_state (run_session (whole_runtime (demo 5) elements (λ _, "") (λ _, Ok None) (λ _, (2048%Z, S754_zero false))
    (λ _, None) 5 (λ _, None) (mkDb ∅ [] [] ∅ [] [] 1 1 1) (λ _, "") (λ _, []) (λ _, "") (λ _ _ _ w, (w, None)) (λ _, "") (λ _, true) (λ _ _, None))
    demo_request 7 [] "hi" (mkWorld two_tools [] [])).1).2.
Proof.
  refine (session_context (demo 5) _ _ _ _ _ _ _ _ _ _ _ _ _ _ _ no_secrets _ _ _ _ _ _ _ _ _).
  - intros c o. apply apply_op_no_secrets.
  - done.
  - done.
  - apply init_no_secrets.
Defined.

(** A model that fails leaves an empty message of the assistant behind. *)
Example failure_saves_empty :
  let '(s, saved) := run_demo 5 [blank_response None [] "error"] in
  w_saved (ss_state s).1 = [""] ∧ saved = Some true ∧ ss_events s = [SseError 5000 "LLM error"; SseDone (Some 7%Z)].
Proof. vm_compute. done. Qed.

Definition route_call (id target : string) : ToolCallRequest :=
  call_to id ROUTE_TOOL_NAME [("agent_identifier", JStr target)].

(** A hop limit that is reached by routing ends the session without an error for the client, with
    an empty message saved and in the name of the first agent; and of two routes in one hop both
    agents count as visited. *)
Example last_route_silent :
  let '(s, saved) := run_demo 1 [blank_response None [route_call "a" "billing"; route_call "b" "support"] "tool_calls"] in
  w_saved (ss_state s).1 = [""] ∧ saved = Some true ∧ ss_visited s = [7; 8; 9]%Z ∧
  Forall (λ e, match e with SseError _ _ => False | _ => True end) (ss_events s) ∧
  last (ss_events s) = Some (SseDone (Some 7%Z)).
Proof. vm_compute. split_and!; try done. repeat constructor. Qed.

(** An answer that comes with tool calls on the last hop is saved as it is, though the same answer
    without them would be replaced. *)
Example last_hop_unfiltered :
  w_saved (ss_state (run_demo 1 [blank_response (Some "secret") [call_to "a" "lookup" []] "tool_calls"]).1).1 = ["secret"] ∧
  w_saved (ss_state (run_demo 1 [blank_response (Some "secret") [] "stop"]).1).1 = [FILTERED_TEXT].
Proof. vm_compute. done. Qed.

(** An agent that was visited is refused as a tool result; the session goes on, and the event of
    the loop detection is not sent. *)
Example revisit_goes_on :
  let '(s, saved) := run_demo 3 [blank_response None [route_call "a" "billing"; route_call "b" "billing"] "tool_calls"] in
  ss_visited s = [7; 8]%Z ∧ w_saved (ss_state s).1 = ["end"] ∧
  Forall (λ e, match e with SseError _ _ => False | _ => True end) (ss_events s).
Proof. vm_compute. split_and!; try done. repeat constructor. Qed.
