(* ===== verification/Skills.v ===== *)
(** * Skills

    [crates/agent/src/skills.rs]: the skills of the workspace and the embedded ones, their front
    matter, their requirements, and the texts that go into the prompt.  The file system is seen
    through what the loader asks of it; YAML is parsed by the crate [serde_yaml]. *)

From S2P Require Import Prelude RustStr F64 Json ToolSchema.

Local Open Scope stdpp_scope.
Local Open Scope hive_scope.

(** [serde_yaml::Value]. *)
#[warnings="-register-all"] Inductive yaml : Type :=
| YNull
| YBool (b : bool)
| YInt (z : Z)
| YFloat (x : f64)
| YStr (s : string)
| YSeq (l : list yaml)
| YMap (m : list (yaml * yaml))
| YTagged (v : yaml).

Inductive SkillSource := Workspace | Builtin.

Record SkillEntry := mkSkill { sk_name : string; sk_path : string; sk_source : SkillSource }.

Definition source_str (s : SkillSource) : string := match s with Workspace => "workspace" | Builtin => "builtin" end.

(** ** Front matter *)

(** What follows [\r?\n---] at its first place, with the text before it. *)
Fixpoint find_fence (s : string) : option (string * string) :=
  match s with
  | "" => None
  | String c s' =>
      match strip_prefix (String cr (String nl "---")) s with
      | Some rest => Some ("", rest)
      | None =>
          match strip_prefix (String nl "---") s with
          | Some rest => Some ("", rest)
          | None => '(body, rest) ← find_fence s'; Some (String c body, rest)
          end
      end
  end.

(** The places after a line feed among the first [n] bytes, the last one first. *)
Fixpoint after_newlines (n : nat) (s : string) : list string :=
  match n with
  | O => []
  | S k => (match String.get k s with Some c => if Ascii.eqb c nl then [sdrop n s] else [] | None => [] end)
           ++ after_newlines k s
  end.

(** The match of [(?s)^---\s*\r?\n(.*?)\r?\n---\s*\r?\n?]: its group and what follows it. *)
Definition frontmatter (content : string) : option (string * string) :=
  s ← strip_prefix "---" content;
  let blank := String.length s - String.length (trim_start s) in
  '(body, rest) ← head (filter_map find_fence (after_newlines blank s));
  Some (body, trim_start rest).

Definition strip_frontmatter (content : string) : string :=
  if negb (starts_with content "---") then content
  else match frontmatter content with Some (_, rest) => trim rest | None => content end.

(** *** Metadata *)

Definition is_truthy (v : json) : bool :=
  match v with
  | JNull => false
  | JBool b => b
  | JInt z => negb (z =? 0)%Z
  | JFloat x => negb (SFeqb x (S754_zero false))
  | JStr s => negb (is_empty s)
  | JArr l => negb (bool_decide (l = []))
  | JObj m => negb (bool_decide (m = []))
  end.

Definition object_map (m : list (string * json)) : gmap string json := list_to_map m.

Section Skills.
Variables (yaml_parse : string → option yaml) (yaml_print : yaml → string) (from_str : string → option json).

Fixpoint yaml_to_json (v : yaml) : json :=
  match v with
  | YNull => JNull
  | YBool b => JBool b
  | YInt z => JInt z
  | YFloat x => if f64_is_finite x then JFloat x else JNull
  | YStr s => JStr s
  | YSeq l => JArr (yaml_to_json <$> l)
  | YMap m =>
      JObj (foldl (λ out kv, map_insert (trim (match kv.1 with YStr s => s | other => yaml_print other end))
                               (yaml_to_json kv.2) out) [] m)
  | YTagged v => yaml_to_json v
  end.

(** The mapping of the front matter; a key that is no string makes it unusable. *)
Fixpoint metadata_map (m : list (yaml * yaml)) (out : gmap string json) : option (gmap string json) :=
  match m with
  | [] => Some out
  | (YStr k, v) :: m => metadata_map m (<[k := yaml_to_json v]> out)
  | _ :: _ => None
  end.

Definition parse_nanobot_metadata (raw : option json) : gmap string json :=
  let data :=
    match raw with
    | Some (JObj m) => Some m
    | Some (JStr s) => match from_str s with Some (JObj m) => Some m | _ => None end
    | _ => None
    end in
  match data with
  | None => ∅
  | Some m =>
      match (match map_get "nanobot" m with Some v => Some v | None => map_get "openclaw" m end) with
      | Some (JObj m) => object_map m
      | _ => ∅
      end
  end.

(** ** The loader *)

(** What the loader sees: directories with their sub-directories, files, the embedded tree
    (a file may be no text), the executables on the path and the environment. *)
Record SkillFs := mkSkillFs {
  sf_subdirs : string → option (list string);
  sf_exists : string → bool;
  sf_text : string → option string;
  sf_names : list string;
  sf_embedded : string → option (option string);
  sf_which : string → bool;
  sf_env : string → option string
}.

Record SkillsLoader := mkLoader {
  workspace_skills : string;
  disabled_skills : gset string;
  builtin_skills_override : option string
}.

Variables (fs : SkillFs) (ld : SkillsLoader).

Definition skill_md (dir : string) : string := dir +:+ "/SKILL.md".

Definition fs_entries (base : string) (source : SkillSource) (skip : list string) : list SkillEntry :=
  filter_map (λ name,
    let path := skill_md (base +:+ "/" +:+ name) in
    if sf_exists fs path && negb (bool_decide (name ∈ skip)) then Some (mkSkill name path source) else None)
    (default [] (sf_subdirs fs base)).

Definition builtin_entries (skip : list string) : list SkillEntry :=
  match builtin_skills_override ld with
  | Some dir => fs_entries dir Builtin skip
  | None =>
      filter_map (λ name,
        if bool_decide (name ∈ skip) then None
        else match sf_embedded fs (skill_md name) with
             | Some _ => Some (mkSkill name ("<builtin>/" +:+ skill_md name) Builtin)
             | None => None
             end) (sf_names fs)
  end.

Definition load_skill (name : string) : option string :=
  let workspace_path := skill_md (workspace_skills ld +:+ "/" +:+ name) in
  if sf_exists fs workspace_path then sf_text fs workspace_path
  else
    match builtin_skills_override ld with
    | Some dir => let path := skill_md (dir +:+ "/" +:+ name) in if sf_exists fs path then sf_text fs path else None
    | None => mjoin (sf_embedded fs (skill_md name))
    end.

Definition skill_metadata (name : string) : option (gmap string json) :=
  content ← load_skill name;
  if negb (starts_with content "---") then None
  else
    '(body, _) ← frontmatter content;
    match yaml_parse body with Some (YMap m) => metadata_map m ∅ | _ => None end.

Definition skill_meta (name : string) : gmap string json :=
  parse_nanobot_metadata (default ∅ (skill_metadata name) !! "metadata").

Definition skill_description (name : string) : option string :=
  meta ← skill_metadata name; meta !! "description" ≫= as_str.

(** The strings of a list under [requires]. *)
Definition required (k : string) (m : list (string * json)) : list string :=
  filter_map as_str (default [] (map_get k m ≫= as_array)).

Definition env_set (e : string) : bool := match sf_env fs e with Some v => negb (is_empty v) | None => false end.

Definition check_requirements (meta : gmap string json) : bool :=
  match meta !! "requires" with
  | Some (JObj m) => forallb (sf_which fs) (required "bins" m) && forallb env_set (required "env" m)
  | _ => true
  end.

Definition missing_requirements (meta : gmap string json) : string :=
  match meta !! "requires" with
  | Some (JObj m) =>
      join ", " (((λ b, "CLI: " +:+ b) <$> retain (λ b, negb (sf_which fs b)) (required "bins" m))
                 ++ ((λ e, "ENV: " +:+ e) <$> retain (λ e, negb (env_set e)) (required "env" m)))
  | _ => ""
  end.

Definition list_skills (filter_unavailable : bool) : list SkillEntry :=
  let entries := fs_entries (workspace_skills ld) Workspace [] in
  let entries := entries ++ builtin_entries (sk_name <$> entries) in
  let entries := retain (λ e, negb (bool_decide (sk_name e ∈ disabled_skills ld))) entries in
  if filter_unavailable then retain (λ e, check_requirements (skill_meta (sk_name e))) entries else entries.

Definition load_skills_for_context (names : list string) : string :=
  join (String nl (String nl "---" +:+ String nl (String nl "")))
    (filter_map (λ n, markdown ← load_skill n;
                      Some ("### Skill: " +:+ n +:+ String nl (String nl (strip_frontmatter markdown)))) names).

Definition summary_line (e : SkillEntry) : string :=
  let meta := skill_meta (sk_name e) in
  let desc := default (sk_name e) (skill_description (sk_name e)) in
  let suffix := if check_requirements meta then ""
                else let missing := missing_requirements meta in
                     if is_empty missing then " (unavailable)" else " (unavailable: " +:+ missing +:+ ")" in
  "- **" +:+ sk_name e +:+ "** — " +:+ desc +:+ suffix +:+ "  `" +:+ sk_path e +:+ "`".

Definition build_skills_summary (exclude : list string) : string :=
  join (String nl "") (summary_line <$> retain (λ e, negb (bool_decide (sk_name e ∈ exclude))) (list_skills false)).

Definition get_always_skills : list string :=
  sk_name <$> retain (λ e,
    let meta := default ∅ (skill_metadata (sk_name e)) in
    match parse_nanobot_metadata (meta !! "metadata") !! "always" with Some v => is_truthy v | None => false end
    || match meta !! "always" with Some v => is_truthy v | None => false end) (list_skills true).
End Skills.

(** ** Front matter is found where it was written *)

Lemma strip_prefix_app_l p s t r : strip_prefix p s = Some r → strip_prefix p (s +:+ t) = Some (r +:+ t).
Proof.
  revert s. induction p as [|c p IH]; intros s; cbn [strip_prefix]; [by intros [= <-]|]. destruct s as [|d s]; [done|].
  rewrite sapp_cons. destruct (Ascii.eqb c d); [apply IH|done].
Qed.

(** A prefix that only a longer text has is cut off by the end of the shorter one. *)
Lemma strip_prefix_cut p s t r :
  strip_prefix p (s +:+ t) = Some r → strip_prefix p s = None → ∃ u, p = s +:+ u ∧ u ≠ "".
Proof.
  revert s. induction p as [|c p IH]; intros s; [done|]. destruct s as [|d s].
  { intros _ _. by exists (String c p). }
  rewrite sapp_cons. cbn [strip_prefix]. destruct (Ascii.eqb_spec c d) as [->|]; [|done].
  intros H1 H2. destruct (IH s H1 H2) as (u & -> & Hu). by exists u.
Qed.

Lemma find_fence_cut p s t r :
  p = String cr (String nl "---") ∨ p = String nl "---" →
  strip_prefix p (s +:+ t) = Some r → strip_prefix p s = None → find_fence s = None.
Proof.
  intros Hp Hx Hn. destruct (strip_prefix_cut p s t r Hx Hn) as (u & Hu & Hne).
  destruct Hp as [-> | ->]; repeat (destruct s as [|? s]; [done|rewrite sapp_cons in Hu; injection Hu as <- Hu]);
    by destruct s, u.
Qed.

Lemma find_fence_app s t b r : find_fence s = Some (b, r) → find_fence (s +:+ t) = Some (b, r +:+ t).
Proof.
  revert b. induction s as [|c s IH]; intros b; [done|].
  pose proof (λ p r Hp, find_fence_cut p (String c s) t r Hp) as Hcut. rewrite sapp_cons. cbn [find_fence] in *. rewrite <-sapp_cons.
  destruct (strip_prefix (String cr _) (String c s)) as [x|] eqn:E1.
  { rewrite (strip_prefix_app_l _ _ t _ E1). by intros [= <- <-]. }
  destruct (strip_prefix (String cr _) (String c s +:+ t)) as [x|] eqn:E2.
  { intros H. rewrite (Hcut _ x (or_introl eq_refl) E2 E1) in H. done. }
  destruct (strip_prefix (String nl "---") (String c s)) as [x|] eqn:E3.
  { rewrite (strip_prefix_app_l _ _ t _ E3). by intros [= <- <-]. }
  destruct (strip_prefix (String nl "---") (String c s +:+ t)) as [x|] eqn:E4.
  { intros H. rewrite (Hcut _ x (or_intror eq_refl) E4 E3) in H. done. }
  destruct (find_fence s) as [[b' r']|]; [|done]. cbn. intros [= <- <-]. by rewrite (IH b' eq_refl).
Qed.

Definition visible (c : ascii) : bool := ((33 <=? byte_of c) && (byte_of c <=? 126))%Z.

Lemma trim_start_visible c s : visible c = true → trim_start (String c s) = String c s.
Proof.
  unfold visible. intros [H1 H2]%andb_prop. apply Z.leb_le in H1, H2. cbn [trim_start].
  assert (ws1 c = false) as ->. { unfold ws1. apply orb_false_iff. split; [apply andb_false_iff; right|]; lia. }
  destruct s as [|b s]; [done|]. assert (ws2 c b = false) as ->. { unfold ws2. apply andb_false_iff. left. lia. }
  destruct s as [|d s]; [done|]. assert (ws3 c b d = false) as ->; [|done].
  unfold ws3. by rewrite (proj2 (Z.eqb_neq _ 225)), (proj2 (Z.eqb_neq _ 226)), (proj2 (Z.eqb_neq _ 227)) by lia.
Qed.

(** Front matter written between two fences is read back, and stripping it leaves the trimmed
    text below it, provided the header begins with a visible character and holds no fence. *)
Theorem frontmatter_roundtrip (c : ascii) (header body : string) :
  visible c = true → find_fence (String c header +:+ String nl "---") = Some (String c header, "") →
  let content := "---" +:+ String nl (String c header +:+ String nl "---" +:+ String nl body) in
  frontmatter content = Some (String c header, trim_start body) ∧ strip_frontmatter content = trim (trim_start body).
Proof.
  intros Hc Hfence content. assert (frontmatter content = Some (String c header, trim_start body)) as Hf.
  { unfold frontmatter. change (strip_prefix "---" content) with
      (Some (String nl (String c header +:+ String nl "---" +:+ String nl body))). cbn [mbind option_bind].
    change (trim_start (String nl ?x)) with (trim_start x). rewrite !sapp_cons, trim_start_visible by done. cbn [String.length].
    rewrite Nat.sub_succ_l, Nat.sub_diag by done. cbn [after_newlines String.get sdrop app]. rewrite Ascii.eqb_refl, app_nil_r.
    cbn [filter_map]. rewrite <-!sapp_cons, sapp_assoc, (find_fence_app _ _ _ _ Hfence). done. }
  split; [exact Hf|]. unfold strip_frontmatter. by rewrite Hf.
Qed.

Example frontmatter_crlf :
  strip_frontmatter ("---" +:+ String cr (String nl ("description: x" +:+ String cr (String nl ("---" +:+ String nl "hello"))))) = "hello" ∧
  frontmatter ("---" +:+ String nl (String nl ("---" +:+ String nl "x"))) = Some ("", "x").
Proof. by vm_compute. Qed.

(** ** Listing and loading agree *)

Section Listing.
Context (yaml_parse : string → option yaml) (yaml_print : yaml → string) (from_str : string → option json).
Context (fs : SkillFs) (ld : SkillsLoader).

(** What a file system and the embedded tree guarantee: a directory lists each entry once and
    lists every sub-directory that holds a skill. *)
Class SkillFsLaws : Prop := {
  subdirs_nodup base l : sf_subdirs fs base = Some l → NoDup l;
  subdirs_all base name : sf_exists fs (skill_md (base +:+ "/" +:+ name)) = true →
    ∃ l, sf_subdirs fs base = Some l ∧ name ∈ l;
  names_nodup : NoDup (sf_names fs)
}.
Context `{!SkillFsLaws}.

Lemma fs_entries_spec base source skip e :
  e ∈ fs_entries fs base source skip ↔
    (sk_name e ∉ skip) ∧ sk_source e = source ∧ sk_path e = skill_md (base +:+ "/" +:+ sk_name e) ∧
    sf_exists fs (sk_path e) = true.
Proof.
  unfold fs_entries. rewrite elem_of_filter_map. split.
  - intros (name & _ & Hf). destruct (sf_exists fs _) eqn:E; [|done]. cbn in Hf. case_bool_decide; [done|]. by injection Hf as <-.
  - intros (Hs & Hsrc & Hp & He). rewrite Hp in He. destruct (subdirs_all _ _ He) as (l & Hl & Hin).
    exists (sk_name e). rewrite Hl. split; [done|]. rewrite He, bool_decide_false by done. by destruct e; cbn in *; subst.
Qed.

(** The names of the entries kept are a part of the names walked. *)
Lemma entries_nodup (f : string → option SkillEntry) l :
  (∀ n e, f n = Some e → sk_name e = n) → NoDup l → NoDup (sk_name <$> filter_map f l).
Proof.
  intros Hf. induction 1 as [|n l Hn Hl IH]; cbn; [constructor|]. destruct (f n) as [e|] eqn:E; [|done]. cbn.
  constructor; [|done]. rewrite (Hf n e E). intros (x & Hx & (m & Hm & Ex)%elem_of_filter_map)%list_elem_of_fmap.
  apply Hf in Ex. congruence.
Qed.

Lemma fs_entries_nodup base source skip : NoDup (sk_name <$> fs_entries fs base source skip).
Proof.
  unfold fs_entries. destruct (sf_subdirs fs base) as [l|] eqn:E; [|constructor]. apply entries_nodup; [|by eapply subdirs_nodup].
  intros n e. destruct (_ && _); [by intros [= <-]|done].
Qed.

Definition text_of (e : SkillEntry) : option string :=
  match sk_source e, builtin_skills_override ld with
  | Builtin, None => mjoin (sf_embedded fs (skill_md (sk_name e)))
  | _, _ => sf_text fs (sk_path e)
  end.

Lemma builtin_entries_spec skip e :
  e ∈ builtin_entries fs ld skip → (sk_name e ∉ skip) ∧ sk_source e = Builtin ∧
    ∀ dir, builtin_skills_override ld = Some dir → sk_path e = skill_md (dir +:+ "/" +:+ sk_name e) ∧ sf_exists fs (sk_path e) = true.
Proof.
  unfold builtin_entries. destruct (builtin_skills_override ld) as [dir|].
  - intros (Hs & Hsrc & Hp & He)%fs_entries_spec. split_and!; [done|done|]. by intros ? [= <-].
  - intros (n & _ & Hf)%elem_of_filter_map. case_bool_decide; [done|]. destruct (sf_embedded fs _); [|done]. by injection Hf as <-.
Qed.

Lemma builtin_entries_nodup skip : NoDup (sk_name <$> builtin_entries fs ld skip).
Proof.
  unfold builtin_entries. destruct (builtin_skills_override ld); [apply fs_entries_nodup|]. apply entries_nodup; [|apply names_nodup].
  intros n e. case_bool_decide; [done|]. destruct (sf_embedded fs _); [by intros [= <-]|done].
Qed.

(** The list of skills names no skill twice and no disabled one; a skill of the workspace
    shadows the embedded one of its name; and loading a listed skill gives the text of the very
    entry that was listed. *)
Theorem list_skills_consistent (available : bool) :
  let l := list_skills yaml_parse yaml_print from_str fs ld available in
  NoDup (sk_name <$> l) ∧
  Forall (λ e, (sk_name e ∉ disabled_skills ld) ∧ load_skill fs ld (sk_name e) = text_of e ∧
    (available = true → check_requirements fs (skill_meta yaml_parse yaml_print from_str fs ld (sk_name e)) = true)) l.
Proof.
  cbn zeta. unfold list_skills. set (ws := fs_entries fs (workspace_skills ld) Workspace []).
  set (enabled := retain _ (ws ++ _)).
  assert (NoDup (sk_name <$> enabled) ∧ ∀ e, e ∈ enabled → (sk_name e ∉ disabled_skills ld) ∧ load_skill fs ld (sk_name e) = text_of e) as [Hnd He].
  { split.
    - eapply sublist_NoDup; [|apply fmap_sublist, retain_sublist]. rewrite fmap_app. apply NoDup_app.
      split_and!; [apply fs_entries_nodup| |apply builtin_entries_nodup].
      intros n Hn (e & -> & Hb)%list_elem_of_fmap. by apply builtin_entries_spec in Hb as [Hs _].
    - intros e [Hin Hd]%retain_elem_of. apply negb_true_iff, bool_decide_eq_false in Hd. split; [done|].
      unfold load_skill, text_of. apply elem_of_app in Hin as [(_ & -> & Hp & Hx)%fs_entries_spec|Hb].
      + by rewrite <-Hp, Hx.
      + apply builtin_entries_spec in Hb as (Hs & -> & Ho). set (path := skill_md (workspace_skills ld +:+ "/" +:+ sk_name e)).
        destruct (sf_exists fs path) eqn:E.
        { exfalso. apply Hs. apply list_elem_of_fmap. exists (mkSkill (sk_name e) path Workspace). split; [done|].
          by apply fs_entries_spec; split_and!; [apply not_elem_of_nil| |reflexivity|]. }
        destruct (builtin_skills_override ld) as [dir|]; [|done]. destruct (Ho dir eq_refl) as [Hp Hx]. by rewrite <-Hp, Hx. }
  destruct available.
  - split; [eapply sublist_NoDup; [exact Hnd|apply fmap_sublist, retain_sublist]|]. apply Forall_forall.
    intros e [Hin Hr]%retain_elem_of. destruct (He e Hin). by split_and!.
  - split; [done|]. apply Forall_forall. intros e Hin. destruct (He e Hin). by split_and!.
Qed.
End Listing.
