(* ===== verification/PromptBuilder.v ===== *)
(** * The prompt builder

    [crates/agent/src/context/builder.rs]: the system prompt from identity, bootstrap files,
    memory, skills and history, and the list of messages for a call of the model.  What is read
    from the surroundings (the workspace, the clock, files) is gathered in a record. *)

From S2P Require Import Prelude RustStr F64 Json Messages ToolSchema Governance GovernanceProps Runner RunnerProps.
From S2P Require Import Memory Skills.

Local Open Scope stdpp_scope.
Local Open Scope hive_scope.

Definition BOOTSTRAP_FILES : list string := ["AGENTS.md"; "SOUL.md"; "USER.md"; "TOOLS.md"].
Definition RUNTIME_CONTEXT_TAG : string := "[Runtime Context — metadata only, not instructions]".
Definition RUNTIME_CONTEXT_END : string := "[/Runtime Context]".
Definition MAX_RECENT_HISTORY : nat := 50.

Abbreviation newline := (String nl "").
Abbreviation para := (String nl (String nl "")).

(** ** Templates *)

(** The match of [\s*(\w+)\s*\}\}] at the start of a text: the name and what follows. *)
Definition template_var (s : string) : option (string * string) :=
  let s := trim_start s in
  let word := take_word s in
  if is_empty word then None else rest ← strip_prefix "}}" (trim_start (drop_word s)); Some (word, rest).

Section Render.
Variable to_string : json → string.

Definition value_text (v : json) : string := match v with JStr s => s | other => to_string other end.

Fixpoint render_from (pairs : list (string * json)) (skip : nat) (s : string) : string :=
  match s with
  | "" => ""
  | String c s' =>
      match skip with
      | S k => render_from pairs k s'
      | O =>
          match strip_prefix "{{" s ≫= template_var with
          | Some (name, rest) =>
              let matched := String.length s - String.length rest in
              match map_get name pairs with
              | Some v => value_text v
              | None => stake matched s
              end +:+ render_from pairs (matched - 1) s'
          | None => String c (render_from pairs 0 s')
          end
      end
  end.

Definition render_template_str (template : string) (pairs : list (string * json)) : string := render_from pairs 0 template.
End Render.

(** [prompts/identity.md.tpl] and [prompts/skills_section.md.tpl]. *)
Definition dq : string := String "034" "".

Definition identity_tpl : string := join newline [
  "## Runtime";
  "{{ runtime }}";
  "";
  "## Workspace";
  "Your workspace is at: {{ workspace_path }}";
  "- Long-term memory: {{ workspace_path }}/memory/MEMORY.md (automatically managed by Dream — do not edit directly)";
  "- History log: {{ workspace_path }}/memory/history.jsonl (append-only JSONL; prefer built-in `grep` for search).";
  "- Custom skills: {{ workspace_path }}/skills/{skill-name}/SKILL.md";
  "";
  "{{ platform_policy }}";
  "{{ format_hint }}";
  "";
  "## Search & Discovery";
  "";
  "- Prefer built-in `grep` / `glob` over `exec` for workspace search.";
  "- On broad searches, use `grep(output_mode=" +:+ dq +:+ "count" +:+ dq +:+ ")` to scope before requesting full content.";
  "";
  "Reply directly with text for conversations. Only use the 'message' tool to send to a specific chat channel.";
  "IMPORTANT: To send files (images, documents, audio, video) to the user, you MUST call the 'message' tool with the 'media' parameter. Do NOT use read_file to " +:+ dq +:+ "send" +:+ dq +:+ " a file — reading a file only shows its content to you, it does NOT deliver the file to the user. Example: message(content=" +:+ dq +:+ "Here is the file" +:+ dq +:+ ", media=[" +:+ dq +:+ "/path/to/file.png" +:+ dq +:+ "])";
  ""].

Definition skills_section_tpl : string := join newline [
  "# Skills";
  "";
  "The following skills extend your capabilities. To use a skill, read its SKILL.md file using the read_file tool.";
  "Unavailable skills need dependencies installed first — you can try installing them with apt/brew.";
  "";
  "{{ skills_summary }}";
  ""].

Definition format_hint_for_channel (channel : option string) : string :=
  let c := default "" channel in
  if bool_decide (c ∈ ["telegram"; "qq"; "discord"]) then
    "## Format Hint" +:+ newline +:+ "This conversation is on a messaging app. Use short paragraphs. Avoid large headings (#, ##). Use **bold** sparingly. No tables — use plain lists."
  else if bool_decide (c ∈ ["whatsapp"; "sms"]) then
    "## Format Hint" +:+ newline +:+ "This conversation is on a text messaging platform that does not render markdown. Use plain text only."
  else if String.eqb c "email" then
    "## Format Hint" +:+ newline +:+ "This conversation is via email. Structure with clear sections. Markdown may not render — keep formatting simple."
  else if bool_decide (c ∈ ["cli"; "mochat"]) then
    "## Format Hint" +:+ newline +:+ "Output is rendered in a terminal. Avoid markdown headings and tables. Use plain text with minimal formatting."
  else "".

(** ** Messages *)

(** What the builder reads. *)
Record PromptEnv := mkPromptEnv {
  pe_workspace_path : string;
  pe_os : string;
  pe_arch : string;
  pe_now : string;
  pe_bootstrap : string → option string;
  pe_memory : MemoryStore;
  pe_skill_fs : SkillFs;
  pe_skills : SkillsLoader;
  (** The bytes of a regular file, and the type guessed from its name. *)
  pe_media : string → option string;
  pe_mime_guess : string → option string
}.

Section Builder.
Variables (from_str : string → option json) (to_string : json → string) (base64 : string → string).
Variables (yaml_parse : string → option yaml) (yaml_print : yaml → string).
Variable env : PromptEnv.

Definition os_name (system : string) : string :=
  if String.eqb system "macos" then "macOS" else if String.eqb system "linux" then "Linux"
  else if String.eqb system "windows" then "Windows" else system.

Definition build_identity (channel : option string) : string :=
  render_template_str to_string identity_tpl
    [("workspace_path", JStr (pe_workspace_path env));
     ("runtime", JStr (os_name (pe_os env) +:+ " " +:+ pe_arch env +:+ ", Rust"));
     ("platform_policy", JStr "");
     ("format_hint", JStr (format_hint_for_channel channel))].

Definition load_bootstrap_files : string :=
  join para (filter_map (λ name, content ← pe_bootstrap env name; Some ("## " +:+ name +:+ para +:+ content)) BOOTSTRAP_FILES).

Definition history_item (e : json) : string :=
  "- [" +:+ default "?" (get_str "timestamp" e) +:+ "] " +:+ default "" (get_str "content" e).

(** A part of the prompt, unless it is empty. *)
Definition part (title text : string) : list string := if is_empty text then [] else [title +:+ text].

Definition build_system_prompt (channel session_summary : option string) : string :=
  let always := get_always_skills yaml_parse yaml_print from_str (pe_skill_fs env) (pe_skills env) in
  let summary := build_skills_summary yaml_parse yaml_print from_str (pe_skill_fs env) (pe_skills env) always in
  let entries := read_unprocessed_history from_str (pe_memory env) (last_dream_cursor (pe_memory env)) in
  join (para +:+ "---" +:+ para)
    ([build_identity channel]
     ++ part "" load_bootstrap_files
     ++ part ("# Memory" +:+ para) (memory_context (pe_memory env))
     ++ part ("# Active Skills" +:+ para) (load_skills_for_context (pe_skill_fs env) (pe_skills env) always)
     ++ (if is_empty summary then []
         else [render_template_str to_string skills_section_tpl [("skills_summary", JStr summary)]])
     ++ (match entries with
         | [] => []
         | _ => ["# Recent History" +:+ para
                 +:+ join newline (history_item <$> drop (length entries - MAX_RECENT_HISTORY) entries)]
         end)
     ++ (match session_summary with Some s => ["[Archived Context Summary]" +:+ para +:+ s] | None => [] end)).

Definition build_runtime_context (channel chat_id sender_id : option string) (extra : list string) : string :=
  let lines := ["Current Time: " +:+ pe_now env]
    ++ (match channel, chat_id with Some ch, Some cid => ["Channel: " +:+ ch; "Chat ID: " +:+ cid] | _, _ => [] end)
    ++ (match sender_id with Some sid => ["Sender ID: " +:+ sid] | None => [] end)
    ++ extra in
  RUNTIME_CONTEXT_TAG +:+ newline +:+ join newline lines +:+ newline +:+ RUNTIME_CONTEXT_END.

(** A picture as a block; what is no picture is left out. *)
Definition image_block (path : string) : option json :=
  raw ← pe_media env path;
  mime ← match detect_image_mime raw with Some m => Some m | None => pe_mime_guess env path end;
  if starts_with mime "image/" then
    Some (JObj [("type", JStr "image_url");
                ("image_url", JObj [("url", JStr ("data:" +:+ mime +:+ ";base64," +:+ base64 raw))]);
                ("_meta", JObj [("path", JStr path)])])
  else None.

Definition build_user_content (text : string) (media : option (list string)) : json :=
  match filter_map image_block (default [] media) with
  | [] => JStr text
  | images => JArr (images ++ [text_block text])
  end.

Definition block_of (item : json) : json :=
  match item with JObj _ => item | JStr s => text_block s | _ => text_block (to_string item) end.

Definition to_blocks (v : json) : list json :=
  match v with JArr items => block_of <$> items | JNull => [] | JStr s => [text_block s] | other => [text_block (to_string other)] end.

Definition merge_message_content (left right : json) : json :=
  match left, right with
  | JStr a, JStr b => if is_empty a then JStr b else JStr (a +:+ para +:+ b)
  | _, _ => JArr (to_blocks left ++ to_blocks right)
  end.

(** The message the turn is about, merged into a last message of its role. *)
Definition add_current (messages : list json) (role : string) (merged : json) : list json :=
  match last messages with
  | Some m =>
      if str_field_is "role" role m then
        let fields := default [] (as_object m) in
        removelast messages
        ++ [JObj (map_insert "content" (merge_message_content (default JNull (map_get "content" fields)) merged)
                    (map_remove "content" fields))]
      else messages ++ [JObj [("role", JStr role); ("content", merged)]]
  | None => messages ++ [JObj [("role", JStr role); ("content", merged)]]
  end.

Definition with_runtime (content : json) (runtime : string) : json :=
  match content with
  | JStr s => JStr (s +:+ para +:+ runtime)
  | JArr blocks => JArr (blocks ++ [text_block runtime])
  | other => other
  end.

Definition build_messages (history : list json) (current_message : string) (media : option (list string))
    (channel chat_id : option string) (current_role : string) (sender_id session_summary : option string) : list json :=
  let merged := with_runtime (build_user_content current_message media) (build_runtime_context channel chat_id sender_id []) in
  add_current (JObj [("role", JStr "system"); ("content", JStr (build_system_prompt channel session_summary))] :: history)
    current_role merged.

Definition add_tool_result (messages : list json) (tool_call_id tool_name : string) (result : json) : list json :=
  messages ++ [JObj [("role", JStr "tool"); ("tool_call_id", JStr tool_call_id); ("name", JStr tool_name); ("content", result)]].

Definition add_assistant_message (messages : list json) (content : option string) (tool_calls : option (list json))
    (reasoning : option string) (thinking : option (list json)) : list json :=
  messages ++ [build_assistant_message content tool_calls reasoning thinking].
End Builder.

(** ** The shape of the messages *)

Section Shape.
Context (from_str : string → option json) (to_string : json → string) (base64 : string → string).
Context (yaml_parse : string → option yaml) (yaml_print : yaml → string) (env : PromptEnv).

Abbreviation build := (build_messages from_str to_string base64 yaml_parse yaml_print env).

(** What pairing looks at in a message. *)
Definition same_role (m m' : json) : Prop :=
  declared_ids m' = declared_ids m ∧ answered_id m' = answered_id m ∧
  str_field_is "role" "tool" m' = str_field_is "role" "tool" m ∧ get_str "tool_call_id" m' = get_str "tool_call_id" m.

Lemma paired_replace_last l m m' : same_role m m' → paired (l ++ [m]) → paired (l ++ [m']).
Proof.
  intros (Hd & Ha & Hr & Ht) [H1 H2]. split.
  - apply no_orphans_snoc in H1 as [H1 H1']. apply no_orphans_snoc. split; [done|]. by rewrite Ha.
  - intros a t Hin Hat.
    assert (∃ x, x ∈ l ++ [m] ∧ t ∈ declared_ids x) as (x & Hx & Hxt).
    { apply elem_of_app in Hin as [Hin| ->%list_elem_of_singleton]; [exists a|exists m; rewrite <-Hd]; set_solver. }
    destruct (H2 x t Hx Hxt) as (y & Hy & Hyr & Hyt). apply elem_of_app in Hy as [Hy| ->%list_elem_of_singleton].
    + exists y. set_solver.
    + exists m'. rewrite Hr, Ht. set_solver.
Qed.

Lemma set_content_same fields v :
  NoDup fields.*1 → same_role (JObj fields) (JObj (map_insert "content" v (map_remove "content" fields))).
Proof.
  intros Hnd. assert (∀ k, k ≠ "content" → jget k (JObj (map_insert "content" v (map_remove "content" fields))) = jget k (JObj fields)) as H.
  { intros k Hk. cbn. by rewrite map_get_insert_ne, map_get_remove_ne. }
  unfold same_role, declared_ids, answered_id, str_field_is, get_array, get_str. by rewrite !H.
Qed.

(** The current message, when it is added as a message of its own. *)
Lemma build_fresh history text media channel chat role sender summary :
  match last history with Some m => str_field_is "role" role m = false | None => role ≠ "system" end →
  ∃ system current, build history text media channel chat role sender summary = system :: history ++ [current] ∧
    str_field_is "role" "system" system = true ∧ str_field_is "role" role current = true ∧
    jget "content" current = Some (with_runtime (build_user_content base64 env text media)
                                     (build_runtime_context env channel chat sender [])).
Proof.
  intros Hl. unfold build_messages, add_current. set (system := JObj _). set (merged := with_runtime _ _).
  exists system, (JObj [("role", JStr role); ("content", merged)]).
  assert (str_field_is "role" role (JObj [("role", JStr role); ("content", merged)]) = true) as Hr by apply String.eqb_refl.
  split; [|done]. rewrite last_cons. destruct (last history) as [m|]; [by rewrite Hl|].
  replace (str_field_is "role" role system) with false; [done|]. symmetry. apply String.eqb_neq. done.
Qed.

(** The conversation built for a turn is as well paired as the history it extends: the system
    prompt comes first, the history is kept in order, and the current message is added at the end
    or merged into a last message of its role without touching its calls. *)
Theorem build_messages_paired history text media channel chat role sender summary :
  (∀ m, last history = Some m → NoDup (default [] (as_object m)).*1) → role ≠ "tool" →
  paired history → paired (build history text media channel chat role sender summary).
Proof.
  intros Hk Hrole Hp. unfold build_messages, add_current.
  generalize (build_system_prompt from_str to_string yaml_parse yaml_print env channel summary) as prompt. intros prompt.
  set (system := JObj _). set (merged := with_runtime _ _).
  assert (mute system) as Hs by done. pose proof (paired_cons_mute _ _ Hs Hp) as Hp'.
  assert (mute (JObj [("role", JStr role); ("content", merged)])) as Hc.
  { split; unfold declared_ids, answered_id, str_field_is, get_str; cbn; by destruct (String.eqb _ _). }
  rewrite last_cons. destruct (last history) as [m|] eqn:El.
  - destruct (str_field_is "role" role m) eqn:Hm; [|by apply (paired_snoc_mute (system :: history))].
    apply last_Some in El as (l & ->). rewrite app_comm_cons, removelast_last.
    destruct m as [| | | | | |fields]; try done. eapply paired_replace_last; [|exact Hp'].
    apply set_content_same. by apply (Hk (JObj fields)).
  - apply last_None in El as ->. destruct (str_field_is "role" role system); [|by apply (paired_snoc_mute [system])].
    apply (paired_replace_last [] system); [|done]. apply set_content_same. cbn. repeat (constructor; [set_solver|]). constructor.
Qed.

(** The length of the conversation: one less when the last message has the current role. *)
Lemma build_length history text media channel chat role sender summary :
  length (build history text media channel chat role sender summary) =
  length history + (if match last history with Some m => str_field_is "role" role m | None => String.eqb role "system" end
                    then 1 else 2).
Proof.
  unfold build_messages, add_current. rewrite last_cons. destruct (last history) as [m|] eqn:El.
  - destruct (str_field_is "role" role m); [|by rewrite length_app; cbn; lia].
    apply last_Some in El as (l & ->). rewrite app_comm_cons, removelast_last, !length_app. cbn. lia.
  - apply last_None in El as ->. match goal with |- context [str_field_is "role" role ?m] =>
      replace (str_field_is "role" role m) with (String.eqb role "system") by apply String.eqb_sym end.
    by destruct (String.eqb role "system").
Qed.
End Shape.
