(* ===== verification/TurnLog.v ===== *)
(** * Turns in the session

    The part of [crates/agent/src/loop_.rs] that works on a session alone: the checkpoint of a
    turn and its restoration, the mark of a turn that was not answered, what of a turn is saved
    and how it is cut down, and follow-ups of sub-agents.  [stamp] is [Utc::now().to_rfc3339()]. *)

From S2P Require Import Prelude RustStr F64 Json Session ToolSchema Governance GovernanceProps Runner RunnerProps.
From S2P Require Import Bus PromptBuilder.

Local Open Scope stdpp_scope.
Local Open Scope hive_scope.

Definition RUNTIME_CHECKPOINT_KEY : string := "runtime_checkpoint".
Definition PENDING_USER_TURN_KEY : string := "pending_user_turn".

Definition with_messages (s : Session) (msgs : list json) : Session :=
  mkSession (key s) msgs (created_at s) (updated_at s) (metadata s) (last_consolidated s).
Definition with_metadata (s : Session) (m : gmap string json) : Session :=
  mkSession (key s) (messages s) (created_at s) (updated_at s) m (last_consolidated s).

(** ** Marks *)

Definition set_runtime_checkpoint (s : Session) (payload : json) : Session :=
  let meta := match payload with JObj m => foldl (λ acc kv, <[kv.1 := kv.2]> acc) (metadata s) m | _ => metadata s end in
  with_metadata s (<[RUNTIME_CHECKPOINT_KEY := payload]> meta).

Definition mark_pending_user_turn (s : Session) : Session :=
  with_metadata s (<[PENDING_USER_TURN_KEY := JBool true]> (metadata s)).
Definition clear_pending_user_turn (s : Session) : Session := with_metadata s (delete PENDING_USER_TURN_KEY (metadata s)).
Definition clear_runtime_checkpoint (s : Session) : Session := with_metadata s (delete RUNTIME_CHECKPOINT_KEY (metadata s)).

(** ** Restoring *)

Definition opt_eqb (a b : option json) : bool :=
  match a, b with Some x, Some y => json_eqb x y | None, None => true | _, _ => false end.

(** [message_key(a) == message_key(b)]. *)
Definition same_key (a b : json) : bool :=
  let same k := bool_decide (get_str k a = get_str k b) in
  same "role" && same "content" && same "tool_call_id" && same "name"
  && opt_eqb (jget "tool_calls" a) (jget "tool_calls" b) && opt_eqb (jget "reasoning_content" a) (jget "reasoning_content" b).

Fixpoint all_same (a b : list json) : bool :=
  match a, b with x :: a, y :: b => same_key x y && all_same a b | _, _ => true end.

Fixpoint overlap_from (size : nat) (existing restored : list json) : nat :=
  match size with
  | O => 0
  | S k => if all_same (drop (length existing - size) existing) (take size restored) then size
           else overlap_from k existing restored
  end.

Definition find_message_overlap (existing restored : list json) : nat :=
  overlap_from (length existing `min` length restored) existing restored.

(** A message gets a time stamp unless it has one. *)
Definition stamped (stamp : string) (m : json) : json :=
  match m with
  | JObj o => if map_contains_key "timestamp" o then m else JObj (map_insert "timestamp" (JStr stamp) o)
  | _ => m
  end.

Definition interrupted_result (stamp : string) (tool_call : json) : json :=
  JObj [("role", JStr "tool");
        ("tool_call_id", default JNull (jget "id" tool_call));
        ("name", JStr (default "tool" (jget "function" tool_call ≫= get_str "name")));
        ("content", JStr "Error: Task interrupted before this tool finished.");
        ("timestamp", JStr stamp)].

Definition restored_messages (stamp : string) (checkpoint : list (string * json)) : list json :=
  (match map_get "assistant_message" checkpoint with Some m => [stamped stamp m] | None => [] end)
  ++ (stamped stamp <$> default [] (map_get "completed_tool_results" checkpoint ≫= as_array))
  ++ (interrupted_result stamp <$> default [] (map_get "pending_tool_calls" checkpoint ≫= as_array)).

Definition restore_runtime_checkpoint (stamp : string) (s : Session) : Session * bool :=
  match metadata s !! RUNTIME_CHECKPOINT_KEY with
  | Some (JObj checkpoint) =>
      let restored := restored_messages stamp checkpoint in
      let overlap := find_message_overlap (messages s) restored in
      (clear_runtime_checkpoint (clear_pending_user_turn (with_messages s (messages s ++ drop overlap restored))), true)
  | _ => (s, false)
  end.

Definition restore_pending_user_turn (stamp : string) (s : Session) : Session * bool :=
  if default false (metadata s !! PENDING_USER_TURN_KEY ≫= as_bool) then
    let s := match last (messages s) with
             | Some m =>
                 if str_field_is "role" "user" m
                 then with_messages s (messages s ++ [JObj [("role", JStr "assistant");
                        ("content", JStr "Error: Task interrupted before a response was generated."); ("timestamp", JStr stamp)]])
                 else s
             | None => s
             end in
    (clear_pending_user_turn s, true)
  else (s, false).

(** ** Saving a turn *)

Definition truncate_text_fn (text : string) (max_chars : nat) : run string :=
  if String.length text <=? max_chars then Returns text
  else let! t := run_of_option (slice_to text max_chars) in Returns (t +:+ "..." +:+ String nl "(truncated)").

Definition is_object (v : json) : bool := match v with JObj _ => true | _ => false end.

(** One block: [None] when it is left out. *)
Definition sanitize_block (max_chars : nat) (should_truncate drop_runtime : bool) (block : json) : run (option json) :=
  match block with
  | JObj m =>
      let block_type := default "" (get_str "type" block) in
      if drop_runtime && String.eqb block_type "text"
         && match get_str "text" block with Some t => contains_str t RUNTIME_CONTEXT_TAG | None => false end
      then Returns None
      else if String.eqb block_type "image_url"
              && starts_with (default "" (jget "image_url" block ≫= get_str "url")) "data:image/"
      then Returns (Some (text_block ("[Image: " +:+ default "" (jget "_meta" block ≫= get_str "path") +:+ "]")))
      else if String.eqb block_type "text" then
        match get_str "text" block with
        | Some text =>
            let! text := (if should_truncate && (max_chars <? String.length text) then truncate_text_fn text max_chars
                          else Returns text) in
            Returns (Some (JObj (map_insert "text" (JStr text) m)))
        | None => Returns (Some block)
        end
      else Returns (Some block)
  | _ => Returns (Some block)
  end.

Fixpoint sanitize_blocks (max_chars : nat) (should_truncate drop_runtime : bool) (blocks : list json) : run (list json) :=
  match blocks with
  | [] => Returns []
  | b :: blocks =>
      let! o := sanitize_block max_chars should_truncate drop_runtime b in
      let! rest := sanitize_blocks max_chars should_truncate drop_runtime blocks in
      Returns (option_list o ++ rest)
  end.

Definition sanitize_persisted_blocks (max_chars : nat) (content : json) (should_truncate drop_runtime : bool) : run (option json) :=
  match content with
  | JArr blocks =>
      let! filtered := sanitize_blocks max_chars should_truncate drop_runtime blocks in
      Returns (match filtered with [] => None | _ => Some (JArr filtered) end)
  | _ => Returns None
  end.

(** Replacing the content of a message. *)
Definition set_content (m : json) (v : json) : json :=
  match m with JObj o => JObj (map_insert "content" v o) | _ => m end.

Definition save_assistant (max_chars : nat) (stamp : string) (m : json) : run (option json) :=
  let has_tool_calls := bool_decide (is_Some (jget "tool_calls" m)) in
  match jget "content" m with
  | None => Returns (if has_tool_calls then Some (stamped stamp m) else None)
  | Some (JArr blocks) =>
      let! sanitized := sanitize_persisted_blocks max_chars (JArr blocks) true false in
      Returns match sanitized with
              | Some c => Some (set_content (stamped stamp m) c)
              | None => if has_tool_calls then Some (stamped stamp m) else None
              end
  | Some _ => Returns (Some (stamped stamp m))
  end.

Definition save_tool (max_chars : nat) (stamp : string) (m : json) : run (option json) :=
  match jget "content" m with
  | Some (JStr s) =>
      if max_chars <? String.length s then let! t := truncate_text_fn s max_chars in Returns (Some (stamped stamp (set_content m (JStr t))))
      else Returns (Some (stamped stamp m))
  | Some (JArr blocks) =>
      let! sanitized := sanitize_persisted_blocks max_chars (JArr blocks) true false in
      Returns ((λ c, stamped stamp (set_content m c)) <$> sanitized)
  | _ => Returns (Some (stamped stamp m))
  end.

Definition save_user (stamp : string) (m : json) : option json :=
  match get_str "content" m with
  | Some s =>
      match find_sub RUNTIME_CONTEXT_TAG s with
      | Some pos =>
          let before := trim_end (stake pos s) in
          if is_empty before then None else Some (stamped stamp (set_content m (JStr before)))
      | None => Some (stamped stamp m)
      end
  | None => Some (stamped stamp m)
  end.

(** One message of the turn as it is saved. *)
Definition save_message (max_chars : nat) (stamp : string) (m : json) : run (option json) :=
  match get_str "role" m with
  | None => Returns None
  | Some role =>
      if String.eqb role "assistant" then save_assistant max_chars stamp m
      else if String.eqb role "tool" then save_tool max_chars stamp m
      else if String.eqb role "user" then Returns (save_user stamp m)
      else Returns (Some (stamped stamp m))
  end.

Fixpoint save_messages (max_chars : nat) (stamp : string) (ms : list json) : run (list json) :=
  match ms with
  | [] => Returns []
  | m :: ms =>
      let! o := save_message max_chars stamp m in
      let! rest := save_messages max_chars stamp ms in
      Returns (option_list o ++ rest)
  end.

(** The latency goes to the last assistant message of the turn. *)
Definition note_latency (ms : option Z) (saved : list json) : list json :=
  match ms, rposition (str_field_is "role" "assistant") saved with
  | Some ms, Some i =>
      alter (λ m, match m with JObj o => JObj (map_insert "latency_ms" (JInt ms) o) | _ => m end) i saved
  | _, _ => saved
  end.

Definition save_turn (max_chars : nat) (stamp : string) (now : Z) (s : Session) (ms : list json) (skip : nat)
    (latency : option Z) : run Session :=
  let! saved := save_messages max_chars stamp (drop skip ms) in
  let s := with_messages s (messages s ++ note_latency latency saved) in
  Returns (mkSession (key s) (messages s) (created_at s) now (metadata s) (last_consolidated s)).

(** ** Users and sub-agents *)

Section Adding.
Variable to_rfc3339 : Z → string.

Definition persist_user_message_early (now : Z) (msg : InboundMessage) (s : Session) : Session * bool :=
  if negb (is_empty (trim (in_content msg))) || negb (bool_decide (in_media msg = []))
  then (mark_pending_user_turn (add_message to_rfc3339 s "user" (in_content msg) [] now now), true)
  else (s, false).

Definition is_followup_of (tid : string) (m : json) : bool :=
  str_field_is "injected_event" "subagent_result" m && str_field_is "subagent_task_id" tid m.

(** [order] is the order in which the map of extra fields is walked. *)
Definition persist_subagent_followup (order : list (string * json) → list (string * json)) (now : Z) (s : Session)
    (msg : InboundMessage) : Session * bool :=
  if is_empty (in_content msg) then (s, false)
  else
    let task := in_metadata msg !! "subagent_task_id" ≫= as_str in
    if match task with Some tid => existsb (is_followup_of tid) (messages s) | None => false end then (s, false)
    else
      let extra := [("sender_id", JStr (sender_id msg)); ("injected_event", JStr "subagent_result")]
                   ++ match task with Some tid => [("subagent_task_id", JStr tid)] | None => [] end in
      (add_message to_rfc3339 s "assistant" (in_content msg) (order extra) now now, true).
End Adding.

(** ** What is saved is small *)

Section Clean.
Variable max_chars : nat.

Definition inline_image (b : json) : bool :=
  String.eqb (default "" (get_str "type" b)) "image_url" && starts_with (default "" (jget "image_url" b ≫= get_str "url")) "data:image/".

(** A text of bounded length; [...], a line break and [(truncated)] are 15 bytes. *)
Definition bounded_text (t : string) : Prop := String.length t ≤ max_chars + 15.

(** A block that holds no image of its own, and a text that is bounded or stands for an image. *)
Definition clean_block (b : json) : Prop :=
  inline_image b = false ∧
  ∀ t, get_str "type" b = Some "text" → get_str "text" b = Some t → bounded_text t ∨ starts_with t "[Image: " = true.

Definition clean_content (m : json) : Prop :=
  (∀ t, get_str "role" m = Some "tool" → get_str "content" m = Some t → bounded_text t) ∧
  (∀ bs, get_str "role" m = Some "tool" ∨ get_str "role" m = Some "assistant" → jget "content" m = Some (JArr bs) → Forall clean_block bs).

Lemma truncate_bounded s t : truncate_text_fn s max_chars = Returns t → bounded_text t.
Proof.
  unfold truncate_text_fn, bounded_text. destruct (Nat.leb_spec (String.length s) max_chars); [intros [= <-]; lia|].
  unfold slice_to. destruct (is_char_boundary _ _); cbn; [|done]. intros [= <-]. rewrite slength_app, stake_length.
  change (String.length ("..." +:+ String nl "(truncated)")) with 15. lia.
Qed.

Lemma sanitize_block_clean b b' : sanitize_block max_chars true false b = Returns (Some b') → clean_block b'.
Proof.
  unfold sanitize_block. destruct b as [| | | | | |m]; try by intros [= <-].
  cbn [andb]. destruct (_ && starts_with _ _) eqn:Ei.
  { intros [= <-]. split; [done|]. intros t _ [= <-]. by right. }
  destruct (String.eqb_spec (default "" (get_str "type" (JObj m))) "text") as [Et|Et].
  2:{ intros [= <-]. split; [done|]. intros t Ht. by rewrite Ht in Et. }
  destruct (get_str "text" (JObj m)) as [text|] eqn:Ex; [|intros [= <-]; split; [done|]; intros t _ Ht; congruence].
  assert (∀ t, bounded_text t → clean_block (JObj (map_insert "text" (JStr t) m))) as Hok.
  { intros t Hb. split.
    - unfold inline_image, get_str, jget. rewrite map_get_insert_ne by done. unfold get_str, jget in Et. by rewrite Et.
    - intros t' _. unfold get_str, jget. rewrite map_get_insert. intros [= <-]. by left. }
  destruct (Nat.ltb_spec max_chars (String.length text)).
  - destruct (truncate_text_fn text max_chars) as [t| |] eqn:E; cbn; [|done..]. intros [= <-]. eapply Hok, truncate_bounded, E.
  - intros [= <-]. apply Hok. unfold bounded_text. lia.
Qed.

Lemma sanitize_blocks_clean bs bs' : sanitize_blocks max_chars true false bs = Returns bs' → Forall clean_block bs'.
Proof.
  revert bs'. induction bs as [|b bs IH]; intros bs'; cbn; [by intros [= <-]|].
  destruct (sanitize_block _ _ _ b) as [o| |] eqn:E; cbn; [|done..]. destruct (sanitize_blocks _ _ _ bs) as [r| |]; cbn; [|done..].
  intros [= <-]. apply Forall_app. split; [|by apply IH]. destruct o; [|done]. apply Forall_singleton. by eapply sanitize_block_clean.
Qed.

Lemma sanitize_persisted_clean bs c :
  sanitize_persisted_blocks max_chars (JArr bs) true false = Returns (Some c) → ∃ bs', c = JArr bs' ∧ Forall clean_block bs'.
Proof.
  cbn. destruct (sanitize_blocks _ _ _ bs) as [r| |] eqn:E; cbn; [|done..]. apply sanitize_blocks_clean in E.
  destruct r as [|b r]; [done|]. intros [= <-]. by eexists.
Qed.

(** With nothing to leave out, only an empty array sanitizes to nothing. *)
Lemma sanitize_block_kept b o : sanitize_block max_chars true false b = Returns o → is_Some o.
Proof.
  unfold sanitize_block. destruct b as [| | | | | |m]; try (intros [= <-]; by eexists). cbn [andb].
  destruct (_ && starts_with _ _); [intros [= <-]; by eexists|]. destruct (String.eqb _ _); [|intros [= <-]; by eexists].
  destruct (get_str "text" _); [|intros [= <-]; by eexists]. destruct (if _ <? _ then _ else _); cbn; [|done..]. intros [= <-]. by eexists.
Qed.

Lemma sanitize_persisted_none bs : sanitize_persisted_blocks max_chars (JArr bs) true false = Returns None → bs = [].
Proof.
  cbn. destruct bs as [|b bs]; [done|]. cbn. destruct (sanitize_block _ _ _ b) as [o| |] eqn:E; cbn; [|done..].
  apply sanitize_block_kept in E as [b' ->]. destruct (sanitize_blocks _ _ _ bs); cbn; by intros [=].
Qed.

Lemma jget_stamped stamp m k : k ≠ "timestamp" → jget k (stamped stamp m) = jget k m.
Proof. intros Hk. destruct m as [| | | | | |o]; try done. cbn. destruct (map_contains_key _ o); [done|]. cbn. by apply map_get_insert_ne. Qed.

Lemma jget_set_content m v : is_object m = true → jget "content" (set_content m v) = Some v.
Proof. destruct m; try done. intros _. cbn. apply map_get_insert. Qed.

Lemma jget_set_content_ne m v k : k ≠ "content" → jget k (set_content m v) = jget k m.
Proof. intros Hk. destruct m; try done. cbn. by apply map_get_insert_ne. Qed.

(** What a turn saves is small and holds no picture: a tool's text is cut at the limit, and in
    the blocks of tools and of the assistant every inline image is replaced by its path and
    every text is cut. *)
Theorem saved_clean stamp m m' : save_message max_chars stamp m = Returns (Some m') → clean_content m'.
Proof.
  unfold save_message, get_str. destruct (jget "role" m ≫= as_str) as [role|] eqn:Er; [|done].
  assert (is_object m = true) as Ho by (destruct m; done).
  assert (∀ x, jget "role" x = jget "role" m → (role = "tool" → ∀ t, get_str "content" x = Some t → bounded_text t) →
    (role = "tool" ∨ role = "assistant" → ∀ bs, jget "content" x = Some (JArr bs) → Forall clean_block bs) → clean_content x) as Hok.
  { intros x Hx H1 H2. unfold clean_content, get_str. rewrite Hx, Er. split.
    - intros t [= ->]. by apply H1.
    - intros bs [[= ->]|[= ->]]; by apply H2; auto. }
  destruct (String.eqb_spec role "assistant") as [->|Ha]; [|destruct (String.eqb_spec role "tool") as [->|Ht]].
  - unfold save_assistant. destruct (jget "content" m) as [c|] eqn:Ec.
    2:{ destruct (bool_decide _); [|done]. intros [= <-]. apply Hok; [by apply jget_stamped|done|]. intros _ bs. rewrite jget_stamped, Ec by done. done. }
    destruct c as [| | | | |bs|]; try (intros [= <-]; apply Hok; [by apply jget_stamped|done|]; intros _ bs; rewrite jget_stamped, Ec by done; done).
    destruct (sanitize_persisted_blocks _ _ _ _) as [[c|]| |] eqn:Es; cbn [run_bind]; [| |done..].
    + apply sanitize_persisted_clean in Es as (bs' & -> & Hc). intros [= <-].
      apply Hok; [by rewrite jget_set_content_ne, jget_stamped|done|]. intros _ bs0.
      rewrite jget_set_content; [by intros [= <-]|]. destruct m; try done. cbn. by destruct (map_contains_key _ _).
    + apply sanitize_persisted_none in Es as ->. destruct (bool_decide _); [|done]. intros [= <-].
      apply Hok; [by apply jget_stamped|done|]. intros _ bs0. rewrite jget_stamped, Ec by done. by intros [= <-].
  - unfold save_tool. destruct (jget "content" m) as [c|] eqn:Ec.
    2:{ intros [= <-]. apply Hok; [by apply jget_stamped| |]; intros _; unfold get_str; rewrite jget_stamped, Ec by done; done. }
    destruct c as [| | | |s|bs|];
      try (intros [= <-]; apply Hok; [by apply jget_stamped| |]; intros _; unfold get_str; rewrite jget_stamped, Ec by done; done).
    + destruct (Nat.ltb_spec max_chars (String.length s)).
      * destruct (truncate_text_fn _ _) as [t| |] eqn:Et; cbn [run_bind]; [|done..]. intros [= <-]. apply truncate_bounded in Et.
        apply Hok; [by rewrite jget_stamped, jget_set_content_ne| |]; intros _; unfold get_str;
          rewrite jget_stamped, jget_set_content by done; [by intros ? [= <-]|done].
      * intros [= <-]. apply Hok; [by apply jget_stamped| |]; intros _; unfold get_str; rewrite jget_stamped, Ec by done; [|done].
        intros t [= <-]. unfold bounded_text. lia.
    + destruct (sanitize_persisted_blocks _ _ _ _) as [[c|]| |] eqn:Es; cbn [run_bind]; [|done..].
      apply sanitize_persisted_clean in Es as (bs' & -> & Hc). intros [= <-].
      apply Hok; [by rewrite jget_stamped, jget_set_content_ne| |]; intros _; unfold get_str;
        rewrite jget_stamped, jget_set_content by done; [done|by intros ? [= <-]].
  - intros H. apply Hok; [|by intros ->|by intros [->| ->]]. destruct (String.eqb role "user"); injection H as H.
    + unfold save_user in H. destruct (get_str "content" m) as [s|]; [destruct (find_sub _ _); [destruct (is_empty _); [done|]|]|];
        injection H as <-; by rewrite jget_stamped, ?jget_set_content_ne.
    + subst. by apply jget_stamped.
Qed.
End Clean.

Definition picture_result : json :=
  JObj [("role", JStr "tool"); ("tool_call_id", JStr "a");
    ("content", JArr [text_block "0123456789"; JObj [("type", JStr "image_url");
      ("image_url", JObj [("url", JStr "data:image/png;base64,AA")]); ("_meta", JObj [("path", JStr "a.png")])]])].

Lemma saved_clean_witness :
  ∃ m', save_message 5 "now" picture_result = Returns (Some m') ∧
    jget "content" m' = Some (JArr [text_block ("01234..." +:+ String nl "(truncated)"); text_block "[Image: a.png]"]) ∧
    clean_content 5 m'.
Proof. eexists. split; [reflexivity|]. split; [reflexivity|]. apply (saved_clean 5 "now" picture_result). reflexivity. Defined.
