(* ===== verification/AgentLoop.v ===== *)
(** * The agent loop

    [crates/agent/src/loop_.rs]: a message becomes a turn.  [process_message] runs the state
    machine of a turn, [process_inbound] is the path of the service loop, which handles up to
    three messages at once; [process_system_message] serves announcements, and the built-in
    commands are answered before a turn begins.  Auto-compaction is [autocompact.rs].

    The sessions are reached through an interface ([SessionRepo]), which the session manager
    implements; runs are those of [Runner.v], prompts those of [PromptBuilder.v].  The world [W]
    holds what tools and providers work on, the state of the channel tools included.  Switching
    models while running, MCP servers and background consolidation are left out. *)

From S2P Require Import Prelude RustStr F64 Json Session ToolSchema ToolRegistry Provider Retry Governance Runner.
From S2P Require Import Bus Context ContextProps Memory Skills PromptBuilder TurnLog.

Local Open Scope stdpp_scope.
Local Open Scope hive_scope.

(** ** Sessions as the loop sees them *)

(** [get_or_create] and [save]; a failed save reports its error. *)
Class SessionRepo (R : Type) := {
  repo_get : string → R → R * Session;
  repo_save : Session → R → R * option string
}.

(** [held k s st]: the manager answers [s] for the key [k]. *)
Class SessionRepoLaws (R : Type) `{!SessionRepo R} := {
  held : string → Session → R → Prop;
  get_held k st : held k (repo_get k st).2 (repo_get k st).1;
  held_get k s st : held k s st → repo_get k st = (st, s);
  held_key k s st : held k s st → key s = k;
  save_held s st st' : repo_save s st = (st', None) → held (key s) s st';
  get_keeps k k' s st : held k s st → held k s (repo_get k' st).1;
  save_keeps s' k s st : key s' ≠ k → held k s st → held k s (repo_save s' st).1;
  save_failed s st st' e k s' : repo_save s st = (st', Some e) → held k s' st → held k s' st'
}.

(** ** Configuration and state *)

Definition UNIFIED_SESSION_KEY : string := "unified:default".

Record LoopConfig := mkLoopConfig {
  lc_model : option string;
  lc_max_iterations : nat;
  lc_max_tool_result_chars : nat;
  lc_context_window : option Z;
  lc_retry_mode : RetryMode;
  lc_workspace : string;
  lc_unified : bool
}.

Record RequestContext := mkReqCtx {
  rc_channel : string; rc_chat_id : string; rc_message_id : option string; rc_session_key : option string;
  rc_metadata : gmap string json
}.

(** Auto-compaction: the time to live in minutes, the keys being archived, the summaries. *)
Record AutoCompact := mkCompact {
  ttl_minutes : Z; archiving : gset string; summaries : gmap string (string * Z)
}.

Record LoopState (W R : Type) := mkLoop {
  lo_world : W;
  lo_sessions : R;
  lo_context : option AgentContext;
  lo_compact : option AutoCompact;
  (** The outbound lane: what was published. *)
  lo_out : list OutboundMessage
}.
Arguments mkLoop {W R}. Arguments lo_world {W R}. Arguments lo_sessions {W R}. Arguments lo_context {W R}.
Arguments lo_compact {W R}. Arguments lo_out {W R}.

(** The parts of the loop that do not change, and what it asks of the world. *)
Record Loop (W R : Type) := mkAgentLoop {
  al_config : LoopConfig;
  al_tools : Registry W;
  al_env : Env W;
  al_fuel : nat;
  al_sfuel : nat;
  al_window : W → Z;
  al_now : W → Z;
  al_to_rfc3339 : Z → string;
  al_parse_time : string → option Z;
  al_stamp : W → string;
  (** Whole seconds between two moments, at least zero. *)
  al_elapsed : W → W → Z;
  al_prompt : W → PromptEnv;
  al_from_str : string → option json;
  al_base64 : string → string;
  al_yaml_parse : string → option yaml;
  al_yaml_print : yaml → string;
  (** The channel tools: installed or not, their context, the start of a turn, and whether the
      [message] tool has sent something since. *)
  al_message_tool : bool;
  al_set_context : RequestContext → W → W;
  al_start_turn : W → W;
  al_sent : W → bool;
  (** What the context hook of a run has written. *)
  al_sync : AgentRunResult → list RunEvent → AgentContext → AgentContext;
  al_prefilter : option (InboundMessage → LoopState W R → LoopState W R * option string);
  (** A consolidator: its estimate of the prompt, and its compaction of a session. *)
  al_consolidator : option ((string → nat → LoopState W R → nat) * (string → LoopState W R → LoopState W R));
  al_extra_order : list (string * json) → list (string * json)
}.
Arguments al_config {W R}. Arguments al_tools {W R}. Arguments al_env {W R}. Arguments al_fuel {W R}. Arguments al_sfuel {W R}.
Arguments al_window {W R}. Arguments al_now {W R}. Arguments al_to_rfc3339 {W R}. Arguments al_parse_time {W R}.
Arguments al_stamp {W R}. Arguments al_elapsed {W R}. Arguments al_prompt {W R}. Arguments al_from_str {W R}.
Arguments al_base64 {W R}. Arguments al_yaml_parse {W R}. Arguments al_yaml_print {W R}. Arguments al_message_tool {W R}.
Arguments al_set_context {W R}. Arguments al_start_turn {W R}. Arguments al_sent {W R}. Arguments al_sync {W R}.
Arguments al_prefilter {W R}. Arguments al_consolidator {W R}. Arguments al_extra_order {W R}.

(** *** The state machine of a turn *)

Inductive TurnState := TRestore | TCompact | TCommand | TBuild | TRun | TSave | TRespond | TDone.

#[export] Instance turn_state_eq_dec : EqDecision TurnState.
Proof. solve_decision. Defined.

Definition TRANSITIONS : list (TurnState * string * TurnState) :=
  [(TRestore, "ok", TCompact); (TCompact, "ok", TCommand); (TCommand, "dispatch", TBuild); (TCommand, "shortcut", TDone);
   (TBuild, "ok", TRun); (TRun, "ok", TSave); (TSave, "ok", TRespond); (TRespond, "ok", TDone)].

Definition find_transition (s : TurnState) (event : string) : option TurnState :=
  snd <$> find_first (λ t, bool_decide (t.1.1 = s) && String.eqb t.1.2 event) TRANSITIONS.

Record TurnContext := mkTurn {
  tn_msg : InboundMessage;
  tn_key : string;
  tn_session : option Session;
  tn_history : list json;
  tn_initial : list json;
  tn_final : option string;
  tn_tools_used : list string;
  tn_all : list json;
  tn_stop : string;
  tn_had : bool;
  tn_early : bool;
  tn_skip : nat;
  tn_outbound : option OutboundMessage;
  tn_summary : option string;
  tn_latency : option Z;
  tn_trace : list TurnState
}.

Definition new_turn (msg : InboundMessage) (key : string) : TurnContext :=
  mkTurn msg key None [] [] None [] [] "" false false 0 None None None [].

(** ** Auto-compaction

    Instants are nanoseconds. *)

Definition is_expired (ac : AutoCompact) (ts : option Z) (now : Z) : bool :=
  if (ttl_minutes ac <=? 0)%Z then false
  else match ts with Some ts => (ttl_minutes ac * 60 <=? Z.quot (now - ts) 1000000000)%Z | None => false end.

Definition format_summary (to_rfc3339 : Z → string) (text : string) (last_active : Z) : string :=
  "Previous conversation summary (last active " +:+ to_rfc3339 last_active +:+ "):" +:+ String nl text.

Section Loop.
Context {W R : Type} `{!SessionRepo R} (L : Loop W R).

Abbreviation St := (LoopState W R).

Definition set_world (w : W) (st : St) : St := mkLoop w (lo_sessions st) (lo_context st) (lo_compact st) (lo_out st).
Definition set_sessions (s : R) (st : St) : St := mkLoop (lo_world st) s (lo_context st) (lo_compact st) (lo_out st).
Definition set_compact (c : option AutoCompact) (st : St) : St := mkLoop (lo_world st) (lo_sessions st) (lo_context st) c (lo_out st).
Definition on_agent_context (f : AgentContext → AgentContext) (st : St) : St :=
  mkLoop (lo_world st) (lo_sessions st) (f <$> lo_context st) (lo_compact st) (lo_out st).
Definition publish_outbound (m : OutboundMessage) (st : St) : St :=
  mkLoop (lo_world st) (lo_sessions st) (lo_context st) (lo_compact st) (lo_out st ++ [m]).

Definition stamp_now (st : St) : string := al_stamp L (lo_world st).
Definition time_now (st : St) : Z := al_now L (lo_world st).

Definition get_session (k : string) (st : St) : St * Session :=
  let '(s, x) := repo_get k (lo_sessions st) in (set_sessions s st, x).
Definition save_session (x : Session) (st : St) : St * option string :=
  let '(s, e) := repo_save x (lo_sessions st) in (set_sessions s st, e).

(** [archive_inner] with the summary the consolidator gave, and [archive]. *)
Definition archive_inner (k : string) (summary : option string) (st : St) : St * option string :=
  match summary with
  | Some text =>
      if is_empty text || String.eqb text "(nothing)" then (st, None)
      else
        let '(st, s) := get_session k st in
        let last_active := updated_at s in
        let entry := JObj [("text", JStr text); ("last_active", JStr (al_to_rfc3339 L last_active))] in
        let '(st, e) := save_session (with_metadata s (<["_last_summary" := entry]> (metadata s))) st in
        match e with
        | Some e => (st, Some e)
        | None =>
            (set_compact ((λ ac, mkCompact (ttl_minutes ac) (archiving ac) (<[k := (text, last_active)]> (summaries ac)))
                            <$> lo_compact st) st, None)
        end
  | None => (st, None)
  end.

Definition archive (k : string) (summary : option string) (st : St) : St :=
  let st := (archive_inner k summary st).1 in
  set_compact ((λ ac, mkCompact (ttl_minutes ac) (archiving ac ∖ {[k]}) (summaries ac)) <$> lo_compact st) st.

(** [check_expired] up to the spawning: the keys whose archival is started. *)
Definition expire_step (now : Z) (active : gset string) (acc : AutoCompact * list string) (info : json) : AutoCompact * list string :=
  let '(ac, started) := acc in
  let k := default "" (get_str "key" info) in
  if is_empty k || bool_decide (k ∈ archiving ac) || bool_decide (k ∈ active)
     || negb (is_expired ac (get_str "updated_at" info ≫= al_parse_time L) now)
  then acc
  else (mkCompact (ttl_minutes ac) (archiving ac ∪ {[k]}) (summaries ac), started ++ [k]).

Definition check_expired (now : Z) (active : gset string) (listing : list json) (ac : AutoCompact) : AutoCompact * list string :=
  foldl (expire_step now active) (ac, []) listing.

Definition prepare_session (ac : AutoCompact) (s : Session) (k : string) (st : St) : St * Session * option string :=
  let '(st, s) := if bool_decide (k ∈ archiving ac) || is_expired ac (Some (updated_at s)) (time_now st)
                  then get_session k st else (st, s) in
  match summaries ac !! k with
  | Some (text, ts) =>
      (set_compact (Some (mkCompact (ttl_minutes ac) (archiving ac) (delete k (summaries ac)))) st, s,
       Some (format_summary (al_to_rfc3339 L) text ts))
  | None =>
      (st, s,
       (λ meta, format_summary (al_to_rfc3339 L) (default "" (get_str "text" meta))
                  (default (time_now st) (get_str "last_active" meta ≫= al_parse_time L)))
         <$> metadata s !! "_last_summary")
  end.

(** ** Helpers of a turn *)

Definition effective_session_key (msg : InboundMessage) : string :=
  if lc_unified (al_config L) then UNIFIED_SESSION_KEY else session_key msg.

(** [u32] arithmetic. *)
Definition replay_token_budget (ctx : Z) : Z :=
  if (ctx =? 0)%Z then 0
  else
    let budget := (Z.max 0 (Z.max 0 (ctx - 4096) - 1024))%Z in
    if (0 <? budget)%Z then budget else Z.max 128 (ctx / 2).

Definition runtime_chat_id (msg : InboundMessage) : string :=
  default (in_chat_id msg) (in_metadata msg !! "context_chat_id" ≫= as_str).

Definition preview (text : string) (n : nat) : run string :=
  if n <? String.length text then let! t := run_of_option (slice_to text n) in Returns (t +:+ "...") else Returns text.

Definition request_context (channel chat_id : string) (meta : gmap string json) (k : option string) : RequestContext :=
  mkReqCtx channel chat_id (meta !! "message_id" ≫= as_str) k meta.

Definition set_tool_context (rc : RequestContext) (st : St) : St := set_world (al_set_context L rc (lo_world st)) st.

Definition start_turn (st : St) : St := if al_message_tool L then set_world (al_start_turn L (lo_world st)) st else st.

Definition opt_media (msg : InboundMessage) : option (list string) := match in_media msg with [] => None | l => Some l end.

Definition build_for (st : St) := build_messages (al_from_str L) (to_string (al_env L)) (al_base64 L) (al_yaml_parse L)
  (al_yaml_print L) (al_prompt L (lo_world st)).

(** [AgentRunSpec::new] and the fields the loop sets. *)
Definition run_spec (initial : list json) (k : option string) (window : option Z) : AgentRunSpec W :=
  let c := al_config L in
  mkSpec initial (al_tools L) (default (default_model (provider (al_env L))) (lc_model c)) (lc_max_iterations c)
    (lc_max_tool_result_chars c) None None None (Some DEFAULT_ERROR_MESSAGE) None false false (Some (lc_workspace c)) k
    window None (lc_retry_mode c) None false true false (λ o, o).

Definition run_runner (spec : AgentRunSpec W) (st : St) : run (St * AgentRunResult * list RunEvent) :=
  let! (w, res, trace) := run_agent (al_env L) spec (al_fuel L) (al_sfuel L) (lo_world st) in
  Returns (set_world w st, res, trace).

Definition run_agent_loop (initial : list json) (k : option string) (st : St) : run (St * AgentRunResult) :=
  let! (st, res, _) := run_runner (run_spec initial k (Some (al_window L (lo_world st)))) st in Returns (st, res).

(** The checkpoint and a pending turn are restored; with [both], one after the other. *)
Definition restore_session (k : string) (both : bool) (s : Session) (st : St) : St * Session * option string :=
  let '(s, r1) := restore_runtime_checkpoint (stamp_now st) s in
  let '(st, e1) := if r1 then save_session s st else (st, None) in
  match e1 with
  | Some e => (st, s, Some e)
  | None =>
      if r1 && negb both then (st, s, None)
      else
        let '(s, r2) := restore_pending_user_turn (stamp_now st) s in
        if r2 then let '(st, e2) := save_session s st in (st, s, e2) else (st, s, None)
  end.

Definition assemble_outbound (msg : InboundMessage) (content : string) (had : bool) (stop : string) (latency : option Z) (st : St)
    : run (option OutboundMessage) :=
  if al_message_tool L && al_sent L (lo_world st) && (negb had || String.eqb stop "empty_final_response") then Returns None
  else
    let! _ := preview content 120 in
    let meta := match latency with Some ms => <["latency_ms" := JInt ms]> (in_metadata msg) | None => in_metadata msg end in
    Returns (Some (mkOutbound (in_channel msg) (in_chat_id msg) content None [] meta)).

(** ** The states of a turn *)

Definition with_session (t : TurnContext) (s : Session) (summary : option string) : TurnContext :=
  mkTurn (tn_msg t) (tn_key t) (Some s) (tn_history t) (tn_initial t) (tn_final t) (tn_tools_used t) (tn_all t) (tn_stop t)
    (tn_had t) (tn_early t) (tn_skip t) (tn_outbound t) summary (tn_latency t) (tn_trace t).

Abbreviation Handled := (run (St * TurnContext * result string string)).

Definition state_restore (t : TurnContext) (st : St) : Handled :=
  let! _ := preview (in_content (tn_msg t)) 80 in
  let '(st, s) := match tn_session t with Some s => (st, s) | None => get_session (tn_key t) st end in
  let '(st, s, e) := restore_session (tn_key t) true s st in
  Returns (st, with_session t s (tn_summary t), match e with Some e => Err e | None => Ok "ok" end).

Definition state_compact (t : TurnContext) (st : St) : Handled :=
  match lo_compact st, tn_session t with
  | Some ac, Some s =>
      let '(st, s, summary) := prepare_session ac s (tn_key t) st in
      Returns (st, with_session t s (match summary with Some x => Some x | None => tn_summary t end), Ok "ok")
  | _, _ => Returns (st, t, Ok "ok")
  end.

Definition state_command (t : TurnContext) (st : St) : Handled := Returns (st, t, Ok "dispatch").

Definition state_build (t : TurnContext) (st : St) : Handled :=
  let st :=
    match al_consolidator L with
    | Some (estimate, consolidate) =>
        if (replay_token_budget (al_window L (lo_world st)) <? Z.of_nat (estimate (tn_key t) (length (tn_history t)) st))%Z
        then (get_session (tn_key t) (consolidate (tn_key t) st)).1 else st
    | None => st
    end in
  let msg := tn_msg t in
  let st := set_tool_context (request_context (in_channel msg) (in_chat_id msg) (in_metadata msg) (Some (tn_key t))) st in
  let st := start_turn st in
  let '(st, s) := get_session (tn_key t) st in
  let history := messages s in
  let initial := build_for st history (in_content msg) (opt_media msg) (Some (in_channel msg)) (Some (in_chat_id msg)) "user"
                   None (tn_summary t) in
  let '(st, s) := get_session (tn_key t) st in
  (* [get_or_create] hands out a copy, which is dropped here. *)
  let '(_, early) := persist_user_message_early (al_to_rfc3339 L) (time_now st) msg s in
  Returns (st, mkTurn msg (tn_key t) (tn_session t) history initial (tn_final t) (tn_tools_used t) (tn_all t) (tn_stop t) (tn_had t)
                 early (tn_skip t) (tn_outbound t) (tn_summary t) (tn_latency t) (tn_trace t), Ok "ok").

Definition state_run (t : TurnContext) (st : St) : Handled :=
  let! (st, res) := run_agent_loop (tn_initial t) (Some (tn_key t)) st in
  Returns (st, mkTurn (tn_msg t) (tn_key t) (tn_session t) (tn_history t) (tn_initial t) (final_content res) (tools_used res)
                 (res_messages res) (stop_reason res) (had_injections res) (tn_early t) (tn_skip t) (tn_outbound t)
                 (tn_summary t) (tn_latency t) (tn_trace t), Ok "ok").

Definition NO_RESPONSE : string := "Sorry, I couldn't generate a response.".

Definition reply_text (final : option string) : string :=
  match final with Some s => if is_empty (trim s) then NO_RESPONSE else s | None => NO_RESPONSE end.

(** [started] is the world when the turn began. *)
Definition state_save (started : W) (t : TurnContext) (st : St) : Handled :=
  let skip := 1 + length (tn_history t) + (if tn_early t then 1 else 0) in
  let latency := Some (al_elapsed L started (lo_world st) * 1000)%Z in
  let '(st, s) := get_session (tn_key t) st in
  let! s := save_turn (lc_max_tool_result_chars (al_config L)) (stamp_now st) (time_now st) s (tn_all t) skip latency in
  let '(st, e) := save_session (clear_runtime_checkpoint (clear_pending_user_turn s)) st in
  Returns (st, mkTurn (tn_msg t) (tn_key t) (tn_session t) (tn_history t) (tn_initial t) (Some (reply_text (tn_final t)))
                 (tn_tools_used t) (tn_all t) (tn_stop t) (tn_had t) (tn_early t) skip (tn_outbound t) (tn_summary t) latency
                 (tn_trace t), match e with Some e => Err e | None => Ok "ok" end).

Definition state_respond (t : TurnContext) (st : St) : Handled :=
  let! out := assemble_outbound (tn_msg t) (default "" (tn_final t)) (tn_had t) (tn_stop t) (tn_latency t) st in
  Returns (st, mkTurn (tn_msg t) (tn_key t) (tn_session t) (tn_history t) (tn_initial t) (tn_final t) (tn_tools_used t) (tn_all t)
                 (tn_stop t) (tn_had t) (tn_early t) (tn_skip t) out (tn_summary t) (tn_latency t) (tn_trace t), Ok "ok").

Definition handler (started : W) (s : TurnState) : TurnContext → St → Handled :=
  match s with
  | TRestore => state_restore | TCompact => state_compact | TCommand => state_command | TBuild => state_build
  | TRun => state_run | TSave => state_save started | TRespond => state_respond | TDone => λ t st, Returns (st, t, Ok "ok")
  end.

Definition traced (s : TurnState) (t : TurnContext) : TurnContext :=
  mkTurn (tn_msg t) (tn_key t) (tn_session t) (tn_history t) (tn_initial t) (tn_final t) (tn_tools_used t) (tn_all t) (tn_stop t)
    (tn_had t) (tn_early t) (tn_skip t) (tn_outbound t) (tn_summary t) (tn_latency t) (tn_trace t ++ [s]).

(** The loop of [process_message]: the turn at its end, or the error it stopped with. *)
Fixpoint run_states (fuel : nat) (started : W) (s : TurnState) (t : TurnContext) (st : St) : run (St * TurnContext * option string) :=
  match fuel with
  | O => OutOfFuel
  | S fuel =>
      if bool_decide (s = TDone) then Returns (st, t, None)
      else
        let! (st, t, r) := handler started s t st in
        let t := traced s t in
        match r with
        | Err e => Returns (st, t, Some e)
        | Ok event =>
            match find_transition s event with
            | Some next => run_states fuel started next t st
            | None => Returns (st, t, Some "No transition")
            end
        end
  end.

Definition TURN_FUEL : nat := 8.

(** The trace of the turn is returned with its outcome. *)
Definition process_message (msg : InboundMessage) (k : option string) (st : St)
    : run (St * list TurnState * result (option OutboundMessage) string) :=
  let! (st, t, e) := run_states TURN_FUEL (lo_world st) TRestore (new_turn msg (default (session_key msg) k)) st in
  Returns (st, tn_trace t, match e with Some e => Err e | None => Ok (tn_outbound t) end).

Definition process_direct (content k channel chat_id : string) (media : option (list string)) (st : St)
    : run (St * option OutboundMessage) :=
  let msg := mkInbound channel "user" chat_id content (time_now st) (default [] media) ∅ None in
  let! (st, _, r) := process_message msg (Some k) st in
  Returns (st, match r with Ok out => out | Err _ => None end).

(** ** The service loop's path *)

Definition plain_outbound (msg : InboundMessage) (content : string) : OutboundMessage :=
  mkOutbound (in_channel msg) (in_chat_id msg) content None [] ∅.

(** Between the awaits of [process_inbound] other messages are handled: a task is at one of
    these points, with what it carries. *)
Inductive Phase :=
| PStart
| PRestore
| PBuild
| PRun (initial : list json)
| PRecord (res : AgentRunResult)
| PClear (res : AgentRunResult)
| PPublish (res : AgentRunResult)
| PDone (res : AgentRunResult).

Definition short_circuit (reply : string) : AgentRunResult := mkResult (Some reply) [] [] ∅ "short_circuit" None [] false.

Definition record_exchange (msg : InboundMessage) (content : string) (now : Z) (s : Session) : Session :=
  let s := add_message (al_to_rfc3339 L) s "user" (in_content msg) [] now now in
  add_message (al_to_rfc3339 L) s "assistant" content [] now now.

Definition settle_context (res : AgentRunResult) (trace : list RunEvent) (c : AgentContext) : AgentContext :=
  let c := al_sync L res trace c in
  let final := if String.eqb (stop_reason res) "tool_error" || bool_decide (is_Some (res_error res)) then Terminated else Completed in
  let c := attempt_write c (set_lifecycle_state c final) in
  match final_content res with
  | Some content => attempt_write c (set_response_payload c (mkPayload content [] [] []))
  | None => c
  end.

Definition inbound_step (msg : InboundMessage) (p : Phase) (st : St) : run (St * Phase) :=
  let k := session_key msg in
  match p with
  | PStart =>
      let '(st, reply) := match al_prefilter L with Some f => f msg st | None => (st, None) end in
      match reply with
      | Some reply => Returns (publish_outbound (plain_outbound msg reply) st, PDone (short_circuit reply))
      | None => Returns (st, PRestore)
      end
  | PRestore =>
      let '(st, s) := get_session k st in
      let '(st, _, _) := restore_session k false s st in
      Returns (start_turn (set_tool_context (request_context (in_channel msg) (in_chat_id msg) (in_metadata msg) (Some k)) st),
               PBuild)
  | PBuild =>
      let '(st, s) := get_session k st in
      Returns (st, PRun (build_for st (messages s) (in_content msg) (opt_media msg) (Some (in_channel msg)) (Some (in_chat_id msg))
                           "user" None None))
  | PRun initial =>
      let st := on_agent_context (λ c, attempt_write c (set_lifecycle_state c Active)) st in
      let! (st, res, trace) := run_runner (run_spec initial (Some k) (lc_context_window (al_config L))) st in
      Returns (on_agent_context (settle_context res trace) st, PRecord res)
  | PRecord res =>
      match final_content res with
      | Some content =>
          let '(st, s) := get_session k st in
          Returns ((save_session (record_exchange msg content (time_now st) s) st).1, PClear res)
      | None => Returns (st, PClear res)
      end
  | PClear res =>
      let '(st, s) := get_session k st in
      Returns ((save_session (clear_pending_user_turn (clear_runtime_checkpoint s)) st).1, PPublish res)
  | PPublish res =>
      let sent := al_message_tool L && al_sent L (lo_world st) in
      Returns (match final_content res with
               | Some text => if sent then st else publish_outbound (plain_outbound msg text) st
               | None => st
               end, PDone res)
  | PDone res => Returns (st, PDone res)
  end.

(** A message handled without interruption. *)
Fixpoint run_phases (n : nat) (msg : InboundMessage) (p : Phase) (st : St) : run (St * Phase) :=
  match n with
  | O => Returns (st, p)
  | S n => let! (st, p) := inbound_step msg p st in run_phases n msg p st
  end.

Definition process_inbound (msg : InboundMessage) (st : St) : run (St * Phase) := run_phases 7 msg PStart st.

(** ** System messages *)

Definition system_target (msg : InboundMessage) : string * string :=
  match find_char ":" (in_chat_id msg) with
  | Some i => (stake i (in_chat_id msg), sdrop (S i) (in_chat_id msg))
  | None => ("cli", in_chat_id msg)
  end.

Definition process_system_message (msg : InboundMessage) (k : option string) (st : St) : run (St * OutboundMessage) :=
  let '(channel, chat_id) := system_target msg in
  let sk := default (channel +:+ ":" +:+ chat_id) (in_metadata msg !! "session_key_override" ≫= as_str) in
  let '(st, s) := get_session sk st in
  let '(st, _, _) := restore_session sk true s st in
  let is_subagent := String.eqb (sender_id msg) "subagent" in
  let st := set_tool_context (request_context channel chat_id (in_metadata msg) k) st in
  let '(st, s) := get_session sk st in
  let initial := build_for st (messages s) (if is_subagent then "" else in_content msg) None (Some channel) (Some chat_id)
                   (if is_subagent then "assistant" else "user") (Some (sender_id msg)) None in
  let! (st, res) := run_agent_loop initial (Some sk) st in
  Returns (st, mkOutbound channel chat_id (default "Background task completed." (final_content res)) None []
                 (match in_metadata msg !! "origin_message_id" with Some v => {["origin_message_id" := v]} | None => ∅ end)).

(** [retain_heartbeat_session], when the lock is free. *)
Definition retain_heartbeat_session (max_messages : nat) (st : St) : St :=
  let '(st, s) := get_session "heartbeat:default" st in
  let '(st, s) := get_session (key s) st in
  (save_session (retain_recent_legal_suffix s max_messages (time_now st)) st).1.

(** ** Built-in commands *)

Record AgentRuntimeInfo := mkInfo { ri_model : string; ri_workspace : string; ri_window : option Z }.

Definition help_text (names : list string) : string :=
  "Available commands:" +:+ String nl ""
  +:+ "  /help             show this help" +:+ String nl ""
  +:+ "  /version          print agent version" +:+ String nl ""
  +:+ "  /status           show runtime status" +:+ String nl ""
  +:+ "  /clear | /new     clear current session history" +:+ String nl ""
  +:+ "  /model [name]     show or set active model" +:+ String nl ""
  +:+ String nl "Available tools:" +:+ String nl ""
  +:+ match names with
      | [] => "  (none registered)" +:+ String nl ""
      | _ => join "" ((λ n, "  " +:+ n +:+ String nl "") <$> names)
      end.

Definition status_text (info : AgentRuntimeInfo) (k : string) (st : St) : St * string :=
  let '(st, s) := get_session k st in
  (st, "Status:" +:+ String nl ""
       +:+ "  model:             " +:+ ri_model info +:+ String nl ""
       +:+ "  workspace:         " +:+ ri_workspace info +:+ String nl ""
       +:+ "  context window:    " +:+ match ri_window info with Some n => pretty n | None => "<provider default>" end +:+ String nl ""
       +:+ "  session:           " +:+ k +:+ String nl ""
       +:+ "  history length:    " +:+ pretty (length (messages s))).

Definition clear_session (k : string) (st : St) : St * string :=
  let '(st, s) := get_session k st in
  let removed := pretty (length (messages s)) in
  let '(st, e) := save_session (clear s (time_now st)) st in
  (st, match e with
       | None => "Cleared session " +:+ k +:+ " (" +:+ removed +:+ " messages)."
       | Some e => "Cleared in-memory session " +:+ k +:+ " (" +:+ removed +:+ " messages) but failed to persist: " +:+ e
       end).

Definition model_cmd (info : AgentRuntimeInfo) (args : string) : AgentRuntimeInfo * string :=
  if is_empty args then (info, "Current model: " +:+ ri_model info)
  else (mkInfo args (ri_workspace info) (ri_window info), "Model changed: " +:+ ri_model info +:+ " -> " +:+ args).

(** The text up to its first white space, and what follows it. *)
Fixpoint split_once_ws (s : string) : option (string * string) :=
  match s with
  | "" => None
  | String a r1 =>
      if ws1 a then Some ("", r1) else
      match (match r1 with String b r2 => if ws2 a b then Some r2 else
                             match r2 with String c r3 => if ws3 a b c then Some r3 else None | "" => None end
                         | "" => None end) with
      | Some rest => Some ("", rest)
      | None => (λ p, (String a p.1, p.2)) <$> split_once_ws r1
      end
  end.

(** [names] are the sorted names of the tools, [version] the crate's; [switch] is the callback
    for models, if one is set. *)
Definition dispatch_prefilter (names : list string) (version : string)
    (switch : option (string → St → St * result string string)) (msg : InboundMessage) (info : AgentRuntimeInfo) (st : St)
    : St * AgentRuntimeInfo * option string :=
  let text := trim (in_content msg) in
  if negb (starts_with text "/") then (st, info, None)
  else
    let '(raw, args) := match split_once_ws text with Some (c, a) => (c, trim a) | None => (text, "") end in
    let cmd := to_lowercase raw in
    if bool_decide (cmd ∈ ["/help"; "/?"]) then (st, info, Some (help_text names))
    else if String.eqb cmd "/version" then (st, info, Some ("RustBot agent v" +:+ version +:+ " (crate: agent)"))
    else if String.eqb cmd "/status" then let '(st, r) := status_text info (session_key msg) st in (st, info, Some r)
    else if bool_decide (cmd ∈ ["/clear"; "/new"]) then let '(st, r) := clear_session (session_key msg) st in (st, info, Some r)
    else if String.eqb cmd "/model" then
      match switch with
      | Some cb => let '(st, r) := cb args st in (st, info, Some (match r with Ok m => m | Err e => "Error: " +:+ e end))
      | None => let '(info, r) := model_cmd info args in (st, info, Some r)
      end
    else (st, info, None).
End Loop.
