(* ===== verification/LoopProps.v ===== *)
(** * Properties of the agent loop

    The path of a turn, what a turn leaves in its session, and messages handled at the same time
    by the service loop.  The theorems hold over every implementation of the session interface;
    the session manager of [SessionStore.v] is one. *)

From S2P Require Import Prelude RustStr F64 Json Session SessionStore ToolSchema ToolRegistry Provider Retry.
From S2P Require Import Governance GovernanceProps Runner RunnerProps.
From S2P Require Import Bus Context ContextProps Memory Skills PromptBuilder TurnLog AgentLoop.

Local Open Scope stdpp_scope.
Local Open Scope hive_scope.

(** ** The path of a turn *)

Section Path.
Context {W R : Type} `{!SessionRepo R} (L : Loop W R).

(** An error that a save reported. *)
Definition save_error (e : string) : Prop := ∃ s (st st' : LoopState W R), save_session s st = (st', Some e).

Lemma restore_session_error k both s st st' s' e :
  restore_session L k both s st = (st', s', Some e) → save_error e.
Proof.
  unfold restore_session. destruct (restore_runtime_checkpoint _ s) as [s1 []]; [destruct (save_session s1 st) as [st1 [e1|]] eqn:E1|].
  - intros [= <- <- <-]. by exists s1, st, st1.
  - destruct (_ && _); [done|]. destruct (restore_pending_user_turn _ s1) as [s2 []]; [|done].
    destruct (save_session s2 st1) as [st2 [e2|]] eqn:E2; intros [= <- <- <-]. by exists s2, st1, st2.
  - cbn. destruct (restore_pending_user_turn _ s1) as [s2 []]; [|done].
    destruct (save_session s2 st) as [st2 [e2|]] eqn:E2; intros [= <- <- <-]. by exists s2, st, st2.
Qed.

(** What each handler answers: the event that leads on, or the error of a save. *)
Lemma handler_events started s t st st' t' r :
  handler L started s t st = Returns (st', t', r) →
  tn_trace t' = tn_trace t ∧
  match r with
  | Ok event => event = (match s with TCommand => "dispatch" | _ => "ok" end)
  | Err e => (s = TRestore ∨ s = TSave) ∧ save_error e
  end.
Proof.
  destruct s; cbn [handler].
  - unfold state_restore. destruct (preview _ _); cbn [run_bind]; [|done..].
    destruct (match tn_session t with Some s => (st, s) | None => get_session (tn_key t) st end) as [st1 s1].
    destruct (restore_session _ _ _ _ _) as [[st2 s2] [e|]] eqn:E; intros [= <- <- <-]; [|done].
    split; [done|]. split; [by left|]. by eapply restore_session_error.
  - unfold state_compact. destruct (lo_compact st) as [ac|]; [|by intros [= <- <- <-]].
    destruct (tn_session t) as [s|]; [|by intros [= <- <- <-]].
    destruct (prepare_session _ _ _ _ _) as [[st2 s2] sm]. by intros [= <- <- <-].
  - by intros [= <- <- <-].
  - unfold state_build. destruct (get_session _ _) as [st1 s1]. destruct (get_session _ _) as [st2 s2].
    destruct (persist_user_message_early _ _ _ _) as [s3 early]. by intros [= <- <- <-].
  - unfold state_run. destruct (run_agent_loop _ _ _ _) as [[st1 res]| |]; cbn [run_bind]; [|done..]. by intros [= <- <- <-].
  - unfold state_save. destruct (get_session _ _) as [st1 s1]. destruct (save_turn _ _ _ _ _ _ _) as [s2| |]; cbn [run_bind]; [|done..].
    destruct (save_session _ _) as [st2 [e|]] eqn:E; intros [= <- <- <-]; [|done]. split; [done|]. split; [by right|]. by eexists _, _, _.
  - unfold state_respond. destruct (assemble_outbound _ _ _ _ _ _ _) as [out| |]; cbn [run_bind]; [|done..]. by intros [= <- <- <-].
  - by intros [= <- <- <-].
Qed.

Definition turn_path : list TurnState := [TRestore; TCompact; TCommand; TBuild; TRun; TSave; TRespond].

(** The states from [s] on. *)
Definition path_from (s : TurnState) : list TurnState :=
  match s with
  | TRestore => turn_path | TCompact => drop 1 turn_path | TCommand => drop 2 turn_path | TBuild => drop 3 turn_path
  | TRun => drop 4 turn_path | TSave => drop 5 turn_path | TRespond => drop 6 turn_path | TDone => []
  end.

Lemma run_states_path fuel started s t st st' t' e :
  run_states L fuel started s t st = Returns (st', t', e) →
  match e with
  | None => tn_trace t' = tn_trace t ++ path_from s
  | Some e => save_error e ∧ ∃ n, tn_trace t' = tn_trace t ++ take n (path_from s) ∧
      (last (tn_trace t') = Some TRestore ∨ last (tn_trace t') = Some TSave)
  end.
Proof.
  revert s t st. induction fuel as [|fuel IH]; intros s t st; cbn [run_states]; [done|].
  case_bool_decide as Hd; [subst; intros [= <- <- <-]; by rewrite app_nil_r|].
  destruct (handler L started s t st) as [[[st1 t1] r]| |] eqn:Eh; cbn [run_bind]; [|done..].
  apply handler_events in Eh as [Ht1 Hr]. destruct r as [event|err].
  2:{ intros [= <- <- <-]. destruct Hr as [Hs He]. split; [done|]. exists 1. cbn. rewrite Ht1. split; [by destruct s|].
      rewrite last_snoc. destruct Hs as [-> | ->]; [by left|by right]. }
  subst event. assert (∃ next, find_transition s (match s with TCommand => "dispatch" | _ => "ok" end) = Some next ∧
    path_from s = s :: path_from next) as (next & -> & Hp) by (destruct s; try done; by eexists).
  intros H. apply IH in H. rewrite Hp. cbn in H. rewrite Ht1 in H. destruct e as [e|].
  - destruct H as (He & n & Hn & Hl). split; [done|]. exists (S n). split; [by rewrite Hn, <-app_assoc|done].
  - by rewrite H, <-app_assoc.
Qed.

(** One state of a turn that succeeds. *)
Lemma run_states_step fuel started s next t st st' t' :
  s ≠ TDone → find_transition s (match s with TCommand => "dispatch" | _ => "ok" end) = Some next →
  run_states L (S fuel) started s t st = Returns (st', t', None) →
  ∃ st1 t1 ev, handler L started s t st = Returns (st1, t1, Ok ev) ∧
    run_states L fuel started next (traced s t1) st1 = Returns (st', t', None).
Proof.
  intros Hs Hn. cbn [run_states]. rewrite bool_decide_false by done.
  destruct (handler L started s t st) as [[[st1 t1] r]| |] eqn:Eh; cbn [run_bind]; [|done..].
  pose proof (handler_events _ _ _ _ _ _ _ Eh) as [_ Hr]. destruct r as [event|]; [|done]. subst event. rewrite Hn.
  intros H. by eexists _, _, _.
Qed.

(** A turn goes through its seven states in order.  When it fails, it fails where a session is
    saved, at the beginning or at the end, with the error of that save; otherwise it has been
    through all of them. *)
Theorem process_message_path msg k st st' trace r :
  process_message L msg k st = Returns (st', trace, r) →
  match r with
  | Ok _ => trace = turn_path
  | Err e => save_error e ∧ (trace = [TRestore] ∨ trace = take 6 turn_path)
  end.
Proof.
  unfold process_message. destruct (run_states _ _ _ _ _ _) as [[[st1 t1] e]| |] eqn:E; cbn [run_bind]; [|done..].
  intros [= <- <- <-]. apply run_states_path in E. destruct e as [e|]; [|done]. cbn in E. destruct E as (He & n & Hn & Hl). split; [done|].
  rewrite Hn in *. do 8 (destruct n as [|n]; [destruct Hl as [Hl|Hl]; cbn in Hl; try discriminate; by auto|]). exfalso. by destruct Hl.
Qed.
End Path.

(** ** What a turn leaves in its session *)

Section Saved.
Context {W R : Type} `{!SessionRepo R, !SessionRepoLaws R} (L : Loop W R).

Abbreviation holds k s st := (held k s (lo_sessions st)).

Lemma get_session_spec k (st st' : LoopState W R) s :
  get_session k st = (st', s) → holds k s st' ∧ lo_world st' = lo_world st ∧ lo_compact st' = lo_compact st.
Proof.
  unfold get_session. pose proof (get_held k (lo_sessions st)) as H. destruct (repo_get k (lo_sessions st)) as [r x].
  by intros [= <- <-].
Qed.

Lemma get_session_held k (st : LoopState W R) s : holds k s st → get_session k st = (st, s).
Proof. intros H. unfold get_session. rewrite (held_get k s _ H). by destruct st. Qed.

Lemma save_session_ok s (st st' : LoopState W R) :
  save_session s st = (st', None) → holds (key s) s st' ∧ lo_world st' = lo_world st ∧ lo_compact st' = lo_compact st.
Proof.
  unfold save_session. destruct (repo_save s (lo_sessions st)) as [r e] eqn:E. intros [= <- ->].
  split; [|done]. by apply save_held in E.
Qed.

Lemma restore_checkpoint_key stamp s : key (restore_runtime_checkpoint stamp s).1 = key s.
Proof. unfold restore_runtime_checkpoint. by destruct (metadata s !! _) as [[]|]. Qed.

Lemma restore_pending_key stamp s : key (restore_pending_user_turn stamp s).1 = key s.
Proof.
  unfold restore_pending_user_turn. destruct (default false _); [|done]. destruct (last (messages s)); [|done].
  by destruct (str_field_is _ _ _).
Qed.

Lemma unrestored_same stamp s :
  ((restore_runtime_checkpoint stamp s).2 = false → (restore_runtime_checkpoint stamp s).1 = s) ∧
  ((restore_pending_user_turn stamp s).2 = false → (restore_pending_user_turn stamp s).1 = s).
Proof.
  unfold restore_runtime_checkpoint, restore_pending_user_turn. split; [by destruct (metadata s !! _) as [[]|]|].
  by destruct (default false _).
Qed.

Lemma restore_session_ok k both s st st' s' :
  holds k s st → restore_session L k both s st = (st', s', None) →
  holds k s' st' ∧ lo_world st' = lo_world st ∧ lo_compact st' = lo_compact st.
Proof.
  intros Hs. pose proof (held_key _ _ _ Hs) as Hk. unfold restore_session.
  pose proof (restore_checkpoint_key (stamp_now L st) s) as Hk1. destruct (unrestored_same (stamp_now L st) s) as [Hu _].
  destruct (restore_runtime_checkpoint _ s) as [s1 r1]. cbn in *. rewrite Hk in Hk1.
  assert (∀ st1, (if r1 then save_session s1 st else (st, None)) = (st1, None) →
    holds k s1 st1 ∧ lo_world st1 = lo_world st ∧ lo_compact st1 = lo_compact st) as H1.
  { intros st1. destruct r1; [intros E; apply save_session_ok in E; by rewrite Hk1 in E|]. intros [= <-]. by rewrite Hu. }
  destruct (if r1 then _ else _) as [st1 [e1|]]; [done|]. destruct (H1 st1 eq_refl) as (Hh1 & Hw1 & Hc1).
  destruct (r1 && negb both); [by intros [= <- <-]|].
  pose proof (restore_pending_key (stamp_now L st1) s1) as Hk2. destruct (unrestored_same (stamp_now L st1) s1) as [_ Hu2].
  destruct (restore_pending_user_turn _ s1) as [s2 r2]. cbn in *. destruct r2; [|intros [= <- <-]; by rewrite Hu2].
  destruct (save_session s2 st1) as [st2 e2] eqn:E2. intros [= <- <- ->]. apply save_session_ok in E2 as (Hh & -> & ->).
  by rewrite Hk2, Hk1 in Hh.
Qed.

(** The session at the beginning of a turn, restored. *)
Definition restored (k : string) (st : LoopState W R) (s : Session) : Prop :=
  ∃ st0 s0 st1, get_session k st = (st0, s0) ∧ restore_session L k true s0 st0 = (st1, s, None).

(** A turn that succeeded, taken apart. *)
Lemma turn_inv msg k0 st st' trace out :
  al_consolidator L = None → lo_compact st = None → process_message L msg k0 st = Returns (st', trace, Ok out) →
  let k := default (session_key msg) k0 in
  ∃ s st2 w res s' lat,
    restored k st s ∧
    run_agent_loop L (build_for L st2 (messages s) (in_content msg) (opt_media msg) (Some (in_channel msg)) (Some (in_chat_id msg))
                        "user" None None) (Some k) st2 = Returns (w, res) ∧
    save_turn (lc_max_tool_result_chars (al_config L)) (stamp_now L w) (time_now L w) s (res_messages res)
      (1 + length (messages s) + (if (persist_user_message_early (al_to_rfc3339 L) (time_now L st2) msg s).2 then 1 else 0))
      (Some lat) = Returns s' ∧
    holds k (clear_runtime_checkpoint (clear_pending_user_turn s')) st'.
Proof.
  intros Hcons Hcomp H. unfold process_message, TURN_FUEL in H.
  destruct (run_states L 8 _ _ _ _) as [[[stf tf] ef]| |] eqn:E; cbn [run_bind] in H; [|done..].
  injection H as <- _ H. destruct ef; [done|]. injection H as <-. set (k := default _ _) in *. cbn zeta.
  do 7 (eapply run_states_step in E; [|done|reflexivity]; let st := fresh "x" in let t := fresh "t" in destruct E as (st & t & ? & ? & E)).
  cbn [run_states] in E. rewrite bool_decide_true in E by done. injection E as <- _. cbn [handler snd] in *.
  rename H into Hre, H0 into Hco, H1 into Hcm, H2 into Hbu, H3 into Hru, H4 into Hsa, H5 into Hrs.
  unfold state_restore in Hre. cbn [tn_session new_turn tn_msg tn_key] in Hre. destruct (preview _ _); cbn [run_bind] in Hre; [|done..].
  destruct (get_session k st) as [st0 s0] eqn:Eg. destruct (restore_session L k true s0 st0) as [[st1 s] e1] eqn:Er.
  injection Hre as <- <- He. destruct e1; [done|]. clear He. pose proof (get_session_spec _ _ _ _ Eg) as (Hh0 & Hw0 & Hc0).
  pose proof (restore_session_ok _ _ _ _ _ _ Hh0 Er) as (Hh1 & Hw1 & Hc1). rewrite Hc0, Hcomp in Hc1.
  unfold state_compact in Hco. rewrite Hc1 in Hco. injection Hco as <- <- _. injection Hcm as <- <- _.
  unfold state_build in Hbu. rewrite Hcons in Hbu. cbn [with_session tn_key tn_msg traced new_turn tn_history tn_session tn_summary] in Hbu.
  set (st2 := start_turn _ _) in *. assert (holds k s st2) as Hh2 by (unfold st2, start_turn; by destruct (al_message_tool L)).
  rewrite !(get_session_held k st2 s Hh2) in Hbu.
  destruct (persist_user_message_early _ _ _ _) as [sx early] eqn:Ep. injection Hbu as <- <- _.
  unfold state_run in Hru. cbn [traced tn_initial tn_key] in Hru.
  destruct (run_agent_loop L _ _ _) as [[st3 res]| |] eqn:Erun; cbn [run_bind] in Hru; [|done..]. injection Hru as <- <- _.
  assert (holds k s st3) as Hh3.
  { unfold run_agent_loop, run_runner in Erun. destruct (run_agent _ _ _ _ _) as [[[w1 r1] t]| |]; cbn in Erun; [|done..]. by injection Erun as <- <-. }
  unfold state_save in Hsa. cbn [traced tn_history tn_key tn_early tn_all] in Hsa. rewrite (get_session_held k st3 s Hh3) in Hsa.
  destruct (save_turn _ _ _ _ _ _ _) as [s'| |] eqn:Es; cbn [run_bind] in Hsa; [|done..].
  destruct (save_session _ st3) as [st4 e4] eqn:E4. injection Hsa as <- <- He4. destruct e4; [done|]. clear He4.
  apply save_session_ok in E4 as (Hh4 & _ & _).
  unfold state_respond in Hrs. destruct (assemble_outbound _ _ _ _ _ _ _) as [o| |]; cbn [run_bind] in Hrs; [|done..]. injection Hrs as <- _ _.
  eexists s, st2, st3, res, s', _. split_and!; [by exists st0, s0, st1|exact Erun|rewrite Ep; exact Es|].
  cbn in Hh4. replace (key s') with k in Hh4; [done|]. unfold save_turn in Es. destruct (save_messages _ _ _); cbn in Es; [|done..].
  injection Es as <-. symmetry. apply (held_key _ _ _ Hh3).
Qed.

(** What of the conversation is saved: the messages the run has [added], where the [current]
    message counts as saved when it was [early], and is no message of its own when it was
    [merged] into the last one of the history. *)
Definition saved_part (early merged : bool) (current : json) (added : list json) : list json :=
  match early, merged with
  | true, false | false, true => added
  | true, true => drop 1 added
  | false, false => current :: added
  end.

Definition has_input (msg : InboundMessage) : bool :=
  negb (is_empty (trim (in_content msg))) || negb (bool_decide (in_media msg = [])).

Definition ends_with_user (history : list json) : bool :=
  match last history with Some m => str_field_is "role" "user" m | None => false end.

Lemma build_for_split st history msg :
  ∃ front current, build_for L st history (in_content msg) (opt_media msg) (Some (in_channel msg)) (Some (in_chat_id msg)) "user"
    None None = front ++ [current] ∧ length front = length history + (if ends_with_user history then 0 else 1).
Proof.
  pose proof (build_length (al_from_str L) (to_string (al_env L)) (al_base64 L) (al_yaml_parse L) (al_yaml_print L)
    (al_prompt L (lo_world st)) history (in_content msg) (opt_media msg) (Some (in_channel msg)) (Some (in_chat_id msg)) "user" None None) as Hl.
  unfold build_for, ends_with_user. destruct (build_messages _ _ _ _ _ _ _ _ _ _ _ _ _ _) as [|x l _] eqn:E using rev_ind.
  { cbn in Hl. destruct (last history) as [m|]; [destruct (str_field_is _ _ _)|]; cbn in Hl; lia. }
  exists l, x. split; [done|]. rewrite length_app in Hl. cbn in Hl.
  destruct (last history) as [m|]; [destruct (str_field_is _ _ _)|]; cbn in Hl |- *; lia.
Qed.

Lemma drop_saved (early merged : bool) (n : nat) (front : list json) current added :
  length front = n + (if merged then 0 else 1) →
  drop (1 + n + (if early then 1 else 0)) ((front ++ [current]) ++ added) = saved_part early merged current added.
Proof.
  intros Hl. rewrite <-app_assoc. cbn [app]. destruct early, merged; cbn [saved_part].
  - rewrite drop_app_ge by lia. replace (_ - _) with 2 by lia. by rewrite skipn_cons.
  - rewrite drop_app_ge by lia. by replace (_ - _) with 1 by lia.
  - rewrite drop_app_ge by lia. by replace (_ - _) with 1 by lia.
  - rewrite drop_app_ge by lia. by replace (_ - _) with 0 by lia.
Qed.

(** The messages of a turn's first request: the restored history and the message of the user. *)
Definition turn_prompt (st : LoopState W R) (msg : InboundMessage) (s : Session) : list json :=
  build_for L st (messages s) (in_content msg) (opt_media msg) (Some (in_channel msg)) (Some (in_chat_id msg)) "user" None None.

End Saved.
