(* ===== verification/LoopService.v ===== *)
(** * Messages handled at the same time

    [AgentLoop::run] of [crates/agent/src/loop_.rs] starts a task for each inbound message; a gate
    lets at most three of them past their start.  Here are the tasks as a step relation, what the
    sessions hold after any interleaving of them, and the session manager of [SessionStore.v] as
    the sessions the loop works on. *)

From S2P Require Import Prelude RustStr F64 Json Session SessionStore ToolSchema ToolRegistry ToolProps Provider Retry.
From S2P Require Import RetryProps Governance GovernanceProps Runner RunnerProps RunnerOutcome.
From S2P Require Import Bus Context ContextProps Memory Skills PromptBuilder TurnLog AgentLoop LoopProps.

Local Open Scope stdpp_scope.
Local Open Scope hive_scope.

(** ** The session manager as the loop's sessions *)

(** The manager with the files it works on, the clock, and what will go wrong: whether a legacy
    file can be moved, and the failure of each save to come. *)
Record Manager := mkManaged {
  mn_manager : SessionManager;
  mn_fs : fsys;
  mn_now : Z;
  mn_rename_ok : bool;
  mn_faults : list (option (nat * nat));
  mn_keys : map_Forall (λ k s, key s = k) (cache mn_manager)
}.

Section Managed.
Context (from_str : string → option json) (to_string : json → string) (to_rfc3339 : Z → string)
  (parse_from_rfc3339 : string → option Z) (naive_fraction naive_seconds : string → option (option Z))
  (hash_order : gmap string json → list (string * json)).

Abbreviation fetch := (get_or_create from_str parse_from_rfc3339 naive_fraction naive_seconds).
Abbreviation store := (save to_string to_rfc3339 hash_order).

Lemma load_key now mgr fs k ok fs' s :
  load from_str parse_from_rfc3339 naive_fraction naive_seconds now mgr fs k ok = (fs', Some s) → key s = k.
Proof.
  unfold load. destruct (match fs !! _ with Some _ => _ | None => _ end !! _) as [c|]; [|done].
  destruct (read_strict _ _ _ _ _ k c) as [s1|] eqn:E.
  - intros [= <- <-]. unfold read_strict in E. destruct (read_lines_strict _ _ _ _ _ _ _); cbn in E; [|done]. by injection E as <-.
  - intros [= <- H]. unfold repair in H. destruct (_ !! session_path mgr k) as [c'|]; [|done].
    destruct (read_lines_repair _ _ _ _ _ _ _ _) as [rd sk]. destruct (rd_messages rd); [destruct (bool_decide _); [done|]|]; by injection H as <-.
Qed.

Lemma get_or_create_spec now mgr fs k ok :
  map_Forall (λ k s, key s = k) (cache mgr) →
  let '(mgr', fs', s) := fetch now mgr fs k ok in
  map_Forall (λ k s, key s = k) (cache mgr') ∧ cache mgr' = <[k := s]> (cache mgr) ∧ key s = k.
Proof.
  intros H. unfold get_or_create. destruct (cache mgr !! k) as [s|] eqn:E.
  - split; [done|]. split; [by rewrite insert_id|]. by apply H in E.
  - destruct (load _ _ _ _ _ _ _ _ _) as [fs' l] eqn:El.
    assert (key (default (Session_new k now) l) = k) as Hk by (destruct l; [by eapply load_key|done]).
    split; [|done]. cbn. by apply map_Forall_insert_2.
Qed.

Lemma save_keys mgr fs s fsync fault :
  map_Forall (λ k s, key s = k) (cache mgr) → map_Forall (λ k s, key s = k) (cache (store mgr fs s fsync fault).1.1).
Proof.
  intros H. unfold save. destruct (fault ≫= _) as [[[i n] op]|]; [by destruct op|]. cbn. by apply map_Forall_insert_2.
Qed.

Definition managed_get (k : string) (m : Manager) : Manager * Session :=
  let r := fetch (mn_now m) (mn_manager m) (mn_fs m) k (mn_rename_ok m) in
  match cache (mn_manager m) !! k with
  | Some s => (m, s)
  | None =>
      (mkManaged r.1.1 r.1.2 (mn_now m) (mn_rename_ok m) (mn_faults m)
         (match r as r return (let '(mgr', _, s) := r in
              map_Forall (λ k s, key s = k) (cache mgr') ∧ cache mgr' = <[k := s]> (cache (mn_manager m)) ∧ key s = k) →
              map_Forall (λ k s, key s = k) (cache r.1.1) with (_, _, _) => λ H, proj1 H end
            (get_or_create_spec (mn_now m) (mn_manager m) (mn_fs m) k (mn_rename_ok m) (mn_keys m))), r.2)
  end.

Lemma managed_get_cache k m :
  cache (mn_manager (managed_get k m).1) = <[k := (managed_get k m).2]> (cache (mn_manager m)).
Proof.
  unfold managed_get. destruct (cache (mn_manager m) !! k) as [s|] eqn:E; [by rewrite insert_id|]. cbn [fst snd mn_manager].
  pose proof (get_or_create_spec (mn_now m) _ (mn_fs m) k (mn_rename_ok m) (mn_keys m)) as H.
  destruct (fetch _ _ _ _ _) as [[mgr' fs'] s]. by destruct H as (_ & H & _).
Qed.

Definition managed_save (s : Session) (m : Manager) : Manager * option string :=
  let fault := default None (head (mn_faults m)) in
  let r := store (mn_manager m) (mn_fs m) s false fault in
  (mkManaged r.1.1 r.1.2 (mn_now m) (mn_rename_ok m) (tail (mn_faults m)) (save_keys _ _ _ _ _ (mn_keys m)),
   if r.2 then None else Some "failed to save session").

Lemma managed_save_cache s m :
  let r := managed_save s m in
  cache (mn_manager r.1) = if r.2 is None then <[key s := s]> (cache (mn_manager m)) else cache (mn_manager m).
Proof.
  unfold managed_save. cbn [fst snd mn_manager]. unfold save.
  destruct (_ ≫= _) as [[[i n] op]|]; [by destruct op|done].
Qed.

Definition managed_repo : SessionRepo Manager := {| repo_get := managed_get; repo_save := managed_save |}.

(** The manager keeps the laws the loop relies on. *)
Program Definition managed_laws : @SessionRepoLaws Manager managed_repo := {|
  held k s m := cache (mn_manager m) !! k = Some s
|}.
Next Obligation.
  intros k m. cbn [repo_get managed_repo]. rewrite managed_get_cache. apply lookup_insert_eq.
Qed.
Next Obligation. intros k s m H. cbn in *. unfold managed_get. by rewrite H. Qed.
Next Obligation. intros k s m H. by apply (mn_keys m) in H. Qed.
Next Obligation.
  intros s m m' H. pose proof (managed_save_cache s m) as Hc. cbn in H. rewrite H in Hc. cbn in Hc |- *. rewrite Hc. apply lookup_insert_eq.
Qed.
Next Obligation.
  intros k k' s m H. cbn [repo_get managed_repo]. rewrite managed_get_cache. destruct (decide (k' = k)) as [->|]; [|by rewrite lookup_insert_ne].
  unfold managed_get. rewrite H. apply lookup_insert_eq.
Qed.
Next Obligation.
  intros s' k s m Hk H. pose proof (managed_save_cache s' m) as Hc. cbn zeta in Hc. cbn beta in *. cbn [repo_save managed_repo]. rewrite Hc.
  destruct (managed_save s' m).2; [done|]. by rewrite lookup_insert_ne.
Qed.
Next Obligation.
  intros s m m' e k s' H. pose proof (managed_save_cache s m) as Hc. cbn in H. rewrite H in Hc. cbn in Hc |- *. by rewrite Hc.
Qed.
End Managed.

(** ** The tasks *)

Section Service.
Context {W R : Type} `{!SessionRepo R, !SessionRepoLaws R} (L : Loop W R).

Abbreviation St := (LoopState W R).

(** [_concurrency_gate]. *)
Definition GATE : nat := 3.

Definition past_start (p : Phase) : bool := match p with PStart | PDone _ => false | _ => true end.

Definition in_progress (tasks : list (InboundMessage * Phase)) : nat := length (filter (λ t, past_start t.2) tasks).

(** A message arrives, a task goes to its next point, or the world goes on. *)
Inductive service_step : St * list (InboundMessage * Phase) → St * list (InboundMessage * Phase) → Prop :=
| msg_arrives msg st tasks : service_step (st, tasks) (st, tasks ++ [(msg, PStart)])
| task_moves i msg p p' st st' tasks :
    tasks !! i = Some (msg, p) → (p = PStart → in_progress tasks < GATE) →
    inbound_step L msg p st = Returns (st', p') →
    service_step (st, tasks) (st', <[i := (msg, p')]> tasks)
| world_moves w st tasks : service_step (st, tasks) (set_world w st, tasks).

(** What a task has said to its user, once it is recorded. *)
Definition answered (k : string) (t : InboundMessage * Phase) : option (InboundMessage * string) :=
  if String.eqb (session_key t.1) k
  then match t.2 with PClear res | PPublish res | PDone res => (λ c, (t.1, c)) <$> final_content res | _ => None end
  else None.

(** The two messages an exchange leaves, at the time it is recorded. *)
Definition exchange (e : InboundMessage * string * Z) : list json :=
  let '(msg, content, now) := e in
  let entry role text := JObj [("role", JStr role); ("content", JStr text); ("timestamp", JStr (al_to_rfc3339 L now))] in
  [entry "user" (in_content msg); entry "assistant" content].

Definition unmarked (s : Session) : Prop :=
  metadata s !! RUNTIME_CHECKPOINT_KEY = None ∧ metadata s !! PENDING_USER_TURN_KEY = None.

Lemma record_exchange_spec msg c now s :
  messages (record_exchange L msg c now s) = messages s ++ exchange (msg, c, now) ∧
  metadata (record_exchange L msg c now s) = metadata s ∧ key (record_exchange L msg c now s) = key s.
Proof. split; [|done]. unfold record_exchange, add_message. cbn. by rewrite <-app_assoc. Qed.

Lemma restore_unmarked k both s (st : St) : unmarked s → restore_session L k both s st = (st, s, None).
Proof.
  intros [H1 H2]. unfold restore_session, restore_runtime_checkpoint. rewrite H1. cbn.
  unfold restore_pending_user_turn. by rewrite H2.
Qed.

(** States of the sessions in which saving succeeds, now and later. *)
Context (fine : R → Prop).
Hypothesis fine_get : ∀ k r, fine r → fine (repo_get k r).1.
Hypothesis fine_save : ∀ s r, fine r → (repo_save s r).2 = None ∧ fine (repo_save s r).1.

Lemma fine_get_session k (st : St) : fine (lo_sessions st) → fine (lo_sessions (get_session k st).1).
Proof. intros H. pose proof (fine_get k _ H) as H'. unfold get_session. by destruct (repo_get k (lo_sessions st)). Qed.

Lemma fine_save_session s (st : St) : fine (lo_sessions st) → fine (lo_sessions (save_session s st).1).
Proof. intros H. destruct (fine_save s _ H) as [_ H']. unfold save_session. by destruct (repo_save s (lo_sessions st)). Qed.

Lemma save_session_held s (st : St) : fine (lo_sessions st) → held (key s) s (lo_sessions (save_session s st).1).
Proof.
  intros Hf. unfold save_session. destruct (fine_save s _ Hf) as [H _]. destruct (repo_save s (lo_sessions st)) as [r e] eqn:E.
  cbn in *. subst. by apply save_held in E.
Qed.

Lemma save_session_other s k s' (st : St) :
  key s ≠ k → held k s' (lo_sessions st) → held k s' (lo_sessions (save_session s st).1).
Proof.
  intros Hk H. unfold save_session. pose proof (save_keeps s k s' (lo_sessions st) Hk H) as Hs. by destruct (repo_save s _).
Qed.

(** A critical section of a task: its session is fetched, changed by [f] and saved. *)
Lemma update_held k k' s (f : Session → Session) (st : St) :
  fine (lo_sessions st) → (∀ x, key (f x) = key x) → held k s (lo_sessions st) →
  held k (if String.eqb k' k then f s else s)
    (lo_sessions (let '(st, x) := get_session k' st in (save_session (f x) st).1)).
Proof.
  intros Hfine Hf Hs. destruct (get_session k' st) as [st1 x] eqn:E. pose proof (get_session_spec _ _ _ _ E) as (Hx & _ & _).
  pose proof (held_key _ _ _ Hx) as Hkx. destruct (String.eqb_spec k' k) as [->|Hne].
  - rewrite get_session_held with (s := s) in E by done. injection E as <- <-. pose proof (save_session_held (f s) st Hfine) as H.
    by rewrite Hf, Hkx in H.
  - apply save_session_other; [by rewrite Hf, Hkx|]. pose proof (get_keeps k k' s _ Hs) as H. unfold get_session in E.
    destruct (repo_get k' (lo_sessions st)). by injection E as <- _.
Qed.

Lemma get_session_keeps k k' s (st : St) : held k s (lo_sessions st) → held k s (lo_sessions (get_session k' st).1).
Proof. intros H. pose proof (get_keeps k k' s _ H) as H'. unfold get_session. by destruct (repo_get k' (lo_sessions st)). Qed.
Lemma restore_other k k' s both x (st : St) :
  key x ≠ k → held k s (lo_sessions st) → held k s (lo_sessions (restore_session L k' both x st).1.1).
Proof.
  intros Hk Hs. unfold restore_session. pose proof (restore_checkpoint_key (stamp_now L st) x) as Hk1.
  destruct (restore_runtime_checkpoint _ x) as [x1 r1]. cbn in Hk1.
  assert (held k s (lo_sessions (if r1 then save_session x1 st else (st, None)).1)) as H1
    by (destruct r1; [apply save_session_other; [by rewrite Hk1|done]|done]).
  destruct (if r1 then save_session x1 st else (st, None)) as [st1 [e|]]; [done|]. destruct (r1 && negb both); [done|].
  pose proof (restore_pending_key (stamp_now L st1) x1) as Hk2. destruct (restore_pending_user_turn _ x1) as [x2 r2]. cbn in Hk2.
  destruct r2; [|done]. pose proof (save_session_other x2 k s st1) as H2. destruct (save_session x2 st1). apply H2; [by rewrite Hk2, Hk1|done].
Qed.

Lemma fine_restore k both x (st : St) : fine (lo_sessions st) → fine (lo_sessions (restore_session L k both x st).1.1).
Proof.
  intros Hf. unfold restore_session. destruct (restore_runtime_checkpoint _ x) as [x1 r1].
  assert (fine (lo_sessions (if r1 then save_session x1 st else (st, None)).1)) as H1 by (destruct r1; [by apply fine_save_session|done]).
  destruct (if r1 then save_session x1 st else (st, None)) as [st1 [e|]]; [done|]. destruct (r1 && negb both); [done|].
  destruct (restore_pending_user_turn _ x1) as [x2 []]; [|done]. pose proof (fine_save_session x2 st1 H1) as H2. by destruct (save_session x2 st1).
Qed.

Lemma fine_update k (f : Session → St → Session) (st : St) :
  fine (lo_sessions st) → fine (lo_sessions (let '(st, x) := get_session k st in (save_session (f x st) st).1)).
Proof.
  intros Hf. pose proof (fine_get_session k st Hf) as H. destruct (get_session k st) as [st1 x]. by apply fine_save_session.
Qed.

Lemma clear_marks_id s :
  messages (clear_pending_user_turn (clear_runtime_checkpoint s)) = messages s ∧
  unmarked (clear_pending_user_turn (clear_runtime_checkpoint s)).
Proof.
  split; [done|]. unfold unmarked. cbn. split; [|by rewrite lookup_delete_eq]. rewrite lookup_delete_ne by done. by rewrite lookup_delete_eq.
Qed.

Hypothesis no_prefilter : al_prefilter L = None.

Lemma fine_step msg p p' (st st' : St) :
  fine (lo_sessions st) → inbound_step L msg p st = Returns (st', p') → fine (lo_sessions st').
Proof.
  intros Hf. destruct p as [| | |initial|res|res|res|res]; cbn [inbound_step].
  - rewrite no_prefilter. by intros [= <- <-].
  - pose proof (fine_get_session (session_key msg) st Hf) as H. destruct (get_session _ _) as [st1 x].
    pose proof (fine_restore (session_key msg) false x st1 H) as H2. destruct (restore_session _ _ _ _ _) as [[st2 x2] e].
    intros [= <- <-]. unfold start_turn. by destruct (al_message_tool L).
  - pose proof (fine_get_session (session_key msg) st Hf) as H. destruct (get_session _ _) as [st1 x]. by intros [= <- <-].
  - unfold run_runner. destruct (run_agent _ _ _ _ _) as [[[w r] tr]| |]; cbn; [|done..]. by intros [= <- <-].
  - destruct (final_content res) as [c|]; [|by intros [= <- <-]].
    pose proof (fine_update (session_key msg) (λ x st, record_exchange L msg c (time_now L st) x) st Hf) as H.
    destruct (get_session _ _) as [st1 x]. by intros [= <- <-].
  - pose proof (fine_update (session_key msg) (λ x _, clear_pending_user_turn (clear_runtime_checkpoint x)) st Hf) as H.
    destruct (get_session _ _) as [st1 x]. by intros [= <- <-].
  - intros [= <- <-]. destruct (final_content res); [by destruct (_ && _)|done].
  - by intros [= <- <-].
Qed.

(** One step of a task: the session of [k] stays as it is, or the task records its exchange. *)
Lemma inbound_step_effect k s msg p p' (st st' : St) :
  fine (lo_sessions st) → held k s (lo_sessions st) → unmarked s → inbound_step L msg p st = Returns (st', p') →
  ∃ s', held k s' (lo_sessions st') ∧ unmarked s' ∧
    ((messages s' = messages s ∧ answered k (msg, p') = answered k (msg, p)) ∨
     (∃ c now, messages s' = messages s ++ exchange (msg, c, now) ∧ answered k (msg, p) = None ∧
        answered k (msg, p') = Some (msg, c))).
Proof.
  intros Hf Hs Hu. unfold answered. cbn [fst snd]. destruct p as [| | |initial|res|res|res|res]; cbn [inbound_step].
  - rewrite no_prefilter. intros [= <- <-]. exists s. auto.
  - pose proof (get_session_keeps k (session_key msg) s st Hs) as Hg. destruct (get_session (session_key msg) st) as [st1 x] eqn:E. cbn in Hg.
    destruct (decide (session_key msg = k)) as [Hk|Hk].
    + rewrite Hk in E. rewrite (get_session_held k st s Hs) in E. injection E as <- <-. rewrite restore_unmarked by done.
      intros [= <- <-]. exists s. split_and!; [by unfold start_turn; destruct (al_message_tool L)|done|by left].
    + pose proof (get_session_spec _ _ _ _ E) as (Hx & _ & _). apply held_key in Hx.
      pose proof (restore_other k (session_key msg) s false x st1) as Hr. destruct (restore_session _ _ _ _ _) as [[st2 x2] e].
      intros [= <- <-]. exists s. split_and!; [unfold start_turn; destruct (al_message_tool L); apply Hr; congruence|done|by left].
  - pose proof (get_session_keeps k (session_key msg) s st Hs) as Hg. destruct (get_session (session_key msg) st) as [st1 x].
    intros [= <- <-]. exists s. auto.
  - unfold run_runner. destruct (run_agent _ _ _ _ _) as [[[w r] tr]| |]; cbn; [|done..]. intros [= <- <-]. exists s. auto.
  - destruct (final_content res) as [c|] eqn:Ec; cbn.
    + pose proof (λ now, update_held k (session_key msg) s (record_exchange L msg c now) st Hf (λ x, proj2 (proj2 (record_exchange_spec msg c now x))) Hs) as H.
      destruct (get_session (session_key msg) st) as [st1 x] eqn:E. intros [= <- <-]. eexists. split; [apply H|].
      destruct (record_exchange_spec msg c (time_now L st1) s) as (Hm & Hmeta & _). rewrite Ec. destruct (String.eqb _ k).
      * split; [unfold unmarked; by rewrite Hmeta|]. right. exists c, (time_now L st1). auto.
      * auto.
    + intros [= <- <-]. exists s. rewrite Ec. split_and!; [done..|]. left. by destruct (String.eqb _ k).
  - pose proof (update_held k (session_key msg) s (λ x, clear_pending_user_turn (clear_runtime_checkpoint x)) st Hf (λ x, eq_refl) Hs) as H.
    destruct (get_session (session_key msg) st) as [st1 x]. intros [= <- <-]. eexists. split; [exact H|].
    destruct (String.eqb _ k); [|by auto]. split; [apply clear_marks_id|by auto].
  - intros [= <- <-]. exists s. split_and!; [|done|by left]. destruct (final_content res); [by destruct (_ && _)|done].
  - intros [= <- <-]. exists s. auto.
Qed.

(** At most one task more is past its start, and only one that was at its start. *)
Lemma inbound_step_start msg p p' (st st' : St) :
  inbound_step L msg p st = Returns (st', p') → past_start p' = true → past_start p = true ∨ p = PStart.
Proof. destruct p; cbn [inbound_step]; [by right|by left..|]. by intros [= <- <-]. Qed.

Lemma in_progress_insert i t t' tasks :
  tasks !! i = Some t →
  in_progress (<[i := t']> tasks) + (if past_start t.2 then 1 else 0) = in_progress tasks + (if past_start t'.2 then 1 else 0).
Proof.
  intros Hi. unfold in_progress. rewrite insert_take_drop by by eapply lookup_lt_Some. rewrite <-(take_drop_middle tasks i t) at 3 by done.
  rewrite !filter_app, !filter_cons, !length_app. destruct (past_start t.2), (past_start t'.2); repeat case_decide; try done; cbn [length]; lia.
Qed.

Lemma omap_insert {A B} (f : A → option B) (i : nat) x y (l : list A) :
  l !! i = Some x → f y = f x → omap f (<[i := y]> l) = omap f l.
Proof.
  intros Hi Hf. rewrite insert_take_drop by by eapply lookup_lt_Some. rewrite <-(take_drop_middle l i x) at 3 by done.
  rewrite !omap_app. cbn. by rewrite Hf.
Qed.

Lemma omap_insert_new {A B} (f : A → option B) (i : nat) x y z (l : list A) :
  l !! i = Some x → f x = None → f y = Some z → omap f (<[i := y]> l) ≡ₚ omap f l ++ [z].
Proof.
  intros Hi Hx Hy. rewrite insert_take_drop by by eapply lookup_lt_Some. rewrite <-(take_drop_middle l i x) at 3 by done.
  rewrite !omap_app. cbn. rewrite Hx, Hy. rewrite <-app_assoc. apply Permutation_app_head, Permutation_cons_append.
Qed.

End Service.

(** A schedule, executed: a message arrives, or the task of an index moves. *)
Inductive sched := Arrive (msg : InboundMessage) | Move (i : nat).

Section Schedule.
Context {W R : Type} `{!SessionRepo R} (L : Loop W R).

Definition sched_step (e : sched) (c : LoopState W R * list (InboundMessage * Phase))
    : option (LoopState W R * list (InboundMessage * Phase)) :=
  let '(st, tasks) := c in
  match e with
  | Arrive msg => Some (st, tasks ++ [(msg, PStart)])
  | Move i =>
      match tasks !! i with
      | Some (msg, p) =>
          if match p with PStart => in_progress tasks <? GATE | _ => true end then
            match inbound_step L msg p st with Returns (st, p) => Some (st, <[i := (msg, p)]> tasks) | _ => None end
          else None
      | None => None
      end
  end.

Fixpoint run_schedule (es : list sched) (c : LoopState W R * list (InboundMessage * Phase))
    : option (LoopState W R * list (InboundMessage * Phase)) :=
  match es with [] => Some c | e :: es => sched_step e c ≫= run_schedule es end.

Lemma sched_step_sound e c c' : sched_step e c = Some c' → service_step L c c'.
Proof.
  destruct c as [st tasks], e as [msg|i]; cbn; [intros [= <-]; constructor|].
  destruct (tasks !! i) as [[msg p]|] eqn:Hi; [|done].
  destruct (match p with PStart => _ | _ => true end) eqn:Hp; [|done]. destruct (inbound_step L msg p st) as [[st' p']| |] eqn:Hs; [|done..].
  intros [= <-]. apply (task_moves L i msg p p'); [done| |done]. intros ->. by apply Nat.ltb_lt.
Qed.

Lemma run_schedule_sound es c c' : run_schedule es c = Some c' → rtc (service_step L) c c'.
Proof.
  revert c. induction es as [|e es IH]; intros c; cbn; [by intros [= ->]|].
  destruct (sched_step e c) as [c1|] eqn:E; cbn; [|done]. intros H. eapply rtc_l; [by apply sched_step_sound in E|by apply IH].
Qed.
End Schedule.

(** ** A concrete loop *)

Definition demo_repo : SessionRepo Manager :=
  managed_repo binary_from_str binary_to_string binary_time binary_parse_time no_naive no_naive map_to_list.
Definition demo_laws : @SessionRepoLaws Manager demo_repo :=
  managed_laws binary_from_str binary_to_string binary_time binary_parse_time no_naive no_naive map_to_list.

Definition fresh_manager : Manager := mkManaged demo_manager ∅ 0 true [] (map_Forall_empty _).

Definition demo_prompt (_ : nat) : PromptEnv :=
  mkPromptEnv "ws" "linux" "x86_64" "now" (λ _, None) (empty_memory None)
    (mkSkillFs (λ _, None) (λ _, false) (λ _, None) [] (λ _, None) (λ _, false) (λ _, None)) (mkLoader "ws/skills" ∅ None)
    (λ _, None) (λ _, None).

(** The model's answers are [answers]; a request is a step of the world. *)
Definition demo_loop (answers : list LLMResponse) : Loop nat Manager := {|
  al_config := mkLoopConfig (Some "m") 4 1000 None Standard "ws" false;
  al_tools := register echo_tool new_registry;
  al_env := demo_env answers; al_fuel := 4; al_sfuel := 2;
  al_window := λ _, 8000%Z; al_now := Z.of_nat; al_to_rfc3339 := binary_time; al_parse_time := binary_parse_time;
  al_stamp := λ w, pretty w; al_elapsed := λ a b, (Z.of_nat b - Z.of_nat a)%Z;
  al_prompt := demo_prompt; al_from_str := binary_from_str; al_base64 := id;
  al_yaml_parse := λ _, None; al_yaml_print := λ _, "";
  al_message_tool := false; al_set_context := λ _ w, w; al_start_turn := id; al_sent := λ _, false;
  al_sync := λ _ _ c, c; al_prefilter := None; al_consolidator := None; al_extra_order := id
|}.

Definition demo_start : LoopState nat Manager := mkLoop 0 fresh_manager None None [].

Definition inbound_from (chat text : string) : InboundMessage := mkInbound "cli" "user" chat text 0 [] ∅ None.

Existing Instances demo_repo demo_laws.

(** What is held for a key after a turn. *)
Definition held_texts (k : string) (st : LoopState nat Manager) : list (string * string) :=
  (λ m, (default "" (get_str "role" m), default "" (get_str "content" m))) <$> messages (get_session k st).2.

Definition after_turn (answers : list LLMResponse) (text : string) : option (list (string * string)) :=
  match process_message (demo_loop answers) (inbound_from "1" text) None demo_start with
  | Returns (st, _, _) => Some (held_texts "cli:1" st)
  | _ => None
  end.

(** The question of the user is not in the session after its turn; the answer is. *)
Example user_text_lost : after_turn [success] "hello" = Some [("assistant", "hi")].
Proof. vm_compute. reflexivity. Qed.

(** A history that ends with a user message: the assistant's tool call is not saved, its result is. *)
Definition waiting_session : Session := mkSession "cli:1" [user_text "earlier"] 0 0 ∅ 0.

Example merged_turn_orphans :
  match process_message (demo_loop [calling "a"; success]) (inbound_from "1" "go") None (save_session waiting_session demo_start).1 with
  | Returns (st, _, Ok _) => held_texts "cli:1" st
  | _ => []
  end = [("user", "earlier"); ("tool", ""); ("assistant", "hi")].
Proof. vm_compute. reflexivity. Qed.

Definition no_faults (m : Manager) : Prop := mn_faults m = [].

Lemma no_faults_get k m : no_faults m → no_faults (repo_get k m).1.
Proof. intros H. cbn. unfold managed_get. by destruct (cache (mn_manager m) !! k). Qed.

Lemma no_faults_save s m : no_faults m → (repo_save s m).2 = None ∧ no_faults (repo_save s m).1.
Proof. intros H. unfold no_faults in *. cbn. unfold managed_save. by rewrite H. Qed.

(** Two users' messages, handled alternately. *)
Definition alternating : list sched :=
  [Arrive (inbound_from "1" "a"); Arrive (inbound_from "1" "b"); Move 0; Move 1; Move 1; Move 0; Move 0; Move 1; Move 1; Move 0;
   Move 1; Move 0; Move 0; Move 1].


(** The same messages one after the other: both exchanges are recorded. *)
Example service_in_turn :
  match process_inbound (demo_loop [success]) (inbound_from "1" "a") demo_start with
  | Returns (st, PDone _) =>
      match process_inbound (demo_loop [success]) (inbound_from "1" "b") st with
      | Returns (st, PDone _) => (held_texts "cli:1" st, out_content <$> lo_out st)
      | _ => ([], [])
      end
  | _ => ([], [])
  end = ([("user", "a"); ("assistant", "hi"); ("user", "b"); ("assistant", "hi")], ["hi"; "hi"]).
Proof. vm_compute. reflexivity. Qed.

(** A message whose 80th byte is inside a character stops the turn with a panic. *)
Definition long_text : string := String.concat "" (repeat "é" 41).

Example preview_panics : process_message (demo_loop [success]) (inbound_from "1" ("x" +:+ long_text)) None demo_start = Panics.
Proof. vm_compute. reflexivity. Qed.

(** The response of a turn is never stored in the agent context: it is completed by then. *)
Example payload_refused :
  match process_inbound (demo_loop [success]) (inbound_from "1" "a") (mkLoop 0 fresh_manager (Some demo_context) None []) with
  | Returns (st, PDone res) => (final_content res, (λ c, (lifecycle_state c, response_payload c)) <$> lo_context st)
  | _ => (None, None)
  end = (Some "hi", Some (Completed, None)).
Proof. vm_compute. reflexivity. Qed.

(** The result of a sub-agent does not reach the model: its message is sent with an empty text. *)
Definition asked_with (msg : InboundMessage) : option (list (string * string)) :=
  match process_system_message (demo_loop [success]) msg None demo_start with
  | Returns (st, _) => Some (held_texts "cli:1" st)
  | _ => None
  end.

Example system_saves_nothing :
  asked_with (mkInbound "system" "subagent" "cli:1" "result: 42" 0 [] ∅ None) = Some [].
Proof. vm_compute. reflexivity. Qed.

Lemma process_message_path_witness :
  ∃ st' out, process_message (demo_loop [success]) (inbound_from "1" "a") None demo_start = Returns (st', turn_path, Ok out).
Proof.
  destruct (process_message (demo_loop [success]) (inbound_from "1" "a") None demo_start) as [[[st' trace] r]| |] eqn:E.
  - pose proof (process_message_path (demo_loop [success]) _ _ _ _ _ _ E) as H.
    apply (f_equal (λ o, if o is Returns (_, _, Ok _) then true else false)) in E. destruct r as [out|]; [|vm_compute in E; discriminate].
    exists st', out. by rewrite H.
  - apply (f_equal (λ o, if o is Returns _ then true else false)) in E. vm_compute in E. discriminate.
  - apply (f_equal (λ o, if o is Returns _ then true else false)) in E. vm_compute in E. discriminate.
Defined.

