(* ===== verification/Utf8.v ===== *)
(** * Well-formed texts and their slices

    [String::from_utf8] decides which bytes are a text; slicing a text anywhere but between two
    characters panics.  In a text the occurrences of a text lie between characters. *)

From S2P Require Import Prelude RustStr.

Local Open Scope stdpp_scope.
Local Open Scope hive_scope.

(** The automaton of well-formed UTF-8: [need] bytes are missing of a character, the next one
    between [lo] and [hi]. *)
Fixpoint utf8_from (need : nat) (lo hi : Z) (s : string) : bool :=
  match s with
  | "" => need =? 0
  | String c s =>
      let b := byte_of c in
      match need with
      | S need => ((lo <=? b) && (b <=? hi))%Z && utf8_from need 128 191 s
      | O =>
          if (b <=? 127)%Z then utf8_from 0 128 191 s
          else if (b <=? 193)%Z then false
          else if (b <=? 223)%Z then utf8_from 1 128 191 s
          else if (b <=? 224)%Z then utf8_from 2 160 191 s
          else if (b =? 237)%Z then utf8_from 2 128 159 s
          else if (b <=? 239)%Z then utf8_from 2 128 191 s
          else if (b <=? 240)%Z then utf8_from 3 144 191 s
          else if (b <=? 243)%Z then utf8_from 3 128 191 s
          else if (b <=? 244)%Z then utf8_from 3 128 143 s
          else false
      end
  end.

Definition utf8_valid (s : string) : bool := utf8_from 0 128 191 s.

(** The bytes U+FFFD is written with. *)
Definition replacement : string := String "239" (String "191" (String "189" "")).

(** [String::from_utf8_lossy]: every maximal start of a character that does not go on, and every
    byte that starts none, becomes U+FFFD; [pend] are the bytes of the character read so far. *)
Fixpoint lossy_from (need : nat) (lo hi : Z) (pend s : string) : string :=
  match s with
  | "" => if need =? 0 then "" else replacement
  | String c s =>
      let b := byte_of c in
      let one := String c "" in
      let start :=
        if (b <=? 127)%Z then String c (lossy_from 0 128 191 "" s)
        else if (b <=? 193)%Z then replacement +:+ lossy_from 0 128 191 "" s
        else if (b <=? 223)%Z then lossy_from 1 128 191 one s
        else if (b <=? 224)%Z then lossy_from 2 160 191 one s
        else if (b =? 237)%Z then lossy_from 2 128 159 one s
        else if (b <=? 239)%Z then lossy_from 2 128 191 one s
        else if (b <=? 240)%Z then lossy_from 3 144 191 one s
        else if (b <=? 243)%Z then lossy_from 3 128 191 one s
        else if (b <=? 244)%Z then lossy_from 3 128 143 one s
        else replacement +:+ lossy_from 0 128 191 "" s in
      match need with
      | O => start
      | S need =>
          if ((lo <=? b) && (b <=? hi))%Z then
            if need =? 0 then pend +:+ String c (lossy_from 0 128 191 "" s)
            else lossy_from need 128 191 (pend +:+ one) s
          else replacement +:+ start
      end
  end.

Definition from_utf8_lossy (s : string) : string := lossy_from 0 128 191 "" s.

Definition ends_with (s p : string) : bool := starts_with (String.rev s) (String.rev p).

(** [s.trim_end_matches(c)]. *)
Fixpoint trim_start_char (c : ascii) (s : string) : string :=
  match s with
  | String a s' => if Ascii.eqb a c then trim_start_char c s' else s
  | "" => ""
  end.

Definition trim_end_char (c : ascii) (s : string) : string := String.rev (trim_start_char c (String.rev s)).

(** [&s[a..]] and [&s[a..b]], [None] when they panic. *)
Definition slice_from (s : string) (a : nat) : option string :=
  if (a <=? String.length s) && is_char_boundary s a then Some (sdrop a s) else None.

Definition slice (s : string) (a b : nat) : option string :=
  if (a <=? b) && (b <=? String.length s) && is_char_boundary s a && is_char_boundary s b then Some (stake (b - a) (sdrop a s)) else None.

(** ** Cutting texts *)

Definition in_range (lo hi : Z) : Prop := (128 <= lo ∧ hi <= 191)%Z.

Lemma cont_byte c : is_cont c = true ↔ (128 <= byte_of c <= 191)%Z.
Proof. destruct c as [[] [] [] [] [] [] [] []]; unfold byte_of; cbn; split; intros; (lia || done). Qed.

(** A character's first bytes leave the automaton waiting for continuation bytes. *)
Lemma utf8_from_step need lo hi c s :
  utf8_from need lo hi (String c s) = true →
  ∃ need' lo' hi', (∀ s', utf8_from need lo hi (String c s') = utf8_from need' lo' hi' s') ∧ in_range lo' hi' ∧
    (need = 0 → is_cont c = false) ∧ (need ≠ 0 → in_range lo hi → is_cont c = true).
Proof.
  intros H. assert (∀ n, need = S n → (lo <= byte_of c <= hi)%Z) as Hn by (intros n ->; cbn in H; bool_to_prop; lia).
  assert (need = 0 → ¬ (128 <= byte_of c <= 193)%Z) as H0.
  { intros ->. cbn in H. destruct (Z.leb_spec (byte_of c) 127); [lia|]. destruct (Z.leb_spec (byte_of c) 193); [done|lia]. }
  assert ((need = 0 → is_cont c = false) ∧ (need ≠ 0 → in_range lo hi → is_cont c = true)) as Hc.
  { split.
    - intros E. apply not_true_iff_false. rewrite cont_byte. specialize (H0 E). lia.
    - intros E [??]. apply cont_byte. destruct need as [|n]; [done|]. specialize (Hn n eq_refl). lia. }
  destruct need as [|need]; cbn [utf8_from] in *.
  - repeat match goal with H : context [if ?b then _ else _] |- _ => destruct b; [by eexists _, _, _; split; [reflexivity|split; [split; lia|exact Hc]] |] end; try done.
    all: repeat match goal with H : context [if ?b then _ else _] |- _ => destruct b; [try done; by eexists _, _, _; split; [reflexivity|split; [split; lia|exact Hc]] |] end; try done.
  - exists need, 128%Z, 191%Z. split; [|split; [split; lia|exact Hc]]. intros s'. bool_to_prop. cbn.
    match goal with H1 : (lo <= _)%Z, H2 : (_ <= hi)%Z |- _ => rewrite (proj2 (Z.leb_le _ _) H1), (proj2 (Z.leb_le _ _) H2) end. done.
Qed.

Lemma utf8_from_zero lo hi s : utf8_from 0 lo hi s = utf8_valid s.
Proof. by destruct s. Qed.

Lemma utf8_from_app need lo hi p b : utf8_from need lo hi p = true → utf8_from need lo hi (p +:+ b) = utf8_valid b.
Proof.
  revert need lo hi. induction p as [|c p IH]; intros need lo hi H.
  - destruct need; [|done]. apply utf8_from_zero.
  - rewrite sapp_cons. destruct (utf8_from_step _ _ _ _ _ H) as (need' & lo' & hi' & He & _). rewrite He in *. by apply IH.
Qed.

Lemma utf8_app p b : utf8_valid p = true → utf8_valid (p +:+ b) = utf8_valid b.
Proof. apply utf8_from_app. Qed.

(** A text cut before a byte that begins a character is two texts. *)
Lemma utf8_from_cut need lo hi a c b :
  utf8_from need lo hi (a +:+ String c b) = true → in_range lo hi → is_cont c = false →
  utf8_from need lo hi a = true ∧ utf8_valid (String c b) = true.
Proof.
  revert need lo hi. induction a as [|d a IH]; intros need lo hi H Hr Hc.
  - rewrite sapp_nil_l in H. destruct need as [|need]; [by rewrite utf8_from_zero in H|].
    destruct (utf8_from_step _ _ _ _ _ H) as (_ & _ & _ & _ & _ & _ & Hcont). by rewrite Hcont in Hc.
  - rewrite sapp_cons in H. destruct (utf8_from_step _ _ _ _ _ H) as (need' & lo' & hi' & He & Hr' & _).
    rewrite He in H |- *. by apply IH.
Qed.

Lemma utf8_first c s : utf8_valid (String c s) = true → is_cont c = false.
Proof. intros H. destruct (utf8_from_step _ _ _ _ _ H) as (_ & _ & _ & _ & _ & H0 & _). by apply H0. Qed.

(** Around an occurrence of a text in a text there are texts. *)
Lemma utf8_occurrence a p b :
  utf8_valid (a +:+ p +:+ b) = true → utf8_valid p = true → p ≠ "" → utf8_valid a = true ∧ utf8_valid b = true.
Proof.
  intros H Hp Hne. destruct p as [|c p]; [done|]. pose proof (utf8_first _ _ Hp) as Hc. rewrite sapp_cons in H.
  apply utf8_from_cut in H as [Ha H]; [|split; lia|done]. split; [done|]. rewrite <-sapp_cons in H. by rewrite utf8_app in H.
Qed.

Lemma boundary_app a b : utf8_valid b = true → is_char_boundary (a +:+ b) (String.length a) = true.
Proof.
  intros Hb. unfold is_char_boundary. rewrite sdrop_length_app, slength_app. destruct b as [|c b].
  - apply orb_true_intro. left. apply orb_true_intro. right. apply Nat.eqb_eq. cbn. lia.
  - apply orb_true_intro. right. by rewrite (utf8_first _ _ Hb).
Qed.

Lemma slice_from_app a b : utf8_valid b = true → slice_from (a +:+ b) (String.length a) = Some b.
Proof.
  intros Hb. unfold slice_from. rewrite boundary_app, sdrop_length_app by done. rewrite (proj2 (Nat.leb_le _ _)); [done|].
  rewrite slength_app. lia.
Qed.

Lemma slice_app a p b :
  utf8_valid (p +:+ b) = true → utf8_valid b = true →
  slice (a +:+ p +:+ b) (String.length a) (String.length a + String.length p) = Some p.
Proof.
  intros Hp Hb. unfold slice. rewrite boundary_app by done. rewrite sapp_assoc, <-slength_app, boundary_app by done.
  rewrite (proj2 (Nat.leb_le _ _)), (proj2 (Nat.leb_le _ _)) by (rewrite !slength_app; lia). cbn [andb].
  rewrite slength_app. replace (_ + _ - _) with (String.length p) by lia. by rewrite <-sapp_assoc, sdrop_length_app, stake_length_app.
Qed.

(** [find] gives the first occurrence. *)
Lemma find_sub_split p s i : find_sub p s = Some i → ∃ b, s = stake i s +:+ p +:+ b ∧ String.length (stake i s) = i.
Proof.
  revert i. induction s as [|c s IH]; intros i; cbn [find_sub]; unfold starts_with.
  - destruct (strip_prefix p "") as [r|] eqn:E; [|done]. intros [= <-]. apply strip_prefix_Some in E as ->. by exists r.
  - destruct (strip_prefix p (String c s)) as [r|] eqn:E.
    + intros [= <-]. apply strip_prefix_Some in E as E'. exists r. split; [|done]. cbn. by rewrite sapp_nil_l.
    + destruct (find_sub p s) as [j|] eqn:Ej; [|done]. cbn. intros [= <-]. destruct (IH j eq_refl) as (b & Hb & Hl).
      exists b. cbn [stake String.length]. split; [|by rewrite Hl]. rewrite sapp_cons. by rewrite <-Hb.
Qed.

(** Well-formed texts are left alone. *)
Lemma lossy_valid need lo hi pend s :
  (need = 0 → pend = "") → utf8_from need lo hi s = true → lossy_from need lo hi pend s = pend +:+ s.
Proof.
  revert need lo hi pend. induction s as [|c s IH]; intros need lo hi pend Hp H.
  - cbn in *. destruct need; [|done]. by rewrite (Hp eq_refl).
  - destruct need as [|need]; cbn [utf8_from lossy_from] in *.
    + rewrite (Hp eq_refl). repeat case_match; try done; by rewrite IH.
    + apply andb_true_iff in H as [-> H]. destruct (Nat.eqb_spec need 0) as [->|Hn].
      * by rewrite IH.
      * rewrite IH by done. by rewrite <-sapp_assoc.
Qed.

Lemma lossy_id s : utf8_valid s = true → from_utf8_lossy s = s.
Proof. intros H. unfold from_utf8_lossy. by rewrite lossy_valid. Qed.
