(* ===== verification/PosixFs.v ===== *)
(** * Paths and files

    What the tools use of [std::path] and [std::fs] on a POSIX system: paths as texts with their
    components, a tree of directories, files and symbolic links, the resolution of a path,
    creating directories and writing files.  Permissions are not modelled. *)

From S2P Require Import Prelude RustStr Utf8.

Local Open Scope stdpp_scope.
Local Open Scope hive_scope.

(** ** Paths *)

Definition is_absolute (p : string) : bool := starts_with p "/".

(** The names of a path; no empty one and no [.]. *)
Definition names (p : string) : list string := retain (λ c, negb (is_empty c) && negb (String.eqb c ".")) (split_on "/" p).

(** [Path::components]: the root, a leading [.], and the names. *)
Definition path_components (p : string) : list string :=
  if is_absolute p then "/" :: names p
  else match split_on "/" p with "." :: _ => "." :: names p | _ => names p end.

(** [Path::join]. *)
Definition path_join (base p : string) : string :=
  if is_absolute p then p
  else if is_empty base || ends_with base "/" then base +:+ p else base +:+ "/" +:+ p.

Fixpoint is_prefix_of (l k : list string) : bool :=
  match l, k with
  | [], _ => true
  | x :: l, y :: k => String.eqb x y && is_prefix_of l k
  | _ :: _, [] => false
  end.

(** [Path::starts_with]. *)
Definition path_starts_with (p d : string) : bool := is_prefix_of (path_components d) (path_components p).

(** [Path::file_name] and [Path::extension]. *)
Definition file_name (p : string) : option string :=
  match last (names p) with Some c => if String.eqb c ".." then None else Some c | None => None end.

Definition extension (p : string) : option string :=
  name ← file_name p; i ← rfind_char "." name; if i =? 0 then None else Some (sdrop (S i) name).

Definition display_real (r : list string) : string := "/" +:+ join "/" r.

(** ** The tree *)

(** Files and directories have a modification time. *)
Inductive node := NFile (content : string) (mtime : Z) | NDir (mtime : Z) | NLink (target : string).

(** Objects by their real location, the names from the root. *)
Abbreviation tree := (gmap (list string) node).

Definition node_at (t : tree) (r : list string) : option node :=
  match r with [] => Some (default (NDir 0) (t !! [])) | _ => t !! r end.

Definition is_dir_at (t : tree) (r : list string) : bool := match node_at t r with Some (NDir _) => true | _ => false end.

(** The system follows at most forty links. *)
Definition MAX_LINKS : nat := 40.

(** Where the names lead from the directory [cur]. *)
Fixpoint walk (links : nat) (t : tree) : list string → list string → option (list string) :=
  fix go (cur rest : list string) : option (list string) :=
    match rest with
    | [] => Some cur
    | c :: rest =>
        if String.eqb c ".." then go (removelast cur) rest
        else
          match t !! (cur ++ [c]) with
          | None => None
          | Some (NDir _) => go (cur ++ [c]) rest
          | Some (NFile _ _) => match rest with [] => Some (cur ++ [c]) | _ => None end
          | Some (NLink target) =>
              match links with
              | O => None
              | S links => walk links t (if is_absolute target then [] else cur) (names target ++ rest)
              end
          end
    end.

Record FileSystem := mkFs { fs_tree : tree; fs_cwd : list string; fs_now : Z }.

Definition set_tree (t : tree) (fs : FileSystem) : FileSystem := mkFs t (fs_cwd fs) (fs_now fs).

Definition start_of (fs : FileSystem) (p : string) : list string := if is_absolute p then [] else fs_cwd fs.

(** A path that ends like this names a directory. *)
Definition wants_dir (p : string) : bool :=
  match last (split_on "/" p) with Some s => is_empty s || String.eqb s "." | None => false end.

(** The real location of the object a path names, if there is one. *)
Definition real_path (fs : FileSystem) (p : string) : option (list string) :=
  if is_empty p then None
  else
    r ← walk MAX_LINKS (fs_tree fs) (start_of fs p) (names p);
    if wants_dir p && negb (is_dir_at (fs_tree fs) r) then None else Some r.

(** [fs::canonicalize(p).unwrap_or(p)]. *)
Definition canonicalize (fs : FileSystem) (p : string) : string :=
  match real_path fs p with Some r => display_real r | None => p end.

Definition object_at (fs : FileSystem) (p : string) : option node := real_path fs p ≫= node_at (fs_tree fs).

Definition path_exists (fs : FileSystem) (p : string) : bool := bool_decide (is_Some (real_path fs p)).
Definition path_is_file (fs : FileSystem) (p : string) : bool := match object_at fs p with Some (NFile _ _) => true | _ => false end.
Definition path_is_dir (fs : FileSystem) (p : string) : bool := match object_at fs p with Some (NDir _) => true | _ => false end.

(** [fs::read]. *)
Definition fs_read_bytes (fs : FileSystem) (p : string) : result string string :=
  match object_at fs p with
  | Some (NFile content _) => Ok content
  | Some _ => Err "Is a directory (os error 21)"
  | None => Err "No such file or directory (os error 2)"
  end.

(** A new object: the directory that holds it is touched. *)
Definition add_node (now : Z) (r : list string) (n : node) (t : tree) : tree := <[r := n]> (<[removelast r := NDir now]> t).

(** [fs::create_dir_all] on the names from a directory: each is made unless it is there. *)
Fixpoint make_dirs (now : Z) (start : list string) (done todo : list string) (t : tree) : tree * option string :=
  match todo with
  | [] => (t, None)
  | c :: todo =>
      let path := done ++ [c] in
      match walk MAX_LINKS t start path with
      | Some r => if is_dir_at t r then make_dirs now start path todo t else (t, Some "Not a directory (os error 20)")
      | None =>
          match walk MAX_LINKS t start done with
          | Some d =>
              if bool_decide (is_Some (t !! (d ++ [c]))) then (t, Some "File exists (os error 17)")
              else make_dirs now start path todo (add_node now (d ++ [c]) (NDir now) t)
          | None => (t, Some "No such file or directory (os error 2)")
          end
      end
  end.

(** Of the directory that is to hold [p]; [Path::parent] has no parent for a root. *)
Definition create_parent_dirs (fs : FileSystem) (p : string) : FileSystem * option string :=
  let '(t, e) := make_dirs (fs_now fs) (start_of fs p) [] (removelast (names p)) (fs_tree fs) in (set_tree t fs, e).

(** Where opening a path for writing creates a file: links are followed, also one to nothing. *)
Fixpoint place (links : nat) (t : tree) (start comps : list string) : option (list string) :=
  match walk MAX_LINKS t start comps with
  | Some r => Some r
  | None =>
      name ← last comps;
      d ← walk MAX_LINKS t start (removelast comps);
      if String.eqb name ".." || negb (is_dir_at t d) then None
      else match t !! (d ++ [name]), links with
           | None, _ => Some (d ++ [name])
           | Some (NLink target), S links => place links t (if is_absolute target then [] else d) (names target)
           | _, _ => None
           end
  end.

(** [fs::write]. *)
Definition fs_write_bytes (fs : FileSystem) (p content : string) : FileSystem * option string :=
  if is_empty p then (fs, Some "No such file or directory (os error 2)")
  else if wants_dir p then (fs, Some "Is a directory (os error 21)")
  else
    match place MAX_LINKS (fs_tree fs) (start_of fs p) (names p) with
    | None => (fs, Some "No such file or directory (os error 2)")
    | Some r =>
        match node_at (fs_tree fs) r with
        | Some (NFile _ _) => (set_tree (<[r := NFile content (fs_now fs)]> (fs_tree fs)) fs, None)
        | Some _ => (fs, Some "Is a directory (os error 21)")
        | None => (set_tree (add_node (fs_now fs) r (NFile content (fs_now fs)) (fs_tree fs)) fs, None)
        end
    end.
