(* ===== verification/Sandbox.v ===== *)
(** * The path policy of the tools and the sandbox of commands

    [crates/agent/src/tools/sandbox.rs]: a path a tool is given is made absolute, resolved and
    compared with the allowed directories; a shell command is wrapped for [bwrap] by quoting.
    [get_media_dir] and the home directory are fields of the environment. *)

From S2P Require Import Prelude RustStr Utf8 PosixFs.

Local Open Scope stdpp_scope.
Local Open Scope hive_scope.

Record SysEnv := mkSysEnv { media_dir : string; home_dir : option string }.

(** [PathError::OutsideAllowed]. *)
Inductive PathError := OutsideAllowed (path allowed : string).

Definition path_error_text (e : PathError) : string :=
  let '(OutsideAllowed p a) := e in "Path " +:+ p +:+ " is outside allowed directory " +:+ a.

Section Policy.
Variable env : SysEnv.

Definition expand_user (path : string) : string :=
  match strip_prefix "~/" path, home_dir env with
  | Some rest, Some home => path_join home rest
  | _, Some home => if String.eqb path "~" then home else path
  | _, None => path
  end.

Definition is_under (fs : FileSystem) (path dir : string) : bool := path_starts_with path (canonicalize fs dir).

Definition resolve_path (fs : FileSystem) (path : string) (workspace allowed_dir : option string) (extra : list string)
    : result string PathError :=
  let p := expand_user path in
  let p := match workspace with Some ws => if is_absolute p then p else path_join ws p | None => p end in
  let resolved := canonicalize fs p in
  match allowed_dir with
  | Some allowed =>
      let all := canonicalize fs allowed :: canonicalize fs (media_dir env) :: (canonicalize fs <$> extra) in
      if existsb (is_under fs resolved) all then Ok resolved else Err (OutsideAllowed path allowed)
  | None => Ok resolved
  end.

(** *** Quoting *)

(** [[A-Za-z0-9_@%+=:,./-]]. *)
Definition shell_safe (c : ascii) : bool :=
  let b := byte_of c in
  (((48 <=? b) && (b <=? 57)) || ((65 <=? b) && (b <=? 90)) || ((97 <=? b) && (b <=? 122)))%Z
  || existsb (Ascii.eqb c) ["@"; "%"; "+"; "="; ":"; ","; "."; "/"; "-"; "_"]%char.

Fixpoint all_safe (s : string) : bool := match s with "" => true | String c s => shell_safe c && all_safe s end.

Definition quote : ascii := "'"%char.

(** ['\''], by which a quote is written inside quotes. *)
Definition quoted_quote : string := String quote (String "\" (String quote (String quote ""))).

Definition shell_quote (s : string) : string :=
  if is_empty s then String quote (String quote "")
  else if all_safe s then s
  else String quote (replace_str (String quote "") quoted_quote s +:+ String quote "").

Definition shell_join (args : list string) : string := join " " (shell_quote <$> args).

Fixpoint strip_components (l k : list string) : option (list string) :=
  match l, k with
  | [], _ => Some k
  | x :: l, y :: k => if String.eqb x y then strip_components l k else None
  | _ :: _, [] => None
  end.

Definition parent_display (p : string) : string :=
  if bool_decide (names p = []) then ""
  else (if is_absolute p then "/" else "") +:+ join "/" (removelast (names p)).

Definition bwrap_args (fs : FileSystem) (command workspace cwd : string) : list string :=
  let ws := canonicalize fs workspace in
  let media := canonicalize fs (media_dir env) in
  let sandbox_cwd := match strip_components (path_components ws) (path_components (canonicalize fs cwd)) with
                     | Some rel => path_join ws (join "/" rel)
                     | None => ws
                     end in
  ["bwrap"; "--new-session"; "--die-with-parent"; "--ro-bind"; "/usr"; "/usr"]
  ++ (["/bin"; "/lib"; "/lib64"; "/etc/alternatives"; "/etc/ssl/certs"; "/etc/resolv.conf"; "/etc/ld.so.cache"]
        ≫= λ p, ["--ro-bind-try"; p; p])
  ++ ["--proc"; "/proc"; "--dev"; "/dev"; "--tmpfs"; "/tmp"; "--tmpfs"; parent_display ws; "--dir"; ws; "--bind"; ws; ws;
      "--ro-bind-try"; media; media; "--chdir"; sandbox_cwd; "--"; "sh"; "-c"; command].

Definition wrap_command (fs : FileSystem) (sandbox command workspace cwd : string) : result string string :=
  if String.eqb sandbox "bwrap" then Ok (shell_join (bwrap_args fs command workspace cwd))
  else Err ("Unknown sandbox backend '" +:+ sandbox +:+ "'. Available: bwrap").
End Policy.

(** ** What a shell reads *)

(** The words of a command line, by the quoting rules of the POSIX shell: single quotes keep
    everything up to the next one, a backslash outside them keeps the next character, blanks end
    a word.  [None] for a character that means more to the shell, or an open quote. *)
Inductive shell_mode := Outside | Quoted.

Fixpoint shell_words (mode : shell_mode) (cur : option string) (s : string) : option (list string) :=
  match mode, s with
  | Outside, "" => Some (option_list cur)
  | Quoted, "" => None
  | Outside, String c s' =>
      if Ascii.eqb c " " then ws ← shell_words Outside None s'; Some (option_list cur ++ ws)
      else if Ascii.eqb c quote then shell_words Quoted (Some (default "" cur)) s'
      else if Ascii.eqb c "\" then
        match s' with String d s' => shell_words Outside (Some (default "" cur +:+ String d "")) s' | "" => None end
      else if shell_safe c then shell_words Outside (Some (default "" cur +:+ String c "")) s'
      else None
  | Quoted, String c s' =>
      if Ascii.eqb c quote then shell_words Outside cur s'
      else shell_words Quoted (Some (default "" cur +:+ String c "")) s'
  end.

Lemma shell_safe_plain c : shell_safe c = true → Ascii.eqb c " " = false ∧ Ascii.eqb c quote = false ∧ Ascii.eqb c "\" = false.
Proof. intros H. split_and!; apply not_true_iff_false; intros E; apply Ascii.eqb_eq in E; by subst. Qed.

Lemma shell_words_safe s cur rest :
  all_safe s = true → s ≠ "" → shell_words Outside cur (s +:+ rest) = shell_words Outside (Some (default "" cur +:+ s)) rest.
Proof.
  revert cur. induction s as [|c s IH]; intros cur H Hne; [done|]. cbn in H. apply andb_prop in H as [Hc Hs].
  destruct (shell_safe_plain c Hc) as (H1 & H2 & H3). rewrite sapp_cons. cbn [shell_words]. rewrite H1, H2, H3, Hc.
  destruct s as [|d s]; [by rewrite sapp_nil_l|]. rewrite IH by done. cbn [default from_option id].
  by rewrite <-sapp_assoc, sapp_cons, sapp_nil_l.
Qed.

Lemma replace_char_str q r c s :
  replace_str (String q "") r (String c s) =
  if Ascii.eqb c q then r +:+ replace_str (String q "") r s else String c (replace_str (String q "") r s).
Proof. unfold replace_str. cbn. unfold starts_with. cbn. rewrite Ascii.eqb_sym. by destruct (Ascii.eqb c q). Qed.

Lemma shell_words_quoted s acc rest :
  shell_words Quoted (Some acc) (replace_str (String quote "") quoted_quote s +:+ String quote rest) =
  shell_words Outside (Some (acc +:+ s)) rest.
Proof.
  revert acc. induction s as [|c s IH]; intros acc; [cbn; by rewrite sapp_nil_r|].
  rewrite replace_char_str. destruct (Ascii.eqb_spec c quote) as [->|Hc].
  - unfold quoted_quote. rewrite !sapp_cons, sapp_nil_l. cbn [shell_words].
    cbn. rewrite IH. by rewrite <-sapp_assoc, sapp_cons, sapp_nil_l.
  - rewrite sapp_cons. cbn [shell_words]. rewrite (proj2 (Ascii.eqb_neq _ _) Hc). cbn [default from_option id]. rewrite IH.
    by rewrite <-sapp_assoc, sapp_cons, sapp_nil_l.
Qed.

Lemma shell_words_quote w rest : shell_words Outside None (shell_quote w +:+ rest) = shell_words Outside (Some w) rest.
Proof.
  unfold shell_quote. destruct (is_empty w) eqn:E; [by apply is_empty_true in E as ->|]. apply is_empty_false in E.
  destruct (all_safe w) eqn:Es; [by rewrite shell_words_safe|].
  rewrite sapp_cons, <-sapp_assoc, sapp_cons, sapp_nil_l. cbn [shell_words]. cbn [Ascii.eqb]. apply (shell_words_quoted w "").
Qed.

(** Quoting is faithful: a shell that reads a joined command line gets back the very
    arguments, whatever characters are in them, and runs nothing else. *)
Theorem shell_join_roundtrip args : shell_words Outside None (shell_join args) = Some args.
Proof.
  unfold shell_join. induction args as [|w args IH]; [done|]. destruct args as [|w' args].
  - cbn. rewrite <-(sapp_nil_r (shell_quote w)), shell_words_quote. done.
  - change (join " " (shell_quote <$> w :: w' :: args)) with (shell_quote w +:+ " " +:+ join " " (shell_quote <$> w' :: args)).
    rewrite shell_words_quote, sapp_cons, sapp_nil_l. cbn [shell_words Ascii.eqb]. by rewrite IH.
Qed.
