(* ===== verification/FsTools.v ===== *)
(** * The file tools

    [crates/agent/src/tools/filesystem.rs] and [file_state.rs]: reading, writing and editing
    files and listing directories under the path policy, with the record of what was read.
    Texts are their bytes; [sha256] and the tables of Unicode digits and letters are parameters,
    and so is the time in seconds a modification time is compared as. *)

From S2P Require Import Prelude RustStr F64 Utf8 Json Messages PosixFs Sandbox.

Local Open Scope stdpp_scope.
Local Open Scope hive_scope.

(** ** What was read *)

Record ReadState := mkReadState {
  rs_mtime : f64; rs_offset : Z; rs_limit : option Z; rs_hash : option string; rs_dedup : bool
}.

(** By canonical path. *)
Abbreviation FileStates := (gmap string ReadState).

(** The files, the system and the states of one session. *)
Record FsWorld := mkFsWorld { fw_fs : FileSystem; fw_states : FileStates }.

Definition set_fs (fs : FileSystem) (w : FsWorld) : FsWorld := mkFsWorld fs (fw_states w).
Definition set_states (s : FileStates) (w : FsWorld) : FsWorld := mkFsWorld (fw_fs w) s.

(** [f64::EPSILON]. *)
Definition f64_epsilon : f64 := S754_finite false 4503599627370496 (-104).

Section States.
Variables (sha256 : string → string) (secs_f64 : Z → f64).

Definition file_mtime (fs : FileSystem) (p : string) : option f64 :=
  match object_at fs p with Some (NFile _ t) | Some (NDir t) => Some (secs_f64 t) | _ => None end.

Definition hash_file (fs : FileSystem) (p : string) : option string :=
  match fs_read_bytes fs p with Ok bytes => Some (sha256 bytes) | Err _ => None end.

Definition times_differ (a b : f64) : bool := f64_gt (SFabs (f64_sub a b)) f64_epsilon.

Definition record_read (path : string) (offset : Z) (limit : option Z) (w : FsWorld) : FsWorld :=
  let p := canonicalize (fw_fs w) path in
  match file_mtime (fw_fs w) p with
  | Some t => set_states (<[p := mkReadState t offset limit (hash_file (fw_fs w) p) true]> (fw_states w)) w
  | None => w
  end.

Definition record_write (path : string) (w : FsWorld) : FsWorld :=
  let p := canonicalize (fw_fs w) path in
  match file_mtime (fw_fs w) p with
  | Some t => set_states (<[p := mkReadState t 1 None (hash_file (fw_fs w) p) false]> (fw_states w)) w
  | None => set_states (delete p (fw_states w)) w
  end.

Definition NOT_READ : string := "Warning: file has not been read yet. Read it first to verify content before editing.".
Definition MODIFIED : string := "Warning: file has been modified since last read. Re-read to verify content before editing.".

Definition opt_str_eqb (a b : option string) : bool := bool_decide (a = b).

Definition check_read (path : string) (w : FsWorld) : FsWorld * option string :=
  let p := canonicalize (fw_fs w) path in
  match fw_states w !! p with
  | None => (w, Some NOT_READ)
  | Some e =>
      match file_mtime (fw_fs w) p with
      | None => (w, None)
      | Some t =>
          let same := match rs_hash e with Some h => opt_str_eqb (hash_file (fw_fs w) p) (Some h) | None => false end in
          if times_differ t (rs_mtime e) then
            if same then (set_states (<[p := mkReadState t (rs_offset e) (rs_limit e) (rs_hash e) (rs_dedup e)]> (fw_states w)) w, None)
            else (w, Some MODIFIED)
          else if bool_decide (is_Some (rs_hash e)) && negb same then (w, Some MODIFIED) else (w, None)
      end
  end.

Definition no_dedup (e : ReadState) : ReadState := mkReadState (rs_mtime e) (rs_offset e) (rs_limit e) (rs_hash e) false.

Definition is_unchanged (path : string) (offset : Z) (limit : option Z) (w : FsWorld) : FsWorld * bool :=
  let p := canonicalize (fw_fs w) path in
  match fw_states w !! p with
  | None => (w, false)
  | Some e =>
      if negb (rs_dedup e) || negb (rs_offset e =? offset)%Z || negb (bool_decide (rs_limit e = limit)) then (w, false)
      else
        match file_mtime (fw_fs w) p with
        | None => (w, false)
        | Some t =>
            if times_differ t (rs_mtime e)
            then (set_states (<[p := no_dedup e]> (fw_states w)) w, opt_str_eqb (hash_file (fw_fs w) p) (rs_hash e))
            else (w, true)
        end
  end.
End States.

(** ** Text edits *)

(** [QuoteTable]: curly quotes are three bytes, E2 80 98, 99, 9C and 9D. *)
Definition curly (last : ascii) : string := String "226" (String "128" (String last "")).
Definition lsquo : string := curly "152".
Definition rsquo : string := curly "153".
Definition ldquo : string := curly "156".
Definition rdquo : string := curly "157".
Definition squote : ascii := "'"%char.
Definition dquote : ascii := "034"%char.

Fixpoint normalize_quotes (s : string) : string :=
  match s with
  | String "226" (String "128" (String c s')) =>
      if Ascii.eqb c "152" || Ascii.eqb c "153" then String squote (normalize_quotes s')
      else if Ascii.eqb c "156" || Ascii.eqb c "157" then String dquote (normalize_quotes s')
      else String "226" (String "128" (String c (normalize_quotes s')))
  | String c s' => String c (normalize_quotes s')
  | "" => ""
  end.

Definition has_curly_double (s : string) : bool := contains_str s ldquo || contains_str s rdquo.
Definition has_curly_single (s : string) : bool := contains_str s lsquo || contains_str s rsquo.

Fixpoint to_curly_double (opening : bool) (s : string) : string :=
  match s with
  | "" => ""
  | String c s' =>
      if Ascii.eqb c dquote then (if opening then ldquo else rdquo) +:+ to_curly_double (negb opening) s'
      else String c (to_curly_double opening s')
  end.

Definition leading_ws_len (s : string) : nat :=
  (fix go (s : string) : nat :=
     match s with String c s' => if Ascii.eqb c " " || Ascii.eqb c "009" then S (go s') else 0 | "" => 0 end) s.

Definition leading_ws (line : string) : string := stake (leading_ws_len line) line.

Section Edits.
(** Whether the characters just before and just after a place are letters or digits. *)
Variable is_alphanumeric : string → bool.

Fixpoint to_curly_single (prev : string) (opening : bool) (cs : list string) : string :=
  match cs with
  | [] => ""
  | c :: cs =>
      if negb (String.eqb c (String squote "")) then c +:+ to_curly_single c opening cs
      else if is_alphanumeric prev && is_alphanumeric (default " " (head cs)) then rsquo +:+ to_curly_single c opening cs
      else (if opening then lsquo else rsquo) +:+ to_curly_single c (negb opening) cs
  end.

Definition preserve_quote_style (old_text actual_text new_text : string) : string :=
  if negb (String.eqb (normalize_quotes (trim old_text)) (normalize_quotes (trim actual_text))) || String.eqb old_text actual_text
  then new_text
  else
    let styled := if has_curly_double actual_text && contains_str new_text (String dquote "")
                  then to_curly_double true new_text else new_text in
    if has_curly_single actual_text && contains_str styled (String squote "")
    then to_curly_single " " true (chars_of styled) else styled.

Definition reindent_like_match (old_text actual_text new_text : string) : string :=
  let old_lines := split_on nl old_text in
  let actual_lines := split_on nl actual_text in
  if negb (length old_lines =? length actual_lines) then new_text
  else
    let comparable := retain (λ oa, negb (is_empty (trim oa.1)) && negb (is_empty (trim oa.2))) (zip old_lines actual_lines) in
    match comparable with
    | [] => new_text
    | (o, a) :: _ =>
        if existsb (λ oa, negb (String.eqb (normalize_quotes (trim oa.1)) (normalize_quotes (trim oa.2)))) comparable then new_text
        else
          let old_ws := leading_ws o in
          let actual_ws := leading_ws a in
          if String.eqb actual_ws old_ws then new_text
          else
            match (if is_empty old_ws then Some actual_ws else strip_prefix old_ws actual_ws) with
            | None => new_text
            | Some delta =>
                if is_empty delta then new_text
                else join (String nl "") ((λ line, if is_empty line then line else delta +:+ line) <$> split_on nl new_text)
            end
    end.

(** *** Finding the text *)

Record MatchSpan := mkSpan { m_start : nat; m_end : nat; m_text : string; m_line : nat }.

Fixpoint count_nl (s : string) : nat := match s with "" => 0 | String c s => (if Ascii.eqb c nl then 1 else 0) + count_nl s end.

Definition line_at (content : string) (i : nat) : run nat := let! before := run_of_option (slice_to content i) in Returns (count_nl before + 1).

(** The loop goes on after each match; [fuel] is the length of the text and one. *)
Fixpoint exact_from (fuel : nat) (content old_text : string) (start : nat) : run (list MatchSpan) :=
  match fuel with
  | O => OutOfFuel
  | S fuel =>
      let! rest := run_of_option (slice_from content start) in
      match find_sub old_text rest with
      | None => Returns []
      | Some idx =>
          let absolute := start + idx in
          let stop := absolute + String.length old_text in
          let! text := run_of_option (slice content absolute stop) in
          let! line := line_at content absolute in
          let! ms := exact_from fuel content old_text (stop `max` (absolute + 1)) in
          Returns (mkSpan absolute stop text line :: ms)
      end
  end.

Definition find_exact_matches (content old_text : string) : run (list MatchSpan) :=
  exact_from (S (String.length content)) content old_text 0.

Definition trimmed_line (normalize : bool) (l : string) : string := if normalize then normalize_quotes (trim l) else trim l.

Fixpoint line_offsets (pos : nat) (ls : list string) : list nat :=
  match ls with [] => [pos] | l :: ls => pos :: line_offsets (pos + String.length l + 1) ls end.

(** The windows from line [i] on. *)
Fixpoint trim_from (n : nat) (content : string) (old_lines content_lines : list string) (offsets : list nat) (normalize : bool)
    (i : nat) : run (list MatchSpan) :=
  match n with
  | O => Returns []
  | S n =>
      let size := length old_lines in
      if negb (bool_decide ((trimmed_line normalize <$> take size (drop i content_lines)) = old_lines))
      then trim_from n content old_lines content_lines offsets normalize (S i)
      else
        let start := default 0 (offsets !! i) in
        let stop := default 0 (offsets !! (i + size)) in
        let stop := if i + size <? length content_lines then stop - 1 else stop in
        let! text := run_of_option (slice content start stop) in
        let! ms := trim_from n content old_lines content_lines offsets normalize (S i) in
        Returns (mkSpan start stop text (i + 1) :: ms)
  end.

Definition find_trim_matches (content old_text : string) (normalize : bool) : run (list MatchSpan) :=
  let old_lines := trimmed_line normalize <$> lines old_text in
  let content_lines := lines content in
  if bool_decide (old_lines = []) || (length content_lines <? length old_lines) then Returns []
  else trim_from (S (length content_lines - length old_lines)) content old_lines content_lines (line_offsets 0 content_lines) normalize 0.

Fixpoint quote_from (fuel : nat) (content norm_content norm_old : string) (old_len start : nat) : run (list MatchSpan) :=
  match fuel with
  | O => OutOfFuel
  | S fuel =>
      let! rest := run_of_option (slice_from norm_content start) in
      match find_sub norm_old rest with
      | None => Returns []
      | Some idx =>
          let absolute := start + idx in
          let stop := absolute + old_len in
          let! text := run_of_option (slice content absolute (stop `min` String.length content)) in
          let! line := line_at content absolute in
          let! ms := quote_from fuel content norm_content norm_old old_len (absolute + (String.length norm_old `max` 1)) in
          Returns (mkSpan absolute stop text line :: ms)
      end
  end.

Definition find_quote_matches (content old_text : string) : run (list MatchSpan) :=
  quote_from (S (String.length content)) content (normalize_quotes content) (normalize_quotes old_text) (String.length old_text) 0.

Definition find_all_matches (content old_text : string) : run (list MatchSpan) :=
  let! ms := find_exact_matches content old_text in
  if negb (bool_decide (length ms = 0)) then Returns ms else
  let! ms := find_trim_matches content old_text false in
  if negb (bool_decide (length ms = 0)) then Returns ms else
  let! ms := find_trim_matches content old_text true in
  if negb (bool_decide (length ms = 0)) then Returns ms else
  find_quote_matches content old_text.

(** *** Replacing *)

(** [String::replace_range], which panics outside the text or inside a character. *)
Definition replace_range (s : string) (a b : nat) (r : string) : run string :=
  if (a <=? b) && (b <=? String.length s) && is_char_boundary s a && is_char_boundary s b
  then Returns (stake a s +:+ r +:+ sdrop b s) else Panics.

Definition replacement_for (norm_old norm_new : string) (m : MatchSpan) : string :=
  reindent_like_match norm_old (m_text m) (preserve_quote_style norm_old (m_text m) norm_new).

(** One match; a line that becomes empty goes with its line break. *)
Definition apply_match (content norm_old norm_new : string) (m : MatchSpan) (new_content : string) : run string :=
  let replacement := replacement_for norm_old norm_new m in
  let stop := if is_empty replacement && negb (ends_with (m_text m) (String nl ""))
                 && match String.get (m_end m) content with Some c => Ascii.eqb c nl | None => false end
              then S (m_end m) else m_end m in
  replace_range new_content (m_start m) stop replacement.

(** The matches are replaced from the last to the first. *)
Fixpoint apply_matches (content norm_old norm_new : string) (ms : list MatchSpan) : run string :=
  match ms with
  | [] => Returns content
  | m :: ms => let! s := apply_matches content norm_old norm_new ms in apply_match content norm_old norm_new m s
  end.

Definition strip_trailing_ws (text : string) : string := join (String nl "") (trim_end <$> lines text).
End Edits.

(** ** Messages about near misses *)

Definition collapse_internal_whitespace (text : string) : string :=
  join (String nl "") ((λ l, join " " (split_whitespace l)) <$> lines text).

Fixpoint trim_nl_rev (s : string) : string := match s with String c s' => if Ascii.eqb c nl then trim_nl_rev s' else s | "" => "" end.
Definition trim_end_nl (s : string) : string := String.rev (trim_nl_rev (String.rev s)).

Definition diagnose_near_match (lower : string → string) (old_text actual_text : string) : list string :=
  let differ (f : string → string) hint := if String.eqb (f old_text) (f actual_text) && negb (String.eqb old_text actual_text) then [hint] else [] in
  differ lower "letter case differs" ++ differ collapse_internal_whitespace "whitespace differs"
  ++ differ trim_end_nl "trailing newline differs" ++ differ normalize_quotes "quote style differs".

Definition f64_of_nat (n : nat) : f64 := f64_of_Z (Z.of_nat n).

Definition similarity_ratio (a b : list string) : f64 :=
  let max_len := length a `max` length b in
  if max_len =? 0 then f64_of_nat 1
  else f64_div (f64_of_nat (length (retain (λ xy, String.eqb xy.1 xy.2) (zip a b)))) (f64_of_nat max_len).

Record BestWindow := mkBest { bw_ratio : f64; bw_start : nat; bw_lines : list string }.

Definition best_step (old_lines ls : list string) (window : nat) (best : BestWindow) (i : nat) : BestWindow :=
  let current := take window (drop i ls) in
  let ratio := similarity_ratio old_lines current in
  if f64_gt ratio (bw_ratio best) then mkBest ratio i current else best.

Definition best_window (old_text content : string) : BestWindow :=
  let ls := lines content in
  let old_lines := lines old_text in
  let window := length old_lines `max` 1 in
  foldl (best_step old_lines ls window) (mkBest (f64_of_Z (-1)) 0 []) (seq 0 (S (length ls - window))).

(** [format!("{:.0}", x)] of a number that is not negative: to the nearest, ties to even. *)
Definition format_whole (x : f64) : string :=
  match x with
  | S754_finite _ m e =>
      if (0 <=? e)%Z then pretty (Z.pos m * 2 ^ e)%Z
      else
        let q := (Z.pos m / 2 ^ (- e))%Z in
        let r := (Z.pos m mod 2 ^ (- e))%Z in
        let half := (2 ^ (- e - 1))%Z in
        pretty (if (half <? r)%Z || ((r =? half)%Z && Z.odd q) then q + 1 else q)%Z
  | _ => "0"
  end.

(** [unified_diff]: the lines still to come, the hunk gathered, and where it starts. *)
Definition flush_hunk (old_start new_start : nat) (hunk_old hunk_new : list string) : list string :=
  match hunk_old, hunk_new with
  | [], [] => []
  | _, _ => ["@@ -" +:+ pretty old_start +:+ "," +:+ pretty (length hunk_old) +:+ " +" +:+ pretty new_start +:+ ","
             +:+ pretty (length hunk_new) +:+ " @@"]
            ++ ((λ l, "-" +:+ l) <$> hunk_old) ++ ((λ l, "+" +:+ l) <$> hunk_new)
  end.

Fixpoint diff_from (fuel : nat) (i j : nat) (old new : list string) (old_start new_start : nat) (hunk_old hunk_new : list string)
    : list string :=
  match fuel, old, new with
  | O, _, _ | _, [], [] => flush_hunk old_start new_start hunk_old hunk_new
  | S fuel, x :: old', y :: new' =>
      if String.eqb x y then
        flush_hunk old_start new_start hunk_old hunk_new ++ [" " +:+ x] ++ diff_from fuel (S i) (S j) old' new' (i + 2) (j + 2) [] []
      else if length old <=? length new then diff_from fuel (S i) j old' new old_start new_start (hunk_old ++ [x]) hunk_new
      else diff_from fuel i (S j) old new' old_start new_start hunk_old (hunk_new ++ [y])
  | S fuel, x :: old', [] => diff_from fuel (S i) j old' [] old_start new_start (hunk_old ++ [x]) hunk_new
  | S fuel, [], y :: new' => diff_from fuel i (S j) [] new' old_start new_start hunk_old (hunk_new ++ [y])
  end.

Definition unified_diff (old new : list string) (from to : string) : string :=
  match diff_from (length old + length new) 0 0 old new 1 1 [] [] with
  | [] => "(no diff)"
  | out => join (String nl "") (("--- " +:+ from) :: ("+++ " +:+ to) :: out)
  end.

Definition not_found_msg (lower : string → string) (old_text content path : string) : string :=
  let best := best_window old_text content in
  let hints := diagnose_near_match lower old_text (join (String nl "") (bw_lines best)) in
  let start := pretty (bw_start best + 1) in
  if f64_gt (bw_ratio best) (f64_div (f64_of_nat 1) (f64_of_nat 2)) then
    "Error: old_text not found in " +:+ path +:+ "."
    +:+ (match hints with [] => "" | _ => String nl "Possible cause: " +:+ join ", " hints +:+ "." end)
    +:+ String nl "Best match (" +:+ format_whole (f64_mul (bw_ratio best) (f64_of_nat 100)) +:+ "% similar) at line " +:+ start +:+ ":"
    +:+ String nl (unified_diff (lines old_text) (bw_lines best) "old_text (provided)" (path +:+ " (actual, line " +:+ start +:+ ")"))
  else match hints with
       | [] => "Error: old_text not found in " +:+ path +:+ ". No similar text found. Verify the file content."
       | _ => "Error: old_text not found in " +:+ path +:+ ". Possible cause: " +:+ join ", " hints
              +:+ ". Copy the exact text from read_file and try again."
       end.

(** Characters of the target found in order in the candidate. *)
Fixpoint matched_chars (a b : list string) : nat :=
  match b with
  | [] => 0
  | y :: b => match a with
              | x :: a' => if String.eqb x y then S (matched_chars a' b) else matched_chars a b
              | [] => 0
              end
  end.

Definition similarity_str (a b : string) : f64 :=
  if String.eqb a b then f64_of_nat 1
  else
    let x := chars_of a in let y := chars_of b in
    let max_len := length x `max` length y in
    if max_len =? 0 then f64_of_nat 1 else f64_div (f64_of_nat (matched_chars x y)) (f64_of_nat max_len).

(** A stable sort, the best first. *)
Fixpoint insert_scored (x : f64 * string) (l : list (f64 * string)) : list (f64 * string) :=
  match l with [] => [x] | y :: l' => if f64_gt x.1 y.1 then x :: l else y :: insert_scored x l' end.

Definition fuzzy_close_matches (target : string) (candidates : list string) (n : nat) : list string :=
  let scored := retain (λ sc, negb (f64_lt sc.1 (f64_div (f64_of_nat 6) (f64_of_nat 10)))) ((λ c, (similarity_str target c, c)) <$> candidates) in
  take n (foldl (λ acc x, insert_scored x acc) [] scored).*2.

(** ** The tools *)

Definition BLOCKED_DEVICE_PATHS : list string :=
  ["/dev/zero"; "/dev/random"; "/dev/urandom"; "/dev/full"; "/dev/stdin"; "/dev/stdout"; "/dev/stderr"; "/dev/tty"; "/dev/console";
   "/dev/fd/0"; "/dev/fd/1"; "/dev/fd/2"].

Definition IGNORE_DIRS : list string :=
  [".git"; "node_modules"; "__pycache__"; ".venv"; "venv"; "dist"; "build"; ".tox"; ".mypy_cache"; ".pytest_cache"; ".ruff_cache";
   ".coverage"; "htmlcov"; "target"].

Record FsTool := mkFsTool { ft_workspace : option string; ft_allowed : option string; ft_extra : list string }.

Definition READ_MAX_CHARS : Z := 128000.
Definition READ_DEFAULT_LIMIT : Z := 2000.
Definition EDIT_MAX_FILE_SIZE : Z := 1073741824.

Definition string_param (params : json) (k : string) : option string := get_str k params.
Definition bool_param (params : json) (k : string) (d : bool) : bool := default d (jget k params ≫= as_bool).
Definition usize_param (params : json) (k : string) (d : Z) : Z := default d (jget k params ≫= as_u64).

Definition mime_from_extension (path : string) : option string :=
  let lower := to_lowercase path in
  if ends_with lower ".png" then Some "image/png"
  else if ends_with lower ".jpg" || ends_with lower ".jpeg" then Some "image/jpeg"
  else if ends_with lower ".gif" then Some "image/gif"
  else if ends_with lower ".webp" then Some "image/webp" else None.

Section Tools.
Variables (env : SysEnv) (ft : FsTool).
Variables (sha256 : string → string) (secs_f64 : Z → f64) (base64 lower : string → string).
Variables (is_alphanumeric all_digits : string → bool).
(** The order in which a directory is read, and [walkdir] below a directory, by name. *)
Variables (dir_order : list (string * node) → list (string * node)) (walk_dir : FileSystem → string → list (string * bool)).

Definition resolve (fs : FileSystem) (path : string) : result string PathError :=
  resolve_path env fs path (ft_workspace ft) (ft_allowed ft) (ft_extra ft).

(** [^/proc/\d+/fd/[012]$] and [^/proc/self/fd/[012]$]. *)
Definition is_proc_fd (s : string) : bool :=
  match split_on "/" s with
  | [""; "proc"; who; "fd"; n] =>
      bool_decide (n ∈ ["0"; "1"; "2"]) && (String.eqb who "self" || (negb (is_empty who) && all_digits who))
  | _ => false
  end.

Definition is_blocked_device (fs : FileSystem) (path : string) : bool :=
  let resolved := canonicalize fs path in
  bool_decide (path ∈ BLOCKED_DEVICE_PATHS) || bool_decide (resolved ∈ BLOCKED_DEVICE_PATHS)
  || is_proc_fd path || is_proc_fd resolved || starts_with resolved "/dev/".

Definition reply (s : string) (w : FsWorld) : run (FsWorld * json) := Returns (w, JStr s).

Definition image_response (raw mime fp path : string) : string :=
  "[IMAGE:" +:+ mime +:+ ";base64," +:+ base64 raw +:+ "|path=" +:+ fp +:+ "|label=(Image file: " +:+ path +:+ ")]".

Definition numbered (start : nat) (ls : list string) : list string :=
  imap (λ i l, pretty (start + i + 1) +:+ "| " +:+ l) ls.

(** The lines that fit; every line counts with its break. *)
Fixpoint fitting (used : Z) (ls : list string) : list string :=
  match ls with
  | [] => []
  | l :: ls =>
      let used := (used + Z.of_nat (String.length l) + 1)%Z in
      if (READ_MAX_CHARS <? used)%Z then [] else l :: fitting used ls
  end.

Definition continued (from to total : nat) : string :=
  String nl (String nl ("(Showing lines " +:+ pretty from +:+ "-" +:+ pretty to +:+ " of " +:+ pretty total +:+ ". Use offset="
    +:+ pretty (to + 1) +:+ " to continue.)")).

(** The text of a page: the lines from [offset] on, at most [limit]. *)
Definition read_page (text : string) (offset : Z) (limit : option Z) : run string :=
  let all := split_on nl text in
  let total := length all in
  if (Z.of_nat total <? offset)%Z
  then Returns ("Error: offset " +:+ pretty offset +:+ " is beyond end of file (" +:+ pretty total +:+ " lines)")
  else
    let start := Z.to_nat (offset - 1) in
    let stop := (offset - 1 + default READ_DEFAULT_LIMIT limit)%Z in
    if (2 ^ 64 <=? stop)%Z then Panics
    else
      let stop := Z.to_nat (Z.min stop (Z.of_nat total)) in
      let page := numbered start (take (stop - start) (drop start all)) in
      let result := join (String nl "") page in
      if (READ_MAX_CHARS <? Z.of_nat (String.length result))%Z then
        let fits := fitting 0 page in
        Returns (join (String nl "") fits +:+ continued (start + 1) (start + length fits) total)
      else if stop <? total then Returns (result +:+ continued (start + 1) stop total)
      else Returns (result +:+ String nl (String nl ("(End of file — " +:+ pretty total +:+ " lines total)"))).

Definition crlf : string := String cr (String nl "").

Definition read_file (params : json) (w : FsWorld) : run (FsWorld * json) :=
  match string_param params "path" with
  | None => reply "Error reading file: Unknown path" w
  | Some path =>
      let offset := Z.max 1 (usize_param params "offset" 1) in
      let limit := jget "limit" params ≫= as_u64 in
      match resolve (fw_fs w) path with
      | Err e => reply ("Error: " +:+ path_error_text e) w
      | Ok fp =>
          if is_blocked_device (fw_fs w) fp
          then reply ("Error: Reading " +:+ fp +:+ " is blocked (device path that could hang or produce infinite output).") w
          else if negb (path_exists (fw_fs w) fp) then reply ("Error: File not found: " +:+ path) w
          else if negb (path_is_file (fw_fs w) fp) then reply ("Error: Not a file: " +:+ path) w
          else
            let ext := to_lowercase (default "" (extension fp)) in
            if String.eqb ext "pdf"
            then reply "Error: PDF reading requires a PDF parsing library (e.g. pdf-extract or lopdf). Add the crate to Cargo.toml and implement read_pdf." w
            else if bool_decide (ext ∈ ["docx"; "xlsx"; "pptx"])
            then reply ("Error: " +:+ to_ascii_uppercase ext +:+ " reading requires an Office document parsing library. Add the appropriate crate (e.g. docx for .docx, calamine for .xlsx) to Cargo.toml and implement read_office_doc.") w
            else
              let '(w, unchanged) := is_unchanged sha256 secs_f64 fp offset limit w in
              if unchanged then reply ("[File unchanged since last read: " +:+ path +:+ "]") w
              else
                match fs_read_bytes (fw_fs w) fp with
                | Err e => reply ("Error reading file: " +:+ e) w
                | Ok raw =>
                    if is_empty raw then reply ("(Empty file: " +:+ path +:+ ")") w
                    else
                      match (match detect_image_mime raw with Some m => Some m | None => mime_from_extension path end) with
                      | Some m => reply (image_response raw m fp path) w
                      | None =>
                          if negb (utf8_valid raw)
                          then reply ("Error: Cannot read binary file " +:+ path +:+ " (MIME: unknown). Only UTF-8 text and images are supported.") w
                          else
                            let text := replace_str crlf (String nl "") raw in
                            let! page := read_page text offset limit in
                            reply page (if (Z.of_nat (length (split_on nl text)) <? offset)%Z then w else record_read sha256 secs_f64 fp offset limit w)
                      end
                end
      end
  end.

Definition write_file (params : json) (w : FsWorld) : run (FsWorld * json) :=
  match string_param params "path", string_param params "content" with
  | None, _ => reply "Error writing file: Unknown path" w
  | Some _, None => reply "Error writing file: Unknown content" w
  | Some path, Some content =>
      match resolve (fw_fs w) path with
      | Err e => reply ("Error: " +:+ path_error_text e) w
      | Ok fp =>
          let '(fs, e) := create_parent_dirs (fw_fs w) fp in
          let w := set_fs fs w in
          match e with
          | Some e => reply ("Error writing file: " +:+ e) w
          | None =>
              let '(fs, e) := fs_write_bytes (fw_fs w) fp content in
              let w := set_fs fs w in
              match e with
              | Some e => reply ("Error writing file: " +:+ e) w
              | None =>
                  reply ("Successfully wrote " +:+ pretty (String.length content) +:+ " characters to " +:+ fp) (record_write sha256 secs_f64 fp w)
              end
          end
      end
  end.

(** The entries of a directory. *)
Definition entries_of (t : tree) (r : list string) : list (string * node) :=
  dir_order (filter_map (λ kn, match last kn.1 with
                               | Some name => if bool_decide (removelast kn.1 = r) then Some (name, kn.2) else None
                               | None => None
                               end) (map_to_list t)).

Definition parent_path (p : string) : option string := if bool_decide (names p = []) then None else Some (parent_display p).

Definition file_not_found_msg (fs : FileSystem) (path fp : string) : string :=
  let suggestions :=
    match parent_path fp ≫= λ p, r ← real_path fs p; Some (p, r) with
    | Some (p, r) =>
        if is_dir_at (fs_tree fs) r then
          let siblings := filter_map (λ e, match e.2 with NFile _ _ => Some e.1 | _ => None end) (entries_of (fs_tree fs) r) in
          path_join p <$> fuzzy_close_matches (default "" (file_name fp)) siblings 3
        else []
    | None => []
    end in
  "Error: File not found: " +:+ path
  +:+ match suggestions with [] => "" | _ => String nl "Did you mean: " +:+ join ", " suggestions +:+ "?" end.

Definition is_markdown (fp : string) : bool :=
  match extension fp with Some e => bool_decide (to_lowercase e ∈ ["md"; "mdx"; "markdown"]) | None => false end.

(** Writing the result of an edit, and what is said of it. *)
Definition write_and_record (fp text done : string) (w : FsWorld) : run (FsWorld * json) :=
  let '(fs, e) := fs_write_bytes (fw_fs w) fp text in
  match e with
  | Some e => reply ("Error editing file: " +:+ e) (set_fs fs w)
  | None => reply done (record_write sha256 secs_f64 fp (set_fs fs w))
  end.

Definition many_matches (ms : list MatchSpan) : string :=
  "Warning: old_text appears " +:+ pretty (length ms) +:+ " times at " +:+ join ", " ((λ m, "line " +:+ pretty (m_line m)) <$> take 3 ms)
  +:+ (if 3 <? length ms then ", ..." else "") +:+ ". Provide more context to make it unique, or set replace_all=true.".

(** The edit of a text. *)
Definition edit_text (content norm_old norm_new : string) (ms : list MatchSpan) (replace_all : bool) : run string :=
  apply_matches is_alphanumeric content norm_old norm_new (if replace_all then ms else take 1 ms).

Definition edit_existing (path fp old_text new_text : string) (replace_all : bool) (w : FsWorld) : run (FsWorld * json) :=
  let '(w, warning) := check_read sha256 secs_f64 fp w in
  match fs_read_bytes (fw_fs w) fp with
  | Err e => reply ("Error editing file: " +:+ e) w
  | Ok raw =>
      if negb (utf8_valid raw) then reply ("Error: Cannot edit non-UTF-8 file " +:+ path +:+ ".") w
      else
        let uses_crlf := contains_str raw crlf in
        let content := replace_str crlf (String nl "") raw in
        let norm_old := replace_str crlf (String nl "") old_text in
        let norm_new := replace_str crlf (String nl "") new_text in
        let norm_new := if is_markdown fp then norm_new else strip_trailing_ws norm_new in
        let! ms := find_all_matches content norm_old in
        match ms with
        | [] => reply (not_found_msg lower norm_old content path) w
        | _ =>
            if (1 <? length ms) && negb replace_all then reply (many_matches ms) w
            else
              let! edited := edit_text content norm_old norm_new ms replace_all in
              let to_write := if uses_crlf then replace_str (String nl "") crlf edited else edited in
              write_and_record fp to_write (match warning with Some x => x +:+ String nl "" | None => "" end +:+ "Successfully edited " +:+ fp) w
        end
  end.

Definition file_size (fs : FileSystem) (fp : string) : Z :=
  match object_at fs fp with Some (NFile c _) => Z.of_nat (String.length c) | _ => 0%Z end.

Definition edit_file (params : json) (w : FsWorld) : run (FsWorld * json) :=
  match string_param params "path" with
  | None => reply "Error editing file: Unknown path" w
  | Some path =>
      let old_text := default "" (string_param params "old_text") in
      let new_text := default "" (string_param params "new_text") in
      let replace_all := bool_param params "replace_all" false in
      if ends_with path ".ipynb"
      then reply "Error: This is a Jupyter notebook. Use the notebook_edit tool instead of edit_file." w
      else
        match resolve (fw_fs w) path with
        | Err e => reply ("Error: " +:+ path_error_text e) w
        | Ok fp =>
            if negb (path_exists (fw_fs w) fp) then
              if is_empty old_text
              then write_and_record fp new_text ("Successfully created " +:+ fp) (set_fs (create_parent_dirs (fw_fs w) fp).1 w)
              else reply (file_not_found_msg (fw_fs w) path fp) w
            else if (EDIT_MAX_FILE_SIZE <? file_size (fw_fs w) fp)%Z
            then reply ("Error: File too large to edit (" +:+ pretty (file_size (fw_fs w) fp) +:+ " bytes). Maximum is 1 GiB.") w
            else if is_empty old_text then
              let raw := match fs_read_bytes (fw_fs w) fp with Ok raw => if utf8_valid raw then raw else "" | Err _ => "" end in
              if negb (is_empty (trim raw))
              then reply ("Error: Cannot create file — " +:+ path +:+ " already exists and is not empty.") w
              else write_and_record fp new_text ("Successfully edited " +:+ fp) w
            else edit_existing path fp old_text new_text replace_all w
        end
  end.

Fixpoint insert_entry (x : string * node) (l : list (string * node)) : list (string * node) :=
  match l with [] => [x] | y :: l' => if String.ltb x.1 y.1 then x :: l else y :: insert_entry x l' end.

Definition list_dir (params : json) (w : FsWorld) : run (FsWorld * json) :=
  match string_param params "path" with
  | None => reply "Error: Unknown path" w
  | Some path =>
      let recursive := bool_param params "recursive" false in
      let cap := Z.max 1 (usize_param params "max_entries" 200) in
      let fs := fw_fs w in
      match resolve fs path with
      | Err e => reply ("Error: " +:+ path_error_text e) w
      | Ok dp =>
          match real_path fs dp with
          | None => reply ("Error: Directory not found: " +:+ path) w
          | Some r =>
              if negb (is_dir_at (fs_tree fs) r) then reply ("Error: Not a directory: " +:+ path) w
              else
                let all :=
                  if recursive then
                    (λ e, e.1 +:+ (if (e.2 : bool) then "/" else "")) <$>
                      retain (λ e, negb (existsb (λ c, bool_decide (c ∈ IGNORE_DIRS)) (names (path_join dp e.1)))) (walk_dir fs dp)
                  else
                    (λ e, (match e.2 with NDir _ => "[dir] " | _ => "[file] " end) +:+ e.1) <$>
                      retain (λ e, negb (bool_decide (e.1 ∈ IGNORE_DIRS)))
                        (foldl (λ acc x, insert_entry x acc) [] (entries_of (fs_tree fs) r)) in
                let total := Z.of_nat (length all) in
                match all with
                | [] => reply ("Directory " +:+ path +:+ " is empty") w
                | _ =>
                    reply (join (String nl "") (if (total <=? cap)%Z then all else take (Z.to_nat cap) all)
                           +:+ (if (cap <? total)%Z
                                then String nl (String nl ("(truncated, showing first " +:+ pretty cap +:+ " of " +:+ pretty total +:+ " entries)"))
                                else "")) w
                end
          end
      end
  end.
End Tools.
