(* ===== verification/FsProps.v ===== *)
(** * Properties of the file tools

    Resolution of paths is idempotent, so the comparison with the allowed directories is one of
    real locations; what lies outside cannot be learned by reading; an edit replaces what it
    says.  Counterexamples: a path that does not exist yet escapes, a match at the end of a text
    panics, curly quotes shift an edit, a trailing line break is lost. *)

From S2P Require Import Prelude RustStr F64 Utf8 Json Messages PosixFs Sandbox FsTools.

Local Open Scope stdpp_scope.
Local Open Scope hive_scope.

(** ** Resolved paths *)

Definition good_name (c : string) : Prop := c ≠ "" ∧ c ≠ "." ∧ c ≠ ".." ∧ no_char "/" c = true.

Definition is_dir_node (t : tree) (r : list string) : Prop := ∃ m, t !! r = Some (NDir m).

(** A location all of whose proper prefixes are directories. *)
Definition solid_dir (t : tree) (r : list string) : Prop :=
  Forall good_name r ∧ ∀ k, 0 < k ≤ length r → is_dir_node t (take k r).

Definition solid (t : tree) (r : list string) : Prop :=
  Forall good_name r ∧ (∀ k, 0 < k < length r → is_dir_node t (take k r)) ∧
  (r = [] ∨ is_dir_node t r ∨ ∃ c m, t !! r = Some (NFile c m)).

Definition wf_fs (fs : FileSystem) : Prop :=
  solid_dir (fs_tree fs) (fs_cwd fs) ∧ (∀ n, fs_tree fs !! [] = Some n → ∃ m, n = NDir m).

Lemma solid_dir_solid t r : solid_dir t r → solid t r.
Proof.
  intros [Hg H]. split; [done|]. split; [intros k Hk; apply H; lia|]. destruct r as [|c r]; [by left|]. right. left.
  specialize (H (length (c :: r))). rewrite firstn_all in H. apply H. cbn. lia.
Qed.

Lemma solid_dir_nil t : solid_dir t [].
Proof. split; [done|]. cbn. lia. Qed.

Lemma solid_dir_snoc t r c : solid_dir t r → good_name c → is_dir_node t (r ++ [c]) → solid_dir t (r ++ [c]).
Proof.
  intros [Hg H] Hc Hd. split; [by apply Forall_app; split; [|apply Forall_singleton]|]. intros k Hk. rewrite length_app in Hk. cbn in Hk.
  destruct (decide (k ≤ length r)); [rewrite take_app_le by done; apply H; lia|]. rewrite take_ge; [done|]. rewrite length_app. cbn. lia.
Qed.

Lemma removelast_take {A} (l : list A) : removelast l = take (length l - 1) l.
Proof. rewrite removelast_firstn_len. by rewrite Nat.sub_1_r. Qed.

Lemma solid_dir_parent t r : solid_dir t r → solid_dir t (removelast r).
Proof.
  intros [Hg H]. rewrite removelast_take. split; [by apply Forall_take|]. intros k Hk. rewrite length_take in Hk.
  rewrite take_take, Nat.min_l by lia. apply H. lia.
Qed.

Lemma split_on_no_char c s : Forall (λ x, no_char c x = true) (split_on c s).
Proof.
  induction s as [|a s IH]; cbn; [by repeat constructor|]. destruct (Ascii.eqb a c) eqn:E; [by constructor|].
  destruct (split_on c s) as [|p ps]; [by repeat constructor; cbn; rewrite E|].
  inversion_clear IH. constructor; [|done]. cbn. by rewrite E.
Qed.

Definition name_or_up (c : string) : Prop := c ≠ "" ∧ c ≠ "." ∧ no_char "/" c = true.

Lemma names_ok p : Forall name_or_up (names p).
Proof.
  unfold names. apply Forall_forall. intros c Hc. apply retain_elem_of in Hc as [Hin Hc].
  pose proof (split_on_no_char "/" p) as H. rewrite Forall_forall in H. specialize (H c Hin).
  apply andb_prop in Hc as [H1 H2]. apply negb_true_iff in H1, H2. apply is_empty_false in H1. apply String.eqb_neq in H2. done.
Qed.

(** Following a path ends at a solid location. *)
Lemma walk_solid n t cur rest r :
  solid_dir t cur → Forall name_or_up rest → walk n t cur rest = Some r → solid t r.
Proof.
  revert cur rest. induction n as [n IHn] using lt_wf_ind. intros cur rest. revert cur.
  induction rest as [|c rest IH]; intros cur Hs Hr.
  { destruct n; cbn; intros [= <-]; by apply solid_dir_solid. }
  inversion Hr as [|? ? Hc Hrest]; subst. destruct n; cbn.
  all: destruct (String.eqb_spec c "..") as [->|Hne]; [by apply IH; [apply solid_dir_parent|]|].
  all: assert (good_name c) as Hg by (destruct Hc as (?&?&?); done).
  all: destruct (t !! (cur ++ [c])) as [[x m|m|target]|] eqn:E; try done.
  all: try (destruct rest; [|done]; intros [= <-]; split; [by apply Forall_app; split; [apply Hs|apply Forall_singleton]|]; split;
    [intros k Hk; rewrite length_app in Hk; cbn in Hk; rewrite take_app_le by lia; apply Hs; lia|by right; right; eauto]).
  all: try (apply IH; [by apply solid_dir_snoc; [..|exists m]|done]).
  apply IHn; [lia| |by apply Forall_app; split; [apply names_ok|]]. destruct (is_absolute target); [apply solid_dir_nil|done].
Qed.

(** A solid location leads to itself. *)
Lemma walk_self n t r : solid t r → walk n t [] r = Some r.
Proof.
  intros (Hg & Hp & Hl). assert (∀ rest done, r = done ++ rest → walk n t done rest = Some r) as H; [|by apply (H r [])].
  induction rest as [|c rest IH]; intros done E; [rewrite app_nil_r in E; subst; by destruct n|].
  assert (good_name c) as (_ & _ & Hc & _) by (rewrite E, Forall_app, Forall_cons in Hg; tauto).
  assert (done ++ [c] = take (S (length done)) r) as Ht.
  { rewrite E, take_app_ge by lia. by replace (S _ - _) with 1 by lia. }
  specialize (IH (done ++ [c])). rewrite <-app_assoc in IH. specialize (IH E).
  destruct n; cbn in *; rewrite (proj2 (String.eqb_neq _ _) Hc).
  all: destruct rest as [|d rest].
  all: try (destruct (Hp (S (length done))) as [m Hm]; [rewrite E, length_app; cbn; lia|]; rewrite Ht, Hm; rewrite <-Ht; exact IH).
  all: subst r; destruct Hl as [Hl|[[m Hm]|(x & m & Hm)]]; [by destruct done|by rewrite Hm|by rewrite Hm].
Qed.

Lemma split_join r : Forall good_name r → r ≠ [] → split_on "/" (join "/" r) = r.
Proof.
  intros H Hne. induction H as [|c r (_ & _ & _ & Hc) H IH]; [done|]. destruct r as [|d r].
  - cbn. clear -Hc. induction c as [|a c IH]; [done|]. cbn in *. apply andb_prop in Hc as [H1 H2]. apply negb_true_iff in H1. rewrite H1.
    by rewrite (IH H2).
  - change (join "/" (c :: d :: r)) with (c +:+ "/" +:+ join "/" (d :: r)). rewrite sapp_cons, sapp_nil_l, split_on_app by done. by rewrite IH.
Qed.

Lemma split_display r : Forall good_name r → split_on "/" (display_real r) = "" :: match r with [] => [""] | _ => r end.
Proof.
  intros H. unfold display_real. rewrite sapp_cons, sapp_nil_l. cbn [split_on]. rewrite Ascii.eqb_refl. f_equal.
  destruct r as [|c r]; [done|]. by rewrite split_join.
Qed.

Lemma names_display r : Forall good_name r → names (display_real r) = r.
Proof.
  intros H. unfold names. rewrite split_display by done. cbn. destruct r as [|c r]; [done|]. apply retain_all. clear -H.
  intros x Hx. rewrite Forall_forall in H. destruct (H x Hx) as (H1 & H2 & _). rewrite (proj2 (is_empty_false _) H1).
  by rewrite (proj2 (String.eqb_neq _ _) H2).
Qed.

Lemma display_absolute r : is_absolute (display_real r) = true.
Proof. unfold display_real. by rewrite sapp_cons. Qed.

Lemma components_display r : Forall good_name r → path_components (display_real r) = "/" :: r.
Proof. intros H. unfold path_components. by rewrite display_absolute, names_display. Qed.

Section Resolved.
Context (fs : FileSystem) (Hwf : wf_fs fs).

Lemma real_path_solid p r : real_path fs p = Some r → solid (fs_tree fs) r.
Proof.
  unfold real_path. destruct (is_empty p); [done|]. destruct (walk _ _ _ _) as [x|] eqn:E; cbn; [|done].
  destruct (_ && _); [done|]. intros [= <-]. eapply walk_solid, E; [|apply names_ok].
  unfold start_of. destruct (is_absolute p); [apply solid_dir_nil|apply Hwf].
Qed.

Lemma real_path_display r : solid (fs_tree fs) r → real_path fs (display_real r) = Some r.
Proof.
  intros Hr. unfold real_path. replace (is_empty (display_real r)) with false by (unfold display_real; by rewrite sapp_cons).
  unfold start_of. rewrite display_absolute, names_display, walk_self by (done || apply Hr). cbn.
  replace (wants_dir (display_real r) && negb (is_dir_at (fs_tree fs) r)) with false; [done|]. symmetry.
  unfold wants_dir. rewrite split_display by apply Hr. destruct r as [|c r].
  - cbn. unfold is_dir_at, node_at. destruct Hwf as [_ Hroot]. destruct (fs_tree fs !! []) as [n|]; cbn; [|done].
    by destruct (Hroot n eq_refl) as [m ->].
  - destruct Hr as [Hg _]. change (last ("" :: c :: r)) with (last (c :: r)). destruct (last (c :: r)) as [x|] eqn:E; [|done].
    apply last_Some_elem_of in E. rewrite Forall_forall in Hg. destruct (Hg x E) as (H1 & H2 & _).
    by rewrite (proj2 (is_empty_false _) H1), (proj2 (String.eqb_neq _ _) H2).
Qed.

Lemma canonicalize_idem p : canonicalize fs (canonicalize fs p) = canonicalize fs p.
Proof.
  unfold canonicalize at 2 3. destruct (real_path fs p) as [r|] eqn:E.
  - unfold canonicalize. by rewrite real_path_display by by eapply real_path_solid.
  - unfold canonicalize. by rewrite E.
Qed.

Lemma real_path_canonicalize p : real_path fs (canonicalize fs p) = real_path fs p.
Proof.
  unfold canonicalize. destruct (real_path fs p) as [r|] eqn:E; [|done]. by apply real_path_display, (real_path_solid p).
Qed.

(** Inside a directory, by its real location where it has one. *)
Definition inside (d : string) (r : list string) : bool :=
  match real_path fs d with Some rd => is_prefix_of rd r | None => path_starts_with (display_real r) d end.

Definition confined (env : SysEnv) (ft : FsTool) (r : list string) : Prop :=
  ∀ allowed, ft_allowed ft = Some allowed → ∃ d, d ∈ allowed :: media_dir env :: ft_extra ft ∧ inside d r = true.

Lemma is_under_inside d r : solid (fs_tree fs) r → is_under fs (display_real r) (canonicalize fs d) = inside d r.
Proof.
  intros Hr. unfold is_under, inside. rewrite canonicalize_idem. unfold canonicalize.
  destruct (real_path fs d) as [rd|] eqn:E; [|done]. unfold path_starts_with.
  rewrite !components_display by (apply Hr || apply (real_path_solid d rd E)). done.
Qed.

(** The path policy decides by real locations: an object that a tool reaches through a path
    it was given lies, after all links and [..] are followed, inside one of the allowed
    directories. *)
Theorem resolve_confined env ft path fp r :
  resolve env ft fs path = Ok fp → real_path fs fp = Some r → fp = display_real r ∧ confined env ft r.
Proof.
  unfold resolve, resolve_path. set (p := match ft_workspace ft with Some _ => _ | None => _ end).
  intros H Hr. assert (fp = canonicalize fs p) as ->.
  { destruct (ft_allowed ft); [destruct (existsb _ _); [|done]|]; by injection H as <-. }
  rewrite real_path_canonicalize in Hr. pose proof (real_path_solid _ _ Hr) as Hs.
  assert (canonicalize fs p = display_real r) as Hc by (unfold canonicalize; by rewrite Hr).
  split; [done|]. intros allowed Ha. rewrite Ha in H. destruct (existsb _ _) eqn:E; [|done]. clear H.
  apply existsb_exists in E as (d & Hin & Hd). rewrite Hc in Hd.
  apply list_elem_of_In in Hin. rewrite <-(fmap_cons (canonicalize fs)), <-(fmap_cons (canonicalize fs)) in Hin.
  apply list_elem_of_fmap in Hin as (x & -> & Hx). exists x. split; [done|]. by rewrite is_under_inside in Hd.
Qed.
End Resolved.

(** ** Reading *)

(** The same kind of object, with the same time or target. *)
Definition same_kind (n1 n2 : node) : Prop :=
  match n1, n2 with
  | NFile _ a, NFile _ b => a = b
  | NDir a, NDir b => a = b
  | NLink a, NLink b => a = b
  | _, _ => False
  end.

Definition same_shape (t1 t2 : tree) : Prop := ∀ r, option_Forall2 same_kind (t1 !! r) (t2 !! r).

Lemma walk_shape t1 t2 n cur rest : same_shape t1 t2 → walk n t1 cur rest = walk n t2 cur rest.
Proof.
  intros Ht. revert cur rest. induction n as [n IHn] using lt_wf_ind. intros cur rest. revert cur.
  induction rest as [|c rest IH]; intros cur; [by destruct n|]. specialize (Ht (cur ++ [c])).
  destruct n; cbn; destruct (String.eqb c ".."); try apply IH.
  all: destruct Ht as [x y Hk|]; [|done]; destruct x, y; try done; cbn in Hk; subst; try apply IH.
  apply IHn. lia.
Qed.

Lemma existsb_fmap_ext {A B} (f1 f2 : B → bool) (g1 g2 : A → B) l :
  (∀ x, f1 (g1 x) = f2 (g2 x)) → existsb f1 (g1 <$> l) = existsb f2 (g2 <$> l).
Proof. intros H. induction l as [|x l IH]; [done|]. cbn. rewrite H. by f_equal. Qed.

Section Blind.
Context (env : SysEnv) (ft : FsTool) (fs1 fs2 : FileSystem).

(** Two file systems that differ only in what files outside the allowed directories contain. *)
Definition alike : Prop :=
  fs_cwd fs1 = fs_cwd fs2 ∧ fs_now fs1 = fs_now fs2 ∧ same_shape (fs_tree fs1) (fs_tree fs2) ∧
  ∀ r, confined fs1 env ft r → fs_tree fs1 !! r = fs_tree fs2 !! r.

Hypothesis Halike : alike.
Hypothesis Hwf : wf_fs fs1.

Lemma alike_dir r : is_dir_at (fs_tree fs1) r = is_dir_at (fs_tree fs2) r.
Proof.
  destruct Halike as (_ & _ & Hs & _). specialize (Hs r). unfold is_dir_at, node_at.
  destruct r; destruct Hs as [x y Hk|]; try done; by destruct x, y.
Qed.

Lemma alike_real p : real_path fs1 p = real_path fs2 p.
Proof.
  unfold real_path, start_of. destruct Halike as (Hc & _ & Hs & _). rewrite Hc, (walk_shape _ _ _ _ _ Hs).
  destruct (is_empty p); [done|]. destruct (walk _ _ _ _); [|done]. cbn. by rewrite alike_dir.
Qed.

Lemma alike_canonicalize p : canonicalize fs1 p = canonicalize fs2 p.
Proof. unfold canonicalize. by rewrite alike_real. Qed.

Lemma alike_resolve path : resolve env ft fs1 path = resolve env ft fs2 path.
Proof.
  unfold resolve, resolve_path. rewrite alike_canonicalize. destruct (ft_allowed ft) as [allowed|]; [|done].
  set (p := canonicalize fs2 _). rewrite <-!(fmap_cons (canonicalize fs1)), <-!(fmap_cons (canonicalize fs2)).
  rewrite (existsb_fmap_ext (is_under fs1 p) (is_under fs2 p) (canonicalize fs1) (canonicalize fs2)); [done|].
  intros d. unfold is_under. by rewrite !alike_canonicalize.
Qed.

Lemma alike_object p r : real_path fs1 p = Some r → confined fs1 env ft r → object_at fs1 p = object_at fs2 p.
Proof.
  intros Hp Hr. unfold object_at. rewrite <-alike_real, Hp. cbn. destruct Halike as (_ & _ & _ & Hin). specialize (Hin r Hr).
  unfold node_at. destruct r; by rewrite Hin.
Qed.

Lemma alike_is_file p : path_is_file fs1 p = path_is_file fs2 p.
Proof.
  unfold path_is_file, object_at. rewrite alike_real. destruct (real_path fs2 p) as [r|]; [|done]. cbn.
  destruct Halike as (_ & _ & Hs & _). specialize (Hs r). unfold node_at. destruct r; destruct Hs as [x y Hk|]; try done; by destruct x, y.
Qed.

Lemma alike_wf : wf_fs fs2.
Proof.
  destruct Hwf as [[Hg Hd] Hroot]. destruct Halike as (Hc & _ & Hs & _). split; [split|].
  - by rewrite <-Hc.
  - intros k Hk. rewrite <-Hc in *. destruct (Hd k Hk) as [m Hm]. specialize (Hs (take k (fs_cwd fs1))). rewrite Hm in Hs.
    inversion Hs as [x y Hxy|]; subst. destruct y; try done. by exists mtime.
  - intros n Hn. specialize (Hs []). rewrite Hn in Hs. inversion Hs as [x y Hxy E|]; subst. symmetry in E. destruct (Hroot _ E) as [m ->].
    destruct n; try done. by exists mtime.
Qed.

Section Tracked.
Context (sha256 : string → string) (secs_f64 : Z → f64) (fp : string) (r : list string).
Hypothesis Hfp : real_path fs1 fp = Some r.
Hypothesis Hr : confined fs1 env ft r.

Lemma alike_canonical : real_path fs1 (canonicalize fs1 fp) = Some r.
Proof. by rewrite real_path_canonicalize. Qed.

Lemma alike_mtime : file_mtime secs_f64 fs1 (canonicalize fs1 fp) = file_mtime secs_f64 fs2 (canonicalize fs2 fp).
Proof. unfold file_mtime. rewrite <-alike_canonicalize. by rewrite (alike_object _ _ alike_canonical Hr). Qed.

Lemma alike_hash : hash_file sha256 fs1 (canonicalize fs1 fp) = hash_file sha256 fs2 (canonicalize fs2 fp).
Proof. unfold hash_file, fs_read_bytes. rewrite <-alike_canonicalize. by rewrite (alike_object _ _ alike_canonical Hr). Qed.

Lemma alike_unchanged offset limit st :
  let a := is_unchanged sha256 secs_f64 fp offset limit (mkFsWorld fs1 st) in
  let b := is_unchanged sha256 secs_f64 fp offset limit (mkFsWorld fs2 st) in
  ∃ st' x, a = (mkFsWorld fs1 st', x) ∧ b = (mkFsWorld fs2 st', x).
Proof.
  cbn. unfold is_unchanged. cbn [fw_fs fw_states]. rewrite <-alike_mtime, <-alike_hash, <-alike_canonicalize.
  destruct (st !! _) as [e|]; [|by eexists _, _]. destruct (_ || _); [by eexists _, _|].
  destruct (file_mtime _ _ _); [|by eexists _, _]. destruct (times_differ _ _); by eexists _, _.
Qed.

Lemma alike_record offset limit st :
  ∃ st', record_read sha256 secs_f64 fp offset limit (mkFsWorld fs1 st) = mkFsWorld fs1 st' ∧
    record_read sha256 secs_f64 fp offset limit (mkFsWorld fs2 st) = mkFsWorld fs2 st'.
Proof.
  unfold record_read. cbn [fw_fs fw_states]. rewrite <-alike_mtime, <-alike_hash, <-alike_canonicalize.
  destruct (file_mtime _ _ _); by eexists.
Qed.
End Tracked.

(** Two answers that say the same and record the same. *)
Definition same_answer (a b : run (FsWorld * json)) : Prop :=
  match a, b with
  | Returns (w1, o1), Returns (w2, o2) => o1 = o2 ∧ fw_states w1 = fw_states w2 ∧ fw_fs w1 = fs1 ∧ fw_fs w2 = fs2
  | Panics, Panics => True
  | _, _ => False
  end.

Lemma alike_blocked all_digits p : is_blocked_device all_digits fs1 p = is_blocked_device all_digits fs2 p.
Proof. unfold is_blocked_device. by rewrite alike_canonicalize. Qed.

(** C25: Reading is blind to what lies outside the allowed directories: on two file systems that
    differ only in the contents of files outside them, by real location, every call of
    [read_file] gives the same answer and remembers the same; and it changes no file. *)
Theorem read_file_blind sha256 secs_f64 base64 all_digits params st :
  same_answer (read_file env ft sha256 secs_f64 base64 all_digits params (mkFsWorld fs1 st))
              (read_file env ft sha256 secs_f64 base64 all_digits params (mkFsWorld fs2 st)).
Proof.
  unfold read_file, reply. cbn [fw_fs]. destruct (string_param params "path") as [path|]; [|done]. rewrite <-alike_resolve.
  destruct (resolve env ft fs1 path) as [fp|e] eqn:Ef; [|done]. rewrite <-alike_blocked. destruct (is_blocked_device _ _ _); [done|].
  unfold path_exists. rewrite <-alike_real. destruct (bool_decide _) eqn:Ex; [|done]. apply bool_decide_eq_true in Ex as [r Hr]. cbn [negb].
  rewrite <-alike_is_file. destruct (path_is_file fs1 fp); [|done]. cbn [negb].
  destruct (resolve_confined fs1 Hwf env ft path fp r Ef Hr) as [_ Hc].
  destruct (String.eqb _ "pdf"); [done|]. destruct (bool_decide _); [done|].
  destruct (alike_unchanged sha256 secs_f64 fp r Hr Hc (Z.max 1 (usize_param params "offset" 1)) (jget "limit" params ≫= as_u64) st) as (st' & x & -> & ->).
  destruct x; [done|]. cbn [fw_fs]. unfold fs_read_bytes. rewrite <-(alike_object fp r Hr Hc).
  destruct (object_at fs1 fp) as [[raw m|m|l]|]; [|done..]. destruct (is_empty raw); [done|].
  destruct (match detect_image_mime raw with Some m => _ | None => _ end); [done|]. destruct (utf8_valid raw); [|done]. cbn [negb].
  destruct (read_page _ _ _) as [page| |] eqn:Ep; cbn [run_bind]; [|done|].
  2:{ exfalso. revert Ep. unfold read_page. destruct (_ <? _)%Z; [done|]. destruct (_ <=? _)%Z; [done|]. destruct (_ <? _)%Z; [done|]. by destruct (_ <? _). }
  destruct (_ <? _)%Z; [done|].
  destruct (alike_record sha256 secs_f64 fp r Hr Hc (Z.max 1 (usize_param params "offset" 1)) (jget "limit" params ≫= as_u64) st') as (st'' & -> & ->).
  done.
Qed.
End Blind.

(** ** Editing *)

Lemma find_sub_None p s : find_sub p s = None → p ≠ "" → ∀ r, replace_str p r s = s.
Proof.
  intros H Hp r. unfold replace_str. induction s as [|c s IH]; [done|]. cbn [find_sub] in H. cbn [replace_from].
  destruct (starts_with (String c s) p); [done|]. destruct (find_sub p s); [done|]. by rewrite IH.
Qed.

(** The rest of a match is skipped. *)
Lemma starts_with_app_self p s : starts_with (p +:+ s) p = true.
Proof.
  unfold starts_with. assert (strip_prefix p (p +:+ s) = Some s) as ->; [|done].
  induction p as [|c p IH]; [by destruct s|]. rewrite sapp_cons. cbn. by rewrite Ascii.eqb_refl.
Qed.

Lemma replace_at p r s i b :
  p ≠ "" → find_sub p s = Some i → s = stake i s +:+ p +:+ b → replace_str p r s = stake i s +:+ r +:+ replace_str p r b.
Proof.
  intros Hp. revert i. induction s as [|c s IH]; intros i Hi E.
  - exfalso. apply (f_equal String.length) in E. rewrite !slength_app in E. destruct p; [done|]. cbn in E. lia.
  - cbn [find_sub] in Hi. destruct (starts_with (String c s) p) eqn:Es.
    + injection Hi as <-. cbn [stake] in *. rewrite sapp_nil_l in E. rewrite sapp_nil_l. unfold replace_str at 1. cbn [replace_from]. rewrite Es.
      f_equal. destruct p as [|d p]; [done|]. rewrite sapp_cons in E. injection E as -> ->. cbn [String.length].
      replace (S (String.length p) - 1) with (String.length p) by lia. apply replace_skip.
    + destruct (find_sub p s) as [j|] eqn:Ej; [|done]. cbn in Hi. injection Hi as <-. cbn [stake] in E |- *. rewrite sapp_cons in E |- *.
      injection E as E. unfold replace_str at 1. cbn [replace_from]. rewrite Es. f_equal. by apply (IH j).
Qed.

(** The text cut at the first occurrence. *)
Lemma find_cut p s i :
  utf8_valid s = true → utf8_valid p = true → p ≠ "" → find_sub p s = Some i →
  ∃ a b, s = a +:+ p +:+ b ∧ String.length a = i ∧ utf8_valid a = true ∧ utf8_valid b = true ∧ ∀ r, replace_str p r s = a +:+ r +:+ replace_str p r b.
Proof.
  intros Hs Hp Hne Hi. destruct (find_sub_split p s i Hi) as (b & E & Hl). exists (stake i s), b.
  rewrite E in Hs. destruct (utf8_occurrence _ _ _ Hs Hp Hne) as [Ha Hb]. split_and!; try done. intros r. by apply replace_at.
Qed.

Lemma replace_utf8 p r s :
  utf8_valid s = true → utf8_valid p = true → utf8_valid r = true → p ≠ "" → utf8_valid (replace_str p r s) = true.
Proof.
  intros Hs Hp Hr Hne. induction s as [s IH] using (induction_ltof1 _ String.length). unfold ltof in IH.
  destruct (find_sub p s) as [i|] eqn:E; [|by rewrite find_sub_None].
  destruct (find_cut p s i Hs Hp Hne E) as (a & b & -> & _ & Ha & Hb & ->). rewrite !utf8_app by done. apply IH; [|done].
  rewrite !slength_app. destruct p; [done|]. cbn. lia.
Qed.

Section Edit.
Context (alnum : string → bool) (old new : string).
Hypothesis Hold : utf8_valid old = true.
Hypothesis Hnew : utf8_valid new = true.
Hypothesis Hne : old ≠ "".
Hypothesis Hnn : new ≠ "".

(** For an exact match neither quotes nor indentation are adapted. *)
Lemma replacement_exact m : m_text m = old → replacement_for alnum old new m = new.
Proof.
  intros E. unfold replacement_for, preserve_quote_style, reindent_like_match. rewrite E.
  rewrite (String.eqb_refl old), orb_true_r. rewrite Nat.eqb_refl. cbn [negb].
  set (comparable := retain _ _). assert (∀ oa, oa ∈ comparable → oa.1 = oa.2) as Hc.
  { intros oa H. apply retain_elem_of in H as [H _]. revert H. generalize (split_on nl old). intros l. induction l as [|x l IH]; cbn.
    - by intros ?%not_elem_of_nil.
    - intros [->|H]%elem_of_cons; [done|]. by apply IH. }
  destruct comparable as [|[o a] c]; [done|]. destruct (existsb _ _); [done|].
  specialize (Hc (o, a)). cbn in Hc. rewrite Hc by left. by rewrite String.eqb_refl.
Qed.

Lemma slice_to_ok a b : utf8_valid b = true → slice_to (a +:+ b) (String.length a) = Some a.
Proof. intros Hb. unfold slice_to. by rewrite boundary_app, stake_length_app. Qed.

Lemma replace_range_app a p b r :
  utf8_valid (p +:+ b) = true → utf8_valid b = true →
  replace_range (a +:+ p +:+ b) (String.length a) (String.length a + String.length p) r = Returns (a +:+ r +:+ b).
Proof.
  intros Hp Hb. unfold replace_range. rewrite boundary_app by done.
  assert (a +:+ p +:+ b = (a +:+ p) +:+ b) as E by apply sapp_assoc.
  assert (is_char_boundary (a +:+ p +:+ b) (String.length a + String.length p) = true) as ->.
  { rewrite E, <-slength_app. by apply boundary_app. }
  rewrite (proj2 (Nat.leb_le _ _)), (proj2 (Nat.leb_le _ _)) by (rewrite ?slength_app; lia). cbn [andb].
  rewrite stake_length_app. rewrite E, <-slength_app, sdrop_length_app. done.
Qed.

Lemma exact_from_spec fuel a rest :
  utf8_valid rest = true → String.length rest < fuel →
  ∃ ms, exact_from fuel (a +:+ rest) old (String.length a) = Returns ms ∧
    apply_matches alnum (a +:+ rest) old new ms = Returns (a +:+ replace_str old new rest) ∧
    (ms = [] ↔ find_sub old rest = None).
Proof.
  revert a rest. induction fuel as [|fuel IH]; intros a rest Hr Hf; [lia|]. cbn [exact_from]. rewrite slice_from_app by done. cbn [run_of_option run_bind].
  destruct (find_sub old rest) as [i|] eqn:E.
  2:{ exists []. split; [done|]. split; [cbn; by rewrite (find_sub_None _ _ E Hne)|done]. }
  destruct (find_cut old rest i Hr Hold Hne E) as (p & b & -> & <- & Hp & Hb & Hrep). rewrite Hrep.
  assert (utf8_valid (old +:+ b) = true) as Hob by by rewrite utf8_app.
  assert (0 < String.length old) as Hlen by (destruct old; [done|cbn; lia]).
  rewrite <-slength_app. rewrite sapp_assoc, (slice_app (a +:+ p)) by done. cbn [run_of_option run_bind].
  unfold line_at. rewrite slice_to_ok by done. cbn [run_of_option run_bind].
  destruct (IH ((a +:+ p) +:+ old) b Hb) as (ms & Hms & Happ & _); [rewrite !slength_app in Hf; lia|].
  rewrite <-sapp_assoc in Hms, Happ.
  replace (_ `max` _) with (String.length ((a +:+ p) +:+ old)) by (rewrite !slength_app; lia). rewrite Hms. cbn [run_bind].
  eexists. split; [reflexivity|]. split; [|done]. cbn [apply_matches]. rewrite Happ. cbn [run_bind].
  unfold apply_match. rewrite replacement_exact by done. rewrite (proj2 (is_empty_false new) Hnn). cbn [andb m_start m_end].
  rewrite <-sapp_assoc. rewrite replace_range_app; [by rewrite <-sapp_assoc| |].
  - by rewrite utf8_app by done; apply replace_utf8.
  - by apply replace_utf8.
Qed.

(** An edit whose text occurs in the file replaces its occurrences and nothing else: with
    [replace_all] the result is the text with every occurrence replaced, and so it is without it
    when there is one match only. *)
Theorem edit_text_replaces content :
  utf8_valid content = true → contains_str content old = true →
  ∃ ms, find_all_matches content old = Returns ms ∧ ms ≠ [] ∧
    edit_text alnum content old new ms true = Returns (replace_str old new content) ∧
    (length ms = 1 → edit_text alnum content old new ms false = Returns (replace_str old new content)).
Proof.
  intros Hc Hin. unfold find_all_matches, find_exact_matches, edit_text.
  destruct (exact_from_spec (S (String.length content)) "" content Hc) as (ms & Hms & Happ & Hnil); [lia|].
  rewrite sapp_nil_l in Hms, Happ. cbn [String.length] in Hms. rewrite Hms. cbn [run_bind].
  assert (ms ≠ []) as Hm. { intros E. apply Hnil in E. unfold contains_str in Hin. by rewrite E in Hin. }
  rewrite bool_decide_false by (by destruct ms). exists ms. split_and!; [done..|]. intros Hl. by rewrite take_ge by lia.
Qed.
End Edit.

Lemma replace_absent p r s : contains_str s p = false → p ≠ "" → replace_str p r s = s.
Proof. intros H Hp. apply find_sub_None; [|done]. unfold contains_str in H. by destruct (find_sub p s). Qed.

(** Writing to a file that is there. *)
Lemma write_existing fs p r raw m text :
  real_path fs p = Some r → node_at (fs_tree fs) r = Some (NFile raw m) →
  fs_write_bytes fs p text = (set_tree (<[r := NFile text (fs_now fs)]> (fs_tree fs)) fs, None).
Proof.
  intros Hr Hn. unfold fs_write_bytes, real_path in *. destruct (is_empty p); [done|].
  destruct (walk _ _ _ _) as [x|] eqn:E; cbn in Hr; [|done]. destruct (wants_dir p) eqn:Ew; cbn [andb] in Hr.
  - unfold is_dir_at in Hr. destruct (node_at (fs_tree fs) x) as [[| |]|] eqn:En; cbn in Hr; try done; injection Hr as ->; congruence.
  - injection Hr as ->. assert (place MAX_LINKS (fs_tree fs) (start_of fs p) (names p) = Some r) as -> by (unfold place, MAX_LINKS in *; by rewrite E).
    by rewrite Hn.
Qed.


(** ** A concrete workspace *)

Definition demo_tree (secret : string) : tree :=
  <[ ["etc"; "passwd"] := NFile secret 3 ]>
  {[ ["ws"] := NDir 1; ["ws"; "a.txt"] := NFile ("foo bar" +:+ String nl "foo") 2; ["etc"] := NDir 1; ["ws"; "link"] := NLink "/etc/passwd"; ["ws"; "b.txt"] := NFile "  foo" 4; ["ws"; "c.txt"] := NFile ("say " +:+ ldquo +:+ "hi" +:+ rdquo +:+ " now") 5;
     ["ws"; "d.rs"] := NFile ("a" +:+ String nl "c") 6; ["ws"; "build"] := NDir 1 ]}.

Definition demo_files (secret : string) : FileSystem := mkFs (demo_tree secret) ["ws"] 9.
Definition demo_sys : SysEnv := mkSysEnv "/media" None.
Definition demo_tool : FsTool := mkFsTool (Some "/ws") (Some "/ws") [].
Definition demo_files_world (secret : string) : FsWorld := mkFsWorld (demo_files secret) ∅.

Definition demo_read (path : string) : run (FsWorld * json) :=
  read_file demo_sys demo_tool id f64_of_Z id (λ _, false) (JObj [("path", JStr path)]) (demo_files_world "s3cret").
Definition demo_edit (path old new : string) : run (FsWorld * json) :=
  edit_file demo_sys demo_tool id f64_of_Z to_lowercase (λ _, false) id
    (JObj [("path", JStr path); ("old_text", JStr old); ("new_text", JStr new); ("replace_all", JBool true)]) (demo_files_world "s3cret").
Definition demo_write (path content : string) : run (FsWorld * json) :=
  write_file demo_sys demo_tool id f64_of_Z (JObj [("path", JStr path); ("content", JStr content)]) (demo_files_world "s3cret").

(** What is in a file after a call. *)
Definition left_in (r : list string) (x : run (FsWorld * json)) : option string :=
  match x with Returns (w, _) => match fs_tree (fw_fs w) !! r with Some (NFile c _) => Some c | _ => None end | _ => None end.

Lemma demo_wf secret : wf_fs (demo_files secret).
Proof.
  split; [split|].
  - apply Forall_singleton. done.
  - intros k Hk. cbn in Hk. assert (k = 1) as -> by lia. by exists 1%Z.
  - intros n. vm_compute. discriminate.
Qed.

(** A link out of the workspace is refused. *)
Example link_refused : ∃ w, demo_read "link" = Returns (w, JStr "Error: Path link is outside allowed directory /ws").
Proof. eexists. vm_compute. reflexivity. Qed.

(** A path through a directory that does not exist yet cannot be resolved, is compared as it is
    written, and leads out of the workspace once [write_file] has made the directory. *)
Example write_escapes : left_in ["etc"; "cron"] (demo_write "new/../../etc/cron" "x") = Some "x".
Proof. vm_compute. reflexivity. Qed.

(** A text that is found only up to white space, in a last line without a line break: the match
    reaches one byte beyond the text. *)
Example trim_match_panics : demo_edit "b.txt" "foo " "bar" = Panics.
Proof. vm_compute. reflexivity. Qed.

(** A text found up to curly quotes is replaced at the places of the normalised text. *)
Example quotes_misplaced :
  left_in ["ws"; "c.txt"] (demo_edit "c.txt" (String dquote ("hi" +:+ String dquote "")) "yes") =
  Some ("say yesi" +:+ rdquo +:+ " now").
Proof. vm_compute. reflexivity. Qed.

(** The line break at the end of a replacement is lost: two lines become one. *)
Example edit_joins_lines : left_in ["ws"; "d.rs"] (demo_edit "d.rs" ("a" +:+ String nl "") ("b" +:+ String nl "")) = Some "bc".
Proof. vm_compute. reflexivity. Qed.

(** Below a directory whose name is ignored a recursive listing is empty. *)
Example ignored_above : ∃ w,
  list_dir demo_sys (mkFsTool (Some "/ws/build") None []) id (λ _ _, [("x.rs", false)]) (JObj [("path", JStr "."); ("recursive", JBool true)])
    (demo_files_world "s3cret") = Returns (w, JStr "Directory . is empty").
Proof. eexists. vm_compute. reflexivity. Qed.

Lemma resolve_confined_witness :
  ∃ fp, resolve demo_sys demo_tool (demo_files "s3cret") "../ws/a.txt" = Ok fp ∧ fp = display_real ["ws"; "a.txt"] ∧
    confined (demo_files "s3cret") demo_sys demo_tool ["ws"; "a.txt"].
Proof.
  eexists. split; [vm_compute; reflexivity|].
  apply (resolve_confined (demo_files "s3cret") (demo_wf "s3cret") demo_sys demo_tool "../ws/a.txt"); vm_compute; reflexivity.
Defined.

Lemma demo_alike s1 s2 : alike demo_sys demo_tool (demo_files s1) (demo_files s2).
Proof.
  split_and!; [done..| |].
  - intros r. unfold demo_files, demo_tree. cbn [fs_tree]. destruct (decide (r = ["etc"; "passwd"])) as [->|Hr].
    + rewrite !lookup_insert_eq. by constructor.
    + rewrite !(lookup_insert_ne _ ["etc"; "passwd"] r) by done. destruct (_ !! r) as [[]|]; by constructor.
  - intros r Hr. destruct (decide (r = ["etc"; "passwd"])) as [->|Hne].
    + destruct (Hr "/ws" eq_refl) as (d & Hd & Hin). exfalso. repeat (apply elem_of_cons in Hd as [->|Hd]; [vm_compute in Hin; discriminate|]).
      by apply not_elem_of_nil in Hd.
    + unfold demo_files, demo_tree. cbn [fs_tree]. by rewrite !(lookup_insert_ne _ ["etc"; "passwd"] r).
Qed.

Lemma read_file_blind_witness :
  same_answer (demo_files "s3cret") (demo_files "other")
    (demo_read "a.txt")
    (read_file demo_sys demo_tool id f64_of_Z id (λ _, false) (JObj [("path", JStr "a.txt")]) (demo_files_world "other")).
Proof.
  apply (read_file_blind demo_sys demo_tool (demo_files "s3cret") (demo_files "other") (demo_alike "s3cret" "other") (demo_wf "s3cret")
    id f64_of_Z id (λ _, false) (JObj [("path", JStr "a.txt")]) ∅).
Defined.

