(* ===== verification/Channels.v ===== *)
(** * The channel manager

    [crates/channels/src/manager.rs], [base.rs] and [registry.rs]: which channels are built, who
    may write to the agent, and the dispatcher, which takes the outbound messages off the bus one
    by one, filters them, joins consecutive pieces of a stream and sends them with retries.  A
    channel is a pair of operations on an abstract world; the constructors of the channels are a
    parameter.  The dispatcher is a state machine with a step per message it takes, so that the
    agent publishes in between. *)

From S2P Require Import Prelude RustStr F64 Json Bus.
From Stdlib Require Import Floats.SpecFloat.

Local Open Scope stdpp_scope.
Local Open Scope hive_scope.

Definition STREAM_DELTA_KEY : string := "_stream_delta".
Definition STREAM_END_KEY : string := "_stream_end".
Definition WANTS_STREAM_KEY : string := "_wants_stream".

Inductive ChannelError :=
| Io (e : string) | Http (e : string) | Config (e : string) | NotAuthenticated
| Transient (e : string) | Permanent (e : string) | Other (e : string).

Definition is_retryable (e : ChannelError) : bool :=
  match e with Io _ | Http _ | Transient _ => true | _ => false end.

Definition is_truthy (v : json) : bool :=
  match v with
  | JBool b => b
  | JNull => false
  | JInt z => negb (z =? 0)%Z
  | JFloat x => negb (SFeqb x (S754_zero false))
  | JStr s => negb (is_empty s) && negb (String.eqb s "false") && negb (String.eqb s "0")
  | JArr l => negb (bool_decide (length l = 0))
  | JObj m => negb (bool_decide (length m = 0))
  end.

(** ** Who may write *)

Definition is_allowed (allow_list : list string) (sender : string) : bool :=
  match allow_list with
  | [] => false
  | _ => existsb (String.eqb "*") allow_list || existsb (String.eqb sender) allow_list
  end.

Definition handle_inbound (now : Z) (b : MessageBus) (channel_name : string) (allow_list : list string) (supports_streaming : bool)
    (sender chat content : string) (media : list string) (metadata : option (list (string * json))) (session : option string) : MessageBus :=
  if negb (is_allowed allow_list sender) then b
  else
    let meta := default [] metadata in
    let meta := if supports_streaming then map_insert WANTS_STREAM_KEY (JBool true) meta else meta in
    let metadata_map := foldl (λ m kv, <[kv.1 := kv.2]> m) ∅ meta in
    publish_inbound b (mkInbound channel_name sender chat content now media metadata_map session).

(** ** The registry *)

(** [ChannelsConfig], as far as the manager reads it. *)
Record ChannelsConfig := mkChannelsConfig {
  send_progress : bool;
  send_tool_hints : bool;
  send_max_retries : Z;
  extras : gmap string json
}.

Definition known_channel_names : list string :=
  ["weixin"; "qq"; "dingtalk"; "discord"; "email"; "matrix"; "mochat"; "msteams"; "slack"; "telegram"; "wecom"; "websocket"; "whatsapp"].

Definition is_enabled (section : json) : bool :=
  match jget "enabled" section with
  | Some (JBool b) => b
  | Some (JStr s) => String.eqb s "true" || String.eqb s "1"
  | Some (JInt z) => in_i64 z && negb (z =? 0)%Z
  | _ => false
  end.

Section Manager.
Context {W : Type}.
Variable cfg : ChannelsConfig.

(** The operations of [trait Channel] the dispatcher calls. *)
Record Channel := mkChannel {
  ch_send : OutboundMessage → W → W * result unit ChannelError;
  ch_send_delta : string → string → gmap string json → W → W * result unit ChannelError
}.

(** The constructors, by name ([weixin::build] and so on). *)
Variable build : string → json → result Channel string.
(** The order in which a hash map lists its keys. *)
Variable hash_order : list string → list string.

Definition build_enabled_channels : list (string * Channel) :=
  filter_map (λ name,
    match extras cfg !! name with
    | Some sec => if is_enabled sec then match build name sec with Ok ch => Some (name, ch) | Err _ => None end else None
    | None => None
    end) known_channel_names.

Definition build_one (name : string) (section : json) : result Channel string :=
  if existsb (String.eqb name) known_channel_names then build name section
  else Err ("Unknown channel: " +:+ name +:+ "  Available: " +:+ join ", " known_channel_names).

(** An explicitly empty [allowFrom]. *)
Definition denies_all (name : string) : bool :=
  match extras cfg !! name with
  | Some sec =>
      match (match jget "allowFrom" sec with Some a => Some a | None => jget "allow_from" sec end) with
      | Some (JArr []) => true
      | _ => false
      end
  | None => false
  end.

Definition init_channels : result (gmap string Channel) string :=
  let channels : gmap string Channel := foldl (λ m e, <[e.1 := e.2]> m) ∅ build_enabled_channels in
  match find_first denies_all (hash_order ((map_to_list channels).*1)) with
  | Some name => Err ("Error: " +:+ String "034" name +:+ String "034" " has empty allowFrom (denies all). Set ["
                       +:+ String "034" "*" +:+ String "034" "] to allow everyone, or add specific user IDs.")
  | None => Ok channels
  end.

(** ** Sending *)

Definition flag (k : string) (metadata : gmap string json) : bool :=
  match metadata !! k with Some v => is_truthy v | None => false end.

Definition send_once (ch : Channel) (msg : OutboundMessage) (w : W) : W * result unit ChannelError :=
  if flag STREAM_DELTA_KEY (out_metadata msg) || flag STREAM_END_KEY (out_metadata msg)
  then ch_send_delta ch (out_chat_id msg) (out_content msg) (out_metadata msg) w
  else if negb (flag "_streamed" (out_metadata msg)) then ch_send ch msg w
  else (w, Ok tt).

Definition SEND_RETRY_DELAYS : list nat := [1; 2; 4].

Definition retry_delay (attempt : nat) : nat := nth (attempt `min` (length SEND_RETRY_DELAYS - 1)) SEND_RETRY_DELAYS 0.

Definition max_attempts : nat := Z.to_nat (Z.max (send_max_retries cfg) 1).

(** What became of a message; the number of attempts. *)
Inductive Verdict := Filtered | UnknownChannel | Delivered (attempts : nat) | Undelivered (attempts : nat).

(** The attempts from [attempt] on, [remaining] of them; with the waits in seconds. *)
Fixpoint send_attempts (ch : Channel) (msg : OutboundMessage) (attempt remaining : nat) (w : W) : W * list nat * Verdict :=
  match remaining with
  | 0 => (w, [], Undelivered attempt)
  | S remaining =>
      match send_once ch msg w with
      | (w, Ok _) => (w, [], Delivered (S attempt))
      | (w, Err _) =>
          if attempt =? max_attempts - 1 then (w, [], Undelivered (S attempt))
          else let '(w, ds, v) := send_attempts ch msg (S attempt) remaining w in (w, retry_delay attempt :: ds, v)
      end
  end.

Definition send_with_retry (ch : Channel) (msg : OutboundMessage) (w : W) : W * list nat * Verdict :=
  send_attempts ch msg 0 max_attempts w.

(** ** The dispatcher *)

Variable channels : gmap string Channel.

(** Progress and tool hints that are not wanted, and notices of a waiting retry. *)
Definition is_filtered (msg : OutboundMessage) : bool :=
  (flag "_progress" (out_metadata msg)
   && (if flag "_tool_hint" (out_metadata msg) then negb (send_tool_hints cfg) else negb (send_progress cfg)))
  || flag "_retry_wait" (out_metadata msg).

(** Between messages, or joining pieces: the first one, the text and metadata so far. *)
Inductive Phase := Waiting | Merging (first : OutboundMessage) (combined : string) (metadata : gmap string json).

Record Dispatcher := mkDispatcher {
  d_bus : MessageBus;
  d_pending : list OutboundMessage;
  d_phase : Phase;
  d_world : W;
  d_log : list (OutboundMessage * Verdict)
}.

Definition same_target (a b : OutboundMessage) : bool :=
  String.eqb (out_channel a) (out_channel b) && String.eqb (out_chat_id a) (out_chat_id b).

Definition merged (first : OutboundMessage) (combined : string) (metadata : gmap string json) : OutboundMessage :=
  mkOutbound (out_channel first) (out_chat_id first) combined (reply_to first) (out_media first) metadata.

(** A message at the end of the loop's body: to its channel, or nowhere. *)
Definition settle (msg : OutboundMessage) (d : Dispatcher) : Dispatcher :=
  match channels !! out_channel msg with
  | Some ch =>
      let '(w, _, v) := send_with_retry ch msg (d_world d) in
      mkDispatcher (d_bus d) (d_pending d) Waiting w (d_log d ++ [(msg, v)])
  | None => mkDispatcher (d_bus d) (d_pending d) Waiting (d_world d) (d_log d ++ [(msg, UnknownChannel)])
  end.

(** A message taken up. *)
Definition take_up (msg : OutboundMessage) (d : Dispatcher) : Dispatcher :=
  if is_filtered msg then mkDispatcher (d_bus d) (d_pending d) Waiting (d_world d) (d_log d ++ [(msg, Filtered)])
  else if flag STREAM_DELTA_KEY (out_metadata msg) && negb (flag STREAM_END_KEY (out_metadata msg))
  then mkDispatcher (d_bus d) (d_pending d) (Merging msg (out_content msg) (out_metadata msg)) (d_world d) (d_log d)
  else settle msg d.

Definition with_bus (b : MessageBus) (d : Dispatcher) : Dispatcher :=
  mkDispatcher b (d_pending d) (d_phase d) (d_world d) (d_log d).

(** [Vec::pop]. *)
Definition pop {A} (l : list A) : option (A * list A) := match last l with Some x => Some (x, removelast l) | None => None end.

(** The next piece that was ready while joining. *)
Definition merge_next (first : OutboundMessage) (combined : string) (metadata : gmap string json) (next : OutboundMessage) (d : Dispatcher)
    : Dispatcher :=
  if same_target next first && flag STREAM_DELTA_KEY (out_metadata next) && negb (flag STREAM_END_KEY metadata) then
    let combined := combined +:+ out_content next in
    if flag STREAM_END_KEY (out_metadata next)
    then settle (merged first combined (<[STREAM_END_KEY := JBool true]> metadata)) d
    else mkDispatcher (d_bus d) (d_pending d) (Merging first combined metadata) (d_world d) (d_log d)
  else settle (merged first combined metadata)
         (mkDispatcher (d_bus d) (d_pending d ++ [next]) (d_phase d) (d_world d) (d_log d)).

(** One turn of [dispatch_outbound] or of the loop in [coalesce_stream_deltas]; [None] while there
    is nothing to take.  The bus holds a sender itself and is never closed. *)
Definition dispatch_step (d : Dispatcher) : option Dispatcher :=
  match d_phase d with
  | Waiting =>
      match pop (d_pending d) with
      | Some (m, rest) => Some (take_up m (mkDispatcher (d_bus d) rest Waiting (d_world d) (d_log d)))
      | None => match consume_outbound (d_bus d) with
                | Some (b, m) => Some (take_up m (with_bus b d))
                | None => None
                end
      end
  | Merging first combined metadata =>
      match consume_outbound (d_bus d) with
      | Some (b, next) => Some (merge_next first combined metadata next (with_bus b d))
      | None => Some (settle (merged first combined metadata) d)
      end
  end.

(** The wait of no length may also elapse although a message is there. *)
Definition elapse (d : Dispatcher) : Dispatcher :=
  match d_phase d with
  | Waiting => d
  | Merging first combined metadata => settle (merged first combined metadata) d
  end.

Definition set_outbound (l : Lane OutboundMessage) (d : Dispatcher) : Dispatcher := with_bus (mkBus (inbound (d_bus d)) l) d.

(** The dispatcher among publishers, which send and then count; with the messages sent. *)
Inductive dispatch_among : Dispatcher * list OutboundMessage → Dispatcher * list OutboundMessage → Prop :=
| da_send d h m : dispatch_among (d, h) (set_outbound (lane_send (outbound (d_bus d)) m) d, h ++ [m])
| da_count d h l : lane_count_up (outbound (d_bus d)) = Some l → dispatch_among (d, h) (set_outbound l d, h)
| da_raw d h m : dispatch_among (d, h) (set_outbound (raw_send (outbound (d_bus d)) m) d, h ++ [m])
| da_step d d' h : dispatch_step d = Some d' → dispatch_among (d, h) (d', h)
| da_elapse d h : dispatch_among (d, h) (elapse d, h).

Definition dispatcher_new (w : W) : Dispatcher := mkDispatcher MessageBus_new [] Waiting w [].

(** Turns of the dispatcher until nothing is left to take. *)
Fixpoint drain (n : nat) (d : Dispatcher) : Dispatcher :=
  match n with
  | 0 => d
  | S n => match dispatch_step d with Some d => drain n d | None => d end
  end.
End Manager.

Arguments Channel : clear implicits.
Arguments Dispatcher : clear implicits.
