(* ===== verification/ChannelProps.v ===== *)
(** * The dispatcher keeps every message, once and in order

    Whatever is published while the dispatcher runs, what it has handled, what it holds and what
    waits on the bus is together the sequence that was published; a message it sends is one that
    was published or the pieces of one stream that followed each other. *)

From S2P Require Import Prelude RustStr F64 Json Bus Channels.

Local Open Scope stdpp_scope.
Local Open Scope hive_scope.

Definition texts (l : list OutboundMessage) : string := foldr (λ m s, out_content m +:+ s) "" l.

Definition delta (m : OutboundMessage) : bool := flag STREAM_DELTA_KEY (out_metadata m).
Definition ends (m : OutboundMessage) : bool := flag STREAM_END_KEY (out_metadata m).

(** [y] continues the stream of [x]. *)
Definition continues (x y : OutboundMessage) : bool := same_target y x && delta y.

(** The pieces of a stream that is still open. *)
Definition pieces (x : OutboundMessage) (rest : list OutboundMessage) : Prop :=
  delta x = true ∧ ends x = false ∧ Forall (λ y, continues x y = true ∧ ends y = false) rest.

(** The message sent for a run of published ones. *)
Inductive joins : list OutboundMessage → OutboundMessage → Prop :=
| joins_one m : joins [m] m
| joins_open x rest : pieces x rest → joins (x :: rest) (merged x (texts (x :: rest)) (out_metadata x))
| joins_closed x rest y :
    pieces x rest → continues x y = true → ends y = true →
    joins (x :: rest ++ [y]) (merged x (texts (x :: rest ++ [y])) (<[STREAM_END_KEY := JBool true]> (out_metadata x))).

Lemma texts_snoc l y : texts (l ++ [y]) = texts l +:+ out_content y.
Proof. induction l as [|x l IH]; cbn [texts foldr app]; [by rewrite sapp_nil_r|]. fold (texts (l ++ [y])). by rewrite IH, sapp_assoc. Qed.

Section Manager.
Context {W : Type}.
Variables (cfg : ChannelsConfig) (channels : gmap string (Channel W)).

(** ** Attempts *)

(** The world after [n] attempts. *)
Definition after (ch : Channel W) (msg : OutboundMessage) (n : nat) (w : W) : W := Nat.iter n (λ w, (send_once ch msg w).1) w.

Definition fails (ch : Channel W) (msg : OutboundMessage) (w : W) : Prop := ∃ e, (send_once ch msg w).2 = Err e.

Lemma after_S ch msg n w : after ch msg (S n) w = after ch msg n (send_once ch msg w).1.
Proof. unfold after. by rewrite Nat.iter_succ_r. Qed.

Lemma max_attempts_pos : 1 <= max_attempts cfg.
Proof. unfold max_attempts. lia. Qed.

Lemma send_attempts_spec ch msg remaining : ∀ attempt w w' ds v,
  attempt + remaining = max_attempts cfg → 0 < remaining → send_attempts cfg ch msg attempt remaining w = (w', ds, v) →
  ∃ n, n <= remaining ∧ w' = after ch msg n w ∧ 0 < n ∧ (∀ i, i < n - 1 → fails ch msg (after ch msg i w)) ∧
    ds = retry_delay <$> seq attempt (n - 1) ∧
    ((v = Delivered (attempt + n) ∧ (send_once ch msg (after ch msg (n - 1) w)).2 = Ok tt) ∨
     (v = Undelivered (attempt + n) ∧ n = remaining ∧ fails ch msg (after ch msg (n - 1) w))).
Proof.
  induction remaining as [|r IH]; intros attempt w w' ds v Hsum Hpos H; [lia|]. cbn [send_attempts] in H.
  destruct (send_once ch msg w) as [w1 [[]|e]] eqn:E.
  - injection H as <- <- <-. exists 1. split_and!; [lia|cbn; by rewrite E|lia|intros i Hi; lia|done|].
    left. cbn. by rewrite E, Nat.add_1_r.
  - destruct (Nat.eqb_spec attempt (max_attempts cfg - 1)) as [Ha|Ha].
    + injection H as <- <- <-. exists 1. split_and!; [lia|cbn; by rewrite E|lia|intros i Hi; lia|done|].
      right. split_and!; [f_equal; lia|lia|]. exists e. cbn. by rewrite E.
    + destruct (send_attempts _ _ _ _ _ _) as [[w2 ds2] v2] eqn:E2. injection H as <- <- <-.
      apply IH in E2 as (n & Hn & -> & Hn0 & Hf & -> & Hv); [|lia..]. exists (S n). split_and!; [lia| |lia| | |].
      * by rewrite after_S, E.
      * intros [|i] Hi; [exists e; cbn; by rewrite E|]. rewrite after_S, E. apply Hf. lia.
      * replace (S n - 1) with (S (n - 1)) by lia. done.
      * replace (S n - 1) with (S (n - 1)) by lia. rewrite after_S, E. cbn [fst].
        destruct Hv as [[-> Hok]|(-> & -> & Hfl)]; [left|right]; split_and!; try done; f_equal; lia.
Qed.

(** Sending stops at the first success, or after [max_attempts] failures; the waits before the
    second and later attempts are 1, 2, 4, 4, ... seconds. *)
Theorem send_with_retry_spec ch msg w w' ds v :
  send_with_retry cfg ch msg w = (w', ds, v) →
  ∃ n, 1 <= n <= max_attempts cfg ∧ w' = after ch msg n w ∧ (∀ i, i < n - 1 → fails ch msg (after ch msg i w)) ∧
    ds = retry_delay <$> seq 0 (n - 1) ∧
    ((v = Delivered n ∧ (send_once ch msg (after ch msg (n - 1) w)).2 = Ok tt) ∨
     (v = Undelivered n ∧ n = max_attempts cfg ∧ fails ch msg (after ch msg (n - 1) w))).
Proof.
  intros H. pose proof max_attempts_pos.
  apply send_attempts_spec in H as (n & Hn & -> & Hn0 & Hf & -> & Hv); [|lia..]. exists n. split_and!; auto with lia.
Qed.

(** ** The invariant *)

Definition verdict_ok (e : OutboundMessage * Verdict) : Prop :=
  match e.2 with
  | Filtered => is_filtered cfg e.1 = true
  | UnknownChannel => is_filtered cfg e.1 = false ∧ channels !! out_channel e.1 = None
  | Delivered n => is_filtered cfg e.1 = false ∧ is_Some (channels !! out_channel e.1) ∧ 1 <= n <= max_attempts cfg
  | Undelivered n => is_filtered cfg e.1 = false ∧ is_Some (channels !! out_channel e.1) ∧ n = max_attempts cfg
  end.

Definition handled (groups : list (list OutboundMessage)) (d : Dispatcher W) : Prop :=
  Forall2 (λ g e, joins g e.1) groups (d_log d) ∧ Forall verdict_ok (d_log d).

Lemma handled_snoc groups g b p ph w l msg v :
  handled groups (mkDispatcher b p ph w l) → joins g msg → verdict_ok (msg, v) →
  ∀ ph' w', handled (groups ++ [g]) (mkDispatcher b p ph' w' (l ++ [(msg, v)])).
Proof.
  intros [Hj Hv] Hg Hok ph' w'. split; cbn [d_log] in *; [apply Forall2_app|apply Forall_app]; auto.
Qed.

Lemma settle_handled groups g msg d :
  handled groups d → joins g msg → is_filtered cfg msg = false →
  handled (groups ++ [g]) (settle cfg channels msg d) ∧ d_bus (settle cfg channels msg d) = d_bus d ∧
  d_pending (settle cfg channels msg d) = d_pending d ∧ d_phase (settle cfg channels msg d) = Waiting.
Proof.
  intros Hh Hg Hf. destruct d as [b p ph w l]. unfold settle. cbn. destruct (channels !! out_channel msg) as [ch|] eqn:Ec.
  - destruct (send_with_retry cfg ch msg w) as [[w' ds] v] eqn:E. split_and!; [|done..].
    eapply handled_snoc; [done..|]. unfold verdict_ok.
    destruct (send_with_retry_spec _ _ _ _ _ _ E) as (n & Hn & _ & _ & _ & [[-> _]|(-> & Hmax & _)]); cbn; rewrite Ec; eauto.
  - split_and!; [|done..]. by eapply handled_snoc.
Qed.

(** What the dispatcher holds between the log and the bus. *)
Definition holds (d : Dispatcher W) (held : list OutboundMessage) : Prop :=
  match d_phase d with
  | Waiting => held = []
  | Merging first combined metadata =>
      ∃ rest, held = first :: rest ∧ pieces first rest ∧ combined = texts held ∧ metadata = out_metadata first ∧
        is_filtered cfg first = false ∧ d_pending d = []
  end.

Definition on_bus (d : Dispatcher W) : list OutboundMessage := lane_queue (outbound (d_bus d)).

Definition dinv (s : Dispatcher W * list OutboundMessage) : Prop :=
  ∃ groups held, s.2 = concat groups ++ held ++ d_pending s.1 ++ on_bus s.1 ∧ handled groups s.1 ∧ holds s.1 held ∧
    length (d_pending s.1) <= 1 ∧ consuming (outbound (d_bus s.1)) = false.

Lemma merged_filtered first combined :
  is_filtered cfg (merged first combined (out_metadata first)) = is_filtered cfg first ∧
  is_filtered cfg (merged first combined (<[STREAM_END_KEY := JBool true]> (out_metadata first))) = is_filtered cfg first.
Proof.
  split; [done|]. unfold is_filtered, flag, merged, STREAM_END_KEY. cbn. by rewrite !lookup_insert_ne by done.
Qed.

Lemma consume_outbound_cut b b' m :
  consume_outbound b = Some (b', m) →
  lane_queue (outbound b) = m :: lane_queue (outbound b') ∧ consuming (outbound b') = false.
Proof.
  unfold consume_outbound, consume, lane_recv, lane_count_down. destruct (consuming (outbound b)); cbn; [done|].
  destruct (lane_queue (outbound b)) as [|x q]; cbn; [done|]. by intros [= <- <-].
Qed.

Lemma consume_outbound_None b : consume_outbound b = None → consuming (outbound b) = false → lane_queue (outbound b) = [].
Proof.
  unfold consume_outbound, consume, lane_recv, lane_count_down. intros H Hc. rewrite Hc in H. by destruct (lane_queue (outbound b)).
Qed.

(** Taking up the next message of the sequence. *)
Lemma take_up_inv groups msg d h :
  handled groups d → h = concat groups ++ msg :: on_bus d → d_pending d = [] → d_phase d = Waiting → consuming (outbound (d_bus d)) = false →
  dinv (take_up cfg channels msg d, h).
Proof.
  intros Hh -> Hp Hph Hc. destruct d as [b p ph w l]. cbn in Hp, Hph, Hc. subst p ph. unfold take_up. destruct (is_filtered cfg msg) eqn:Hf.
  - exists (groups ++ [[msg]]), []. split_and!; cbn; [by rewrite concat_app, <-app_assoc|eapply handled_snoc; [done|constructor|done]|done|lia|done].
  - destruct (flag STREAM_DELTA_KEY _ && negb _) eqn:Hd.
    + apply andb_prop in Hd as [Hd He%negb_true_iff]. exists groups, [msg].
      split_and!; cbn; [done|done| |lia|done]. exists []. by rewrite sapp_nil_r.
    + destruct (settle_handled groups [msg] msg _ Hh (joins_one msg) Hf) as (H1 & H2 & H3 & H4).
      exists (groups ++ [[msg]]), []. unfold on_bus, holds. cbn [fst snd]. rewrite H2, H3, H4.
      split_and!; cbn; [by rewrite concat_app, <-app_assoc|done|done|lia|done].
Qed.

(** Sending what was joined. *)
Lemma settle_merged groups first rest b w l h more q p ph :
  handled groups (mkDispatcher b p ph w l) → pieces first rest → is_filtered cfg first = false → length p <= 1 → consuming (outbound b) = false →
  h = concat groups ++ (first :: rest) ++ more → more = p ++ q → q = lane_queue (outbound b) →
  dinv (settle cfg channels (merged first (texts (first :: rest)) (out_metadata first)) (mkDispatcher b p ph w l), h).
Proof.
  intros Hh Hpc Hf Hlen Hc -> -> ->. destruct (merged_filtered first (texts (first :: rest))) as [Hm _].
  destruct (settle_handled groups (first :: rest) (merged first (texts (first :: rest)) (out_metadata first)) _ Hh) as (H1 & H2 & H3 & H4);
    [by constructor|by rewrite Hm|].
  exists (groups ++ [first :: rest]), []. unfold on_bus, holds. cbn [fst snd]. rewrite H2, H3, H4.
  split_and!; [|done|done|done|done]. rewrite concat_app. cbn. by rewrite app_nil_r, <-app_assoc.
Qed.

Lemma merge_next_inv groups first rest next b w l h :
  let d := mkDispatcher b [] (Merging first (texts (first :: rest)) (out_metadata first)) w l in
  handled groups d → pieces first rest → is_filtered cfg first = false → consuming (outbound b) = false →
  h = concat groups ++ (first :: rest) ++ next :: lane_queue (outbound b) →
  dinv (merge_next cfg channels first (texts (first :: rest)) (out_metadata first) next d, h).
Proof.
  intros d Hh Hpc Hf Hc ->. unfold merge_next. destruct Hpc as (Hd & He & Hall). fold (ends first). rewrite He, andb_true_r.
  fold (delta next) (continues first next) (ends next). destruct (continues first next) eqn:Hcn.
  2:{ eapply settle_merged with (more := next :: lane_queue (outbound b)); [exact Hh|done|done|cbn; lia|done|done|done|done]. }
  rewrite <-texts_snoc. destruct (ends next) eqn:Hen.
  - destruct (merged_filtered first (texts ((first :: rest) ++ [next]))) as [_ Hm].
    destruct (settle_handled groups ((first :: rest) ++ [next]) _ d Hh (joins_closed first rest next ltac:(done) Hcn Hen)) as (H1 & H2 & H3 & H4).
    { etransitivity; [exact Hm|done]. }
    change (texts ((first :: rest) ++ [next])) with (texts (first :: rest ++ [next])).
    exists (groups ++ [(first :: rest) ++ [next]]), []. unfold on_bus, holds. cbn [fst snd]. rewrite H2, H3, H4.
    split_and!; [|done|done|cbn; lia|done]. rewrite concat_app. cbn. rewrite app_nil_r, <-app_assoc. cbn. by rewrite <-app_assoc.
  - exists groups, ((first :: rest) ++ [next]). split_and!; cbn; [by rewrite <-!app_assoc|done| |lia|done].
    exists (rest ++ [next]). split_and!; try done. split_and!; [done..|]. apply Forall_app. auto.
Qed.

Lemma pop_short {A} (l : list A) x rest : length l <= 1 → pop l = Some (x, rest) → l = [x] ∧ rest = [].
Proof. destruct l as [|y [|z l]]; cbn; [done| |lia]. by intros _ [= <- <-]. Qed.

Lemma pop_None {A} (l : list A) : pop l = None → l = [].
Proof. unfold pop. destruct l as [|x l]; [done|]. destruct (last (x :: l)) eqn:E; [done|]. by apply last_None in E. Qed.

Lemma step_inv d d' h : dinv (d, h) → dispatch_step cfg channels d = Some d' → dinv (d', h).
Proof.
  intros (groups & held & Hh & Hdone & Hhold & Hlen & Hc) Hs. destruct d as [b p ph w l]. unfold dispatch_step, holds, on_bus in *. cbn in *.
  destruct ph as [|first combined metadata].
  - subst held. destruct (pop p) as [[m rest]|] eqn:Ep.
    + apply pop_short in Ep as [-> ->]; [|done]. injection Hs as <-. by eapply take_up_inv.
    + apply pop_None in Ep as ->. destruct (consume_outbound b) as [[b' m]|] eqn:Eb; [|done]. injection Hs as <-.
      apply consume_outbound_cut in Eb as [Eq Hc']. rewrite Eq in Hh. by eapply take_up_inv.
  - destruct Hhold as (rest & -> & Hpc & -> & -> & Hf & ->). destruct (consume_outbound b) as [[b' m]|] eqn:Eb.
    + injection Hs as <-. apply consume_outbound_cut in Eb as [Eq Hc']. rewrite Eq in Hh. by apply merge_next_inv with groups.
    + injection Hs as <-. by eapply settle_merged.
Qed.

Lemma elapse_inv d h : dinv (d, h) → dinv (elapse cfg channels d, h).
Proof.
  intros (groups & held & Hh & Hdone & Hhold & Hlen & Hc). destruct d as [b p ph w l]. unfold elapse, holds, on_bus in *. cbn in *.
  destruct ph as [|first combined metadata]; [by exists groups, held|].
  destruct Hhold as (rest & -> & Hpc & -> & -> & Hf & ->). by eapply settle_merged.
Qed.

Lemma dinv_queue d h h' l :
  dinv (d, h) → consuming l = false → h' = h ++ drop (length (on_bus d)) (lane_queue l) → take (length (on_bus d)) (lane_queue l) = on_bus d →
  dinv (set_outbound l d, h').
Proof.
  intros (groups & held & Hh & Hdone & Hhold & Hlen & Hc) Hcl -> Ht. destruct d as [b p ph w lg]. cbn in *.
  exists groups, held. split_and!; try done. cbn. unfold on_bus in *. cbn in *. rewrite Hh, <-!app_assoc.
  do 3 f_equal. rewrite <-Ht at 1. apply take_drop.
Qed.

Lemma among_inv s s' : dinv s → dispatch_among cfg channels s s' → dinv s'.
Proof.
  intros Hinv Hstep. destruct Hstep as [d h m|d h l Hl|d h m|d d' h Hs|d h];
    [| | |by eapply step_inv|by apply elapse_inv];
    pose proof Hinv as (_ & _ & _ & _ & _ & _ & Hc); cbn in Hc; eapply dinv_queue; try exact Hinv; unfold on_bus;
    try (unfold lane_count_up in Hl; destruct (publishing _); [done|]; injection Hl as <-); cbn [lane_send raw_send consuming lane_queue];
    rewrite ?take_app_length, ?drop_app_length, ?drop_all, ?app_nil_r, ?firstn_all; done.
Qed.

(** ** Draining *)

(** Turns still needed: two for each message at most, one to end a stream. *)
Definition todo (d : Dispatcher W) : nat :=
  2 * length (on_bus d) + 2 * length (d_pending d) + match d_phase d with Waiting => 0 | _ => 1 end.

Lemma settle_todo msg d : todo (settle cfg channels msg d) = 2 * length (on_bus d) + 2 * length (d_pending d).
Proof. unfold settle, todo, on_bus. destruct (channels !! _); [destruct (send_with_retry _ _ _ _) as [[? ?] ?]|]; cbn; lia. Qed.

Lemma take_up_todo msg d : d_phase d = Waiting → todo (take_up cfg channels msg d) <= todo d + 1.
Proof.
  intros Hw. unfold take_up. destruct (is_filtered _ _); [unfold todo; cbn; rewrite Hw; fold (on_bus d); unfold on_bus; cbn; lia|].
  destruct (_ && _); [unfold todo, on_bus; cbn; rewrite Hw; lia|]. rewrite settle_todo. unfold todo. lia.
Qed.

Lemma step_todo d d' h : dinv (d, h) → dispatch_step cfg channels d = Some d' → todo d' < todo d.
Proof.
  intros (groups & held & Hh & Hdone & Hhold & Hlen & Hc) Hs. destruct d as [b p ph w l]. unfold dispatch_step, holds in *. cbn in Hhold, Hlen, Hs.
  destruct ph as [|first combined metadata].
  - destruct (pop p) as [[m rest]|] eqn:Ep.
    + apply pop_short in Ep as [-> ->]; [|done]. injection Hs as <-. eapply Nat.le_lt_trans; [by apply take_up_todo|]. unfold todo, on_bus. cbn. lia.
    + destruct (consume_outbound b) as [[b' m]|] eqn:Eb; [|done]. injection Hs as <-. apply consume_outbound_cut in Eb as [Eq _].
      eapply Nat.le_lt_trans; [by apply take_up_todo|]. unfold todo, on_bus. cbn. rewrite Eq. cbn. lia.
  - destruct Hhold as (rest & -> & Hpc & -> & -> & Hf & ->). destruct (consume_outbound b) as [[b' m]|] eqn:Eb; injection Hs as <-.
    + apply consume_outbound_cut in Eb as [Eq _]. unfold merge_next. destruct (same_target _ _ && _ && _); [destruct (flag _ _)|];
        cbn zeta; rewrite ?settle_todo; unfold todo, on_bus; cbn; rewrite Eq; cbn; lia.
    + rewrite settle_todo. unfold todo, on_bus. cbn. lia.
Qed.

Lemma step_None d h : dinv (d, h) → dispatch_step cfg channels d = None → d_phase d = Waiting ∧ d_pending d = [] ∧ on_bus d = [].
Proof.
  intros (groups & held & Hh & Hdone & Hhold & Hlen & Hc) Hs. destruct d as [b p ph w l]. unfold dispatch_step, on_bus in *. cbn in *.
  destruct ph; [|by destruct (consume_outbound b) as [[? ?]|]]. destruct (pop p) as [[? ?]|] eqn:Ep; [done|]. apply pop_None in Ep as ->.
  destruct (consume_outbound b) as [[? ?]|] eqn:Eb; [done|]. by split_and!; [| |apply consume_outbound_None].
Qed.

Lemma drain_idle n : ∀ d h, dinv (d, h) → todo d <= n → dinv (drain cfg channels n d, h) ∧ dispatch_step cfg channels (drain cfg channels n d) = None.
Proof.
  induction n as [|n IH]; intros d h Hd Hn; cbn [drain].
  - split; [done|]. destruct (dispatch_step cfg channels d) as [d'|] eqn:E; [|done]. pose proof (step_todo _ _ _ Hd E). lia.
  - destruct (dispatch_step cfg channels d) as [d'|] eqn:E; [|by split]. apply IH; [by eapply step_inv|]. pose proof (step_todo _ _ _ Hd E). lia.
Qed.

Lemma reachable_dinv w s : rtc (dispatch_among cfg channels) (dispatcher_new w, []) s → dinv s.
Proof.
  assert (dinv (dispatcher_new w, [])) as H0.
  { exists [], []. repeat split; cbn; [constructor..|lia]. }
  revert H0. generalize (@dispatcher_new W w, @nil OutboundMessage). intros s0 H0 Hr. induction Hr; [done|]. eauto using among_inv.
Qed.

End Manager.

(** ** Who is heard *)

Lemma is_allowed_spec allow sender : is_allowed allow sender = true ↔ "*" ∈ allow ∨ sender ∈ allow.
Proof.
  assert (∀ s, existsb (String.eqb s) allow = true ↔ s ∈ allow) as Hex.
  { intros s. rewrite existsb_exists. setoid_rewrite String.eqb_eq. setoid_rewrite <-list_elem_of_In. naive_solver. }
  rewrite <-!Hex, <-orb_true_iff. by destruct allow.
Qed.

(** A message reaches the agent only from a sender the channel's list names, or through a
    list with a star: then it is queued last, with its channel, sender and chat; from anybody
    else the bus stays as it was. *)
Theorem handle_inbound_guarded now b name allow streaming sender chat content media metadata session :
  let b' := handle_inbound now b name allow streaming sender chat content media metadata session in
  if bool_decide ("*" ∈ allow ∨ sender ∈ allow)
  then ∃ m, lane_queue (inbound b') = lane_queue (inbound b) ++ [m] ∧ in_channel m = name ∧ sender_id m = sender ∧ in_chat_id m = chat ∧
         in_content m = content ∧ outbound b' = outbound b
  else b' = b.
Proof.
  cbn zeta. unfold handle_inbound. pose proof (is_allowed_spec allow sender) as H.
  destruct (bool_decide _) eqn:E.
  - apply bool_decide_eq_true in E. rewrite (proj2 H E). cbn [negb]. by eexists.
  - apply bool_decide_eq_false in E. destruct (is_allowed allow sender); [|done]. destruct E. by apply H.
Qed.

(** ** Which channels there are *)

(** No channel of a manager that was built denies everybody by an empty list. *)
Lemma init_channels_heard {W : Type} cfg (build : string → json → result (Channel W) string) order channels :
  (∀ l, Permutation (order l) l) → init_channels cfg build order = Ok channels →
  ∀ name, is_Some (channels !! name) → denies_all cfg name = false.
Proof.
  intros Hord H name [ch Hname]. unfold init_channels in H. destruct (find_first _ _) as [n|] eqn:E; [done|]. injection H as <-.
  apply (proj1 (find_first_None _ _) E). rewrite Hord. apply list_elem_of_fmap. exists (name, ch). split; [done|].
  by apply elem_of_map_to_list.
Qed.

(** ** A run *)

Definition demo_config : ChannelsConfig := mkChannelsConfig false false 3 ∅.

(** A channel that fails [fst] times and then notes the text. *)
Definition demo_note (text : string) (w : nat * list string) : (nat * list string) * result unit ChannelError :=
  match w.1 with
  | 0 => ((0, w.2 ++ [text]), Ok tt)
  | S n => ((n, w.2), Err (Permanent "blocked"))
  end.

Definition demo_channels : gmap string (Channel (nat * list string)) :=
  {["chat" := mkChannel (λ m, demo_note (out_content m)) (λ _ text _, demo_note text)]}.

Definition demo_msg (channel text : string) (keys : list string) : OutboundMessage :=
  mkOutbound channel "c1" text None [] (list_to_map ((λ k, (k, JBool true)) <$> keys)).

Definition demo_stream : list OutboundMessage :=
  [demo_msg "chat" "Hel" ["_stream_delta"]; demo_msg "chat" "lo" ["_stream_delta"; "_progress"];
   demo_msg "chat" "!" ["_stream_delta"; "_stream_end"]; demo_msg "mail" "x" []; demo_msg "chat" "..." ["_progress"]].

Definition demo_dispatcher (fails : nat) : Dispatcher (nat * list string) :=
  foldl (λ d m, set_outbound (lane_send (outbound (d_bus d)) m) d) (dispatcher_new (fails, [])) demo_stream.

Lemma demo_reached fails :
  rtc (dispatch_among demo_config demo_channels) (dispatcher_new (fails, []), []) (demo_dispatcher fails, demo_stream).
Proof. do 5 (eapply rtc_l; [apply da_send|]). apply rtc_refl. Qed.


(** The three pieces are sent as one text although the second would be filtered on its own. *)
Example joined_piece_unfiltered :
  d_world (drain demo_config demo_channels 10 (demo_dispatcher 0)) = (0, ["Hello!"]) ∧
  is_filtered demo_config (demo_msg "chat" "lo" ["_stream_delta"; "_progress"]) = true.
Proof. vm_compute. done. Qed.

(** An error that is not retryable is retried all the same. *)
Example permanent_retried :
  d_log (drain demo_config demo_channels 10 (demo_dispatcher 2)) !! 0 =
    Some (merged (demo_msg "chat" "Hel" ["_stream_delta"]) "Hello!" (<[STREAM_END_KEY := JBool true]> {["_stream_delta" := JBool true]}), Delivered 3)
  ∧ is_retryable (Permanent "blocked") = false.
Proof. vm_compute. done. Qed.
