(* ===== verification/Subagent.v ===== *)
(** * Background sub-agents

    [crates/agent/src/subagent.rs]: spawning a task, running it with the agent runner, announcing
    its result as a message to the agent, cancelling the tasks of a session, and counting.  The
    registry is behind one lock; [spawn] registers the status and the session before the task is
    started and its handle after, so the steps of the spawning thread, of the task and of other
    threads interleave.  An aborted task stops where it waits; once it has announced its result
    there is no such place left. *)

From S2P Require Import Prelude RustStr F64 Json Messages ToolSchema ToolRegistry Provider Retry Governance Runner Bus Skills PromptBuilder.

Local Open Scope stdpp_scope.
Local Open Scope hive_scope.

(** ** Status *)

Record SubagentStatus := mkStatus {
  st_task_id : string;
  st_label : string;
  st_description : string;
  st_started_at : Z;
  st_phase : string;
  st_iteration : nat;
  st_events : list ToolEvent;
  st_usage : gmap string Z;
  st_stop_reason : option string;
  st_error : option string
}.

Definition SubagentStatus_new (id label description : string) (now : Z) : SubagentStatus :=
  mkStatus id label description now "initializing" 0 [] ∅ None None.

(** [SubagentHook::after_iteration]. *)
Definition after_iteration (iteration : nat) (events : list ToolEvent) (usage : gmap string Z) (error : option string) (s : SubagentStatus)
    : SubagentStatus :=
  mkStatus (st_task_id s) (st_label s) (st_description s) (st_started_at s) (st_phase s) iteration events usage (st_stop_reason s)
    (match error with Some e => Some e | None => st_error s end).

Definition mark_done (res : AgentRunResult) (s : SubagentStatus) : SubagentStatus :=
  mkStatus (st_task_id s) (st_label s) (st_description s) (st_started_at s) "done" (st_iteration s)
    (if String.eqb (stop_reason res) "tool_error" then tool_events res else st_events s) (st_usage s) (Some (stop_reason res)) (st_error s).

(** ** What is said of a result *)

Definition step_line (e : ToolEvent) : string := "- " +:+ ev_name e +:+ ": " +:+ ev_detail e.

Definition is_status (s : string) (e : ToolEvent) : bool := String.eqb (ev_status e) s.

(** A blank line before a heading that is not the first. *)
Definition gap (lines : list string) : list string := match lines with [] => [] | _ => [""] end.

Definition format_partial_progress (res : AgentRunResult) : string :=
  let completed := retain (is_status "ok") (tool_events res) in
  let failure := find_first (is_status "error") (reverse (tool_events res)) in
  let lines := match completed with
               | [] => []
               | _ => "Completed steps:" :: (step_line <$> drop (length completed - 3) completed)
               end in
  let lines := match failure with Some f => lines ++ gap lines ++ ["Failure:"; step_line f] | None => lines end in
  let lines := match res_error res, failure with
               | Some err, None => lines ++ gap lines ++ ["Failure:"; "- " +:+ err]
               | _, _ => lines
               end in
  match lines with
  | [] => default "Error: subagent execution failed." (res_error res)
  | _ => join (String nl "") lines
  end.

Definition NO_FINAL : string := "Task completed but no final response was generated.".

(** The text and status [run_subagent] announces. *)
Definition outcome_of (res : AgentRunResult) : string * string :=
  if String.eqb (stop_reason res) "tool_error" then (format_partial_progress res, "error")
  else if String.eqb (stop_reason res) "error" then (default "Error: subagent execution failed." (res_error res), "error")
  else (default NO_FINAL (final_content res), "ok").

Record Task := mkTask {
  tk_task : string;
  tk_label : string;
  tk_channel : string;
  tk_chat : string;
  tk_key : option string;
  tk_message_id : option string
}.

Definition announcement (now : Z) (id : string) (t : Task) (detail status : string) : InboundMessage :=
  let status_text := if String.eqb status "ok" then "completed successfully" else "failed" in
  let content := "Subagent [" +:+ tk_label t +:+ "] " +:+ status_text +:+ String nl (String nl "Original task:") +:+ String nl (tk_task t)
                 +:+ String nl (String nl "Result:") +:+ String nl detail in
  let override_key := default (tk_channel t +:+ ":" +:+ tk_chat t) (tk_key t) in
  let metadata : gmap string json := <["subagent_task_id" := JStr id]> {["injected_event" := JStr "subagent_result"]} in
  let metadata := match tk_message_id t with Some m => <["origin_message_id" := JStr m]> metadata | None => metadata end in
  mkInbound "system" "subagent" (tk_channel t +:+ ":" +:+ tk_chat t) content now [] metadata (Some override_key).

(** The label shown: the one given, or the first thirty characters of the task. *)
Definition display_label (task : string) (label : option string) : string :=
  match label with
  | Some l => l
  | None => let trimmed := take_chars 30 task in if 30 <? chars_count task then trimmed +:+ "..." else trimmed
  end.

(** ** Running *)

Record SubagentConfig := mkSubagentConfig {
  sc_workspace : string;
  sc_max_tool_result_chars : nat;
  sc_model : option string;
  sc_max_iterations : nat
}.

Section Run.
Context {W : Type}.
Variables (E : Env W) (fuel sfuel : nat) (cfg : SubagentConfig).
Variables (from_str : string → option json) (yaml_parse : string → option yaml) (yaml_print : yaml → string) (penv : PromptEnv).

Definition build_subagent_prompt : string :=
  "You are a focused background subagent." +:+ String nl (String nl (build_runtime_context penv None None None []))
  +:+ String nl (String nl "Workspace: ") +:+ sc_workspace cfg
  +:+ String nl (String nl (build_skills_summary yaml_parse yaml_print from_str (pe_skill_fs penv) (pe_skills penv) [])).

Definition subagent_spec (tools : Registry W) (t : Task) : AgentRunSpec W :=
  mkSpec [JObj [("role", JStr "system"); ("content", JStr build_subagent_prompt)]; JObj [("role", JStr "user"); ("content", JStr (tk_task t))]]
    tools (default (default_model (provider E)) (sc_model cfg)) (sc_max_iterations cfg) (sc_max_tool_result_chars cfg)
    None None None None (Some NO_FINAL) false true None (tk_key t) None None Standard None false true false (λ o, o).

(** [run_subagent] from the run to the announcement, when nothing else touches the bus. *)
Definition run_subagent (now : Z) (id : string) (tools : Registry W) (t : Task) (w : W) (b : MessageBus) : run (W * MessageBus) :=
  let! (w, res, _) := run_agent E (subagent_spec tools t) fuel sfuel w in
  let '(detail, status) := outcome_of res in
  Returns (w, publish_inbound b (announcement now id t detail status)).
End Run.

(** ** The registry *)

Record Inner := mkInner {
  running_tasks : gset string;
  task_statuses : gmap string SubagentStatus;
  session_tasks : gmap string (gset string)
}.

Definition Inner_default : Inner := mkInner ∅ ∅ ∅.

(** The part of [spawn] before the task is started. *)
Definition register (id : string) (t : Task) (now : Z) (i : Inner) : Inner :=
  mkInner (running_tasks i) (<[id := SubagentStatus_new id (tk_label t) (tk_task t) now]> (task_statuses i))
    (match tk_key t with
     | Some k => <[k := {[id]} ∪ default ∅ (session_tasks i !! k)]> (session_tasks i)
     | None => session_tasks i
     end).

(** The part after. *)
Definition insert_handle (id : string) (i : Inner) : Inner :=
  mkInner ({[id]} ∪ running_tasks i) (task_statuses i) (session_tasks i).

Definition spawn_reply (id label : string) : string :=
  "Subagent [" +:+ label +:+ "] started (id: " +:+ id +:+ "). I'll notify you when it completes.".

(** The end of the spawned task. *)
Definition cleanup (id : string) (key : option string) (i : Inner) : Inner :=
  mkInner (running_tasks i ∖ {[id]}) (delete id (task_statuses i))
    (match key with
     | Some k => match session_tasks i !! k with
                 | Some ids => let ids := ids ∖ {[id]} in
                               if bool_decide (ids = ∅) then delete k (session_tasks i) else <[k := ids]> (session_tasks i)
                 | None => session_tasks i
                 end
     | None => session_tasks i
     end).

(** The ids of the session and the tasks whose handle was there to be aborted. *)
Definition cancel_by_session (k : string) (i : Inner) : Inner * gset string * gset string :=
  let ids := default ∅ (session_tasks i !! k) in
  (mkInner (running_tasks i ∖ ids) (filter (λ e, e.1 ∉ ids) (task_statuses i)) (delete k (session_tasks i)), ids, ids ∩ running_tasks i).

Definition running_count (i : Inner) : nat := base.size (running_tasks i).

Definition running_count_by_session (k : string) (i : Inner) : nat :=
  match session_tasks i !! k with Some ids => base.size (filter (λ id, id ∈ running_tasks i) ids) | None => 0 end.

(** ** The threads *)

(** A task that runs, is asked to stop, or has announced its result and not yet left. *)
Inductive Stage := Running (aborted : bool) | Announced.

(** The registry, the tasks alive, the ids whose [spawn] has not returned; with the history: the
    tasks started, the results announced in order, the ids that a cancellation has listed, and
    the ids of tasks that were aborted. *)
Record World := mkWorld {
  sw_inner : Inner;
  sw_live : gmap string (Task * Stage);
  sw_spawning : gset string;
  sw_spawned : gmap string Task;
  sw_announced : list (string * InboundMessage);
  sw_cancelled : gset string;
  sw_killed : gset string
}.

Definition world_new : World := mkWorld Inner_default ∅ ∅ ∅ [] ∅ ∅.

Definition abort (ids : gset string) (live : gmap string (Task * Stage)) : gmap string (Task * Stage) :=
  map_imap (λ id e, match e with
                    | (t, Running _) => if bool_decide (id ∈ ids) then Some (t, Running true) else Some e
                    | _ => Some e
                    end) live.

Inductive sub_step : World → World → Prop :=
| ss_register w id t now :
    sw_spawned w !! id = None →
    sub_step w (mkWorld (register id t now (sw_inner w)) (<[id := (t, Running false)]> (sw_live w)) ({[id]} ∪ sw_spawning w)
                  (<[id := t]> (sw_spawned w)) (sw_announced w) (sw_cancelled w) (sw_killed w))
| ss_handle w id :
    id ∈ sw_spawning w →
    sub_step w (mkWorld (insert_handle id (sw_inner w)) (sw_live w) (sw_spawning w ∖ {[id]}) (sw_spawned w) (sw_announced w)
                  (sw_cancelled w) (sw_killed w))
| ss_progress w id t a f :
    sw_live w !! id = Some (t, Running a) →
    sub_step w (mkWorld (mkInner (running_tasks (sw_inner w)) (alter f id (task_statuses (sw_inner w))) (session_tasks (sw_inner w)))
                  (sw_live w) (sw_spawning w) (sw_spawned w) (sw_announced w) (sw_cancelled w) (sw_killed w))
| ss_announce w id t a res now :
    sw_live w !! id = Some (t, Running a) →
    sub_step w (mkWorld (mkInner (running_tasks (sw_inner w)) (alter (mark_done res) id (task_statuses (sw_inner w))) (session_tasks (sw_inner w)))
                  (<[id := (t, Announced)]> (sw_live w)) (sw_spawning w) (sw_spawned w)
                  (sw_announced w ++ [(id, announcement now id t (outcome_of res).1 (outcome_of res).2)]) (sw_cancelled w) (sw_killed w))
| ss_cleanup w id t :
    sw_live w !! id = Some (t, Announced) →
    sub_step w (mkWorld (cleanup id (tk_key t) (sw_inner w)) (delete id (sw_live w)) (sw_spawning w) (sw_spawned w) (sw_announced w)
                  (sw_cancelled w) (sw_killed w))
| ss_cancel w k i ids hit :
    cancel_by_session k (sw_inner w) = (i, ids, hit) →
    sub_step w (mkWorld i (abort hit (sw_live w)) (sw_spawning w) (sw_spawned w) (sw_announced w) (ids ∪ sw_cancelled w) (sw_killed w))
| ss_die w id t :
    sw_live w !! id = Some (t, Running true) →
    sub_step w (mkWorld (sw_inner w) (delete id (sw_live w)) (sw_spawning w) (sw_spawned w) (sw_announced w) (sw_cancelled w)
                  ({[id]} ∪ sw_killed w)).
