(* ===== verification/SubagentProps.v ===== *)
(** * The registry of sub-agents under interleaving

    An invariant of every reachable state, per task: what the registry knows of it, whether it
    was announced, and what a cancellation has done. *)

From S2P Require Import Prelude RustStr F64 Json Messages Runner Bus Subagent.

Local Open Scope stdpp_scope.
Local Open Scope hive_scope.

Definition sess (i : Inner) (k : string) : gset string := default ∅ (session_tasks i !! k).

(** What holds of a task that was started. *)
Record started_ok (w : World) (id : string) (t : Task) : Prop := {
  so_live : ∀ t' st, sw_live w !! id = Some (t', st) → t' = t;
  so_status : is_Some (task_statuses (sw_inner w) !! id) ↔ (is_Some (sw_live w !! id) ∧ id ∉ sw_cancelled w);
  so_session : ∀ k, id ∈ sess (sw_inner w) k ↔ (is_Some (sw_live w !! id) ∧ (id ∉ sw_cancelled w) ∧ tk_key t = Some k);
  so_handle : id ∈ running_tasks (sw_inner w) → id ∉ sw_spawning w;
  so_running : is_Some (sw_live w !! id) → id ∉ sw_cancelled w → id ∉ sw_spawning w → id ∈ running_tasks (sw_inner w);
  so_aborted : ∀ t', sw_live w !! id = Some (t', Running true) → id ∈ sw_cancelled w;
  so_killed : id ∈ sw_killed w → sw_live w !! id = None ∧ id ∈ sw_cancelled w;
  so_announced : id ∈ (sw_announced w).*1 ↔ ((∃ t', sw_live w !! id = Some (t', Announced)) ∨ (sw_live w !! id = None ∧ id ∉ sw_killed w))
}.

(** And of an id that was not. *)
Record unknown_ok (w : World) (id : string) : Prop := {
  uo_live : sw_live w !! id = None;
  uo_status : task_statuses (sw_inner w) !! id = None;
  uo_session : ∀ k, id ∉ sess (sw_inner w) k;
  uo_running : id ∉ running_tasks (sw_inner w);
  uo_spawning : id ∉ sw_spawning w;
  uo_cancelled : id ∉ sw_cancelled w;
  uo_killed : id ∉ sw_killed w;
  uo_announced : id ∉ (sw_announced w).*1
}.

Definition id_ok (w : World) (id : string) : Prop :=
  match sw_spawned w !! id with Some t => started_ok w id t | None => unknown_ok w id end.

(** An announcement is of its task. *)
Definition announces (w : World) (e : string * InboundMessage) : Prop :=
  ∃ t now detail status, sw_spawned w !! e.1 = Some t ∧ e.2 = announcement now e.1 t detail status.

Record sub_inv (w : World) : Prop := {
  si_ids : ∀ id, id_ok w id;
  si_announced : NoDup (sw_announced w).*1;
  si_messages : Forall (announces w) (sw_announced w);
  si_sessions : ∀ k, session_tasks (sw_inner w) !! k ≠ Some ∅
}.

Lemma sess_register id t now i k :
  sess (register id t now i) k = if bool_decide (tk_key t = Some k) then {[id]} ∪ sess i k else sess i k.
Proof.
  unfold sess, register. cbn. case_bool_decide as E.
  - rewrite E. by rewrite lookup_insert_eq.
  - destruct (tk_key t) as [k'|]; [|done]. by rewrite lookup_insert_ne by congruence.
Qed.

Lemma sess_cleanup id key i k :
  sess (cleanup id key i) k = if bool_decide (key = Some k) then sess i k ∖ {[id]} else sess i k.
Proof.
  unfold sess, cleanup. cbn. destruct key as [k'|]; cbn; [|by rewrite bool_decide_false].
  destruct (decide (k' = k)) as [->|Hne].
  - rewrite bool_decide_true by done. destruct (session_tasks i !! k) as [ids|] eqn:E; cbn; [|rewrite E; set_solver].
    case_bool_decide as Hid; [by rewrite lookup_delete_eq, Hid|by rewrite lookup_insert_eq].
  - rewrite bool_decide_false by congruence. destruct (session_tasks i !! k') as [ids|]; [|done].
    case_bool_decide; [by rewrite lookup_delete_ne|by rewrite lookup_insert_ne].
Qed.

Lemma sess_cancel k0 i k i' ids hit :
  cancel_by_session k0 i = (i', ids, hit) → sess i' k = if bool_decide (k = k0) then ∅ else sess i k.
Proof.
  intros [= <- _ _]. unfold sess. cbn. case_bool_decide as E; [subst; by rewrite lookup_delete_eq|by rewrite lookup_delete_ne].
Qed.

Lemma sessions_register id t now i :
  (∀ k, session_tasks i !! k ≠ Some ∅) → ∀ k, session_tasks (register id t now i) !! k ≠ Some ∅.
Proof.
  intros H k. unfold register. cbn. destruct (tk_key t) as [k'|]; [|done]. rewrite lookup_insert. case_decide; [|done].
  intros [= E]. set_solver.
Qed.

Lemma sessions_cleanup id key i :
  (∀ k, session_tasks i !! k ≠ Some ∅) → ∀ k, session_tasks (cleanup id key i) !! k ≠ Some ∅.
Proof.
  intros H k. unfold cleanup. cbn. destruct key as [k'|]; [|done]. destruct (session_tasks i !! k') as [ids|]; [|done].
  case_bool_decide as E.
  - rewrite lookup_delete. by case_decide.
  - rewrite lookup_insert. case_decide; [|done]. intros [= ?]. done.
Qed.

Lemma lookup_abort ids live (id : string) (t : Task) st :
  abort ids live !! id = Some (t, st) ↔
  ∃ st0, live !! id = Some (t, st0) ∧ st = match st0 with Running a => Running (bool_decide (id ∈ ids) || a) | Announced => Announced end.
Proof.
  unfold abort. rewrite map_lookup_imap. destruct (live !! id) as [[t0 [a|]]|]; cbn; [|naive_solver|naive_solver].
  case_bool_decide; cbn; naive_solver.
Qed.

Lemma lookup_abort_None ids live (id : string) : abort ids live !! id = None ↔ live !! id = None.
Proof. unfold abort. rewrite map_lookup_imap. destruct (live !! id) as [[t0 [a|]]|]; cbn; [by case_bool_decide|done|done]. Qed.

Lemma abort_is_Some ids live (id : string) : is_Some (abort ids live !! id) ↔ is_Some (live !! id).
Proof. rewrite <-!not_eq_None_Some. by rewrite lookup_abort_None. Qed.

(** The steps that touch one task leave the others' facts as they are. *)
Lemma id_ok_frame w w' id :
  sw_spawned w' !! id = sw_spawned w !! id → sw_live w' !! id = sw_live w !! id →
  (is_Some (task_statuses (sw_inner w') !! id) ↔ is_Some (task_statuses (sw_inner w) !! id)) →
  (∀ k, id ∈ sess (sw_inner w') k ↔ id ∈ sess (sw_inner w) k) →
  (id ∈ running_tasks (sw_inner w') ↔ id ∈ running_tasks (sw_inner w)) → (id ∈ sw_spawning w' ↔ id ∈ sw_spawning w) →
  (id ∈ sw_cancelled w' ↔ id ∈ sw_cancelled w) → (id ∈ sw_killed w' ↔ id ∈ sw_killed w) →
  (id ∈ (sw_announced w').*1 ↔ id ∈ (sw_announced w).*1) →
  id_ok w id → id_ok w' id.
Proof.
  intros E1 E2 E3 E4 E5 E6 E7 E8 E9. unfold id_ok. rewrite E1. destruct (sw_spawned w !! id) as [t|].
  - intros []. split; rewrite ?E2, ?E3, ?E5, ?E6, ?E7, ?E8, ?E9; try done.
    + intros k. by rewrite E4, E7.
    + intros t' Ht. rewrite E7. eauto.
  - intros []. split; rewrite ?E2, ?E5, ?E6, ?E7, ?E8, ?E9; try done.
    + apply eq_None_not_Some. rewrite E3. by rewrite uo_status0.
    + intros k. by rewrite E4.
Qed.

(** The facts of another task: maps looked up elsewhere, sets without the id. *)
Ltac elsewhere :=
  match goal with H : id_ok ?w ?x |- id_ok _ ?x => eapply (id_ok_frame w); [..|exact H] end; cbn;
  rewrite ?sess_register, ?sess_cleanup, ?lookup_insert_ne, ?lookup_delete_ne, ?lookup_alter_ne, ?fmap_app, ?elem_of_app by done; cbn;
  try done; try set_solver.

Lemma messages_more (w w' : World) :
  (∀ id t, sw_spawned w !! id = Some t → sw_spawned w' !! id = Some t) → Forall (announces w) (sw_announced w) → Forall (announces w') (sw_announced w).
Proof. intros H Hall. eapply Forall_impl; [exact Hall|]. intros e (t & now & d & s & Ht & He). exists t, now, d, s. auto. Qed.

Lemma inv_register w id t now :
  sub_inv w → sw_spawned w !! id = None →
  sub_inv (mkWorld (register id t now (sw_inner w)) (<[id := (t, Running false)]> (sw_live w)) ({[id]} ∪ sw_spawning w)
             (<[id := t]> (sw_spawned w)) (sw_announced w) (sw_cancelled w) (sw_killed w)).
Proof.
  intros [Hids Hnd Hm Hs] Hnew. split; cbn; [|done| |by apply (sessions_register id t now)].
  - intros x. pose proof (Hids x) as Hx. destruct (decide (x = id)) as [->|Hne].
    + unfold id_ok in *. cbn. rewrite Hnew in Hx. rewrite lookup_insert_eq. destruct Hx.
      split; cbn; rewrite ?lookup_insert_eq.
      * by intros ? ? [= <- _].
      * split; eauto.
      * intros k. rewrite sess_register. specialize (uo_session0 k). case_bool_decide; [|naive_solver].
        split; [intros _; eauto|set_solver].
      * done.
      * set_solver.
      * by intros ? [=].
      * done.
      * split; [done|by intros [[? [=]]|[[=] _]]].
    + elsewhere. intros k. rewrite sess_register. case_bool_decide; set_solver.
  - eapply messages_more; [|exact Hm]. cbn. intros x tx Hx. rewrite lookup_insert_ne; [done|congruence].
Qed.

Lemma inv_handle w id :
  sub_inv w → id ∈ sw_spawning w →
  sub_inv (mkWorld (insert_handle id (sw_inner w)) (sw_live w) (sw_spawning w ∖ {[id]}) (sw_spawned w) (sw_announced w) (sw_cancelled w) (sw_killed w)).
Proof.
  intros [Hids Hnd Hm Hs] Hsp. split; cbn; [|done|done|done].
  intros x. pose proof (Hids x) as Hx. destruct (decide (x = id)) as [->|Hne]; [|elsewhere].
  unfold id_ok in *. cbn. destruct (sw_spawned w !! id) as [t|]; destruct Hx; [|set_solver].
  split; cbn; auto; set_solver.
Qed.

(** A status is changed, not added or removed. *)
Lemma inv_progress w id t a f :
  sub_inv w → sw_live w !! id = Some (t, Running a) →
  sub_inv (mkWorld (mkInner (running_tasks (sw_inner w)) (alter f id (task_statuses (sw_inner w))) (session_tasks (sw_inner w)))
             (sw_live w) (sw_spawning w) (sw_spawned w) (sw_announced w) (sw_cancelled w) (sw_killed w)).
Proof.
  intros [Hids Hnd Hm Hs] Hl. split; cbn; [|done|done|done]. intros x. pose proof (Hids x) as Hx.
  eapply (id_ok_frame w); [..|exact Hx]; cbn; try done. rewrite lookup_alter. case_decide; [|done]. subst. by rewrite fmap_is_Some.
Qed.

Lemma inv_announce w id t a m :
  sub_inv w → sw_live w !! id = Some (t, Running a) → announces w (id, m) →
  sub_inv (mkWorld (sw_inner w) (<[id := (t, Announced)]> (sw_live w)) (sw_spawning w) (sw_spawned w) (sw_announced w ++ [(id, m)])
             (sw_cancelled w) (sw_killed w)).
Proof.
  intros [Hids Hnd Hm Hs] Hl Ha. pose proof (Hids id) as Hid.
  assert ((id ∉ (sw_announced w).*1) ∧ id ∉ sw_killed w) as [Hann Hk].
  { unfold id_ok in Hid. destruct (sw_spawned w !! id); destruct Hid; [|by split]. split; [rewrite so_announced0, Hl; by intros [[? [=]]|[[=] _]]|]. intros Hk. apply so_killed0 in Hk as [Hk _]. congruence. }
  split; cbn; [| | |done].
  - intros x. pose proof (Hids x) as Hx. destruct (decide (x = id)) as [->|Hne]; [|elsewhere].
    unfold id_ok in *. cbn. destruct (sw_spawned w !! id) as [t0|] eqn:E; [|destruct Hid; congruence].
    destruct Hid. pose proof (so_live0 _ _ Hl) as ->. assert (is_Some (sw_live w !! id)) as Hsome by (rewrite Hl; eauto).
    split; cbn; rewrite ?lookup_insert_eq.
    + by intros ? ? [= <- _].
    + rewrite so_status0. split; intros [_ ?]; eauto.
    + intros k. rewrite so_session0. split; intros [_ ?]; eauto.
    + done.
    + auto.
    + by intros ? [=].
    + done.
    + split; intros _; [left; eauto|]. rewrite fmap_app, elem_of_app. right. by left.
  - rewrite fmap_app. apply NoDup_app. split_and!; [done| |apply NoDup_singleton]. cbn. set_solver.
  - apply Forall_app. split; [done|]. by constructor.
Qed.

(** A task that has left. *)
Lemma started_gone w id t :
  sw_live w !! id = None → task_statuses (sw_inner w) !! id = None → (∀ k, id ∉ sess (sw_inner w) k) →
  (id ∈ running_tasks (sw_inner w) → id ∉ sw_spawning w) → (id ∈ sw_killed w → id ∈ sw_cancelled w) →
  (id ∈ (sw_announced w).*1 ↔ id ∉ sw_killed w) → started_ok w id t.
Proof.
  intros Hl Hst Hs Hr Hk Ha. split; rewrite ?Hl, ?Hst; [done| | |done|by intros []|done|by auto|].
  - split; [by intros []|by intros [[] _]].
  - intros k. split; [intros Hin; by destruct (Hs k)|by intros [[] _]].
  - rewrite Ha. split; [auto|by intros [[? [=]]|[_ ?]]].
Qed.

Lemma inv_cleanup w id t :
  sub_inv w → sw_live w !! id = Some (t, Announced) →
  sub_inv (mkWorld (cleanup id (tk_key t) (sw_inner w)) (delete id (sw_live w)) (sw_spawning w) (sw_spawned w) (sw_announced w)
             (sw_cancelled w) (sw_killed w)).
Proof.
  intros [Hids Hnd Hm Hs] Hl. split; cbn; [|done|done|by apply (sessions_cleanup id (tk_key t))]. intros x. pose proof (Hids x) as Hx.
  destruct (decide (x = id)) as [->|Hne].
  - unfold id_ok in *. cbn. destruct (sw_spawned w !! id) as [t0|] eqn:E; [|destruct Hx; congruence].
    destruct Hx. pose proof (so_live0 _ _ Hl) as ->. assert (id ∉ sw_killed w) as Hk by (intros H; apply so_killed0 in H as [H _]; congruence).
    assert (id ∈ (sw_announced w).*1) as Ha by (apply so_announced0; left; eauto).
    apply started_gone; cbn; rewrite ?lookup_delete_eq; [done|done| |set_solver|done|done].
    intros k. rewrite sess_cleanup. specialize (so_session0 k). case_bool_decide; [set_solver|].
    intros Hin. apply so_session0 in Hin as (_ & _ & Hk'). congruence.
  - elsewhere. intros k. rewrite sess_cleanup. case_bool_decide; set_solver.
Qed.

Lemma inv_die w id t :
  sub_inv w → sw_live w !! id = Some (t, Running true) →
  sub_inv (mkWorld (sw_inner w) (delete id (sw_live w)) (sw_spawning w) (sw_spawned w) (sw_announced w) (sw_cancelled w) ({[id]} ∪ sw_killed w)).
Proof.
  intros [Hids Hnd Hm Hs] Hl. split; cbn; [|done|done|done]. intros x. pose proof (Hids x) as Hx.
  destruct (decide (x = id)) as [->|Hne]; [|elsewhere].
  unfold id_ok in *. cbn. destruct (sw_spawned w !! id) as [t0|] eqn:E; [|destruct Hx; congruence].
  destruct Hx. pose proof (so_aborted0 _ Hl) as Hc.
  assert (id ∉ (sw_announced w).*1) as Ha. { rewrite so_announced0, Hl. by intros [[? [=]]|[[=] _]]. }
  apply started_gone; cbn; rewrite ?lookup_delete_eq; [done| | |done|set_solver|set_solver].
  - apply eq_None_not_Some. rewrite so_status0. by intros [_ []].
  - intros k. rewrite so_session0. by intros (_ & [] & _).
Qed.

Lemma abort_other ids live (id : string) : id ∉ ids → abort ids live !! id = live !! id.
Proof. intros H. unfold abort. rewrite map_lookup_imap. destruct (live !! id) as [[t [a|]]|]; cbn; [by rewrite bool_decide_false|done|done]. Qed.

Lemma filter_out_is_Some {A} (m : gmap string A) (ids : gset string) id :
  is_Some (filter (λ e, e.1 ∉ ids) m !! id) ↔ (is_Some (m !! id) ∧ id ∉ ids).
Proof.
  unfold is_Some. setoid_rewrite map_lookup_filter_Some. cbn. naive_solver.
Qed.

Lemma inv_cancel w k i ids hit :
  sub_inv w → cancel_by_session k (sw_inner w) = (i, ids, hit) →
  sub_inv (mkWorld i (abort hit (sw_live w)) (sw_spawning w) (sw_spawned w) (sw_announced w) (ids ∪ sw_cancelled w) (sw_killed w)).
Proof.
  intros [Hids Hnd Hm Hs] E. pose proof (λ k', sess_cancel _ _ k' _ _ _ E) as Hsess. injection E as <- <- <-. fold (sess (sw_inner w) k) in *.
  set (ids := sess (sw_inner w) k) in *. split; cbn; [|done|done|].
  2:{ intros k'. destruct (decide (k' = k)) as [->|Hne]; [by rewrite lookup_delete_eq|by rewrite lookup_delete_ne]. }
  intros x. pose proof (Hids x) as Hx. destruct (decide (x ∈ ids)) as [Hin|Hout].
  - unfold id_ok in *. cbn. destruct (sw_spawned w !! x) as [t|]; destruct Hx; [|by destruct (uo_session0 k)].
    pose proof (proj1 (so_session0 k) Hin) as ([[t1 st1] Hl] & Hnc & Hk).
    split; cbn.
    + intros t' st (st0 & Hl0 & _)%lookup_abort. eauto.
    + rewrite filter_out_is_Some. set_solver.
    + intros k'. rewrite Hsess. case_bool_decide; [set_solver|]. split; [|set_solver]. intros (_ & _ & ?)%so_session0. congruence.
    + set_solver.
    + set_solver.
    + set_solver.
    + intros H. apply so_killed0 in H as [H _]. congruence.
    + rewrite so_announced0. rewrite lookup_abort_None, Hl. split.
      * intros [[t' [= -> ->]]|[[=] _]]. left. exists t'. apply lookup_abort. by exists Announced.
      * intros [[t' (st0 & Hl0 & Hst)%lookup_abort]|[[=] _]]. left. destruct st0; [done|]. exists t'. congruence.
  - eapply (id_ok_frame w); [..|exact Hx]; cbn; try done.
    + apply abort_other. set_solver.
    + rewrite filter_out_is_Some. naive_solver.
    + intros k'. rewrite Hsess. case_bool_decide; [subst; set_solver|done].
    + set_solver.
    + set_solver.
Qed.

Lemma sub_inv_step w w' : sub_inv w → sub_step w w' → sub_inv w'.
Proof.
  intros Hw Hs. destruct Hs as [w id t now Hn|w id Hi|w id t a f Hl|w id t a res now Hl|w id t Hl|w k i ids hit Hc|w id t Hl].
  - by apply inv_register.
  - by apply inv_handle.
  - by apply (inv_progress w id t a).
  - refine (inv_announce _ id t a _ (inv_progress w id t a (mark_done res) Hw Hl) Hl _).
    exists t, now, (outcome_of res).1, (outcome_of res).2. split; [|done]. cbn.
    pose proof (si_ids w Hw id) as Hid. unfold id_ok in Hid. destruct (sw_spawned w !! id) as [t0|]; destruct Hid; [|congruence].
    f_equal. symmetry. eauto.
  - by apply inv_cleanup.
  - by apply (inv_cancel w k).
  - by apply (inv_die w id t).
Qed.

Lemma sub_inv_new : sub_inv world_new.
Proof.
  split; cbn; [|constructor|constructor|done]. intros id. unfold id_ok. cbn. rewrite lookup_empty.
  split; cbn; try done; try set_solver.
Qed.

Lemma sub_reachable_inv w : rtc sub_step world_new w → sub_inv w.
Proof. intros H. pose proof sub_inv_new as H0. revert H0. generalize dependent world_new. intros w0 H. induction H; eauto using sub_inv_step. Qed.

(** The tasks of a session that run, were not cancelled and whose [spawn] has returned. *)
Definition active (w : World) (k : string) : gset string :=
  filter (λ id, id ∉ sw_cancelled w ∪ sw_spawning w) (dom (filter (λ e, tk_key e.2.1 = Some k) (sw_live w))).

Lemma elem_of_active w k id :
  id ∈ active w k ↔ (id ∉ sw_cancelled w ∪ sw_spawning w) ∧ ∃ t st, sw_live w !! id = Some (t, st) ∧ tk_key t = Some k.
Proof.
  unfold active. rewrite elem_of_filter, elem_of_dom. unfold is_Some. setoid_rewrite map_lookup_filter_Some. cbn.
  split; [intros [? [[t st] [? ?]]]; eauto|intros [? (t & st & ? & ?)]; eauto].
Qed.

Lemma counted_active w k : sub_inv w → filter (λ id, id ∈ running_tasks (sw_inner w)) (sess (sw_inner w) k) = active w k.
Proof.
  intros Hw. apply set_eq. intros id. rewrite elem_of_filter, elem_of_active. pose proof (si_ids w Hw id) as Hid. unfold id_ok in Hid.
  destruct (sw_spawned w !! id) as [t|]; destruct Hid.
  - rewrite so_session0. split.
    + intros (Hr & [[t' st] Hl] & Hc & Hk). pose proof (so_live0 _ _ Hl) as ->. split; [|eauto]. apply so_handle0 in Hr. set_solver.
    + intros (Hn & t' & st & Hl & Hk). pose proof (so_live0 _ _ Hl) as ->. assert (is_Some (sw_live w !! id)) by (rewrite Hl; eauto).
      split; [apply so_running0; set_solver|set_solver].
  - split; [by intros [_ ?%uo_session0]|]. intros (_ & t & st & Hl & _). congruence.
Qed.


(** ** Two races *)

Definition demo_task : Task := mkTask "count the files" "count" "cli" "direct" (Some "cli:direct") None.

Definition demo_result : AgentRunResult := mkResult (Some "42") [] [] ∅ "completed" None [] false.

(** The task of a first session is announced and gone, and its handle is kept; that of a second one is listed
    as cancelled before its handle was there, and announces its result all the same. *)
Lemma demo_races :
  ∃ w, rtc sub_step world_new w ∧ sw_live w = ∅ ∧ running_count (sw_inner w) = 1 ∧
    (sw_announced w).*1 = ["0a1b2c3d"] ∧ sw_cancelled w = {["0a1b2c3d"]} ∧ running_count_by_session "cli:direct" (sw_inner w) = 0.
Proof.
  eexists. split.
  - eapply rtc_l; [apply (ss_register _ "0a1b2c3d" demo_task 0); done|].
    eapply rtc_l; [by apply (ss_cancel _ "cli:direct")|].
    eapply rtc_l; [apply (ss_announce _ "0a1b2c3d" demo_task false demo_result 1); vm_compute; reflexivity|].
    eapply rtc_l; [apply (ss_cleanup _ "0a1b2c3d" demo_task); vm_compute; reflexivity|].
    eapply rtc_l; [apply (ss_handle _ "0a1b2c3d"); vm_compute; set_solver|]. apply rtc_refl.
  - split_and!; vm_compute; reflexivity.
Qed.


(** A task that was stopped at its iteration limit is announced as a success. *)
Example limit_announced_ok :
  let res := mkResult (Some NO_FINAL) [] [] ∅ "max_iterations" None [] false in
  let m := announcement 0 "0a1b2c3d" demo_task (outcome_of res).1 (outcome_of res).2 in
  in_content m = "Subagent [count] completed successfully" +:+ String nl (String nl "Original task:") +:+ String nl "count the files"
                 +:+ String nl (String nl "Result:") +:+ String nl "Task completed but no final response was generated.".
Proof. reflexivity. Qed.
