(* ===== verification/Shell.v ===== *)
(** * The shell tool

    [crates/agent/src/tools/shell.rs] on a POSIX system: the guard of a command, the environment
    and the directory of the process, the sandbox, and what is said of its end.  The deny and
    allow patterns are matchers (the [regex] crate); the three patterns that find paths are
    written out as scanners.  The process itself is a parameter; its output is decoded text. *)

From S2P Require Import Prelude RustStr Utf8 Json Network PosixFs Sandbox.

Local Open Scope stdpp_scope.
Local Open Scope hive_scope.

Definition MAX_TIMEOUT_SECS : Z := 600.
Definition DEFAULT_TIMEOUT_SECS : Z := 60.
Definition MAX_OUTPUT_CHARS : nat := 10000.

Definition WORKSPACE_BOUNDARY_NOTE : string :=
  String nl (String nl "Note: this is a hard policy boundary, not a transient failure. Do NOT retry with shell tricks (symlinks, base64 piping, alternative tools, working_dir overrides). If the user genuinely needs this resource, tell them you cannot reach it under the current restrict_to_workspace policy and ask how to proceed.").

Definition BENIGN_DEVICE_PATHS : list string :=
  ["/dev/null"; "/dev/zero"; "/dev/full"; "/dev/random"; "/dev/urandom"; "/dev/stdin"; "/dev/stdout"; "/dev/stderr"; "/dev/tty"].

Definition is_benign_device_path (path : string) : bool := bool_decide (path ∈ BENIGN_DEVICE_PATHS) || starts_with path "/dev/fd/".

(** ** Paths in a command *)

Definition dquote : string := String "034" "".

(** A character inside a path: [[^\s'>;|<]] and not a double quote. *)
Definition path_char (c : string) : bool := negb (all_ws c) && negb (bool_decide (c ∈ [dquote; "'"; ">"; ";"; "|"; "<"])).

Fixpoint path_chars (cs : list string) : list string :=
  match cs with c :: cs => if path_char c then c :: path_chars cs else [] | [] => [] end.

Definition text (cs : list string) : string := join "" cs.

Definition is_letter (c : string) : bool :=
  match c with
  | String a "" => let b := byte_of a in ((65 <=? b) && (b <=? 90) || (97 <=? b) && (b <=? 122))%Z
  | _ => false
  end.

(** A match at the front of the characters: the text before the capture and the capture. *)
Definition win_at (cs : list string) : option (nat * list string) :=
  match cs with
  | a :: c :: rest =>
      if is_letter a && String.eqb c ":" then Some (0, a :: c :: path_chars rest)
      else if String.eqb a "\" && path_char c then Some (0, a :: path_chars (c :: rest)) else None
  | _ => None
  end.

(** The capture of [/...] or [~...] at the front. *)
Definition abs_at (cs : list string) : option (list string) :=
  match cs with
  | a :: c :: rest => if String.eqb a "/" && path_char c then Some (a :: path_chars (c :: rest)) else None
  | _ => None
  end.

Definition home_at (cs : list string) : option (list string) :=
  match cs with a :: rest => if String.eqb a "~" then Some (a :: path_chars rest) else None | [] => None end.

(** [(?:^|[...])(...)]: at the start of the text, or after one of the characters. *)
Definition after_lead (lead : string → bool) (capture : list string → option (list string)) (start : bool) (cs : list string)
    : option (nat * list string) :=
  match (if start then capture cs else None) with
  | Some m => Some (0, m)
  | None =>
      match cs with
      | c :: rest => if lead c then match capture rest with Some m => Some (1, m) | None => None end else None
      | [] => None
      end
  end.

(** The matches from left to right, none overlapping; [skip] characters belong to the last one. *)
Fixpoint find_iter (at_front : bool → list string → option (nat * list string)) (start : bool) (skip : nat) (cs : list string) : list string :=
  match cs with
  | [] => []
  | _ :: rest =>
      match skip with
      | S k => find_iter at_front false k rest
      | 0 => match at_front start cs with
             | Some (lead, m) => text m :: find_iter at_front false (lead + length m - 1) rest
             | None => find_iter at_front false 0 rest
             end
      end
  end.

Definition posix_lead (c : string) : bool := all_ws c || bool_decide (c ∈ ["|"; ">"; "'"; dquote]).
Definition home_lead (c : string) : bool := all_ws c || bool_decide (c ∈ [">"; "'"; dquote]).

Definition extract_absolute_paths (cmd : string) : list string :=
  let cs := chars_of cmd in
  find_iter (λ _, win_at) true 0 cs ++ find_iter (after_lead posix_lead abs_at) true 0 cs ++ find_iter (after_lead home_lead home_at) true 0 cs.

(** ** The tool *)

Record ExecTool := mkExecTool {
  ex_timeout : Z;
  ex_working_dir : option string;
  ex_deny : list (string → bool);
  ex_allow : list (string → bool);
  ex_restrict : bool;
  ex_sandbox : string;
  ex_path_append : string;
  ex_env_keys : list string
}.

(** What is started: [bash -l -c] on a text, in a directory, with exactly this environment. *)
Record Process := mkProcess {
  pr_program : string;
  pr_args : list string;
  pr_cwd : string;
  pr_env : gmap string string;
  pr_timeout : Z
}.

Inductive Outcome := Exited (out err : string) (code : option Z) | NotStarted (e : string) | TimedOut.

Section Exec.
Variables (env : SysEnv) (dns : string → option (list IpAddr)) (allowed_networks : list CidrBlock) (tool : ExecTool).
(** The variables of the host. *)
Variable var : string → option string.
Variable fs : FileSystem.

(** A path of the command that may be named. *)
Definition path_permitted (cwd_path media_path raw : string) : bool :=
  let expanded := expand_user env (trim raw) in
  let p := canonicalize fs expanded in
  is_benign_device_path expanded || is_benign_device_path p || negb (is_absolute p)
  || path_starts_with p cwd_path || path_starts_with p media_path.

Definition guard_command (command cwd : string) : option string :=
  let cmd := trim command in
  let lower := to_ascii_lowercase cmd in
  let explicitly_allowed := existsb (λ p, p lower) (ex_allow tool) in
  if negb explicitly_allowed && existsb (λ p, p lower) (ex_deny tool) then Some "Error: Command blocked by deny pattern filter"
  else if negb explicitly_allowed && negb (bool_decide (length (ex_allow tool) = 0))
  then Some "Error: Command blocked by allowlist filter (not in allowlist)"
  else if contains_internal_url dns allowed_networks cmd
  then Some "Error: Command blocked by safety guard (internal/private URL detected)"
  else if ex_restrict tool then
    if contains_str cmd "..\" || contains_str cmd "../"
    then Some ("Error: Command blocked by safety guard (path traversal detected)" +:+ WORKSPACE_BOUNDARY_NOTE)
    else if forallb (path_permitted (canonicalize fs cwd) (canonicalize fs (media_dir env))) (extract_absolute_paths cmd) then None
    else Some ("Error: Command blocked by safety guard (path outside working dir)" +:+ WORKSPACE_BOUNDARY_NOTE)
  else None.

Definition build_env : gmap string string :=
  let base : gmap string string :=
    <["PYTHONUNBUFFERED" := "1"]> (<["TERM" := default "dumb" (var "TERM")]>
      (<["LANG" := default "C.UTF-8" (var "LANG")]> {["HOME" := default "/tmp" (var "HOME")]})) in
  foldl (λ m k, match var k with Some v => <[k := v]> m | None => m end) base (ex_env_keys tool).

(** From the parameters to the process, or what is answered without one. *)
Definition prepare (params : json) : result Process string :=
  match get_str "command" params with
  | None => Err "Error: command required"
  | Some command =>
      let cwd := match get_str "working_dir" params with
                 | Some d => d
                 | None => default (display_real (fs_cwd fs)) (ex_working_dir tool)
                 end in
      let outside := ex_restrict tool
                     && match ex_working_dir tool with
                        | Some ws => negb (path_starts_with (canonicalize fs cwd) (canonicalize fs ws))
                        | None => false
                        end in
      if outside then Err ("Error: working_dir is outside the configured workspace" +:+ WORKSPACE_BOUNDARY_NOTE)
      else
        match guard_command command cwd with
        | Some e => Err e
        | None =>
            let wrapped :=
              if is_empty (ex_sandbox tool) then Ok (command, cwd)
              else
                let workspace := default cwd (ex_working_dir tool) in
                match wrap_command env fs (ex_sandbox tool) command workspace cwd with
                | Ok s => Ok (s, canonicalize fs workspace)
                | Err e => Err ("Error: " +:+ e)
                end in
            match wrapped with
            | Err e => Err e
            | Ok (command_str, effective_cwd) =>
                let limit := Z.min (default (ex_timeout tool) (jget "timeout" params ≫= as_u64)) MAX_TIMEOUT_SECS in
                let '(vars, command_str) :=
                  if is_empty (ex_path_append tool) then (build_env, command_str)
                  else (<["NANOBOT_PATH_APPEND" := ex_path_append tool]> build_env,
                        "export PATH=" +:+ dquote +:+ "$PATH:$NANOBOT_PATH_APPEND" +:+ dquote +:+ "; " +:+ command_str) in
                Ok (mkProcess "/bin/bash" ["-l"; "-c"; command_str] effective_cwd vars limit)
            end
        end
  end.

Definition last_chars (n : nat) (s : string) : string := let cs := chars_of s in text (drop (length cs - n) cs).

Definition truncate_middle (s : string) (max : nat) : string :=
  if String.length s <=? max then s
  else
    let half := Nat.div max 2 in
    take_chars half s +:+ String nl (String nl "... (") +:+ pretty (String.length s - max) +:+ " chars truncated) ..."
    +:+ String nl (String nl (last_chars half s)).

Definition render_outcome (limit : Z) (o : Outcome) : string :=
  match o with
  | NotStarted e => "Error executing command: " +:+ e
  | TimedOut => "Error: Command timed out after " +:+ pretty limit +:+ " seconds"
  | Exited out err code =>
      let parts := (if is_empty out then [] else [out])
                   ++ (if is_empty (trim err) then [] else ["STDERR:" +:+ String nl err])
                   ++ [String nl ("Exit code: " +:+ pretty (default (-1)%Z code))] in
      truncate_middle (join (String nl "") parts) MAX_OUTPUT_CHARS
  end.

Definition execute {W} (run_process : Process → W → W * Outcome) (params : json) (w : W) : W * json :=
  match prepare params with
  | Err e => (w, JStr e)
  | Ok p => let '(w, o) := run_process p w in (w, JStr (render_outcome (pr_timeout p) o))
  end.
End Exec.
