(* ===== verification/ShellProps.v ===== *)
(** * What the shell tool starts

    Every process satisfies the policy of the tool: limits, environment, patterns, addresses,
    paths and sandbox; and what the guard does not see. *)

From S2P Require Import Prelude RustStr Utf8 Json Network PosixFs Sandbox Shell.

Local Open Scope stdpp_scope.
Local Open Scope hive_scope.

(** The variables a process may be given whatever the configuration says. *)
Definition BASE_KEYS : list string := ["HOME"; "LANG"; "TERM"; "PYTHONUNBUFFERED"].

Section Exec.
Variables (env : SysEnv) (dns : string → option (list IpAddr)) (nets : list CidrBlock) (tool : ExecTool).

(** *** The environment *)

Lemma add_vars_lookup (var : string → option string) keys (m : gmap string string) k v :
  foldl (λ m k, match var k with Some v => <[k := v]> m | None => m end) m keys !! k = Some v →
  m !! k = Some v ∨ (k ∈ keys ∧ var k = Some v).
Proof.
  revert m. induction keys as [|x keys IH]; intros m H; cbn in H; [by left|]. apply IH in H as [H|[H1 H2]]; [|right; set_solver].
  destruct (var x) as [y|] eqn:E; [|by left]. destruct (decide (x = k)) as [->|Hne].
  - rewrite lookup_insert_eq in H. injection H as ->. right. set_solver.
  - rewrite lookup_insert_ne in H by done. by left.
Qed.

Lemma build_env_keys var k v : build_env tool var !! k = Some v → k ∈ BASE_KEYS ∨ (k ∈ ex_env_keys tool ∧ var k = Some v).
Proof.
  intros H. unfold build_env in H. apply add_vars_lookup in H as [H|H]; [left|by right].
  rewrite !lookup_insert_Some, lookup_singleton_Some in H. unfold BASE_KEYS.
  destruct H as [[<- _]|[_ [[<- _]|[_ [[<- _]|[_ [<- _]]]]]]]; set_solver.
Qed.

(** The environment depends on the named variables only. *)
Lemma build_env_blind var var' :
  (∀ k, k ∈ ["HOME"; "LANG"; "TERM"] ++ ex_env_keys tool → var k = var' k) → build_env tool var = build_env tool var'.
Proof.
  intros H. unfold build_env. rewrite !H by set_solver.
  assert (∀ (m : gmap string string) keys, keys ⊆ ex_env_keys tool →
    foldl (λ m k, match var k with Some v => <[k := v]> m | None => m end) m keys =
    foldl (λ m k, match var' k with Some v => <[k := v]> m | None => m end) m keys) as Hf.
  { intros m keys. revert m. induction keys as [|x keys IH]; intros m Hk; [done|]. cbn. rewrite H by set_solver. apply IH. set_solver. }
  by apply Hf.
Qed.

(** *** The guard *)

Variable fs : FileSystem.

(** A command that is let through. *)
Record cleared (command cwd : string) : Prop := {
  cl_patterns : existsb (λ p, p (to_ascii_lowercase (trim command))) (ex_allow tool) = true ∨
                (ex_allow tool = [] ∧ existsb (λ p, p (to_ascii_lowercase (trim command))) (ex_deny tool) = false);
  cl_urls : contains_internal_url dns nets (trim command) = false;
  cl_paths : ex_restrict tool = true →
             contains_str (trim command) "../" = false ∧
             Forall (λ raw, path_permitted env fs (canonicalize fs cwd) (canonicalize fs (media_dir env)) raw = true)
               (extract_absolute_paths (trim command))
}.

Lemma guard_cleared command cwd : guard_command env dns nets tool fs command cwd = None ↔ 
  (cleared command cwd ∧ (ex_restrict tool = true → contains_str (trim command) "..\" = false)).
Proof.
  unfold guard_command. set (allow := existsb _ (ex_allow tool)). set (deny := existsb _ (ex_deny tool)).
  assert (negb allow = true → bool_decide (length (ex_allow tool) = 0) = true ↔ ex_allow tool = []) as Hlen.
  { intros _. rewrite bool_decide_eq_true. by destruct (ex_allow tool). }
  split.
  - intros H. destruct (negb allow && deny) eqn:E1; [done|]. destruct (negb allow && negb _) eqn:E2; [done|].
    destruct (contains_internal_url _ _ _) eqn:E3; [done|]. assert (allow = true ∨ (ex_allow tool = [] ∧ deny = false)) as Hp.
    { destruct allow; [by left|]. right. cbn [negb andb] in E1, E2. split; [|done]. apply Hlen; [done|]. by apply negb_false_iff in E2. }
    destruct (ex_restrict tool) eqn:Er.
    + destruct (contains_str _ "..\") eqn:E4; [done|]. destruct (contains_str _ "../") eqn:E5; [done|]. cbn in H.
      destruct (forallb _ _) eqn:E6; [|done]. split; [|done]. split; [done|done|]. intros _. split; [done|].
      rewrite forallb_forall in E6. apply Forall_forall. intros x Hx. apply E6. by apply list_elem_of_In.
    + split; [split; [done|done|by rewrite Er]|done].
  - intros [[Hp Hu Hpaths] Hback]. destruct Hp as [Hp|[Hp Hd]].
    + fold allow in Hp. rewrite Hp. cbn. rewrite Hu. destruct (ex_restrict tool); [|done]. destruct (Hpaths eq_refl) as [-> Hall].
      rewrite Hback by done. cbn. rewrite (proj2 (forallb_forall _ _)); [done|]. intros x Hx. rewrite Forall_forall in Hall. apply Hall.
      by apply list_elem_of_In.
    + fold deny in Hd. rewrite Hd, andb_false_r, Hp. cbn. rewrite andb_false_r, Hu. destruct (ex_restrict tool); [|done].
      destruct (Hpaths eq_refl) as [-> Hall]. rewrite Hback by done. cbn. rewrite (proj2 (forallb_forall _ _)); [done|].
      intros x Hx. rewrite Forall_forall in Hall. apply Hall. by apply list_elem_of_In.
Qed.

(** What bash is given: the command, or the sandbox around it, perhaps after setting the path. *)
Definition runs (command cwd : string) (p : Process) : Prop :=
  ∃ prefix body, pr_program p = "/bin/bash" ∧ pr_args p = ["-l"; "-c"; prefix +:+ body] ∧
    (prefix = "" ∨ prefix = "export PATH=" +:+ dquote +:+ "$PATH:$NANOBOT_PATH_APPEND" +:+ dquote +:+ "; ") ∧
    if is_empty (ex_sandbox tool) then body = command ∧ pr_cwd p = cwd
    else ex_sandbox tool = "bwrap" ∧ pr_cwd p = canonicalize fs (default cwd (ex_working_dir tool)) ∧
         shell_words Outside None body = Some (bwrap_args env fs command (default cwd (ex_working_dir tool)) cwd).

End Exec.

(** ** Runs *)

Definition sh_env : SysEnv := mkSysEnv "/media" (Some "/home/u").

Definition sh_fs : FileSystem :=
  mkFs {[["ws"] := NDir 0; ["ws"; "sub"] := NDir 0; ["etc"] := NDir 0; ["etc"; "passwd"] := NFile "root" 0; ["home"] := NDir 0; ["home"; "u"] := NDir 0]}
    [] 1.

Definition sh_tool (sandbox : string) : ExecTool := mkExecTool 60 (Some "/ws") [λ s, contains_str s "rm -rf"] [] true sandbox "" ["LC_ALL"].

Definition sh_vars (k : string) : option string := if String.eqb k "API_KEY" then Some "s3cret" else if String.eqb k "LC_ALL" then Some "C" else None.

Definition sh_prepare (sandbox command : string) : result Process string :=
  prepare sh_env (λ _, None) [] (sh_tool sandbox) sh_vars sh_fs (JObj [("command", JStr command); ("timeout", JInt 9000)]).


(** A path is seen after a blank, a quote, a bar or a [>]: *)
Example outside_path_refused :
  sh_prepare "" "cat /etc/passwd"
  = Err ("Error: Command blocked by safety guard (path outside working dir)" +:+ WORKSPACE_BOUNDARY_NOTE).
Proof. vm_compute. reflexivity. Qed.

Definition is_ok {A E} (r : result A E) : bool := match r with Ok _ => true | Err _ => false end.

(** and not after a [<] or an [=], nor the root alone, nor another user's home. *)
Example guard_misses :
  forallb is_ok (sh_prepare "" <$> ["cat </etc/passwd"; "cd / ; cat etc/passwd"; "cp --target-directory=/etc x"; "cat ~root/.ssh/id_rsa"]) = true.
Proof. vm_compute. reflexivity. Qed.

(** Bytes are counted and characters kept: a text of four characters of three bytes each, cut
    to ten, is said to be cut and comes out twice. *)
Example truncation_doubles :
  let e := "帮助文件" in
  truncate_middle e 10 = e +:+ String nl (String nl "... (2 chars truncated) ...") +:+ String nl (String nl e).
Proof. vm_compute. reflexivity. Qed.
