(* ===== verification/MessageTool.v ===== *)
(** * The tools that speak for a conversation

    [crates/agent/src/tools/message.rs] with [path_utils.rs], and [spawn.rs]: a message sent to a
    chat with attachments, and the request for a background task.  Each keeps the context of the
    current turn, which the loop sets. *)

From S2P Require Import Prelude RustStr F64 Utf8 Json Think Bus PosixFs Sandbox FsTools FsProps AgentLoop.

Local Open Scope stdpp_scope.
Local Open Scope hive_scope.

(** ** Paths of attachments *)

Definition PATH_BOUNDARY_NOTE : string :=
  " (this is a hard policy boundary, not a transient failure; do not retry with shell tricks or alternative tools, and ask the user how to proceed if the resource is genuinely required)".

Section Resolve.
Variables (env : SysEnv) (debug : string → string) (fs : FileSystem).

(** A leading [~] is a component; what follows it is written with single separators. *)
Definition expand_home (path : string) : string :=
  match strip_components ["~"] (path_components path), home_dir env with
  | Some rest, Some home => path_join home (join "/" rest)
  | _, _ => path
  end.

Definition resolve_workspace_path (path : string) (workspace allowed_dir : option string) (extra : list string) : result string string :=
  let p := expand_home path in
  let p := match workspace with Some ws => if is_absolute p then p else path_join ws p | None => p end in
  let resolved := canonicalize fs p in
  match allowed_dir with
  | Some allowed =>
      if existsb (is_under fs resolved) (allowed :: media_dir env :: extra) then Ok resolved
      else Err ("Path " +:+ path +:+ " is outside allowed directory " +:+ debug allowed +:+ PATH_BOUNDARY_NOTE)
  | None => Ok resolved
  end.
End Resolve.

(** ** The message tool *)

Record MessageContext := mkMessageContext {
  mc_channel : string;
  mc_chat_id : string;
  mc_message_id : option string;
  mc_sent_in_turn : bool;
  mc_metadata : gmap string json;
  mc_delivered : list string
}.

Definition MessageContext_default : MessageContext := mkMessageContext "" "" None false ∅ [].

Definition set_context (rc : RequestContext) (c : MessageContext) : MessageContext :=
  mkMessageContext (rc_channel rc) (rc_chat_id rc) (rc_message_id rc) (mc_sent_in_turn c) (rc_metadata rc) (mc_delivered c).

Definition start_turn (c : MessageContext) : MessageContext :=
  mkMessageContext (mc_channel c) (mc_chat_id c) (mc_message_id c) false (mc_metadata c) [].

(** A message went to the chat of the turn. *)
Definition note_sent (media : list string) (c : MessageContext) : MessageContext :=
  mkMessageContext (mc_channel c) (mc_chat_id c) (mc_message_id c) true (mc_metadata c) (mc_delivered c ++ media).

Definition is_url (p : string) : bool := starts_with p "http://" || starts_with p "https://".

Definition array_of (k : string) (params : json) : list json := match jget k params with Some (JArr l) => l | _ => [] end.

Definition non_empty (o : option string) : option string := o ≫= λ s, if is_empty s then None else Some s.

Section Message.
Variables (env : SysEnv) (debug : string → string) (fs : FileSystem) (workspace : string) (restrict : bool).

Definition resolve_one (p : string) : result string string :=
  if is_url p then Ok p
  else if negb restrict then Ok (if is_absolute p then p else path_join workspace p)
  else match resolve_workspace_path env debug fs p (Some workspace) (Some workspace) [] with
       | Ok r => Ok r
       | Err e => Err ("media path is not allowed: " +:+ e)
       end.

Fixpoint resolve_media (media : list string) : result (list string) string :=
  match media with
  | [] => Ok []
  | p :: media => let? r := resolve_one p in let? rs := resolve_media media in Ok (r :: rs)
  end.

Definition WRONG_CHAT : string :=
  "Error: chat_id does not match the active WebSocket conversation. Omit chat_id (and usually channel) so delivery uses the current conversation id from context — WebSocket client_id strings (e.g. anon-…) are not chat ids.".

Definition button_rows (params : json) : list (list string) :=
  filter_map (λ row, match row with JArr cells => Some (filter_map as_str cells) | _ => None end) (array_of "buttons" params).

Definition message (params : json) (s : MessageBus * MessageContext) : (MessageBus * MessageContext) * json :=
  let '(b, ctx) := s in
  let content := strip_think (default "" (get_str "content" params)) in
  let media := filter_map as_str (array_of "media" params) in
  let buttons := button_rows params in
  let channel := default (mc_channel ctx) (non_empty (get_str "channel" params)) in
  let explicit_chat := non_empty (get_str "chat_id" params) in
  let wrong_chat := String.eqb (mc_channel ctx) "websocket" && String.eqb channel "websocket"
                    && match explicit_chat with Some c => negb (String.eqb (trim c) (trim (mc_chat_id ctx))) | None => false end in
  if wrong_chat then (s, JStr WRONG_CHAT)
  else
    let chat := default (mc_chat_id ctx) explicit_chat in
    let same_target := String.eqb channel (mc_channel ctx) && String.eqb chat (mc_chat_id ctx) in
    let message_id := if same_target then match get_str "message_id" params with Some m => Some m | None => mc_message_id ctx end else None in
    if is_empty channel || is_empty chat then (s, JStr "Error: No target channel/chat specified")
    else
      match resolve_media media with
      | Err e => (s, JStr ("Error: " +:+ e))
      | Ok media =>
          let metadata := if same_target then mc_metadata ctx else ∅ in
          let metadata := match message_id with Some m => <["message_id" := JStr m]> metadata | None => metadata end in
          let metadata := match metadata !! "_record_channel_delivery", media with
                          | None, _ :: _ => <["_record_channel_delivery" := JBool true]> metadata
                          | _, _ => metadata
                          end in
          let b := Bus.publish_outbound b (mkOutbound channel chat content None media metadata) in
          let ctx := if same_target then note_sent media ctx else ctx in
          let media_info := match media with [] => "" | _ => " with " +:+ pretty (length media) +:+ " attachments" end in
          let button_info := match buttons with
                             | [] => ""
                             | _ => " with " +:+ pretty (sum_list_with length buttons) +:+ " button(s)"
                             end in
          ((b, ctx), JStr ("Message sent to " +:+ channel +:+ ":" +:+ chat +:+ media_info +:+ button_info))
      end.
End Message.

(** ** The spawn tool *)

Record SpawnContext := mkSpawnContext { sp_channel : string; sp_chat_id : string; sp_session_key : string }.

Definition SpawnContext_new : SpawnContext := mkSpawnContext "cli" "direct" "cli:direct".

Definition set_spawn_context (channel chat : string) (key : option string) : SpawnContext :=
  mkSpawnContext channel chat (default (channel +:+ ":" +:+ chat) key).

Definition set_tool_context (rc : RequestContext) : SpawnContext := set_spawn_context (rc_channel rc) (rc_chat_id rc) (rc_session_key rc).

Record SpawnRequest := mkSpawnRequest { sr_task : string; sr_label : option string; sr_channel : string; sr_chat_id : string; sr_session_key : string }.

Definition spawn {W} (callback : SpawnRequest → W → W * string) (ctx : SpawnContext) (params : json) (w : W) : W * json :=
  match get_str "task" params with
  | None => (w, JStr "Error: task is required")
  | Some task =>
      let '(w, r) := callback (mkSpawnRequest task (get_str "label" params) (sp_channel ctx) (sp_chat_id ctx) (sp_session_key ctx)) w in
      (w, JStr r)
  end.

(** ** What a message can carry *)

(** An attachment of a restricted tool: an address on the web, or a path that, where it names an
    object, names one inside the workspace or the media directory. *)
Definition attachable (env : SysEnv) (fs : FileSystem) (workspace x : string) : Prop :=
  is_url x = true ∨
  ∀ r, real_path fs x = Some r → x = display_real r ∧ (inside fs workspace r = true ∨ inside fs (media_dir env) r = true).

Section Laws.
Context (env : SysEnv) (debug : string → string) (fs : FileSystem) (Hwf : wf_fs fs) (workspace : string).

Lemma is_under_canonical p d : is_under fs p d = is_under fs p (canonicalize fs d).
Proof. unfold is_under. by rewrite canonicalize_idem. Qed.

Lemma resolve_one_attachable p x : resolve_one env debug fs workspace true p = Ok x → attachable env fs workspace x.
Proof.
  unfold resolve_one. destruct (is_url p) eqn:Eu; [intros [= <-]; by left|]. cbn [negb]. unfold resolve_workspace_path.
  set (q := if is_absolute _ then _ else _). destruct (existsb _ _) eqn:E; [|done]. intros [= <-]. right. intros r Hr.
  rewrite real_path_canonicalize in Hr by done. pose proof (real_path_solid fs Hwf _ _ Hr) as Hs.
  assert (canonicalize fs q = display_real r) as Hc by (unfold canonicalize; by rewrite Hr). split; [done|]. rewrite Hc in E.
  cbn in E. rewrite (is_under_canonical _ workspace), (is_under_canonical _ (media_dir env)), !is_under_inside, orb_false_r in E by done. by apply orb_prop.
Qed.

Lemma resolve_media_attachable media l :
  resolve_media env debug fs workspace true media = Ok l → Forall (attachable env fs workspace) l ∧ length l = length media.
Proof.
  revert l. induction media as [|p media IH]; intros l H; cbn in H; [injection H as <-; by split; [constructor|]|].
  destruct (resolve_one _ _ _ _ _ p) as [x|] eqn:E; cbn in H; [|done]. destruct (resolve_media _ _ _ _ _ media) as [xs|] eqn:Es; cbn in H; [|done].
  injection H as <-. destruct (IH xs eq_refl) as [H1 H2]. split; [constructor; [by eapply resolve_one_attachable|done]|cbn; by rewrite H2].
Qed.

(** The message tool queues one message or none: none means the bus and the context are
    untouched; one goes last to the chat that was named, or else to the chat of the turn, and
    never from a web page into another conversation of the page; restricted to the workspace it
    carries only web addresses and files inside the workspace or the media directory, by real
    location; and the turn counts as answered exactly when the message went to its own chat. *)
Theorem message_sends params b ctx b' ctx' reply :
  message env debug fs workspace true params (b, ctx) = ((b', ctx'), reply) →
  (b' = b ∧ ctx' = ctx) ∨
  ∃ m, outbound b' = publish (outbound b) m ∧ inbound b' = inbound b ∧
    out_channel m = default (mc_channel ctx) (non_empty (get_str "channel" params)) ∧
    out_chat_id m = default (mc_chat_id ctx) (non_empty (get_str "chat_id" params)) ∧
    (mc_channel ctx = "websocket" → out_channel m = "websocket" → trim (out_chat_id m) = trim (mc_chat_id ctx)) ∧
    Forall (attachable env fs workspace) (out_media m) ∧
    ctx' = (if bool_decide (out_channel m = mc_channel ctx ∧ out_chat_id m = mc_chat_id ctx) then note_sent (out_media m) ctx else ctx).
Proof.
  unfold message. set (channel := default (mc_channel ctx) _). set (explicit := non_empty (get_str "chat_id" params)).
  set (chat := default (mc_chat_id ctx) explicit). destruct (_ && _ && match explicit with Some c => _ | None => _ end) eqn:Ew;
    [intros [= <- <- _]; by left|].
  destruct (is_empty channel || is_empty chat); [intros [= <- <- _]; by left|].
  destruct (resolve_media _ _ _ _ _ _) as [media|e] eqn:Em; [|intros [= <- <- _]; by left].
  intros [= <- Hctx _]. right. eexists. cbn [out_channel out_chat_id out_media Bus.publish_outbound outbound inbound].
  split_and!; try done; cycle 1.
  - by eapply resolve_media_attachable.
  - rewrite <-Hctx. cbn. fold channel chat. destruct (String.eqb_spec channel (mc_channel ctx)) as [H1|H1]; cbn;
      [destruct (String.eqb_spec chat (mc_chat_id ctx)) as [H2|H2]|];
      [rewrite bool_decide_true by done|rewrite bool_decide_false by naive_solver|rewrite bool_decide_false by naive_solver]; done.
  - intros Hws Hch. cbn in Hch |- *. rewrite Hws, Hch, String.eqb_refl in Ew. cbn in Ew. unfold chat. destruct explicit as [c|]; [|done]. cbn.
    apply negb_false_iff in Ew. by apply String.eqb_eq.
Qed.
End Laws.

(** ** A run *)

Definition mt_fs : FileSystem :=
  mkFs {[["ws"] := NDir 0; ["ws"; "a.png"] := NFile "x" 0; ["etc"] := NDir 0; ["etc"; "passwd"] := NFile "root" 0; ["ws"; "l"] := NLink "/etc/passwd"]} [] 1.

Definition mt_ctx : MessageContext := mkMessageContext "websocket" "c1" None false ∅ [].

Definition mt_send (chat : string) (media : list string) : (MessageBus * MessageContext) * json :=
  message (mkSysEnv "/media" None) id mt_fs "/ws" true
    (JObj [("content", JStr "hi"); ("chat_id", JStr chat); ("media", JArr (JStr <$> media))]) (MessageBus_new, mt_ctx).

Lemma triple_eta {A B C} (x : A * B * C) : x = ((x.1.1, x.1.2), x.2).
Proof. by destruct x as [[? ?] ?]. Qed.

Lemma mt_wf : wf_fs mt_fs.
Proof.
  split; [apply solid_dir_nil|]. intros n Hn. cbn in Hn. discriminate Hn.
Qed.

Lemma message_sends_witness :
  ∃ m, lane_queue (outbound (mt_send "" ["a.png"; "https://x.org/y"]).1.1) = [m] ∧
    Forall (attachable (mkSysEnv "/media" None) mt_fs "/ws") (out_media m).
Proof.
  destruct (message_sends (mkSysEnv "/media" None) id mt_fs mt_wf "/ws"
    (JObj [("content", JStr "hi"); ("chat_id", JStr ""); ("media", JArr (JStr <$> ["a.png"; "https://x.org/y"]))]) MessageBus_new mt_ctx
    (mt_send "" ["a.png"; "https://x.org/y"]).1.1 (mt_send "" ["a.png"; "https://x.org/y"]).1.2 (mt_send "" ["a.png"; "https://x.org/y"]).2
    (triple_eta (mt_send "" ["a.png"; "https://x.org/y"]))) as [[H _]|(m & H1 & _ & _ & _ & _ & H2 & _)].
  - exfalso. vm_compute in H. discriminate H.
  - exists m. split; [rewrite H1; reflexivity|exact H2].
Defined.

(** A link out of the workspace is refused. *)
Example link_not_attached :
  mt_send "" ["l"] = ((MessageBus_new, mt_ctx),
    JStr ("Error: media path is not allowed: Path l is outside allowed directory /ws" +:+ PATH_BOUNDARY_NOTE)).
Proof. vm_compute. reflexivity. Qed.

(** The check of the conversation trims, the delivery does not: the message goes to a chat that
    does not exist and the turn does not count as answered. *)
Example padded_chat_passes :
  let s := (mt_send "c1 " []).1 in
  (out_chat_id <$> lane_queue (outbound s.1)) = ["c1 "] ∧ mc_sent_in_turn s.2 = false.
Proof. vm_compute. done. Qed.
