(* ===== verification/CronTool.v ===== *)
(** * The cron tool

    [crates/agent/src/tools/cron.rs]: the actions add, list and remove of the model's tool over the
    cron service.  What [chrono] does with a date text and an instant are parameters. *)

From S2P Require Import Prelude RustStr Json CronTypes CronService CronFacts CronProps CronRefine CronTick.
From Stdlib Require Import Sorted.

Local Open Scope stdpp_scope.
Local Open Scope hive_scope.

Record CronContext := mkCronContext { cc_channel : string; cc_chat_id : string; cc_in_cron : bool }.

Definition CronContext_default : CronContext := mkCronContext "" "" false.

Definition set_context (channel chat : string) (c : CronContext) : CronContext := mkCronContext channel chat (cc_in_cron c).
Definition set_cron_context (active : bool) (c : CronContext) : CronContext := mkCronContext (cc_channel c) (cc_chat_id c) active.

Section Tool.
Variables (E : CronEnv) (default_timezone : string).
(** A date text in milliseconds, with the default zone where it names none; an instant as text. *)
Variables (parse_at : string → option Z) (to_rfc3339 : Z → string → string).

Definition validate_timezone (tz : string) : option string :=
  match tz_parse E tz with None => Some ("Error: unknown timezone '" +:+ tz +:+ "'") | Some _ => None end.

Definition display_tz (s : CronSchedule) : string := default default_timezone (sch_tz s).

Definition format_timestamp (ms : Z) (tz : string) : string := to_rfc3339 ms tz +:+ " (" +:+ tz +:+ ")".

Definition format_timing (s : CronSchedule) : string :=
  match sch_kind s with
  | Cron => "cron: " +:+ default "" (sch_expr s) +:+ match sch_tz s with Some t => " (" +:+ t +:+ ")" | None => "" end
  | Every =>
      match every_ms s with
      | Some ms =>
          if (Z.rem ms 3600000 =? 0)%Z then "every " +:+ pretty (Z.quot ms 3600000) +:+ "h"
          else if (Z.rem ms 60000 =? 0)%Z then "every " +:+ pretty (Z.quot ms 60000) +:+ "m"
          else if (Z.rem ms 1000 =? 0)%Z then "every " +:+ pretty (Z.quot ms 1000) +:+ "s"
          else "every " +:+ pretty ms +:+ "ms"
      | None => "every ?"
      end
  | At => match at_ms s with Some ms => "at " +:+ format_timestamp ms (display_tz s) | None => "at ?" end
  end.

Definition system_job_purpose (j : CronJob) : string :=
  if String.eqb (job_name j) "dream" then "Dream memory consolidation for long-term memory." else "System-managed internal job.".

Definition status_word (s : RunStatus) : string := match s with StatusOk => "ok" | StatusError => "error" | StatusSkipped => "skipped" end.

Definition format_state (st : CronJobState) (s : CronSchedule) : list string :=
  (match last_run_at_ms st with
   | Some ms => ["  Last run: " +:+ format_timestamp ms (display_tz s) +:+ " — " +:+ default "unknown" (status_word <$> last_status st)
                 +:+ match last_error st with Some e => " (" +:+ e +:+ ")" | None => "" end]
   | None => []
   end)
  ++ match next_run_at_ms st with Some ms => ["  Next run: " +:+ format_timestamp ms (display_tz s)] | None => [] end.

Definition job_lines (j : CronJob) : string :=
  join (String nl "")
    (["- " +:+ job_name j +:+ " (id: " +:+ job_id j +:+ ", " +:+ format_timing (schedule j) +:+ ")"]
     ++ (if is_system j then ["  Purpose: " +:+ system_job_purpose j; "  Protected: visible for inspection, but cannot be removed."] else [])
     ++ format_state (job_state j) (schedule j)).

Definition listing (js : list CronJob) : string :=
  match js with [] => "No scheduled jobs." | _ => "Scheduled jobs:" +:+ String nl (join (String nl "") (job_lines <$> js)) end.

(** The schedule the parameters ask for, and whether the job goes after its run. *)
Definition schedule_for (every : option Z) (expr tz at_str : option string) : result (CronSchedule * bool) string :=
  match every with
  | Some sec => Ok (mkSchedule Every None (Some (wrap_i64 (sec * 1000))) None None, false)
  | None =>
      match expr with
      | Some expr =>
          let effective := default default_timezone tz in
          match validate_timezone effective with
          | Some e => Err e
          | None => Ok (mkSchedule Cron None None (Some expr) (Some effective), false)
          end
      | None =>
          match at_str with
          | Some text =>
              match parse_at text with
              | Some ms => Ok (mkSchedule At (Some ms) None None None, true)
              | None => Err ("Error: invalid ISO datetime format '" +:+ text +:+ "'. Expected YYYY-MM-DDTHH:MM:SS")
              end
          | None => Err "Error: either every_seconds, cron_expr, or at is required"
          end
      end
  end.

(** What is asked of the service, or what is answered without asking it. *)
Definition plan_add (ctx : CronContext) (params : json) : result (CronSchedule * AddArgs) string :=
  let message := trim (default "" (get_str "message" params)) in
  let name := default (take_chars 30 message) (get_str "name" params) in
  let deliver := default true (jget "deliver" params ≫= as_bool) in
  let every := (jget "every_seconds" params ≫= as_i64) ≫= λ s, if (0 <? s)%Z then Some s else None in
  let expr := get_str "cron_expr" params in
  let tz := get_str "tz" params in
  if cc_in_cron ctx then Err "Error: cannot schedule new jobs from within a cron job execution"
  else if is_empty message then Err "Error: cron action='add' requires a non-empty 'message' parameter"
  else if is_empty (cc_channel ctx) || is_empty (cc_chat_id ctx) then Err "Error: no session context (channel/chat_id)"
  else
    match tz, expr with
    | Some _, None => Err "Error: tz can only be used with cron_expr"
    | _, _ =>
        match tz ≫= validate_timezone with
        | Some e => Err e
        | None =>
            let? (sch, once) := schedule_for every expr tz (get_str "at" params) in
            Ok (sch, mkAddArgs name message deliver (Some (cc_channel ctx)) (Some (cc_chat_id ctx)) once None None)
        end
    end.

Definition error_text (e : CronError) : string :=
  match e with
  | TzOnNonCron => "tz can only be used with cron schedules"
  | UnknownTimezone tz => "unknown timezone '" +:+ tz +:+ "'"
  | BadCronExpr x => "invalid cron expression '" +:+ x +:+ "'"
  end.

Definition added_text (r : result CronJob CronError) : string :=
  match r with
  | Ok j => "Created job '" +:+ job_name j +:+ "' (id: " +:+ job_id j +:+ ")"
  | Err e => "Error: " +:+ error_text e
  end.

Definition removed_text (id : string) (r : RemoveOutcome) : string :=
  match r with
  | Removed => "Removed job " +:+ id
  | RemoveProtected => "Cannot remove job `" +:+ id +:+ "`. This is a protected system-managed cron job."
  | RemoveNotFound => "Job " +:+ id +:+ " not found"
  end.

(** One call of the tool; [uuid] is drawn for a new job. *)
Definition cron_call (ctx : CronContext) (uuid : string) (now : Z) (params : json) (s : Svc) : Svc * json :=
  let action := default "" (get_str "action" params) in
  if String.eqb action "add" then
    match plan_add ctx params with
    | Err e => (s, JStr e)
    | Ok (sch, a) => let '(s, r) := add_job E s uuid sch a now in (s, JStr (added_text r))
    end
  else if String.eqb action "list" then let '(s, js) := list_jobs E s false in (s, JStr (listing js))
  else if String.eqb action "remove" then
    match get_str "job_id" params with
    | None => (s, JStr "Error: job_id is required for remove")
    | Some id => let '(s, r) := remove_job E s id now in (s, JStr (removed_text id r))
    end
  else (s, JStr ("Unknown action: " +:+ action)).

(** ** On the map of jobs *)

(** What a call means: the map it leaves and what it may answer. *)
Definition call_spec (ctx : CronContext) (uuid : string) (now : Z) (params : json) (m m' : gmap string CronJob) (reply : json) : Prop :=
  let action := default "" (get_str "action" params) in
  if String.eqb action "add" then
    match plan_add ctx params with
    | Err e => m' = m ∧ reply = JStr e
    | Ok (sch, a) =>
        match validate_schedule_for_add E sch with
        | Err e => m' = m ∧ reply = JStr (added_text (Err e))
        | Ok _ => m' = <[uuid := new_job E uuid sch a now]> m ∧ reply = JStr (added_text (Ok (new_job E uuid sch a now)))
        end
    end
  else if String.eqb action "list" then
    m' = m ∧ ∃ js, reply = JStr (listing js) ∧ Sorted by_key js ∧ js ≡ₚ retain enabled ((map_to_list m).*2)
  else if String.eqb action "remove" then
    match get_str "job_id" params with
    | None => m' = m ∧ reply = JStr "Error: job_id is required for remove"
    | Some id =>
        match m !! id with
        | None => m' = m ∧ reply = JStr (removed_text id RemoveNotFound)
        | Some j => if is_system j then m' = m ∧ reply = JStr (removed_text id RemoveProtected)
                    else m' = delete id m ∧ reply = JStr (removed_text id Removed)
        end
    end
  else m' = m ∧ reply = JStr ("Unknown action: " +:+ action).

Context `{!CronEnvLaws E}.

Lemma list_jobs_listed s m :
  timer_active (inner s) = false → denotes (disk s) m →
  let '(s', js) := list_jobs E s false in
  denotes (disk s') m ∧ Sorted by_key js ∧ js ≡ₚ retain enabled ((map_to_list m).*2) ∧ same_mode s s'.
Proof.
  intros Ha Hd. pose proof (list_jobs_sorted E s m false ltac:(done) Ha Hd) as H.
  destruct (load_store_ready E s m Ha Hd) as [st Hr%ready_mode]. unfold list_jobs in *. destruct H as (H1 & H2 & H3). by split_and!.
Qed.

End Tool.


(** Milliseconds are computed without a check: a large interval wraps to a negative one and the
    job is created and never due. *)
Example interval_wraps :
  schedule_for minute_env "UTC" (λ _, None) (Some 9223372036854776%Z) None None None
    = Ok (mkSchedule Every None (Some (-9223372036854775616)%Z) None None, false)
  ∧ compute_next_run minute_env (mkSchedule Every None (Some (-9223372036854775616)%Z) None None) 0 = None.
Proof. vm_compute. done. Qed.
