(* ===== verification/Anthropic.v ===== *)
(** * The client of the Anthropic messages service

    [crates/providers/src/anthropic_provider.rs]: chat messages of the OpenAI form become the
    content blocks of the service, a request is built, sent, and its answer read back, whole or
    as a stream of events.  The HTTP client is a parameter: what it does with a body is the
    result of [send]; so are the regular expressions and the JSON text format. *)

From S2P Require Import Prelude RustStr F64 Json Provider Retry Utf8.

Local Open Scope stdpp_scope.

Record AnthropicConfig := mkAnthropicConfig {
  an_api_key : option string;
  an_api_base : option string;
  an_default_model : string;
  an_extra_headers : list (string * string);
  an_api_version : string;
  an_timeout : Z;
  an_supports_caching : bool
}.

Definition DEFAULT_API_VERSION : string := "2023-06-01".

Definition anthropic_config (default_model : string) : AnthropicConfig :=
  mkAnthropicConfig None None default_model [] DEFAULT_API_VERSION 120 true.

Definition effective_base (cfg : AnthropicConfig) : string :=
  default "https://api.anthropic.com" (an_api_base cfg).

Definition endpoint (cfg : AnthropicConfig) : string :=
  trim_end_char "/" (effective_base cfg) +:+ "/messages".

(** [AnthropicProvider::strip_prefix]. *)
Definition strip_model_prefix (model : string) : string :=
  default model (strip_prefix "anthropic/" model).

(** ** Content blocks *)

Definition text_block (text : string) : json := JObj [("type", JStr "text"); ("text", JStr text)].

Definition tool_use_block (id name : string) (input : json) : json :=
  JObj [("type", JStr "tool_use"); ("id", JStr id); ("name", JStr name); ("input", input)].

Definition thinking_block (thinking signature : string) : json :=
  JObj [("type", JStr "thinking"); ("thinking", JStr thinking); ("signature", JStr signature)].

Definition wire_message (role : string) (content : json) : json :=
  JObj [("role", JStr role); ("content", content)].

(** The blocks of thinking in either direction keep the two texts. *)
Definition copy_thinking (b : json) : json :=
  thinking_block (default "" (get_str "thinking" b)) (default "" (get_str "signature" b)).

Definition DATA_URL_RE : string := "^data:(image/\w+);base64,(.+)$".

Section Convert.
(** Printing and parsing of JSON, the captures of a regular expression, fresh identifiers. *)
Variable to_string : json → string.
Variable from_str : string → option json.
Variable captures : string → string → option (option string * option string).
Variable gen_tool_id : nat → string.

Definition convert_image_block (block : json) : option json :=
  url ← jget "image_url" block ≫= get_str "url";
  if is_empty url then None
  else
    match captures DATA_URL_RE url with
    | Some (Some mime, Some data) =>
        Some (JObj [("type", JStr "image");
                    ("source", JObj [("type", JStr "base64"); ("media_type", JStr mime); ("data", JStr data)])])
    | _ => Some (JObj [("type", JStr "image"); ("source", JObj [("type", JStr "url"); ("url", JStr url)])])
    end.

Definition convert_user_item (item : json) : option json :=
  match item with
  | JObj obj =>
      if bool_decide (map_get "type" obj ≫= as_str = Some "image_url") then convert_image_block item
      else Some item
  | _ => Some (text_block (to_string item))
  end.

Definition convert_user_content (content : json) : json :=
  match content with
  | JNull => JStr "(empty)"
  | JStr s => if is_empty s then JStr "(empty)" else JStr s
  | JArr items =>
      match filter_map convert_user_item items with
      | [] => JStr "(empty)"
      | out => JArr out
      end
  | other => JStr (to_string other)
  end.

Definition tool_result_block (msg : json) : json :=
  let content_value :=
    match default JNull (jget "content" msg) with
    | JStr s => JStr s
    | JNull => JStr ""
    | other => convert_user_content other
    end in
  JObj [("type", JStr "tool_result"); ("tool_use_id", JStr (default "" (get_str "tool_call_id" msg)));
        ("content", content_value)].

Definition thinking_part (msg : json) : list json :=
  copy_thinking <$> retain (str_field_is "type" "thinking") (default [] (get_array "thinking_blocks" msg)).

Definition assistant_item (item : json) : option json :=
  match item with
  | JObj _ => Some item
  | JStr s => Some (text_block s)
  | _ => None
  end.

Definition text_part (msg : json) : list json :=
  match jget "content" msg with
  | Some (JStr s) => if is_empty s then [] else [text_block s]
  | Some (JArr arr) => filter_map assistant_item arr
  | _ => []
  end.

(** One call; [n] counts the identifiers made so far. *)
Definition convert_call (n : nat) (tc : json) : json * nat :=
  let func := default (JObj []) (jget "function" tc) in
  let args := match default (JObj []) (jget "arguments" func) with
              | JStr s => default (JObj []) (from_str s)
              | JObj m => JObj m
              | _ => JObj []
              end in
  let '(id, n) := match get_str "id" tc with Some id => (id, n) | None => (gen_tool_id n, S n) end in
  (tool_use_block id (default "" (get_str "name" func)) args, n).

Fixpoint convert_calls (n : nat) (tcs : list json) : list json * nat :=
  match tcs with
  | [] => ([], n)
  | tc :: tcs =>
      let '(b, n) := convert_call n tc in
      let '(bs, n) := convert_calls n tcs in
      (b :: bs, n)
  end.

Definition assistant_blocks (n : nat) (msg : json) : list json * nat :=
  let '(calls, n) := convert_calls n (default [] (get_array "tool_calls" msg)) in
  match thinking_part msg ++ text_part msg ++ calls with
  | [] => ([text_block ""], n)
  | blocks => (blocks, n)
  end.

(** ** Messages *)

Record Conversion := mkConversion {
  cv_system : json;
  (** newest first *)
  cv_raw : list json;
  cv_ids : nat
}.

(** A result joins the user message it follows. *)
Definition push_tool_result (raw : list json) (block : json) : list json :=
  match raw with
  | last :: older =>
      if str_field_is "role" "user" last then
        (match jget "content" last with
         | Some (JArr arr) => set_field "content" (JArr (arr ++ [block])) last
         | other => set_field "content" (JArr [text_block (default "" (other ≫= as_str)); block]) last
         end) :: older
      else wire_message "user" (JArr [block]) :: raw
  | [] => [wire_message "user" (JArr [block])]
  end.

Definition convert_message (cv : Conversion) (msg : json) : Conversion :=
  let content := default JNull (jget "content" msg) in
  let role := role_of msg in
  if String.eqb role "system" then
    mkConversion (match content with
                  | JStr _ | JArr _ => content
                  | JNull => JStr ""
                  | other => JStr (to_string other)
                  end) (cv_raw cv) (cv_ids cv)
  else if String.eqb role "tool" then
    mkConversion (cv_system cv) (push_tool_result (cv_raw cv) (tool_result_block msg)) (cv_ids cv)
  else if String.eqb role "assistant" then
    let '(blocks, n) := assistant_blocks (cv_ids cv) msg in
    mkConversion (cv_system cv) (wire_message "assistant" (JArr blocks) :: cv_raw cv) n
  else if String.eqb role "user" then
    mkConversion (cv_system cv) (wire_message "user" (convert_user_content content) :: cv_raw cv) (cv_ids cv)
  else cv.

Definition has_tool_use (msg : json) : bool :=
  match get_array "content" msg with
  | Some arr => existsb (str_field_is "type" "tool_use") arr
  | None => false
  end.

(** Content as blocks. *)
Definition as_blocks (content : json) : list json :=
  match content with
  | JArr a => a
  | JStr s => [text_block s]
  | JNull => []
  | other => [text_block (to_string other)]
  end.

Definition merge_wire (merged : list json) (msg : json) : list json :=
  match merged with
  | last :: older =>
      if bool_decide (get_str "role" last = Some (role_of msg)) then
        set_field "content" (JArr (as_blocks (default JNull (jget "content" last)) ++
                                   as_blocks (default JNull (jget "content" msg)))) last :: older
      else msg :: merged
  | [] => [msg]
  end.

(** The popped answer returns as a user message when nothing else is left. *)
Definition recover_last (merged : list json) (popped : option json) : list json :=
  match popped with
  | Some p =>
      if bool_decide (merged = []) && negb (has_tool_use p)
      then [wire_message "user" (default JNull (jget "content" p))] else merged
  | None => merged
  end.

Definition continue_first (merged : list json) : list json :=
  match merged with
  | first :: _ =>
      if str_field_is "role" "assistant" first && negb (has_tool_use first)
      then wire_message "user" (JStr "(conversation continued)") :: merged else merged
  | [] => []
  end.

Definition merge_consecutive (msgs : list json) : list json :=
  let '(merged, popped) := pop_trailing (foldl merge_wire [] msgs) None in
  continue_first (reverse (recover_last merged popped)).

Definition convert_messages (messages : list json) : json * list json :=
  let cv := foldl convert_message (mkConversion (JStr "") [] 0) messages in
  (cv_system cv, merge_consecutive (reverse (cv_raw cv))).

(** ** Tools *)

Definition convert_tool (t : json) : json :=
  let func := default t (jget "function" t) in
  let entry := [("name", JStr (default "" (get_str "name" func)));
                ("input_schema", default (JObj [("type", JStr "object"); ("properties", JObj [])])
                                   (jget "parameters" func))] in
  let entry := match get_str "description" func with
               | Some d => map_insert "description" (JStr d) entry
               | None => entry
               end in
  JObj (match jget "cache_control" t with
        | Some cc => map_insert "cache_control" cc entry
        | None => entry
        end).

Definition convert_tools (tools : option (list json)) : option (list json) :=
  match tools with
  | None | Some [] => None
  | Some tools => Some (convert_tool <$> tools)
  end.

Definition choice_type (ty : string) : json := JObj [("type", JStr ty)].

Definition convert_tool_choice (tc : option ToolChoice) (thinking_enabled : bool) : option json :=
  if thinking_enabled then Some (choice_type "auto")
  else
    match tc with
    | None | Some ChoiceAuto => Some (choice_type "auto")
    | Some ChoiceRequired => Some (choice_type "any")
    | Some ChoiceNone => None
    | Some (ChoiceSpecific v) =>
        let name := default "" (jget "function" v ≫= get_str "name") in
        if is_empty name then Some (choice_type "auto")
        else Some (JObj [("type", JStr "tool"); ("name", JStr name)])
    end.

(** ** Cache markers *)

Definition marker : json := JObj [("type", JStr "ephemeral")].

Definition marked_text (s : string) : json :=
  JObj [("type", JStr "text"); ("text", JStr s); ("cache_control", marker)].

(** The last element, when it is an object, gets the marker. *)
Fixpoint mark_last (arr : list json) : list json :=
  match arr with
  | [] => []
  | [b] => [set_field "cache_control" marker b]
  | b :: arr => b :: mark_last arr
  end.

Definition mark_system (system : json) : json :=
  match system with
  | JStr s => if is_empty s then system else JArr [marked_text s]
  | JArr arr => JArr (mark_last arr)
  | other => other
  end.

Definition mark_message (msg : json) : json :=
  match jget "content" msg with
  | Some (JStr s) => set_field "content" (JArr [marked_text s]) msg
  | Some (JArr (b :: arr)) => set_field "content" (JArr (mark_last (b :: arr))) msg
  | _ => msg
  end.

(** The indices of [tool_cache_marker_indices] are those of the base module's function. *)
Definition mark_tools (tools : list json) : list json :=
  foldl (λ t i, alter (set_field "cache_control" marker) i t) tools (tool_cache_marker_indices tools).

Definition apply_cache_control (system : json) (messages : list json) (tools : option (list json))
    : json * list json * option (list json) :=
  (mark_system system,
   if 3 <=? length messages then alter mark_message (length messages - 2) messages else messages,
   mark_tools <$> tools).

(** ** Requests *)

(** [json!(t as f64)]: a value that is not finite prints as null. *)
Definition json_f64 (x : f64) : json := if f64_is_finite x then JFloat x else JNull.
Definition f64_one : f64 := f64_of_Z 1.

Definition thinking_budget (effort : option string) (max_tokens : Z) : Z :=
  match effort with
  | Some "low" => 1024
  | Some "medium" => 4096
  | Some "high" => Z.max 8192 max_tokens
  | _ => 4096
  end.

(** The members [system], [thinking] and [temperature]; the sum of [u32] values wraps. *)
Definition with_system (system : json) (body : list (string * json)) : list (string * json) :=
  match system with
  | JStr "" => body
  | JNull => body
  | v => map_insert "system" v body
  end.

Definition with_thinking (req : ChatRequest) (max_tokens : Z) (body : list (string * json))
    : list (string * json) :=
  let reasoning := to_ascii_lowercase <$> rq_reasoning_effort req in
  if bool_decide (reasoning = Some "adaptive") then
    map_insert "temperature" (JFloat f64_one) (map_insert "thinking" (choice_type "adaptive") body)
  else
    match rq_reasoning_effort req with
    | Some _ =>
        let budget := thinking_budget reasoning max_tokens in
        let body := map_insert "thinking" (JObj [("type", JStr "enabled"); ("budget_tokens", JInt budget)]) body in
        let body := map_insert "max_tokens" (JInt (Z.max max_tokens (wrap_u32 (budget + 4096)))) body in
        map_insert "temperature" (JFloat f64_one) body
    | None => map_insert "temperature" (json_f64 (rq_temperature req)) body
    end.

Definition with_tools (req : ChatRequest) (tools : option (list json)) (body : list (string * json))
    : list (string * json) :=
  match tools with
  | None | Some [] => body
  | Some tools =>
      let body := map_insert "tools" (JArr tools) body in
      match convert_tool_choice (rq_tool_choice req)
              (match rq_reasoning_effort req with Some _ => true | None => false end) with
      | Some tc => map_insert "tool_choice" tc body
      | None => body
      end
  end.

Definition build_body (cfg : AnthropicConfig) (req : ChatRequest) : json :=
  let model := strip_model_prefix (default (an_default_model cfg) (rq_model req)) in
  let '(system, msgs) := convert_messages (sanitize_empty_content (rq_messages req)) in
  let tools := convert_tools (rq_tools req) in
  let '(system, msgs, tools) :=
    if an_supports_caching cfg then apply_cache_control system msgs tools else (system, msgs, tools) in
  let max_tokens := Z.max (rq_max_tokens req) 1 in
  let body := [("model", JStr model); ("messages", JArr msgs); ("max_tokens", JInt max_tokens)] in
  JObj (with_tools req tools (with_thinking req max_tokens (with_system system body))).
End Convert.

(** ** Responses *)

Definition usage_insert (k : string) (z : Z) (u : list (string * Z)) : list (string * Z) :=
  (k, z) :: retain (λ kv, negb (String.eqb kv.1 k)) u.

Record Answer := mkAnswer {
  content_parts : list string;
  an_tool_calls : list ToolCallRequest;
  an_thinking : list json;
  an_finish : string;
  an_usage : list (string * Z)
}.

Definition push_text (t : string) (a : Answer) : Answer :=
  mkAnswer (content_parts a ++ [t]) (an_tool_calls a) (an_thinking a) (an_finish a) (an_usage a).

Definition push_call (tc : ToolCallRequest) (a : Answer) : Answer :=
  mkAnswer (content_parts a) (an_tool_calls a ++ [tc]) (an_thinking a) (an_finish a) (an_usage a).

Definition set_thinking (tbs : list json) (a : Answer) : Answer :=
  mkAnswer (content_parts a) (an_tool_calls a) tbs (an_finish a) (an_usage a).

Definition set_finish (reason : string) (a : Answer) : Answer :=
  mkAnswer (content_parts a) (an_tool_calls a) (an_thinking a) reason (an_usage a).

Definition set_usage (u : list (string * Z)) (a : Answer) : Answer :=
  mkAnswer (content_parts a) (an_tool_calls a) (an_thinking a) (an_finish a) u.

Definition call_of_block (block : json) : ToolCallRequest :=
  mkToolCall (default "" (get_str "id" block)) (default "" (get_str "name" block))
    (match default (JObj []) (jget "input" block) with JObj m => m | _ => [] end) None None None.

Definition read_block (a : Answer) (block : json) : Answer :=
  let ty := default "" (get_str "type" block) in
  if String.eqb ty "text" then
    match get_str "text" block with Some t => push_text t a | None => a end
  else if String.eqb ty "tool_use" then push_call (call_of_block block) a
  else if String.eqb ty "thinking" then set_thinking (an_thinking a ++ [copy_thinking block]) a
  else a.

Definition finish_of (stop_reason : string) : string :=
  match stop_reason with
  | "tool_use" => "tool_calls"
  | "end_turn" => "stop"
  | "max_tokens" => "length"
  | other => other
  end.

Definition tokens_of (k : string) (u : json) : Z := default 0%Z (jget k u ≫= as_i64).

(** The cache counters are inserted when positive. *)
Definition with_cache_usage (creation read : Z) (u : list (string * Z)) : list (string * Z) :=
  let u := if (0 <? creation)%Z then usage_insert "cache_creation_input_tokens" creation u else u in
  if (0 <? read)%Z
  then usage_insert "cached_tokens" read (usage_insert "cache_read_input_tokens" read u) else u.

Definition total_prompt (u : json) : Z :=
  wrap_i64 (wrap_i64 (tokens_of "input_tokens" u + tokens_of "cache_creation_input_tokens" u) +
            tokens_of "cache_read_input_tokens" u).

Definition read_usage (u : json) : list (string * Z) :=
  let output := tokens_of "output_tokens" u in
  with_cache_usage (tokens_of "cache_creation_input_tokens" u) (tokens_of "cache_read_input_tokens" u)
    [("prompt_tokens", total_prompt u); ("completion_tokens", output);
     ("total_tokens", wrap_i64 (total_prompt u + output))].

Definition answer_response (a : Answer) : LLMResponse :=
  mkResponse (match content_parts a with [] => None | ps => Some (join "" ps) end) (an_tool_calls a)
    (an_finish a) (an_usage a) None None
    (match an_thinking a with [] => None | tbs => Some tbs end) None None None None None None.

Definition parse_response (body : json) : LLMResponse :=
  let a := foldl read_block (mkAnswer [] [] [] "stop" []) (default [] (get_array "content" body)) in
  let a := set_finish (finish_of (default "stop" (get_str "stop_reason" body))) a in
  answer_response (set_usage (match jget "usage" body with
                              | Some (JObj u) => read_usage (JObj u)
                              | _ => []
                              end) a).

Definition retry_flag (s : string) : option bool :=
  if String.eqb s "true" then Some true else if String.eqb s "false" then Some false else None.

(** Headers as [headers.get(name).and_then(|v| v.to_str().ok())]. *)
Definition parse_error_response (captures : string → string → option (option string * option string))
    (from_str : string → option json) (status : Z) (headers : string → option string)
    (payload : string) : LLMResponse :=
  let msg := if is_empty (trim payload) then "Error calling LLM: HTTP " +:+ pretty status
             else "Error: " +:+ take_chars 500 (trim payload) in
  let obj := (from_str payload ≫= jget "error") ≫= as_object in
  let field k := to_ascii_lowercase <$> (obj ≫= λ o, map_get k o ≫= as_str) in
  let retry_after := match headers "retry-after" ≫= parse_f64 with
                     | Some v => Some v
                     | None => extract_retry_after_from_text captures (Some msg)
                     end in
  let should_retry := headers "x-should-retry" ≫= λ s, retry_flag (to_ascii_lowercase (trim s)) in
  mkResponse (Some msg) [] "error" [] retry_after None None (Some status) None (field "type") (field "code")
    retry_after should_retry.

(** ** Calls *)

(** What the stream of an answer yields, in order; its end is the end of the list. *)
Inductive StreamItem :=
| Chunk (bytes : string)
| ReadError (msg : string)
| Stalled.

Record HttpResponse := mkHttp {
  h_status : Z;
  h_headers : string → option string;
  h_text : result string string;
  h_stream : list StreamItem
}.

(** An error of the client: its text, [is_timeout] and [is_connect]. *)
Inductive Sent :=
| SendFailed (msg : string) (timeout connect : bool)
| Received (resp : HttpResponse).

Definition http_success (status : Z) : bool := ((200 <=? status) && (status <? 300))%Z.

Definition failed_response (msg : string) (kind : option string) : LLMResponse :=
  mkResponse (Some msg) [] "error" [] None None None None kind None None None None.

Definition send_failure (msg : string) (timeout connect : bool) : LLMResponse :=
  failed_response ("Error calling LLM: " +:+ msg)
    (if timeout then Some "timeout" else if connect then Some "connection" else None).

(** *** Events of a stream *)

Record StreamState := mkStream {
  ss_answer : Answer;
  (** what the callbacks were given, where there are any *)
  ss_deltas : list Delta;
  event_data : string;
  event_type : option string
}.

Definition on_answer (f : Answer → Answer) (st : StreamState) : StreamState :=
  mkStream (f (ss_answer st)) (ss_deltas st) (event_data st) (event_type st).

Definition emit (d : Delta) (st : StreamState) : StreamState :=
  mkStream (ss_answer st) (ss_deltas st ++ [d]) (event_data st) (event_type st).

Definition block_start (value : json) (st : StreamState) : StreamState :=
  match jget "content_block" value with
  | Some block =>
      match get_str "type" block with
      | Some "text" =>
          match get_str "text" block with
          | Some t => if is_empty t then st else on_answer (push_text t) st
          | None => st
          end
      | Some "tool_use" =>
          let tc := call_of_block block in
          emit (ToolCallDelta (JObj [("call_id", JStr (tc_id tc)); ("name", JStr (tc_name tc));
                                     ("arguments_delta", JStr "")]))
            (on_answer (push_call tc) st)
      | Some "thinking" => on_answer (λ a, set_thinking (an_thinking a ++ [copy_thinking block]) a) st
      | _ => st
      end
  | None => st
  end.

(** The text is appended to the last block of thinking. *)
Fixpoint extend_last (text : string) (tbs : list json) : list json :=
  match tbs with
  | [] => []
  | [tb] => [set_field "thinking" (JStr (default "" (get_str "thinking" tb) +:+ text)) tb]
  | tb :: tbs => tb :: extend_last text tbs
  end.

Definition block_delta (value : json) (st : StreamState) : StreamState :=
  match jget "delta" value with
  | Some delta =>
      match get_str "type" delta with
      | Some "text_delta" =>
          match get_str "text" delta with
          | Some t => if is_empty t then st else emit (TextDelta t) st
          | None => st
          end
      | Some "input_json_delta" =>
          match get_str "partial_json" delta with
          | Some p => emit (ToolCallDelta (JObj [("arguments_delta", JStr p)])) st
          | None => st
          end
      | Some "thinking_delta" =>
          match get_str "thinking" delta with
          | Some t => on_answer (λ a, set_thinking (extend_last t (an_thinking a)) a) st
          | None => st
          end
      | _ => st
      end
  | None => st
  end.

Definition message_delta (value : json) (st : StreamState) : StreamState :=
  let st := match jget "delta" value ≫= get_str "stop_reason" with
            | Some r => on_answer (set_finish (finish_of r)) st
            | None => st
            end in
  match (jget "usage" value ≫= jget "output_tokens") ≫= as_i64 with
  | Some z => on_answer (λ a, set_usage (usage_insert "completion_tokens" z (an_usage a)) a) st
  | None => st
  end.

Definition message_start (value : json) (st : StreamState) : StreamState :=
  match jget "message" value ≫= jget "usage" with
  | Some u =>
      on_answer (λ a, set_usage
        (with_cache_usage (tokens_of "cache_creation_input_tokens" u) (tokens_of "cache_read_input_tokens" u)
           (usage_insert "total_tokens" (total_prompt u)
              (usage_insert "prompt_tokens" (total_prompt u) (an_usage a)))) a) st
  | None => st
  end.

Section Calls.
Variable to_string : json → string.
Variable from_str : string → option json.
Variable captures : string → string → option (option string * option string).
Variable gen_tool_id : nat → string.
Variable cfg : AnthropicConfig.
(** The number of seconds read from the environment, ninety by default. *)
Variable idle_timeout_s : Z.
Context {S : Type}.
(** [send] posts a body to the endpoint with the configured headers. *)
Variable send : S → json → S * Sent.

Definition process_sse_event (ty data : string) (st : StreamState) : StreamState :=
  match from_str data with
  | Some value =>
      match ty with
      | "content_block_start" => block_start value st
      | "content_block_delta" => block_delta value st
      | "message_delta" => message_delta value st
      | "message_start" => message_start value st
      | _ => st
      end
  | None => st
  end.

Definition flush_event (st : StreamState) : StreamState :=
  match event_type st with
  | Some ty => process_sse_event ty (event_data st) st
  | None => st
  end.

Definition stream_line (st : StreamState) (line : string) : StreamState :=
  let line := trim line in
  if is_empty line then
    if is_empty (event_data st) then st
    else let st := flush_event st in mkStream (ss_answer st) (ss_deltas st) "" None
  else
    match strip_prefix "event: " line with
    | Some ty => mkStream (ss_answer st) (ss_deltas st) (event_data st) (Some ty)
    | None =>
        match strip_prefix "data: " line with
        | Some d => mkStream (ss_answer st) (ss_deltas st) (event_data st +:+ d) (event_type st)
        | None => st
        end
    end.

Fixpoint read_stream (items : list StreamItem) (st : StreamState) : LLMResponse * list Delta :=
  match items with
  | Chunk bytes :: items => read_stream items (foldl stream_line st (lines (from_utf8_lossy bytes)))
  | ReadError e :: _ => (failed_response ("Error reading stream: " +:+ e) (Some "connection"), ss_deltas st)
  | Stalled :: _ =>
      (failed_response ("Error calling LLM: stream stalled for more than " +:+ pretty idle_timeout_s +:+ " seconds")
         (Some "timeout"), ss_deltas st)
  | [] =>
      let st := if is_empty (event_data st) then st else flush_event st in
      (answer_response (ss_answer st), ss_deltas st)
  end.

Definition stream_init : StreamState := mkStream (mkAnswer [] [] [] "stop" []) [] "" None.

Definition anthropic_chat (s : S) (req : ChatRequest) : S * LLMResponse :=
  let '(s, sent) := send s (build_body to_string from_str captures gen_tool_id cfg req) in
  (s, match sent with
      | SendFailed msg timeout connect => send_failure msg timeout connect
      | Received resp =>
          if negb (http_success (h_status resp)) then
            parse_error_response captures from_str (h_status resp) (h_headers resp)
              (match h_text resp with Ok t => t | Err _ => "" end)
          else
            match h_text resp with
            | Err e => error_response ("Error reading body: " +:+ e)
            | Ok text =>
                match from_str text with
                | None => error_response ("Error: malformed JSON: " +:+ text)
                | Some value => parse_response value
                end
            end
      end).

Definition anthropic_chat_stream (s : S) (req : ChatRequest) : S * LLMResponse * list Delta :=
  let body := set_field "stream" (JBool true) (build_body to_string from_str captures gen_tool_id cfg req) in
  let '(s, sent) := send s body in
  match sent with
  | SendFailed msg timeout connect => (s, send_failure msg timeout connect, [])
  | Received resp =>
      if negb (http_success (h_status resp)) then
        (s, parse_error_response captures from_str (h_status resp) (h_headers resp)
              (match h_text resp with Ok t => t | Err _ => "" end), [])
      else let '(r, ds) := read_stream (h_stream resp) stream_init in (s, r, ds)
  end.

(** The implementation of the provider trait. *)
Definition anthropic_provider (g : GenerationSettings) : LLMProvider S :=
  mkProvider (an_default_model cfg) g anthropic_chat anthropic_chat_stream.
End Calls.
