(* ===== verification/AnthropicProps.v ===== *)
(** * The Anthropic client: its theorems

    What is sent alternates between user and assistant, starts and ends as the service demands
    and holds every block of the conversation in order; an answer that is stored and sent again
    is the same answer; what a stream leaves out. *)

From S2P Require Import Prelude RustStr F64 Json Messages Provider Retry Utf8 Anthropic.

Local Open Scope stdpp_scope.

(** ** Messages on the wire *)

Definition wire (m : json) : Prop :=
  ∃ r c, m = wire_message r c ∧ (r = "user" ∨ r = "assistant").

Definition in_turns (l : list json) : Prop :=
  ∀ l1 a b l2, l = l1 ++ a :: b :: l2 → role_of a ≠ role_of b.

Lemma in_turns_nil : in_turns [].
Proof. intros [|??] a b l2; discriminate. Qed.

Lemma in_turns_one m : in_turns [m].
Proof. intros [|? [|??]] a b l2; discriminate. Qed.

Lemma in_turns_cons a l :
  in_turns (a :: l) ↔ in_turns l ∧ ∀ b l2, l = b :: l2 → role_of a ≠ role_of b.
Proof.
  split.
  - intros H. split; [intros l1 x y l2 ->; apply (H (a :: l1) x y l2); done|].
    intros b l2 ->. by apply (H [] a b l2).
  - intros [H1 H2] [|x l1] b c l2 E; simplify_eq/=; [by eapply H2|by eapply H1].
Qed.

Lemma in_turns_reverse l : in_turns l → in_turns (reverse l).
Proof.
  intros H l1 a b l2 E. apply (f_equal reverse) in E. rewrite reverse_involutive in E.
  rewrite reverse_app, !reverse_cons, <-!app_assoc in E. cbn in E. intros Hr. by eapply H.
Qed.

Lemma wire_role r c : role_of (wire_message r c) = r.
Proof. done. Qed.

Lemma wire_get_role r c : get_str "role" (wire_message r c) = Some r.
Proof. done. Qed.

Section ConvertFacts.
Variable to_string : json → string.
Variable from_str : string → option json.
Variable captures : string → string → option (option string * option string).
Variable gen_tool_id : nat → string.

Local Abbreviation convert_message := (convert_message to_string from_str captures gen_tool_id).
Local Abbreviation convert_messages := (convert_messages to_string from_str captures gen_tool_id).
Local Abbreviation merge_wire := (merge_wire to_string).
Local Abbreviation as_blocks := (as_blocks to_string).

Definition wire_blocks (m : json) : list json := as_blocks (default JNull (jget "content" m)).

(** The blocks of messages kept newest first, oldest block first. *)
Fixpoint flat (l : list json) : list json :=
  match l with [] => [] | m :: l => flat l ++ wire_blocks m end.

Lemma flat_reverse l : flat l = reverse l ≫= wire_blocks.
Proof.
  induction l as [|m l IH]; [done|]. rewrite reverse_cons, bind_app, <-IH. cbn. by rewrite app_nil_r.
Qed.

(** The blocks a message stands for; [n] counts the identifiers made so far. *)
Definition message_blocks (n : nat) (msg : json) : list json :=
  if String.eqb (role_of msg) "tool" then [tool_result_block to_string captures msg]
  else if String.eqb (role_of msg) "assistant" then (assistant_blocks from_str gen_tool_id n msg).1
  else if String.eqb (role_of msg) "user" then
    as_blocks (convert_user_content to_string captures (default JNull (jget "content" msg)))
  else [].

Definition ids_after (n : nat) (msg : json) : nat :=
  if String.eqb (role_of msg) "assistant" then (assistant_blocks from_str gen_tool_id n msg).2 else n.

Fixpoint all_blocks (n : nat) (msgs : list json) : list json :=
  match msgs with
  | [] => []
  | m :: msgs => message_blocks n m ++ all_blocks (ids_after n m) msgs
  end.

(** *** The first pass *)

Lemma convert_user_content_shape c :
  (∃ s, convert_user_content to_string captures c = JStr s) ∨
  (∃ l, convert_user_content to_string captures c = JArr l).
Proof. destruct c; cbn; repeat case_match; eauto. Qed.

Definition text_or_blocks (m : json) : Prop :=
  (∃ s, jget "content" m = Some (JStr s)) ∨ (∃ l, jget "content" m = Some (JArr l)).

Lemma push_tool_result_spec raw b :
  Forall wire raw → Forall text_or_blocks raw →
  Forall wire (push_tool_result raw b) ∧ Forall text_or_blocks (push_tool_result raw b) ∧
  flat (push_tool_result raw b) = flat raw ++ [b] ∧
  ∃ m older, push_tool_result raw b = m :: older ∧ role_of m = "user".
Proof.
  assert (wire (wire_message "user" (JArr [b]))) as Hw by (eexists _, _; eauto).
  assert (text_or_blocks (wire_message "user" (JArr [b]))) as Ht by (right; by eexists).
  destruct raw as [|m raw]; intros H HT; cbn [push_tool_result]; [split_and!; eauto|].
  inversion_clear H as [|?? Hm Hraw]. inversion_clear HT as [|?? Hc HTs].
  destruct Hm as (r & c & -> & Hr). unfold str_field_is. rewrite wire_get_role.
  destruct (String.eqb_spec r "user") as [->|_].
  - destruct Hc as [(s & Hs)|(l & Hl)]; cbn in *; simplify_eq/=.
    all: split_and!; [constructor; [eexists _, _; eauto|done]|constructor; [right; by eexists|done]
                     |unfold wire_blocks; cbn; by rewrite <-app_assoc|by eexists _, _].
  - assert (wire (wire_message r c)) by by eexists _, _. assert (text_or_blocks (wire_message r c)) by done.
    split_and!; eauto.
Qed.

Definition is_user_side (msg : json) : Prop := role_of msg = "user" ∨ role_of msg = "tool".

Lemma convert_message_spec cv msg :
  Forall wire (cv_raw cv) → Forall text_or_blocks (cv_raw cv) →
  Forall wire (cv_raw (convert_message cv msg)) ∧ Forall text_or_blocks (cv_raw (convert_message cv msg)) ∧
  flat (cv_raw (convert_message cv msg)) = flat (cv_raw cv) ++ message_blocks (cv_ids cv) msg ∧
  cv_ids (convert_message cv msg) = ids_after (cv_ids cv) msg ∧
  (is_user_side msg → ∃ m older, cv_raw (convert_message cv msg) = m :: older ∧ role_of m = "user").
Proof.
  intros Hw Ht. unfold is_user_side, convert_message, message_blocks, ids_after.
  destruct (String.eqb_spec (role_of msg) "system") as [->|Hs].
  { cbn. rewrite app_nil_r. split_and!; try done. by intros [?|?]. }
  destruct (String.eqb_spec (role_of msg) "tool") as [->|Htl].
  { cbn. destruct (push_tool_result_spec (cv_raw cv) (tool_result_block to_string captures msg)) as (?&?&?&?); auto. }
  destruct (String.eqb_spec (role_of msg) "assistant") as [->|Ha].
  { destruct (assistant_blocks _ _ _ _) as [bs n]. cbn. split_and!; try done.
    - constructor; [eexists _, _; eauto|done].
    - constructor; [right; by eexists|done].
    - by intros [?|?]. }
  destruct (String.eqb_spec (role_of msg) "user") as [->|Hu].
  { cbn. split_and!; try done.
    - constructor; [eexists _, _; eauto|done].
    - constructor; [|done]. unfold text_or_blocks. cbn.
      destruct (convert_user_content_shape (default JNull (jget "content" msg))) as [[? ->]|[? ->]]; eauto.
    - intros _. by eexists _, _. }
  rewrite app_nil_r. split_and!; try done. by intros [?|?].
Qed.

Lemma convert_fold cv msgs :
  Forall wire (cv_raw cv) → Forall text_or_blocks (cv_raw cv) →
  let cv' := foldl convert_message cv msgs in
  Forall wire (cv_raw cv') ∧ flat (cv_raw cv') = flat (cv_raw cv) ++ all_blocks (cv_ids cv) msgs ∧
  (∀ ms m, msgs = ms ++ [m] → is_user_side m → ∃ w older, cv_raw cv' = w :: older ∧ role_of w = "user").
Proof.
  revert cv. induction msgs as [|msg msgs IH]; intros cv Hw Ht cv'.
  { subst cv'. cbn. rewrite app_nil_r. split_and!; [done..|]. intros [|??]; discriminate. }
  destruct (convert_message_spec cv msg Hw Ht) as (Hw' & Ht' & Hf & Hn & Hu).
  destruct (IH _ Hw' Ht') as (IH1 & IH2 & IH3). subst cv'. cbn [foldl all_blocks].
  split_and!; [done| |].
  - by rewrite IH2, Hf, Hn, <-app_assoc.
  - intros [|x ms] m E Hm; simplify_eq/=; [by apply Hu|by eapply IH3].
Qed.

(** *** Merging *)

Lemma merge_wire_spec merged msg :
  Forall wire merged → wire msg → in_turns merged →
  Forall wire (merge_wire merged msg) ∧ in_turns (merge_wire merged msg) ∧
  flat (merge_wire merged msg) = flat merged ++ wire_blocks msg ∧
  ∃ m older, merge_wire merged msg = m :: older ∧ role_of m = role_of msg.
Proof.
  intros Hw Hm Ha. destruct merged as [|last older]; cbn [merge_wire].
  { split_and!; eauto using in_turns_one. }
  inversion_clear Hw as [|?? Hl Ho]. destruct Hl as (r & c & -> & Hr). rewrite wire_get_role.
  case_bool_decide as E.
  - injection E as E. split_and!.
    + constructor; [eexists _, _; eauto|done].
    + apply in_turns_cons in Ha as [Ha1 Ha2]. apply in_turns_cons. split; [done|].
      intros b l2 ->. specialize (Ha2 b l2 eq_refl). done.
    + cbn. unfold wire_blocks. cbn. by rewrite <-app_assoc.
    + eexists _, _. split; [done|]. done.
  - split_and!; [repeat constructor; [done|eexists _, _; eauto|done]| |done|by eexists _, _].
    apply in_turns_cons. split; [done|]. intros b l2 [= <- _]. rewrite wire_role. congruence.
Qed.

Lemma merge_fold msgs :
  Forall wire msgs →
  let merged := foldl merge_wire [] msgs in
  Forall wire merged ∧ in_turns merged ∧ flat merged = flat (reverse msgs) ∧
  (∀ ms m, msgs = ms ++ [m] → ∃ w older, merged = w :: older ∧ role_of w = role_of m).
Proof.
  induction msgs as [|m msgs IH] using rev_ind; intros H merged; subst merged.
  { split_and!; [done|apply in_turns_nil|done|]. intros [|??]; discriminate. }
  apply Forall_app in H as [H Hm]. apply (proj1 (Forall_singleton wire m)) in Hm.
  destruct (IH H) as (IH1 & IH2 & IH3 & _). rewrite foldl_snoc.
  destruct (merge_wire_spec _ m IH1 Hm IH2) as (? & ? & Hf & Hh). split_and!; [done..| |].
  - rewrite Hf, IH3, reverse_snoc. done.
  - intros ms x E. apply app_inj_tail in E as [_ <-]. done.
Qed.

(** *** Ends *)

(** What the service accepts. *)
Record accepted (l : list json) : Prop := {
  sv_wire : Forall wire l;
  sv_turns : in_turns l;
  sv_last : ∀ m, last l = Some m → role_of m = "user";
  sv_first : ∀ m, head l = Some m → role_of m = "user" ∨ has_tool_use m = true
}.

Lemma wire_is_assistant m : wire m → str_field_is "role" "assistant" m = negb (String.eqb (role_of m) "user").
Proof. by intros (r & c & -> & [->| ->]). Qed.

Lemma continue_first_spec l :
  Forall wire l → in_turns l → (∀ m, last l = Some m → role_of m = "user") →
  accepted (continue_first l) ∧
  ∃ pre, (pre = [] ∨ pre = [text_block "(conversation continued)"]) ∧
         continue_first l ≫= wire_blocks = pre ++ (l ≫= wire_blocks).
Proof.
  intros Hw Ha Hl. destruct l as [|m l]; cbn [continue_first].
  { split; [split; [done|apply in_turns_nil|done|done]|]. exists []. auto. }
  assert (wire m) as Hm by (by inversion Hw). rewrite (wire_is_assistant _ Hm).
  destruct (String.eqb_spec (role_of m) "user") as [Hu|Hu]; cbn [negb andb].
  { split; [split; [done..|]; intros ? [= <-]; auto|]. exists []. auto. }
  destruct (has_tool_use m) eqn:Ht; cbn [negb].
  { split; [split; [done..|]; intros ? [= <-]; auto|]. exists []. auto. }
  split; [|exists [text_block "(conversation continued)"]; auto].
  split; [constructor; [eexists _, _; eauto|done]| | |].
  - apply in_turns_cons. split; [done|]. intros b l2 [= <- _]. rewrite wire_role. congruence.
  - intros x Hx. apply Hl. by rewrite last_cons_cons in Hx.
  - intros ? [= <-]. auto.
Qed.

Lemma pop_in_turns merged :
  Forall wire merged → in_turns merged →
  (pop_trailing merged None = (merged, None) ∧ (∀ m, head merged = Some m → role_of m = "user")) ∨
  (∃ m older, merged = m :: older ∧ role_of m = "assistant" ∧ pop_trailing merged None = (older, Some m) ∧
     (∀ x, head older = Some x → role_of x = "user")).
Proof.
  intros Hw Ha. destruct merged as [|m older]; [by left|]. cbn [pop_trailing].
  inversion_clear Hw as [|?? Hm Ho]. rewrite (wire_is_assistant _ Hm).
  destruct (String.eqb_spec (role_of m) "user") as [Hu|Hu]; cbn [negb].
  { left. split; [done|]. by intros ? [= <-]. }
  right. exists m, older. apply in_turns_cons in Ha as [_ Ha].
  assert (role_of m = "assistant") as Hr by (destruct Hm as (r & c & -> & [->| ->]); done).
  destruct older as [|x older]; [done|]. inversion_clear Ho as [|?? Hx _].
  assert (role_of x = "user") as Hxu.
  { specialize (Ha x older eq_refl). destruct Hx as (r & c & -> & [->| ->]); [done|]. rewrite wire_role in *. congruence. }
  cbn [pop_trailing]. rewrite (wire_is_assistant _ Hx), Hxu. split_and!; try done. by intros ? [= <-].
Qed.

Lemma last_reverse_head (l : list json) (P : json → Prop) :
  (∀ m, head l = Some m → P m) → ∀ m, last (reverse l) = Some m → P m.
Proof. intros H m Hm. apply H. destruct l as [|x l]; [done|]. rewrite reverse_cons, last_snoc in Hm. done. Qed.

Lemma merge_consecutive_spec msgs :
  Forall wire msgs →
  accepted (merge_consecutive to_string msgs) ∧
  ∃ pre post, (pre = [] ∨ pre = [text_block "(conversation continued)"]) ∧
    (merge_consecutive to_string msgs ≫= wire_blocks) ++ post = pre ++ flat (reverse msgs) ∧
    (∀ ms m, msgs = ms ++ [m] → role_of m = "user" → post = []).
Proof.
  intros H. destruct (merge_fold msgs H) as (Hw & Ha & Hf & Hh). unfold merge_consecutive.
  set (merged := foldl merge_wire [] msgs) in *. rewrite <-Hf.
  destruct (pop_in_turns merged Hw Ha) as [[-> Hu]|(m & older & E & Hm & -> & Hu)].
  - cbn [recover_last].
    destruct (continue_first_spec (reverse merged)) as (Hacc & pre & Hpre & Hb);
      [by apply Forall_reverse|by apply in_turns_reverse|by apply last_reverse_head|].
    split; [done|]. exists pre, []. split_and!; [done| |done]. by rewrite app_nil_r, Hb, flat_reverse.
  - rewrite E in Hw, Ha, Hh. inversion_clear Hw as [|?? Hwm Hwo]. apply in_turns_cons in Ha as [Ha _].
    assert (∀ post, ∀ ms x, msgs = ms ++ [x] → role_of x = "user" → post = @nil json) as Hnot.
    { intros post ms x Ex Hx. destruct (Hh ms x Ex) as (w & o & [= <- <-] & Hr). congruence. }
    cbn [recover_last]. case_bool_decide as Eo.
    + subst older. destruct (has_tool_use m) eqn:Ht; cbn [andb negb].
      * split; [split; [done|apply in_turns_nil|done|done]|]. exists [], (flat merged). split_and!; [by left|done|apply Hnot].
      * rewrite E. cbn. split; [|exists [], []; split_and!; [auto| |done]].
        { split; [constructor; [eexists _, _; eauto|done]|apply in_turns_one|..]; intros ? [= <-]; auto. }
        cbn. unfold wire_blocks at 1. cbn. by rewrite !app_nil_r.
    + cbn [andb].
      destruct (continue_first_spec (reverse older)) as (Hacc & pre & Hpre & Hb);
        [by apply Forall_reverse|by apply in_turns_reverse|by apply last_reverse_head|].
      split; [done|]. exists pre, (wire_blocks m). split_and!; [done| |apply Hnot].
      by rewrite Hb, E, <-app_assoc, <-flat_reverse.
Qed.

End ConvertFacts.

(** ** An answer stored and sent again *)

(** What the runner stores of an answer. *)
Definition stored_answer (to_string : json → string) (r : LLMResponse) : json :=
  build_assistant_message (rs_content r) (Some (to_openai_tool_call to_string <$> rs_tool_calls r))
    (rs_reasoning_content r) (rs_thinking_blocks r).

Lemma stored_calls to_string r :
  default [] (get_array "tool_calls" (stored_answer to_string r)) = to_openai_tool_call to_string <$> rs_tool_calls r.
Proof. destruct r as [c [|tc tcs] fr u ra [rc|] [[|tb tbs]|] ??????]; reflexivity. Qed.

Lemma stored_thinking to_string r :
  default [] (get_array "thinking_blocks" (stored_answer to_string r)) = default [] (rs_thinking_blocks r).
Proof. destruct r as [c [|tc tcs] fr u ra [rc|] [[|tb tbs]|] ??????]; reflexivity. Qed.

Lemma stored_content to_string r : jget "content" (stored_answer to_string r) = Some (JStr (default "" (rs_content r))).
Proof. destruct r as [c [|tc tcs] fr u ra [rc|] [[|tb tbs]|] ??????]; reflexivity. Qed.

(** Emptied content is no text in either form when there are calls. *)
Lemma sanitized_stored to_string r :
  rs_content r ≠ Some "" → rs_content r ≠ None ∨ rs_tool_calls r ≠ [] →
  let msg := sanitize_empty_content_one (stored_answer to_string r) in
  get_array "tool_calls" msg = get_array "tool_calls" (stored_answer to_string r) ∧
  get_array "thinking_blocks" msg = get_array "thinking_blocks" (stored_answer to_string r) ∧
  text_part msg = text_block <$> option_list (rs_content r).
Proof.
  destruct r as [[[|c s]|] [|tc tcs] fr u ra [rc|] [[|tb tbs]|] ??????]; cbn; intros ? [?|?]; done.
Qed.

Definition call_block (tc : ToolCallRequest) : json := tool_use_block (tc_id tc) (tc_name tc) (JObj (tc_arguments tc)).

Section Roundtrip.
Variable to_string : json → string.
Variable from_str : string → option json.
Context `{!JsonCodec from_str to_string}.
Variable gen_tool_id : nat → string.

Definition arguments_ok (tc : ToolCallRequest) : Prop := json_ok (JObj (tc_arguments tc)) = true.

Lemma convert_openai_call n tc :
  arguments_ok tc → convert_call from_str gen_tool_id n (to_openai_tool_call to_string tc) = (call_block tc, n).
Proof.
  intros H. apply (codec_roundtrip (from_str := from_str) (to_string := to_string)) in H.
  destruct tc as [i nm args [e|] [p|] [f|]]; cbn in *; unfold convert_call; cbn; by rewrite H.
Qed.

Lemma convert_openai_calls n tcs :
  Forall arguments_ok tcs →
  convert_calls from_str gen_tool_id n (to_openai_tool_call to_string <$> tcs) = (call_block <$> tcs, n).
Proof.
  induction 1 as [|tc tcs H _ IH]; [done|]. cbn [fmap list_fmap convert_calls].
  by rewrite convert_openai_call, IH by done.
Qed.

(** *** Reading blocks *)

Definition plain_call (tc : ToolCallRequest) : Prop :=
  tc = mkToolCall (tc_id tc) (tc_name tc) (tc_arguments tc) None None None.

Definition is_thinking (b : json) : Prop := ∃ t s, b = thinking_block t s.

Lemma read_block_keeps a b :
  Forall plain_call (an_tool_calls a) → Forall is_thinking (an_thinking a) →
  Forall plain_call (an_tool_calls (read_block a b)) ∧ Forall is_thinking (an_thinking (read_block a b)).
Proof.
  intros Hc Ht. unfold read_block. repeat case_match; cbn; split; try done.
  - apply Forall_app; split; [done|]. by constructor.
  - apply Forall_app; split; [done|]. constructor; [by eexists _, _|done].
Qed.

Lemma parsed_parts body :
  Forall plain_call (rs_tool_calls (parse_response body)) ∧
  Forall is_thinking (default [] (rs_thinking_blocks (parse_response body))) ∧
  rs_thinking_blocks (parse_response body) ≠ Some [].
Proof.
  unfold parse_response.
  assert (∀ bs a, Forall plain_call (an_tool_calls a) → Forall is_thinking (an_thinking a) →
    Forall plain_call (an_tool_calls (foldl read_block a bs)) ∧ Forall is_thinking (an_thinking (foldl read_block a bs)))
    as Hf.
  { induction bs as [|b bs IH]; intros a Hc Ht; [done|]. apply IH; by apply read_block_keeps. }
  destruct (Hf (default [] (get_array "content" body)) (mkAnswer [] [] [] "stop" [])) as [Hc Ht]; [done..|].
  set (a := foldl read_block _ _) in *. cbn. split_and!; [done| |].
  - by destruct (an_thinking a).
  - by destruct (an_thinking a).
Qed.

Lemma read_thinking a tbs :
  Forall is_thinking tbs →
  foldl read_block a (copy_thinking <$> retain (str_field_is "type" "thinking") tbs) =
  set_thinking (an_thinking a ++ tbs) a.
Proof.
  intros H. revert a. induction H as [|b tbs (t & s & ->) _ IH]; intros a.
  - cbn. rewrite app_nil_r. by destruct a.
  - cbn [List.filter]. cbn -[retain foldl]. cbn [foldl]. rewrite IH. unfold read_block. cbn. by rewrite <-app_assoc.
Qed.

Lemma read_texts a ts :
  foldl read_block a (text_block <$> ts) =
  mkAnswer (content_parts a ++ ts) (an_tool_calls a) (an_thinking a) (an_finish a) (an_usage a).
Proof.
  revert a. induction ts as [|t ts IH]; intros a; cbn; [rewrite app_nil_r; by destruct a|].
  rewrite IH. cbn. by rewrite <-app_assoc.
Qed.

Lemma read_calls a tcs :
  Forall plain_call tcs →
  foldl read_block a (call_block <$> tcs) =
  mkAnswer (content_parts a) (an_tool_calls a ++ tcs) (an_thinking a) (an_finish a) (an_usage a).
Proof.
  intros H. revert a. induction H as [|tc tcs Hp _ IH]; intros a; cbn; [rewrite app_nil_r; by destruct a|].
  rewrite IH. cbn. rewrite <-app_assoc. by rewrite Hp.
Qed.

End Roundtrip.

(** ** Streams *)

Section StreamFacts.
Variable from_str : string → option json.
Variable idle_timeout_s : Z.

Local Abbreviation read_stream := (read_stream from_str idle_timeout_s).
Local Abbreviation process_sse_event := (process_sse_event from_str).

(** A delta reaches the listener and not the answer: text and arguments that arrive in deltas are
    missing from the response. *)
Theorem deltas_not_kept (data : string) (st : StreamState) :
  let st' := process_sse_event "content_block_delta" data st in
  content_parts (ss_answer st') = content_parts (ss_answer st) ∧
  an_tool_calls (ss_answer st') = an_tool_calls (ss_answer st).
Proof.
  unfold process_sse_event. destruct (from_str data) as [v|]; [|done]. unfold block_delta.
  repeat case_match; done.
Qed.

Lemma split_on_nl_app a b :
  ∃ ps, split_on nl (a +:+ String nl "") = ps ++ [""] ∧ split_on nl (a +:+ String nl b) = ps ++ split_on nl b ∧ ps ≠ [].
Proof.
  induction a as [|c a (ps & H1 & H2 & Hn)].
  - rewrite !sapp_nil_l. exists [""]. by cbn.
  - rewrite !sapp_cons. cbn [split_on]. rewrite H1, H2. destruct (Ascii.eqb c nl); [by exists ("" :: ps)|].
    destruct ps as [|p ps]; [done|]. by exists (String c p :: ps).
Qed.

Lemma lines_of_app ps qs : ps ≠ [] → qs ≠ [] → lines_of (ps ++ qs) = (strip_cr <$> ps) ++ lines_of qs.
Proof.
  intros _ Hq. induction ps as [|p ps IH]; [done|]. cbn [app lines_of]. rewrite IH. by destruct ps, qs.
Qed.

Lemma lines_app_nl a b : lines (a +:+ String nl b) = lines (a +:+ String nl "") ++ lines b.
Proof.
  unfold lines. destruct (split_on_nl_app a b) as (ps & -> & -> & Hn).
  destruct (split_on_cons nl b) as (q & qs & Eq). rewrite !lines_of_app by (done || by rewrite Eq).
  cbn. by rewrite app_nil_r.
Qed.

Lemma lossy_app_from need lo hi pend a b :
  (need = 0 → pend = "") → utf8_from need lo hi a = true →
  lossy_from need lo hi pend (a +:+ b) = pend +:+ a +:+ from_utf8_lossy b.
Proof.
  revert need lo hi pend. induction a as [|c a IH]; intros need lo hi pend Hp H.
  - cbn in H. destruct need; [|done]. rewrite (Hp eq_refl), !sapp_nil_l. unfold from_utf8_lossy. by destruct b.
  - rewrite sapp_cons. destruct need as [|need]; cbn [utf8_from lossy_from] in *.
    + rewrite (Hp eq_refl). repeat case_match; try done; by rewrite IH.
    + apply andb_true_iff in H as [-> H]. destruct (Nat.eqb_spec need 0) as [->|Hn].
      * by rewrite IH.
      * rewrite IH by done. by rewrite <-sapp_assoc.
Qed.

(** The texts of the chunks, each a number of whole lines. *)
Definition whole_lines (t : string) : Prop := utf8_valid t = true ∧ (t = "" ∨ ∃ a, t = a +:+ String nl "").

Lemma chunk_append t b st :
  whole_lines t →
  foldl (stream_line from_str) st (lines (from_utf8_lossy (t +:+ b))) =
  foldl (stream_line from_str) (foldl (stream_line from_str) st (lines (from_utf8_lossy t))) (lines (from_utf8_lossy b)).
Proof.
  intros [Hu [->|(a & ->)]]; [done|]. rewrite (lossy_id _ Hu). unfold from_utf8_lossy at 1.
  rewrite lossy_app_from by done. rewrite sapp_nil_l, <-sapp_assoc, sapp_cons, sapp_nil_l, lines_app_nl, foldl_app. done.
Qed.

(** Where the network cuts a stream between lines does not matter. *)
Theorem stream_cut_at_lines (chunks : list string) (rest : list StreamItem) (st : StreamState) :
  Forall whole_lines chunks →
  read_stream ((Chunk <$> chunks) ++ rest) st = read_stream (Chunk (foldr String.append "" chunks) :: rest) st.
Proof.
  intros H. revert st. induction H as [|t chunks Ht _ IH]; intros st; [done|].
  cbn [fmap list_fmap app foldr]. cbn [Anthropic.read_stream]. rewrite IH. cbn [Anthropic.read_stream].
  by rewrite chunk_append.
Qed.
End StreamFacts.

(** *** A stream of one text *)

Definition sse (ty : string) (data : json) : string :=
  "event: " +:+ ty +:+ String nl "data: " +:+ binary_to_string data +:+ String nl (String nl "").

Definition text_delta (t : string) : json :=
  JObj [("delta", JObj [("type", JStr "text_delta"); ("text", JStr t)])].

Definition text_start (t : string) : json :=
  JObj [("content_block", JObj [("type", JStr "text"); ("text", JStr t)])].

(** A streamed text is heard and not returned. *)
Example streamed_text_lost :
  read_stream binary_from_str 90 [Chunk (sse "content_block_start" (text_start "")); Chunk (sse "content_block_delta" (text_delta "hi"))]
    stream_init = (answer_response (ss_answer stream_init), [TextDelta "hi"]) ∧
  rs_content (answer_response (ss_answer stream_init)) = None.
Proof. split; vm_compute; reflexivity. Qed.

(** A line cut in two by the network is lost. *)
Example cut_line_lost :
  let s := sse "content_block_start" (text_start "hi") in
  rs_content (read_stream binary_from_str 90 [Chunk s] stream_init).1 = Some "hi" ∧
  rs_content (read_stream binary_from_str 90 [Chunk (stake 3 s); Chunk (sdrop 3 s)] stream_init).1 = None.
Proof. split; vm_compute; reflexivity. Qed.

(** ** Requests *)

(** The budget of thinking is below the limit of the answer. *)
Theorem thinking_fits (to_string : json → string) (from_str : string → option json) captures gen_tool_id cfg req budget :
  (0 <= rq_max_tokens req)%Z → (rq_max_tokens req + 4096 <= u32_max)%Z →
  (jget "thinking" (build_body to_string from_str captures gen_tool_id cfg req) ≫= jget "budget_tokens") = Some (JInt budget) →
  ∃ limit, jget "max_tokens" (build_body to_string from_str captures gen_tool_id cfg req) = Some (JInt limit) ∧ (budget < limit)%Z.
Proof.
  intros Hm Hu. unfold build_body. destruct (convert_messages _ _ _ _ _) as [sys msgs].
  destruct (if an_supports_caching cfg then _ else _) as [[sys' msgs'] tools].
  set (mt := Z.max (rq_max_tokens req) 1) in *. set (b0 := with_system sys' _).
  assert (map_get "thinking" b0 = None) as Hb0 by (subst b0; unfold with_system; repeat case_match; done).
  assert (∀ k b, k ∉ ["tools"; "tool_choice"] → map_get k (with_tools req tools b) = map_get k b) as Hk.
  { intros k b Hk. unfold with_tools. repeat case_match; try done; rewrite ?map_get_insert_ne by set_solver; done. }
  cbn [jget]. rewrite !Hk by set_solver. unfold with_thinking. case_bool_decide.
  { rewrite map_get_insert_ne, map_get_insert by done. done. }
  destruct (rq_reasoning_effort req) as [e|]; cbn [fmap option_fmap option_map].
  - assert (1024 <= thinking_budget (Some (to_ascii_lowercase e)) mt <= Z.max 8192 mt)%Z as Hb.
    { unfold thinking_budget. repeat case_match; lia. }
    set (tb := thinking_budget _ _) in *. clearbody tb.
    rewrite !(map_get_insert_ne "thinking"), map_get_insert by done. cbn. intros [= <-].
    rewrite map_get_insert_ne, map_get_insert by done. eexists; split; [done|].
    unfold wrap_u32, u32_max in *. rewrite Z.mod_small; lia.
  - rewrite map_get_insert_ne by done. by rewrite Hb0.
Qed.

(** ** Witnesses *)

Definition sample_body : json :=
  JObj [("content", JArr [thinking_block "hm" "sig"; text_block "let me look";
                          tool_use_block "t1" "read_file" (JObj [("path", JStr "a.txt")])]);
        ("stop_reason", JStr "tool_use")].

