(* ===== verification/Responses.v ===== *)
(** * The Responses service and its clients

    [crates/providers/src/responses/]: conversion of chat messages and tools, the parser of
    server-sent events, the three functions that assemble an answer from events and the one that
    reads a whole answer; [azure_openai_provider.rs] and [openai_codex_provider.rs], the clients
    that use them.  HTTP is a parameter as for the Anthropic client. *)

From S2P Require Import Prelude RustStr F64 Json Network Provider Retry Utf8 Anthropic.

Local Open Scope stdpp_scope.
Local Open Scope hive_scope.

(** ** Converters *)

Definition map_finish_reason (status : option string) : string :=
  match default "completed" status with
  | "completed" => "stop"
  | "incomplete" => "length"
  | "failed" | "cancelled" => "error"
  | other => other
  end.

Definition split_tool_call_id (tool_call_id : option string) : string * option string :=
  match tool_call_id with
  | None | Some "" => ("call_0", None)
  | Some id =>
      match split_once "|" id with
      | Some (a, b) => (a, if is_empty b then None else Some b)
      | None => (id, None)
      end
  end.

Definition input_text (text : string) : json := JObj [("type", JStr "input_text"); ("text", JStr text)].

Definition user_item (content : list json) : json := JObj [("role", JStr "user"); ("content", JArr content)].

Definition convert_input (item : json) : option json :=
  match item with
  | JObj obj =>
      match map_get "type" obj ≫= as_str with
      | Some "text" => Some (input_text (default "" (map_get "text" obj ≫= as_str)))
      | Some "image_url" =>
          (λ url, JObj [("type", JStr "input_image"); ("image_url", JStr url); ("detail", JStr "auto")]) <$>
          (map_get "image_url" obj ≫= get_str "url")
      | _ => None
      end
  | _ => None
  end.

Definition convert_user_message (content : json) : json :=
  match content with
  | JStr s => user_item [input_text s]
  | JArr items =>
      match filter_map convert_input items with
      | [] => user_item [input_text ""]
      | converted => user_item converted
      end
  | _ => user_item [input_text ""]
  end.

Section Converters.
Variable to_string : json → string.

Definition convert_function_call (idx : nat) (tc : json) : json :=
  let fn_obj := default JNull (jget "function" tc) in
  let '(call_id, item_id) := split_tool_call_id (get_str "id" tc) in
  JObj [("type", JStr "function_call");
        ("id", JStr (default ("fc_" +:+ pretty idx) item_id));
        ("call_id", JStr (if is_empty call_id || String.eqb call_id "call_0" then "call_" +:+ pretty idx else call_id));
        ("name", JStr (default "" (get_str "name" fn_obj)));
        ("arguments", default (JStr "{}") (jget "arguments" fn_obj))].

Definition output_message (idx : nat) (s : string) : json :=
  JObj [("type", JStr "message"); ("role", JStr "assistant");
        ("content", JArr [JObj [("type", JStr "output_text"); ("text", JStr s)]]);
        ("status", JStr "completed"); ("id", JStr ("msg_" +:+ pretty idx))].

Definition call_output (msg : json) : json :=
  JObj [("type", JStr "function_call_output");
        ("call_id", JStr (split_tool_call_id (get_str "tool_call_id" msg)).1);
        ("output", JStr (match default JNull (jget "content" msg) with
                         | JStr s => s
                         | other => to_string other
                         end))].

(** The system text so far and the items a message adds. *)
Definition convert_item (idx : nat) (system : string) (msg : json) : string * list json :=
  let content := default JNull (jget "content" msg) in
  let role := role_of msg in
  if String.eqb role "system" then (default system (as_str content), [])
  else if String.eqb role "user" then (system, [convert_user_message content])
  else if String.eqb role "assistant" then
    (system,
     match as_str content with Some s => if is_empty s then [] else [output_message idx s] | None => [] end ++
     (convert_function_call idx <$> default [] (get_array "tool_calls" msg)))
  else if String.eqb role "tool" then (system, [call_output msg])
  else (system, []).

Fixpoint convert_items (idx : nat) (system : string) (messages : list json) : string * list json :=
  match messages with
  | [] => (system, [])
  | msg :: messages =>
      let '(system, items) := convert_item idx system msg in
      let '(system, rest) := convert_items (S idx) system messages in
      (system, items ++ rest)
  end.

Definition convert_input_messages (messages : list json) : string * list json := convert_items 0 "" messages.
End Converters.

Definition flat_tool (tool : json) : option json :=
  let fn_value := if str_field_is "type" "function" tool then default tool (jget "function" tool) else tool in
  name ← get_str "name" fn_value;
  if is_empty name then None
  else
    let params := default (JObj []) (jget "parameters" fn_value) in
    Some (JObj [("type", JStr "function"); ("name", JStr name);
                ("description", JStr (default "" (get_str "description" fn_value)));
                ("parameters", match params with JObj _ => params | _ => JObj [] end)]).

Definition convert_flat_tools (tools : list json) : list json := filter_map flat_tool tools.

(** ** Events *)

Section Events.
Variable to_string : json → string.
Variable from_str : string → option json.
(** Whether warnings are logged: their arguments are only evaluated then. *)
Variable warns : bool.

Definition data_line (l : string) : option string := trim <$> strip_prefix "data:" l.

Definition flush_events (buffer : list string) (out : list json) : list json :=
  match filter_map data_line buffer with
  | [] => out
  | data_lines =>
      let data := trim (join (String nl "") data_lines) in
      if is_empty data || String.eqb data "[DONE]" then out
      else match from_str data with Some v => out ++ [v] | None => out end
  end.

Fixpoint sse_lines (lines : list string) (buffer : list string) (out : list json) : list json :=
  match lines with
  | [] => flush_events buffer out
  | line :: lines =>
      let line := trim_end_char cr line in
      if is_empty line then sse_lines lines [] (flush_events buffer out)
      else sse_lines lines (buffer ++ [line]) out
  end.

Definition parse_sse_events (input : string) : list json := sse_lines (split_on nl input) [] [].

(** The variables of the loop over the events; [cs_deltas] is what the callbacks are given. *)
Record Consumed := mkConsumed {
  cs_content : string;
  cs_buffers : gmap string (string * string * string);
  cs_calls : list ToolCallRequest;
  cs_finish : string;
  cs_usage : list (string * Z);
  cs_reasoning : option string;
  cs_deltas : list Delta
}.

Definition consumed_init : Consumed := mkConsumed "" ∅ [] "stop" [] None [].

(** The function call an event is about: [item] with its [call_id]. *)
Definition function_item (event : json) : option (list (string * json) * string) :=
  item ← jget "item" event ≫= as_object;
  if bool_decide (map_get "type" item ≫= as_str = Some "function_call")
  then (λ c, (item, c)) <$> (map_get "call_id" item ≫= as_str) else None.

Definition item_str (k d : string) (item : list (string * json)) : string :=
  default d (map_get k item ≫= as_str).

Definition call_delta (call_id name args : string) : Delta :=
  ToolCallDelta (JObj [("call_id", JStr call_id); ("name", JStr name); ("arguments_delta", JStr args)]).

Definition item_added (event : json) (st : Consumed) : Consumed :=
  match function_item event with
  | Some (item, call_id) =>
      let name := item_str "name" "" item in
      mkConsumed (cs_content st)
        (<[call_id := (item_str "id" "fc_0" item, name, item_str "arguments" "" item)]> (cs_buffers st))
        (cs_calls st) (cs_finish st) (cs_usage st) (cs_reasoning st) (cs_deltas st ++ [call_delta call_id name ""])
  | None => st
  end.

Definition text_delta_event (event : json) (st : Consumed) : Consumed :=
  let delta := default "" (get_str "delta" event) in
  mkConsumed (cs_content st +:+ delta) (cs_buffers st) (cs_calls st) (cs_finish st) (cs_usage st)
    (cs_reasoning st) (cs_deltas st ++ (if is_empty delta then [] else [TextDelta delta])).

Definition set_buffers (b : gmap string (string * string * string)) (ds : list Delta) (st : Consumed) : Consumed :=
  mkConsumed (cs_content st) b (cs_calls st) (cs_finish st) (cs_usage st) (cs_reasoning st) (cs_deltas st ++ ds).

Definition args_delta (event : json) (st : Consumed) : Consumed :=
  match get_str "call_id" event with
  | Some call_id =>
      match cs_buffers st !! call_id with
      | Some (id, name, args) =>
          let delta := default "" (get_str "delta" event) in
          set_buffers (<[call_id := (id, name, args +:+ delta)]> (cs_buffers st)) [call_delta call_id name delta] st
      | None => st
      end
  | None => st
  end.

Definition args_done (event : json) (st : Consumed) : Consumed :=
  match get_str "call_id" event with
  | Some call_id =>
      match cs_buffers st !! call_id with
      | Some (id, name, _) =>
          set_buffers (<[call_id := (id, name, default "" (get_str "arguments" event))]> (cs_buffers st)) [] st
      | None => st
      end
  | None => st
  end.

(** Arguments that are not an object are kept as text; the warning slices them at two hundred
    bytes, which panics inside a character.  [quiet] is the variant that does not warn of a JSON
    value that is no object. *)
Definition parse_arguments (quiet : bool) (args_raw : string) : run (list (string * json)) :=
  match from_str args_raw with
  | Some (JObj m) => Returns m
  | other =>
      let warned := warns && (match other with Some _ => negb quiet | None => true end) in
      if warned then
        let! _ := run_of_option (slice_to args_raw (String.length args_raw `min` 200)) in
        Returns [("raw", JStr args_raw)]
      else Returns [("raw", JStr args_raw)]
  end.

Definition item_done (quiet : bool) (event : json) (st : Consumed) : run Consumed :=
  match function_item event with
  | Some (item, call_id) =>
      let '(item_id, name, args_accum) :=
        match cs_buffers st !! call_id with
        | Some b => b
        | None => (item_str "id" "fc_0" item, item_str "name" "" item, item_str "arguments" "{}" item)
        end in
      let args_raw := if is_empty args_accum then "{}" else args_accum in
      let! args := parse_arguments quiet args_raw in
      Returns (mkConsumed (cs_content st) (delete call_id (cs_buffers st))
        (cs_calls st ++ [mkToolCall (call_id +:+ "|" +:+ item_id) name args None None None])
        (cs_finish st) (cs_usage st) (cs_reasoning st) (cs_deltas st))
  | None => Returns st
  end.

Definition set_reason (reason : string) (st : Consumed) : Consumed :=
  mkConsumed (cs_content st) (cs_buffers st) (cs_calls st) reason (cs_usage st) (cs_reasoning st) (cs_deltas st).

Definition completed_status (event : json) : option string := jget "response" event ≫= get_str "status".

Definition event_type_of (event : json) : string := default "" (get_str "type" event).

(** The events all three functions treat alike, [None] for the others. *)
Definition common_event (quiet : bool) (event : json) (st : Consumed) : option (run Consumed) :=
  let ty := event_type_of event in
  if String.eqb ty "response.output_item.added" then Some (Returns (item_added event st))
  else if String.eqb ty "response.output_text.delta" then Some (Returns (text_delta_event event st))
  else if String.eqb ty "response.function_call_arguments.delta" then Some (Returns (args_delta event st))
  else if String.eqb ty "response.function_call_arguments.done" then Some (Returns (args_done event st))
  else if String.eqb ty "response.output_item.done" then Some (item_done quiet event st)
  else None.

Definition is_completed (event : json) : bool := String.eqb (event_type_of event) "response.completed".
Definition is_failure (event : json) : bool :=
  String.eqb (event_type_of event) "error" || String.eqb (event_type_of event) "response.failed".

Definition failure_text (event : json) : string :=
  let detail := match jget "error" event with
                | Some d => d
                | None => default event (jget "message" event)
                end in
  "Response failed: " +:+ take_chars 500 (to_string detail).

(** [consume_events] has no callbacks and returns on a failure. *)
Fixpoint consume_events_loop (events : list json) (st : Consumed)
    : run (result (string * list ToolCallRequest * string) string) :=
  match events with
  | [] => Returns (Ok (cs_content st, cs_calls st, cs_finish st))
  | event :: events =>
      match common_event false event st with
      | Some r => let! st := r in consume_events_loop events st
      | None =>
          if is_completed event then
            consume_events_loop events (set_reason (map_finish_reason (completed_status event)) st)
          else if is_failure event then Returns (Err (failure_text event))
          else consume_events_loop events st
      end
  end.

Definition consume_events (events : list json) := consume_events_loop events consumed_init.

Fixpoint consume_sse_loop (events : list json) (st : Consumed)
    : run (string * list ToolCallRequest * string * list Delta) :=
  match events with
  | [] => Returns (cs_content st, cs_calls st, cs_finish st, cs_deltas st)
  | event :: events =>
      match common_event true event st with
      | Some r => let! st := r in consume_sse_loop events st
      | None =>
          if is_completed event then
            consume_sse_loop events (set_reason (map_finish_reason (completed_status event)) st)
          else if is_failure event then consume_sse_loop events (set_reason "error" st)
          else consume_sse_loop events st
      end
  end.

Definition consume_sse (sse_text : string) := consume_sse_loop (parse_sse_events sse_text) consumed_init.

(** *** Usage and reasoning of a whole response *)

Definition responses_usage (u : json) : list (string * Z) :=
  [("prompt_tokens", tokens_of "input_tokens" u); ("completion_tokens", tokens_of "output_tokens" u);
   ("total_tokens", tokens_of "total_tokens" u)].

Definition summary_text (s : json) : option string :=
  if str_field_is "type" "summary_text" s then get_str "text" s else None.

Definition push_reasoning (r : option string) (t : string) : option string := Some (default "" r +:+ t).

(** The summaries of one output item appended. *)
Definition reasoning_of (r : option string) (item : json) : option string :=
  if str_field_is "type" "reasoning" item
  then foldl push_reasoning r (filter_map summary_text (default [] (get_array "summary" item))) else r.

Definition completed_sdk (event : json) (st : Consumed) : Consumed :=
  let st := set_reason (map_finish_reason (completed_status event)) st in
  match jget "response" event with
  | Some (JObj resp) =>
      mkConsumed (cs_content st) (cs_buffers st) (cs_calls st) (cs_finish st)
        (match map_get "usage" resp with Some (JObj u) => responses_usage (JObj u) | _ => cs_usage st end)
        (foldl reasoning_of (cs_reasoning st) (default [] (map_get "output" resp ≫= as_array)))
        (cs_deltas st)
  | _ => st
  end.

Fixpoint consume_sdk_loop (events : list json) (st : Consumed) : run Consumed :=
  match events with
  | [] => Returns st
  | event :: events =>
      match common_event false event st with
      | Some r => let! st := r in consume_sdk_loop events st
      | None =>
          if is_completed event then consume_sdk_loop events (completed_sdk event st)
          else if is_failure event then consume_sdk_loop events (set_reason "error" st)
          else consume_sdk_loop events st
      end
  end.

Definition consume_sdk_stream (events : list json) : run Consumed := consume_sdk_loop events consumed_init.

(** ** Whole responses *)

Record Output := mkOutput {
  op_parts : list string;
  op_calls : list ToolCallRequest;
  op_reasoning : option string
}.

Definition output_text (block : json) : option string :=
  if str_field_is "type" "output_text" block then get_str "text" block else None.

Definition output_call (item : json) : run ToolCallRequest :=
  let! args := match default (JStr "{}") (jget "arguments" item) with
               | JStr s => parse_arguments false s
               | JObj m => Returns m
               | _ => Returns []
               end in
  Returns (mkToolCall (default "" (get_str "call_id" item) +:+ "|" +:+ default "fc_0" (get_str "id" item))
             (default "" (get_str "name" item)) args None None None).

Definition read_output (o : Output) (item : json) : run Output :=
  match get_str "type" item with
  | Some "message" =>
      Returns (mkOutput (op_parts o ++ filter_map output_text (default [] (get_array "content" item)))
                 (op_calls o) (op_reasoning o))
  | Some "reasoning" => Returns (mkOutput (op_parts o) (op_calls o) (reasoning_of (op_reasoning o) item))
  | Some "function_call" =>
      let! tc := output_call item in
      Returns (mkOutput (op_parts o) (op_calls o ++ [tc]) (op_reasoning o))
  | _ => Returns o
  end.

Fixpoint read_outputs (items : list json) (o : Output) : run Output :=
  match items with
  | [] => Returns o
  | item :: items => let! o := read_output o item in read_outputs items o
  end.

Definition parse_response_output (response : json) : run LLMResponse :=
  let! o := read_outputs (default [] (get_array "output" response)) (mkOutput [] [] None) in
  Returns (mkResponse (match op_parts o with [] => None | ps => Some (join "" ps) end) (op_calls o)
    (map_finish_reason (get_str "status" response))
    (match jget "usage" response with Some (JObj u) => responses_usage (JObj u) | _ => [] end)
    None (op_reasoning o) None None None None None None None).
End Events.

(** ** Clients *)

Definition supports_temperature (model : string) (reasoning_effort : option string) : bool :=
  if match reasoning_effort with Some r => negb (String.eqb (to_lowercase r) "none") | None => false end then false
  else
    let m := to_ascii_lowercase model in
    negb (contains_str m "gpt-5" || contains_str m "o1" || contains_str m "o3" || contains_str m "o4").

Definition tool_choice_to_value (tc : option ToolChoice) : json :=
  match tc with
  | Some ChoiceRequired => JStr "required"
  | Some ChoiceNone => JStr "none"
  | Some (ChoiceSpecific v) => v
  | _ => JStr "auto"
  end.

Definition some_content (s : string) : option string := if is_empty s then None else Some s.

Module Azure.
Record AzureConfig := mkAzureConfig {
  az_endpoint : string;
  az_api_key : string;
  az_default_deployment : string;
  az_api_version : string;
  az_extra_headers : list (string * string);
  az_timeout : Z
}.

(** [AzureOpenAIProvider::new]: the two settings it checks. *)
Definition azure_new (cfg : AzureConfig) : result AzureConfig string :=
  if is_empty (az_api_key cfg) then Err "Azure OpenAI api_key is required"
  else if is_empty (az_endpoint cfg) then Err "Azure OpenAI api_base is required"
  else Ok cfg.

Definition responses_url (cfg : AzureConfig) : string :=
  trim_end_char "/" (az_endpoint cfg) +:+ "/openai/v1/responses".

Section Client.
Variable to_string : json → string.
Variable from_str : string → option json.
Variable captures : string → string → option (option string * option string).
Variable warns : bool.
Variable cfg : AzureConfig.
Context {S : Type}.
Variable send : S → json → S * Sent.

Definition azure_body (req : ChatRequest) (deployment : string) (stream : bool) : json :=
  let '(instructions, input_items) :=
    convert_input_messages to_string (enforce_role_alternation (sanitize_empty_content (rq_messages req))) in
  let body := [("model", JStr deployment);
               ("instructions", if is_empty instructions then JNull else JStr instructions);
               ("input", JArr input_items);
               ("max_output_tokens", JInt (Z.max (rq_max_tokens req) 1));
               ("store", JBool false); ("stream", JBool stream)] in
  let body := if supports_temperature deployment (rq_reasoning_effort req)
              then map_insert "temperature" (json_f64 (rq_temperature req)) body else body in
  let body := match rq_reasoning_effort req with
              | Some r =>
                  if negb (is_empty r) && negb (String.eqb (to_lowercase r) "none") then
                    map_insert "include" (JArr [JStr "reasoning.encrypted_content"])
                      (map_insert "reasoning" (JObj [("effort", JStr r)]) body)
                  else body
              | None => body
              end in
  JObj (match rq_tools req with
        | None | Some [] => body
        | Some tools =>
            map_insert "tool_choice" (tool_choice_to_value (rq_tool_choice req))
              (map_insert "tools" (JArr (convert_flat_tools tools)) body)
        end).

Definition parse_error (status : Z) (headers : string → option string) (payload : string) : LLMResponse :=
  let msg := if is_empty (trim payload) then "Error calling Azure OpenAI: HTTP " +:+ pretty status
             else "Error: " +:+ take_chars 500 (trim payload) in
  let retry_after := match headers "retry-after" ≫= parse_f64 with
                     | Some v => Some v
                     | None => extract_retry_after_from_text captures (Some msg)
                     end in
  mkResponse (Some msg) [] "error" [] retry_after None None (Some status) None None None retry_after None.

Definition handle_error (msg : string) (timeout connect : bool) : LLMResponse :=
  failed_response ("Error calling Azure OpenAI: " +:+ msg)
    (if timeout then Some "timeout" else if connect then Some "connection" else None).

(** The request and the text of a successful answer, or the response that ends the call. *)
Definition azure_exchange (reading : string) (s : S) (body : json) : S * (string + LLMResponse) :=
  let '(s, sent) := send s body in
  (s, match sent with
      | SendFailed msg timeout connect => inr (handle_error msg timeout connect)
      | Received resp =>
          if negb (http_success (h_status resp)) then
            inr (parse_error (h_status resp) (h_headers resp) (match h_text resp with Ok t => t | Err _ => "" end))
          else match h_text resp with Ok t => inl t | Err e => inr (error_response (reading +:+ e)) end
      end).

Definition deployment_of (req : ChatRequest) : string := default (az_default_deployment cfg) (rq_model req).

Definition azure_chat (s : S) (req : ChatRequest) : S * run LLMResponse :=
  let '(s, r) := azure_exchange "Error reading body: " s (azure_body req (deployment_of req) false) in
  (s, match r with
      | inr response => Returns response
      | inl text =>
          match from_str text with
          | None => Returns (error_response "Error: malformed JSON response from Azure OpenAI")
          | Some value => parse_response_output from_str warns value
          end
      end).

Definition azure_chat_stream (s : S) (req : ChatRequest) : S * run (LLMResponse * list Delta) :=
  let '(s, r) := azure_exchange "Error reading stream: " s (azure_body req (deployment_of req) true) in
  (s, match r with
      | inr response => Returns (response, [])
      | inl text =>
          let! (content, calls, reason, deltas) := consume_sse from_str warns text in
          Returns (mkResponse (some_content content) calls reason [] None None None None None None None None None, deltas)
      end).
End Client.
End Azure.

Module Codex.
(** What the client uses of a stored token; whether a text may stand in a header is decided by the
    HTTP crate. *)
Record OAuthToken := mkToken {
  ot_access : string;
  ot_account_id : option string
}.

Definition strip_codex_prefix (model : string) : string :=
  match strip_prefix "openai-codex/" model with
  | Some rest => rest
  | None => default model (strip_prefix "openai_codex/" model)
  end.

(** Entries by key as a [BTreeMap] orders them. *)
Fixpoint insert_sorted (k : string) (v : json) (m : list (string * json)) : list (string * json) :=
  match m with
  | [] => [(k, v)]
  | (k', v') :: m' => if String.leb k k' then (k, v) :: m else (k', v') :: insert_sorted k v m'
  end.

Fixpoint sort_value (value : json) : json :=
  match value with
  | JObj m =>
      JObj ((fix go m := match m with [] => [] | (k, v) :: m => insert_sorted k (sort_value v) (go m) end) m)
  | JArr l => JArr ((fix go l := match l with [] => [] | v :: l => sort_value v :: go l end) l)
  | other => other
  end.

Definition friendly_error (status : Z) (raw : string) : string :=
  if (status =? 429)%Z then "ChatGPT usage quota exceeded or rate limit triggered. Please try again later."
  else "HTTP " +:+ pretty status +:+ ": " +:+ raw.

Definition classify_error (timeout connect : bool) : string :=
  if timeout then "timeout" else if connect then "connection" else "other".

Section Client.
Variable to_string : json → string.
Variable from_str : string → option json.
Variable captures : string → string → option (option string * option string).
Variable sha256_hex : string → string.
(** [HeaderValue::from_str]: the error's text when a text may not stand in a header. *)
Variable header_value : string → result string string.
Variable warns : bool.
Variables (default_model originator : string).
Context {S : Type}.
Variable send : S → list (string * string) → json → S * Sent.

Definition prompt_cache_key (messages : list json) : string :=
  sha256_hex (to_string (JArr (sort_value <$> messages))).

Definition build_headers (token : OAuthToken) : result (list (string * string)) string :=
  let? bearer := header_value ("Bearer " +:+ ot_access token) in
  let? account := match ot_account_id token with
                  | Some a => let? v := header_value a in Ok [("chatgpt-account-id", v)]
                  | None => Ok []
                  end in
  let? origin := header_value originator in
  Ok ([("authorization", bearer)] ++ account ++
      [("openai-beta", "responses=experimental"); ("originator", origin); ("user-agent", "nanobot (python)");
       ("accept", "text/event-stream"); ("content-type", "application/json")]).

Definition codex_body (req : ChatRequest) : json :=
  let '(system_prompt, input_items) := convert_input_messages to_string (rq_messages req) in
  let body := [("model", JStr (strip_codex_prefix (default default_model (rq_model req))));
               ("store", JBool false); ("stream", JBool true); ("instructions", JStr system_prompt);
               ("input", JArr input_items); ("text", JObj [("verbosity", JStr "medium")]);
               ("include", JArr [JStr "reasoning.encrypted_content"]);
               ("prompt_cache_key", JStr (prompt_cache_key (rq_messages req)));
               ("parallel_tool_calls", JBool true)] in
  let body := map_insert "tool_choice" (tool_choice_to_value (rq_tool_choice req)) body in
  let body := match rq_reasoning_effort req with
              | Some e => if String.eqb (to_ascii_lowercase e) "none" then body
                          else map_insert "reasoning" (JObj [("effort", JStr e)]) body
              | None => body
              end in
  JObj (match rq_tools req with
        | Some tools => map_insert "tools" (JArr (convert_flat_tools tools)) body
        | None => body
        end).

Definition http_error (resp : HttpResponse) : LLMResponse :=
  let text := match h_text resp with Ok t => t | Err _ => "" end in
  let retry_after := match h_headers resp "retry-after" ≫= parse_f64 with
                     | Some v => Some v
                     | None => extract_retry_after_from_text captures (Some text)
                     end in
  mkResponse (Some (friendly_error (h_status resp) text)) [] "error" [] retry_after None None
    (Some (h_status resp)) None None None retry_after None.

Definition read_answer (text : string) : run LLMResponse :=
  let! r := consume_events to_string from_str warns (parse_sse_events from_str text) in
  Returns (match r with
           | Ok (content, calls, reason) =>
               mkResponse (some_content content) calls reason [] None None None None None None None None None
           | Err err =>
               mkResponse (Some err) [] "error" [] (extract_retry_after_from_text captures (Some err))
                 None None None None None None None None
           end).

Definition codex_chat (token : option OAuthToken) (s : S) (req : ChatRequest) : S * run LLMResponse :=
  match token with
  | None => (s, Returns (error_response "OpenAI Codex is not logged in. Run the Codex CLI to obtain an OAuth token."))
  | Some token =>
      match build_headers token with
      | Err e => (s, Returns (error_response ("Invalid Codex headers: " +:+ e)))
      | Ok headers =>
          let '(s, sent) := send s headers (codex_body req) in
          (s, match sent with
              | SendFailed msg timeout connect =>
                  Returns (failed_response ("Error calling Codex: " +:+ msg) (Some (classify_error timeout connect)))
              | Received resp =>
                  if negb (http_success (h_status resp)) then Returns (http_error resp)
                  else match h_text resp with
                       | Err e => Returns (error_response ("Error reading Codex stream: " +:+ e))
                       | Ok text => read_answer text
                       end
              end)
      end
  end.
End Client.
End Codex.
