(* ===== verification/ResponsesProps.v ===== *)
(** * The Responses service: theorems

    The three functions that assemble an answer agree; interleaved calls do not disturb each
    other; events printed are read back; the identifiers of calls and results survive storing and
    sending again, except for the names the converter makes up. *)

From S2P Require Import Prelude RustStr F64 Json Messages Think Network Provider Retry Utf8 Anthropic AnthropicProps Responses.

Local Open Scope stdpp_scope.
Local Open Scope hive_scope.

(** ** One answer, three readers *)

Section Readers.
Variable to_string : json → string.
Variable from_str : string → option json.
Variable warns : bool.

Local Abbreviation consume_events := (consume_events to_string from_str warns).
Local Abbreviation consume_sse_loop := (consume_sse_loop from_str warns).
Local Abbreviation consume_sdk_loop := (consume_sdk_loop from_str warns).
Local Abbreviation consume_sdk_stream := (consume_sdk_stream from_str warns).
Local Abbreviation common_event := (common_event from_str warns).

(** What all three keep of the variables. *)
Definition same_answer (st st' : Consumed) : Prop :=
  cs_content st = cs_content st' ∧ cs_buffers st = cs_buffers st' ∧ cs_calls st = cs_calls st' ∧
  cs_finish st = cs_finish st'.

Lemma parse_arguments_quiet args m :
  parse_arguments from_str warns false args = Returns m → parse_arguments from_str warns true args = Returns m.
Proof.
  unfold parse_arguments. destruct (from_str args) as [[]|], warns; cbn; try done;
    destruct (slice_to _ _); by intros [= <-].
Qed.

(** The common events act alike on alike variables, in the quiet variant whenever in the other. *)
Lemma common_same q q' e st st' r :
  same_answer st st' → (q = q' ∨ (q = false ∧ q' = true)) → common_event q e st = Some r →
  ∃ r', common_event q' e st' = Some r' ∧
    (q = q' → (r = Panics ↔ r' = Panics)) ∧ r ≠ OutOfFuel ∧ r' ≠ OutOfFuel ∧
    ∀ s, r = Returns s → ∃ s', r' = Returns s' ∧ same_answer s s'.
Proof.
  intros (Hc & Hb & Hk & Hf) Hq. unfold common_event.
  repeat (case_match; [intros [= <-]; eexists; split; [reflexivity|]|]); [..|done].
  1-4: split_and!; try done; intros s [= <-]; eexists; split; [reflexivity|];
       unfold item_added, text_delta_event, args_delta, args_done, set_buffers, same_answer; rewrite <-?Hb; cbn;
       repeat case_match; cbn; rewrite <-?Hb; split_and!; congruence.
  unfold item_done. rewrite <-Hb. destruct (function_item e) as [[item c]|].
  - destruct (match cs_buffers st !! c with Some b => b | None => _ end) as [[i nm] args].
    set (raw := if is_empty args then _ else _).
    assert (∀ q, parse_arguments from_str warns q raw ≠ OutOfFuel) as Hof.
    { intros q0. unfold parse_arguments. destruct (from_str raw) as [[]|], warns, q0; cbn; try done; by destruct (slice_to _ _). }
    pose proof (Hof q). pose proof (Hof q').
    destruct (parse_arguments from_str warns q raw) as [m| |] eqn:E, (parse_arguments from_str warns q' raw) as [m'| |] eqn:E';
      cbn; try done; split_and!; try done; try (intros ->; congruence).
    + intros s [= <-]. eexists; split; [reflexivity|]. unfold same_answer; cbn.
      assert (m = m') as -> by (destruct Hq as [->|[-> ->]]; [congruence|apply parse_arguments_quiet in E; congruence]).
      split_and!; congruence.
    + intros s [= <-]. destruct Hq as [->|[-> ->]]; [congruence|]. apply parse_arguments_quiet in E. congruence.
  - split_and!; try done. intros s [= <-]. by eexists.
Qed.

Lemma common_none q q' e st st' : common_event q e st = None → common_event q' e st' = None.
Proof. unfold common_event. by repeat case_match. Qed.

Definition no_failure (events : list json) : Prop := Forall (λ e, is_failure e = false) events.

End Readers.

(** ** Interleaved calls *)

(** The call an event is about. *)
Definition call_of (e : json) : option string :=
  if bool_decide (event_type_of e ∈ ["response.output_item.added"; "response.output_item.done"])
  then snd <$> function_item e
  else if bool_decide (event_type_of e ∈ ["response.function_call_arguments.delta"; "response.function_call_arguments.done"])
  then get_str "call_id" e
  else None.

Definition concerns (c : string) (e : json) : bool := bool_decide (call_of e = Some c).

(** The call a request answers: its identifier up to the bar. *)
Definition owner (tc : ToolCallRequest) : option string := fst <$> split_once "|" (tc_id tc).
Definition owned (c : string) (tc : ToolCallRequest) : bool := bool_decide (owner tc = Some c).

Section Interleaving.
Variable from_str : string → option json.
Variable warns : bool.
Variable c : string.

Local Abbreviation common_event := (common_event from_str warns).
Local Abbreviation consume_sdk_loop := (consume_sdk_loop from_str warns).

Definition plain_ids (events : list json) : Prop :=
  Forall (λ e, ∀ d, call_of e = Some d → no_char "|" d = true) events.

(** Two states that agree on one call. *)
Definition agree (st st' : Consumed) : Prop :=
  cs_buffers st !! c = cs_buffers st' !! c ∧ retain (owned c) (cs_calls st) = cs_calls st'.

Lemma owned_new d i n a : no_char "|" d = true →
  owned c (mkToolCall (d +:+ "|" +:+ i) n a None None None) = bool_decide (d = c).
Proof.
  intros H. unfold owned, owner. cbn. change ("|" +:+ i) with (String "|" i). rewrite split_once_app by done.
  cbn. apply bool_decide_ext. split; [by intros [= ->]|by intros ->].
Qed.

(** Events about other calls, or none. *)
Lemma common_other e st st' r :
  agree st st' → call_of e ≠ Some c → (∀ d, call_of e = Some d → no_char "|" d = true) →
  common_event false e st = Some (Returns r) → agree r st'.
Proof.
  intros [Hb Hk] Hne Hpl. revert Hne Hpl. unfold common_event, call_of.
  destruct (String.eqb_spec (event_type_of e) "response.output_item.added") as [->|_].
  { rewrite bool_decide_true by set_solver. intros Hne _ [= <-]. unfold item_added.
    destruct (function_item e) as [[item d]|]; [|done]. cbn in Hne. split; [|done]. cbn. rewrite lookup_insert_ne; congruence. }
  destruct (String.eqb_spec (event_type_of e) "response.output_text.delta") as [->|_]; [by intros _ _ [= <-]|].
  destruct (String.eqb_spec (event_type_of e) "response.function_call_arguments.delta") as [->|_].
  { rewrite bool_decide_false, bool_decide_true by set_solver. intros Hne _ [= <-]. unfold args_delta.
    destruct (get_str "call_id" e) as [d|]; [|done]. destruct (cs_buffers st !! d) as [[[]]|]; [|done].
    split; [|done]. cbn. rewrite lookup_insert_ne; congruence. }
  destruct (String.eqb_spec (event_type_of e) "response.function_call_arguments.done") as [->|_].
  { rewrite bool_decide_false, bool_decide_true by set_solver. intros Hne _ [= <-]. unfold args_done.
    destruct (get_str "call_id" e) as [d|]; [|done]. destruct (cs_buffers st !! d) as [[[]]|]; [|done].
    split; [|done]. cbn. rewrite lookup_insert_ne; congruence. }
  destruct (String.eqb_spec (event_type_of e) "response.output_item.done") as [->|_]; [|done].
  rewrite bool_decide_true by set_solver. unfold item_done. destruct (function_item e) as [[item d]|]; [|by intros _ _ [= <-]].
  cbn. intros Hne Hpl. specialize (Hpl d eq_refl).
  destruct (match cs_buffers st !! d with Some b => b | None => _ end) as [[i nm] args].
  destruct (parse_arguments _ _ _ _) as [m| |]; cbn; try done. intros [= <-]. split; cbn.
  - rewrite lookup_delete_ne; congruence.
  - rewrite retain_app. cbn. rewrite owned_new by done. rewrite bool_decide_false by congruence. by rewrite app_nil_r.
Qed.

(** Events about the call itself. *)
Lemma common_own e st st' r :
  agree st st' → call_of e = Some c → no_char "|" c = true →
  common_event false e st = Some (Returns r) → ∃ r', common_event false e st' = Some (Returns r') ∧ agree r r'.
Proof.
  intros [Hb Hk] He Hpl. revert He. unfold common_event, call_of.
  destruct (String.eqb_spec (event_type_of e) "response.output_item.added") as [->|_].
  { rewrite bool_decide_true by set_solver. intros He [= <-]. eexists; split; [done|]. unfold item_added.
    destruct (function_item e) as [[item d]|]; [|done]. cbn in He. injection He as ->.
    split; [|done]. cbn. by rewrite !lookup_insert_eq. }
  destruct (String.eqb_spec (event_type_of e) "response.output_text.delta") as [->|_].
  { rewrite !bool_decide_false by set_solver. done. }
  destruct (String.eqb_spec (event_type_of e) "response.function_call_arguments.delta") as [->|_].
  { rewrite bool_decide_false, bool_decide_true by set_solver. intros He [= <-]. eexists; split; [done|].
    unfold args_delta. rewrite He, <-Hb. destruct (cs_buffers st !! c) as [[[]]|] eqn:E; [|by split; congruence].
    split; [|done]. cbn. by rewrite !lookup_insert_eq. }
  destruct (String.eqb_spec (event_type_of e) "response.function_call_arguments.done") as [->|_].
  { rewrite bool_decide_false, bool_decide_true by set_solver. intros He [= <-]. eexists; split; [done|].
    unfold args_done. rewrite He, <-Hb. destruct (cs_buffers st !! c) as [[[]]|] eqn:E; [|by split; congruence].
    split; [|done]. cbn. by rewrite !lookup_insert_eq. }
  destruct (String.eqb_spec (event_type_of e) "response.output_item.done") as [->|_]; [|done].
  rewrite bool_decide_true by set_solver. unfold item_done. destruct (function_item e) as [[item d]|]; [|done].
  cbn. intros [= ->]. rewrite <-Hb.
  destruct (match cs_buffers st !! c with Some b => b | None => _ end) as [[i nm] args].
  destruct (parse_arguments _ _ _ _) as [m| |]; cbn; try done. intros [= <-]. eexists; split; [done|]. split; cbn.
  - by rewrite !lookup_delete_eq.
  - rewrite retain_app. cbn. rewrite owned_new by done. rewrite bool_decide_true by done. by rewrite Hk.
Qed.

Lemma concerned_common e st : call_of e = Some c → ∃ r, common_event false e st = Some r.
Proof.
  unfold call_of, common_event. repeat case_bool_decide; [| |done]; intros _;
    repeat case_match; try (by eexists); bool_to_prop; set_solver.
Qed.

Lemma uncommon_agree e st st' :
  agree st st' →
  (is_completed e = true → agree (completed_sdk e st) st') ∧ agree (set_reason "error" st) st'.
Proof. intros H. split; [|done]. intros _. unfold completed_sdk. by repeat case_match. Qed.

(** C27: Calls whose events are interleaved in a stream do not disturb each other: the requests assembled
    for a call, with names and arguments, are those of the events about it alone. *)
Theorem calls_isolated (events : list json) (st st' out : Consumed) :
  plain_ids events → agree st st' → consume_sdk_loop events st = Returns out →
  ∃ out', consume_sdk_loop (retain (concerns c) events) st' = Returns out' ∧
          retain (owned c) (cs_calls out) = cs_calls out'.
Proof.
  revert st st'. induction events as [|e events IH]; intros st st' Hpl Ha.
  { intros [= <-]. exists st'. by destruct Ha. }
  inversion_clear Hpl as [|?? He Hes]. cbn [Responses.consume_sdk_loop List.filter].
  destruct (concerns c e) eqn:Ec; unfold concerns in Ec.
  - apply bool_decide_eq_true in Ec. cbn [Responses.consume_sdk_loop].
    destruct (concerned_common e st Ec) as (r & Er). rewrite Er. destruct r as [s| |]; cbn; try done.
    destruct (common_own e st st' s Ha Ec (He c Ec) Er) as (s' & -> & Ha'). cbn. by apply IH.
  - apply bool_decide_eq_false in Ec. destruct (common_event false e st) as [[s| |]|] eqn:Er; cbn; try done.
    + apply IH; [done|]. by eapply common_other.
    + destruct (uncommon_agree e st st' Ha) as [H1 H2].
      destruct (is_completed e); [apply IH; auto|]. destruct (is_failure e); by apply IH.
Qed.
End Interleaving.

(** ** Texts of events *)

Definition event_text (to_string : json → string) (v : json) (rest : string) : string :=
  "data: " +:+ to_string v +:+ String nl (String nl rest).

Definition events_text (to_string : json → string) (events : list json) : string :=
  foldr (event_text to_string) "" events.

Lemma trim_end_char_id c s : (∀ r, String.rev s ≠ String c r) → trim_end_char c s = s.
Proof.
  intros H. unfold trim_end_char. rewrite <-(srev_involutive s) at 2. f_equal.
  destruct (String.rev s) as [|a r] eqn:E; [done|]. cbn. destruct (Ascii.eqb_spec a c) as [->|]; [|done]. by destruct (H r).
Qed.

Lemma srev_length s : String.length (String.rev s) = String.length s.
Proof.
  unfold String.rev. assert (∀ s t, String.length (String.rev_app s t) = String.length t + String.length s) as ->; [|done].
  clear s. induction s as [|a s IH]; intros t; cbn; [lia|]. rewrite IH. cbn. lia.
Qed.

Lemma strip_cr_last s r : strip_cr s = s → String.rev s ≠ String cr r.
Proof.
  intros H E. unfold strip_cr in H. rewrite E, Ascii.eqb_refl in H.
  apply (f_equal String.length) in H. rewrite srev_length in H.
  apply (f_equal String.length) in E. rewrite srev_length in E. cbn in E. lia.
Qed.

Lemma strip_prefix_app p s : strip_prefix p (p +:+ s) = Some s.
Proof. induction p as [|a p IH]; [done|]. rewrite sapp_cons. cbn. by rewrite Ascii.eqb_refl. Qed.

Section SseText.
Variable to_string : json → string.
Variable from_str : string → option json.
Context `{!JsonCodec from_str to_string}.

Lemma event_line v : split_on nl (event_text to_string v "") = ["data: " +:+ to_string v; ""; ""].
Proof.
  unfold event_text. destruct (codec_one_line v) as [Hn _]. rewrite sapp_assoc, split_on_app; [done|].
  by rewrite no_char_app, Hn.
Qed.

Lemma rev_snoc_app s t a r : String.rev (s +:+ t) = String a r → t ≠ "" → ∃ r', String.rev t = String a r'.
Proof.
  intros E Ht. assert (String.rev (s +:+ t) = String.rev t +:+ String.rev s) as Hr.
  { unfold String.rev. assert (∀ s t u, String.rev_app (s +:+ t) u = String.rev_app t (String.rev_app s u)) as ->.
    { clear. induction s as [|a s IH]; intros t u; [done|]. rewrite sapp_cons. cbn. apply IH. }
    assert (∀ s u, String.rev_app s u = String.rev_app s "" +:+ u) as Hu.
    { clear. induction s as [|a s IH]; intros u; [done|]. cbn. rewrite IH, (IH (String a "")), <-sapp_assoc. done. }
    apply Hu. }
  rewrite Hr in E. destruct (String.rev t) as [|b r'] eqn:Et; [|rewrite sapp_cons in E; injection E as -> _; by eexists].
  apply (f_equal String.length) in Et. rewrite srev_length in Et. by destruct t.
Qed.

Lemma data_of_event v : data_line (trim_end_char cr ("data: " +:+ to_string v)) = Some (to_string v).
Proof.
  destruct (codec_one_line v) as [_ Hc], (codec_trimmed v) as [Ht Hn].
  rewrite trim_end_char_id.
  - unfold data_line. change ("data: " +:+ to_string v) with ("data:" +:+ String " " (to_string v)).
    rewrite strip_prefix_app. cbn [fmap option_fmap option_map]. f_equal. exact Ht.
  - intros r E. apply rev_snoc_app in E as (r' & E); [|done]. by eapply strip_cr_last.
Qed.

(** A printed event is read, whatever follows. *)
Lemma parse_event v rest out :
  json_ok v = true → to_string v ≠ "[DONE]" →
  sse_lines from_str (split_on nl (event_text to_string v rest)) [] out =
  sse_lines from_str (split_on nl rest) [] (out ++ [v]).
Proof.
  intros Hok Hd. destruct (codec_one_line v) as [Hn _], (codec_trimmed v) as [Ht He].
  unfold event_text. rewrite sapp_assoc, split_on_app by (by rewrite no_char_app, Hn).
  cbn [split_on Ascii.eqb]. rewrite (Ascii.eqb_refl nl). cbn [sse_lines].
  pose proof (data_of_event v) as Hdata.
  destruct (is_empty (trim_end_char cr ("data: " +:+ to_string v))) eqn:Ee.
  { apply is_empty_true in Ee. by rewrite Ee in Hdata. }
  cbn [sse_lines app]. change (is_empty (trim_end_char cr "")) with true. cbv iota.
  unfold flush_events. cbn [filter_map]. rewrite Hdata. cbn [join]. rewrite Ht.
  destruct (is_empty (to_string v)) eqn:Ev; [by apply is_empty_true in Ev|].
  destruct (String.eqb_spec (to_string v) "[DONE]"); [done|]. cbn. by rewrite codec_roundtrip.
Qed.

(** A text of server-sent events is read as the events it was printed from. *)
Theorem sse_roundtrip (events : list json) :
  from_str "[DONE]" = None → Forall (λ v, json_ok v = true) events →
  parse_sse_events from_str (events_text to_string events) = events.
Proof.
  intros Hd H. unfold parse_sse_events.
  assert (∀ out, sse_lines from_str (split_on nl (events_text to_string events)) [] out = out ++ events) as ->; [|done].
  induction H as [|v events Hv _ IH]; intros out; [cbn; by rewrite app_nil_r|].
  cbn [events_text foldr]. rewrite parse_event; [|done|].
  - fold (events_text to_string events). rewrite IH. by rewrite <-app_assoc.
  - intros E. rewrite <-E, codec_roundtrip in Hd by done. done.
Qed.

(** ** Identifiers of calls *)

Definition function_call_item (c i name : string) (args : list (string * json)) : json :=
  JObj [("type", JStr "function_call"); ("id", JStr i); ("call_id", JStr c); ("name", JStr name);
        ("arguments", JStr (to_string (JObj args)))].

Definition result_message (id text : string) : json :=
  JObj [("role", JStr "tool"); ("tool_call_id", JStr id); ("content", JStr text)].

(** A function call the service puts out, read, stored and sent again, is the same item, and the
    result stored for it names the same call: so every result sent is of a call sent. *)
Theorem call_item_roundtrip (c i name text : string) (args : list (string * json)) (warns : bool) (idx : nat) :
  no_char "|" c = true → c ≠ "" → c ≠ "call_0" → i ≠ "" → json_ok (JObj args) = true →
  ∃ tc, output_call from_str warns (function_call_item c i name args) = Returns tc ∧ tc_arguments tc = args ∧
    convert_function_call idx (to_openai_tool_call to_string tc) = function_call_item c i name args ∧
    jget "call_id" (call_output to_string (result_message (tc_id tc) text)) = Some (JStr c).
Proof.
  intros Hc Hc0 Hc1 Hi Ha. exists (mkToolCall (c +:+ String "|" i) name args None None None).
  assert (parse_arguments from_str warns false (to_string (JObj args)) = Returns args) as Hp
    by (unfold parse_arguments; by rewrite codec_roundtrip).
  split; [unfold output_call, function_call_item; cbn -[parse_arguments]; by rewrite Hp|].
  split; [done|].
  assert (split_tool_call_id (Some (c +:+ String "|" i)) = (c, Some i)) as Hs.
  { unfold split_tool_call_id. rewrite split_once_app by done. destruct c; [done|]. by destruct i. }
  unfold convert_function_call, call_output, get_str. cbn -[split_tool_call_id]. rewrite Hs. cbn. split; [|done].
  destruct c as [|a c]; [done|]. cbn [is_empty orb]. rewrite (proj2 (String.eqb_neq _ _) Hc1). done.
Qed.
End SseText.

(** *** What the identifiers do not survive *)

(** The name of a call without one is made up from its place, its result keeps another name. *)
Example unnamed_call_unmatched :
  let call := JObj [("role", JStr "assistant");
    ("tool_calls", JArr [JObj [("id", JStr "call_0|fc_1"); ("function", JObj [("name", JStr "f")])]])] in
  let items := (convert_input_messages binary_to_string [JObj [("role", JStr "user")]; call; result_message "call_0|fc_1" "ok"]).2 in
  (get_str "call_id" <$> items) = [None; Some "call_1"; Some "call_0"].
Proof. reflexivity. Qed.

(** A warning about malformed arguments can end the program. *)
Fixpoint repeat_str (n : nat) (s : string) : string := match n with 0 => "" | S n => s +:+ repeat_str n s end.

Example malformed_arguments_panic :
  let args := "x" +:+ repeat_str 100 (String "195" (String "169" "")) in
  utf8_valid args = true ∧ binary_from_str args = None ∧ parse_arguments binary_from_str true false args = Panics ∧
  parse_arguments binary_from_str false false args = Returns [("raw", JStr args)].
Proof. repeat split; vm_compute; reflexivity. Qed.

(** A failure the stream reports is forgotten when the stream still completes. *)
Example failure_forgotten :
  consume_sse_loop binary_from_str true
    [JObj [("type", JStr "error")]; JObj [("type", JStr "response.completed")]] consumed_init = Returns ("", [], "stop", []) ∧
  consume_events binary_to_string binary_from_str true
    [JObj [("type", JStr "error")]; JObj [("type", JStr "response.completed")]] =
    Returns (Err ("Response failed: " +:+ take_chars 500 (binary_to_string (JObj [("type", JStr "error")])))).
Proof. split; vm_compute; reflexivity. Qed.

(** The friendly text for status 429 is one the retry policy takes for an exhausted quota: Codex
    requests over the rate limit are never repeated. *)
Theorem codex_429_final captures (resp : HttpResponse) :
  h_status resp = 429%Z → is_transient_response (Codex.http_error captures resp) = false.
Proof. intros H. unfold Codex.http_error. rewrite H. vm_compute. reflexivity. Qed.

(** ** Witnesses *)

Definition typed (ty : string) (m : list (string * json)) : json := JObj (("type", JStr ty) :: m).

Definition call_event (ty c : string) : json :=
  typed ty [("item", typed "function_call" [("call_id", JStr c); ("id", JStr ("fc_" +:+ c)); ("name", JStr "read")])].

Definition args_event (c text : string) : json :=
  typed "response.function_call_arguments.delta" [("call_id", JStr c); ("delta", JStr text)].

(** Two calls whose arguments arrive in turns. *)
Definition two_calls : list json :=
  let a := binary_to_string (JObj [("path", JStr "a")]) in
  let b := binary_to_string (JObj [("path", JStr "b")]) in
  [call_event "response.output_item.added" "x"; call_event "response.output_item.added" "y";
   args_event "x" (stake 9 a); args_event "y" (stake 5 b);
   typed "response.output_text.delta" [("delta", JStr "reading")];
   args_event "x" (sdrop 9 a); args_event "y" (sdrop 5 b);
   call_event "response.output_item.done" "y"; call_event "response.output_item.done" "x";
   typed "response.completed" [("response", JObj [("status", JStr "completed")])]].


Lemma calls_isolated_witness :
  ∃ out out', consume_sdk_loop binary_from_str true two_calls consumed_init = Returns out ∧
    consume_sdk_loop binary_from_str true (retain (concerns "x") two_calls) consumed_init = Returns out' ∧
    length (retain (concerns "x") two_calls) = 4 ∧
    (tc_arguments <$> cs_calls out') = [[("path", JStr "a")]] ∧ retain (owned "x") (cs_calls out) = cs_calls out'.
Proof.
  destruct (consume_sdk_loop binary_from_str true two_calls consumed_init) as [out| |] eqn:E; try (vm_compute in E; discriminate).
  destruct (calls_isolated binary_from_str true "x" two_calls consumed_init consumed_init out) as (out' & H1 & H2).
  - repeat (apply Forall_cons; split;
      [intros d Hd; vm_compute in Hd; first [discriminate Hd|injection Hd as <-; reflexivity]|]). by apply Forall_nil.
  - split; reflexivity.
  - exact E.
  - exists out, out'. repeat split; [exact H1| |exact H2]. vm_compute in H1. injection H1 as <-. reflexivity.
Defined.
