(* ===== verification/Registry.v ===== *)
(** * The registry of model services

    [crates/providers/src/registry.rs]: what is known of each service, in order of priority, and
    the two lookups; [crates/utils/src/strings.rs], the normalisation of names.  The table is the
    source's, entry by entry. *)

From S2P Require Import Prelude RustStr Think Utf8 CapabilityProps.

Local Open Scope stdpp_scope.

Inductive Backend := OpenAICompat | Anthropic | AzureOpenAI | OpenAICodex | GitHubCopilot | Bedrock.

#[export] Instance Backend_eq_dec : EqDecision Backend.
Proof. solve_decision. Defined.

Definition backend_as_str (b : Backend) : string :=
  match b with
  | OpenAICompat => "openai_compat"
  | Anthropic => "anthropic"
  | AzureOpenAI => "azure_openai"
  | OpenAICodex => "openai_codex"
  | GitHubCopilot => "github_copilot"
  | Bedrock => "bedrock"
  end.

Record ProviderSpec := mkSpec {
  sp_name : string;
  sp_keywords : list string;
  sp_env_key : string;
  sp_display_name : string;
  sp_backend : Backend;
  sp_env_extras : list (string * string);
  sp_is_gateway : bool;
  sp_is_local : bool;
  sp_detect_by_key_prefix : string;
  sp_detect_by_base_keyword : string;
  sp_default_api_base : string;
  sp_strip_model_prefix : bool;
  sp_supports_max_completion_tokens : bool;
  sp_model_overrides : list (string * list (string * string));
  sp_is_oauth : bool;
  sp_is_direct : bool;
  sp_supports_prompt_caching : bool
}.

Definition spec_label (s : ProviderSpec) : string :=
  if is_empty (sp_display_name s) then sp_name s else sp_display_name s.

Definition spec_custom : ProviderSpec := {|
  sp_name := "custom"; sp_keywords := []; sp_env_key := "";
  sp_display_name := "Custom"; sp_backend := OpenAICompat; sp_env_extras := [];
  sp_is_gateway := false; sp_is_local := false; sp_detect_by_key_prefix := "";
  sp_detect_by_base_keyword := ""; sp_default_api_base := "";
  sp_strip_model_prefix := false; sp_supports_max_completion_tokens := false;
  sp_model_overrides := [];
  sp_is_oauth := false; sp_is_direct := true; sp_supports_prompt_caching := false |}.

Definition spec_azure_openai : ProviderSpec := {|
  sp_name := "azure_openai"; sp_keywords := ["azure"; "azure-openai"]; sp_env_key := "";
  sp_display_name := "Azure OpenAI"; sp_backend := AzureOpenAI; sp_env_extras := [];
  sp_is_gateway := false; sp_is_local := false; sp_detect_by_key_prefix := "";
  sp_detect_by_base_keyword := ""; sp_default_api_base := "";
  sp_strip_model_prefix := false; sp_supports_max_completion_tokens := false;
  sp_model_overrides := [];
  sp_is_oauth := false; sp_is_direct := true; sp_supports_prompt_caching := false |}.

Definition spec_openrouter : ProviderSpec := {|
  sp_name := "openrouter"; sp_keywords := ["openrouter"]; sp_env_key := "OPENROUTER_API_KEY";
  sp_display_name := "OpenRouter"; sp_backend := OpenAICompat; sp_env_extras := [];
  sp_is_gateway := true; sp_is_local := false; sp_detect_by_key_prefix := "sk-or-";
  sp_detect_by_base_keyword := "openrouter"; sp_default_api_base := "https://openrouter.ai/api/v1";
  sp_strip_model_prefix := false; sp_supports_max_completion_tokens := false;
  sp_model_overrides := [];
  sp_is_oauth := false; sp_is_direct := false; sp_supports_prompt_caching := true |}.

Definition spec_aihubmix : ProviderSpec := {|
  sp_name := "aihubmix"; sp_keywords := ["aihubmix"]; sp_env_key := "OPENAI_API_KEY";
  sp_display_name := "AiHubMix"; sp_backend := OpenAICompat; sp_env_extras := [];
  sp_is_gateway := true; sp_is_local := false; sp_detect_by_key_prefix := "";
  sp_detect_by_base_keyword := "aihubmix"; sp_default_api_base := "https://aihubmix.com/v1";
  sp_strip_model_prefix := true; sp_supports_max_completion_tokens := false;
  sp_model_overrides := [];
  sp_is_oauth := false; sp_is_direct := false; sp_supports_prompt_caching := false |}.

Definition spec_siliconflow : ProviderSpec := {|
  sp_name := "siliconflow"; sp_keywords := ["siliconflow"]; sp_env_key := "OPENAI_API_KEY";
  sp_display_name := "SiliconFlow"; sp_backend := OpenAICompat; sp_env_extras := [];
  sp_is_gateway := true; sp_is_local := false; sp_detect_by_key_prefix := "";
  sp_detect_by_base_keyword := "siliconflow"; sp_default_api_base := "https://api.siliconflow.cn/v1";
  sp_strip_model_prefix := false; sp_supports_max_completion_tokens := false;
  sp_model_overrides := [];
  sp_is_oauth := false; sp_is_direct := false; sp_supports_prompt_caching := false |}.

Definition spec_volcengine : ProviderSpec := {|
  sp_name := "volcengine"; sp_keywords := ["volcengine"; "volces"; "ark"]; sp_env_key := "OPENAI_API_KEY";
  sp_display_name := "VolcEngine"; sp_backend := OpenAICompat; sp_env_extras := [];
  sp_is_gateway := true; sp_is_local := false; sp_detect_by_key_prefix := "";
  sp_detect_by_base_keyword := "volces"; sp_default_api_base := "https://ark.cn-beijing.volces.com/api/v3";
  sp_strip_model_prefix := false; sp_supports_max_completion_tokens := false;
  sp_model_overrides := [];
  sp_is_oauth := false; sp_is_direct := false; sp_supports_prompt_caching := false |}.

Definition spec_volcengine_coding_plan : ProviderSpec := {|
  sp_name := "volcengine_coding_plan"; sp_keywords := ["volcengine-plan"]; sp_env_key := "OPENAI_API_KEY";
  sp_display_name := "VolcEngine Coding Plan"; sp_backend := OpenAICompat; sp_env_extras := [];
  sp_is_gateway := true; sp_is_local := false; sp_detect_by_key_prefix := "";
  sp_detect_by_base_keyword := ""; sp_default_api_base := "https://ark.cn-beijing.volces.com/api/coding/v3";
  sp_strip_model_prefix := true; sp_supports_max_completion_tokens := false;
  sp_model_overrides := [];
  sp_is_oauth := false; sp_is_direct := false; sp_supports_prompt_caching := false |}.

Definition spec_byteplus : ProviderSpec := {|
  sp_name := "byteplus"; sp_keywords := ["byteplus"]; sp_env_key := "OPENAI_API_KEY";
  sp_display_name := "BytePlus"; sp_backend := OpenAICompat; sp_env_extras := [];
  sp_is_gateway := true; sp_is_local := false; sp_detect_by_key_prefix := "";
  sp_detect_by_base_keyword := "bytepluses"; sp_default_api_base := "https://ark.ap-southeast.bytepluses.com/api/v3";
  sp_strip_model_prefix := true; sp_supports_max_completion_tokens := false;
  sp_model_overrides := [];
  sp_is_oauth := false; sp_is_direct := false; sp_supports_prompt_caching := false |}.

Definition spec_byteplus_coding_plan : ProviderSpec := {|
  sp_name := "byteplus_coding_plan"; sp_keywords := ["byteplus-plan"]; sp_env_key := "OPENAI_API_KEY";
  sp_display_name := "BytePlus Coding Plan"; sp_backend := OpenAICompat; sp_env_extras := [];
  sp_is_gateway := true; sp_is_local := false; sp_detect_by_key_prefix := "";
  sp_detect_by_base_keyword := ""; sp_default_api_base := "https://ark.ap-southeast.bytepluses.com/api/coding/v3";
  sp_strip_model_prefix := true; sp_supports_max_completion_tokens := false;
  sp_model_overrides := [];
  sp_is_oauth := false; sp_is_direct := false; sp_supports_prompt_caching := false |}.

Definition spec_anthropic : ProviderSpec := {|
  sp_name := "anthropic"; sp_keywords := ["anthropic"; "claude"]; sp_env_key := "ANTHROPIC_API_KEY";
  sp_display_name := "Anthropic"; sp_backend := Anthropic; sp_env_extras := [];
  sp_is_gateway := false; sp_is_local := false; sp_detect_by_key_prefix := "";
  sp_detect_by_base_keyword := ""; sp_default_api_base := "";
  sp_strip_model_prefix := false; sp_supports_max_completion_tokens := false;
  sp_model_overrides := [];
  sp_is_oauth := false; sp_is_direct := false; sp_supports_prompt_caching := true |}.

Definition spec_openai : ProviderSpec := {|
  sp_name := "openai"; sp_keywords := ["openai"; "gpt"]; sp_env_key := "OPENAI_API_KEY";
  sp_display_name := "OpenAI"; sp_backend := OpenAICompat; sp_env_extras := [];
  sp_is_gateway := false; sp_is_local := false; sp_detect_by_key_prefix := "";
  sp_detect_by_base_keyword := ""; sp_default_api_base := "";
  sp_strip_model_prefix := false; sp_supports_max_completion_tokens := true;
  sp_model_overrides := [];
  sp_is_oauth := false; sp_is_direct := false; sp_supports_prompt_caching := false |}.

Definition spec_openai_codex : ProviderSpec := {|
  sp_name := "openai_codex"; sp_keywords := ["openai-codex"]; sp_env_key := "";
  sp_display_name := "OpenAI Codex"; sp_backend := OpenAICodex; sp_env_extras := [];
  sp_is_gateway := false; sp_is_local := false; sp_detect_by_key_prefix := "";
  sp_detect_by_base_keyword := "codex"; sp_default_api_base := "https://chatgpt.com/backend-api";
  sp_strip_model_prefix := false; sp_supports_max_completion_tokens := false;
  sp_model_overrides := [];
  sp_is_oauth := true; sp_is_direct := false; sp_supports_prompt_caching := false |}.

Definition spec_github_copilot : ProviderSpec := {|
  sp_name := "github_copilot"; sp_keywords := ["github_copilot"; "copilot"]; sp_env_key := "";
  sp_display_name := "Github Copilot"; sp_backend := GitHubCopilot; sp_env_extras := [];
  sp_is_gateway := false; sp_is_local := false; sp_detect_by_key_prefix := "";
  sp_detect_by_base_keyword := ""; sp_default_api_base := "https://api.githubcopilot.com";
  sp_strip_model_prefix := true; sp_supports_max_completion_tokens := true;
  sp_model_overrides := [];
  sp_is_oauth := true; sp_is_direct := false; sp_supports_prompt_caching := false |}.

Definition spec_bedrock : ProviderSpec := {|
  sp_name := "bedrock"; sp_keywords := ["bedrock"]; sp_env_key := "";
  sp_display_name := "AWS Bedrock"; sp_backend := Bedrock; sp_env_extras := [];
  sp_is_gateway := false; sp_is_local := false; sp_detect_by_key_prefix := "";
  sp_detect_by_base_keyword := ""; sp_default_api_base := "";
  sp_strip_model_prefix := true; sp_supports_max_completion_tokens := false;
  sp_model_overrides := [];
  sp_is_oauth := false; sp_is_direct := true; sp_supports_prompt_caching := true |}.

Definition spec_deepseek : ProviderSpec := {|
  sp_name := "deepseek"; sp_keywords := ["deepseek"]; sp_env_key := "DEEPSEEK_API_KEY";
  sp_display_name := "DeepSeek"; sp_backend := OpenAICompat; sp_env_extras := [];
  sp_is_gateway := false; sp_is_local := false; sp_detect_by_key_prefix := "";
  sp_detect_by_base_keyword := ""; sp_default_api_base := "https://api.deepseek.com";
  sp_strip_model_prefix := false; sp_supports_max_completion_tokens := false;
  sp_model_overrides := [];
  sp_is_oauth := false; sp_is_direct := false; sp_supports_prompt_caching := false |}.

Definition spec_gemini : ProviderSpec := {|
  sp_name := "gemini"; sp_keywords := ["gemini"]; sp_env_key := "GEMINI_API_KEY";
  sp_display_name := "Gemini"; sp_backend := OpenAICompat; sp_env_extras := [];
  sp_is_gateway := false; sp_is_local := false; sp_detect_by_key_prefix := "";
  sp_detect_by_base_keyword := ""; sp_default_api_base := "https://generativelanguage.googleapis.com/v1beta/openai/";
  sp_strip_model_prefix := false; sp_supports_max_completion_tokens := false;
  sp_model_overrides := [];
  sp_is_oauth := false; sp_is_direct := false; sp_supports_prompt_caching := false |}.

Definition spec_zhipu : ProviderSpec := {|
  sp_name := "zhipu"; sp_keywords := ["zhipu"; "glm"; "zai"]; sp_env_key := "ZAI_API_KEY";
  sp_display_name := "Zhipu AI"; sp_backend := OpenAICompat; sp_env_extras := [("ZHIPUAI_API_KEY", "{api_key}")];
  sp_is_gateway := false; sp_is_local := false; sp_detect_by_key_prefix := "";
  sp_detect_by_base_keyword := ""; sp_default_api_base := "https://open.bigmodel.cn/api/paas/v4";
  sp_strip_model_prefix := false; sp_supports_max_completion_tokens := false;
  sp_model_overrides := [];
  sp_is_oauth := false; sp_is_direct := false; sp_supports_prompt_caching := false |}.

Definition spec_dashscope : ProviderSpec := {|
  sp_name := "dashscope"; sp_keywords := ["qwen"; "dashscope"]; sp_env_key := "DASHSCOPE_API_KEY";
  sp_display_name := "DashScope"; sp_backend := OpenAICompat; sp_env_extras := [];
  sp_is_gateway := false; sp_is_local := false; sp_detect_by_key_prefix := "";
  sp_detect_by_base_keyword := ""; sp_default_api_base := "https://dashscope.aliyuncs.com/compatible-mode/v1";
  sp_strip_model_prefix := false; sp_supports_max_completion_tokens := false;
  sp_model_overrides := [];
  sp_is_oauth := false; sp_is_direct := false; sp_supports_prompt_caching := false |}.

Definition spec_moonshot : ProviderSpec := {|
  sp_name := "moonshot"; sp_keywords := ["moonshot"; "kimi"]; sp_env_key := "MOONSHOT_API_KEY";
  sp_display_name := "Moonshot"; sp_backend := OpenAICompat; sp_env_extras := [];
  sp_is_gateway := false; sp_is_local := false; sp_detect_by_key_prefix := "";
  sp_detect_by_base_keyword := ""; sp_default_api_base := "https://api.moonshot.ai/v1";
  sp_strip_model_prefix := false; sp_supports_max_completion_tokens := false;
  sp_model_overrides := [("kimi-k2.5", [("temperature", "1.0")]); ("kimi-k2.6", [("temperature", "1.0")])];
  sp_is_oauth := false; sp_is_direct := false; sp_supports_prompt_caching := false |}.

Definition spec_minimax : ProviderSpec := {|
  sp_name := "minimax"; sp_keywords := ["minimax"]; sp_env_key := "MINIMAX_API_KEY";
  sp_display_name := "MiniMax"; sp_backend := OpenAICompat; sp_env_extras := [];
  sp_is_gateway := false; sp_is_local := false; sp_detect_by_key_prefix := "";
  sp_detect_by_base_keyword := ""; sp_default_api_base := "https://api.minimax.io/v1";
  sp_strip_model_prefix := false; sp_supports_max_completion_tokens := false;
  sp_model_overrides := [];
  sp_is_oauth := false; sp_is_direct := false; sp_supports_prompt_caching := false |}.

Definition spec_minimax_anthropic : ProviderSpec := {|
  sp_name := "minimax_anthropic"; sp_keywords := ["minimax_anthropic"]; sp_env_key := "MINIMAX_API_KEY";
  sp_display_name := "MiniMax (Anthropic)"; sp_backend := Anthropic; sp_env_extras := [];
  sp_is_gateway := false; sp_is_local := false; sp_detect_by_key_prefix := "";
  sp_detect_by_base_keyword := ""; sp_default_api_base := "https://api.minimax.io/anthropic";
  sp_strip_model_prefix := false; sp_supports_max_completion_tokens := false;
  sp_model_overrides := [];
  sp_is_oauth := false; sp_is_direct := false; sp_supports_prompt_caching := false |}.

Definition spec_mistral : ProviderSpec := {|
  sp_name := "mistral"; sp_keywords := ["mistral"]; sp_env_key := "MISTRAL_API_KEY";
  sp_display_name := "Mistral"; sp_backend := OpenAICompat; sp_env_extras := [];
  sp_is_gateway := false; sp_is_local := false; sp_detect_by_key_prefix := "";
  sp_detect_by_base_keyword := ""; sp_default_api_base := "https://api.mistral.ai/v1";
  sp_strip_model_prefix := false; sp_supports_max_completion_tokens := false;
  sp_model_overrides := [];
  sp_is_oauth := false; sp_is_direct := false; sp_supports_prompt_caching := false |}.

Definition spec_stepfun : ProviderSpec := {|
  sp_name := "stepfun"; sp_keywords := ["stepfun"; "step"]; sp_env_key := "STEPFUN_API_KEY";
  sp_display_name := "Step Fun"; sp_backend := OpenAICompat; sp_env_extras := [];
  sp_is_gateway := false; sp_is_local := false; sp_detect_by_key_prefix := "";
  sp_detect_by_base_keyword := ""; sp_default_api_base := "https://api.stepfun.com/v1";
  sp_strip_model_prefix := false; sp_supports_max_completion_tokens := false;
  sp_model_overrides := [];
  sp_is_oauth := false; sp_is_direct := false; sp_supports_prompt_caching := false |}.

Definition spec_xiaomi_mimo : ProviderSpec := {|
  sp_name := "xiaomi_mimo"; sp_keywords := ["xiaomi_mimo"; "mimo"]; sp_env_key := "XIAOMIMIMO_API_KEY";
  sp_display_name := "Xiaomi MIMO"; sp_backend := OpenAICompat; sp_env_extras := [];
  sp_is_gateway := false; sp_is_local := false; sp_detect_by_key_prefix := "";
  sp_detect_by_base_keyword := ""; sp_default_api_base := "https://api.xiaomimimo.com/v1";
  sp_strip_model_prefix := false; sp_supports_max_completion_tokens := false;
  sp_model_overrides := [];
  sp_is_oauth := false; sp_is_direct := false; sp_supports_prompt_caching := false |}.

Definition spec_vllm : ProviderSpec := {|
  sp_name := "vllm"; sp_keywords := ["vllm"]; sp_env_key := "HOSTED_VLLM_API_KEY";
  sp_display_name := "vLLM/Local"; sp_backend := OpenAICompat; sp_env_extras := [];
  sp_is_gateway := false; sp_is_local := true; sp_detect_by_key_prefix := "";
  sp_detect_by_base_keyword := ""; sp_default_api_base := "";
  sp_strip_model_prefix := false; sp_supports_max_completion_tokens := false;
  sp_model_overrides := [];
  sp_is_oauth := false; sp_is_direct := false; sp_supports_prompt_caching := false |}.

Definition spec_ollama : ProviderSpec := {|
  sp_name := "ollama"; sp_keywords := ["ollama"; "nemotron"]; sp_env_key := "OLLAMA_API_KEY";
  sp_display_name := "Ollama"; sp_backend := OpenAICompat; sp_env_extras := [];
  sp_is_gateway := false; sp_is_local := true; sp_detect_by_key_prefix := "";
  sp_detect_by_base_keyword := "11434"; sp_default_api_base := "http://localhost:11434/v1";
  sp_strip_model_prefix := false; sp_supports_max_completion_tokens := false;
  sp_model_overrides := [];
  sp_is_oauth := false; sp_is_direct := false; sp_supports_prompt_caching := false |}.

Definition spec_lm_studio : ProviderSpec := {|
  sp_name := "lm_studio"; sp_keywords := ["lm-studio"; "lmstudio"; "lm_studio"]; sp_env_key := "LM_STUDIO_API_KEY";
  sp_display_name := "LM Studio"; sp_backend := OpenAICompat; sp_env_extras := [];
  sp_is_gateway := false; sp_is_local := true; sp_detect_by_key_prefix := "";
  sp_detect_by_base_keyword := "1234"; sp_default_api_base := "http://localhost:1234/v1";
  sp_strip_model_prefix := false; sp_supports_max_completion_tokens := false;
  sp_model_overrides := [];
  sp_is_oauth := false; sp_is_direct := false; sp_supports_prompt_caching := false |}.

Definition spec_ovms : ProviderSpec := {|
  sp_name := "ovms"; sp_keywords := ["openvino"; "ovms"]; sp_env_key := "";
  sp_display_name := "OpenVINO Model Server"; sp_backend := OpenAICompat; sp_env_extras := [];
  sp_is_gateway := false; sp_is_local := true; sp_detect_by_key_prefix := "";
  sp_detect_by_base_keyword := ""; sp_default_api_base := "http://localhost:8000/v3";
  sp_strip_model_prefix := false; sp_supports_max_completion_tokens := false;
  sp_model_overrides := [];
  sp_is_oauth := false; sp_is_direct := true; sp_supports_prompt_caching := false |}.

Definition spec_groq : ProviderSpec := {|
  sp_name := "groq"; sp_keywords := ["groq"]; sp_env_key := "GROQ_API_KEY";
  sp_display_name := "Groq"; sp_backend := OpenAICompat; sp_env_extras := [];
  sp_is_gateway := false; sp_is_local := false; sp_detect_by_key_prefix := "";
  sp_detect_by_base_keyword := ""; sp_default_api_base := "https://api.groq.com/openai/v1";
  sp_strip_model_prefix := false; sp_supports_max_completion_tokens := false;
  sp_model_overrides := [];
  sp_is_oauth := false; sp_is_direct := false; sp_supports_prompt_caching := false |}.

Definition spec_qianfan : ProviderSpec := {|
  sp_name := "qianfan"; sp_keywords := ["qianfan"; "ernie"]; sp_env_key := "QIANFAN_API_KEY";
  sp_display_name := "Qianfan"; sp_backend := OpenAICompat; sp_env_extras := [];
  sp_is_gateway := false; sp_is_local := false; sp_detect_by_key_prefix := "";
  sp_detect_by_base_keyword := ""; sp_default_api_base := "https://qianfan.baidubce.com/v2";
  sp_strip_model_prefix := false; sp_supports_max_completion_tokens := false;
  sp_model_overrides := [];
  sp_is_oauth := false; sp_is_direct := false; sp_supports_prompt_caching := false |}.

Definition PROVIDERS : list ProviderSpec :=
  [spec_custom; spec_azure_openai; spec_openrouter; spec_aihubmix; spec_siliconflow;
   spec_volcengine; spec_volcengine_coding_plan; spec_byteplus; spec_byteplus_coding_plan; spec_anthropic;
   spec_openai; spec_openai_codex; spec_github_copilot; spec_bedrock; spec_deepseek;
   spec_gemini; spec_zhipu; spec_dashscope; spec_moonshot; spec_minimax;
   spec_minimax_anthropic; spec_mistral; spec_stepfun; spec_xiaomi_mimo; spec_vllm;
   spec_ollama; spec_lm_studio; spec_ovms; spec_groq; spec_qianfan].

(** ** Names *)

Section Names.
(** Unicode's tables for characters that are not ASCII: their case and their lower-case form. *)
Variable uni_upper uni_lower : string → bool.
Variable uni_to_lower : string → string.

Definition ascii_case (lo hi : Z) (uni : string → bool) (ch : string) : bool :=
  match ch with
  | String a "" => ((lo <=? byte_of a) && (byte_of a <=? hi))%Z
  | _ => uni ch
  end.

Definition is_uppercase : string → bool := ascii_case 65 90 uni_upper.
Definition is_lowercase : string → bool := ascii_case 97 122 uni_lower.

Definition lower_first (ch : string) : string :=
  match ch with
  | String a "" => String (lower_char a) ""
  | _ => uni_to_lower ch
  end.

(** The loop over the characters; an underscore is only put after a character. *)
Fixpoint to_snake_loop (first prev_lower prev_upper : bool) (chars : list string) : string :=
  match chars with
  | [] => ""
  | ch :: rest =>
      if is_uppercase ch then
        let next_is_lower := match rest with c :: _ => is_lowercase c | [] => false end in
        (if negb first && (prev_lower || (prev_upper && next_is_lower)) then "_" else "") +:+
        lower_first ch +:+ to_snake_loop false false true rest
      else ch +:+ to_snake_loop false true false rest
  end.

Definition to_snake (name : string) : string := to_snake_loop true false false (chars_of name).

(** Runs of underscores become one. *)
Fixpoint squeeze (prev_sep : bool) (s : string) : string :=
  match s with
  | "" => ""
  | String a s =>
      if Ascii.eqb a "_" then if prev_sep then squeeze true s else String a (squeeze true s)
      else String a (squeeze false s)
  end.

Definition normalize_provider_name (name : string) : string :=
  squeeze false (to_snake (replace_char "-" "_" name)).

Definition find_by_name (name : string) : option ProviderSpec :=
  find_first (λ p, String.eqb (sp_name p) (normalize_provider_name name)) PROVIDERS.

Definition model_matches (name : string) (p : ProviderSpec) : bool :=
  existsb (λ kw, negb (is_empty kw) && contains_str name kw) (sp_keywords p).

Definition find_by_model (model_name : string) : option ProviderSpec :=
  find_first (model_matches (to_ascii_lowercase model_name)) PROVIDERS.

(** ** Lookups *)

(** Every service is found by its name, also with hyphens or doubled underscores. *)
Theorem find_by_name_complete (s : ProviderSpec) :
  s ∈ PROVIDERS →
  find_by_name (sp_name s) = Some s ∧
  find_by_name (replace_char "_" "-" (sp_name s)) = Some s ∧
  find_by_name (replace_str "_" "__" (sp_name s)) = Some s.
Proof.
  intros H. repeat (apply elem_of_cons in H as [->|H]; [split_and!; vm_compute; reflexivity|]).
  by apply not_elem_of_nil in H.
Qed.

Lemma contains_sub s a b c : contains_str s (a +:+ b +:+ c) = true → contains_str s b = true.
Proof.
  unfold contains_str at 1. destruct (find_sub _ s) as [i|] eqn:E; [intros _|done].
  apply find_sub_split in E as (y & -> & _). rewrite <-!sapp_assoc. do 2 apply contains_app.
  unfold contains_str. by rewrite find_sub_here.
Qed.

Lemma find_first_shadowed {A} (f : A → bool) l1 x l2 y : f x = true → y ∉ l1 ++ [x] → find_first f (l1 ++ x :: l2) ≠ Some y.
Proof.
  intros Hx Hy. induction l1 as [|z l1 IH]; cbn.
  - rewrite Hx. intros [= ->]. set_solver.
  - destruct (f z); [intros [= ->]; set_solver|]. apply IH. set_solver.
Qed.

(** Five services are never chosen for a model's name: one has no keywords, the keywords of the
    others contain one of a service further up. *)
Theorem shadowed_specs (model : string) :
  find_by_model model ≠ Some spec_custom ∧ find_by_model model ≠ Some spec_volcengine_coding_plan ∧
  find_by_model model ≠ Some spec_byteplus_coding_plan ∧ find_by_model model ≠ Some spec_openai_codex ∧
  find_by_model model ≠ Some spec_minimax_anthropic.
Proof.
  unfold find_by_model. set (m := to_ascii_lowercase model).
  assert (∀ (s t : ProviderSpec) kw a b c, sp_keywords t = [kw] → kw = a +:+ b +:+ c → b ≠ "" → b ∈ sp_keywords s →
    model_matches m t = true → model_matches m s = true) as Hsub.
  { intros s t kw a b c Hk -> Hb Hin. unfold model_matches. rewrite Hk. cbn. rewrite orb_false_r. intros H. bool_to_prop.
    apply existsb_exists. exists b. split; [by apply list_elem_of_In|]. destruct (is_empty b) eqn:E; [by apply is_empty_true in E|].
    cbn. by eapply contains_sub. }
  assert (∀ t, find_first (model_matches m) PROVIDERS = Some t → model_matches m t = true) as Hm
    by (intros t Ht; by apply find_first_Some in Ht as [_ ?]).
  assert (∀ l1 s l2 t, PROVIDERS = l1 ++ s :: l2 → (model_matches m t = true → model_matches m s = true) →
    bool_decide (sp_name t ∈ (sp_name <$> l1 ++ [s])) = false → find_first (model_matches m) PROVIDERS ≠ Some t) as Hsh.
  { intros l1 s l2 t E Hi Hn Hf. pose proof (Hm t Hf) as Ht. rewrite E in Hf. revert Hf.
    apply find_first_shadowed; [auto|]. intros Hin. apply bool_decide_eq_false in Hn. apply Hn.
    apply list_elem_of_fmap. eauto. }
  split_and!.
  - intros Hc. by apply Hm in Hc.
  - apply (Hsh (take 5 PROVIDERS) spec_volcengine (drop 6 PROVIDERS)); [done| |done].
    apply (Hsub _ _ "volcengine-plan" "" "volcengine" "-plan"); [done..|]. set_solver.
  - apply (Hsh (take 7 PROVIDERS) spec_byteplus (drop 8 PROVIDERS)); [done| |done].
    apply (Hsub _ _ "byteplus-plan" "" "byteplus" "-plan"); [done..|]. set_solver.
  - apply (Hsh (take 10 PROVIDERS) spec_openai (drop 11 PROVIDERS)); [done| |done].
    apply (Hsub _ _ "openai-codex" "" "openai" "-codex"); [done..|]. set_solver.
  - apply (Hsh (take 9 PROVIDERS) spec_anthropic (drop 10 PROVIDERS)); [done| |done].
    apply (Hsub _ _ "minimax_anthropic" "minimax_" "anthropic" ""); [done..|]. set_solver.
Qed.

(** A model of Bedrock or of GitHub Copilot is taken for the service its name mentions. *)
Example models_misrouted :
  (sp_name <$> find_by_model "bedrock/global.anthropic.claude-opus-4-7") = Some "anthropic" ∧
  (sp_name <$> find_by_model "github-copilot/gpt-4.1") = Some "openai".
Proof. split; vm_compute; reflexivity. Qed.
End Names.
