(* ===== verification/OpenAICompatClient.v ===== *)
(** * The client of OpenAI-compatible services

    [crates/providers/src/openai_compat_provider.rs]: what is done to a message list before it is
    sent, the body of a request with the parameters each service wants, and reading the answer.
    The digest, fresh identifiers, the JSON text format and HTTP are parameters. *)

From S2P Require Import Prelude RustStr F64 Json Network Provider Retry Utf8 Anthropic Responses Registry.

Local Open Scope stdpp_scope.

Definition ALLOWED_MSG_KEYS : gset string :=
  list_to_set ["role"; "content"; "tool_calls"; "tool_call_id"; "name"; "reasoning_content"; "extra_content"].

Definition KIMI_THINKING_MODELS : list string := ["kimi-k2.5"; "kimi-k2.6"; "k2.6-code-preview"].

(** [rsplit_once(c)], the part after. *)
Definition rsplit_tail (c : ascii) (s : string) : option string := (λ i, sdrop (S i) s) <$> rfind_char c s.

Definition is_kimi_thinking (model : string) : bool :=
  let name := to_ascii_lowercase model in
  bool_decide (name ∈ KIMI_THINKING_MODELS) ||
  match rsplit_tail "/" name with Some tail => bool_decide (tail ∈ KIMI_THINKING_MODELS) | None => false end.

Definition uses_openrouter_attribution (spec : option ProviderSpec) (api_base : string) : bool :=
  match spec with Some s => String.eqb (sp_name s) "openrouter" | None => false end ||
  contains_str (to_ascii_lowercase api_base) "openrouter".

Definition compat_supports_temperature (model : string) (reasoning_effort : option string) : bool :=
  if match reasoning_effort with Some r => negb (String.eqb (to_ascii_lowercase r) "none") | None => false end
  then false
  else
    let m := to_ascii_lowercase model in
    negb (contains_str m "gpt-5" || contains_str m "o1" || contains_str m "o3" || contains_str m "o4").

Definition is_ascii_alphanumeric (c : ascii) : bool :=
  let b := byte_of c in
  (((48 <=? b) && (b <=? 57)) || ((65 <=? b) && (b <=? 90)) || ((97 <=? b) && (b <=? 122)))%Z.

Fixpoint all_alphanumeric (s : string) : bool :=
  match s with "" => true | String c s => is_ascii_alphanumeric c && all_alphanumeric s end.

(** ** Messages *)

Section Finalize.
Variable to_string : json → string.
Variable from_str : string → option json.
(** The digest as hexadecimal digits. *)
Variable sha256_hex : string → string.

Definition normalize_tool_call_id (id : string) : string :=
  if (String.length id =? 9) && all_alphanumeric id then id else take_chars 9 (sha256_hex id).

Definition normalize_tool_call_arguments (arguments : json) : string :=
  match arguments with
  | JStr s =>
      if is_empty (trim s) then "{}"
      else match from_str (trim s) with Some (JObj m) => to_string (JObj m) | _ => "{}" end
  | JObj _ => to_string arguments
  | _ => "{}"
  end.

(** The closure [map_id] with the cache it captures. *)
Definition map_id (ids : gmap string string) (v : json) : gmap string string * json :=
  match v with
  | JStr s =>
      match ids !! s with
      | Some canonical => (ids, JStr canonical)
      | None => let canonical := normalize_tool_call_id s in (<[s := canonical]> ids, JStr canonical)
      end
  | _ => (ids, v)
  end.

(** [get_mut(k)] followed by [map_id]. *)
Fixpoint map_id_at (k : string) (ids : gmap string string) (m : list (string * json))
    : gmap string string * list (string * json) :=
  match m with
  | [] => (ids, [])
  | (k', v) :: m =>
      if String.eqb k k' then let '(ids, v) := map_id ids v in (ids, (k', v) :: m)
      else let '(ids, m) := map_id_at k ids m in (ids, (k', v) :: m)
  end.

Definition canonical_function (fn_obj : list (string * json)) : list (string * json) :=
  map_insert "arguments" (JStr (normalize_tool_call_arguments (default JNull (map_get "arguments" fn_obj)))) fn_obj.

Definition normalize_call (ids : gmap string string) (tc : json) : gmap string string * json :=
  match tc with
  | JObj tc_obj =>
      let '(ids, tc_clean) := map_id_at "id" ids tc_obj in
      let fn := match map_get "function" tc_clean with
                | Some (JObj fn_obj) => canonical_function fn_obj
                | _ => [("arguments", JStr "{}")]
                end in
      (ids, JObj (map_insert "function" (JObj fn) tc_clean))
  | _ => (ids, tc)
  end.

Fixpoint normalize_calls (ids : gmap string string) (tcs : list json) : gmap string string * list json :=
  match tcs with
  | [] => (ids, [])
  | tc :: tcs =>
      let '(ids, tc) := normalize_call ids tc in
      let '(ids, tcs) := normalize_calls ids tcs in
      (ids, tc :: tcs)
  end.

Definition finalize_message (ids : gmap string string) (msg : json) : gmap string string * json :=
  match msg with
  | JObj obj =>
      let '(ids, obj') :=
        match map_get "tool_calls" obj with
        | Some (JArr tcs) =>
            let '(ids, tcs) := normalize_calls ids tcs in
            let obj' := map_insert "tool_calls" (JArr tcs) obj in
            (ids, if bool_decide (map_get "role" obj ≫= as_str = Some "assistant")
                  then map_insert "content" JNull obj' else obj')
        | _ => (ids, obj)
        end in
      let '(ids, obj') := map_id_at "tool_call_id" ids obj' in
      (ids, JObj obj')
  | _ => (ids, msg)
  end.

Fixpoint finalize_loop (ids : gmap string string) (msgs : list json) : list json :=
  match msgs with
  | [] => []
  | msg :: msgs => let '(ids, msg) := finalize_message ids msg in msg :: finalize_loop ids msgs
  end.

Definition finalize_messages (messages : list json) : list json :=
  enforce_role_alternation (finalize_loop ∅ (sanitize_request_messages messages ALLOWED_MSG_KEYS)).
End Finalize.

(** ** Requests *)

Record OpenAICompatConfig := mkCompat {
  oc_api_key : option string;
  oc_api_base : option string;
  oc_default_model : string;
  oc_extra_headers : list (string * string);
  oc_extra_body : option (list (string * json));
  oc_spec : option ProviderSpec;
  oc_timeout : Z;
  oc_session_affinity : string
}.

Definition compat_config (model affinity : string) : OpenAICompatConfig :=
  mkCompat None None model [] None None 120 affinity.

(** [OpenAICompatProvider::new]; [env] is the variable [OPENAI_BASE_URL]. *)
Definition compat_base (env : option string) (cfg : OpenAICompatConfig) : string :=
  match oc_api_base cfg with
  | Some b => b
  | None =>
      match sp_default_api_base <$> oc_spec cfg with
      | Some b => b
      | None => default "https://api.openai.com/v1" (trim <$> env)
      end
  end.

Definition compat_endpoint (base : string) : string :=
  let base := trim_end_char "/" base in
  if ends_with base "v1" || ends_with base "v1/" then base +:+ "/chat/completions"
  else base +:+ "/v1/chat/completions".

Definition resolve_model (cfg : OpenAICompatConfig) (req_model : option string) : string :=
  let m := default (oc_default_model cfg) req_model in
  match oc_spec cfg with
  | Some spec => if sp_strip_model_prefix spec then default m (rsplit_tail "/" m) else m
  | None => m
  end.

(** The members of [extra] are put under [extra_body]. *)
Definition merge_into_extra_body (body extra : list (string * json)) : list (string * json) :=
  match default (JObj []) (map_get "extra_body" body) with
  | JObj e => map_insert "extra_body" (JObj (foldl (λ m kv, map_insert kv.1 kv.2 m) e extra)) body
  | other => map_insert "extra_body" other body
  end.

Definition thinking_type (enabled : bool) : list (string * json) :=
  [("thinking", JObj [("type", JStr (if enabled then "enabled" else "disabled"))])].

Definition thinking_extra (name : string) (enabled : bool) : option (list (string * json)) :=
  if String.eqb name "dashscope" then Some [("enable_thinking", JBool enabled)]
  else if String.eqb name "minimax" then Some [("reasoning_split", JBool enabled)]
  else if bool_decide (name ∈ ["volcengine"; "volcengine_coding_plan"; "byteplus"; "byteplus_coding_plan"])
  then Some (thinking_type enabled)
  else None.

Section Request.
Variable to_string : json → string.
Variable from_str : string → option json.
Variable sha256_hex : string → string.
Variable cfg : OpenAICompatConfig.

(** The first pattern the model's name contains gives its parameters. *)
Definition with_overrides (model : string) (body : list (string * json)) : list (string * json) :=
  match oc_spec cfg with
  | Some spec =>
      match find_first (λ o, contains_str (to_ascii_lowercase model) o.1) (sp_model_overrides spec) with
      | Some (_, overrides) =>
          foldl (λ b o, map_insert o.1 (default (JStr o.2) (from_str o.2)) b) body overrides
      | None => body
      end
  | None => body
  end.

Definition semantic_effort (effort : string) : string :=
  let s := to_ascii_lowercase effort in if String.eqb s "minimum" then "minimal" else s.

Definition with_reasoning (model : string) (effort : option string) (body : list (string * json))
    : list (string * json) :=
  match effort with
  | None => body
  | Some e =>
      let semantic := semantic_effort e in
      let name := sp_name <$> oc_spec cfg in
      let wire := if bool_decide (name = Some "dashscope") && String.eqb semantic "minimal" then "minimum" else e in
      let body := map_insert "reasoning_effort" (JStr wire) body in
      let enabled := negb (String.eqb semantic "minimal") in
      let body := match name ≫= λ n, thinking_extra n enabled with
                  | Some extra => merge_into_extra_body body extra
                  | None => body
                  end in
      if is_kimi_thinking model then merge_into_extra_body body (thinking_type enabled) else body
  end.

Definition compat_body (req : ChatRequest) : json :=
  let model := resolve_model cfg (rq_model req) in
  let finalized := finalize_messages to_string from_str sha256_hex (sanitize_empty_content (rq_messages req)) in
  let body := [("model", JStr model); ("messages", JArr finalized)] in
  let body := if compat_supports_temperature model (rq_reasoning_effort req)
              then map_insert "temperature" (json_f64 (rq_temperature req)) body else body in
  let limit := if match oc_spec cfg with Some s => sp_supports_max_completion_tokens s | None => false end
               then "max_completion_tokens" else "max_tokens" in
  let body := map_insert limit (JInt (Z.max (rq_max_tokens req) 1)) body in
  let body := with_reasoning model (rq_reasoning_effort req) (with_overrides model body) in
  let body := match rq_tools req with
              | None | Some [] => body
              | Some tools =>
                  map_insert "tool_choice" (tool_choice_to_value (rq_tool_choice req))
                    (map_insert "tools" (JArr tools) body)
              end in
  JObj (match oc_extra_body cfg with
        | Some extra => foldl (λ b kv, map_insert kv.1 kv.2 b) body extra
        | None => body
        end).
End Request.

(** ** Responses *)

Section Response.
Variable to_string : json → string.
Variable from_str : string → option json.
Variable captures : string → string → option (option string * option string).
(** Fresh identifiers, numbered. *)
Variable short_tool_id : nat → string.

Definition text_of_item (item : json) : option string :=
  match get_str "text" item with Some t => Some t | None => as_str item end.

Definition extract_text (value : json) : option string :=
  match value with
  | JNull => None
  | JStr s => Some s
  | JArr items => match filter_map text_of_item items with [] => None | parts => Some (join "" parts) end
  | other => Some (to_string other)
  end.

Definition cached_paths (usage : json) : list (option json) :=
  [jget "prompt_tokens_details" usage ≫= jget "cached_tokens"; jget "cached_tokens" usage;
   jget "prompt_cache_hit_tokens" usage].

Definition positive_i64 (v : option json) : option Z :=
  z ← v ≫= as_i64; if (0 <? z)%Z then Some z else None.

Definition extract_usage (response : json) : list (string * Z) :=
  match jget "usage" response with
  | Some (JObj u) =>
      let out := [("prompt_tokens", tokens_of "prompt_tokens" (JObj u));
                  ("completion_tokens", tokens_of "completion_tokens" (JObj u));
                  ("total_tokens", tokens_of "total_tokens" (JObj u))] in
      match filter_map positive_i64 (cached_paths (JObj u)) with
      | z :: _ => usage_insert "cached_tokens" z out
      | [] => out
      end
  | _ => []
  end.

Definition parse_call (n : nat) (tc : json) : ToolCallRequest :=
  let fn_obj := jget "function" tc ≫= as_object in
  let name := default "" ((fn_obj ≫= map_get "name") ≫= as_str) in
  let args := match default JNull (fn_obj ≫= map_get "arguments") with
              | JStr s =>
                  if is_empty (trim s) then []
                  else match from_str s with Some (JObj m) => m | _ => [] end
              | JObj m => m
              | _ => []
              end in
  mkToolCall (short_tool_id n) name args None None None.

Fixpoint parse_tool_calls (n : nat) (raw : list json) : list ToolCallRequest :=
  match raw with [] => [] | tc :: raw => parse_call n tc :: parse_tool_calls (S n) raw end.

Record Choices := mkChoices {
  ch_content : option string;
  ch_reasoning : option string;
  ch_finish : string;
  ch_raw_calls : list json
}.

Definition or_else {A} (a b : option A) : option A := match a with Some _ => a | None => b end.

Definition read_choice (first : bool) (st : Choices) (ch : json) : Choices :=
  let m := default JNull (jget "message" ch) in
  let fr := default "stop" (get_str "finish_reason" ch) in
  let finish := if first then fr else ch_finish st in
  let '(finish, raw) :=
    match get_array "tool_calls" m with
    | None | Some [] => (finish, ch_raw_calls st)
    | Some tcs =>
        (if String.eqb fr "tool_calls" || String.eqb fr "stop" then fr else finish, ch_raw_calls st ++ tcs)
    end in
  let text k := jget k m ≫= extract_text in
  mkChoices (or_else (ch_content st) (or_else (text "content") (text "reasoning")))
    (or_else (ch_reasoning st) (or_else (text "reasoning_content") (text "reasoning"))) finish raw.

Definition parse_choices (choices : list json) : Choices :=
  match choices with
  | [] => mkChoices None None "stop" []
  | ch :: rest => foldl (read_choice false) (read_choice true (mkChoices None None "stop" []) ch) rest
  end.

Definition empty_choices : LLMResponse := error_response "Error: API returned empty choices.".

Definition compat_parse_response (body : json) : LLMResponse :=
  match get_array "choices" body with
  | None =>
      let reasoning := jget "reasoning_content" body ≫= extract_text in
      match or_else (jget "content" body) (jget "output_text" body) ≫= extract_text with
      | Some c =>
          mkResponse (Some c) [] (default "stop" (get_str "finish_reason" body)) (extract_usage body) None reasoning
            None None None None None None None
      | None => empty_choices
      end
  | Some [] => empty_choices
  | Some choices =>
      let c := parse_choices choices in
      mkResponse (ch_content c) (parse_tool_calls 0 (ch_raw_calls c)) (ch_finish c) (extract_usage body) None
        (ch_reasoning c) None None None None None None None
  end.

Definition extract_retry_after_header (headers : string → option string) : option f64 :=
  let secs := (λ v, f64_div v (f64_of_Z 1000)) <$> (headers "retry-after-ms" ≫= parse_f64) in
  match positive secs with
  | Some s => Some s
  | None =>
      raw ← headers "retry-after";
      if is_empty (trim raw) then None else (λ n, f64_max n tenth) <$> parse_f64 (trim raw)
  end.

Definition extract_error_type_code (payload : json) : option string * option string :=
  let field k v := to_ascii_lowercase <$> get_str k v in
  match jget "error" payload with
  | Some (JObj e) => (or_else (field "type" (JObj e)) (field "type" payload),
                      or_else (field "code" (JObj e)) (field "code" payload))
  | _ => (field "type" payload, field "code" payload)
  end.

Definition compat_parse_error (status : Z) (headers : string → option string) (payload : string) : LLMResponse :=
  let msg := if is_empty (trim payload) then "Error calling LLM: HTTP " +:+ pretty status
             else "Error: " +:+ take_chars 500 (trim payload) in
  let '(error_type, error_code) := match from_str payload with
                                   | Some v => extract_error_type_code v
                                   | None => (None, None)
                                   end in
  let retry_after := or_else (extract_retry_after_header headers) (extract_retry_after_from_text captures (Some msg)) in
  mkResponse (Some msg) [] "error" [] retry_after None None (Some status) None error_type error_code retry_after
    (headers "x-should-retry" ≫= λ s, retry_flag (to_ascii_lowercase (trim s))).

Variable sha256_hex : string → string.
Variable cfg : OpenAICompatConfig.
Context {S : Type}.
Variable send : S → json → S * Sent.

Definition compat_chat (s : S) (req : ChatRequest) : S * LLMResponse :=
  let '(s, sent) := send s (compat_body to_string from_str sha256_hex cfg req) in
  (s, match sent with
      | SendFailed msg timeout connect => send_failure msg timeout connect
      | Received resp =>
          if negb (http_success (h_status resp)) then
            compat_parse_error (h_status resp) (h_headers resp) (match h_text resp with Ok t => t | Err _ => "" end)
          else
            match h_text resp with
            | Err e => error_response ("Error reading LLM body: " +:+ e)
            | Ok text =>
                match from_str text with
                | None => error_response ("Error: malformed JSON from provider: " +:+ text)
                | Some value => compat_parse_response value
                end
            end
      end).

Definition compat_provider (g : GenerationSettings) : LLMProvider S :=
  mkProvider (oc_default_model cfg) g compat_chat (default_chat_stream compat_chat).
End Response.
