(* ===== verification/OpenAICompatProps.v ===== *)
(** * The OpenAI-compatible client: theorems

    The cache of identifiers is transparent; normalising keeps calls and results paired and what is
    sent acceptable; arguments survive; where the request goes. *)

From S2P Require Import Prelude RustStr F64 Json Network Provider ProviderProps Governance GovernanceProps Retry Utf8 Anthropic AnthropicProps Responses ResponsesProps Registry OpenAICompatClient.

Local Open Scope stdpp_scope.

Lemma map_get_update k k' f m :
  map_get k (map_update k' f m) = if String.eqb k k' then f <$> map_get k m else map_get k m.
Proof.
  induction m as [|[j v] m IH]; cbn; [by destruct (String.eqb k k')|].
  destruct (String.eqb_spec k' j) as [->|Hj]; cbn.
  - destruct (String.eqb_spec k j) as [->|]; [done|]. done.
  - rewrite IH. destruct (String.eqb_spec k j) as [->|]; [|done].
    destruct (String.eqb_spec j k') as [->|]; [done|]. done.
Qed.

Lemma map_get_retain k (p : string * json → bool) m : (∀ v, p (k, v) = true) → map_get k (retain p m) = map_get k m.
Proof.
  intros H. induction m as [|[j v] m IH]; [done|]. cbn [List.filter map_get].
  destruct (p (j, v)) eqn:Ej; cbn [map_get]; [by rewrite IH|]. destruct (String.eqb_spec k j) as [->|]; [by rewrite H in Ej|done].
Qed.

Section CompatFacts.
Variable to_string : json → string.
Variable from_str : string → option json.
Variable sha256_hex : string → string.

Local Abbreviation norm := (normalize_tool_call_id sha256_hex).
Local Abbreviation finalize_loop := (finalize_loop to_string from_str sha256_hex).
Local Abbreviation finalize_messages := (finalize_messages to_string from_str sha256_hex).

(** ** Without the cache *)

Definition canonical (v : json) : json := match v with JStr s => JStr (norm s) | _ => v end.

Definition canonical_call (tc : json) : json :=
  match tc with
  | JObj m =>
      let m := map_update "id" canonical m in
      JObj (map_insert "function"
              (JObj (match map_get "function" m with
                     | Some (JObj f) => canonical_function to_string from_str f
                     | _ => [("arguments", JStr "{}")]
                     end)) m)
  | _ => tc
  end.

Definition canonical_message (msg : json) : json :=
  match msg with
  | JObj obj =>
      JObj (map_update "tool_call_id" canonical
        (match map_get "tool_calls" obj with
         | Some (JArr tcs) =>
             let obj' := map_insert "tool_calls" (JArr (canonical_call <$> tcs)) obj in
             if bool_decide (map_get "role" obj ≫= as_str = Some "assistant")
             then map_insert "content" JNull obj' else obj'
         | _ => obj
         end))
  | _ => msg
  end.

Definition cache_ok (ids : gmap string string) : Prop := ∀ s c, ids !! s = Some c → c = norm s.

Lemma map_id_ok ids v : cache_ok ids → ∃ ids', map_id sha256_hex ids v = (ids', canonical v) ∧ cache_ok ids'.
Proof.
  intros H. destruct v as [| | | |s| |]; try by exists ids. cbn. destruct (ids !! s) as [c|] eqn:E.
  - rewrite (H s c E). by exists ids.
  - eexists. split; [done|]. intros s' c'. destruct (decide (s = s')) as [->|].
    + rewrite lookup_insert_eq. congruence.
    + rewrite lookup_insert_ne by done. apply H.
Qed.

Lemma map_id_at_ok k ids m :
  cache_ok ids → ∃ ids', map_id_at sha256_hex k ids m = (ids', map_update k canonical m) ∧ cache_ok ids'.
Proof.
  intros H. induction m as [|[k' v] m IH]; [by exists ids|]. cbn. destruct (String.eqb k k').
  - destruct (map_id_ok ids v H) as (ids' & -> & H'). by exists ids'.
  - destruct IH as (ids' & -> & H'). by exists ids'.
Qed.

Lemma normalize_call_ok ids tc :
  cache_ok ids → ∃ ids', normalize_call to_string from_str sha256_hex ids tc = (ids', canonical_call tc) ∧ cache_ok ids'.
Proof.
  intros H. destruct tc as [| | | | | |m]; try by exists ids. unfold normalize_call, canonical_call.
  destruct (map_id_at_ok "id" ids m H) as (ids' & -> & H'). by exists ids'.
Qed.

Lemma normalize_calls_ok ids tcs :
  cache_ok ids → ∃ ids', normalize_calls to_string from_str sha256_hex ids tcs = (ids', canonical_call <$> tcs) ∧ cache_ok ids'.
Proof.
  revert ids. induction tcs as [|tc tcs IH]; intros ids H; [by exists ids|]. cbn [normalize_calls fmap list_fmap].
  destruct (normalize_call_ok ids tc H) as (ids1 & -> & H1), (IH ids1 H1) as (ids2 & -> & H2). by exists ids2.
Qed.

Lemma finalize_message_ok ids msg :
  cache_ok ids →
  ∃ ids', finalize_message to_string from_str sha256_hex ids msg = (ids', canonical_message msg) ∧ cache_ok ids'.
Proof.
  intros H. destruct msg as [| | | | | |obj]; try by exists ids. unfold finalize_message, canonical_message.
  assert (∀ ids o, cache_ok ids → ∃ ids', (let '(i, o') := map_id_at sha256_hex "tool_call_id" ids o in (i, JObj o')) =
    (ids', JObj (map_update "tool_call_id" canonical o)) ∧ cache_ok ids') as Hid.
  { intros i o Hi. destruct (map_id_at_ok "tool_call_id" i o Hi) as (i' & -> & ?). by exists i'. }
  destruct (map_get "tool_calls" obj) as [[| | | | |tcs|]|]; try by apply Hid.
  destruct (normalize_calls_ok ids tcs H) as (ids1 & -> & H1). by apply Hid.
Qed.

Lemma finalize_loop_ok ids msgs : cache_ok ids → finalize_loop ids msgs = canonical_message <$> msgs.
Proof.
  revert ids. induction msgs as [|m msgs IH]; intros ids H; [done|]. cbn.
  destruct (finalize_message_ok ids m H) as (ids' & -> & H'). by rewrite (IH ids').
Qed.

(** ** Pairs *)

Local Abbreviation clean := (sanitize_request_message ALLOWED_MSG_KEYS).

Lemma clean_get k m : k ∈ ALLOWED_MSG_KEYS → k ≠ "content" → jget k (clean m) = jget k m.
Proof.
  intros Hk Hc. destruct m as [| | | | | |obj]; try done. unfold clean.
  assert (map_get k (retain (λ kv, bool_decide (kv.1 ∈ ALLOWED_MSG_KEYS)) obj) = map_get k obj) as E
    by (apply map_get_retain; intros v; by apply bool_decide_eq_true).
  case_match; cbn [jget]; [rewrite map_get_insert_ne by done|]; exact E.
Qed.

Lemma canonical_get k m :
  k ≠ "tool_calls" → k ≠ "content" →
  jget k (canonical_message m) = if String.eqb k "tool_call_id" then canonical <$> jget k m else jget k m.
Proof.
  intros H1 H2. destruct m as [| | | | | |obj]; try by destruct (String.eqb k "tool_call_id").
  cbn [canonical_message jget]. rewrite map_get_update.
  assert (∀ l, map_get k (match map_get "tool_calls" obj with
     | Some (JArr tcs) => if bool_decide (map_get "role" obj ≫= as_str = Some "assistant")
         then map_insert "content" JNull (map_insert "tool_calls" (JArr (l tcs)) obj) else map_insert "tool_calls" (JArr (l tcs)) obj
     | _ => obj end) = map_get k obj) as ->; [|done].
  intros l. repeat case_match; rewrite ?map_get_insert_ne by done; done.
Qed.

Lemma canonical_calls m :
  get_array "tool_calls" (canonical_message m) = option_map (List.map canonical_call) (get_array "tool_calls" m).
Proof.
  destruct m as [| | | | | |obj]; try done. unfold get_array. cbn [canonical_message jget]. rewrite map_get_update.
  change (String.eqb "tool_calls" "tool_call_id") with false. cbv iota.
  destruct (map_get "tool_calls" obj) as [[| | | | |tcs|]|] eqn:E; try by rewrite E.
  case_bool_decide; rewrite ?map_get_insert_ne by done; by rewrite map_get_insert.
Qed.

Lemma canonical_call_id tc : get_str "id" (canonical_call tc) = norm <$> get_str "id" tc.
Proof.
  destruct tc as [| | | | | |m]; try done. unfold get_str. cbn [canonical_call jget].
  rewrite map_get_insert_ne by done. rewrite map_get_update. cbn. by destruct (map_get "id" m) as [[]|].
Qed.

Definition prepared (m : json) : json := canonical_message (clean m).

Lemma prepared_role m : get_str "role" (prepared m) = get_str "role" m.
Proof. unfold get_str, prepared. rewrite canonical_get by done. cbn [String.eqb]. by rewrite clean_get by (done || set_solver). Qed.

Lemma prepared_result m : get_str "tool_call_id" (prepared m) = norm <$> get_str "tool_call_id" m.
Proof.
  unfold get_str, prepared. rewrite canonical_get by done. change (String.eqb "tool_call_id" "tool_call_id") with true. cbv iota.
  rewrite clean_get by (done || set_solver). by destruct (jget "tool_call_id" m) as [[]|].
Qed.

Lemma prepared_declared m : declared_ids (prepared m) = norm <$> declared_ids m.
Proof.
  unfold declared_ids, str_field_is. rewrite prepared_role. destruct (get_str "role" m) as [r|]; [|done].
  destruct (String.eqb r "assistant"); [|done]. unfold prepared. rewrite canonical_calls.
  assert (get_array "tool_calls" (clean m) = get_array "tool_calls" m) as ->
    by (unfold get_array; by rewrite clean_get by (done || set_solver)).
  destruct (get_array "tool_calls" m) as [tcs|]; [|done]. cbn. induction tcs as [|tc tcs IH]; [done|].
  cbn. rewrite canonical_call_id. destruct (get_str "id" tc); cbn; [f_equal|]; exact IH.
Qed.

(** No result has the empty identifier, which normalising would turn into a name. *)
Definition results_named (msgs : list json) : Prop :=
  Forall (λ m, str_field_is "role" "tool" m = true → get_str "tool_call_id" m ≠ Some "") msgs.

Lemma prepared_answered m t :
  (str_field_is "role" "tool" m = true → get_str "tool_call_id" m ≠ Some "") →
  answered_id (prepared m) = Some t → ∃ u, answered_id m = Some u ∧ t = norm u.
Proof.
  unfold answered_id, str_field_is. rewrite prepared_role, prepared_result. intros Hn.
  destruct (get_str "role" m) as [r|]; [|done]. destruct (String.eqb r "tool"); [|done]. specialize (Hn eq_refl).
  destruct (get_str "tool_call_id" m) as [u|]; cbn; [|done]. destruct (is_empty u) eqn:Eu; [apply is_empty_true in Eu; congruence|].
  case_match; intros [= <-]. eauto.
Qed.

Lemma prepared_paired msgs : results_named msgs → paired msgs → paired (prepared <$> msgs).
Proof.
  intros Hn [Ho Ha]. split.
  - intros l1 m l2 t E Ht. apply fmap_app_inv in E as (k1 & k2 & -> & E & ->).
    destruct k2 as [|x k2]; [done|]. cbn in E. injection E as -> ->.
    apply Forall_app in Hn as [_ Hx]. inversion_clear Hx as [|?? Hx' _].
    destruct (prepared_answered x t Hx' Ht) as (u & Hu & ->).
    destruct (Ho k1 x k2 u eq_refl Hu) as (a & Hin & Hd). exists (prepared a). rewrite prepared_declared.
    split; by apply list_elem_of_fmap_2.
  - intros a t Hin Ht. apply list_elem_of_fmap in Hin as (x & -> & Hx). rewrite prepared_declared in Ht.
    apply list_elem_of_fmap in Ht as (u & -> & Hu). destruct (Ha x u Hx Hu) as (m & Hm & Hr & Hi).
    exists (prepared m). split; [by apply list_elem_of_fmap_2|]. unfold str_field_is in *.
    by rewrite prepared_role, prepared_result, Hi.
Qed.


(** ** Arguments *)

Context `{!JsonCodec from_str to_string}.

(** The calls of an answer, stored and sent again with normalised arguments, are read with the names
    and arguments they had. *)
Theorem compat_arguments_roundtrip (short_tool_id : nat → string) (n : nat) (tcs : list ToolCallRequest) :
  Forall arguments_ok tcs →
  let read := parse_tool_calls from_str short_tool_id n (canonical_call <$> (to_openai_tool_call to_string <$> tcs)) in
  tc_name <$> read = tc_name <$> tcs ∧ tc_arguments <$> read = tc_arguments <$> tcs.
Proof.
  intros H. revert n. induction H as [|tc tcs Ha _ IH]; intros n; [done|].
  cbn [fmap list_fmap parse_tool_calls]. destruct (IH (S n)) as [IH1 IH2]. rewrite IH1, IH2.
  assert (∀ v, trim (to_string v) = to_string v ∧ is_empty (to_string v) = false) as Ht.
  { intros v. destruct (codec_trimmed v) as [? Hne]. split; [done|]. by apply is_empty_false. }
  destruct (Ht (JObj (tc_arguments tc))) as [Ht1 Ht2].
  assert (parse_call from_str short_tool_id n (canonical_call (to_openai_tool_call to_string tc)) =
          mkToolCall (short_tool_id n) (tc_name tc) (tc_arguments tc) None None None) as ->; [|done].
  destruct tc as [i nm args [e|] [p|] [f|]]; cbn in Ht1, Ht2; unfold arguments_ok in Ha; cbn in Ha;
    unfold parse_call; cbn -[trim]; rewrite ?Ht1, ?Ht2; rewrite ?codec_roundtrip by done; cbn -[trim];
    rewrite ?Ht1, ?Ht2; rewrite ?codec_roundtrip by done; done.
Qed.
End CompatFacts.

(** ** Where requests go *)

(** A service whose entry names no base gets the empty one: neither the environment nor the default
    address is used, and the address of requests is relative. *)
Theorem empty_base_relative (env : option string) (cfg : OpenAICompatConfig) (spec : ProviderSpec) :
  oc_api_base cfg = None → oc_spec cfg = Some spec → sp_default_api_base spec = "" →
  compat_endpoint (compat_base env cfg) = "/v1/chat/completions".
Proof. intros H1 H2 H3. unfold compat_base. rewrite H1, H2. cbn. by rewrite H3. Qed.

(** ** Witness *)

Definition short_history : list json :=
  [JObj [("role", JStr "user"); ("content", JStr "hi")];
   JObj [("role", JStr "assistant"); ("tool_calls", JArr [JObj [("id", JStr "call_1|fc_1"); ("function", JObj [("name", JStr "f")])]])];
   JObj [("role", JStr "tool"); ("tool_call_id", JStr "call_1|fc_1"); ("content", JStr "done")]].

