(* ===== verification/Factory.v ===== *)
(** * Choosing and building a model client

    [crates/providers/src/factory.rs]: the service a configuration means, the checks of its
    credentials and the client built for it.  A built client is described by the configuration it
    is given; the HTTP crate may refuse to make a client ([client_error]). *)

From S2P Require Import Prelude RustStr F64 Json Provider Anthropic Responses Registry OpenAICompatClient OpenAICompatProps.

Local Open Scope stdpp_scope.
Local Open Scope hive_scope.

(** ** Configuration *)

Record ProviderConfig := mkProviderConfig {
  pc_api_key : option string;
  pc_api_base : option string;
  pc_extra_headers : option (list (string * string));
  pc_extra_body : option json
}.

Definition no_provider_config : ProviderConfig := mkProviderConfig None None None None.

(** The members of [ProvidersConfig] with a general entry, by their names. *)
Definition provider_fields : list string :=
  ["custom"; "azure_openai"; "anthropic"; "openai"; "openrouter"; "deepseek"; "groq"; "zhipu"; "dashscope"; "vllm";
   "ollama"; "lm_studio"; "ovms"; "gemini"; "moonshot"; "minimax"; "minimax_anthropic"; "mistral"; "stepfun";
   "xiaomi_mimo"; "aihubmix"; "siliconflow"; "volcengine"; "volcengine_coding_plan"; "byteplus";
   "byteplus_coding_plan"; "openai_codex"; "github_copilot"; "qianfan"].

Record Config := mkConfig {
  cf_model : string;
  cf_provider : string;
  cf_max_tokens : Z;
  cf_temperature : f32;
  cf_reasoning_effort : option string;
  cf_context_window_tokens : Z;
  (** every member has a value, empty by default *)
  cf_providers : string → ProviderConfig
}.

Definition generation_from_config (cfg : Config) : GenerationSettings :=
  mkGeneration (cf_temperature cfg) (cf_max_tokens cfg) (cf_reasoning_effort cfg).

Record BedrockConfig := mkBedrock {
  bk_default_model : string;
  bk_api_key : option string;
  bk_api_base : option string;
  bk_region : option string;
  bk_extra_body : list (string * json)
}.

(** What is built. *)
Inductive Client :=
| CodexClient (default_model : string)
| CopilotClient (default_model : string)
| AzureClient (cfg : Azure.AzureConfig) (g : GenerationSettings)
| AnthropicClient (cfg : AnthropicConfig) (g : GenerationSettings)
| CompatClient (cfg : OpenAICompatConfig) (g : GenerationSettings)
| BedrockClient (cfg : BedrockConfig) (g : GenerationSettings).

Definition azure_config (endpoint api_key deployment : string) : Azure.AzureConfig :=
  Azure.mkAzureConfig endpoint api_key deployment "2024-10-21" [] 120.

(** [extra_headers.insert(k, v)] for each header. *)
Definition with_headers (headers : option (list (string * string))) (acc : list (string * string)) : list (string * string) :=
  foldl (λ acc kv, kv :: retain (λ kv', negb (String.eqb kv'.1 kv.1)) acc) acc (default [] headers).

Definition nonempty (o : option string) : option string := b ← o; if is_empty b then None else Some b.

Definition resolve_api_base (spec : option ProviderSpec) (pc : option ProviderConfig) : option string :=
  or_else (nonempty (pc ≫= pc_api_base)) (nonempty (sp_default_api_base <$> spec)).

Section Factory.
Variable uni_upper uni_lower : string → bool.
Variable uni_to_lower : string → string.
(** The error of making an HTTP client, if there is one; the affinity identifier made for a client. *)
Variable client_error : option string.
Variable affinity : string.
(** [AWS_REGION], else [AWS_DEFAULT_REGION], in the environment. *)
Variable env_region : option string.

Local Abbreviation find_by_name := (find_by_name uni_upper uni_lower uni_to_lower).

Definition resolve_spec (cfg : Config) : option ProviderSpec :=
  let configured := trim (cf_provider cfg) in
  match (if negb (is_empty configured) && negb (String.eqb configured "auto") then find_by_name configured else None) with
  | Some spec => Some spec
  | None => find_by_model (cf_model cfg)
  end.

Definition provider_config_for (cfg : Config) (spec : option ProviderSpec) : option ProviderConfig :=
  s ← spec; if bool_decide (sp_name s ∈ provider_fields) then Some (cf_providers cfg (sp_name s)) else None.

Definition find_by_model_or_prefix (model : string) : option ProviderSpec :=
  match (i ← find_char "/" model; find_by_name (stake i model)) with
  | Some spec => Some spec
  | None => find_by_model model
  end.

Definition is_set (o : option string) : bool := match o with Some k => negb (is_empty k) | None => false end.

(** The checks of credentials. *)
Definition check_credentials (backend : Backend) (model : string) (spec : option ProviderSpec)
    (pc : option ProviderConfig) : result () string :=
  match backend with
  | AzureOpenAI =>
      if match pc with Some p => is_set (pc_api_key p) && is_set (pc_api_base p) | None => false end then Ok ()
      else Err "Azure OpenAI requires api_key and api_base. Set them in ~/.nanobot/config.json under providers.azureOpenai and use `model` for the deployment name."
  | OpenAICompat =>
      if starts_with model "bedrock/" then Ok ()
      else
        let has_key := is_set (pc ≫= pc_api_key) in
        let exempt := match spec with Some s => sp_is_oauth s || sp_is_local s || sp_is_direct s | None => false end in
        if has_key || exempt then Ok ()
        else Err ("No API key configured for provider '" +:+ default "" (sp_name <$> spec) +:+
                  "'. Set one in ~/.nanobot/config.json under the providers section.")
  | _ => Ok ()
  end.

Definition new_client {A} (what : string) (a : A) : result A string :=
  match client_error with None => Ok a | Some e => Err (what +:+ e) end.

Definition build_client (backend : Backend) (cfg : Config) (spec : option ProviderSpec)
    (pc : option ProviderConfig) : result Client string :=
  let model := cf_model cfg in
  let g := generation_from_config cfg in
  let base := resolve_api_base spec pc in
  let headers := with_headers (pc ≫= pc_extra_headers) [] in
  match backend with
  | OpenAICodex => new_client "openai_codex: " (CodexClient model)
  | GitHubCopilot => new_client "github_copilot: " (CopilotClient model)
  | AzureOpenAI =>
      match pc with
      | None => Err "Azure OpenAI provider config missing"
      | Some p =>
          let? az := map_err (λ e, "azure_openai: " +:+ e)
                       (Azure.azure_new (azure_config (default "" (pc_api_base p)) (default "" (pc_api_key p)) model)) in
          match client_error with
          | None => Ok (AzureClient az g)
          | Some _ => Err "azure_openai: failed to build reqwest client"
          end
      end
  | Anthropic =>
      let c := anthropic_config model in
      Ok (AnthropicClient (mkAnthropicConfig (pc ≫= pc_api_key) base (an_default_model c) headers
            (an_api_version c) (an_timeout c) (an_supports_caching c)) g)
  | OpenAICompat =>
      Ok (CompatClient (mkCompat (pc ≫= pc_api_key) base model headers None spec 120 affinity) g)
  | Bedrock => new_client "bedrock: " (BedrockClient (mkBedrock model (pc ≫= pc_api_key) base env_region []) g)
  end.

Definition backend_of (spec : option ProviderSpec) : Backend := default OpenAICompat (sp_backend <$> spec).

Definition make_provider (cfg : Config) : result Client string :=
  let spec := resolve_spec cfg in
  let pc := provider_config_for cfg spec in
  let? _ := check_credentials (backend_of spec) (cf_model cfg) spec pc in
  build_client (backend_of spec) cfg spec pc.

(** *** Building for a backend

    [build_provider] takes the settings one by one; clients keep the default generation settings. *)

Record ProviderBuildConfig := mkBuild {
  pb_model : string;
  pb_api_key : option string;
  pb_api_base : option string;
  pb_extra_headers : option (list (string * json));
  pb_extra_body : option (list (string * json));
  pb_region : option string;
  pb_profile : option string
}.

(** Only headers that are strings are taken. *)
Definition string_headers (headers : option (list (string * json))) : list (string * string) :=
  with_headers (Some (filter_map (λ kv, (λ v, (kv.1, v)) <$> as_str kv.2) (default [] headers))) [].

Definition or_model (d model : string) : string := if is_empty model then d else model.

Definition build_provider (backend : Backend) (cfg : ProviderBuildConfig) : result Client string :=
  let headers := string_headers (pb_extra_headers cfg) in
  match backend with
  | OpenAICodex => new_client "failed to init codex provider: " (CodexClient (pb_model cfg))
  | AzureOpenAI =>
      match pb_api_key cfg, pb_api_base cfg with
      | None, _ => Err "Azure OpenAI api_key is required"
      | _, None => Err "Azure OpenAI api_base is required"
      | Some key, Some base =>
          let c := azure_config base key (pb_model cfg) in
          let? az := Azure.azure_new (Azure.mkAzureConfig base key (pb_model cfg) (Azure.az_api_version c) headers (Azure.az_timeout c)) in
          match client_error with
          | None => Ok (AzureClient az default_generation)
          | Some _ => Err "failed to build reqwest client"
          end
      end
  | GitHubCopilot =>
      new_client "failed to init copilot provider: " (CopilotClient (or_model "github-copilot/gpt-4.1" (pb_model cfg)))
  | Bedrock =>
      new_client "failed to init bedrock provider: "
        (BedrockClient (mkBedrock (or_model "bedrock/global.anthropic.claude-opus-4-7" (pb_model cfg)) (pb_api_key cfg)
           (pb_api_base cfg) (or_else (pb_region cfg) env_region) (default [] (pb_extra_body cfg))) default_generation)
  | Anthropic =>
      let c := anthropic_config (pb_model cfg) in
      Ok (AnthropicClient (mkAnthropicConfig (pb_api_key cfg) (pb_api_base cfg) (an_default_model c) headers
            (an_api_version c) (an_timeout c) (an_supports_caching c)) default_generation)
  | OpenAICompat =>
      Ok (CompatClient (mkCompat (pb_api_key cfg) (pb_api_base cfg) (pb_model cfg) headers (pb_extra_body cfg)
            (find_by_model_or_prefix (pb_model cfg)) 120 affinity) default_generation)
  end.

Definition detect_backend_and_build (model : string) (cfg : ProviderBuildConfig) : result Client string :=
  build_provider (backend_of (find_by_model_or_prefix model)) cfg.

(** ** Signatures *)

Definition preset_signature (cfg : Config) (spec : option ProviderSpec) (pc : option ProviderConfig) : list json :=
  [JStr (cf_model cfg); JStr (default "" (sp_name <$> spec)); JStr (default "" (pc ≫= pc_api_key));
   JStr (default "" (pc ≫= pc_api_base));
   match pc ≫= pc_extra_headers with
   | Some h => JObj (foldl (λ m kv, map_insert kv.1 (JStr kv.2) m) [] h)
   | None => JNull
   end;
   JNull; JNull; JNull; JInt (cf_max_tokens cfg);
   JFloat (if f64_is_finite (cf_temperature cfg) then cf_temperature cfg else S754_zero false);
   JStr (default "" (cf_reasoning_effort cfg)); JInt (cf_context_window_tokens cfg)].

Definition provider_signature (cfg : Config) : list json :=
  let spec := resolve_spec cfg in preset_signature cfg spec (provider_config_for cfg spec) ++ [JArr []].

(** ** Theorems *)

(** The client serves the backend. *)
Definition serves (b : Backend) (c : Client) : Prop :=
  match b, c with
  | OpenAICodex, CodexClient _ | GitHubCopilot, CopilotClient _ | AzureOpenAI, AzureClient _ _
  | Anthropic, AnthropicClient _ _ | OpenAICompat, CompatClient _ _ | Bedrock, BedrockClient _ _ => True
  | _, _ => False
  end.

(** What a configuration must have for its backend. *)
Definition credentials_given (cfg : Config) : bool :=
  let spec := resolve_spec cfg in
  let pc := provider_config_for cfg spec in
  match backend_of spec with
  | AzureOpenAI => is_set (pc ≫= pc_api_key) && is_set (pc ≫= pc_api_base)
  | OpenAICompat =>
      starts_with (cf_model cfg) "bedrock/" || is_set (pc ≫= pc_api_key) ||
      match spec with Some s => sp_is_oauth s || sp_is_local s || sp_is_direct s | None => false end
  | _ => true
  end.

Lemma check_credentials_given cfg :
  let spec := resolve_spec cfg in let pc := provider_config_for cfg spec in
  if credentials_given cfg then check_credentials (backend_of spec) (cf_model cfg) spec pc = Ok ()
  else ∃ e, check_credentials (backend_of spec) (cf_model cfg) spec pc = Err e.
Proof.
  cbv zeta. unfold credentials_given, check_credentials. set (spec := resolve_spec cfg). set (pc := provider_config_for cfg spec).
  destruct (backend_of spec); try done.
  - destruct (starts_with (cf_model cfg) "bedrock/"); cbn; [done|]. destruct (is_set _); cbn; [done|]. case_match; by eauto.
  - destruct pc as [p|]; cbn; [|by eauto]. destruct (is_set (pc_api_key p)), (is_set (pc_api_base p)); cbn; by eauto.
Qed.

(** A client is built exactly when the credentials its backend needs are configured (and the HTTP
    crate can make one); it is of the backend of the resolved service and asks for the configured model. *)
Theorem make_provider_decides (cfg : Config) :
  client_error = None →
  (credentials_given cfg = true →
     ∃ c, make_provider cfg = Ok c ∧ serves (backend_of (resolve_spec cfg)) c) ∧
  (credentials_given cfg = false → ∃ e, make_provider cfg = Err e).
Proof.
  intros Hc. unfold make_provider. pose proof (check_credentials_given cfg) as H. cbv zeta in *.
  split; intros Hg; rewrite Hg in H; [rewrite H|destruct H as (e & ->); by eexists]. cbn [result_bind].
  unfold build_client, new_client. rewrite Hc. unfold credentials_given in Hg.
  destruct (backend_of (resolve_spec cfg)) eqn:E; try by eexists.
  destruct (provider_config_for cfg (resolve_spec cfg)) as [p|] eqn:Ep; cbn in Hg; [|done].
  assert (∃ k b, pc_api_key p = Some k ∧ pc_api_base p = Some b ∧ is_empty k = false ∧ is_empty b = false) as (k & b & Ek & Eb & Hk & Hb).
  { unfold is_set in Hg. destruct (pc_api_key p) as [k|], (pc_api_base p) as [b|]; try done; [|by rewrite andb_false_r in Hg].
    exists k, b. bool_to_prop. done. }
  rewrite Ek, Eb. cbn. unfold Azure.azure_new, azure_config. cbn. rewrite Hk, Hb. cbn. by eexists.
Qed.

(** The configured extra members of a request's body reach no client. *)
Theorem extra_body_ignored (cfg : Config) (c : OpenAICompatConfig) (g : GenerationSettings) :
  make_provider cfg = Ok (CompatClient c g) → oc_extra_body c = None.
Proof.
  unfold make_provider. destruct (check_credentials _ _ _ _) as [[]|]; cbn; [|done].
  unfold build_client, new_client. repeat case_match; try done; cbn; try (by intros [= <- <-]); by destruct (Azure.azure_new _).
Qed.

(** Nothing configured for Bedrock reaches its client. *)
Theorem bedrock_unconfigured (cfg : Config) (b : BedrockConfig) (g : GenerationSettings) :
  make_provider cfg = Ok (BedrockClient b g) → bk_api_key b = None ∧ bk_api_base b = None.
Proof.
  unfold make_provider. destruct (check_credentials _ _ _ _) as [[]|]; cbn; [|done].
  unfold build_client, new_client. destruct (backend_of (resolve_spec cfg)) eqn:E;
    try (repeat case_match; cbn; try done; by destruct (Azure.azure_new _)); try done.
  destruct client_error; [done|]. intros [= <- <-]. cbn.
  assert (∃ s, resolve_spec cfg = Some s ∧ s ∈ PROVIDERS ∧ sp_backend s = Bedrock) as (s & -> & Hin & Hb).
  { unfold backend_of in E. destruct (resolve_spec cfg) as [s|] eqn:Es; [|done]. exists s. split_and!; [done| |done].
    unfold resolve_spec in Es. repeat case_match; simplify_eq;
      match goal with H : Registry.find_by_name _ _ _ _ = Some _ |- _ => unfold Registry.find_by_name in H; by apply find_first_Some in H as [? _]
                    | H : find_by_model _ = Some _ |- _ => unfold find_by_model in H; by apply find_first_Some in H as [? _] end. }
  repeat (apply elem_of_cons in Hin as [->|Hin]; [try done; split; vm_compute; reflexivity|]). by apply not_elem_of_nil in Hin.
Qed.
End Factory.

(** ** The plain configuration of OpenAI *)

Definition openai_only : Config :=
  mkConfig "gpt-4o" "auto" 4096 (S754_zero false) None 128000
    (λ k, if String.eqb k "openai" then mkProviderConfig (Some "sk-x") None None None else no_provider_config).

Definition no_upper (s : string) : bool := false.

Lemma make_provider_decides_witness :
  ∃ c, make_provider no_upper no_upper id None "a" None openai_only = Ok c ∧ serves OpenAICompat c.
Proof. apply (make_provider_decides no_upper no_upper id None "a" None openai_only); vm_compute; reflexivity. Defined.

(** A key for OpenAI is enough to build a client, whose requests have no host. *)
Example openai_key_no_host :
  match make_provider no_upper no_upper id None "a" None openai_only with
  | Ok (CompatClient c _) => compat_endpoint (compat_base (Some "https://proxy/v1") c) = "/v1/chat/completions"
  | _ => False
  end.
Proof. vm_compute. reflexivity. Qed.
