(* ===== verification/OpenResponses.v ===== *)
(** * The OpenResponses endpoint

    [crates/hiveclaw/src/openresponses/], [agent_backend.rs] and [http/responses.rs]: the request
    [POST /v1/responses] with its validation and limits, the answer of the agent or of the
    placeholder, and the answer as one body or as a stream of events.  Base64, the JSON codec,
    identifiers and clock readings are arguments.  A JSON text that repeats a member, which
    derived readers refuse, is outside the values of [Json].  The theorems say what an accepted
    request satisfies, that the pieces of a streamed answer are its text, and when cutting an
    answer panics. *)

From S2P Require Import Prelude RustStr Utf8 F64 Json Bus Network Runner AgentLoop.

Local Open Scope stdpp_scope.
Local Open Scope hive_scope.

(** ** Requests *)

(** An [Option<String>] member with a default. *)
Definition opt_string_field (k : string) (m : list (string * json)) : option (option string) :=
  match map_get k m with
  | None | Some JNull => Some None
  | Some (JStr s) => Some (Some s)
  | Some _ => None
  end.

(** An [Option<Value>] member with a default: [null] reads as [None]. *)
Definition opt_value_field (k : string) (m : list (string * json)) : option json :=
  match map_get k m with None | Some JNull => None | Some v => Some v end.

Inductive RequestContentItem :=
| InputText (text : option string)
| InputFile (filename file_data file_id : option string)
| InputImage (image_url : option string)
| UnknownItem.

Inductive InputItemContent := ContentText (s : string) | ContentItems (l : list RequestContentItem).

Record InputItem := mkInputItem { ii_role : option string; ii_content : option InputItemContent }.

Inductive Input := TextInput (s : string) | ItemsInput (l : list InputItem).

Record OpenResponsesRequest := mkOpenRequest {
  or_model : option string;
  or_input : option Input;
  or_instructions : option string;
  or_stream : option json;
  or_tools : option json;
  or_tool_choice : option json;
  or_max_output_tokens : option json;
  or_max_tool_calls : option json;
  or_extra : list (string * json)
}.

(** The tag of an item: a name, or the index of its variant. *)
Definition variant_index (tag : json) : option nat :=
  match tag with
  | JStr s => Some (if String.eqb s "input_text" then 0 else if String.eqb s "input_file" then 1
                    else if String.eqb s "input_image" then 2 else 3)
  | JInt z => if (z <? 0)%Z then None else Some (Nat.min 3 (Z.to_nat z))
  | _ => None
  end.

Definition variant_of_json (i : nat) (content : json) : option RequestContentItem :=
  match i with
  | 0 => m ← struct_fields ["text"] content; t ← opt_string_field "text" m; Some (InputText t)
  | 1 =>
      m ← struct_fields ["filename"; "file_data"; "file_id"] content;
      n ← opt_string_field "filename" m; d ← opt_string_field "file_data" m;
      i ← opt_string_field "file_id" m; Some (InputFile n d i)
  | 2 => m ← struct_fields ["image_url"] content; u ← opt_string_field "image_url" m; Some (InputImage u)
  | _ => Some UnknownItem
  end.

(** An internally tagged enum: an object with its tag, or an array that starts with it. *)
Definition content_item_of_json (v : json) : option RequestContentItem :=
  match v with
  | JObj m => tag ← map_get "type" m; i ← variant_index tag; variant_of_json i (JObj m)
  | JArr (tag :: rest) => i ← variant_index tag; variant_of_json i (JArr rest)
  | _ => None
  end.

Definition item_content_of_json (v : json) : option InputItemContent :=
  match v with
  | JStr s => Some (ContentText s)
  | JArr l => ContentItems <$> mapM content_item_of_json l
  | _ => None
  end.

Definition input_item_of_json (v : json) : option InputItem :=
  m ← struct_fields ["role"; "content"] v;
  r ← opt_string_field "role" m;
  match opt_value_field "content" m with
  | None => Some (mkInputItem r None)
  | Some c => c ← item_content_of_json c; Some (mkInputItem r (Some c))
  end.

Definition input_of_json (v : json) : option Input :=
  match v with
  | JStr s => Some (TextInput s)
  | JArr l => ItemsInput <$> mapM input_item_of_json l
  | _ => None
  end.

Definition request_fields : list string :=
  ["model"; "input"; "instructions"; "stream"; "tools"; "tool_choice"; "max_output_tokens"; "max_tool_calls"].

(** A struct with a flattened map only reads from an object. *)
Definition request_of_json (v : json) : option OpenResponsesRequest :=
  m ← as_object v;
  model ← opt_string_field "model" m;
  instructions ← opt_string_field "instructions" m;
  input ← match opt_value_field "input" m with None => Some None | Some v => Some <$> input_of_json v end;
  Some (mkOpenRequest model input instructions (opt_value_field "stream" m) (opt_value_field "tools" m)
          (opt_value_field "tool_choice" m) (opt_value_field "max_output_tokens" m) (opt_value_field "max_tool_calls" m)
          (retain (λ kv, negb (existsb (String.eqb kv.1) request_fields)) m)).

(** ** Validation *)

Definition PER_FILE_MAX_BYTES : Z := 1024 * 1024.
Definition TOTAL_ATTACHMENTS_MAX_BYTES : Z := 4 * 1024 * 1024.
Definition MAX_REQUEST_BYTES : Z := 8 * 1024 * 1024.

Record AttachmentMeta := mkMeta { am_filename : string; am_mime : string; am_size : Z }.

Record ValidatedRequest := mkValidated {
  vr_model : string;
  vr_input_text : string;
  vr_stream : bool;
  vr_attachments : list AttachmentMeta
}.

Inductive ValidationError := BadRequest (m : string) | PayloadTooLarge (m : string).

Definition message (e : ValidationError) : string := match e with BadRequest m | PayloadTooLarge m => m end.
Definition is_payload_too_large (e : ValidationError) : bool := match e with PayloadTooLarge _ => true | _ => false end.

Record ParsedDataUri := mkDataUri { du_mime : string; du_payload : string }.

Definition parse_data_uri (s : string) : option ParsedDataUri :=
  rest ← strip_prefix "data:" s;
  '(head, payload) ← split_once "," rest;
  '(mime, encoding) ← split_once ";" head;
  if negb (String.eqb encoding "base64") then None
  else if is_empty mime then None
  else Some (mkDataUri mime payload).

(** What [validate] threads through its loops: the text, the attachments and their size. *)
Record Gathered := mkGathered { ga_text : string; ga_attachments : list AttachmentMeta; ga_total : Z }.

Definition push_text (s : string) (g : Gathered) : Gathered :=
  let text := if is_empty (ga_text g) then "" else ga_text g +:+ String nl "" in
  mkGathered (text +:+ s) (ga_attachments g) (ga_total g).

Definition TOTAL_LIMIT : ValidationError := PayloadTooLarge "attachments exceed 4 MiB total limit".
Definition INPUT_REQUIRED : ValidationError := BadRequest "field 'input' is required and must be non-empty".

Section Validate.
(** The standard alphabet of the third-party crate [base64]. *)
Variable b64_decode : string → option string.

Definition push_attachment (filename : string) (too_large : ValidationError) (uri : ParsedDataUri) (decoded : string)
    (g : Gathered) : result Gathered ValidationError :=
  let size := Z.of_nat (String.length decoded) in
  if (PER_FILE_MAX_BYTES <? size)%Z then Err too_large
  else
    let total := (ga_total g + size)%Z in
    if (TOTAL_ATTACHMENTS_MAX_BYTES <? total)%Z then Err TOTAL_LIMIT
    else Ok (mkGathered (ga_text g) (ga_attachments g ++ [mkMeta filename (du_mime uri) size]) total).

Definition validate_content_item (item : RequestContentItem) (role_is_user : bool) (g : Gathered)
    : result Gathered ValidationError :=
  match item with
  | InputText text => Ok (if role_is_user then push_text (default "" text) g else g)
  | InputFile filename file_data file_id =>
      if file_id is Some _ then Err (BadRequest "field 'file_id' is not supported in v1; use 'file_data'")
      else
        let filename := default "" filename in
        match file_data with
        | None => Err (BadRequest "field 'file_data' must be a data: URI with base64 encoding")
        | Some d =>
            match parse_data_uri d with
            | None => Err (BadRequest "field 'file_data' must be a data: URI with base64 encoding")
            | Some uri =>
                match b64_decode (du_payload uri) with
                | None => Err (BadRequest "field 'file_data' payload is not valid base64")
                | Some decoded =>
                    push_attachment filename (PayloadTooLarge ("file '" +:+ filename +:+ "' exceeds 1 MiB per-file limit")) uri decoded g
                end
            end
        end
  | InputImage image_url =>
      match parse_data_uri (default "" image_url) with
      | None => Err (BadRequest "field 'image_url' must be a data:image/*;base64 URI")
      | Some uri =>
          if negb (starts_with (du_mime uri) "image/") then Err (BadRequest "field 'image_url' must be a data:image/*;base64 URI")
          else
            match b64_decode (du_payload uri) with
            | None => Err (BadRequest "field 'image_url' payload is not valid base64")
            | Some decoded => push_attachment "image" (PayloadTooLarge "image exceeds 1 MiB per-file limit") uri decoded g
            end
      end
  | UnknownItem => Err (BadRequest "unknown content item type '<unrecognised>'")
  end.

Fixpoint validate_content (items : list RequestContentItem) (role_is_user : bool) (g : Gathered)
    : result Gathered ValidationError :=
  match items with
  | [] => Ok g
  | ci :: items => let? g := validate_content_item ci role_is_user g in validate_content items role_is_user g
  end.

Definition validate_item (item : InputItem) (g : Gathered) : result Gathered ValidationError :=
  let role_is_user := bool_decide (ii_role item = Some "user") in
  match ii_content item with
  | None => Ok g
  | Some (ContentText s) => Ok (if role_is_user then push_text s g else g)
  | Some (ContentItems []) => Err (BadRequest "field 'content' must be non-empty when 'input' uses the array form")
  | Some (ContentItems items) => validate_content items role_is_user g
  end.

Fixpoint validate_items (items : list InputItem) (g : Gathered) : result Gathered ValidationError :=
  match items with
  | [] => Ok g
  | item :: items => let? g := validate_item item g in validate_items items g
  end.

Definition validate_input (input : option Input) : result Gathered ValidationError :=
  match input with
  | Some (TextInput s) => if is_empty s then Err INPUT_REQUIRED else Ok (mkGathered s [] 0)
  | Some (ItemsInput []) | None => Err INPUT_REQUIRED
  | Some (ItemsInput items) =>
      let? g := validate_items items (mkGathered "" [] 0) in
      if is_empty (ga_text g) && match ga_attachments g with [] => true | _ => false end then Err INPUT_REQUIRED else Ok g
  end.

Definition validate_stream (v : option json) : result bool ValidationError :=
  match v with
  | None | Some JNull => Ok false
  | Some (JBool b) => Ok b
  | Some _ => Err (BadRequest "field 'stream' must be a boolean")
  end.

Definition validate_max_output (v : option json) : result unit ValidationError :=
  let refused := Err (BadRequest "field 'max_output_tokens' must be a positive integer") in
  match v with
  | None | Some JNull => Ok tt
  | Some n => match as_i64 n with Some i => if (0 <? i)%Z then Ok tt else refused | None => refused end
  end.

Definition validate (req : OpenResponsesRequest) : result ValidatedRequest ValidationError :=
  let model := default "" (or_model req) in
  if is_empty model then Err (BadRequest "field 'model' is required")
  else if negb (starts_with model "openclaw:") then Err (BadRequest "field 'model' must be of the form 'openclaw:<agent-id>'")
  else
    let? g := validate_input (or_input req) in
    let? stream := validate_stream (or_stream req) in
    let? _ := validate_max_output (or_max_output_tokens req) in
    if (TOTAL_ATTACHMENTS_MAX_BYTES <? ga_total g)%Z then Err TOTAL_LIMIT
    else Ok (mkValidated model (ga_text g) stream (ga_attachments g)).
End Validate.

(** ** The placeholder *)

Definition PLACEHOLDER_TEXT : string := "HiveClaw 占位回复：已收到你的请求。".

(** [x.round_ties_even()] of [n / d] for [0 < d]. *)
Definition div_half_even (n d : Z) : Z :=
  let q := (n / d)%Z in
  let r := (n mod d)%Z in
  if (d <? 2 * r)%Z || ((d =? 2 * r)%Z && Z.odd q) then (q + 1)%Z else q.

(** [format!("{:.1}", x)] of a finite [x] that is not negative: the exact value, rounded to
    tenths with ties to even. *)
Definition fixed_tenths (x : f64) : string :=
  let tenths := match x with
                | S754_finite _ m e => if (0 <=? e)%Z then (10 * Z.pos m * 2 ^ e)%Z else div_half_even (10 * Z.pos m) (2 ^ (- e))
                | _ => 0%Z
                end in
  pretty (tenths / 10)%Z +:+ "." +:+ pretty (tenths mod 10)%Z.

Definition format_size (bytes : Z) : string :=
  let n := f64_of_Z bytes in
  let kib := f64_of_Z 1024 in
  let mib := f64_of_Z (1024 * 1024) in
  if f64_lt n kib then pretty bytes +:+ " B"
  else if f64_lt n mib then fixed_tenths (f64_div n kib) +:+ " KiB"
  else fixed_tenths (f64_div n mib) +:+ " MiB".

Definition describe (a : AttachmentMeta) : string :=
  am_filename a +:+ " (" +:+ format_size (am_size a) +:+ ", " +:+ am_mime a +:+ ")".

(** The tail that lists attachments; the first has no separator before it. *)
Definition attachment_tail (attachments : list AttachmentMeta) : string :=
  "附件：" +:+ join ", " (describe <$> attachments).

Definition build_text (attachments : list AttachmentMeta) : string :=
  match attachments with
  | [] => PLACEHOLDER_TEXT
  | _ => PLACEHOLDER_TEXT +:+ attachment_tail attachments
  end.

Definition stream_chunks (attachments : list AttachmentMeta) : list string :=
  ["HiveClaw 占位回复："; "已收到"; "你的请求。"] ++
  match attachments with [] => [] | _ => [attachment_tail attachments] end.

(** ** The answer *)

Record OpenResponse := mkOpenResponse {
  op_id : string;
  op_created : Z;
  op_model : string;
  op_text : string;
  op_input_tokens : Z;
  op_output_tokens : Z;
  op_total_tokens : Z
}.

(** The serialised record; its object, status, item and content kinds are constants. *)
Definition response_to_json (r : OpenResponse) : json :=
  JObj [("id", JStr (op_id r)); ("object", JStr "response"); ("created", JInt (op_created r)); ("model", JStr (op_model r));
        ("status", JStr "completed");
        ("output", JArr [JObj [("type", JStr "message"); ("role", JStr "assistant");
                               ("content", JArr [JObj [("type", JStr "output_text"); ("text", JStr (op_text r))]])]]);
        ("usage", JObj [("input_tokens", JInt (op_input_tokens r)); ("output_tokens", JInt (op_output_tokens r));
                        ("total_tokens", JInt (op_total_tokens r))])].

Definition error_envelope (kind msg : string) : json :=
  JObj [("error", JObj [("type", JStr kind); ("message", JStr msg)])].

Definition invalid_request (msg : string) : json := error_envelope "invalid_request_error" msg.

Definition approx_tokens (text : string) : Z := wrap_u32 (Z.of_nat (chars_count text)).

Definition build_open_response (response_id model : string) (created : Z) (content : string) (attachments : list AttachmentMeta)
    : OpenResponse :=
  let text := if is_empty content then build_text attachments else content in
  let output_tokens := approx_tokens text in
  let input_tokens := wrap_u32 (Z.of_nat (chars_count text)) in
  mkOpenResponse response_id created model text input_tokens output_tokens (wrap_u32 (input_tokens + output_tokens)).

(** The placeholder as a whole answer. *)
Definition build_response (id model : string) (created : Z) (input_chars : nat) (attachments : list AttachmentMeta) : OpenResponse :=
  let text := build_text attachments in
  let output_tokens := approx_tokens text in
  let input_tokens := wrap_u32 (Z.of_nat input_chars) in
  mkOpenResponse id created model text input_tokens output_tokens (wrap_u32 (input_tokens + output_tokens)).

Definition CHUNK_SIZE : nat := 50.

(** [chars[i..end].iter().collect()] for the windows of fifty characters; the number of
    characters is enough fuel. *)
Fixpoint windows (fuel : nat) (chars : list string) : list string :=
  match fuel, chars with
  | S fuel, _ :: _ => join "" (take CHUNK_SIZE chars) :: windows fuel (drop CHUNK_SIZE chars)
  | _, _ => []
  end.

(** A text of one window is cut at half of its bytes, which panics off a boundary. *)
Definition split_into_chunks (text : string) (attachments : list AttachmentMeta) : run (list string) :=
  if is_empty text then Returns (stream_chunks attachments)
  else
    let chars := chars_of text in
    let chunks := windows (length chars) chars in
    if length chunks <? 2 then
      let mid := String.length text / 2 in
      let! a := run_of_option (slice_to text mid) in
      let! b := run_of_option (slice_from text mid) in
      Returns [a; b]
    else Returns chunks.

Record StreamState := mkStream {
  sm_response_id : string;
  sm_model : string;
  sm_created : Z;
  sm_chunks : list string;
  sm_final : OpenResponse
}.

Definition prepare_stream_state (response_id : string) (created : Z) (req : ValidatedRequest) (chunks : list string) : StreamState :=
  mkStream response_id (vr_model req) created chunks
    (build_open_response response_id (vr_model req) created (join "" chunks) (vr_attachments req)).

(** An event before it is written: its name and its data. *)
Record SseEvent := mkSse { se_event : option string; se_data : string }.

(** The agent loop as the endpoint uses it: [process_inbound] and the content of its result. *)
Definition loop_agent {W R} `{!SessionRepo R} (L : Loop W R) (msg : InboundMessage) (st : LoopState W R)
    : run (LoopState W R * result (option string) string) :=
  let! (st, p) := process_inbound L msg st in
  Returns (st, match p with PDone res => Ok (final_content res) | _ => Err "" end).

Section Endpoint.
Context {W : Type}.
Variables (to_string : json → string) (from_slice : string → option json) (b64_decode : string → option string).
(** The agent loop, or none for the placeholder. *)
Variable agent : option (InboundMessage → W → run (W * result (option string) string)).
(** The identifiers drawn and the clocks read by a request. *)
Variables (request_uuid response_uuid : string) (created local_now : Z).

Definition build_inbound (text response_id : string) : InboundMessage :=
  mkInbound "api" "hiveclaw" "default" text local_now [] ∅ (Some ("hiveclaw:" +:+ response_id)).

Definition run_inner (req : ValidatedRequest) (w : W) : run (W * string) :=
  match agent with
  | Some process_inbound =>
      let! (w, r) := process_inbound (build_inbound (vr_input_text req) "inner") w in
      Returns (w, match r with Ok content => default "" content | Err _ => "" end)
  | None => Returns (w, build_text (vr_attachments req))
  end.

Definition response_id : string := "resp_" +:+ response_uuid.

Definition run_sync (req : ValidatedRequest) (w : W) : run (W * OpenResponse) :=
  let! (w, content) := run_inner req w in
  Returns (w, build_open_response response_id (vr_model req) created content (vr_attachments req)).

Definition build_stream_frames (req : ValidatedRequest) (w : W) : run (W * list string) :=
  let! (w, content) := run_inner req w in
  let! chunks := split_into_chunks content (vr_attachments req) in
  Returns (w, chunks).

Definition created_event (s : StreamState) : SseEvent :=
  mkSse (Some "response.created") (to_string
    (JObj [("id", JStr (sm_response_id s)); ("object", JStr "response"); ("created", JInt (sm_created s));
           ("model", JStr (sm_model s)); ("status", JStr "in_progress")])).

Definition delta_event (s : StreamState) (text : string) : SseEvent :=
  mkSse (Some "response.output_text.delta") (to_string (JObj [("id", JStr (sm_response_id s)); ("delta", JStr text)])).

Definition completed_event (s : StreamState) : SseEvent :=
  mkSse (Some "response.completed") (to_string (response_to_json (sm_final s))).

Definition done_event : SseEvent := mkSse None "[DONE]".

Definition build_event_stream (s : StreamState) : list SseEvent :=
  created_event s :: (delta_event s <$> sm_chunks s) ++ [completed_event s; done_event].

(** *** The handler *)

Inductive ResponseBody := JsonBody (v : json) | SseBody (events : list SseEvent).

Record HttpResponse := mkHttp { hr_status : Z; hr_request_id : string; hr_body : ResponseBody }.

(** [HeaderValue::from_str]: visible ASCII and tabs. *)
Definition header_char (c : ascii) : bool :=
  let b := byte_of c in ((32 <=? b) && (b <? 127) || (b =? 9))%Z.

Fixpoint header_ok (s : string) : bool :=
  match s with "" => true | String c s => header_char c && header_ok s end.

Definition header_value (s : string) : string := if header_ok s then s else "invalid".

(** The headers as [to_str] reads them, and the body, [None] when it cannot be read. *)
Record HttpRequest := mkHttpRequest {
  hq_request_id : option string;
  hq_content_type : option string;
  hq_body : option string
}.

Definition extract_or_generate_request_id (r : HttpRequest) : string := default request_uuid (hq_request_id r).

Definition finish_error (request_id : string) (status : Z) (body : json) : HttpResponse :=
  mkHttp status (header_value request_id) (JsonBody body).

Definition sync_response (request_id : string) (req : ValidatedRequest) (w : W) : run (W * HttpResponse) :=
  let! (w, r) := run_sync req w in
  Returns (w, mkHttp 200 (header_value request_id) (JsonBody (response_to_json r))).

Definition streaming_response (request_id : string) (req : ValidatedRequest) (w : W) : run (W * HttpResponse) :=
  let! (w, chunks) := build_stream_frames req w in
  Returns (w, mkHttp 200 (header_value request_id)
                (SseBody (build_event_stream (prepare_stream_state response_id created req chunks)))).

(** [axum::body::to_bytes] with its limit. *)
Definition read_body (r : HttpRequest) : option string :=
  b ← hq_body r; if (Z.of_nat (String.length b) <=? MAX_REQUEST_BYTES)%Z then Some b else None.

Definition handle (r : HttpRequest) (w : W) : run (W * HttpResponse) :=
  let request_id := extract_or_generate_request_id r in
  let ct_ok := match hq_content_type r with Some s => starts_with (to_ascii_lowercase s) "application/json" | None => false end in
  if negb ct_ok then Returns (w, finish_error request_id 415 (invalid_request "Content-Type must be application/json"))
  else
    match read_body r with
    | None => Returns (w, finish_error request_id 413 (invalid_request "request body exceeds 8 MiB transport limit"))
    | Some bytes =>
        match from_slice bytes ≫= request_of_json with
        | None => Returns (w, finish_error request_id 400 (invalid_request "request body is not valid JSON"))
        | Some parsed =>
            match validate b64_decode parsed with
            | Err e => Returns (w, finish_error request_id (if is_payload_too_large e then 413 else 400) (invalid_request (message e)))
            | Ok validated =>
                if vr_stream validated then streaming_response request_id validated w else sync_response request_id validated w
            end
        end
    end.
End Endpoint.

(** ** Joining without a separator *)

Lemma join_cons p ps : join "" (p :: ps) = p +:+ join "" ps.
Proof. destruct ps; cbn [join]; [by rewrite sapp_nil_r|by rewrite sapp_nil_l]. Qed.

Lemma join_app l k : join "" (l ++ k) = join "" l +:+ join "" k.
Proof.
  induction l as [|p l IH]; [by rewrite sapp_nil_l|].
  change ((p :: l) ++ k) with (p :: (l ++ k)). by rewrite !join_cons, IH, sapp_assoc.
Qed.

Lemma join_chars s : join "" (chars_of s) = s.
Proof.
  induction s as [|c s IH]; [done|]. destruct s as [|d r]; [done|]. set (s := String d r) in *.
  change (chars_of (String c s)) with
    (if is_cont d then match chars_of s with x :: xs => String c x :: xs | [] => [String c ""] end else String c "" :: chars_of s).
  destruct (is_cont d), (chars_of s) as [|x xs]; rewrite ?join_cons in *; rewrite ?sapp_cons, ?sapp_nil_l in *; try by rewrite IH.
  all: by cbn in IH; rewrite <-IH.
Qed.

Lemma windows_join n cs : length cs ≤ n → join "" (windows n cs) = join "" cs.
Proof.
  revert cs. induction n as [|n IH]; intros [|c cs] Hn; cbn [windows]; try done; [cbn in Hn; lia|].
  rewrite join_cons, IH.
  - by rewrite <-join_app, take_drop.
  - rewrite length_drop. cbn [length] in *. unfold CHUNK_SIZE. lia.
Qed.

Lemma slice_cut s n a b : slice_to s n = Some a → slice_from s n = Some b → join "" [a; b] = s.
Proof.
  unfold slice_to, slice_from. repeat case_match; intros; simplify_eq. rewrite !join_cons. cbn [join].
  by rewrite sapp_nil_r, stake_sdrop.
Qed.

(** The answer the client reads. *)
Definition shown (answer : string) (attachments : list AttachmentMeta) : string :=
  if is_empty answer then build_text attachments else answer.

Lemma stream_chunks_join attachments : join "" (stream_chunks attachments) = build_text attachments.
Proof. unfold stream_chunks. destruct attachments as [|a l]; [reflexivity|]. rewrite join_app. cbn [join build_text]. reflexivity. Qed.

Lemma split_join_chunks text attachments chunks :
  split_into_chunks text attachments = Returns chunks → join "" chunks = shown text attachments ∧ 2 ≤ length chunks.
Proof.
  unfold split_into_chunks, shown. destruct (is_empty text) eqn:Ht.
  - intros [= <-]. split; [apply stream_chunks_join|]. unfold stream_chunks. rewrite length_app. cbn. lia.
  - destruct (_ <? 2) eqn:Hl.
    + destruct (slice_to _ _) as [a|] eqn:Ea; [|done]. destruct (slice_from _ _) as [b|] eqn:Eb; [|done]. intros [= <-].
      split; [by eapply slice_cut|done].
    + intros [= <-]. rewrite windows_join, join_chars by done. split; [done|]. apply Nat.ltb_ge in Hl. lia.
Qed.

Lemma shown_nonempty answer attachments : is_empty (shown answer attachments) = false.
Proof. unfold shown. destruct (is_empty answer) eqn:E; [by destruct attachments|done]. Qed.

(** The body of the answer holds what the pieces spell. *)
Lemma final_text id model created text attachments chunks :
  split_into_chunks text attachments = Returns chunks →
  op_text (build_open_response id model created (join "" chunks) attachments) = shown text attachments.
Proof. intros [-> _]%split_join_chunks. cbn. by rewrite shown_nonempty. Qed.

(** *** Short answers *)

Lemma windows_short n cs : cs ≠ [] → length cs ≤ CHUNK_SIZE → 0 < n → length (windows n cs) = 1.
Proof.
  intros Hne Hl Hn. destruct n as [|n]; [lia|]. destruct cs as [|c cs]; [done|]. cbn [windows length].
  rewrite drop_ge by done. by destruct n.
Qed.

Lemma windows_long n cs : CHUNK_SIZE < length cs → length cs ≤ n → 2 ≤ length (windows n cs).
Proof.
  intros Hl Hn. unfold CHUNK_SIZE in Hl. destruct n as [|[|n]]; [lia..|]. destruct cs as [|c cs]; [cbn in Hl; lia|]. cbn [windows length].
  destruct (drop _ _) as [|d ds] eqn:E; [|cbn; lia]. apply (f_equal length) in E. rewrite length_drop in E. unfold CHUNK_SIZE in E. cbn [length] in *. lia.
Qed.

(** [split_into_chunks] panics exactly on the answers of at most fifty characters whose middle
    byte lies inside a character. *)
Theorem split_panics_iff text attachments :
  split_into_chunks text attachments = Panics ↔
  text ≠ "" ∧ length (chars_of text) ≤ CHUNK_SIZE ∧ is_char_boundary text (String.length text / 2) = false.
Proof.
  unfold split_into_chunks. destruct text as [|c s]; [by split; [|intros [? _]]|]. set (t := String c s). cbn [is_empty].
  assert (chars_of t ≠ []) as Hne by (intros E; pose proof (join_chars t) as H; by rewrite E in H).
  assert (0 < length (chars_of t)) as Hp by (destruct (chars_of t); [done|cbn; lia]).
  destruct (decide (length (chars_of t) ≤ CHUNK_SIZE)) as [Hl|Hl].
  - rewrite windows_short by done. cbn [Nat.ltb Nat.leb]. unfold slice_to, slice_from.
    destruct (is_char_boundary t _) eqn:E; cbn [run_of_option run_bind].
    + rewrite andb_true_r, (proj2 (Nat.leb_le _ _)) by (apply Nat.Div0.div_le_upper_bound; lia). split; [done|]. by intros (_ & _ & ?).
    + split; [|done]. done.
  - rewrite (proj2 (Nat.ltb_ge _ _)) by (apply windows_long; lia). split; [done|]. intros (_ & ? & _). lia.
Qed.

(** A greeting of three characters cannot be streamed. *)
Example short_answer_panics : split_into_chunks "你好吗" [] = Panics.
Proof. reflexivity. Qed.

(** ** What validation guarantees *)

Definition sizes (l : list AttachmentMeta) : Z := foldr (λ a s, (am_size a + s)%Z) 0%Z l.

Definition within_limits (l : list AttachmentMeta) : Prop :=
  Forall (λ a, (0 <= am_size a <= PER_FILE_MAX_BYTES)%Z) l ∧ (sizes l <= TOTAL_ATTACHMENTS_MAX_BYTES)%Z.

Definition gathered_ok (g : Gathered) : Prop := within_limits (ga_attachments g) ∧ ga_total g = sizes (ga_attachments g).

Lemma sizes_app l k : sizes (l ++ k) = (sizes l + sizes k)%Z.
Proof. unfold sizes. induction l as [|a l IH]; cbn; [done|]. rewrite IH. lia. Qed.

Lemma sizes_cons a l : sizes (a :: l) = (am_size a + sizes l)%Z.
Proof. done. Qed.

Section ValidateFacts.
Variable b64_decode : string → option string.

Lemma push_attachment_ok filename e uri decoded g g' :
  push_attachment filename e uri decoded g = Ok g' → gathered_ok g → gathered_ok g'.
Proof.
  unfold push_attachment. destruct (Z.ltb_spec PER_FILE_MAX_BYTES (Z.of_nat (String.length decoded))); [done|].
  destruct (Z.ltb_spec TOTAL_ATTACHMENTS_MAX_BYTES (ga_total g + Z.of_nat (String.length decoded))); [done|].
  intros [= <-] [[Hf Hs] Ht]. unfold gathered_ok, within_limits. cbn [ga_attachments ga_total]. rewrite sizes_app. cbn.
  split_and!; [|lia..]. apply Forall_app. split; [done|]. constructor; [cbn; lia|done].
Qed.

Lemma push_text_ok s g : gathered_ok g → gathered_ok (push_text s g).
Proof. done. Qed.

Lemma validate_content_item_ok ci user g g' :
  validate_content_item b64_decode ci user g = Ok g' → gathered_ok g → gathered_ok g'.
Proof.
  unfold validate_content_item. intros H Hg. repeat case_match; simplify_eq; try done; by eapply push_attachment_ok.
Qed.

Lemma validate_content_ok items user g g' :
  validate_content b64_decode items user g = Ok g' → gathered_ok g → gathered_ok g'.
Proof.
  revert g. induction items as [|ci items IH]; cbn; intros g; [by intros [= <-]|].
  destruct (validate_content_item _ ci user g) eqn:E; cbn; [|done]. intros H Hg.
  eapply IH; [done|]. by eapply validate_content_item_ok.
Qed.

Lemma validate_items_ok items g g' : validate_items b64_decode items g = Ok g' → gathered_ok g → gathered_ok g'.
Proof.
  revert g. induction items as [|item items IH]; cbn; intros g; [by intros [= <-]|].
  destruct (validate_item _ item g) as [g1|] eqn:E; cbn; [|done]. intros H Hg. eapply IH; [done|].
  unfold validate_item in E. repeat case_match; simplify_eq; try done. by eapply validate_content_ok.
Qed.

Lemma validate_input_ok input g :
  validate_input b64_decode input = Ok g → gathered_ok g ∧ (ga_text g ≠ "" ∨ ga_attachments g ≠ []).
Proof.
  assert (∀ s, gathered_ok (mkGathered s [] 0)) as H0 by (intros s; unfold gathered_ok, within_limits; cbn; done).
  unfold validate_input. intros H. destruct input as [[s|items]|]; [| |done].
  - destruct (is_empty s) eqn:E; [done|]. simplify_eq. split; [done|]. left. cbn. intros Hs. by rewrite Hs in E.
  - destruct items as [|i items]; [done|]. destruct (validate_items _ _ _) as [g'|] eqn:E; cbn in H; [|done].
    destruct (_ && _) eqn:Eb; [done|]. simplify_eq. split; [by eapply validate_items_ok|].
    apply andb_false_iff in Eb as [Eb|Eb]; [left; by intros Ht; rewrite Ht in Eb|right; by intros Ht; rewrite Ht in Eb].
Qed.

(** A request that is accepted names an agent, has something in it, and respects the limits
    for one attachment and for all of them. *)
Theorem validate_limits req v :
  validate b64_decode req = Ok v →
  starts_with (vr_model v) "openclaw:" = true ∧ (vr_input_text v ≠ "" ∨ vr_attachments v ≠ []) ∧ within_limits (vr_attachments v).
Proof.
  unfold validate. destruct (is_empty _); [done|]. destruct (starts_with _ _) eqn:Em; cbn [negb]; [|done].
  destruct (validate_input _ _) as [g|] eqn:E; cbn; [|done]. apply validate_input_ok in E as [[Hg _] Hne].
  destruct (validate_stream _); cbn; [|done]. destruct (validate_max_output _); cbn; [|done]. case_match; [done|]. by intros [= <-].
Qed.
End ValidateFacts.
