(* ===== verification/Conversation.v ===== *)
(** * The conversation of the desktop client

    [crates/hivegui/src/model/conversation.rs], [client/] and the pipelines of
    [ui/conversation.rs]: turns with at most one pending, the attachments of the next turn, the
    request sent to the OpenResponses endpoint, and the tasks that feed its answer back.  Random
    identifiers and clock readings are numbered draws: [w] counts those made so far.  The event
    source, Base64, MIME guessing and error texts of third-party crates are arguments.  The
    lock of the input mirror is never poisoned, since nothing panics while holding it. *)

From S2P Require Import Prelude RustStr Json.

Local Open Scope stdpp_scope.
Local Open Scope hive_scope.

(** ** Data *)

Abbreviation Uuid := Z.

Inductive Author := User | Assistant.

Record Attachment := mkAttachment {
  at_id : Uuid;
  at_filename : string;
  at_mime : string;
  at_size : Z;
  (** The one payload variant, [Inline]. *)
  at_data_uri : string
}.

Inductive TurnContent :=
| UserMessage (text : string) (attachments : list Attachment)
| AssistantText (buffer : string).

Inductive TurnErrorKind := Unreachable | TransportFailure | ServerError.

Record TurnError := mkTurnError { te_kind : TurnErrorKind; te_message_zh : string }.

Inductive TurnStatus := Pending | Delivered | Failed (retryable : bool).

Record ConversationTurn := mkTurn {
  ct_id : Uuid;
  ct_author : Author;
  ct_content : TurnContent;
  ct_status : TurnStatus;
  ct_created_at : Z;
  ct_completed_at : option Z;
  ct_error : option TurnError
}.

#[export] Instance author_eq_dec : EqDecision Author.
Proof. solve_decision. Defined.
#[export] Instance status_eq_dec : EqDecision TurnStatus.
Proof. solve_decision. Defined.

Definition MAX_ATTACHMENTS_PER_TURN : nat := 8.
Definition TURN_TOTAL_MAX_BYTES : Z := 4 * 1024 * 1024.
Definition PER_FILE_MAX_BYTES_U64 : Z := 1024 * 1024.

Inductive SendError := SendBusy | SendEmpty | TooManyAttachments | TotalTooLarge.
Inductive RetryError := NotFound | NotRetryable | RetryBusy.

Record Conversation := mkConversation {
  cv_id : Uuid;
  cv_turns : list ConversationTurn;
  cv_pending : option Uuid;
  cv_started_at : Z
}.

Definition set_turns (turns : list ConversationTurn) (pending : option Uuid) (c : Conversation) : Conversation :=
  mkConversation (cv_id c) turns pending (cv_started_at c).

Definition is_busy (c : Conversation) : bool := bool_decide (is_Some (cv_pending c)).

Definition is_assistant (t : ConversationTurn) : bool := bool_decide (ct_author t = Assistant).
Definition has_assistant_text (t : ConversationTurn) : bool := match ct_content t with AssistantText _ => true | _ => false end.
Definition has_turn_id (i : Uuid) (t : ConversationTurn) : bool := (ct_id t =? i)%Z.
Definition is_pending (t : ConversationTurn) : bool := bool_decide (ct_status t = Pending).

(** [iter().map(|a| a.size_bytes).sum()] on [u64]. *)
Definition total_size (attachments : list Attachment) : Z := foldl (λ s a, wrap_u64 (s + at_size a)) 0%Z attachments.

Definition set_status (st : TurnStatus) (completed : option Z) (error : option TurnError) (t : ConversationTurn) : ConversationTurn :=
  mkTurn (ct_id t) (ct_author t) (ct_content t) st (ct_created_at t) completed error.

Definition set_content (c : TurnContent) (t : ConversationTurn) : ConversationTurn :=
  mkTurn (ct_id t) (ct_author t) c (ct_status t) (ct_created_at t) (ct_completed_at t) (ct_error t).

(** [push_str] and assignment on the buffer of an assistant text. *)
Definition map_buffer (f : string → string) (t : ConversationTurn) : ConversationTurn :=
  match ct_content t with AssistantText b => set_content (AssistantText (f b)) t | _ => t end.

(** [iter_mut().rev().find(p)] and a change of what it finds. *)
Definition alter_last (p : ConversationTurn → bool) (f : ConversationTurn → ConversationTurn) (ts : list ConversationTurn)
    : list ConversationTurn :=
  match rposition p ts with Some i => alter f i ts | None => ts end.

Section Model.
Variables (clock : nat → Z) (uuid : nat → Uuid).

Definition Conversation_new (w : nat) : Conversation * nat :=
  (mkConversation (uuid w) [] None (clock (S w)), S (S w)).

Definition user_turn (w : nat) (content : TurnContent) : ConversationTurn :=
  mkTurn (uuid w) User content Pending (clock (S w)) None None.

Definition assistant_turn (w : nat) (text : string) : ConversationTurn :=
  mkTurn (uuid w) Assistant (AssistantText text) Delivered (clock (S w)) (Some (clock (S (S w)))) None.

Definition send_user_message (text : string) (attachments : list Attachment) (c : Conversation) (w : nat)
    : Conversation * nat * result Uuid SendError :=
  if is_busy c then (c, w, Err SendBusy)
  else if is_empty text && match attachments with [] => true | _ => false end then (c, w, Err SendEmpty)
  else if MAX_ATTACHMENTS_PER_TURN <? length attachments then (c, w, Err TooManyAttachments)
  else if (TURN_TOTAL_MAX_BYTES <? total_size attachments)%Z then (c, w, Err TotalTooLarge)
  else (set_turns (cv_turns c ++ [user_turn w (UserMessage text attachments)]) (Some (uuid w)) c, S (S w), Ok (uuid w)).

(** [user_turn_started], which reads the clock when the turn is not there. *)
Definition user_turn_started (pending : Uuid) (c : Conversation) (w : nat) : Z * nat :=
  match find_first (has_turn_id pending) (cv_turns c) with
  | Some t => (ct_created_at t, w)
  | None => (clock w, S w)
  end.

(** [any(|t| p(t) && t.created_at >= self.user_turn_started(pending))]. *)
Fixpoint any_since (p : ConversationTurn → bool) (pending : Uuid) (c : Conversation) (ts : list ConversationTurn) (w : nat) : bool * nat :=
  match ts with
  | [] => (false, w)
  | t :: ts =>
      if p t then
        let '(started, w) := user_turn_started pending c w in
        if (started <=? ct_created_at t)%Z then (true, w) else any_since p pending c ts w
      else any_since p pending c ts w
  end.

Definition append_assistant_chunk (pending : Uuid) (chunk : string) (c : Conversation) (w : nat) : Conversation * nat :=
  if negb (bool_decide (cv_pending c = Some pending)) then (c, w)
  else
    let '(already, w) := any_since (λ t, is_assistant t && has_assistant_text t) pending c (cv_turns c) w in
    if negb already then (set_turns (cv_turns c ++ [assistant_turn w chunk]) (cv_pending c) c, 3 + w)
    else (set_turns (alter_last is_assistant (map_buffer (λ b, b +:+ chunk)) (cv_turns c)) (cv_pending c) c, w).

(** The loops [for t in self.turns.iter_mut() { if t.id.0 == pending.0 { ... } }], which read
    the clock once for each match. *)
Fixpoint resolve_turns (pending : Uuid) (st : TurnStatus) (error : ConversationTurn → option TurnError)
    (ts : list ConversationTurn) (w : nat) : list ConversationTurn * nat :=
  match ts with
  | [] => ([], w)
  | t :: ts =>
      let '(t, w) := if has_turn_id pending t then (set_status st (Some (clock w)) (error t) t, S w) else (t, w) in
      let '(ts, w) := resolve_turns pending st error ts w in
      (t :: ts, w)
  end.

Definition finalise (text : string) (now : Z) (t : ConversationTurn) : ConversationTurn :=
  set_status Delivered (Some now) (ct_error t) (map_buffer (λ _, text) t).

Definition record_assistant_reply (pending : Uuid) (text : string) (c : Conversation) (w : nat) : Conversation * nat :=
  if negb (bool_decide (cv_pending c = Some pending)) then (c, w)
  else
    let '(exists_, w) := any_since is_assistant pending c (cv_turns c) w in
    let '(turns, w) :=
      if exists_ then
        match rposition is_assistant (cv_turns c) with
        | Some i => (alter (finalise text (clock w)) i (cv_turns c), S w)
        | None => (cv_turns c, w)
        end
      else (cv_turns c ++ [assistant_turn w text], 3 + w) in
    let '(turns, w) := resolve_turns pending Delivered ct_error turns w in
    (set_turns turns None c, w).

Definition record_failure (pending : Uuid) (error : TurnError) (c : Conversation) (w : nat) : Conversation * nat :=
  if negb (bool_decide (cv_pending c = Some pending)) then (c, w)
  else
    let '(turns, w) := resolve_turns pending (Failed true) (λ _, Some error) (cv_turns c) w in
    (set_turns turns None c, w).

Definition retry (failed : Uuid) (c : Conversation) (w : nat) : Conversation * nat * result Uuid RetryError :=
  if is_busy c then (c, w, Err RetryBusy)
  else
    match find_first (has_turn_id failed) (cv_turns c) with
    | None => (c, w, Err NotFound)
    | Some t =>
        if negb (bool_decide (ct_status t = Failed true)) then (c, w, Err NotRetryable)
        else
          match ct_content t with
          | UserMessage text attachments =>
              (set_turns (cv_turns c ++ [user_turn w (UserMessage text attachments)]) (Some (uuid w)) c, S (S w), Ok (uuid w))
          | AssistantText _ => (c, w, Err NotRetryable)
          end
    end.

Definition dismiss_turn (t : ConversationTurn) : ConversationTurn :=
  match ct_status t with
  | Failed _ => set_status (Failed false) (ct_completed_at t) (ct_error t) t
  | _ => t
  end.

Definition dismiss_failure (failed : Uuid) (c : Conversation) : Conversation :=
  match position (has_turn_id failed) (cv_turns c) with
  | Some i => set_turns (alter dismiss_turn i (cv_turns c)) (cv_pending c) c
  | None => c
  end.
End Model.

(** ** Sanitising typed text *)

Definition keeps_typed (c : ascii) : bool :=
  Ascii.eqb c nl || Ascii.eqb c "009" || negb ((byte_of c <? 32)%Z || (byte_of c =? 127)%Z).

Fixpoint filter_chars (f : ascii → bool) (s : string) : string :=
  match s with
  | "" => ""
  | String c s => if f c then String c (filter_chars f s) else filter_chars f s
  end.

Definition sanitize_user_input (raw : string) : string :=
  let normalised := replace_char cr nl (replace_str (String cr (String nl "")) (String nl "") raw) in
  trim (filter_chars keeps_typed normalised).

(** ** The request *)

Inductive ClientContentItem := ClientText (text : string) | ClientFile (filename file_data : string).

Inductive InputForm := FormText (s : string) | FormItems (role : string) (content : list ClientContentItem).

Record ClientRequest := mkClientRequest { cq_model : string; cq_input : InputForm; cq_stream : bool }.

Definition from_user_turn (model text : string) (attachments : list Attachment) (stream : bool) : ClientRequest :=
  let input :=
    match attachments with
    | [] => FormText text
    | _ => FormItems "user" ((if is_empty text then [] else [ClientText text]) ++
                             ((λ a, ClientFile (at_filename a) (at_data_uri a)) <$> attachments))
    end in
  mkClientRequest model input stream.

Definition item_to_json (i : ClientContentItem) : json :=
  match i with
  | ClientText t => JObj [("type", JStr "input_text"); ("text", JStr t)]
  | ClientFile n d => JObj [("type", JStr "input_file"); ("filename", JStr n); ("file_data", JStr d)]
  end.

(** The serialised request; [instructions] is always [None] and skipped. *)
Definition client_request_to_json (r : ClientRequest) : json :=
  JObj [("model", JStr (cq_model r));
        ("input", match cq_input r with
                  | FormText s => JStr s
                  | FormItems role items => JArr [JObj [("role", JStr role); ("content", JArr (item_to_json <$> items))]]
                  end);
        ("stream", JBool (cq_stream r))].

(** ** Answers *)

Inductive ClientError :=
| ServerUnreachable (e : string)
| HttpStatus (status : Z) (body : string)
| MalformedBody (e : string)
| StreamingProtocol (e : string).

Inductive StreamingEvent :=
| EvCreated (response_id : string)
| EvDelta (response_id delta : string)
| EvCompleted (response_id full_text : string).

(** A required member of type [String], and one of type [Vec]. *)
Definition req_string (k : string) (m : list (string * json)) : option string := map_get k m ≫= as_str.
Definition req_array (k : string) (m : list (string * json)) : option (list json) := map_get k m ≫= as_array.

Definition content_of_json (v : json) : option (string * string) :=
  m ← struct_fields ["type"; "text"] v; k ← req_string "type" m; t ← req_string "text" m; Some (k, t).

Definition output_of_json (v : json) : option (list (string * string)) :=
  m ← struct_fields ["content"] v; l ← req_array "content" m; mapM content_of_json l.

(** [output.into_iter().next().and_then(|o| o.content.find(output_text)).map(text)]. *)
Definition output_text (output : list (list (string * string))) : option string :=
  o ← head output; snd <$> find_first (λ c, String.eqb c.1 "output_text") o.

Definition completed_of_json (v : json) : option (string * list (list (string * string))) :=
  m ← struct_fields ["id"; "output"] v; i ← req_string "id" m; l ← req_array "output" m; o ← mapM output_of_json l; Some (i, o).

Section Client.
Variable from_str : string → option json.
(** The text of the error when data does not read as a frame. *)
Variable frame_error : string → string.

(** [filter_map] of the stream on one event of the event source: its name and data, or its error. *)
Definition streaming_event (event : result (string * string) string) : option (result StreamingEvent ClientError) :=
  match event with
  | Err e => Some (Err (StreamingProtocol e))
  | Ok (name, data) =>
      if is_empty name && String.eqb (trim data) "[DONE]" then None
      else if String.eqb name "response.created" then
        Some (match (m ← from_str data ≫= struct_fields ["id"]; req_string "id" m) with
              | Some i => Ok (EvCreated i)
              | None => Err (StreamingProtocol ("bad created frame: " +:+ frame_error data))
              end)
      else if String.eqb name "response.output_text.delta" then
        Some (match (m ← from_str data ≫= struct_fields ["id"; "delta"]; i ← req_string "id" m; d ← req_string "delta" m; Some (i, d)) with
              | Some (i, d) => Ok (EvDelta i d)
              | None => Err (StreamingProtocol ("bad delta frame: " +:+ frame_error data))
              end)
      else if String.eqb name "response.completed" then
        Some (match from_str data ≫= completed_of_json with
              | Some (i, output) => Ok (EvCompleted i (default "" (output_text output)))
              | None => Err (StreamingProtocol ("bad completed frame: " +:+ frame_error data))
              end)
      else if String.eqb name "response.failed" then Some (Err (StreamingProtocol "server emitted response.failed"))
      else None
  end.

(** What the HTTP client returns: an error, or a status with the body as text and as events. *)
Inductive HttpReply :=
| Unsent (e : string)
| Replied (status : Z) (text : string) (events : list (result (string * string) string)).

Definition is_success (status : Z) : bool := ((200 <=? status) && (status <? 300))%Z.

Definition streaming_send (r : HttpReply) : result (list (result StreamingEvent ClientError)) ClientError :=
  match r with
  | Unsent e => Err (ServerUnreachable e)
  | Replied status text events =>
      if negb (is_success status) then Err (HttpStatus status text) else Ok (filter_map streaming_event events)
  end.

(** [sync::send]: the whole answer at once. *)
Definition sync_send (r : HttpReply) : result (string * string) ClientError :=
  match r with
  | Unsent e => Err (ServerUnreachable e)
  | Replied status text _ =>
      if negb (is_success status) then Err (HttpStatus status text)
      else
        match (v ← from_str text; m ← struct_fields ["id"; "status"; "output"] v; i ← req_string "id" m; _ ← req_string "status" m;
               l ← req_array "output" m; o ← mapM output_of_json l; Some (i, o)) with
        | None => Err (MalformedBody (frame_error text))
        | Some (i, o) =>
            match output_text o with
            | Some t => Ok (i, t)
            | None => Err (MalformedBody "response has no output_text content")
            end
        end
  end.
End Client.

Definition ERR_HIVECLAW_UNREACHABLE : string := "HiveClaw 不可达，请检查服务是否运行".
Definition ERR_REPLY_FAILED : string := "回复失败，请点击重试".

Definition classify_error (e : ClientError) : TurnError :=
  match e with
  | ServerUnreachable _ => mkTurnError Unreachable ERR_HIVECLAW_UNREACHABLE
  | HttpStatus status _ => mkTurnError ServerError (ERR_REPLY_FAILED +:+ " (" +:+ pretty status +:+ ")")
  | MalformedBody _ | StreamingProtocol _ => mkTurnError TransportFailure ERR_REPLY_FAILED
  end.

(** ** The application *)

Record PendingInput := mkPendingInput {
  pi_text : string;
  pi_attachments : list Attachment;
  pi_transient_error : option string
}.

Definition PendingInput_default : PendingInput := mkPendingInput "" [] None.

(** A task of [spawn_request]: the turn it serves, and what it waits for. *)
Inductive TaskState := Opening | Streaming.
Record RequestTask := mkRequestTask { rt_pending : Uuid; rt_request : ClientRequest; rt_state : TaskState }.

(** [ap_editor] is the text of the editor, which the view copies into the mirror. *)
Record App := mkApp {
  ap_conversation : Conversation;
  ap_input : PendingInput;
  ap_editor : string;
  ap_tasks : list RequestTask;
  ap_draws : nat
}.

Definition set_input (p : PendingInput) (a : App) : App :=
  mkApp (ap_conversation a) p (ap_editor a) (ap_tasks a) (ap_draws a).

Definition set_conversation (r : Conversation * nat) (a : App) : App :=
  mkApp r.1 (ap_input a) (ap_editor a) (ap_tasks a) r.2.

Definition set_tasks (ts : list RequestTask) (a : App) : App :=
  mkApp (ap_conversation a) (ap_input a) (ap_editor a) ts (ap_draws a).

Definition GUI_MODEL : string := "openclaw:hiveclaw-placeholder-v1".

Section Application.
Variables (clock : nat → Z) (uuid : nat → Uuid) (b64_encode : string → string).

Definition spawn_request (text : string) (attachments : list Attachment) (pending : Uuid) (a : App) : App :=
  set_tasks (ap_tasks a ++ [mkRequestTask pending (from_user_turn GUI_MODEL text attachments true) Opening]) a.

Definition spawn_send (a : App) : App :=
  let text := pi_text (ap_input a) in
  let attachments := pi_attachments (ap_input a) in
  match send_user_message clock uuid text attachments (ap_conversation a) (ap_draws a) with
  | (c, w, Ok pending) => spawn_request text attachments pending (set_input PendingInput_default (set_conversation (c, w) a))
  | (c, w, Err _) => set_conversation (c, w) a
  end.

Definition retry_turn (turn_id : Uuid) (a : App) : App :=
  match retry clock uuid turn_id (ap_conversation a) (ap_draws a) with
  | (c, w, Ok pending) =>
      let a := set_conversation (c, w) a in
      match find_first (has_turn_id pending) (cv_turns c) with
      | Some t => match ct_content t with
                  | UserMessage text attachments => spawn_request text attachments pending a
                  | AssistantText _ => a
                  end
      | None => a
      end
  | (c, w, Err _) => set_conversation (c, w) a
  end.

(** The copy of the editor into the mirror that each rendering makes. *)
Definition render_sync (a : App) : App :=
  set_input (mkPendingInput (ap_editor a) (pi_attachments (ap_input a)) (pi_transient_error (ap_input a))) a.

Definition fail_task (pending : Uuid) (e : ClientError) (a : App) : App :=
  set_conversation (record_failure clock pending (classify_error e) (ap_conversation a) (ap_draws a)) a.

(** One item of a task's stream; an error ends the task. *)
Definition task_item (pending : Uuid) (item : result StreamingEvent ClientError) (a : App) : App * bool :=
  match item with
  | Ok (EvCreated _) => (a, true)
  | Ok (EvDelta _ delta) => (set_conversation (append_assistant_chunk clock uuid pending delta (ap_conversation a) (ap_draws a)) a, true)
  | Ok (EvCompleted _ full_text) =>
      (set_conversation (record_assistant_reply clock uuid pending full_text (ap_conversation a) (ap_draws a)) a, true)
  | Err e => (fail_task pending e a, false)
  end.

(** A task that is not interrupted. *)
Fixpoint task_items (pending : Uuid) (items : list (result StreamingEvent ClientError)) (a : App) : App :=
  match items with
  | [] => a
  | item :: items => let '(a, more) := task_item pending item a in if more then task_items pending items a else a
  end.

Definition run_task (pending : Uuid) (r : result (list (result StreamingEvent ClientError)) ClientError) (a : App) : App :=
  match r with
  | Ok items => task_items pending items a
  | Err e => fail_task pending e a
  end.

(** *** Attachments *)

Definition ERR_FILE_READ_FAILED : string := "无法读取文件".
Definition ERR_FILE_TOO_LARGE : string := "文件超过 1 MiB 限制".
Definition ERR_TOTAL_TOO_LARGE : string := "附件总大小超过 4 MiB 限制".
Definition ERR_TOO_MANY_ATTACHMENTS : string := "单次会话最多附加 8 个文件".
Definition ERR_FILE_ALREADY_ATTACHED : string := "该文件已添加".

Inductive IngestError := IngestReadFailed | IngestTooLarge | IngestAlreadyAttached | IngestTooMany | IngestTotalTooLarge.

Definition set_transient_error (msg : string) (a : App) : App :=
  set_input (mkPendingInput (pi_text (ap_input a)) (pi_attachments (ap_input a)) (Some msg)) a.

(** [file_name] is the last component of the path, [bytes] what reading it returned and
    [guessed] the type guessed from the path. *)
Definition ingest_attachment (file_name : option string) (bytes guessed : option string) (a : App) : App * result unit IngestError :=
  let filename := default "attachment" file_name in
  match bytes with
  | None => (set_transient_error (ERR_FILE_READ_FAILED +:+ "：" +:+ filename) a, Err IngestReadFailed)
  | Some bytes =>
      let size := Z.of_nat (String.length bytes) in
      if (PER_FILE_MAX_BYTES_U64 <? size)%Z
      then (set_transient_error (ERR_FILE_TOO_LARGE +:+ "：" +:+ filename) a, Err IngestTooLarge)
      else
        let mime := default "application/octet-stream" guessed in
        let attachment := mkAttachment (uuid (ap_draws a)) filename mime size ("data:" +:+ mime +:+ ";base64," +:+ b64_encode bytes) in
        let a := mkApp (ap_conversation a) (ap_input a) (ap_editor a) (ap_tasks a) (S (ap_draws a)) in
        let p := ap_input a in
        if existsb (λ x, String.eqb (at_filename x) filename) (pi_attachments p)
        then (set_transient_error (ERR_FILE_ALREADY_ATTACHED +:+ "：" +:+ filename) a, Err IngestAlreadyAttached)
        else if MAX_ATTACHMENTS_PER_TURN <=? length (pi_attachments p)
        then (set_transient_error ERR_TOO_MANY_ATTACHMENTS a, Err IngestTooMany)
        else if (TURN_TOTAL_MAX_BYTES <? wrap_u64 (total_size (pi_attachments p) + size))%Z
        then (set_transient_error ERR_TOTAL_TOO_LARGE a, Err IngestTotalTooLarge)
        else (set_input (mkPendingInput (pi_text p) (pi_attachments p ++ [attachment]) (pi_transient_error p)) a, Ok tt)
  end.

(** [Vec::remove] behind its check. *)
Definition remove_pending_attachment_global (idx : nat) (a : App) : App :=
  let p := ap_input a in
  if idx <? length (pi_attachments p)
  then set_input (mkPendingInput (pi_text p) (delete idx (pi_attachments p)) (pi_transient_error p)) a
  else a.
End Application.
