(* ===== verification/ConversationProps.v ===== *)
(** * The conversation: one pending turn, and answers that arrive

    The endpoint accepts the requests of the client.  Every interleaving of the user's actions, the
    files attached and the events of the request tasks keeps at most one turn pending; the
    pending turn can only be resolved by its task; and a turn the endpoint answers ends up in the
    conversation with the text of the agent. *)

From S2P Require Import Prelude RustStr Utf8 F64 Json Bus Network Think RetryProps LoopService OpenResponses Conversation.

Local Open Scope stdpp_scope.
Local Open Scope hive_scope.

(** ** The requests of the client are accepted *)

(** What [base64] documents of its standard engine. *)
Class Base64 (encode : string → string) (decode : string → option string) : Prop :=
  b64_roundtrip : ∀ s, decode (encode s) = Some s.

(** A concrete engine, with sixteen letters. *)
Definition letter (b0 b1 b2 b3 : bool) : ascii := Ascii b0 b1 b2 b3 false false true false.

Fixpoint letters_encode (s : string) : string :=
  match s with
  | "" => ""
  | String (Ascii b0 b1 b2 b3 b4 b5 b6 b7) s => String (letter b0 b1 b2 b3) (String (letter b4 b5 b6 b7) (letters_encode s))
  end.

Fixpoint letters_decode (s : string) : option string :=
  match s with
  | "" => Some ""
  | String (Ascii b0 b1 b2 b3 false false true false) (String (Ascii b4 b5 b6 b7 false false true false) s) =>
      String (Ascii b0 b1 b2 b3 b4 b5 b6 b7) <$> letters_decode s
  | _ => None
  end.

#[export] Instance letters_base64 : Base64 letters_encode letters_decode.
Proof. intros s. induction s as [|[] s IH]; [done|]. cbn. by rewrite IH. Qed.

(** A media type without parameters, as [Mime::essence_str] returns it. *)
Definition essence (mime : string) : bool := negb (is_empty mime) && no_char "," mime && no_char ";" mime.

Definition data_uri (encode : string → string) (mime bytes : string) : string :=
  "data:" +:+ mime +:+ ";base64," +:+ encode bytes.

(** An attachment carries a file that is small enough. *)
Definition carries (encode : string → string) (x : Attachment) : Prop :=
  ∃ bytes, at_data_uri x = data_uri encode (at_mime x) bytes ∧ at_size x = Z.of_nat (String.length bytes) ∧
           (at_size x <= PER_FILE_MAX_BYTES_U64)%Z ∧ essence (at_mime x) = true.

Definition meta_of (x : Attachment) : AttachmentMeta := mkMeta (at_filename x) (at_mime x) (at_size x).

Lemma parse_data_uri_of encode mime bytes :
  essence mime = true → parse_data_uri (data_uri encode mime bytes) = Some (mkDataUri mime (encode bytes)).
Proof.
  unfold essence, parse_data_uri, data_uri. intros H. bool_to_prop.
  match goal with |- context [strip_prefix "data:" ("data:" +:+ ?x)] => change (strip_prefix "data:" ("data:" +:+ x)) with (Some x) end.
  replace (mime +:+ ";base64," +:+ encode bytes) with ((mime +:+ ";base64") +:+ String "," (encode bytes)) by (by rewrite <-sapp_assoc).
  assert (no_char "," (mime +:+ ";base64") = true) as Hc by (rewrite no_char_app; by apply andb_true_intro).
  cbn [mbind option_bind]. rewrite (split_once_app "," _ _ Hc). cbn [mbind option_bind].
  change (mime +:+ ";base64") with (mime +:+ String ";" "base64"). rewrite split_once_app by done. cbn.
  by destruct mime.
Qed.

(** A sum of few small sizes does not wrap. *)
Lemma total_size_sizes l :
  Forall (λ x, (0 <= at_size x <= PER_FILE_MAX_BYTES_U64)%Z) l → length l ≤ MAX_ATTACHMENTS_PER_TURN →
  total_size l = sizes (meta_of <$> l).
Proof.
  intros Hl Hn. unfold total_size.
  enough (∀ s, (0 <= s)%Z → (s + Z.of_nat (length l) * PER_FILE_MAX_BYTES_U64 <= u64_max)%Z →
    foldl (λ s a, wrap_u64 (s + at_size a)) s l = (s + sizes (meta_of <$> l))%Z) as ->.
  - lia.
  - done.
  - unfold MAX_ATTACHMENTS_PER_TURN, PER_FILE_MAX_BYTES_U64, u64_max in *. lia.
  - clear Hn. induction Hl as [|x l Hx _ IH]; intros s Hs Hb; cbn [foldl]; [cbn; lia|]. cbn [length] in Hb.
    unfold PER_FILE_MAX_BYTES_U64 in *. rewrite wrap_u64_id by (unfold in_u64, u64_max in *; lia). rewrite IH by lia. unfold sizes. cbn. lia.
Qed.

Section Accepted.
Variables (to_string : json → string) (from_str : string → option json) (b64_encode : string → string) (b64_decode : string → option string).
Context `{!JsonCodec from_str to_string, !Base64 b64_encode b64_decode}.

Lemma files_validate l g :
  Forall (carries b64_encode) l →
  (ga_total g + sizes (meta_of <$> l) <= TOTAL_ATTACHMENTS_MAX_BYTES)%Z →
  validate_content b64_decode ((λ a, InputFile (Some (at_filename a)) (Some (at_data_uri a)) None) <$> l) true g =
  Ok (mkGathered (ga_text g) (ga_attachments g ++ (meta_of <$> l)) (ga_total g + sizes (meta_of <$> l))).
Proof.
  intros Hl. revert g. induction Hl as [|x l (bytes & Hu & Hs & Hle & He) Hl IH]; intros g Ht; cbn [fmap list_fmap validate_content].
  - rewrite app_nil_r. cbn. rewrite Z.add_0_r. by destruct g.
  - change (meta_of <$> x :: l) with (meta_of x :: (meta_of <$> l)) in *. rewrite sizes_cons in *. cbn [am_size meta_of] in *.
    assert (0 <= sizes (meta_of <$> l))%Z as Hp.
    { clear -Hl. induction Hl as [|y l (? & _ & Hs & _) _ IH]; [done|]. change (meta_of <$> y :: l) with (meta_of y :: (meta_of <$> l)).
      rewrite sizes_cons. cbn. lia. }
    cbn [validate_content_item]. rewrite Hu, parse_data_uri_of by done. cbn [du_payload]. rewrite b64_roundtrip. unfold push_attachment.
    cbn [du_mime]. rewrite <-Hs. unfold PER_FILE_MAX_BYTES_U64, PER_FILE_MAX_BYTES, TOTAL_ATTACHMENTS_MAX_BYTES in *.
    rewrite (proj2 (Z.ltb_ge _ _)) by lia. rewrite (proj2 (Z.ltb_ge _ _)) by lia. cbn [result_bind default].
    rewrite IH by (cbn; lia). cbn [ga_text ga_attachments ga_total]. by rewrite <-app_assoc, Z.add_assoc.
Qed.

Definition client_items (text : string) (l : list Attachment) : list RequestContentItem :=
  (if is_empty text then [] else [InputText (Some text)]) ++
  ((λ a, InputFile (Some (at_filename a)) (Some (at_data_uri a)) None) <$> l).

Definition client_input (text : string) (l : list Attachment) : Input :=
  match l with [] => TextInput text | _ => ItemsInput [mkInputItem (Some "user") (Some (ContentItems (client_items text l)))] end.

Lemma mapM_items l : mapM content_item_of_json (item_to_json <$> l) =
  Some ((λ i, match i with ClientText t => InputText (Some t) | ClientFile n d => InputFile (Some n) (Some d) None end) <$> l).
Proof. induction l as [|[t|n d] l IH]; cbn [fmap list_fmap mapM]; [done|..]; by rewrite IH. Qed.

Lemma client_item_read items :
  input_item_of_json (JObj [("role", JStr "user"); ("content", JArr (item_to_json <$> items))]) =
  Some (mkInputItem (Some "user") (Some (ContentItems
    ((λ i, match i with ClientText t => InputText (Some t) | ClientFile n d => InputFile (Some n) (Some d) None end) <$> items)))).
Proof. unfold input_item_of_json. cbn -[item_to_json mapM fmap]. by rewrite mapM_items. Qed.

(** The endpoint reads back the request the client writes. *)
Lemma client_request_read text l :
  request_of_json (client_request_to_json (from_user_turn GUI_MODEL text l true)) =
  Some (mkOpenRequest (Some GUI_MODEL) (Some (client_input text l)) None (Some (JBool true)) None None None None []).
Proof.
  unfold from_user_turn, client_request_to_json. destruct l as [|x l]; [done|]. cbn [cq_model cq_input cq_stream].
  unfold request_of_json. cbn -[item_to_json mapM fmap input_item_of_json]. cbn [mapM]. rewrite client_item_read. cbn -[fmap].
  unfold client_items. rewrite fmap_app, <-list_fmap_compose. by destruct text.
Qed.

Lemma client_request_json_ok text l : json_ok (client_request_to_json (from_user_turn GUI_MODEL text l true)) = true.
Proof.
  unfold from_user_turn, client_request_to_json. destruct l as [|x l]; [reflexivity|]. cbn [cq_model cq_input cq_stream].
  generalize ((if is_empty text then [] else [ClientText text]) ++ ((λ a, ClientFile (at_filename a) (at_data_uri a)) <$> x :: l)) as items.
  intros items. assert (Forall (λ v, json_valid v = true ∧ json_depth v ≤ 1) (item_to_json <$> items)) as H.
  { apply Forall_fmap, Forall_true. by intros []. }
  assert (forallb json_valid (item_to_json <$> items) = true ∧ foldr (λ x d, json_depth x `max` d) 0 (item_to_json <$> items) ≤ 1) as [Hv Hd].
  { induction H as [|v vs [Hv Hd] _ [IHv IHd]]; cbn [forallb foldr]; [split; [done|lia]|]. rewrite Hv. split; [done|lia]. }
  unfold json_ok. apply andb_true_intro. split.
  - cbn -[item_to_json forallb fmap]. cbn [forallb json_valid snd]. cbn -[item_to_json forallb fmap]. by rewrite Hv.
  - apply Nat.leb_le. cbn -[item_to_json foldr fmap Nat.max]. cbn [foldr json_depth snd]. lia.
Qed.

Lemma client_input_validates text l :
  text ≠ "" ∨ l ≠ [] → Forall (carries b64_encode) l → (sizes (meta_of <$> l) <= TOTAL_ATTACHMENTS_MAX_BYTES)%Z →
  ∃ total, validate_input b64_decode (Some (client_input text l)) = Ok (mkGathered text (meta_of <$> l) total) ∧
    (total <= TOTAL_ATTACHMENTS_MAX_BYTES)%Z.
Proof.
  intros Hne Hl Ht. destruct l as [|x l].
  - destruct text as [|c s]; [by destruct Hne|]. by exists 0%Z.
  - exists (sizes (meta_of <$> x :: l)). split; [|done]. unfold client_input, validate_input, validate_items, validate_item.
    cbn [ii_role ii_content]. rewrite bool_decide_eq_true_2 by done.
    assert (validate_content b64_decode (client_items text (x :: l)) true (mkGathered "" [] 0) =
      Ok (mkGathered text (meta_of <$> x :: l) (sizes (meta_of <$> x :: l)))) as Hv.
    { unfold client_items. destruct text as [|c s].
      - change (if is_empty "" then _ else _) with (@nil RequestContentItem). rewrite app_nil_l. by rewrite files_validate.
      - change (if is_empty _ then _ else ?y) with y. cbn [app validate_content validate_content_item result_bind default].
        by rewrite files_validate. }
    rewrite Hv. destruct (client_items text (x :: l)) as [|i items] eqn:E; [by destruct text|]. cbn [result_bind ga_text ga_attachments].
    by rewrite andb_false_r.
Qed.

Lemma client_turn_accepted text l :
  text ≠ "" ∨ l ≠ [] → length l ≤ MAX_ATTACHMENTS_PER_TURN → (total_size l <= TURN_TOTAL_MAX_BYTES)%Z →
  Forall (carries b64_encode) l →
  ∃ r, from_str (to_string (client_request_to_json (from_user_turn GUI_MODEL text l true))) ≫= request_of_json = Some r ∧
    validate b64_decode r = Ok (mkValidated GUI_MODEL text true (meta_of <$> l)).
Proof.
  intros Hne Hn Ht Hl. rewrite codec_roundtrip by apply client_request_json_ok. cbn [mbind option_bind]. rewrite client_request_read.
  eexists. split; [done|].
  assert (sizes (meta_of <$> l) <= TOTAL_ATTACHMENTS_MAX_BYTES)%Z as Hs.
  { rewrite <-total_size_sizes; [exact Ht| |done]. eapply Forall_impl; [exact Hl|]. intros x (bytes & _ & Hs & Hle & _). lia. }
  destruct (client_input_validates text l Hne Hl Hs) as (total & Hv & Hle).
  unfold validate. cbn [or_model or_input or_stream or_max_output_tokens default]. change (is_empty GUI_MODEL) with false.
  change (negb (starts_with GUI_MODEL "openclaw:")) with false. cbn [negb]. rewrite Hv. cbn [result_bind validate_stream validate_max_output ga_total].
  rewrite (proj2 (Z.ltb_ge _ _)) by done. done.
Qed.

(** The endpoint answers such a turn with the stream of the agent's answer; the only way it
    fails is the cut of a short answer inside a character. *)
Lemma client_turn_served {W} agent request_uuid response_uuid created local_now text l (w w' : W) answer content_type id body :
  text ≠ "" ∨ l ≠ [] → length l ≤ MAX_ATTACHMENTS_PER_TURN → (total_size l <= TURN_TOTAL_MAX_BYTES)%Z →
  Forall (carries b64_encode) l →
  body = to_string (client_request_to_json (from_user_turn GUI_MODEL text l true)) →
  (Z.of_nat (String.length body) <= MAX_REQUEST_BYTES)%Z →
  starts_with (to_ascii_lowercase content_type) "application/json" = true →
  run_inner agent local_now (mkValidated GUI_MODEL text true (meta_of <$> l)) w = Returns (w', answer) →
  handle to_string from_str b64_decode agent request_uuid response_uuid created local_now
    (mkHttpRequest id (Some content_type) (Some body)) w =
  let! chunks := split_into_chunks answer (meta_of <$> l) in
  Returns (w', mkHttp 200 (header_value (default request_uuid id)) (SseBody (build_event_stream to_string
    (prepare_stream_state (response_id response_uuid) created (mkValidated GUI_MODEL text true (meta_of <$> l)) chunks)))).
Proof.
  intros Hne Hn Ht Hl -> Hb Hct Hr. destruct (client_turn_accepted text l Hne Hn Ht Hl) as (r & Hp & Hv).
  unfold handle, read_body. cbn [hq_content_type hq_body mbind option_bind]. rewrite Hct. cbn [negb]. rewrite (proj2 (Z.leb_le _ _)) by done.
  change (from_str ?b ≫= request_of_json) with (mbind request_of_json (from_str b)). rewrite Hp, Hv. cbn [vr_stream].
  unfold streaming_response, build_stream_frames. rewrite Hr. cbn [run_bind vr_attachments].
  by destruct (split_into_chunks _ _).
Qed.
End Accepted.

(** ** Invariants *)

Definition pending_ids (c : Conversation) : list Uuid := ct_id <$> retain is_pending (cv_turns c).

(** At most one turn is pending: the one [pending] names. *)
Definition single_pending (c : Conversation) : Prop := pending_ids c = option_list (cv_pending c).

Definition message_ok (encode : string → string) (text : string) (l : list Attachment) : Prop :=
  (text ≠ "" ∨ l ≠ []) ∧ length l ≤ MAX_ATTACHMENTS_PER_TURN ∧ (total_size l <= TURN_TOTAL_MAX_BYTES)%Z ∧ Forall (carries encode) l.

(** A turn of the user holds an acceptable message, a turn of the assistant a delivered text. *)
Definition turn_ok (encode : string → string) (t : ConversationTurn) : Prop :=
  match ct_author t, ct_content t with
  | User, UserMessage text l => message_ok encode text l
  | Assistant, AssistantText _ => ct_status t = Delivered
  | _, _ => False
  end.

(** A turn after an operation that does not add it. *)
Definition keeps (t t' : ConversationTurn) : Prop :=
  ct_id t' = ct_id t ∧ ct_author t' = ct_author t ∧ ct_created_at t' = ct_created_at t ∧
  match ct_content t with
  | UserMessage text l => ct_content t' = UserMessage text l
  | AssistantText _ => ∃ b, ct_content t' = AssistantText b
  end ∧ (ct_author t = Assistant → ct_status t = Delivered → ct_status t' = Delivered).

#[export] Instance keeps_refl : Reflexive keeps.
Proof. intros t. split_and!; try done. destruct (ct_content t); eauto. Qed.

Lemma keeps_ok encode t t' : keeps t t' → turn_ok encode t → turn_ok encode t'.
Proof.
  unfold turn_ok. intros (_ & -> & _ & Hc & Hs). destruct (ct_author t), (ct_content t); try done; [by rewrite Hc|].
  destruct Hc as [b ->]. by apply Hs.
Qed.

Lemma Forall2_alter_at {A} (R : A → A → Prop) `{!Reflexive R} f i l : (∀ x, l !! i = Some x → R x (f x)) → Forall2 R l (alter f i l).
Proof.
  revert i. induction l as [|x l IH]; intros i H; [constructor|]. destruct i as [|i]; cbn.
  - constructor; [by apply H|reflexivity].
  - constructor; [reflexivity|]. apply IH. intros y Hy. by apply H.
Qed.

Section Facts.
Variables (clock : nat → Z) (uuid : nat → Uuid) (b64_encode : string → string).

Record conv_inv (c : Conversation) (w : nat) : Prop := {
  ci_pending : single_pending c;
  ci_ids : NoDup (ct_id <$> cv_turns c);
  ci_drawn : Forall (λ t, (∃ k, k < w ∧ ct_id t = uuid k) ∧ (∃ k, k < w ∧ ct_created_at t = clock k)) (cv_turns c);
  ci_turns : Forall (turn_ok b64_encode) (cv_turns c)
}.

(** *** Operations that change turns *)

Lemma resolve_turns_keeps p st error ts w :
  (∀ t, t ∈ ts → ct_id t = p → ct_author t = Assistant → st = Delivered) →
  Forall2 keeps ts (resolve_turns clock p st error ts w).1.
Proof.
  revert w. induction ts as [|t ts IH]; intros w H; cbn; [constructor|].
  destruct (has_turn_id p t) eqn:E.
  - destruct (resolve_turns _ _ _ _ ts (S w)) as [ts' w'] eqn:Er. cbn. constructor.
    + unfold keeps. cbn. split_and!; try done; [destruct (ct_content t); eauto|]. intros Ha _. apply (H t); [left|by apply Z.eqb_eq|done].
    + replace ts' with (resolve_turns clock p st error ts (S w)).1 by (by rewrite Er). apply IH. intros ? ?. apply H. by right.
  - destruct (resolve_turns _ _ _ _ ts w) as [ts' w'] eqn:Er. cbn. constructor; [reflexivity|].
    replace ts' with (resolve_turns clock p st error ts w).1 by (by rewrite Er). apply IH. intros ? ?. apply H. by right.
Qed.

Lemma resolve_turns_draws p st error ts w : w ≤ (resolve_turns clock p st error ts w).2.
Proof.
  revert w. induction ts as [|t ts IH]; intros w; cbn; [done|].
  destruct (has_turn_id p t); [pose proof (IH (S w))|pose proof (IH w)]; destruct (resolve_turns _ _ _ _ ts _); cbn in *; lia.
Qed.

(** Resolving a turn leaves the other pending turns. *)
Lemma resolve_turns_pending p st error ts w :
  st ≠ Pending →
  ct_id <$> retain is_pending (resolve_turns clock p st error ts w).1 =
  retain (λ i, negb (i =? p)%Z) (ct_id <$> retain is_pending ts).
Proof.
  intros Hst. revert w. induction ts as [|t ts IH]; intros w; [done|]. cbn [resolve_turns]. unfold has_turn_id at 1.
  destruct (ct_id t =? p)%Z eqn:E.
  - specialize (IH (S w)). destruct (resolve_turns _ _ _ _ ts (S w)) as [ts' w']. cbn [fst List.filter] in *.
    replace (is_pending (set_status _ _ _ t)) with false by (unfold is_pending; by rewrite bool_decide_eq_false_2).
    rewrite IH. destruct (is_pending t); [|done]. cbn. by rewrite E.
  - specialize (IH w). destruct (resolve_turns _ _ _ _ ts w) as [ts' w']. cbn [fst List.filter] in *.
    destruct (is_pending t); [|done]. cbn. rewrite E. cbn. by rewrite IH.
Qed.

(** Changes that leave identifiers and pending states leave the pending turns. *)
Lemma alter_pending f i ts :
  (∀ t, ts !! i = Some t → ct_id (f t) = ct_id t ∧ is_pending (f t) = is_pending t) →
  ct_id <$> retain is_pending (alter f i ts) = ct_id <$> retain is_pending ts.
Proof.
  revert i. induction ts as [|t ts IH]; intros i H; [done|]. destruct i as [|i]; cbn.
  - destruct (H t eq_refl) as [Hi Hp]. rewrite Hp. destruct (is_pending t); cbn; [by rewrite Hi|done].
  - specialize (IH i H). destruct (is_pending t); cbn; by rewrite IH.
Qed.

(** *** Preservation *)

Lemma conv_inv_update c w w' ts p :
  conv_inv c w → Forall2 keeps (cv_turns c) ts → w ≤ w' → ct_id <$> retain is_pending ts = option_list p →
  conv_inv (set_turns ts p c) w'.
Proof.
  intros [Hp Hi Hd Ht] Hk Hw Hp'. constructor; cbn; [done|..].
  - replace (ct_id <$> ts) with (ct_id <$> cv_turns c); [done|]. clear -Hk. induction Hk as [|t t' l l' (E & _) _ IH]; cbn; congruence.
  - clear -Hk Hd Hw. induction Hk as [|t t' l l' (Ei & _ & Ec & _) _ IH]; [done|]. apply Forall_cons in Hd as [[(k & Hk1 & ?) (j & Hj1 & ?)] Hd].
    constructor; [|by apply IH]. split; [exists k|exists j]; (split; [lia|congruence]).
  - clear -Hk Ht. induction Hk as [|t t' l l' Hk _ IH]; [done|]. apply Forall_cons in Ht as [Ht1 Ht].
    constructor; [by eapply keeps_ok|by apply IH].
Qed.

Lemma conv_inv_more c w w' : conv_inv c w → w ≤ w' → conv_inv c w'.
Proof.
  intros Hc Hw. destruct c as [i ts p s]. refine (conv_inv_update _ w w' ts p Hc _ Hw (ci_pending _ _ Hc)).
  apply Forall2_same_length_lookup_2; [done|]. intros j x y Hx Hy. cbn in Hx. simplify_eq. reflexivity.
Qed.

Lemma is_busy_false c : is_busy c = false → cv_pending c = None.
Proof. unfold is_busy. intros H%bool_decide_eq_false. by apply eq_None_not_Some. Qed.

Context `{!Inj (=) (=) uuid}.

Lemma fresh_id c w k : conv_inv c w → w ≤ k → uuid k ∉ ct_id <$> cv_turns c.
Proof.
  intros Hc Hk (t & E & Ht)%list_elem_of_fmap. pose proof (ci_drawn _ _ Hc) as Hd. rewrite Forall_forall in Hd.
  destruct (Hd t Ht) as [(j & Hj & Ej) _]. rewrite Ej in E. apply (inj uuid) in E. lia.
Qed.

Lemma conv_inv_push c w w' t k j p :
  conv_inv c w → turn_ok b64_encode t → ct_id t = uuid k → ct_created_at t = clock j → w ≤ k < w' → j < w' →
  pending_ids c ++ (ct_id <$> retain is_pending [t]) = option_list p →
  conv_inv (set_turns (cv_turns c ++ [t]) p c) w'.
Proof.
  intros Hc Ht Hi Hj Hk Hjw Hp. pose proof (fresh_id c w k Hc (proj1 Hk)) as Hf. destruct Hc as [_ Hn Hd Hts]. constructor; cbn.
  - unfold single_pending, pending_ids. cbn [cv_turns set_turns cv_pending]. by rewrite retain_app, fmap_app.
  - rewrite fmap_app. apply NoDup_app. split_and!; [done| |apply NoDup_singleton]. intros x Hx ->%list_elem_of_singleton. by rewrite Hi in Hx.
  - apply Forall_app. split; [|constructor; [split; [exists k|exists j]; (split; [lia|done])|done]].
    eapply Forall_impl; [exact Hd|]. intros u [(a & ? & ?) (b & ? & ?)]. split; [exists a|exists b]; (split; [lia|done]).
  - apply Forall_app. split; [done|]. by constructor.
Qed.

Lemma send_inv text l c w :
  conv_inv c w → Forall (carries b64_encode) l →
  let '(c', w', r) := send_user_message clock uuid text l c w in
  conv_inv c' w' ∧ w ≤ w' ∧
  match r with
  | Ok p => p = uuid w ∧ cv_pending c = None ∧ message_ok b64_encode text l ∧
            c' = set_turns (cv_turns c ++ [user_turn clock uuid w (UserMessage text l)]) (Some p) c ∧ w' = S (S w)
  | Err _ => c' = c ∧ w' = w
  end.
Proof.
  intros Hc Hl. unfold send_user_message. destruct (is_busy c) eqn:Eb; [done|]. apply is_busy_false in Eb.
  destruct (_ && _) eqn:Ee; [done|]. destruct (_ <? _) eqn:En; [done|]. destruct (_ <? _)%Z eqn:Et; [done|].
  assert (message_ok b64_encode text l) as Hm.
  { split_and!; [|by apply Nat.ltb_ge|by apply Z.ltb_ge|done]. apply andb_false_iff in Ee as [Ee|Ee]; [left; by intros ->|right; by intros ->]. }
  split_and!; try done; [|lia]. eapply (conv_inv_push _ w _ _ w (S w)); try done; [lia|lia|].
  rewrite (ci_pending _ _ Hc), Eb. done.
Qed.

Lemma any_since_draws p i c ts w : w ≤ (any_since clock p i c ts w).2.
Proof.
  revert w. induction ts as [|t ts IH]; intros w; cbn; [done|]. unfold user_turn_started. destruct (p t); [|apply IH].
  destruct (find_first _ _); case_match; cbn; try lia; [apply IH|]. etrans; [|apply IH]. lia.
Qed.

(** A change of buffers. *)
Lemma buffer_keeps f t : keeps t (map_buffer f t).
Proof. unfold map_buffer. destruct (ct_content t) eqn:E; [reflexivity|]. unfold keeps. cbn. rewrite E. split_and!; eauto. Qed.

Lemma buffer_same f t : ct_id (map_buffer f t) = ct_id t ∧ is_pending (map_buffer f t) = is_pending t.
Proof. unfold map_buffer. by destruct (ct_content t). Qed.

Lemma assistant_not_pending c w t : conv_inv c w → t ∈ cv_turns c → is_assistant t = true → ct_status t = Delivered ∧ is_pending t = false.
Proof.
  intros Hc Ht Ha%bool_decide_eq_true. pose proof (ci_turns _ _ Hc) as H. rewrite Forall_forall in H. specialize (H t Ht).
  unfold turn_ok in H. rewrite Ha in H. destruct (ct_content t); [done|]. split; [done|]. unfold is_pending. by rewrite H.
Qed.

Lemma finalise_keeps text now t : keeps t (finalise text now t).
Proof.
  unfold finalise, map_buffer, keeps. destruct (ct_content t) eqn:E; cbn; split_and!; eauto.
Qed.

Lemma append_inv p chunk c w :
  conv_inv c w → let '(c', w') := append_assistant_chunk clock uuid p chunk c w in conv_inv c' w' ∧ w ≤ w' ∧ cv_pending c' = cv_pending c.
Proof.
  intros Hc. unfold append_assistant_chunk. case_bool_decide as Hp; cbn [negb]; [|done].
  pose proof (any_since_draws (λ t, is_assistant t && has_assistant_text t) p c (cv_turns c) w) as Hw.
  destruct (any_since _ _ _ _ _ _) as [already w1]. cbn [snd] in Hw. destruct already; cbn [negb].
  - split_and!; [|done|done]. unfold alter_last. destruct (rposition _ _) as [i|].
    + eapply conv_inv_update; [done|apply Forall2_alter_at; [apply _|intros; apply buffer_keeps]|done|].
      rewrite alter_pending; [apply (ci_pending _ _ Hc)|intros; apply buffer_same].
    + eapply conv_inv_update; [done|reflexivity|done|apply (ci_pending _ _ Hc)].
  - split_and!; [|lia|done]. eapply (conv_inv_push _ w1 _ _ w1 (S w1)); try done; [by eapply conv_inv_more|lia|lia|].
    cbn. rewrite app_nil_r. apply (ci_pending _ _ Hc).
Qed.

(** Resolving the pending turn leaves none. *)
Lemma resolve_inv c w p st error :
  conv_inv c w → cv_pending c = Some p → st = Delivered ∨ st = Failed true →
  let '(ts, w') := resolve_turns clock p st error (cv_turns c) w in conv_inv (set_turns ts None c) w' ∧ w ≤ w'.
Proof.
  intros Hc Hp Hst. pose proof (resolve_turns_draws p st error (cv_turns c) w) as Hw.
  pose proof (resolve_turns_pending p st error (cv_turns c) w) as Hpend.
  assert (∀ t, t ∈ cv_turns c → ct_id t = p → ct_author t = User) as Hu.
  { intros t Ht Hi. destruct (ct_author t) eqn:Ea; [done|]. exfalso.
    pose proof (ci_pending _ _ Hc) as Hs. unfold single_pending, pending_ids in Hs. rewrite Hp in Hs.
    assert (∃ u, u ∈ cv_turns c ∧ is_pending u = true ∧ ct_id u = p) as (u & Hin & Hup & Hui).
    { assert (p ∈ ct_id <$> retain is_pending (cv_turns c)) as (u & -> & [Hin Hup]%retain_elem_of)%list_elem_of_fmap by (rewrite Hs; by left).
      by exists u. }
    destruct (assistant_not_pending c w t Hc Ht) as [_ Hn]; [by apply bool_decide_eq_true|].
    apply list_elem_of_lookup in Ht as [j Hj]. apply list_elem_of_lookup in Hin as [k Hk].
    assert (j = k) as ->.
    { eapply (NoDup_lookup _ _ _ p (ci_ids _ _ Hc)); rewrite list_lookup_fmap; [rewrite Hj|rewrite Hk]; cbn; congruence. }
    congruence. }
  assert (Forall2 keeps (cv_turns c) (resolve_turns clock p st error (cv_turns c) w).1) as Hk.
  { apply resolve_turns_keeps. intros t Ht Hi Ha. rewrite Hu in Ha by done. done. }
  destruct (resolve_turns _ _ _ _ _ _) as [ts w']. cbn [fst snd] in *. split; [|done]. eapply conv_inv_update; [done..|].
  rewrite Hpend by (by destruct Hst; subst). change (ct_id <$> retain is_pending (cv_turns c)) with (pending_ids c).
  rewrite (ci_pending _ _ Hc), Hp. cbn. by rewrite Z.eqb_refl.
Qed.

Lemma reply_inv p text c w :
  conv_inv c w →
  let '(c', w') := record_assistant_reply clock uuid p text c w in
  conv_inv c' w' ∧ w ≤ w' ∧ cv_pending c' = if bool_decide (cv_pending c = Some p) then None else cv_pending c.
Proof.
  intros Hc. unfold record_assistant_reply. case_bool_decide as Hp; cbn [negb]; [|done].
  pose proof (any_since_draws is_assistant p c (cv_turns c) w) as Hw.
  destruct (any_since _ _ _ _ _ _) as [ex w1]. cbn [snd] in Hw.
  destruct (if ex then _ else _) as [ts w2] eqn:Et.
  assert (conv_inv (set_turns ts (cv_pending c) c) w2 ∧ w1 ≤ w2) as [Hc2 Hw2].
  { destruct ex; [destruct (rposition _ _) as [i|] eqn:Er|]; simplify_eq.
    - split; [|lia]. apply rposition_Some in Er as (t & Ht & Ha & _).
      eapply conv_inv_update; [done|apply Forall2_alter_at; [apply _|intros; apply finalise_keeps]|lia|].
      rewrite alter_pending; [apply (ci_pending _ _ Hc)|]. intros u Hu. rewrite Ht in Hu. simplify_eq.
      destruct (assistant_not_pending c w u Hc) as [_ Hn]; [by eapply list_elem_of_lookup_2|done|]. rewrite Hn.
      unfold finalise, map_buffer, is_pending. by destruct (ct_content u).
    - split; [|done]. eapply conv_inv_update; [done|reflexivity|done|apply (ci_pending _ _ Hc)].
    - split; [|lia]. eapply (conv_inv_push _ w1 _ _ w1 (S w1)); try done; [by eapply conv_inv_more|lia|lia|].
      cbn. rewrite app_nil_r. apply (ci_pending _ _ Hc). }
  pose proof (resolve_inv _ w2 p Delivered ct_error Hc2 Hp (or_introl eq_refl)) as Hr. cbn [cv_turns set_turns] in Hr.
  destruct (resolve_turns _ _ _ _ _ _) as [ts' w3]. destruct Hr. split_and!; [done|lia|done].
Qed.

Lemma failure_inv p e c w :
  conv_inv c w →
  let '(c', w') := record_failure clock p e c w in
  conv_inv c' w' ∧ w ≤ w' ∧ cv_pending c' = if bool_decide (cv_pending c = Some p) then None else cv_pending c.
Proof.
  intros Hc. unfold record_failure. case_bool_decide as Hp; cbn [negb]; [|done].
  pose proof (resolve_inv _ w p (Failed true) (λ _, Some e) Hc Hp (or_intror eq_refl)) as Hr.
  destruct (resolve_turns _ _ _ _ _ _) as [ts' w3]. destruct Hr. done.
Qed.

Lemma retry_inv i c w :
  conv_inv c w →
  let '(c', w', r) := retry clock uuid i c w in
  conv_inv c' w' ∧ w ≤ w' ∧
  match r with
  | Ok p => p = uuid w ∧ cv_pending c = None ∧ w' = S (S w) ∧ ∃ t text l, t ∈ cv_turns c ∧ ct_id t = i ∧ ct_content t = UserMessage text l ∧
      message_ok b64_encode text l ∧ c' = set_turns (cv_turns c ++ [user_turn clock uuid w (UserMessage text l)]) (Some p) c
  | Err _ => c' = c ∧ w' = w
  end.
Proof.
  intros Hc. unfold retry. destruct (is_busy c) eqn:Eb; [done|]. apply is_busy_false in Eb.
  destruct (find_first _ _) as [t|] eqn:Ef; [|done]. case_bool_decide; cbn [negb]; [|done].
  destruct (ct_content t) as [text l|] eqn:Et; [|done]. apply find_first_Some in Ef as [Hin Hi%Z.eqb_eq].
  assert (message_ok b64_encode text l) as Hm.
  { pose proof (ci_turns _ _ Hc) as Ht. rewrite Forall_forall in Ht. specialize (Ht t Hin). unfold turn_ok in Ht. rewrite Et in Ht.
    by destruct (ct_author t). }
  split_and!; try done; [|lia|by exists t, text, l]. eapply (conv_inv_push _ w _ _ w (S w)); try done; [lia|lia|].
  rewrite (ci_pending _ _ Hc), Eb. done.
Qed.

Lemma dismiss_inv i c w : conv_inv c w → conv_inv (dismiss_failure i c) w ∧ cv_pending (dismiss_failure i c) = cv_pending c.
Proof.
  intros Hc. unfold dismiss_failure. destruct (position _ _) as [j|]; [|done]. split; [|done].
  eapply conv_inv_update; [done|apply Forall2_alter_at; [apply _|]|done|].
  - intros t _. unfold dismiss_turn, keeps. destruct (ct_status t) eqn:E; cbn; rewrite ?E; split_and!; try done; destruct (ct_content t); eauto.
  - rewrite alter_pending; [apply (ci_pending _ _ Hc)|]. intros t _. unfold dismiss_turn, is_pending. destruct (ct_status t) eqn:E; cbn; rewrite ?E; done.
Qed.
End Facts.

(** ** The application as a state machine *)

Definition set_task_state (st : TaskState) (t : RequestTask) : RequestTask := mkRequestTask (rt_pending t) (rt_request t) st.

Section Machine.
Variables (clock : nat → Z) (uuid : nat → Uuid) (b64_encode : string → string).

Definition app_init : App :=
  let '(c, w) := Conversation_new clock uuid 0 in mkApp c PendingInput_default "" [] w.

(** The user types, looks, attaches, removes, sends, retries and dismisses; the server opens a
    task's stream or refuses it, sends an item or ends the stream.  A guessed media type is the
    essence of one. *)
Inductive app_step (a : App) : App → Prop :=
| step_type s : app_step a (mkApp (ap_conversation a) (ap_input a) s (ap_tasks a) (ap_draws a))
| step_render : app_step a (render_sync a)
| step_attach name bytes guessed :
    (∀ m, guessed = Some m → essence m = true) → app_step a (ingest_attachment uuid b64_encode name bytes guessed a).1
| step_remove i : app_step a (remove_pending_attachment_global i a)
| step_send : app_step a (spawn_send clock uuid a)
| step_retry i : app_step a (retry_turn clock uuid i a)
| step_dismiss i : app_step a (set_conversation (dismiss_failure i (ap_conversation a), ap_draws a) a)
| step_open i t : ap_tasks a !! i = Some t → rt_state t = Opening → app_step a (set_tasks (<[i := set_task_state Streaming t]> (ap_tasks a)) a)
| step_refused i t e : ap_tasks a !! i = Some t → rt_state t = Opening →
    app_step a (set_tasks (delete i (ap_tasks a)) (fail_task clock (rt_pending t) e a))
| step_item i t item a' more : ap_tasks a !! i = Some t → rt_state t = Streaming →
    task_item clock uuid (rt_pending t) item a = (a', more) →
    app_step a (if more then a' else set_tasks (delete i (ap_tasks a)) a')
| step_end i t : ap_tasks a !! i = Some t → rt_state t = Streaming → app_step a (set_tasks (delete i (ap_tasks a)) a).

Definition input_ok (p : PendingInput) : Prop :=
  length (pi_attachments p) ≤ MAX_ATTACHMENTS_PER_TURN ∧ (total_size (pi_attachments p) <= TURN_TOTAL_MAX_BYTES)%Z ∧
  NoDup (at_filename <$> pi_attachments p) ∧ Forall (carries b64_encode) (pi_attachments p).

Definition task_ok (w : nat) (t : RequestTask) : Prop :=
  (∃ k, k < w ∧ rt_pending t = uuid k) ∧
  ∃ text l, message_ok b64_encode text l ∧ rt_request t = from_user_turn GUI_MODEL text l true.

Record app_inv (a : App) : Prop := {
  ai_conv : conv_inv clock uuid b64_encode (ap_conversation a) (ap_draws a);
  ai_input : input_ok (ap_input a);
  ai_ids : NoDup (rt_pending <$> ap_tasks a);
  ai_tasks : Forall (task_ok (ap_draws a)) (ap_tasks a)
}.

Lemma app_inv_init : app_inv app_init.
Proof. constructor; cbn; try constructor; cbn; try constructor; cbn; try constructor; cbn; try lia; try done; try constructor. Qed.

(** *** Attachments *)

Lemma carries_range l : Forall (carries b64_encode) l → Forall (λ x, (0 <= at_size x <= PER_FILE_MAX_BYTES_U64)%Z) l.
Proof. intros H. eapply Forall_impl; [exact H|]. intros x (bytes & _ & Hs & Hle & _). lia. Qed.

Lemma sizes_sublist l k : l `sublist_of` k → Forall (carries b64_encode) k → (sizes (meta_of <$> l) <= sizes (meta_of <$> k))%Z.
Proof.
  induction 1 as [|x l k _ IH|x l k _ IH]; intros Hk; [done|..]; apply Forall_cons in Hk as [Hx Hk]; specialize (IH Hk);
    change (meta_of <$> x :: ?z) with (meta_of x :: (meta_of <$> z)); rewrite !sizes_cons; cbn [am_size meta_of]; [lia|].
  destruct Hx as (bytes & _ & Hs & _). lia.
Qed.

(** Taking an attachment away keeps the limits. *)
Lemma input_ok_delete p i : input_ok p → input_ok (mkPendingInput (pi_text p) (delete i (pi_attachments p)) (pi_transient_error p)).
Proof.
  intros (Hl & Ht & Hn & Hc). pose proof (sublist_delete (pi_attachments p) i) as Hs. pose proof (sublist_length _ _ Hs) as Hsl.
  assert (Forall (carries b64_encode) (delete i (pi_attachments p))) as Hc' by (by apply Forall_delete).
  unfold input_ok. cbn. split_and!; [lia| | |done].
  - rewrite total_size_sizes in * by (try apply carries_range; (done || lia)). pose proof (sizes_sublist _ _ Hs Hc). lia.
  - rewrite list_fmap_delete. eapply sublist_NoDup; [exact Hn|apply sublist_delete].
Qed.

Lemma ingest_inv name bytes guessed a :
  (∀ m, guessed = Some m → essence m = true) → app_inv a → app_inv (ingest_attachment uuid b64_encode name bytes guessed a).1.
Proof.
  intros Hg [Hc (Hl & Ht & Hn & Hf) Hi Hts]. unfold ingest_attachment. destruct bytes as [bytes|]; [|by constructor].
  destruct (Z.ltb_spec PER_FILE_MAX_BYTES_U64 (Z.of_nat (String.length bytes))) as [|Hb]; [by constructor|].
  assert (conv_inv clock uuid b64_encode (ap_conversation a) (S (ap_draws a))) as Hc' by (eapply conv_inv_more; [done|lia]).
  assert (Forall (task_ok (S (ap_draws a))) (ap_tasks a)) as Hts'.
  { eapply Forall_impl; [exact Hts|]. intros t [(k & ? & ?) ?]. split; [exists k; split; [lia|done]|done]. }
  destruct (existsb _ _) eqn:Ee; [by constructor|]. destruct (_ <=? _) eqn:Em; [by constructor|].
  destruct (_ <? _)%Z eqn:Etot; [by constructor|]. constructor; cbn; try done. apply Nat.leb_gt in Em. apply Z.ltb_ge in Etot.
  unfold input_ok. cbn. split_and!.
  - rewrite length_app. cbn in *. lia.
  - unfold total_size in *. rewrite foldl_snoc. exact Etot.
  - rewrite fmap_app. apply NoDup_app. split_and!; [done| |apply NoDup_singleton]. intros x Hx ->%list_elem_of_singleton.
    apply list_elem_of_fmap in Hx as (y & Ey & Hy). apply not_true_iff_false in Ee. apply Ee, existsb_exists. exists y.
    split; [by apply list_elem_of_In|]. cbn in Ey. rewrite <-Ey. apply String.eqb_refl.
  - apply Forall_app. split; [done|]. constructor; [|done]. exists bytes. cbn. split_and!; try done. destruct guessed as [m|]; [by apply Hg|done].
Qed.

(** *** Preservation *)

Lemma task_ok_more w w' ts : Forall (task_ok w) ts → w ≤ w' → Forall (task_ok w') ts.
Proof. intros H Hw. eapply Forall_impl; [exact H|]. intros t [(k & ? & ?) ?]. split; [exists k; split; [lia|done]|done]. Qed.

Lemma app_inv_conversation c w a :
  app_inv a → conv_inv clock uuid b64_encode c w → ap_draws a ≤ w → app_inv (set_conversation (c, w) a).
Proof. intros [? ? ? ?] Hc Hw. constructor; cbn; try done. by eapply task_ok_more. Qed.

Lemma app_inv_remove_task i a : app_inv a → app_inv (set_tasks (delete i (ap_tasks a)) a).
Proof.
  intros [? ? Hn ?]. constructor; cbn; try done; [|by apply Forall_delete]. rewrite list_fmap_delete.
  eapply sublist_NoDup; [exact Hn|apply sublist_delete].
Qed.

Context `{!Inj (=) (=) uuid}.

Lemma app_inv_spawn text l w a :
  app_inv a → Forall (task_ok w) (ap_tasks a) → w < ap_draws a → message_ok b64_encode text l →
  app_inv (spawn_request text l (uuid w) a).
Proof.
  intros [? ? Hn Hts] Hw Hlt Hm. constructor; cbn; try done.
  - rewrite fmap_app. apply NoDup_app. split_and!; [done| |apply NoDup_singleton]. intros x Hx ->%list_elem_of_singleton.
    apply list_elem_of_fmap in Hx as (t & E & Ht). rewrite Forall_forall in Hw. destruct (Hw t Ht) as [(k & Hk & Ek) _].
    cbn in E. rewrite Ek in E. apply (inj uuid) in E. lia.
  - apply Forall_app. split; [done|]. constructor; [|done]. split; [by exists w|by exists text, l].
Qed.

Lemma send_app_inv a : app_inv a → app_inv (spawn_send clock uuid a).
Proof.
  intros Ha. pose proof (ai_input _ Ha) as (_ & _ & _ & Hf). unfold spawn_send.
  pose proof (send_inv clock uuid b64_encode (pi_text (ap_input a)) (pi_attachments (ap_input a)) _ _ (ai_conv _ Ha) Hf) as H.
  destruct (send_user_message _ _ _ _ _ _) as [[c w] [p|e]]; destruct H as (Hc & Hw & H); [|by apply app_inv_conversation].
  destruct H as (-> & _ & Hm & _ & ->). apply app_inv_spawn; cbn; [|apply (ai_tasks _ Ha)|lia|done].
  destruct (app_inv_conversation _ _ a Ha Hc Hw). constructor; try done. split_and!; cbn; try constructor; try done; lia.
Qed.

Lemma retry_app_inv i a : app_inv a → app_inv (retry_turn clock uuid i a).
Proof.
  intros Ha. unfold retry_turn. pose proof (retry_inv clock uuid b64_encode i _ _ (ai_conv _ Ha)) as H.
  destruct (retry _ _ _ _ _) as [[c w] [p|e]]; destruct H as (Hc & Hw & H); [|by apply app_inv_conversation].
  destruct H as (-> & _ & -> & t & text & l & _ & _ & _ & Hm & ->).
  pose proof (app_inv_conversation _ _ a Ha Hc Hw) as Ha'. destruct (find_first _ _) as [u|] eqn:Ef; [|done].
  destruct (ct_content u) as [text' l'|] eqn:Eu; [|done]. apply app_inv_spawn; cbn; [done|apply (ai_tasks _ Ha)|lia|].
  apply find_first_Some in Ef as [Hin _]. pose proof (ci_turns _ _ _ _ _ Hc) as Ht. rewrite Forall_forall in Ht. specialize (Ht u Hin).
  unfold turn_ok in Ht. rewrite Eu in Ht. by destruct (ct_author u).
Qed.

(** What an item does to the conversation. *)
Lemma item_app_inv p item a a' more :
  app_inv a → task_item clock uuid p item a = (a', more) →
  app_inv a' ∧ ap_tasks a' = ap_tasks a ∧ (cv_pending (ap_conversation a) ≠ Some p → a' = a).
Proof.
  intros Ha. pose proof (ai_conv _ Ha) as Hc. unfold task_item, fail_task. destruct item as [[?|? d|? t]|e]; intros [= <- <-]; [done|..].
  - pose proof (append_inv clock uuid b64_encode p d _ _ Hc) as H. unfold append_assistant_chunk in *.
    split_and!; [|done|intros Hn; rewrite bool_decide_eq_false_2 by done; by destruct a].
    destruct (if negb _ then _ else _) as [c w]. destruct H as (? & ? & _). by apply app_inv_conversation.
  - pose proof (reply_inv clock uuid b64_encode p t _ _ Hc) as H. unfold record_assistant_reply in *.
    split_and!; [|done|intros Hn; rewrite bool_decide_eq_false_2 by done; by destruct a].
    destruct (if negb _ then _ else _) as [c w]. destruct H as (? & ? & _). by apply app_inv_conversation.
  - pose proof (failure_inv clock uuid b64_encode p (classify_error e) _ _ Hc) as H. unfold record_failure in *.
    split_and!; [|done|intros Hn; rewrite bool_decide_eq_false_2 by done; by destruct a].
    destruct (if negb _ then _ else _) as [c w]. destruct H as (? & ? & _). by apply app_inv_conversation.
Qed.

Lemma app_inv_step a a' : app_inv a → app_step a a' → app_inv a'.
Proof.
  intros Ha Hs. inversion Hs; subst; clear Hs.
  - by destruct Ha.
  - destruct Ha as [? (? & ? & ? & ?) ? ?]. by constructor.
  - by apply ingest_inv.
  - unfold remove_pending_attachment_global. case_match; [|done]. destruct Ha. constructor; try done. by apply input_ok_delete.
  - by apply send_app_inv.
  - by apply retry_app_inv.
  - apply app_inv_conversation; [done| |done]. by apply dismiss_inv, ai_conv.
  - destruct Ha as [? ? Hn Ht]. constructor; cbn; try done.
    + rewrite list_fmap_insert. rewrite list_insert_id; [done|]. rewrite list_lookup_fmap. by rewrite H.
    + apply Forall_insert; [done|]. rewrite Forall_lookup in Ht. exact (Ht _ _ H).
  - destruct (item_app_inv (rt_pending t) (Err e) a (fail_task clock (rt_pending t) e a) false Ha eq_refl) as (Ha' & Ht & _).
    by apply (app_inv_remove_task i) in Ha'.
  - destruct (item_app_inv _ _ _ _ _ Ha H1) as (Ha' & Ht & _). destruct more; [done|]. rewrite <-Ht. by apply app_inv_remove_task.
  - by apply app_inv_remove_task.
Qed.

Lemma app_inv_reachable a : rtc app_step app_init a → app_inv a.
Proof.
  intros H. pose proof app_inv_init as Hi. induction H as [|a b c Hs _ IH]; [done|]. apply IH. by eapply app_inv_step.
Qed.

(** ** A stream that ends early *)

(** The pending turn has no task. *)
Definition orphaned (p : Uuid) (a : App) : Prop :=
  app_inv a ∧ cv_pending (ap_conversation a) = Some p ∧ p ∉ rt_pending <$> ap_tasks a.

Lemma busy_refuses c p : cv_pending c = Some p → is_busy c = true.
Proof. unfold is_busy. intros ->. done. Qed.

Lemma orphaned_step p a a' : orphaned p a → app_step a a' → orphaned p a'.
Proof.
  intros (Ha & Hp & Hn) Hs. assert (app_inv a') as Ha' by (by eapply app_inv_step).
  split; [done|]. clear Ha'. assert (∀ i t, ap_tasks a !! i = Some t → cv_pending (ap_conversation a) ≠ Some (rt_pending t)) as Ht.
  { intros i t Hi E. apply Hn. apply list_elem_of_fmap. exists t. split; [congruence|by eapply list_elem_of_lookup_2]. }
  assert (∀ i, p ∉ rt_pending <$> delete i (ap_tasks a)) as Hd.
  { intros i Hin. apply Hn. apply list_elem_of_fmap in Hin as (t & -> & Hin). apply list_elem_of_fmap_2.
    eapply elem_of_submseteq; [exact Hin|apply sublist_submseteq, sublist_delete]. }
  inversion Hs; subst; clear Hs; try done.
  - unfold ingest_attachment. destruct bytes; [|done]. repeat case_match; done.
  - unfold remove_pending_attachment_global. by case_match.
  - unfold spawn_send, send_user_message. rewrite (busy_refuses _ _ Hp). done.
  - unfold retry_turn, retry. rewrite (busy_refuses _ _ Hp). done.
  - split; [|done]. cbn. by rewrite (proj2 (dismiss_inv _ _ _ i _ _ (ai_conv _ Ha))).
  - split; [done|]. cbn. rewrite list_fmap_insert. cbn. rewrite list_insert_id; [done|]. rewrite list_lookup_fmap. by rewrite H.
  - destruct (item_app_inv (rt_pending t) (Err e) a _ _ Ha eq_refl) as (_ & _ & E). cbn [fst] in E. rewrite E by (by eapply Ht). split; [exact Hp|apply Hd].
  - destruct (item_app_inv _ _ _ _ _ Ha H1) as (_ & _ & E). rewrite E by (by eapply Ht). destruct more; [done|]. split; [exact Hp|apply Hd].
  - split; [exact Hp|apply Hd].
Qed.

Lemma orphaned_stays p a a' : orphaned p a → rtc app_step a a' → orphaned p a'.
Proof. intros Ho H. induction H as [|a b c Hs _ IH]; [done|]. apply IH. by eapply orphaned_step. Qed.
End Machine.

(** A stream that ends without completion or error leaves its turn pending for good: from a
    state that is reached by sending one message, every later attempt to send is refused. *)
Theorem early_end_busy_forever clock uuid b64_encode `{!Inj (=) (=) uuid} :
  ∃ a, rtc (app_step clock uuid b64_encode) (app_init clock uuid) a ∧
    ∀ a', rtc (app_step clock uuid b64_encode) a a' →
      ∀ text l, send_user_message clock uuid text l (ap_conversation a') (ap_draws a') = (ap_conversation a', ap_draws a', Err SendBusy).
Proof.
  set (typed := mkApp (ap_conversation (app_init clock uuid)) PendingInput_default "hi" [] 2).
  set (sent := spawn_send clock uuid (render_sync typed)).
  set (opened := set_tasks ((set_task_state Streaming) <$> ap_tasks sent) sent).
  assert (rtc (app_step clock uuid b64_encode) (app_init clock uuid) (set_tasks [] opened)) as Hr.
  { eapply rtc_l; [exact (step_type _ _ _ (app_init clock uuid) "hi")|]. eapply rtc_l; [exact (step_render _ _ _ typed)|].
    eapply rtc_l; [exact (step_send _ _ _ (render_sync typed))|]. eapply rtc_l; [exact (step_open _ _ _ sent 0 _ eq_refl eq_refl)|].
    eapply rtc_l; [exact (step_end _ _ _ opened 0 _ eq_refl eq_refl)|]. done. }
  exists (set_tasks [] opened). split; [done|]. intros a' Ha' text l.
  assert (orphaned clock uuid b64_encode (uuid 2) a') as (_ & Hp & _).
  { apply (orphaned_stays clock uuid b64_encode _ (set_tasks [] opened)); [|exact Ha']. split; [by apply app_inv_reachable|]. split; [done|]. apply not_elem_of_nil. }
  unfold send_user_message. by rewrite (busy_refuses _ _ Hp).
Qed.

(** ** An answer *)

Lemma rposition_snoc {A} (f : A → bool) l x : f x = true → rposition f (l ++ [x]) = Some (length l).
Proof. intros Hx. induction l as [|y l IH]; cbn; [by rewrite Hx|]. by rewrite IH. Qed.

Lemma alter_snoc {A} (f : A → A) l x : alter f (length l) (l ++ [x]) = l ++ [f x].
Proof. induction l as [|y l IH]; cbn; [done|]. by f_equal. Qed.

Lemma find_skips i l ts : Forall (λ t, ct_id t ≠ i) l → find_first (has_turn_id i) (l ++ ts) = find_first (has_turn_id i) ts.
Proof.
  induction 1 as [|t l Ht _ IH]; cbn; [done|]. unfold has_turn_id at 1. by rewrite (proj2 (Z.eqb_neq _ _)).
Qed.

Lemma any_skips clock p i c started l ts w :
  (∀ w, user_turn_started clock i c w = (started, w)) → Forall (λ t, (ct_created_at t < started)%Z ∨ p t = false) l →
  any_since clock p i c (l ++ ts) w = any_since clock p i c ts w.
Proof.
  intros Hs. induction 1 as [|t l Ht _ IH]; cbn [app any_since]; [done|]. destruct (p t) eqn:E; [|done]. rewrite Hs. cbn.
  destruct Ht as [Ht|]; [|done]. by rewrite (proj2 (Z.leb_gt _ _)).
Qed.

Section Answer.
Variables (clock : nat → Z) (uuid : nat → Uuid).
Hypothesis clock_increases : ∀ i j, i < j → (clock i < clock j)%Z.
Context `{!Inj (=) (=) uuid}.
(** The number of draws before the turn was sent, its content, and the turns before it. *)
Variables (w0 : nat) (content : TurnContent) (old : list ConversationTurn).
Hypothesis old_turns : Forall (λ t, ct_id t ≠ uuid w0 ∧ (ct_created_at t < clock (S w0))%Z) old.

Definition answer_turn (text : string) (t : ConversationTurn) : Prop :=
  ct_author t = Assistant ∧ ct_content t = AssistantText text ∧ ct_status t = Delivered ∧ ct_id t ≠ uuid w0 ∧
  (clock (S w0) <= ct_created_at t)%Z.

(** The turn is pending, and what of its answer has arrived is in the turn after it. *)
Definition answering (text : option string) (c : Conversation) : Prop :=
  cv_pending c = Some (uuid w0) ∧
  match text with
  | None => cv_turns c = old ++ [user_turn clock uuid w0 content]
  | Some text => ∃ t, cv_turns c = (old ++ [user_turn clock uuid w0 content]) ++ [t] ∧ answer_turn text t
  end.

Lemma assistant_turn_answers w text : S w0 < w → answer_turn text (assistant_turn clock uuid w text).
Proof.
  intros Hw. split_and!; try done; cbn.
  - intros E%(inj uuid). lia.
  - pose proof (clock_increases (S w0) (S w)). lia.
Qed.

Lemma answering_started text c w : answering text c → user_turn_started clock (uuid w0) c w = (clock (S w0), w).
Proof.
  intros [_ H]. unfold user_turn_started.
  assert (Forall (λ t, ct_id t ≠ uuid w0) old) as Ho by (eapply Forall_impl; [exact old_turns|by intros ? []]).
  destruct text; [destruct H as (t & -> & _)|rewrite H]; rewrite <-?app_assoc, find_skips by done; cbn; unfold has_turn_id; cbn;
    by rewrite Z.eqb_refl.
Qed.

(** Only the answer itself is found. *)
Lemma answering_any p text c w :
  (∀ t, p t = true → is_assistant t = true) → (∀ t b, answer_turn b t → p t = true) → answering text c →
  any_since clock p (uuid w0) c (cv_turns c) w = (bool_decide (is_Some text), w).
Proof.
  intros Hp Hq Hc. pose proof (λ w, answering_started _ _ w Hc) as Hs.
  assert (∀ l w, any_since clock p (uuid w0) c ((old ++ [user_turn clock uuid w0 content]) ++ l) w = any_since clock p (uuid w0) c l w) as Ha.
  { intros l v. apply (any_skips _ _ _ _ (clock (S w0))); [done|]. apply Forall_app. split.
    - eapply Forall_impl; [exact old_turns|]. intros t [_ ?]. by left.
    - constructor; [|done]. right. apply not_true_iff_false. by intros E%Hp. }
  destruct Hc as [_ Hc]. destruct text as [text|].
  - destruct Hc as (t & -> & Ht). rewrite Ha. cbn. rewrite (Hq t text Ht), Hs. cbn. destruct Ht as (_ & _ & _ & _ & Ht).
    by rewrite (proj2 (Z.leb_le _ _)).
  - rewrite Hc. rewrite <-(app_nil_r (old ++ _)). by rewrite Ha.
Qed.

Lemma answer_assistant b t : answer_turn b t → is_assistant t = true.
Proof. intros (H & _). by apply bool_decide_eq_true. Qed.

Lemma append_answers text chunk c w :
  answering text c → S w0 < w →
  let '(c', w') := append_assistant_chunk clock uuid (uuid w0) chunk c w in answering (Some (default "" text +:+ chunk)) c' ∧ S w0 < w'.
Proof.
  intros Hc Hw. unfold append_assistant_chunk. rewrite bool_decide_eq_true_2 by apply Hc. cbn [negb].
  rewrite (answering_any _ text); [|by intros t [? _]%andb_true_iff| |done].
  2:{ intros t b Ht. rewrite (answer_assistant b t Ht). unfold has_assistant_text. destruct Ht as (_ & -> & _). done. }
  destruct Hc as [Hp Hc]. destruct text as [text|]; cbn [negb].
  - rewrite bool_decide_eq_true_2 by done. cbn [negb]. split; [|done]. split; [done|]. destruct Hc as (t & E & Ht). cbn.
    unfold alter_last. rewrite E, rposition_snoc by (by eapply answer_assistant). rewrite alter_snoc. eexists. split; [done|].
    destruct Ht as (? & Et & ? & ? & ?). unfold map_buffer. rewrite Et. split_and!; cbn; done.
  - rewrite bool_decide_eq_false_2 by (by intros []). cbn [negb]. split; [|lia]. split; [done|]. cbn. rewrite Hc, sapp_nil_l.
    eexists. split; [done|]. by apply assistant_turn_answers.
Qed.

Lemma resolve_skips p st error l ts w :
  Forall (λ t, ct_id t ≠ p) l →
  resolve_turns clock p st error (l ++ ts) w = (l ++ (resolve_turns clock p st error ts w).1, (resolve_turns clock p st error ts w).2).
Proof.
  induction 1 as [|t l Ht _ IH]; cbn [app resolve_turns]; [by destruct (resolve_turns _ _ _ _ _ _)|].
  unfold has_turn_id. rewrite (proj2 (Z.eqb_neq _ _)) by done. by rewrite IH.
Qed.

(** The reply resolves the turn and is the text of its answer. *)
Lemma reply_answers text full c w :
  answering text c → S w0 < w →
  let '(c', _) := record_assistant_reply clock uuid (uuid w0) full c w in
  cv_pending c' = None ∧ ∃ u t, cv_turns c' = old ++ [u; t] ∧ ct_content u = content ∧ ct_author u = User ∧ ct_status u = Delivered ∧
    answer_turn full t.
Proof.
  intros Hc Hw. unfold record_assistant_reply. rewrite bool_decide_eq_true_2 by apply Hc. cbn [negb].
  rewrite (answering_any _ text); [|done|intros t b; apply answer_assistant|done].
  destruct (if bool_decide (is_Some text) then _ else _) as [ts w2] eqn:Et.
  assert (∃ t, ts = old ++ [user_turn clock uuid w0 content; t] ∧ answer_turn full t) as (t & -> & Ht).
  { destruct Hc as [_ Hc]. destruct text as [text|].
    - rewrite bool_decide_eq_true_2 in Et by done. destruct Hc as (t & E & Ht). rewrite E, rposition_snoc in Et by (by eapply answer_assistant).
      rewrite alter_snoc in Et. simplify_eq. rewrite <-app_assoc. eexists. split; [done|].
      destruct Ht as (? & Et & ? & ? & ?). unfold finalise, map_buffer. rewrite Et. split_and!; cbn; done.
    - rewrite bool_decide_eq_false_2 in Et by (by intros []). simplify_eq. rewrite Hc, <-app_assoc. eexists. split; [done|].
      by apply assistant_turn_answers. }
  rewrite resolve_skips by (eapply Forall_impl; [exact old_turns|by intros ? []]). cbn. unfold has_turn_id. cbn. rewrite Z.eqb_refl.
  destruct Ht as (H1 & H2 & H3 & H4 & H5). rewrite (proj2 (Z.eqb_neq _ _)) by done. cbn. split; [done|].
  eexists _, _. split; [done|]. by split_and!.
Qed.
End Answer.

(** ** From the endpoint to the conversation *)

(** What an event source reads of an event that was written: its data, and its name, which an
    unnamed event lacks or has by default. *)
Definition delivered (e : SseEvent) (r : result (string * string) string) : Prop :=
  ∃ name, r = Ok (name, se_data e) ∧ match se_event e with Some n => name = n | None => name ∈ [""; "message"] end.

Lemma wrap_u32_ok z : in_i64 (wrap_u32 z) || in_u64 (wrap_u32 z) = true.
Proof.
  unfold wrap_u32, in_i64, in_u64, i64_min, i64_max, u64_max. pose proof (Z.mod_pos_bound z 4294967296 ltac:(done)). apply orb_true_iff. left. lia.
Qed.

Section Frames.
Variables (to_string : json → string) (from_str : string → option json) (frame_error : string → string).
Context `{!JsonCodec from_str to_string}.

Lemma response_json_ok id model created text attachments :
  in_i64 created = true → json_ok (response_to_json (build_open_response id model created text attachments)) = true.
Proof.
  intros Hc. unfold json_ok, response_to_json, build_open_response.
  cbn [op_id op_created op_model op_text op_input_tokens op_output_tokens op_total_tokens]. unfold approx_tokens.
  cbn -[in_i64 in_u64 wrap_u32 approx_tokens]. rewrite Hc, !wrap_u32_ok. done.
Qed.

Abbreviation read_event := (streaming_event from_str frame_error).

Lemma deltas_read st chunks ds rest :
  Forall2 delivered (delta_event to_string st <$> chunks) ds →
  filter_map read_event (ds ++ rest) = ((λ d, Ok (EvDelta (sm_response_id st) d)) <$> chunks) ++ filter_map read_event rest.
Proof.
  revert ds. induction chunks as [|d chunks IH]; intros ds H.
  - by apply Forall2_nil_inv_l in H as ->.
  - apply Forall2_cons_inv_l in H as (x & ds' & (name & -> & ->) & H & ->). cbn [app filter_map]. rewrite IH by done.
    assert (read_event (Ok ("response.output_text.delta", se_data (delta_event to_string st d))) = Some (Ok (EvDelta (sm_response_id st) d))) as ->; [|done].
    cbn -[trim json_ok]. by rewrite codec_roundtrip.
Qed.

Lemma created_read st : in_i64 (sm_created st) = true →
  read_event (Ok ("response.created", se_data (created_event to_string st))) = Some (Ok (EvCreated (sm_response_id st))).
Proof.
  intros Hc. cbn -[trim json_ok]. rewrite codec_roundtrip; [done|]. unfold json_ok. cbn -[in_i64 in_u64]. by rewrite Hc.
Qed.

(** The client reads the frames of a stream as what they were made from. *)
Lemma frames_read id created req chunks items :
  in_i64 created = true →
  Forall2 delivered (build_event_stream to_string (prepare_stream_state id created req chunks)) items →
  filter_map read_event items =
  Ok (EvCreated id) :: ((λ d, Ok (EvDelta id d)) <$> chunks) ++
    [Ok (EvCompleted id (op_text (build_open_response id (vr_model req) created (join "" chunks) (vr_attachments req))))].
Proof.
  intros Hc H. set (s := prepare_stream_state id created req chunks) in *. unfold build_event_stream in H.
  apply Forall2_cons_inv_l in H as (x & items' & (name & -> & ->) & H & ->).
  apply Forall2_app_inv_l in H as (ds & rest & Hd & Hr & ->).
  apply Forall2_cons_inv_l in Hr as (x & rest' & (name & -> & ->) & Hr & ->).
  apply Forall2_cons_inv_l in Hr as (x & rest & (name & -> & Hn) & Hr & ->). apply Forall2_nil_inv_l in Hr as ->.
  cbn [filter_map]. rewrite (created_read s Hc). f_equal. rewrite (deltas_read s chunks) by done. f_equal. cbn [filter_map].
  assert (read_event (Ok ("response.completed", se_data (completed_event to_string s))) = Some (Ok (EvCompleted id (op_text (sm_final s))))) as ->.
  { cbn -[trim json_ok response_to_json sm_final s]. rewrite codec_roundtrip by (by apply response_json_ok). done. }
  assert (read_event (Ok (name, se_data done_event)) = None) as ->; [|done].
  apply elem_of_cons in Hn as [->|Hn%list_elem_of_singleton]; [reflexivity|]. subst name. reflexivity.
Qed.
End Frames.

Lemma deltas_answer clock uuid `{!Inj (=) (=) uuid} w0 content old id chunks rest text a :
  (∀ i j, i < j → (clock i < clock j)%Z) →
  Forall (λ t, ct_id t ≠ uuid w0 ∧ (ct_created_at t < clock (S w0))%Z) old →
  answering clock uuid w0 content old text (ap_conversation a) → S w0 < ap_draws a →
  ∃ a', task_items clock uuid (uuid w0) (((λ d, Ok (EvDelta id d)) <$> chunks) ++ rest) a = task_items clock uuid (uuid w0) rest a' ∧
    answering clock uuid w0 content old (foldl (λ t d, Some (default "" t +:+ d)) text chunks) (ap_conversation a') ∧ S w0 < ap_draws a'.
Proof.
  intros Hclock Ho. revert text a. induction chunks as [|d chunks IH]; intros text a Ha Hw; [by exists a|].
  cbn [fmap list_fmap app task_items task_item]. pose proof (append_answers clock uuid Hclock w0 content old Ho text d _ _ Ha Hw) as H.
  destruct (append_assistant_chunk _ _ _ _ _ _) as [c w]. destruct H as [H Hw']. cbn [foldl].
  apply (IH _ (set_conversation (c, w) a)); done.
Qed.

(** *** The claims *)

(** C36: Whatever the order in which the user acts, files are attached and the events of request
    tasks arrive, at most one turn of the conversation is pending, and it is the one the
    conversation names; turns have distinct identifiers, those of the user hold a message within
    the limits on number and size of attachments and those of the assistant a delivered text;
    every task carries such a message, no two tasks serve the same turn, and an item for a turn
    that is no longer pending changes nothing. *)
Theorem one_turn_pending clock uuid b64_encode `{!Inj (=) (=) uuid} a :
  rtc (app_step clock uuid b64_encode) (app_init clock uuid) a →
  let c := ap_conversation a in
  ct_id <$> retain is_pending (cv_turns c) = option_list (cv_pending c) ∧
  NoDup (ct_id <$> cv_turns c) ∧ Forall (turn_ok b64_encode) (cv_turns c) ∧ NoDup (rt_pending <$> ap_tasks a) ∧
  Forall (λ t, (∃ text l, message_ok b64_encode text l ∧ rt_request t = from_user_turn GUI_MODEL text l true) ∧
               (cv_pending c ≠ Some (rt_pending t) → ∀ item, (task_item clock uuid (rt_pending t) item a).1 = a)) (ap_tasks a).
Proof.
  intros H%app_inv_reachable; [|done]. pose proof (ai_conv _ _ _ _ H) as [? ? ? ?]. split_and!; try done; [by destruct H|].
  eapply Forall_impl; [exact (ai_tasks _ _ _ _ H)|]. intros t [_ Ht]. split; [done|]. intros Hn item.
  destruct (task_item _ _ _ item a) as [a' more] eqn:E. by eapply (item_app_inv clock uuid b64_encode) in E as (_ & _ & E); [apply E|].
Qed.

Section EndToEnd.
Variables (clock : nat → Z) (uuid : nat → Uuid).
Variables (to_string : json → string) (from_str : string → option json) (frame_error : string → string).
Variables (b64_encode : string → string) (b64_decode : string → option string).
Context `{!Inj (=) (=) uuid, !JsonCodec from_str to_string, !Base64 b64_encode b64_decode}.
Hypothesis clock_increases : ∀ i j, i < j → (clock i < clock j)%Z.

(** The frames of an answer, handed to the task of a turn just sent, resolve the turn. *)
Lemma stream_answers c w text l id created chunks items status a reply_text :
  conv_inv clock uuid b64_encode c w → in_i64 created = true → is_success status = true →
  ap_conversation a = set_turns (cv_turns c ++ [user_turn clock uuid w (UserMessage text l)]) (Some (uuid w)) c → ap_draws a = S (S w) →
  Forall2 delivered (build_event_stream to_string (prepare_stream_state id created (mkValidated GUI_MODEL text true (meta_of <$> l)) chunks)) items →
  let c' := ap_conversation (run_task clock uuid (uuid w) (streaming_send from_str frame_error (Replied status reply_text items)) a) in
  cv_pending c' = None ∧ ∃ u t, cv_turns c' = cv_turns c ++ [u; t] ∧ ct_content u = UserMessage text l ∧ ct_author u = User ∧
    ct_status u = Delivered ∧ ct_author t = Assistant ∧
    ct_content t = AssistantText (op_text (build_open_response id GUI_MODEL created (join "" chunks) (meta_of <$> l))).
Proof.
  intros Hc Hcr Hst Hconv Hd Hi. unfold streaming_send. rewrite Hst. cbn [negb run_task].
  rewrite (frames_read to_string from_str frame_error id created _ chunks items Hcr Hi). cbn [vr_model vr_attachments].
  set (full := op_text _). cbn [task_items task_item].
  assert (Forall (λ t, ct_id t ≠ uuid w ∧ (ct_created_at t < clock (S w))%Z) (cv_turns c)) as Ho.
  { apply Forall_forall. intros t Ht. split.
    - intros E. apply (fresh_id clock uuid b64_encode c w w Hc (le_n _)). rewrite <-E. by apply list_elem_of_fmap_2.
    - pose proof (ci_drawn _ _ _ _ _ Hc) as Hdr. rewrite Forall_forall in Hdr. destruct (Hdr t Ht) as [_ (k & Hk & ->)]. apply clock_increases. lia. }
  assert (answering clock uuid w (UserMessage text l) (cv_turns c) None (ap_conversation a)) as Ha by (rewrite Hconv; done).
  destruct (deltas_answer clock uuid w _ _ id chunks [Ok (EvCompleted id full)] _ a clock_increases Ho Ha) as (a' & -> & Ha' & Hw); [lia|].
  cbn [task_items task_item]. pose proof (reply_answers clock uuid clock_increases w _ _ Ho _ full _ _ Ha' Hw) as H.
  destruct (record_assistant_reply _ _ _ _ _ _) as [c' w']. cbn. destruct H as (Hp & u & t & Ht & Hu1 & Hu2 & Hu3 & (Ht1 & Ht2 & _)).
  split; [done|]. exists u, t. by split_and!.
Qed.
End EndToEnd.


(** *** Witnesses *)

Definition demo_typed : App := mkApp (ap_conversation (app_init Z.of_nat Z.of_nat)) PendingInput_default "hi" [] 2.
Definition demo_attached : App :=
  (ingest_attachment Z.of_nat letters_encode (Some "a.sql") (Some "select 1") (Some "text/plain") (render_sync demo_typed)).1.

Lemma demo_reachable : rtc (app_step Z.of_nat Z.of_nat letters_encode) (app_init Z.of_nat Z.of_nat) demo_attached.
Proof.
  eapply rtc_l; [exact (step_type _ _ _ (app_init Z.of_nat Z.of_nat) "hi")|]. eapply rtc_l; [exact (step_render _ _ _ demo_typed)|].
  apply rtc_once. apply step_attach. by intros m [= <-].
Qed.

Definition demo_agent : option (InboundMessage → nat → run (nat * result (option string) string)) :=
  Some (λ msg w, Returns (S w, Ok (Some ("echo: " +:+ in_content msg)))).

Lemma one_turn_pending_witness :
  let a := spawn_send Z.of_nat Z.of_nat demo_attached in
  ct_id <$> retain is_pending (cv_turns (ap_conversation a)) = [3%Z] ∧ NoDup (rt_pending <$> ap_tasks a).
Proof.
  destruct (one_turn_pending Z.of_nat Z.of_nat letters_encode (spawn_send Z.of_nat Z.of_nat demo_attached)) as (H & _ & _ & Hn & _).
  - eapply rtc_r; [exact demo_reachable|]. apply step_send.
  - split; [exact H|exact Hn].
Defined.


(** The same with the agent loop of [LoopService] behind the endpoint. *)
Example loop_behind_endpoint :
  match handle binary_to_string binary_from_str letters_decode (Some (loop_agent (demo_loop [success]))) "r" "s" 5 7
          (mkHttpRequest None (Some "application/json") (Some (binary_to_string (client_request_to_json
            (from_user_turn GUI_MODEL "hello" [] true))))) demo_start with
  | Returns (st, mkHttp 200 "r" (SseBody events)) => (length events, held_texts "hiveclaw:inner" st)
  | _ => (0, [])
  end = (5, [("user", "hello"); ("assistant", "hi")]).
Proof. vm_compute. reflexivity. Qed.

(** Turns are told apart by their times alone: when the clock does not move between two
    exchanges, the second answer replaces the first. *)
Example same_instant_overwrites :
  let still := λ _ : nat, 0%Z in
  let '(c, w) := Conversation_new still Z.of_nat 0 in
  let '(c, w, _) := send_user_message still Z.of_nat "one" [] c w in
  let '(c, w) := record_assistant_reply still Z.of_nat 2 "first" c w in
  let '(c, w, r) := send_user_message still Z.of_nat "two" [] c w in
  let '(c, w) := record_assistant_reply still Z.of_nat (Z.of_nat (w - 2)) "second" c w in
  ct_content <$> cv_turns c = [UserMessage "one" []; AssistantText "second"; UserMessage "two" []].
Proof. vm_compute. reflexivity. Qed.

(** The view copies the editor back after a message was sent: the text stays and is sent again. *)
Example sent_text_returns :
  pi_text (ap_input (spawn_send Z.of_nat Z.of_nat (render_sync demo_typed))) = "" ∧
  pi_text (ap_input (render_sync (spawn_send Z.of_nat Z.of_nat (render_sync demo_typed)))) = "hi".
Proof. split; reflexivity. Qed.

(** The text of a turn is sent as typed, not as [sanitize_user_input] would leave it. *)
Example typed_text_unsanitised :
  let a := mkApp (ap_conversation (app_init Z.of_nat Z.of_nat)) PendingInput_default (String "001" " x") [] 2 in
  ct_content <$> cv_turns (ap_conversation (spawn_send Z.of_nat Z.of_nat (render_sync a))) = [UserMessage (String "001" " x") []] ∧
  sanitize_user_input (String "001" " x") = "x".
Proof. split; reflexivity. Qed.
